(* ===== verification/_CoqProject ===== *)
-Q . S2P
Prelude.v
Fsdata.v
Ring.v
Kstate.v
Spinlock.v
Runqueue.v
Sched.v
SchedInv.v
Fairness.v
Bytes.v
Layout.v
Kalloc.v
Vm.v
PageTable.v
UserMem.v
Printf.v
Quiet.v
Keeps.v
FsLogic.v
Proc.v
ProcInv.v
Console.v
Syscall.v
Sleeplock.v
Bio.v
Cache.v
Block.v
Log.v
Journal.v
Transact.v
TxLogic.v
CrashSafety.v
Fs.v
FreeMap.v
DiskExample.v
FileData.v
Truncate.v
Dirs.v
Mkfs.v
Paths.v
Pipe.v
PipeQueue.v
File.v
Exec.v
Sysfile.v
Virtio.v
Trap.v
TrapInv.v
FsInv.v
Still.v
FsStill.v
Kernel.v
Machine.v
Main.v
Grep.v
ShParse.v
ShRun.v
Umalloc.v
Ulib.v
Utils.v
Start.v
