(* ===== verification/Prelude.v ===== *)
(** * Verification of xv6-riscv with an MLFQ scheduler

    The repository is a Unix-like teaching kernel for RISC-V in C whose
    round-robin scheduler has been replaced by a multi-level feedback queue
    (MLFQ), with its user programs and the tool that builds the disk.  This
    development translates the kernel, the tool [mkfs], and the shell, the
    library and some other user programs into functions on explicit states,
    and proves that they do what they are for.

    ** The program and its model

    The parts of the kernel, from the bottom up, with the files of the
    development that model them and prove properties of them:

    - spinlocks and interrupt control ([kernel/spinlock.c]): [Spinlock];
    - the run queues ([enqueue] to [priority_boost] of [kernel/proc.c]):
      [Runqueue]; the scheduler, [sched], [yield], [sleep], [wakeup], [kkill]:
      [Sched], its invariant in [SchedInv], and [Fairness];
    - memory: [kernel/string.c] in [Bytes], addresses in [Layout],
      [kernel/kalloc.c] in [Kalloc], [kernel/vm.c] in [Vm], what a page table
      means in [PageTable], address spaces in [UserMem];
    - output and devices: [kernel/printf.c] in [Printf]; [kernel/console.c],
      [kernel/uart.c] and [kernel/plic.c] in [Console];
      [kernel/virtio_disk.c] in [Virtio];
    - processes (the rest of [kernel/proc.c]): [Proc], [ProcInv];
    - system calls and traps: [kernel/syscall.c] and [kernel/sysproc.c] in
      [Syscall], [kernel/trap.c] in [Trap] and [TrapInv];
    - the file system: constants and structures in [Fsdata];
      [kernel/sleeplock.c] in [Sleeplock]; [kernel/bio.c] in [Bio], with
      [Ring], [Cache] and [Block]; [kernel/log.c] in [Log], with [Journal],
      [Transact], [TxLogic] and [CrashSafety]; [kernel/fs.c] in [Fs], with
      [FreeMap], [FileData], [Truncate], [Dirs] and [Paths]; [kernel/file.c]
      in [File];
      [kernel/pipe.c] in [Pipe] and [PipeQueue]; [kernel/exec.c] in [Exec];
      [kernel/sysfile.c] in [Sysfile];
    - [kernel/start.c] in [Start] and [kernel/main.c] in [Main]; all parts put
      together in [Kernel] and [Machine].

    Outside of the kernel: [mkfs/mkfs.c] in [Mkfs]; [user/grep.c] in [Grep];
    the shell, [user/sh.c], in [ShParse] and [ShRun]; [user/umalloc.c] in
    [Umalloc]; [user/ulib.c] and [user/printf.c] in [Ulib]; [user/wc.c],
    [user/cat.c] and [user/echo.c] in [Utils].  [DiskExample] is an example
    disk for the witnesses of the file system theorems.

    The parts interact as the code does: a timer interrupt ([Trap]) charges the
    running process and makes it give up the hart through [yield] ([Sched]),
    which puts it under the rule of the queues ([Runqueue]); a system call
    ([Syscall], [Sysfile]) works on processes ([Proc]), memory ([Vm]) and files
    ([File]), which go through inodes ([Fs]), the log ([Log]) and the buffer
    cache ([Bio]) to the driver ([Virtio]), sleeping where they wait.

    ** How the code is represented

    A kernel function is a program of the monad [K kstate] (this file): from a
    state it ends with a result ([Done]), stops ([Stop]: a panic, an access
    through a null pointer or outside of an array, an endless spin), or
    switches context ([Swtch]) with the rest of the program as its
    continuation.  [kstate] ([Kstate]) has the global variables: the process
    table and the run queues, the locks, the registers of the hart, physical
    memory, the devices and the file system state.  Definitions have the names
    of the C functions, and a loop or a piece of a long function is a
    definition of its own, named after the function.  Integers are in [Z] and
    are cut to their width ([s32], [u32], [u64] and so on) where the code can
    overflow.  A pointer into a table is an index; a pointer to memory is an
    address, and memory holds bytes.  [swtch] is the operation [swtch] of the
    monad; what happens between giving up the hart and getting it back is a
    relation on states.

    [wp E G R m Q] (this file) says of a program that it stops only for
    reasons [E], that [G] holds whenever it gives up the hart, that it may
    rely on [R] when it gets it back, and that it ends with [Q].  [runs m Q]
    says that a program ends without a switch.  [Quiet], [Keeps], [FsLogic],
    [TxLogic] and [Still] are rules for kinds of programs built on [wp], with
    hint databases and tactics that go through the text of a program.

    Interfaces are type classes.  [FsOps], [SysFileOps], [DiskOps] and
    [DiskRw] are the operations that the process, trap and file system code
    calls; [FsOk], [SysFileOk] and [DiskOk] are what it relies on.  [Kernel]
    instantiates the former by the code and proves the latter; [Symbols]
    are the addresses the linker chooses.

    ** What is proved

    The whole kernel on one hart ([Main]): [main] establishes the scheduling
    invariant, and then, whatever user programs and devices do, every reachable
    configuration has well-formed queues and no lock held outside of the
    kernel, each context switch finds what it relies on, and the kernel stops
    only for listed reasons.  [kexit] never returns.

    Scheduling: the linked queues refine lists; a turn of the scheduler runs
    exactly the process the policy chooses; a timer tick charges and demotes
    as documented; [yield], [sleep] and [wakeup] keep their contracts; no
    process starves between boosts; a process killed in its sleep is not
    queued.

    Locks: mutual exclusion under any interleaving of harts, one memory access
    at a time; [push_off] and [pop_off] balance.

    Memory: the page allocator refines a stack of pages; address spaces lose
    no page; [uvmcopy] copies; [copyout] and [copyin] are inverse.

    File system: a transaction is atomic when the machine may crash at any
    write, and recovery may be interrupted and repeated; a transaction that
    fills the log panics.  Within a transaction, [balloc] and [bfree] refine a
    set of free blocks, [readi] and [writei] a list of bytes, [dirlookup] and
    [dirlink] a finite map; [itrunc] empties a file and frees exactly its
    blocks; [skipelem] splits a path; a pipe refines a bounded queue of bytes.  The image that [mkfs] writes is well formed in
    the sense of these theorems.

    Output and user programs: [printf] prints the text its format describes;
    [grep] selects the lines that match; the shell parses its grammar and runs
    the commands of a script; a program that uses [malloc] and [free] sees
    independent blocks of bytes; [wc] writes the numbers of lines, words and
    bytes of its files.

    ** Bounds

    Loops that are not structural take a number of turns and end with
    [StopFuel] when it runs out.  Where it is computed from the data (pages of
    a range, blocks of a file, entries of a directory, queues of [NPROC]
    processes, [turns] below), the theorems show that it is enough.  The loops
    that wait for an event ([sleep] in a loop) take a parameter [fuel] that
    bounds how often they go back to sleep; the theorems that say that an
    operation ends hold for every positive bound, since nobody else holds what
    it would wait for, and the invariants hold for every bound.

    ** What is not modelled

    - Several harts at once: [Spinlock] interleaves harts, the other files run
      the kernel on one hart, and interrupts are taken in user mode and
      between turns of the scheduler.
    - The assembly ([entry.S], [swtch.S], [trampoline.S], [kernelvec.S]):
      [Machine] has the switch of contexts and the traps as steps.
    - The TLB, memory ordering and device timing.  A device may change its
      registers and the memory it shares at any step of the outside world.
    - What the kernel leaves in uninitialised local arrays is a parameter
      [junk].
    - User programs that only make system calls in sequence ([init], [ls],
      [kill], [ln], [mkdir], [rm], the demonstrations of the scheduler) and the
      test programs.  The programs that are modelled run on the documented
      behaviour of the system calls they make, not on the kernel model.
    - [readi], [writei] and the other file theorems are about one process
      inside a transaction; that they keep the invariant when processes
      interleave at their sleeps is part of the theorem on the whole kernel.
      That [iput] never has to wait for the sleep-lock it takes while it holds
      [itable.lock] is not proved. *)

From Stdlib Require Export Ascii String.
From stdpp Require Export base tactics gmap strings numbers functions list.

#[global] Set Default Goal Selector "!".

(** ** Record update

    [r <| f := v |>] is the record [r] with its field [f] set to [v], the
    model of the assignment [r.f = v].  A record type registers its
    eta-expansion with [Eta]; the setter of a projection is then found by
    abstracting the projection out of that eta-expansion. *)

Class Eta (R : Type) := eta : R → R.
Class Setter {R T} (proj : R → T) := upd : (T → T) → R → R.
#[global] Hint Mode Setter - - + : typeclass_instances.

Ltac solve_setter :=
  lazymatch goal with
  | |- @Setter ?R ?T ?proj =>
      let e := constr:(_ : Eta R) in
      let e := eval cbv delta [eta] in e in
      let e := lazymatch e with
               | context [proj] => e
               | _ => eval unfold e in e
               end in
      let h := eval pattern proj in e in
      lazymatch h with
      | ?f _ => exact (λ (g : T → T) (r : R), f (λ r', g (proj r')) r)
      end
  end.

Declare Scope record_scope.
Notation "r <| f ::= g |>" := (upd (proj:=f) g r)
  (at level 1, f at level 0, left associativity,
   format "r <| f  ::=  g |>") : record_scope.
Notation "r <| f := v |>" := (upd (proj:=f) (λ _, v) r)
  (at level 1, f at level 0, left associativity,
   format "r <| f  :=  v |>") : record_scope.
#[global] Open Scope record_scope.

(** ** Characters

    A character is its code; a string is the list of its characters. *)

(** the characters of a literal *)
Definition str (s : string) : list Z :=
  (λ c, Z.of_N (N_of_ascii c)) <$> list_ascii_of_string s.
Definition chr (s : string) : Z := default 0%Z (head (str s)).

(** ** Machine integers

    A C integer is a [Z]; the conversions below are the wrap-around of the
    type it is stored in. *)

Definition u8 (x : Z) : Z := x mod 2 ^ 8.
Definition u16 (x : Z) : Z := x mod 2 ^ 16.
Definition u32 (x : Z) : Z := x mod 2 ^ 32.
Definition u64 (x : Z) : Z := x mod 2 ^ 64.
(** two's complement *)
Definition s8 (x : Z) : Z := (x + 2 ^ 7) mod 2 ^ 8 - 2 ^ 7.
Definition s16 (x : Z) : Z := (x + 2 ^ 15) mod 2 ^ 16 - 2 ^ 15.
Definition s32 (x : Z) : Z := (x + 2 ^ 31) mod 2 ^ 32 - 2 ^ 31.

Lemma u32_small x : (0 ≤ x < 2 ^ 32)%Z → u32 x = x.
Proof. apply Z.mod_small. Qed.
Lemma u64_small x : (0 ≤ x < 2 ^ 64)%Z → u64 x = x.
Proof. apply Z.mod_small. Qed.
Lemma s32_small x : (- 2 ^ 31 ≤ x < 2 ^ 31)%Z → s32 x = x.
Proof. intros. unfold s32. rewrite Z.mod_small; lia. Qed.
Lemma u32_range x : (0 ≤ u32 x < 2 ^ 32)%Z.
Proof. apply Z.mod_pos_bound. lia. Qed.
Lemma u64_range x : (0 ≤ u64 x < 2 ^ 64)%Z.
Proof. apply Z.mod_pos_bound. lia. Qed.
Lemma s32_range x : (- 2 ^ 31 ≤ s32 x < 2 ^ 31)%Z.
Proof. unfold s32. pose proof (Z.mod_pos_bound (x + 2 ^ 31) (2 ^ 32)). lia. Qed.

(** ** The kernel monad

    Kernel code runs on a state and ends in one of three ways: it returns,
    it stops for good (a [panic], an access outside an object, a spin on a
    lock nobody will release), or it calls [swtch] and hands the state to
    another kernel thread.  In the last case the outcome carries the
    continuation that runs when some thread switches back. *)

Inductive stop : Type :=
| StopPanic (msg : string)   (* panic(msg) *)
| StopFault                  (* null pointer or index out of range *)
| StopSpin                   (* spins on a held lock *)
| StopFuel                   (* the bound of a loop ran out *)
| StopFrozen.                (* frozen by an earlier panic *)

Inductive res (S A : Type) : Type :=
| Done (a : A) (s : S)
| Stop (e : stop)
| Swtch (s : S) (k : S → res S A).
Arguments Done {S A} a s.
Arguments Stop {S A} e.
Arguments Swtch {S A} s k.

Definition K (S A : Type) : Type := S → res S A.

Section monad.
Context {S : Type}.

Definition ret {A} (a : A) : K S A := λ s, Done a s.
Definition stop_with {A} (e : stop) : K S A := λ _, Stop e.
Definition panic {A} (msg : string) : K S A := stop_with (StopPanic msg).
Definition fault {A} : K S A := stop_with StopFault.
Definition get : K S S := λ s, Done s s.
Definition gets {A} (f : S → A) : K S A := λ s, Done (f s) s.
Definition modify (f : S → S) : K S unit := λ s, Done tt (f s).
(** transfer to the other context; returns when something switches back *)
Definition swtch : K S unit := λ s, Swtch s (λ s', Done tt s').

Fixpoint bindr {A B} (m : res S A) (k : A → K S B) : res S B :=
  match m with
  | Done a s => k a s
  | Stop e => Stop e
  | Swtch s c => Swtch s (λ s', bindr (c s') k)
  end.
Definition bind {A B} (m : K S A) (k : A → K S B) : K S B :=
  λ s, bindr (m s) k.

Definition when (b : bool) (m : K S unit) : K S unit := if b then m else ret tt.

(** [deref p] is the object a pointer refers to; a null pointer faults. *)
Definition deref {A} (p : option A) : K S A :=
  match p with Some a => ret a | None => fault end.

(** [for(x in l) body]; the second form can return from inside the loop. *)
Fixpoint for_each {X} (l : list X) (body : X → K S unit) : K S unit :=
  match l with
  | [] => ret tt
  | x :: l' => bind (body x) (λ _, for_each l' body)
  end.
Fixpoint for_find {X R} (l : list X) (body : X → K S (option R)) : K S (option R) :=
  match l with
  | [] => ret None
  | x :: l' => bind (body x) (λ r, match r with
                                   | Some v => ret (Some v)
                                   | None => for_find l' body
                                   end)
  end.
(** [while(1) body], left when the body gives a result *)
Fixpoint loop {R} (fuel : nat) (body : K S (option R)) : K S R :=
  match fuel with
  | O => stop_with StopFuel
  | Datatypes.S n => bind body (λ r, match r with
                             | Some v => ret v
                             | None => loop n body
                             end)
  end.
(** [for(i = ...; i < bound; i += step) body], at most [fuel] turns; the
    bound is read before each turn *)
Fixpoint for_below {R} (fuel : nat) (bound : K S Z) (i step : Z) (body : Z → K S (option R)) : K S (option R) :=
  match fuel with
  | O => stop_with StopFuel
  | Datatypes.S n => bind bound (λ b,
      if (i <? b)%Z then
        bind (body i) (λ r, match r with
                            | Some v => ret (Some v)
                            | None => for_below n bound (i + step)%Z step body
                            end)
      else ret None)
  end.
(** [while(c) body], at most [fuel] turns *)
Fixpoint while_do (fuel : nat) (c : K S bool) (body : K S unit) : K S unit :=
  match fuel with
  | O => stop_with StopFuel
  | Datatypes.S n => bind c (λ b, if b then bind body (λ _, while_do n c body) else ret tt)
  end.
End monad.

(** enough turns for a loop that counts to [n] in steps of [step] *)
Definition turns (n step : Z) : nat := Datatypes.S (Datatypes.S (Z.to_nat (n / step))).

Declare Scope kern_scope.
Delimit Scope kern_scope with kern.
Notation "'let*' x ':=' m 'in' k" := (bind m (λ x, k))
  (at level 10, x pattern, m at level 200, k at level 200,
   format "'let*'  x  ':='  m  'in' '//' k") : kern_scope.
Notation "m ;; k" := (bind m (λ _, k))
  (at level 100, k at level 200, right associativity,
   format "'[v' m ;; '/' k ']'") : kern_scope.

(** ** Postconditions

    [wp E G R m Q]: the run [m] stops only for reasons in [E], satisfies [G]
    whenever it switches away, and, if every state [s'] in which it is
    resumed after switching away in [s] satisfies [R s s'], ends in a state
    satisfying [Q].  A run that stops for any other reason, or runs out of
    fuel, satisfies no [wp] with [E] empty. *)

Section wp.
Context {S : Type} (E : stop → Prop) (G : S → Prop) (R : S → S → Prop).

Fixpoint wp {A} (m : res S A) (Q : A → S → Prop) : Prop :=
  match m with
  | Done a s => Q a s
  | Stop e => E e
  | Swtch s k => G s ∧ ∀ s', R s s' → wp (k s') Q
  end.

Lemma wp_mono {A} (m : res S A) (Q Q' : A → S → Prop) :
  (∀ a s, Q a s → Q' a s) → wp m Q → wp m Q'.
Proof.
  intros HQ. induction m as [a s|e|s k IH]; simpl; [apply HQ|done|].
  intros [HG Hk]. split; [done|]. intros s' HR. apply IH, Hk, HR.
Qed.

Lemma wp_bindr {A B} (m : res S A) (k : A → K S B) Q :
  wp m (λ a s, wp (k a s) Q) → wp (bindr m k) Q.
Proof.
  induction m as [a s|e|s c IH]; simpl; [done|done|].
  intros [HG Hc]. split; [done|]. intros s' HR. apply IH, Hc, HR.
Qed.

Lemma wp_bind {A B} (m : K S A) (k : A → K S B) s Q :
  wp (m s) (λ a s', wp (k a s') Q) → wp (bind m k s) Q.
Proof. apply wp_bindr. Qed.

Lemma wp_bind_inv {A B} (m : K S A) (k : A → K S B) s Q :
  wp (bind m k s) Q → wp (m s) (λ a s', wp (k a s') Q).
Proof.
  unfold bind. generalize (m s). intros r. induction r as [a s1|e|s1 c IH]; simpl; [done|done|].
  intros [HG Hc]. split; [done|]. intros s' HR. apply IH, Hc, HR.
Qed.

Lemma wp_swtch s (Q : unit → S → Prop) :
  G s → (∀ s', R s s' → Q tt s') → wp (swtch s) Q.
Proof. by simpl. Qed.

(** loop rule: the invariant is indexed by the elements already visited *)
Lemma wp_for_each {X} (l : list X) (body : X → K S unit) (Inv : list X → S → Prop) s :
  Inv [] s →
  (∀ done x rest s, l = done ++ x :: rest → Inv done s →
     wp (body x s) (λ _, Inv (done ++ [x]))) →
  wp (for_each l body s) (λ _, Inv l).
Proof.
  intros H0 Hstep.
  cut (∀ rest done s, l = done ++ rest → Inv done s →
        wp (for_each rest body s) (λ _, Inv l)).
  { intros H. by apply (H l []). }
  clear s H0. induction rest as [|x rest IH]; intros done s Hl Hinv; simpl.
  - by rewrite app_nil_r in Hl; subst.
  - apply wp_bind. eapply wp_mono; [|by eapply Hstep]. simpl.
    intros _ s' Hinv'. apply (IH (done ++ [x])); [|done].
    by rewrite <- app_assoc.
Qed.

Lemma wp_for_find {X T} (l : list X) (body : X → K S (option T))
    (Inv : list X → S → Prop) (Q : option T → S → Prop) s :
  Inv [] s →
  (∀ done x rest s, l = done ++ x :: rest → Inv done s →
     wp (body x s) (λ r s', match r with
                            | Some v => Q (Some v) s'
                            | None => Inv (done ++ [x]) s'
                            end)) →
  (∀ s, Inv l s → Q None s) →
  wp (for_find l body s) Q.
Proof.
  intros H0 Hstep Hend.
  cut (∀ rest done s, l = done ++ rest → Inv done s →
        wp (for_find rest body s) Q).
  { intros H. by apply (H l []). }
  clear s H0. induction rest as [|x rest IH]; intros done s Hl Hinv; simpl.
  - rewrite app_nil_r in Hl; subst. by apply Hend.
  - apply wp_bind. eapply wp_mono; [|by eapply Hstep]. simpl.
    intros [v|] s' Hr; [done|]. apply (IH (done ++ [x])); [|done].
    by rewrite <- app_assoc.
Qed.
End wp.

Arguments wp : simpl never.

Lemma wp_done {S A} E G R (a : A) (s : S) Q :
  Q a s → wp E G R (Done a s) Q.
Proof. done. Qed.

(** Runs that never switch: the outcome is a plain result. *)
Lemma wp_eq {S A} E G R (m : res S A) a s (Q : A → S → Prop) :
  m = Done a s → Q a s → wp E G R m Q.
Proof. by intros ->. Qed.

(** the rule of consequence *)
Lemma wp_conseq {S A} (E E' : stop → Prop) (G G' : S → Prop) (R R' : S → S → Prop)
    (m : res S A) Q :
  (∀ e, E e → E' e) → (∀ s, G s → G' s) → (∀ s s', G s → R' s s' → R s s') →
  wp E G R m Q → wp E' G' R' m Q.
Proof.
  intros HE HG HR. induction m as [a s|e|s k IH]; [done|apply HE|].
  intros [Hg Hk]. split; [by apply HG|]. intros s' Hs. apply IH, Hk. by apply HR.
Qed.

(** does the run switch away? *)
Definition switches {S A} (m : res S A) : bool :=
  match m with Swtch _ _ => true | _ => false end.
Lemma wp_switches {S A} E G R (m : res S A) Q :
  wp E G R m Q → switches m = true → ∃ s k, m = Swtch s k ∧ G s.
Proof. destruct m as [| |s k]; [done|done|]. intros [? _] _. by exists s, k. Qed.

(** [runs m Q]: the run ends, without stopping or switching, as [Q] says. *)
Definition runs {S A} (m : res S A) (Q : A → S → Prop) : Prop :=
  ∃ a s, m = Done a s ∧ Q a s.
Lemma runs_wp {S A} (m : res S A) Q :
  wp (λ _, False) (λ _, False) (λ _ _, False) m Q → runs m Q.
Proof. destruct m as [a s|e|s k]; [by exists a, s|done|by intros [? _]]. Qed.
Lemma wp_of_runs {S A} E G R (m : res S A) Q : runs m Q → wp E G R m Q.
Proof. by intros (a & s & -> & HQ). Qed.

Lemma bind_Done {S A B} (m : K S A) (k : A → K S B) s a s' :
  m s = Done a s' → bind m k s = k a s'.
Proof. intros H. unfold bind. by rewrite H. Qed.

Lemma for_each_app {S X} (l1 l2 : list X) (body : X → K S unit) s s' :
  for_each l1 body s = Done tt s' →
  for_each (l1 ++ l2) body s = for_each l2 body s'.
Proof.
  revert s. induction l1 as [|x l1 IH]; intros s; simpl.
  - unfold ret. intros [= ->]. done.
  - unfold bind. destruct (body x s) as [[] s1| |]; simpl; [apply IH|done|done].
Qed.

(** ** Bits *)

Lemma land_bit x k : (0 ≤ k)%Z → (Z.land x (Z.shiftl 1 k) =? 0)%Z = negb (Z.testbit x k).
Proof.
  intros Hk. rewrite Z.shiftl_1_l. destruct (Z.testbit x k) eqn:Hb.
  - apply Z.eqb_neq. intros He. assert (Hz : Z.testbit (Z.land x (2 ^ k)) k = false) by (by rewrite He, Z.bits_0).
    by rewrite Z.land_spec, Hb, Z.pow2_bits_true in Hz.
  - apply Z.eqb_eq, Z.bits_inj'. intros n Hn. rewrite Z.land_spec, Z.bits_0.
    destruct (Z.eq_dec n k) as [-> |]; [by rewrite Hb|]. rewrite Z.pow2_bits_false by lia. apply andb_false_r.
Qed.

(** ** Lists *)

Lemma head_app_ne {A} (l1 l2 : list A) : l1 ≠ [] → head (l1 ++ l2) = head l1.
Proof. by destruct l1. Qed.

(** the first element of the first nonempty list *)
Lemma head_concat {A} (qs : list (list A)) i x q :
  (∀ j, (j < i)%nat → qs !! j = Some []) → qs !! i = Some (x :: q) → head (concat qs) = Some x.
Proof.
  revert i. induction qs as [|q0 qs IH]; intros i Hj Hi; [done|]. destruct i as [|i].
  - simpl in Hi. by simplify_eq.
  - specialize (Hj 0%nat) as H0. simpl in H0. rewrite (inj Some _ _ (H0 ltac:(lia))). simpl.
    apply (IH i); [|done]. intros j Hlt. apply (Hj (Datatypes.S j)). lia.
Qed.

Lemma concat_all_nil {A} (qs : list (list A)) :
  (∀ j q, qs !! j = Some q → q = []) → concat qs = [].
Proof.
  induction qs as [|q0 qs IH]; intros Hj; [done|]. simpl.
  rewrite (Hj 0%nat q0) by done. apply IH. intros j q. apply (Hj (Datatypes.S j)).
Qed.

Lemma NoDup_concat_insert_app {A} (qs : list (list A)) i q x :
  qs !! i = Some q → x ∉ concat qs → NoDup (concat qs) →
  NoDup (concat (<[i:=q ++ [x]]> qs)).
Proof.
  intros Hi Hx Hnd.
  rewrite <- (take_drop_middle qs i q Hi), concat_app in Hx, Hnd. simpl in Hx, Hnd.
  rewrite insert_take_drop by (by eapply lookup_lt_Some).
  rewrite concat_app. simpl.
  assert (Hp : concat (take i qs) ++ (q ++ [x]) ++ concat (drop (Datatypes.S i) qs)
           ≡ₚ x :: (concat (take i qs) ++ q ++ concat (drop (Datatypes.S i) qs)))
    by (rewrite <- app_assoc, app_assoc, (app_assoc _ q); symmetry;
        apply Permutation_middle).
  rewrite Hp. by constructor.
Qed.

Lemma elem_of_concat_insert {A} (qs : list (list A)) i q q' x :
  qs !! i = Some q →
  x ∈ concat (<[i:=q']> qs) → x ∈ q' ∨ x ∈ concat qs.
Proof.
  intros Hi. rewrite insert_take_drop by (by eapply lookup_lt_Some).
  assert (concat qs = concat (take i qs) ++ q ++ concat (drop (Datatypes.S i) qs)) as ->.
  { by rewrite <- (take_drop_middle qs i q Hi) at 1; rewrite concat_app. }
  rewrite !concat_app. simpl. rewrite !elem_of_app. tauto.
Qed.

Lemma elem_of_concat {A} (qs : list (list A)) (x : A) :
  x ∈ concat qs ↔ ∃ i q, qs !! i = Some q ∧ x ∈ q.
Proof.
  rewrite list_elem_of_In, in_concat. split.
  - intros (q & Hq & Hx). apply list_elem_of_In, list_elem_of_lookup in Hq as [i Hi].
    exists i, q. by rewrite list_elem_of_In.
  - intros (i & q & Hi & Hx). exists q. rewrite <- !list_elem_of_In.
    split; [by eapply list_elem_of_lookup_2|done].
Qed.

Lemma NoDup_concat_lookup {A} (qs : list (list A)) i q :
  NoDup (concat qs) → qs !! i = Some q → NoDup q.
Proof.
  intros Hnd Hq. rewrite <- (take_drop_middle qs i q Hq), concat_app in Hnd. simpl in Hnd.
  apply NoDup_app in Hnd as (_ & _ & Hnd). by apply NoDup_app in Hnd as (? & _ & _).
Qed.

Lemma NoDup_concat_inj {A} (qs : list (list A)) i j q1 q2 x :
  NoDup (concat qs) → qs !! i = Some q1 → qs !! j = Some q2 → x ∈ q1 → x ∈ q2 → i = j.
Proof.
  intros Hnd H1 H2 Hx1 Hx2. revert i j H1 H2 Hnd.
  induction qs as [|q qs IH]; intros i j H1 H2 Hnd; [done|].
  simpl in Hnd. apply NoDup_app in Hnd as (_ & Hd & Hnd).
  destruct i as [|i], j as [|j]; simpl in *; simplify_eq; [done| | |f_equal; eauto];
    exfalso; eapply Hd; eauto; apply elem_of_concat; eauto.
Qed.

Lemma NoDup_concat_insert_sublist {A} (qs : list (list A)) i q q' :
  qs !! i = Some q → q' `sublist_of` q → NoDup (concat qs) → NoDup (concat (<[i:=q']> qs)).
Proof.
  intros Hi Hsub Hnd. eapply sublist_NoDup; [exact Hnd|].
  rewrite <- (take_drop_middle qs i q Hi) at 2.
  rewrite insert_take_drop by (by eapply lookup_lt_Some). rewrite !concat_app. simpl.
  by apply sublist_app; [|apply sublist_app].
Qed.

Lemma NoDup_bounded_length (q : list nat) n :
  NoDup q → (∀ i, i ∈ q → i < n) → length q ≤ n.
Proof.
  intros Hnd Hlt. transitivity (length (seq 0 n)); [|by rewrite length_seq].
  apply submseteq_length, NoDup_submseteq; [done|].
  intros i Hi. apply elem_of_seq. specialize (Hlt i Hi). lia.
Qed.

Lemma length_lookup_eq {A B} (l : list A) (k : list B) :
  (∀ i, is_Some (l !! i) ↔ is_Some (k !! i)) → length l = length k.
Proof.
  intros H. pose proof (H (length l)) as H1. pose proof (H (length k)) as H2.
  rewrite !lookup_lt_is_Some in H1. rewrite !lookup_lt_is_Some in H2. lia.
Qed.

Lemma list_alter_insert_eq {A} (f : A → A) (l : list A) i x :
  l !! i = Some x → alter f i l = <[i := f x]> l.
Proof.
  intros Hi. apply list_eq. intros j. rewrite list_lookup_insert.
  destruct (decide (i = j)) as [->|Hne].
  - rewrite list_lookup_alter_eq, Hi. simpl.
    by rewrite decide_True by (split; [done|by eapply lookup_lt_Some]).
  - rewrite list_lookup_alter_ne by done. rewrite decide_False by naive_solver. done.
Qed.

(** the position of a [for] loop over a table *)
Lemma seq_middle n (l : list nat) p l' :
  seq 0 n = l ++ p :: l' → l = seq 0 p ∧ p < n.
Proof.
  intros Heq.
  assert (Hp : seq 0 n !! length l = Some p) by (rewrite Heq; by apply list_lookup_middle).
  apply lookup_seq in Hp as [-> Hlt]. simpl. split; [|done].
  transitivity (take (length l) (seq 0 n)); [by rewrite Heq, take_app_length|].
  rewrite take_seq. f_equal. lia.
Qed.

Lemma Forall2_insert_upd {A B} (P P' : A → B → Prop) l k i x y :
  Forall2 P l k → P' x y →
  (∀ j a b, j ≠ i → l !! j = Some a → k !! j = Some b → P a b → P' a b) →
  Forall2 P' (<[i:=x]> l) (<[i:=y]> k).
Proof.
  intros HF Hxy Himp. pose proof (Forall2_length _ _ _ HF) as Hlen.
  apply Forall2_same_length_lookup. rewrite !length_insert. split; [done|].
  intros j a b Ha Hb. rewrite list_lookup_insert in Ha. rewrite list_lookup_insert in Hb.
  rewrite Hlen in Ha. case_decide as Hd; [naive_solver|].
  destruct (decide (i = j)) as [<-|Hne].
  { exfalso. apply Hd. split; [done|]. by eapply lookup_lt_Some. }
  eapply Himp; eauto. by eapply Forall2_lookup_lr.
Qed.

(** ** Step relations *)

Lemma rtc_invariant {A} (R : relation A) (I : A → Prop) x y :
  (∀ a b, I a → R a b → I b) → I x → rtc R x y → I y.
Proof. intros Hstep Hx Hr. revert Hx. induction Hr; eauto. Qed.
