(* ===== verification/Fsdata.v ===== *)
(** * The data of the file system

    The constants of [kernel/param.h], [kernel/fs.h], [kernel/stat.h] and
    [kernel/fcntl.h]; the structures of [kernel/buf.h], [kernel/sleeplock.h],
    [kernel/fs.h], [kernel/file.h] and [kernel/log.c]; and the record [fsst]
    of the global variables of the file system, with the contents of the
    disk.  A block is the list of its bytes. *)

From S2P Require Import Prelude.

(** ** Constants *)

Definition NFILE : nat := 100.
Definition NINODE : nat := 50.
Definition NDEV : nat := 10.
Definition MAXOPBLOCKS : nat := 10.
Definition LOGBLOCKS : nat := MAXOPBLOCKS * 3.
Definition NBUF : nat := MAXOPBLOCKS * 3.
Definition BSIZE : Z := 1024.
Definition NDIRECT : nat := 12.
Definition NUM : nat := 8.
Definition O_RDONLY : Z := 0.
Definition O_WRONLY : Z := 1.
Definition O_RDWR : Z := 2.
Definition O_CREATE : Z := 0x200.
Definition O_TRUNC : Z := 0x400.

(** ** Sleep-locks

    The buffers' locks come first, then the inodes'. *)

Record sleeplock := mk_sleeplock { sl_locked : Z; sl_pid : Z }.
#[export] Instance eta_sleeplock : Eta sleeplock := λ r, mk_sleeplock (sl_locked r) (sl_pid r).
#[export] Instance set_sl_locked : Setter sl_locked. Proof. solve_setter. Defined.
#[export] Instance set_sl_pid : Setter sl_pid. Proof. solve_setter. Defined.
Definition buf_lk (b : nat) : nat := b.
Definition inode_lk (ip : nat) : nat := NBUF + ip.

(** ** The buffer cache

    [bcache.buf] and, as the last entry, [bcache.head]; the link of the list
    is the index of an entry. *)

Record buf := mk_buf {
  b_valid : Z; b_disk : Z; b_dev : Z; b_blockno : Z; b_refcnt : Z;
  b_prev : option nat; b_next : option nat; b_data : list Z
}.
#[export] Instance eta_buf : Eta buf := λ r,
  mk_buf (b_valid r) (b_disk r) (b_dev r) (b_blockno r) (b_refcnt r) (b_prev r) (b_next r) (b_data r).
#[export] Instance set_b_valid : Setter b_valid. Proof. solve_setter. Defined.
#[export] Instance set_b_disk : Setter b_disk. Proof. solve_setter. Defined.
#[export] Instance set_b_dev : Setter b_dev. Proof. solve_setter. Defined.
#[export] Instance set_b_blockno : Setter b_blockno. Proof. solve_setter. Defined.
#[export] Instance set_b_refcnt : Setter b_refcnt. Proof. solve_setter. Defined.
#[export] Instance set_b_prev : Setter b_prev. Proof. solve_setter. Defined.
#[export] Instance set_b_next : Setter b_next. Proof. solve_setter. Defined.
#[export] Instance set_b_data : Setter b_data. Proof. solve_setter. Defined.
Definition bcache_head : nat := NBUF.
Definition zero_block : list Z := replicate (Z.to_nat BSIZE) 0%Z.
Definition buf0 : buf := mk_buf 0 0 0 0 0 None None zero_block.

(** ** The log *)

Record logst := mk_logst {
  log_start : Z; log_outstanding : Z; log_committing : Z; log_dev : Z;
  lh_n : Z; lh_block : list Z
}.
#[export] Instance eta_logst : Eta logst := λ r,
  mk_logst (log_start r) (log_outstanding r) (log_committing r) (log_dev r) (lh_n r) (lh_block r).
#[export] Instance set_log_start : Setter log_start. Proof. solve_setter. Defined.
#[export] Instance set_log_outstanding : Setter log_outstanding. Proof. solve_setter. Defined.
#[export] Instance set_log_committing : Setter log_committing. Proof. solve_setter. Defined.
#[export] Instance set_log_dev : Setter log_dev. Proof. solve_setter. Defined.
#[export] Instance set_lh_n : Setter lh_n. Proof. solve_setter. Defined.
#[export] Instance set_lh_block : Setter lh_block. Proof. solve_setter. Defined.

(** ** The superblock *)

Record superblock := mk_superblock {
  sb_magic : Z; sb_size : Z; sb_nblocks : Z; sb_ninodes : Z; sb_nlog : Z;
  sb_logstart : Z; sb_inodestart : Z; sb_bmapstart : Z
}.

(** ** Inodes *)

Record inode := mk_inode {
  i_dev : Z; i_inum : Z; i_ref : Z; i_valid : Z;
  i_type : Z; i_major : Z; i_minor : Z; i_nlink : Z; i_size : Z; i_addrs : list Z
}.
#[export] Instance eta_inode : Eta inode := λ r,
  mk_inode (i_dev r) (i_inum r) (i_ref r) (i_valid r) (i_type r) (i_major r) (i_minor r) (i_nlink r)
    (i_size r) (i_addrs r).
#[export] Instance set_i_dev : Setter i_dev. Proof. solve_setter. Defined.
#[export] Instance set_i_inum : Setter i_inum. Proof. solve_setter. Defined.
#[export] Instance set_i_ref : Setter i_ref. Proof. solve_setter. Defined.
#[export] Instance set_i_valid : Setter i_valid. Proof. solve_setter. Defined.
#[export] Instance set_i_type : Setter i_type. Proof. solve_setter. Defined.
#[export] Instance set_i_major : Setter i_major. Proof. solve_setter. Defined.
#[export] Instance set_i_minor : Setter i_minor. Proof. solve_setter. Defined.
#[export] Instance set_i_nlink : Setter i_nlink. Proof. solve_setter. Defined.
#[export] Instance set_i_size : Setter i_size. Proof. solve_setter. Defined.
#[export] Instance set_i_addrs : Setter i_addrs. Proof. solve_setter. Defined.
Definition inode0 : inode := mk_inode 0 0 0 0 0 0 0 0 0 (replicate (S NDIRECT) 0%Z).

(** ** Open files *)

Inductive filetype := FD_NONE | FD_PIPE | FD_INODE | FD_DEVICE.
#[export] Instance filetype_eq_dec : EqDecision filetype.
Proof. solve_decision. Defined.
Record file := mk_file {
  f_type : filetype; f_ref : Z; f_readable : Z; f_writable : Z;
  f_pipe : Z; f_ip : option nat; f_off : Z; f_major : Z
}.
#[export] Instance eta_file : Eta file := λ r,
  mk_file (f_type r) (f_ref r) (f_readable r) (f_writable r) (f_pipe r) (f_ip r) (f_off r) (f_major r).
#[export] Instance set_f_type : Setter f_type. Proof. solve_setter. Defined.
#[export] Instance set_f_ref : Setter f_ref. Proof. solve_setter. Defined.
#[export] Instance set_f_readable : Setter f_readable. Proof. solve_setter. Defined.
#[export] Instance set_f_writable : Setter f_writable. Proof. solve_setter. Defined.
#[export] Instance set_f_pipe : Setter f_pipe. Proof. solve_setter. Defined.
#[export] Instance set_f_ip : Setter f_ip. Proof. solve_setter. Defined.
#[export] Instance set_f_off : Setter f_off. Proof. solve_setter. Defined.
#[export] Instance set_f_major : Setter f_major. Proof. solve_setter. Defined.
Definition file0 : file := mk_file FD_NONE 0 0 0 0 None 0 0.

(** ** The disk driver

    [struct disk] of [kernel/virtio_disk.c]: the addresses of the three
    queue pages, and the driver's own records. *)

Record blk_req := mk_blk_req { rq_type : Z; rq_reserved : Z; rq_sector : Z }.
Record vdisk := mk_vdisk {
  vd_desc : Z; vd_avail : Z; vd_used : Z;
  vd_free : list Z; vd_used_idx : Z;
  vd_info_b : list (option nat); vd_info_status : list Z; vd_ops : list blk_req
}.
#[export] Instance eta_vdisk : Eta vdisk := λ r,
  mk_vdisk (vd_desc r) (vd_avail r) (vd_used r) (vd_free r) (vd_used_idx r) (vd_info_b r) (vd_info_status r)
    (vd_ops r).
#[export] Instance set_vd_desc : Setter vd_desc. Proof. solve_setter. Defined.
#[export] Instance set_vd_avail : Setter vd_avail. Proof. solve_setter. Defined.
#[export] Instance set_vd_used : Setter vd_used. Proof. solve_setter. Defined.
#[export] Instance set_vd_free : Setter vd_free. Proof. solve_setter. Defined.
#[export] Instance set_vd_used_idx : Setter vd_used_idx. Proof. solve_setter. Defined.
#[export] Instance set_vd_info_b : Setter vd_info_b. Proof. solve_setter. Defined.
#[export] Instance set_vd_info_status : Setter vd_info_status. Proof. solve_setter. Defined.
#[export] Instance set_vd_ops : Setter vd_ops. Proof. solve_setter. Defined.
Definition vdisk0 : vdisk :=
  mk_vdisk 0 0 0 (replicate NUM 0%Z) 0 (replicate NUM None) (replicate NUM 0%Z) (replicate NUM (mk_blk_req 0 0 0)).

(** ** The state

    [disk_writes] is the history of the disk: the blocks written, newest
    first; a block that was never written reads as zeros. *)

Record fsst := mk_fsst {
  sleeplocks : list sleeplock;
  bufs : list buf;
  log : logst;
  sb : superblock;
  inodes : list inode;
  files : list file;
  vd : vdisk;
  disk_writes : list (Z * list Z)
}.
#[export] Instance eta_fsst : Eta fsst := λ r,
  mk_fsst (sleeplocks r) (bufs r) (log r) (sb r) (inodes r) (files r) (vd r) (disk_writes r).
#[export] Instance set_sleeplocks : Setter sleeplocks. Proof. solve_setter. Defined.
#[export] Instance set_bufs : Setter bufs. Proof. solve_setter. Defined.
#[export] Instance set_log : Setter log. Proof. solve_setter. Defined.
#[export] Instance set_sb : Setter sb. Proof. solve_setter. Defined.
#[export] Instance set_inodes : Setter inodes. Proof. solve_setter. Defined.
#[export] Instance set_files : Setter files. Proof. solve_setter. Defined.
#[export] Instance set_vd : Setter vd. Proof. solve_setter. Defined.
#[export] Instance set_disk_writes : Setter disk_writes. Proof. solve_setter. Defined.

(** the block [n] of a disk with the history [h] *)
Fixpoint disk_block (h : list (Z * list Z)) (n : Z) : list Z :=
  match h with
  | [] => zero_block
  | (m, d) :: h => if (m =? n)%Z then d else disk_block h n
  end.

(** every variable as the loader leaves it *)
Definition fsst0 : fsst :=
  mk_fsst (replicate (NBUF + NINODE) (mk_sleeplock 0 0)) (replicate (S NBUF) buf0)
    (mk_logst 0 0 0 0 0 (replicate LOGBLOCKS 0%Z)) (mk_superblock 0 0 0 0 0 0 0 0)
    (replicate NINODE inode0) (replicate NFILE file0) vdisk0 [].
#[global] Arguments NBUF : simpl never.
#[global] Arguments NINODE : simpl never.
#[global] Arguments NFILE : simpl never.
#[global] Arguments LOGBLOCKS : simpl never.
#[global] Arguments zero_block : simpl never.
