(* ===== verification/Ring.v ===== *)
(** * The list of buffers

    The buffers of [kernel/bio.c] are in a doubly linked circular list with
    [bcache.head].  [ring bs l] says that the links hold the buffers in the
    order [l], most recently used first; it is kept when [brelse] moves a
    buffer to the front. *)

From S2P Require Import Prelude Fsdata.

(** ** Chains of links *)

(** from [x], the links [nx] lead through [l] to [y]; and the links [pv] lead
    back *)
Fixpoint path (nx : nat → option nat) (x : nat) (l : list nat) (y : nat) : Prop :=
  match l with
  | [] => nx x = Some y
  | z :: l => nx x = Some z ∧ path nx z l y
  end.
Fixpoint rpath (pv : nat → option nat) (x : nat) (l : list nat) (y : nat) : Prop :=
  match l with
  | [] => pv y = Some x
  | z :: l => pv z = Some x ∧ rpath pv z l y
  end.

Section links.
Context (f : nat → option nat).

Lemma path_app x l1 z l2 y : path f x (l1 ++ z :: l2) y ↔ path f x l1 z ∧ path f z l2 y.
Proof. revert x. induction l1 as [|w l1 IH]; intros x; simpl; [done|]. rewrite IH. tauto. Qed.
Lemma rpath_app x l1 z l2 y : rpath f x (l1 ++ z :: l2) y ↔ rpath f x l1 z ∧ rpath f z l2 y.
Proof. revert x. induction l1 as [|w l1 IH]; intros x; simpl; [done|]. rewrite IH. tauto. Qed.
Lemma path_first x l y : path f x l y → f x = head (l ++ [y]).
Proof. destruct l; simpl; [done|]. by intros [? _]. Qed.
Lemma rpath_last x l y : rpath f x l y → f y = last (x :: l).
Proof.
  revert x. induction l as [|z l IH]; intros x; simpl; [done|]. intros [_ Hl]. by rewrite (IH z) by done.
Qed.

Context (g : nat → option nat).
Lemma path_ext x l y : (∀ w, w ∈ x :: l → g w = f w) → path f x l y → path g x l y.
Proof.
  revert x. induction l as [|z l IH]; intros x Hg; simpl; rewrite Hg by set_solver; [done|].
  intros [Hx Hl]. split; [done|]. apply IH; [set_solver|done].
Qed.
Lemma rpath_ext x l y : (∀ w, w ∈ l ++ [y] → g w = f w) → rpath f x l y → rpath g x l y.
Proof.
  revert x. induction l as [|z l IH]; intros x Hg; simpl; rewrite Hg by set_solver; [done|].
  intros [Hx Hl]. split; [done|]. apply IH; [set_solver|done].
Qed.

(** the last link leads elsewhere *)
Lemma path_redirect p n x l y :
  path f x l y → NoDup (x :: l) → last (x :: l) = Some p → g p = Some n →
  (∀ w, w ∈ x :: l → w ≠ p → g w = f w) → path g x l n.
Proof.
  revert x. induction l as [|z l IH]; intros x Hf Hnd Hp Hg He; simpl in *; [by simplify_eq|].
  destruct Hf as [Hx Hl]. apply NoDup_cons in Hnd as [Hn Hnd].
  assert (Hxp : x ≠ p) by (intros ->; apply Hn, last_Some_elem_of; done).
  split; [rewrite He by set_solver; done|]. apply IH; [done..|]. intros w Hw. apply He. set_solver.
Qed.
End links.

(** ** The ring *)

Definition nxt (bs : list buf) (x : nat) : option nat := bs !! x ≫= b_next.
Definition prv (bs : list buf) (x : nat) : option nat := bs !! x ≫= b_prev.

Record ring (bs : list buf) (l : list nat) : Prop := {
  ring_len : length bs = S NBUF;
  ring_perm : l ≡ₚ seq 0 NBUF;
  ring_next : path (nxt bs) bcache_head l bcache_head;
  ring_prev : rpath (prv bs) bcache_head l bcache_head
}.

Section ring.
Context (bs : list buf) (l : list nat) (Hring : ring bs l).

Lemma ring_elem x : x ∈ l ↔ (x < NBUF)%nat.
Proof. rewrite (ring_perm _ _ Hring), elem_of_seq. lia. Qed.
Lemma ring_nodup : NoDup (bcache_head :: l).
Proof.
  constructor; [rewrite ring_elem; unfold bcache_head; lia|]. rewrite (ring_perm _ _ Hring). apply NoDup_seq.
Qed.
Lemma ring_length : length l = NBUF.
Proof. by rewrite (ring_perm _ _ Hring), length_seq. Qed.
Lemma ring_lookup x : (x ≤ NBUF)%nat → is_Some (bs !! x).
Proof. intros Hx. apply lookup_lt_is_Some. rewrite (ring_len _ _ Hring). lia. Qed.
End ring.

Lemma ring_ext bs bs' l :
  ring bs l → length bs' = length bs → (∀ x, nxt bs' x = nxt bs x) → (∀ x, prv bs' x = prv bs x) → ring bs' l.
Proof.
  intros [Hlen Hp Hn Hv] Hl Hnx Hpv. split; [congruence|done| |].
  - eapply path_ext; [intros; apply Hnx|exact Hn].
  - eapply rpath_ext; [intros; apply Hpv|exact Hv].
Qed.

(** ** Moving a buffer to the front *)

(** the case analysis of a link given by [H] *)
#[local] Ltac links H := rewrite H; repeat case_decide; subst; first [done|congruence|exfalso; set_solver].

Section move.
Context (l1 l2 : list nat) (b : nat).
#[local] Abbreviation h := bcache_head.
Context (nx pv nx' pv' : nat → option nat) (n0 p n : nat).
Context (Hnd : NoDup (h :: l1 ++ b :: l2)).
Context (Hp : last (h :: l1) = Some p) (Hn : head (l2 ++ [h]) = Some n) (Hn0 : head (l1 ++ l2 ++ [h]) = Some n0).

(** the links after the buffer is taken out and put in front *)
Context (Hnx' : ∀ x, nx' x =
  (if decide (x = h) then Some b else if decide (x = b) then Some n0 else if decide (x = p) then Some n else nx x)).
Context (Hpv' : ∀ x, pv' x =
  (if decide (x = n0) then Some b else if decide (x = b) then Some h else if decide (x = n) then Some p else pv x)).

Lemma move_ne :
  b ≠ h ∧ (b ∉ l1) ∧ (b ∉ l2) ∧ (h ∉ l1) ∧ (h ∉ l2) ∧ NoDup l1 ∧ NoDup l2 ∧ (∀ x, x ∈ l1 → x ∈ l2 → False).
Proof.
  apply NoDup_cons in Hnd as [Hh Hnd']. apply NoDup_app in Hnd' as (H1 & H12 & H2).
  apply NoDup_cons in H2 as [Hb H2]. split_and!; try done; set_solver.
Qed.

Lemma move_next : path nx h (l1 ++ b :: l2) h → path nx' h (b :: l1 ++ l2) h.
Proof.
  destruct move_ne as (Hbh & Hb1 & Hb2 & Hh1 & Hh2 & Hd1 & Hd2 & Hd12).
  rewrite path_app. intros [P1 P2]. split; [links Hnx'|].
  assert (Hnb : nx' b = Some n0) by (links Hnx').
  destruct l1 as [|x0 l]; simpl in *.
  - eapply path_ext; [|exact P2]. intros w [->|Hw]%elem_of_cons.
    + by rewrite Hnb, (path_first _ _ _ _ P2).
    + links Hnx'.
  - destruct P1 as [_ P1]. split; [by rewrite Hnb|].
    assert (Hother : ∀ w, w ∈ x0 :: l → w ≠ p → nx' w = nx w)
      by (intros w Hw Hwp; links Hnx').
    assert (Hpl : p ∈ x0 :: l) by (by apply last_Some_elem_of).
    assert (Hnp : nx' p = Some n) by (links Hnx').
    pose proof (path_redirect nx nx' p n x0 l b P1 Hd1 Hp Hnp Hother) as P1'.
    destruct l2 as [|y l2']; simpl in *; simplify_eq; [by rewrite app_nil_r|].
    apply path_app. split; [done|]. eapply path_ext; [|apply P2].
    intros w Hw. links Hnx'.
Qed.

Lemma move_prev : rpath pv h (l1 ++ b :: l2) h → rpath pv' h (b :: l1 ++ l2) h.
Proof.
  destruct move_ne as (Hbh & Hb1 & Hb2 & Hh1 & Hh2 & Hd1 & Hd2 & Hd12).
  rewrite rpath_app. intros [P1 P2].
  assert (Hn2 : n ∈ l2 ++ [h]) by (by apply head_Some_elem_of).
  assert (Hb0 : n0 ≠ b) by (apply head_Some_elem_of in Hn0; set_solver).
  split; [links Hpv'|].
  assert (H0 : pv' n0 = Some b) by (links Hpv').
  destruct l1 as [|x0 l]; simpl in *.
  - assert (n0 = n) as -> by congruence. destruct l2 as [|y l2']; simpl in *; simplify_eq; [done|].
    split; [done|]. eapply rpath_ext; [|apply P2]. intros w Hw.
    apply NoDup_cons in Hd2 as [Hy Hd2]. links Hpv'.
  - injection Hn0 as <-. destruct P1 as [_ P1]. split; [done|]. apply NoDup_cons in Hd1 as [Hx0 Hd1].
    assert (Hin : rpath pv' x0 l n).
    { clear H0. assert (Hrel : ∀ x k, rpath pv x k b → last (x :: k) = Some p → k ⊆ l → x0 ∉ k → rpath pv' x k n).
      { intros x k. revert x. induction k as [|z k IH]; intros x Hk Hl Hsub Hx; simpl in *.
        - simplify_eq. links Hpv'.
        - destruct Hk as [Hz Hk]. split; [|apply IH; set_solver].
          links Hpv'. }
      by apply Hrel. }
    destruct l2 as [|y l2']; simpl in *; simplify_eq; [by rewrite app_nil_r|].
    apply rpath_app. split; [done|]. eapply rpath_ext; [|apply P2]. intros w Hw.
    apply NoDup_cons in Hd2 as [Hy Hd2]. links Hpv'.
Qed.
End move.

Lemma ring_move bs bs' l1 l2 b n0 p n :
  ring bs (l1 ++ b :: l2) → length bs' = length bs →
  last (bcache_head :: l1) = Some p → head (l2 ++ [bcache_head]) = Some n →
  head (l1 ++ l2 ++ [bcache_head]) = Some n0 →
  (∀ x, nxt bs' x = (if decide (x = bcache_head) then Some b else if decide (x = b) then Some n0
                     else if decide (x = p) then Some n else nxt bs x)) →
  (∀ x, prv bs' x = (if decide (x = n0) then Some b else if decide (x = b) then Some bcache_head
                     else if decide (x = n) then Some p else prv bs x)) →
  ring bs' (b :: l1 ++ l2).
Proof.
  intros Hr Hlen Hp Hn Hn0 Hnx Hpv. pose proof (ring_nodup _ _ Hr) as Hnd. destruct Hr as [Hl Hperm Hnext Hprev].
  split; [congruence| |by eapply move_next|by eapply move_prev].
  rewrite <- Hperm. by rewrite Permutation_middle.
Qed.

(** ** Assignments to links *)

Definition set_next (b v : nat) : list buf → list buf := alter (λ x, x <| b_next := Some v |>) b.
Definition set_prev (b v : nat) : list buf → list buf := alter (λ x, x <| b_prev := Some v |>) b.
(** a buffer but for its links *)
Definition unlinked (x : buf) : buf := x <| b_prev := None |> <| b_next := None |>.

Section assign.
Context (bs : list buf) (b v : nat).
Lemma lookup_links (g : buf → buf) x :
  alter g b bs !! x = if decide (x = b) then g <$> bs !! x else bs !! x.
Proof. rewrite list_lookup_alter. by repeat case_decide; subst. Qed.
Lemma nxt_set_next x : (b < length bs)%nat → nxt (set_next b v bs) x = if decide (x = b) then Some v else nxt bs x.
Proof.
  intros [y Hy]%lookup_lt_is_Some. unfold nxt, set_next. rewrite lookup_links. case_decide; subst; [by rewrite Hy|done].
Qed.
Lemma prv_set_prev x : (b < length bs)%nat → prv (set_prev b v bs) x = if decide (x = b) then Some v else prv bs x.
Proof.
  intros [y Hy]%lookup_lt_is_Some. unfold prv, set_prev. rewrite lookup_links. case_decide; subst; [by rewrite Hy|done].
Qed.
Lemma nxt_set_prev x : nxt (set_prev b v bs) x = nxt bs x.
Proof. unfold nxt, set_prev. rewrite lookup_links. case_decide; [|done]. by destruct (bs !! x). Qed.
Lemma prv_set_next x : prv (set_next b v bs) x = prv bs x.
Proof. unfold prv, set_next. rewrite lookup_links. case_decide; [|done]. by destruct (bs !! x). Qed.
Lemma length_set_next : length (set_next b v bs) = length bs.
Proof. apply length_alter. Qed.
Lemma length_set_prev : length (set_prev b v bs) = length bs.
Proof. apply length_alter. Qed.
Lemma unlinked_set_next : unlinked <$> set_next b v bs = unlinked <$> bs.
Proof.
  apply list_eq. intros i. rewrite !list_lookup_fmap. unfold set_next. rewrite lookup_links.
  case_decide; [|done]. by destruct (bs !! i).
Qed.
Lemma unlinked_set_prev : unlinked <$> set_prev b v bs = unlinked <$> bs.
Proof.
  apply list_eq. intros i. rewrite !list_lookup_fmap. unfold set_prev. rewrite lookup_links.
  case_decide; [|done]. by destruct (bs !! i).
Qed.
End assign.

(** what [brelse] does to the links *)
Definition to_front (b n0 p n : nat) (bs : list buf) : list buf :=
  set_next bcache_head b (set_prev n0 b (set_prev b bcache_head (set_next b n0 (set_next p n (set_prev n p bs))))).
Lemma unlinked_to_front b n0 p n bs : unlinked <$> to_front b n0 p n bs = unlinked <$> bs.
Proof. unfold to_front. by rewrite !unlinked_set_next, ?unlinked_set_prev, ?unlinked_set_next, ?unlinked_set_prev. Qed.
Lemma length_to_front b n0 p n bs : length (to_front b n0 p n bs) = length bs.
Proof. unfold to_front. by repeat rewrite ?length_set_next, ?length_set_prev. Qed.

#[local] Ltac in_bounds := by repeat rewrite ?length_set_next, ?length_set_prev.

Section front.
Context (bs : list buf) (l1 l2 : list nat) (b n0 p n : nat).
Context (Hr : ring bs (l1 ++ b :: l2)) (Hp : last (bcache_head :: l1) = Some p).
Context (Hn : head (l2 ++ [bcache_head]) = Some n) (Hn0 : head (l1 ++ l2 ++ [bcache_head]) = Some n0).

Lemma front_bounds :
  (b < length bs ∧ p < length bs ∧ n < length bs ∧ n0 < length bs ∧ bcache_head < length bs)%nat.
Proof.
  assert (Hin : ∀ x, x ∈ bcache_head :: l1 ++ b :: l2 → (x < length bs)%nat).
  { intros x [-> |Hx%(ring_elem _ _ Hr)]%elem_of_cons; rewrite (ring_len _ _ Hr); unfold bcache_head; lia. }
  apply last_Some_elem_of in Hp. apply head_Some_elem_of in Hn, Hn0. split_and!; apply Hin; set_solver.
Qed.
Lemma ring_to_front : ring (to_front b n0 p n bs) (b :: l1 ++ l2).
Proof.
  destruct front_bounds as (Hb & Hbp & Hbn & Hbn0 & Hh).
  eapply ring_move; [done|apply length_to_front|done..| |]; intros x; unfold to_front.
  - by rewrite nxt_set_next, !nxt_set_prev, !nxt_set_next, nxt_set_prev by in_bounds.
  - by rewrite prv_set_next, !prv_set_prev, !prv_set_next, prv_set_prev by in_bounds.
Qed.
Lemma front_ne : b ≠ n ∧ b ≠ bcache_head ∧ b ≠ n0.
Proof.
  pose proof (ring_nodup _ _ Hr) as Hnd. apply NoDup_cons in Hnd as [Hh (_ & H12 & H2)%NoDup_app].
  apply NoDup_cons in H2 as [Hb H2]. apply head_Some_elem_of in Hn, Hn0.
  split_and!; intros ->; set_solver.
Qed.
Lemma front_nxt : nxt bs b = Some n.
Proof. rewrite <- Hn. eapply path_first. by apply (path_app (nxt bs) bcache_head l1 b l2), (ring_next _ _ Hr). Qed.
Lemma front_prv : prv bs b = Some p.
Proof. rewrite <- Hp. eapply rpath_last. by apply (rpath_app (prv bs) _ l1 b l2 bcache_head), (ring_prev _ _ Hr). Qed.
Lemma front_first : nxt (set_next p n (set_prev n p bs)) bcache_head = Some n0.
Proof.
  destruct front_bounds as (Hb & Hbp & Hbn & Hbn0 & Hh).
  rewrite nxt_set_next, nxt_set_prev by in_bounds. rewrite (path_first _ _ _ _ (ring_next _ _ Hr)).
  pose proof (ring_nodup _ _ Hr) as Hnd. apply NoDup_cons in Hnd as [Hh' _].
  apply last_Some_elem_of in Hp as Hin. destruct l1 as [|x l].
  - simpl in *. simplify_eq. by rewrite decide_True.
  - rewrite decide_False; [by rewrite <- Hn0|]. simpl in Hp. intros <-. apply last_Some_elem_of in Hp. set_solver.
Qed.
End front.
