(* ===== verification/Kstate.v ===== *)
(** * The kernel's data

    The constants of [kernel/param.h], [kernel/proc.h] and
    [kernel/memlayout.h], the C structures, and the record [kstate] that
    holds the kernel's global variables.  A pointer into a fixed table
    ([proc], [ftable.file], [itable.inode]) is the index of the entry, as an
    [option nat] with [None] for the null pointer; a physical or virtual
    address is a [Z]. *)

From S2P Require Import Prelude Fsdata.

(** ** Constants *)

Definition NPROC : nat := 64.
Definition NCPU : nat := 8.
Definition NOFILE : nat := 16.

Definition MLFQ_LEVELS : nat := 4.
Definition QUANTUM_L0 : Z := 2.
Definition QUANTUM_L1 : Z := 4.
Definition QUANTUM_L2 : Z := 8.
Definition QUANTUM_L3 : Z := 16.
Definition BOOST_INTERVAL : Z := 100.

(** ** Locks and sleep channels

    A spinlock is named by the object that embeds it.  A sleep channel is an
    address the kernel sleeps on; distinct objects have distinct addresses. *)

Inductive lockid : Type :=
| pid_lock | wait_lock | mlfq_lock | stats_lock | tickslock | kmem_lock
| ftable_lock | itable_lock | log_lock | bcache_lock | cons_lock | pr_lock | tx_lock
| vdisk_lock
| p_lock (i : nat)          (* proc[i].lock *)
| pipe_lock (pi : Z)        (* pi->lock *)
| sleep_lk (i : nat).       (* the spinlock inside sleeplock number i *)

#[export] Instance lockid_eq_dec : EqDecision lockid.
Proof. solve_decision. Defined.

#[export] Instance lockid_countable : Countable lockid.
Proof.
  refine (inj_countable'
    (λ l, match l with
          | pid_lock => (0, 0%Z) | wait_lock => (1, 0%Z) | mlfq_lock => (2, 0%Z)
          | stats_lock => (3, 0%Z) | tickslock => (4, 0%Z) | kmem_lock => (5, 0%Z)
          | ftable_lock => (6, 0%Z) | itable_lock => (7, 0%Z) | log_lock => (8, 0%Z)
          | bcache_lock => (9, 0%Z) | cons_lock => (10, 0%Z) | pr_lock => (11, 0%Z)
          | p_lock i => (12, Z.of_nat i) | pipe_lock z => (13, z)
          | sleep_lk i => (14, Z.of_nat i) | tx_lock => (15, 0%Z)
          | vdisk_lock => (16, 0%Z)
          end)
    (λ x, match x with
          | (0, _) => pid_lock | (1, _) => wait_lock | (2, _) => mlfq_lock
          | (3, _) => stats_lock | (4, _) => tickslock | (5, _) => kmem_lock
          | (6, _) => ftable_lock | (7, _) => itable_lock | (8, _) => log_lock
          | (9, _) => bcache_lock | (10, _) => cons_lock | (11, _) => pr_lock
          | (12, z) => p_lock (Z.to_nat z) | (13, z) => pipe_lock z
          | (14, z) => sleep_lk (Z.to_nat z) | (15, z) => tx_lock
          | _ => vdisk_lock
          end) _).
  intros []; simpl; by rewrite ?Nat2Z.id.
Defined.

Inductive chan : Type :=
| ch_ticks                  (* &ticks *)
| ch_proc (i : nat)         (* &proc[i] *)
| ch_log                    (* &log *)
| ch_cons_r                 (* &cons.r *)
| ch_tx                     (* &tx_chan *)
| ch_nread (pi : Z)         (* &pi->nread *)
| ch_nwrite (pi : Z)        (* &pi->nwrite *)
| ch_sleeplock (i : nat)    (* sleeplock number i *)
| ch_free                   (* &disk.free[0] *)
| ch_buf (b : nat).         (* the buffer b *)

#[export] Instance chan_eq_dec : EqDecision chan.
Proof. solve_decision. Defined.

(** [struct spinlock] (the name is only for debugging) *)
Record spinlock := mk_spinlock { locked : Z; lk_cpu : option nat }.
#[export] Instance eta_spinlock : Eta spinlock :=
  λ r, mk_spinlock (locked r) (lk_cpu r).
#[export] Instance set_locked : Setter locked. Proof. solve_setter. Defined.
#[export] Instance set_lk_cpu : Setter lk_cpu. Proof. solve_setter. Defined.

(** [struct cpu]; the context is the continuation of the scheduler thread *)
Record cpu := mk_cpu { c_proc : option nat; c_noff : Z; c_intena : Z }.
#[export] Instance eta_cpu : Eta cpu := λ r, mk_cpu (c_proc r) (c_noff r) (c_intena r).
#[export] Instance set_c_proc : Setter c_proc. Proof. solve_setter. Defined.
#[export] Instance set_c_noff : Setter c_noff. Proof. solve_setter. Defined.
#[export] Instance set_c_intena : Setter c_intena. Proof. solve_setter. Defined.

(** The state locking works on: the [tp] register of the executing hart,
    [cpus], each hart's [sstatus] register, and the locks; a lock that is
    absent from the map is in its initial state. *)
Record lkst := mk_lkst {
  lk_tp : nat;
  lk_cpus : list cpu;
  lk_sstatus : list Z;
  lk_locks : gmap lockid spinlock
}.
#[export] Instance eta_lkst : Eta lkst :=
  λ r, mk_lkst (lk_tp r) (lk_cpus r) (lk_sstatus r) (lk_locks r).
#[export] Instance set_lk_tp : Setter lk_tp. Proof. solve_setter. Defined.
#[export] Instance set_lk_cpus : Setter lk_cpus. Proof. solve_setter. Defined.
#[export] Instance set_lk_sstatus : Setter lk_sstatus. Proof. solve_setter. Defined.
#[export] Instance set_lk_locks : Setter lk_locks. Proof. solve_setter. Defined.

(** ** Processes *)

Inductive procstate := UNUSED | USED | SLEEPING | RUNNABLE | RUNNING | ZOMBIE.
#[export] Instance procstate_eq_dec : EqDecision procstate.
Proof. solve_decision. Defined.

(** The return address saved in [struct context]: zeroed, the first
    instruction of [forkret], or the instruction after [swtch] in [sched]. *)
Inductive retaddr := ra_zero | ra_forkret | ra_sched.
#[export] Instance retaddr_eq_dec : EqDecision retaddr.
Proof. solve_decision. Defined.
Record context := mk_context { ctx_ra : retaddr; ctx_sp : Z }.
#[export] Instance context_eq_dec : EqDecision context.
Proof. solve_decision. Defined.

(** [struct proc]; its lock is [p_lock i] *)
Record proc := mk_proc {
  p_state : procstate;
  p_chan : option chan;
  p_killed : Z;
  p_xstate : Z;
  p_pid : Z;
  p_parent : option nat;
  p_kstack : Z;
  p_sz : Z;
  p_pagetable : Z;
  p_trapframe : Z;
  p_context : context;
  p_ofile : list (option nat);
  p_cwd : option nat;
  p_name : list Z;
  p_queue_level : Z;
  p_time_in_queue : Z;
  p_time_slices : Z;
  p_entered_queue_tick : Z;
  p_queue_next : option nat
}.
#[export] Instance eta_proc : Eta proc := λ r,
  mk_proc (p_state r) (p_chan r) (p_killed r) (p_xstate r) (p_pid r) (p_parent r)
    (p_kstack r) (p_sz r) (p_pagetable r) (p_trapframe r) (p_context r) (p_ofile r)
    (p_cwd r) (p_name r) (p_queue_level r) (p_time_in_queue r) (p_time_slices r)
    (p_entered_queue_tick r) (p_queue_next r).
#[export] Instance set_p_state : Setter p_state. Proof. solve_setter. Defined.
#[export] Instance set_p_chan : Setter p_chan. Proof. solve_setter. Defined.
#[export] Instance set_p_killed : Setter p_killed. Proof. solve_setter. Defined.
#[export] Instance set_p_xstate : Setter p_xstate. Proof. solve_setter. Defined.
#[export] Instance set_p_pid : Setter p_pid. Proof. solve_setter. Defined.
#[export] Instance set_p_parent : Setter p_parent. Proof. solve_setter. Defined.
#[export] Instance set_p_kstack : Setter p_kstack. Proof. solve_setter. Defined.
#[export] Instance set_p_sz : Setter p_sz. Proof. solve_setter. Defined.
#[export] Instance set_p_pagetable : Setter p_pagetable. Proof. solve_setter. Defined.
#[export] Instance set_p_trapframe : Setter p_trapframe. Proof. solve_setter. Defined.
#[export] Instance set_p_context : Setter p_context. Proof. solve_setter. Defined.
#[export] Instance set_p_ofile : Setter p_ofile. Proof. solve_setter. Defined.
#[export] Instance set_p_cwd : Setter p_cwd. Proof. solve_setter. Defined.
#[export] Instance set_p_name : Setter p_name. Proof. solve_setter. Defined.
#[export] Instance set_p_queue_level : Setter p_queue_level. Proof. solve_setter. Defined.
#[export] Instance set_p_time_in_queue : Setter p_time_in_queue.
Proof. solve_setter. Defined.
#[export] Instance set_p_time_slices : Setter p_time_slices. Proof. solve_setter. Defined.
#[export] Instance set_p_entered_queue_tick : Setter p_entered_queue_tick.
Proof. solve_setter. Defined.
#[export] Instance set_p_queue_next : Setter p_queue_next. Proof. solve_setter. Defined.

(** A [struct proc] as the loader leaves it: all bytes zero. *)
Definition proc0 : proc :=
  mk_proc UNUSED None 0 0 0 None 0 0 0 0 (mk_context ra_zero 0)
    (replicate NOFILE None) None (replicate 16 0%Z) 0 0 0 0 None.

Record runqueue := mk_runqueue { rq_head : option nat; rq_tail : option nat }.
#[export] Instance eta_runqueue : Eta runqueue := λ r, mk_runqueue (rq_head r) (rq_tail r).
#[export] Instance set_rq_head : Setter rq_head. Proof. solve_setter. Defined.
#[export] Instance set_rq_tail : Setter rq_tail. Proof. solve_setter. Defined.

Record mlfq_stats := mk_mlfq_stats {
  total_schedules : Z;
  total_boosts : Z;
  total_demotions : Z;
  level_queue_count : list Z;
  level_schedules : list Z
}.
#[export] Instance eta_mlfq_stats : Eta mlfq_stats := λ r,
  mk_mlfq_stats (total_schedules r) (total_boosts r) (total_demotions r)
    (level_queue_count r) (level_schedules r).
#[export] Instance set_total_schedules : Setter total_schedules.
Proof. solve_setter. Defined.
#[export] Instance set_total_boosts : Setter total_boosts. Proof. solve_setter. Defined.
#[export] Instance set_total_demotions : Setter total_demotions.
Proof. solve_setter. Defined.
#[export] Instance set_level_queue_count : Setter level_queue_count.
Proof. solve_setter. Defined.
#[export] Instance set_level_schedules : Setter level_schedules.
Proof. solve_setter. Defined.
Definition mlfq_stats0 : mlfq_stats :=
  mk_mlfq_stats 0 0 0 (replicate MLFQ_LEVELS 0%Z) (replicate MLFQ_LEVELS 0%Z).

(** The global variables of [kernel/proc.c], and [ticks] of [kernel/trap.c] *)
Record ptable := mk_ptable {
  procs : list proc;
  runqueues : list runqueue;
  initproc : option nat;
  nextpid : Z;
  ticks : Z;
  ticks_since_boost : Z;
  scheduler_stats : mlfq_stats;
  scheduler_cycle_count : Z;
  first : Z                       (* the static variable of forkret *)
}.
#[export] Instance eta_ptable : Eta ptable := λ r,
  mk_ptable (procs r) (runqueues r) (initproc r) (nextpid r) (ticks r)
    (ticks_since_boost r) (scheduler_stats r) (scheduler_cycle_count r) (first r).
#[export] Instance set_procs : Setter procs. Proof. solve_setter. Defined.
#[export] Instance set_runqueues : Setter runqueues. Proof. solve_setter. Defined.
#[export] Instance set_initproc : Setter initproc. Proof. solve_setter. Defined.
#[export] Instance set_nextpid : Setter nextpid. Proof. solve_setter. Defined.
#[export] Instance set_ticks : Setter ticks. Proof. solve_setter. Defined.
#[export] Instance set_ticks_since_boost : Setter ticks_since_boost.
Proof. solve_setter. Defined.
#[export] Instance set_scheduler_stats : Setter scheduler_stats.
Proof. solve_setter. Defined.
#[export] Instance set_scheduler_cycle_count : Setter scheduler_cycle_count.
Proof. solve_setter. Defined.
#[export] Instance set_first : Setter first. Proof. solve_setter. Defined.

(** ** Memory and devices *)

(** Physical memory, a byte per address, the head of the page allocator's
    free list ([kmem.freelist], 0 for none), and [kernel_pagetable] *)
Record memst := mk_memst { mbytes : gmap Z Z; freelist : Z; kernel_pagetable : Z }.
#[export] Instance eta_memst : Eta memst := λ r,
  mk_memst (mbytes r) (freelist r) (kernel_pagetable r).
#[export] Instance set_mbytes : Setter mbytes. Proof. solve_setter. Defined.
#[export] Instance set_freelist : Setter freelist. Proof. solve_setter. Defined.
#[export] Instance set_kernel_pagetable : Setter kernel_pagetable.
Proof. solve_setter. Defined.

(** The control registers of the executing hart that trap handling uses, and
    the [time] counter *)
Record csrs := mk_csrs {
  sepc : Z; scause : Z; stval : Z; stvec : Z; satp : Z; stimecmp : Z; time : Z
}.
#[export] Instance eta_csrs : Eta csrs := λ r,
  mk_csrs (sepc r) (scause r) (stval r) (stvec r) (satp r) (stimecmp r) (time r).
#[export] Instance set_sepc : Setter sepc. Proof. solve_setter. Defined.
#[export] Instance set_scause : Setter scause. Proof. solve_setter. Defined.
#[export] Instance set_stval : Setter stval. Proof. solve_setter. Defined.
#[export] Instance set_stvec : Setter stvec. Proof. solve_setter. Defined.
#[export] Instance set_satp : Setter satp. Proof. solve_setter. Defined.
#[export] Instance set_stimecmp : Setter stimecmp. Proof. solve_setter. Defined.
#[export] Instance set_time : Setter time. Proof. solve_setter. Defined.

(** The console: what has been written to device registers (address and
    value, newest first), the characters waiting in the UART and whether it
    is ready to send; the variables of [kernel/uart.c] and [kernel/printf.c];
    the input buffer [cons] of [kernel/console.c]; whether the entry of the
    console in [devsw] is set; the interrupt the PLIC has pending; and what
    the registers of the disk read as. *)
Record devst := mk_devst {
  mmio : list (Z * Z);
  uart_rx : list Z;
  uart_idle : bool;
  tx_busy : Z;
  panicking : Z;
  panicked : Z;
  cons_buf : list Z;
  cons_r : Z;
  cons_w : Z;
  cons_e : Z;
  devsw_console : bool;
  plic_irq : Z;
  vio_regs : gmap Z Z
}.
#[export] Instance eta_devst : Eta devst := λ r,
  mk_devst (mmio r) (uart_rx r) (uart_idle r) (tx_busy r) (panicking r) (panicked r)
    (cons_buf r) (cons_r r) (cons_w r) (cons_e r) (devsw_console r) (plic_irq r) (vio_regs r).
#[export] Instance set_mmio : Setter mmio. Proof. solve_setter. Defined.
#[export] Instance set_uart_rx : Setter uart_rx. Proof. solve_setter. Defined.
#[export] Instance set_uart_idle : Setter uart_idle. Proof. solve_setter. Defined.
#[export] Instance set_tx_busy : Setter tx_busy. Proof. solve_setter. Defined.
#[export] Instance set_panicking : Setter panicking. Proof. solve_setter. Defined.
#[export] Instance set_panicked : Setter panicked. Proof. solve_setter. Defined.
#[export] Instance set_cons_buf : Setter cons_buf. Proof. solve_setter. Defined.
#[export] Instance set_cons_r : Setter cons_r. Proof. solve_setter. Defined.
#[export] Instance set_cons_w : Setter cons_w. Proof. solve_setter. Defined.
#[export] Instance set_cons_e : Setter cons_e. Proof. solve_setter. Defined.
#[export] Instance set_devsw_console : Setter devsw_console. Proof. solve_setter. Defined.
#[export] Instance set_vio_regs : Setter vio_regs. Proof. solve_setter. Defined.
#[export] Instance set_plic_irq : Setter plic_irq. Proof. solve_setter. Defined.
Definition INPUT_BUF_SIZE : Z := 128.
Definition devst0 : devst :=
  mk_devst [] [] true 0 0 0 (replicate (Z.to_nat INPUT_BUF_SIZE) 0%Z) 0 0 0 false 0 ∅.

(** ** The kernel state

    [k_saved] stands for the contents of the kernel stacks: the processes
    whose kernel stack holds a suspended call of [swtch]. *)

Record kstate := mk_kstate {
  k_lk : lkst;
  k_pt : ptable;
  k_mem : memst;
  k_csr : csrs;
  k_dev : devst;
  k_saved : gset nat;
  k_fs : fsst
}.
#[export] Instance eta_kstate : Eta kstate := λ r,
  mk_kstate (k_lk r) (k_pt r) (k_mem r) (k_csr r) (k_dev r) (k_saved r) (k_fs r).
#[export] Instance set_k_lk : Setter k_lk. Proof. solve_setter. Defined.
#[export] Instance set_k_pt : Setter k_pt. Proof. solve_setter. Defined.
#[export] Instance set_k_mem : Setter k_mem. Proof. solve_setter. Defined.
#[export] Instance set_k_csr : Setter k_csr. Proof. solve_setter. Defined.
#[export] Instance set_k_dev : Setter k_dev. Proof. solve_setter. Defined.
#[export] Instance set_k_saved : Setter k_saved. Proof. solve_setter. Defined.
#[export] Instance set_k_fs : Setter k_fs. Proof. solve_setter. Defined.

(** The state the loader leaves: hart 0 executes, every variable has its
    initial value. *)
Definition ptable0 : ptable :=
  mk_ptable (replicate NPROC proc0) (replicate MLFQ_LEVELS (mk_runqueue None None))
    None 1 0 0 mlfq_stats0 0 1.
Definition kstate0 : kstate :=
  mk_kstate (mk_lkst 0 (replicate NCPU (mk_cpu None 0 0)) (replicate NCPU 0%Z) ∅)
    ptable0 (mk_memst ∅ 0 0) (mk_csrs 0 0 0 0 0 0 0) devst0 ∅ fsst0.

Abbreviation KM := (K kstate).

(** ** Accessing process-table entries *)

Definition all_procs : list nat := seq 0 NPROC.
#[global] Arguments all_procs : simpl never.
#[global] Arguments NPROC : simpl never.

Open Scope kern_scope.

(** [proc[i]], [p->f], [p->f = v] *)
Definition proc_at (i : nat) : KM proc :=
  let* s := get in deref (procs (k_pt s) !! i).
Definition rd {T} (i : nat) (f : proc → T) : KM T :=
  let* p := proc_at i in ret (f p).
Definition upd_proc (i : nat) (g : proc → proc) : KM unit :=
  let* p := proc_at i in
  modify (λ s, s <| k_pt ::= λ t, t <| procs ::= <[i := g p]> |> |>).
Definition wr {T} (i : nat) (f : proc → T) `{!Setter f} (v : T) : KM unit :=
  upd_proc i (λ p, p <| f := v |>).
(** a global variable of the process table *)
Definition rd_pt {T} (f : ptable → T) : KM T := gets (λ s, f (k_pt s)).
Definition wr_pt {T} (f : ptable → T) `{!Setter f} (v : T) : KM unit :=
  modify (λ s, s <| k_pt ::= λ t, t <| f := v |> |>).

(** ** Accessing the tables of the file system *)

(** a global variable *)
Definition rd_fs {T} (f : fsst → T) : KM T := gets (λ s, f (k_fs s)).
Definition wr_fs {T} (f : fsst → T) `{!Setter f} (v : T) : KM unit :=
  modify (λ s, s <| k_fs ::= λ t, t <| f := v |> |>).
(** [t[i]], [t[i].f], [t[i].f = v] *)
Definition ent {T} (t : fsst → list T) (i : nat) : KM T :=
  let* s := get in deref (t (k_fs s) !! i).
Definition rdt {T U} (t : fsst → list T) (i : nat) (f : T → U) : KM U :=
  let* x := ent t i in ret (f x).
Definition updt {T} (t : fsst → list T) `{!Setter t} (i : nat) (g : T → T) : KM unit :=
  let* x := ent t i in
  modify (λ s, s <| k_fs ::= λ y, y <| t ::= <[i := g x]> |> |>).
Definition wrt {T U} (t : fsst → list T) `{!Setter t} (i : nat) (f : T → U) `{!Setter f} (v : U) : KM unit :=
  updt t i (λ x, x <| f := v |>).

(** the second of two writes to an entry counts *)
Lemma set_proc_twice (s : kstate) i r r' :
  s <| k_pt ::= λ t, t <| procs ::= <[i := r]> |> |> <| k_pt ::= λ t, t <| procs ::= <[i := r']> |> |>
  = s <| k_pt ::= λ t, t <| procs ::= <[i := r']> |> |>.
Proof.
  destruct s as [lk [] mem csr dev sv fs]. cbv [upd set_k_pt set_procs]. simpl. by rewrite list_insert_insert_eq.
Qed.

Section access.
Context (E : stop → Prop) (G : kstate → Prop) (R : kstate → kstate → Prop).

Lemma wp_proc_at i p s Q :
  procs (k_pt s) !! i = Some p → Q p s → wp E G R (proc_at i s) Q.
Proof.
  intros Hp HQ. unfold proc_at, bind, get. simpl. by rewrite Hp.
Qed.
Lemma wp_rd {T} i (f : proc → T) p s Q :
  procs (k_pt s) !! i = Some p → Q (f p) s → wp E G R (rd i f s) Q.
Proof. intros. apply wp_bind, (wp_proc_at i p); done. Qed.
Lemma wp_upd_proc i g p s (Q : unit → kstate → Prop) :
  procs (k_pt s) !! i = Some p →
  Q tt (s <| k_pt ::= λ t, t <| procs ::= <[i := g p]> |> |>) →
  wp E G R (upd_proc i g s) Q.
Proof. intros. apply wp_bind, (wp_proc_at i p); done. Qed.
End access.
