(* ===== verification/Spinlock.v ===== *)
(** * Interrupt control and spinlocks

    [kernel/spinlock.c] and the interrupt-control inlines of
    [kernel/riscv.h], with [cpuid], [mycpu] and [myproc] of [kernel/proc.c].

    The first part is the code.  The second part is the discipline the rest
    of the kernel relies on: [lockinv H] says that the executing hart holds
    exactly the locks [H], that no other hart holds a lock, and that
    interrupts are off while [H] is not empty.  The third part interleaves
    several harts, one access to shared memory at a time, and shows mutual
    exclusion. *)

From S2P Require Import Prelude Kstate.
#[local] Open Scope Z_scope.

(** ** The code *)

Definition SSTATUS_SPP : Z := Z.shiftl 1 8.
Definition SSTATUS_SPIE : Z := Z.shiftl 1 5.
Definition SSTATUS_SIE : Z := Z.shiftl 1 1.

Definition r_sstatus : KM Z :=
  let* s := get in deref (lk_sstatus (k_lk s) !! lk_tp (k_lk s)).
Definition w_sstatus (x : Z) : KM unit :=
  modify (λ s, s <| k_lk ::= λ k, k <| lk_sstatus ::= <[lk_tp k := x]> |> |>).
Definition intr_on : KM unit :=
  let* x := r_sstatus in w_sstatus (Z.lor x SSTATUS_SIE).
Definition intr_off : KM unit :=
  let* x := r_sstatus in w_sstatus (Z.land x (Z.lnot SSTATUS_SIE)).
(** is [SSTATUS_SIE] set? *)
Definition sie_bit (x : Z) : bool := negb (Z.land x SSTATUS_SIE =? 0).
Definition intr_get : KM bool :=
  let* x := r_sstatus in ret (sie_bit x).

Definition cpuid : KM nat := gets (λ s, lk_tp (k_lk s)).
(** [mycpu()->f] and [mycpu()->f = v] *)
Definition mycpu : KM cpu :=
  let* id := cpuid in
  let* s := get in deref (lk_cpus (k_lk s) !! id).
Definition upd_cpu (g : cpu → cpu) : KM unit :=
  let* c := mycpu in
  modify (λ s, s <| k_lk ::= λ k, k <| lk_cpus ::= <[lk_tp k := g c]> |> |>).

(** the state of a lock; [initlock] leaves it so, and so does the loader *)
Definition lock0 : spinlock := mk_spinlock 0 None.
Definition lock_of (k : lkst) (l : lockid) : spinlock := default lock0 (lk_locks k !! l).
Definition rd_lock (l : lockid) : KM spinlock := gets (λ s, lock_of (k_lk s) l).
Definition wr_lock (l : lockid) (v : spinlock) : KM unit :=
  modify (λ s, s <| k_lk ::= λ k, k <| lk_locks ::= <[l := v]> |> |>).

Definition initlock (l : lockid) : KM unit := wr_lock l lock0.

Definition push_off : KM unit :=
  let* old := intr_get in
  intr_off ;;
  let* c := mycpu in
  when (c_noff c =? 0) (upd_cpu (λ c, c <| c_intena := Z.b2z old |>)) ;;
  upd_cpu (λ c, c <| c_noff ::= λ n, n + 1 |>).

Definition pop_off : KM unit :=
  let* on := intr_get in
  if on then panic "pop_off - interruptible" else
  let* c := mycpu in
  if c_noff c <? 1 then panic "pop_off" else
  upd_cpu (λ c, c <| c_noff ::= λ n, n - 1 |>) ;;
  let* c := mycpu in
  when ((c_noff c =? 0) && negb (c_intena c =? 0)) intr_on.

Definition holding (l : lockid) : KM bool :=
  let* lk := rd_lock l in
  let* id := cpuid in
  ret (negb (locked lk =? 0) && bool_decide (lk_cpu lk = Some id)).

(** [__sync_lock_test_and_set(&lk->locked, 1)] *)
Definition test_and_set (l : lockid) : KM Z :=
  let* lk := rd_lock l in
  wr_lock l (lk <| locked := 1 |>) ;;
  ret (locked lk).

(** [acquire] in three parts: up to the spin, one turn of the spin, and what
    follows it.  A hart that runs alone spins for ever on a held lock. *)
Definition acquire_enter (l : lockid) : KM unit :=
  push_off ;;
  let* h := holding l in
  if h then panic "acquire" else ret tt.
Definition acquire_exit (l : lockid) : KM unit :=
  let* id := cpuid in
  let* lk := rd_lock l in
  wr_lock l (lk <| lk_cpu := Some id |>).
Definition acquire (l : lockid) : KM unit :=
  acquire_enter l ;;
  let* old := test_and_set l in
  (if old =? 0 then ret tt else stop_with StopSpin) ;;
  acquire_exit l.

(** [release] in three parts: before, at and after [__sync_lock_release] *)
Definition release_enter (l : lockid) : KM unit :=
  let* h := holding l in
  if negb h then panic "release" else
  let* lk := rd_lock l in
  wr_lock l (lk <| lk_cpu := None |>).
Definition sync_lock_release (l : lockid) : KM unit :=
  let* lk := rd_lock l in
  wr_lock l (lk <| locked := 0 |>).
Definition release (l : lockid) : KM unit :=
  release_enter l ;;
  sync_lock_release l ;;
  pop_off.

Definition myproc : KM (option nat) :=
  push_off ;;
  let* c := mycpu in
  pop_off ;;
  ret (c_proc c).
(** [myproc()] where its result is dereferenced *)
Definition curproc : KM nat := let* p := myproc in deref p.

(** ** The locking discipline *)

Lemma sie_bit_off x : sie_bit (Z.land x (Z.lnot SSTATUS_SIE)) = false.
Proof.
  unfold sie_bit. rewrite <- Z.land_assoc, (Z.land_comm _ SSTATUS_SIE), Z.land_lnot_diag.
  by rewrite Z.land_0_r.
Qed.

Lemma sie_bit_on x : sie_bit (Z.lor x SSTATUS_SIE) = true.
Proof.
  unfold sie_bit. rewrite Z.land_comm, Z.land_lor_distr_r, Z.land_diag.
  apply negb_true_iff, Z.eqb_neq. intros H. apply Z.lor_eq_0_iff in H as [_ H].
  discriminate H.
Qed.

(** [intr_state n b c x]: [n] levels deep in [push_off]s, interrupts are off
    if [n] is positive, and [b] says whether they are (to be) on at depth 0. *)
Definition intr_state (n : Z) (b : bool) (c : cpu) (x : Z) : Prop :=
  0 ≤ n ∧ c_noff c = n ∧
  (if n =? 0 then sie_bit x = b else sie_bit x = false ∧ c_intena c = Z.b2z b).
(** [lockdepth H n b k]: the executing hart is so, and the locks held are
    exactly [H], all by this hart. *)
Definition lockdepth (H : gset lockid) (n : Z) (b : bool) (k : lkst) : Prop :=
  ∃ c x, lk_cpus k !! lk_tp k = Some c ∧ lk_sstatus k !! lk_tp k = Some x ∧
    intr_state n b c x ∧
    ∀ l, lock_of k l = if decide (l ∈ H) then mk_spinlock 1 (Some (lk_tp k)) else lock0.
Definition lockinv (H : gset lockid) (k : lkst) : Prop :=
  ∃ b, lockdepth H (Z.of_nat (size H)) b k.

(** What locking leaves alone: the executing hart and what each cpu runs. *)
Definition lk_frame (k k' : lkst) : Prop :=
  lk_tp k' = lk_tp k ∧ c_proc <$> lk_cpus k' = c_proc <$> lk_cpus k.
#[export] Instance lk_frame_equiv : Equivalence lk_frame.
Proof.
  unfold lk_frame. split.
  - by intros k.
  - intros k k' [? ?]. by split.
  - intros k1 k2 k3 [? ?] [? ?]. split; congruence.
Qed.

(** the process of the executing hart *)
Definition cur_proc (k : lkst) : option nat := (lk_cpus k !! lk_tp k) ≫= c_proc.
Lemma cur_proc_frame k k' : lk_frame k k' → cur_proc k' = cur_proc k.
Proof.
  intros [Ht Hc]. unfold cur_proc. rewrite Ht.
  apply (f_equal (.!! lk_tp k)) in Hc. rewrite !list_lookup_fmap in Hc.
  destruct (lk_cpus k' !! lk_tp k), (lk_cpus k !! lk_tp k); naive_solver.
Qed.

(** chains of [lk_frame] hypotheses *)
Ltac lk_frames :=
  repeat match goal with H : lk_frame _ _ |- _ => progress simpl in H end; simpl;
  repeat match goal with
         | H : lk_frame ?a ?b |- lk_frame ?a ?b => exact H
         | H : lk_frame ?a ?b |- lk_frame ?a _ => transitivity b; [exact H|clear H]
         end;
  reflexivity.

Lemma lock_of_insert k l l' v :
  lock_of (k <| lk_locks ::= <[l:=v]> |>) l' = if decide (l = l') then v else lock_of k l'.
Proof. unfold lock_of. simpl. rewrite lookup_insert. by case_decide. Qed.

Lemma fmap_c_proc_insert (cs : list cpu) i c c' :
  cs !! i = Some c → c_proc c' = c_proc c → c_proc <$> <[i:=c']> cs = c_proc <$> cs.
Proof.
  intros Hi Hc. rewrite list_fmap_insert, Hc. apply list_insert_id.
  by rewrite list_lookup_fmap, Hi.
Qed.

(** with no lock held the status register is free *)
Lemma lockinv_sstatus x k : lockinv ∅ k → lockinv ∅ (k <| lk_sstatus ::= <[lk_tp k := x]> |>).
Proof.
  intros (b & c & x0 & Hc & Hx & (Hpos & Hn & Hi) & Hlk).
  assert (Hlt : (lk_tp k < length (lk_sstatus k))%nat) by (by eapply lookup_lt_Some).
  exists (sie_bit x), c, x. simpl. rewrite list_lookup_insert_eq by done.
  split_and!; [done|done| |done]. by split_and!.
Qed.

Section discipline.
Context (E : stop → Prop) (G : kstate → Prop) (R : kstate → kstate → Prop).
#[local] Abbreviation wpk := (wp E G R).

Lemma wp_push_off s H n b (Q : unit → kstate → Prop) :
  lockdepth H n b (k_lk s) →
  (∀ k, lockdepth H (n + 1) b k → lk_frame (k_lk s) k → Q tt (s <| k_lk := k |>)) →
  wpk (push_off s) Q.
Proof.
  destruct s as [[tp cs ss ls] pt mem csr dev sv].
  intros (c & x & Hc & Hx & (Hpos & Hn & Hi) & Hl) HQ. simpl in Hc, Hx, Hl.
  assert (Htp : (tp < length ss)%nat) by (by eapply lookup_lt_Some).
  assert (Htc : (tp < length cs)%nat) by (by eapply lookup_lt_Some).
  unfold push_off, intr_get, intr_off, r_sstatus, w_sstatus, mycpu, cpuid, upd_cpu,
    mycpu, cpuid, when, bind, get, gets, modify, deref, ret.
  simpl. rewrite Hx. simpl. rewrite Hx. simpl. rewrite Hc. simpl.
  assert (Hn1 : (n + 1 =? 0) = false) by lia. rewrite Hn.
  destruct (n =? 0) eqn:E0; simpl; rewrite Hc; simpl;
    rewrite ?list_lookup_insert_eq by done; simpl;
    rewrite ?list_lookup_insert_eq by done; apply HQ.
  - eexists _, _. simpl. rewrite list_insert_insert_eq, !list_lookup_insert_eq by done.
    split_and!; [done|done| |done]. unfold intr_state. rewrite Hn1. simpl.
    split_and!; [lia|lia|apply sie_bit_off|by rewrite Hi].
  - split; [done|]. simpl. rewrite list_insert_insert_eq by done.
    by apply (fmap_c_proc_insert _ _ c).
  - eexists _, _. simpl. rewrite !list_lookup_insert_eq by done.
    split_and!; [done|done| |done]. unfold intr_state. rewrite Hn1. simpl.
    split_and!; [lia|lia|apply sie_bit_off|apply Hi].
  - split; [done|]. simpl. by apply (fmap_c_proc_insert _ _ c).
Qed.

Lemma wp_pop_off s H n b (Q : unit → kstate → Prop) :
  0 ≤ n → lockdepth H (n + 1) b (k_lk s) →
  (∀ k, lockdepth H n b k → lk_frame (k_lk s) k → Q tt (s <| k_lk := k |>)) →
  wpk (pop_off s) Q.
Proof.
  destruct s as [[tp cs ss ls] pt mem csr dev sv].
  intros Hn0 (c & x & Hc & Hx & (Hpos & Hn & Hi) & Hl) HQ. simpl in Hc, Hx, Hl.
  assert (Htp : (tp < length ss)%nat) by (by eapply lookup_lt_Some).
  assert (Htc : (tp < length cs)%nat) by (by eapply lookup_lt_Some).
  assert (Hlt : (c_noff c <? 1) = false) by lia.
  replace (n + 1 =? 0) with false in Hi by lia. destruct Hi as [Hoff Hena].
  unfold pop_off, intr_get, intr_on, r_sstatus, w_sstatus, mycpu, cpuid, upd_cpu,
    mycpu, cpuid, when, bind, get, gets, modify, deref, ret.
  simpl. rewrite Hx. simpl. rewrite Hoff. simpl. rewrite Hc. simpl.
  rewrite Hlt. simpl. rewrite Hc. simpl. rewrite list_lookup_insert_eq by done. simpl.
  rewrite Hn, Hena. replace (n + 1 - 1) with n by lia.
  destruct (_ && _) eqn:E0; simpl.
  - rewrite Hx. simpl. apply HQ.
    + eexists _, _. simpl. rewrite !list_lookup_insert_eq by done.
      split_and!; [done|done| |done]. unfold intr_state. simpl.
      destruct (n =? 0), b; try done. split_and!; [lia|lia|apply sie_bit_on].
    + split; [done|]. simpl. by apply (fmap_c_proc_insert _ _ c).
  - apply HQ.
    + eexists _, _. simpl. rewrite !list_lookup_insert_eq by done.
      split_and!; [done|done| |done]. unfold intr_state. simpl.
      destruct (n =? 0), b; try done; split_and!; done || lia.
    + split; [done|]. simpl. by apply (fmap_c_proc_insert _ _ c).
Qed.

Lemma wp_acquire l s H (Q : unit → kstate → Prop) :
  lockinv H (k_lk s) → l ∉ H →
  (∀ k, lockinv ({[l]} ∪ H) k → lk_frame (k_lk s) k → Q tt (s <| k_lk := k |>)) →
  wpk (acquire l s) Q.
Proof.
  intros [b Hinv] Hl HQ. unfold acquire, acquire_enter.
  apply wp_bind, wp_bind. eapply wp_push_off; [exact Hinv|].
  intros k (c & x & Hc & Hx & Hi & Hlk) [Htp Hfr].
  unfold holding, test_and_set, acquire_exit, rd_lock, wr_lock, cpuid, bind, gets, modify, ret.
  simpl. rewrite (Hlk l), decide_False by done. apply wp_done.
  simpl. rewrite (Hlk l), decide_False by done. apply wp_done, HQ.
  - assert (size ({[l]} ∪ H) = S (size H)) as Hsz.
    { rewrite size_union by set_solver. by rewrite size_singleton. }
    exists b, c, x. rewrite Hsz. simpl.
    split_and!; [done|done|by rewrite Nat2Z.inj_succ, <- Z.add_1_r|].
    intros l'. rewrite !lock_of_insert.
    destruct (decide (l = l')) as [<-|Hne].
    + rewrite (decide_True (P:=l ∈ _)) by set_solver. by rewrite decide_True by done.
    + rewrite (Hlk l'). apply decide_ext. set_solver.
  - by split.
Qed.

Lemma wp_release l s H (Q : unit → kstate → Prop) :
  lockinv H (k_lk s) → l ∈ H →
  (∀ k, lockinv (H ∖ {[l]}) k → lk_frame (k_lk s) k → Q tt (s <| k_lk := k |>)) →
  wpk (release l s) Q.
Proof.
  intros (b & c & x & Hc & Hx & Hi & Hlk) Hl HQ. unfold release, release_enter.
  unfold holding, sync_lock_release, rd_lock, wr_lock, cpuid, bind, gets, modify, ret.
  simpl. rewrite (Hlk l), decide_True by done. simpl.
  rewrite bool_decide_eq_true_2 by done. simpl.
  assert (size H = S (size (H ∖ {[l]}))) as Hsz.
  { rewrite size_difference by set_solver. rewrite size_singleton.
    assert (size H ≠ 0%nat); [|lia]. intros H0. apply size_empty_inv in H0. set_solver. }
  eapply (wp_pop_off _ (H ∖ {[l]}) (Z.of_nat (size (H ∖ {[l]}))) b); [lia| |].
  - exists c, x. simpl.
    split_and!; [done|done|by rewrite Hsz, Nat2Z.inj_succ, <- Z.add_1_r in Hi|].
    intros l'. rewrite !lock_of_insert.
    destruct (decide (l = l')) as [<-|Hne].
    + rewrite (decide_False (P:=l ∈ _)) by set_solver. by rewrite decide_True by done.
    + rewrite (Hlk l'). apply decide_ext. set_solver.
  - intros k Hk [Htp Hfr]. apply HQ; [by exists b|]. by split.
Qed.

(** the form for the end of a critical section *)
Lemma wp_release_add l s H (Q : unit → kstate → Prop) :
  lockinv ({[l]} ∪ H) (k_lk s) → l ∉ H →
  (∀ k, lockinv H k → lk_frame (k_lk s) k → Q tt (s <| k_lk := k |>)) →
  wpk (release l s) Q.
Proof.
  intros Hinv Hl HQ. eapply wp_release; [done|set_solver|].
  by replace (({[l]} ∪ H) ∖ {[l]}) with H by set_solver.
Qed.

Lemma wp_myproc s H (Q : option nat → kstate → Prop) :
  lockinv H (k_lk s) →
  (∀ k, lockinv H k → lk_frame (k_lk s) k →
        Q (cur_proc (k_lk s)) (s <| k_lk := k |>)) →
  wpk (myproc s) Q.
Proof.
  intros [b Hinv] HQ. unfold myproc. apply wp_bind.
  eapply wp_push_off; [exact Hinv|]. intros k Hk Hfr.
  pose proof Hk as (c & x & Hc & _).
  assert (Hcur : cur_proc (k_lk s) = c_proc c).
  { rewrite <- (cur_proc_frame _ _ Hfr). unfold cur_proc. by rewrite Hc. }
  apply wp_bind. unfold mycpu, cpuid, bind, gets, get, deref. simpl. rewrite Hc.
  apply wp_done, wp_bind. eapply wp_pop_off; [|exact Hk|]; [lia|].
  intros k' Hk' Hfr'. simpl. apply wp_done. rewrite <- Hcur. apply HQ; [by exists b|].
  by etrans.
Qed.

Lemma wp_holding l s H Q :
  lockinv H (k_lk s) → Q (bool_decide (l ∈ H)) s → wpk (holding l s) Q.
Proof.
  intros (b & c & x & Hc & Hx & Hi & Hlk) HQ.
  unfold holding, rd_lock, cpuid, bind, gets, ret. simpl. rewrite (Hlk l).
  apply wp_done. revert HQ. destruct (decide (l ∈ H)) as [Hl|Hl].
  - rewrite !bool_decide_eq_true_2 by done. done.
  - rewrite bool_decide_eq_false_2 by done. done.
Qed.

Lemma wp_mycpu s H Q :
  lockinv H (k_lk s) →
  (∀ c, lk_cpus (k_lk s) !! lk_tp (k_lk s) = Some c → c_noff c = Z.of_nat (size H) →
        c_proc c = cur_proc (k_lk s) →
        (H ≠ ∅ → ∃ b, c_intena c = Z.b2z b) → Q c s) →
  wpk (mycpu s) Q.
Proof.
  intros (b & c & x & Hc & Hx & (Hpos & Hn & Hi) & Hlk) HQ.
  unfold mycpu, cpuid, bind, gets, get. simpl. rewrite Hc. apply wp_done, HQ; [done|done| |].
  - unfold cur_proc. by rewrite Hc.
  - intros Hne. exists b. destruct (Z.eqb_spec (Z.of_nat (size H)) 0) as [Hz|Hz].
    + exfalso. apply Hne, leibniz_equiv, size_empty_inv. lia.
    + apply Hi.
Qed.

Lemma wp_intr_get_held s H Q :
  lockinv H (k_lk s) → H ≠ ∅ → Q false s → wpk (intr_get s) Q.
Proof.
  intros (b & c & x & Hc & Hx & (Hpos & Hn & Hi) & Hlk) Hne HQ.
  unfold intr_get, r_sstatus, bind, get. simpl. rewrite Hx. apply wp_done. simpl.
  destruct (Z.eqb_spec (Z.of_nat (size H)) 0) as [Hz|Hz].
  - exfalso. apply Hne, leibniz_equiv, size_empty_inv. lia.
  - destruct Hi as [-> _]. done.
Qed.

(** writing [mycpu()->intena] while a lock is held, and [mycpu()->proc] *)
Lemma wp_set_intena b s H (Q : unit → kstate → Prop) :
  lockinv H (k_lk s) → H ≠ ∅ →
  (∀ k, lockinv H k → lk_frame (k_lk s) k → Q tt (s <| k_lk := k |>)) →
  wpk (upd_cpu (λ c, c <| c_intena := Z.b2z b |>) s) Q.
Proof.
  intros (b0 & c & x & Hc & Hx & (Hpos & Hn & Hi) & Hlk) Hne HQ.
  assert (Hlt : (lk_tp (k_lk s) < length (lk_cpus (k_lk s)))%nat) by (by eapply lookup_lt_Some).
  unfold upd_cpu, mycpu, cpuid, bind, gets, get. simpl. rewrite Hc. apply wp_done. apply HQ.
  - exists b, (c <| c_intena := Z.b2z b |>), x. simpl. rewrite list_lookup_insert_eq by done.
    split_and!; [done|done| |done]. split_and!; [done|done|].
    destruct (Z.eqb_spec (Z.of_nat (size H)) 0) as [Hz|Hz].
    + exfalso. apply Hne, leibniz_equiv, size_empty_inv. lia.
    + split; [apply Hi|done].
  - split; [done|]. simpl. by apply (fmap_c_proc_insert _ _ c).
Qed.

Lemma wp_set_c_proc o s H (Q : unit → kstate → Prop) :
  lockinv H (k_lk s) →
  (∀ k, lockinv H k → lk_tp k = lk_tp (k_lk s) → cur_proc k = o → Q tt (s <| k_lk := k |>)) →
  wpk (upd_cpu (λ c, c <| c_proc := o |>) s) Q.
Proof.
  intros (b0 & c & x & Hc & Hx & Hi & Hlk) HQ.
  assert (Hlt : (lk_tp (k_lk s) < length (lk_cpus (k_lk s)))%nat) by (by eapply lookup_lt_Some).
  unfold upd_cpu, mycpu, cpuid, bind, gets, get. simpl. rewrite Hc. apply wp_done. apply HQ.
  - exists b0, (c <| c_proc := o |>), x. simpl. by rewrite list_lookup_insert_eq by done.
  - done.
  - unfold cur_proc. simpl. by rewrite list_lookup_insert_eq by done.
Qed.

(** [intr_on] and [intr_off] with no lock held *)
Lemma wp_intr_on_free s (Q : unit → kstate → Prop) :
  lockinv ∅ (k_lk s) →
  (∀ k, lockinv ∅ k → lk_frame (k_lk s) k → Q tt (s <| k_lk := k |>)) →
  wpk (intr_on s) Q.
Proof.
  intros (b & c & x & Hc & Hx & (Hpos & Hn & Hi) & Hlk) HQ.
  assert (Hlt : (lk_tp (k_lk s) < length (lk_sstatus (k_lk s)))%nat) by (by eapply lookup_lt_Some).
  unfold intr_on, r_sstatus, w_sstatus, bind, get, modify. simpl. rewrite Hx. apply wp_done, HQ; [|done].
  exists true, c, (Z.lor x SSTATUS_SIE). simpl. rewrite list_lookup_insert_eq by done.
  split_and!; [done|done| |done]. split_and!; [done|done|]. simpl. apply sie_bit_on.
Qed.
Lemma wp_intr_off_free s (Q : unit → kstate → Prop) :
  lockinv ∅ (k_lk s) →
  (∀ k, lockinv ∅ k → lk_frame (k_lk s) k → Q tt (s <| k_lk := k |>)) →
  wpk (intr_off s) Q.
Proof.
  intros (b & c & x & Hc & Hx & (Hpos & Hn & Hi) & Hlk) HQ.
  assert (Hlt : (lk_tp (k_lk s) < length (lk_sstatus (k_lk s)))%nat) by (by eapply lookup_lt_Some).
  unfold intr_off, r_sstatus, w_sstatus, bind, get, modify. simpl. rewrite Hx. apply wp_done, HQ; [|done].
  exists false, c, (Z.land x (Z.lnot SSTATUS_SIE)). simpl. rewrite list_lookup_insert_eq by done.
  split_and!; [done|done| |done]. split_and!; [done|done|]. simpl. apply sie_bit_off.
Qed.
Lemma wp_w_sstatus_free x s (Q : unit → kstate → Prop) :
  lockinv ∅ (k_lk s) →
  (∀ k, lockinv ∅ k → lk_frame (k_lk s) k → Q tt (s <| k_lk := k |>)) →
  wpk (w_sstatus x s) Q.
Proof. intros Hlk HQ. apply wp_done, HQ; [by apply lockinv_sstatus|done]. Qed.
End discipline.

(** at boot no lock is held *)
Lemma lockinv0 : lockinv ∅ (k_lk kstate0).
Proof. exists false, (mk_cpu None 0 0), 0. split_and!; by try intros l. Qed.

(** ** Nesting of [push_off] and [pop_off] *)

Inductive pushpop := Push | Pop.
Definition run_pushpop (w : list pushpop) : KM unit :=
  for_each w (λ o, match o with Push => push_off | Pop => pop_off end).
(** every [Pop] matches an earlier [Push], [d] of which are still open *)
Fixpoint balanced (d : nat) (w : list pushpop) : bool :=
  match w, d with
  | [], O => true
  | [], S _ => false
  | Push :: w', _ => balanced (S d) w'
  | Pop :: w', S d' => balanced d' w'
  | Pop :: _, O => false
  end.

Lemma wp_run_pushpop E G R H b w d s :
  lockdepth H (Z.of_nat d) b (k_lk s) → balanced d w = true →
  wp E G R (run_pushpop w s)
    (λ _ s', lockdepth H 0 b (k_lk s') ∧ ∃ k, s' = s <| k_lk := k |>).
Proof.
  revert d s. induction w as [|o w IH]; intros d s Hd Hb.
  { destruct d; [|done]. apply wp_done. split; [done|]. exists (k_lk s). by destruct s. }
  unfold run_pushpop. simpl. apply wp_bind. destruct o.
  - eapply wp_push_off; [done|]. intros k Hk _.
    eapply wp_mono, (IH (S d)); [|by rewrite Nat2Z.inj_succ, <- Z.add_1_r|by destruct d].
    intros _ s' [? [k' ->]]. eauto.
  - destruct d as [|d]; [done|].
    eapply wp_pop_off; [|by rewrite Nat2Z.inj_succ, <- Z.add_1_r in Hd|]; [lia|].
    intros k Hk _. eapply wp_mono, (IH d); [|done|done].
    intros _ s' [? [k' ->]]. eauto.
Qed.

(** ** Interleaved harts

    [sys] adds to the kernel state, for each hart, the locks it has acquired
    and how far it is inside [acquire] or [release].  A step is one access of
    one hart to the shared state, or its private interrupt bookkeeping. *)

Inductive lkpc :=
| Idle
| Spinning (l : lockid)     (* before the test-and-set of acquire *)
| Got (l : lockid)          (* after it succeeded, lk->cpu not yet set *)
| Dropping (l : lockid)     (* in release, lk->cpu cleared *)
| Dropped.                  (* after __sync_lock_release, before pop_off *)

Record sys := mk_sys { sys_k : kstate; sys_held : nat → gset lockid; sys_pc : nat → lkpc }.

(** run [m] on hart [h] *)
Definition on_hart {A} (h : nat) (m : KM A) (s : kstate) : res kstate A :=
  m (s <| k_lk ::= λ k, k <| lk_tp := h |> |>).

Inductive lk_step : sys → sys → Prop :=
| step_acquire_enter h l s s' held pc :
    pc h = Idle → on_hart h (acquire_enter l) s = Done tt s' →
    lk_step (mk_sys s held pc) (mk_sys s' held (<[h:=Spinning l]> pc))
| step_test_and_set h l s s' old held pc :
    pc h = Spinning l → on_hart h (test_and_set l) s = Done old s' →
    lk_step (mk_sys s held pc)
      (mk_sys s' held (if old =? 0 then <[h:=Got l]> pc else pc))
| step_acquire_exit h l s s' held pc :
    pc h = Got l → on_hart h (acquire_exit l) s = Done tt s' →
    lk_step (mk_sys s held pc) (mk_sys s' (<[h:={[l]} ∪ held h]> held) (<[h:=Idle]> pc))
| step_release_enter h l s s' held pc :
    pc h = Idle → on_hart h (release_enter l) s = Done tt s' →
    lk_step (mk_sys s held pc)
      (mk_sys s' (<[h:=held h ∖ {[l]}]> held) (<[h:=Dropping l]> pc))
| step_lock_release h l s s' held pc :
    pc h = Dropping l → on_hart h (sync_lock_release l) s = Done tt s' →
    lk_step (mk_sys s held pc) (mk_sys s' held (<[h:=Dropped]> pc))
| step_pop_off h s s' held pc :
    pc h = Dropped → on_hart h pop_off s = Done tt s' →
    lk_step (mk_sys s held pc) (mk_sys s' held (<[h:=Idle]> pc)).

(** [h] is between its successful test-and-set and its lock release *)
Definition owns (y : sys) (h : nat) (l : lockid) : Prop :=
  l ∈ sys_held y h ∨ sys_pc y h = Got l ∨ sys_pc y h = Dropping l.

Record sysinv (y : sys) : Prop := {
  sysinv_locked l : locked (lock_of (k_lk (sys_k y)) l) = 0 ∨
                    locked (lock_of (k_lk (sys_k y)) l) = 1;
  sysinv_free l h : locked (lock_of (k_lk (sys_k y)) l) = 0 → ¬ owns y h l;
  sysinv_excl l h h' : owns y h l → owns y h' l → h = h';
  sysinv_cpu l h : lk_cpu (lock_of (k_lk (sys_k y)) l) = Some h ↔ l ∈ sys_held y h;
  sysinv_pc l h : sys_pc y h = Got l ∨ sys_pc y h = Dropping l → l ∉ sys_held y h
}.

Definition sys_init (s : kstate) : sys := mk_sys s (λ _, ∅) (λ _, Idle).

Lemma push_off_locks s r s' : push_off s = Done r s' → lk_locks (k_lk s') = lk_locks (k_lk s).
Proof.
  unfold push_off, intr_get, intr_off, r_sstatus, w_sstatus, upd_cpu, mycpu, cpuid,
    when, bind, get, gets, modify, deref, ret, fault, stop_with.
  simpl. intros Hr. by repeat (case_match; simplify_eq/=).
Qed.

Lemma pop_off_locks s r s' : pop_off s = Done r s' → lk_locks (k_lk s') = lk_locks (k_lk s).
Proof.
  unfold pop_off, intr_get, intr_on, r_sstatus, w_sstatus, upd_cpu, mycpu, cpuid,
    when, bind, get, gets, modify, deref, ret, panic, fault, stop_with.
  simpl. intros Hr. by repeat (case_match; simplify_eq/=).
Qed.

Lemma lock_of_same s s' : lk_locks (k_lk s') = lk_locks (k_lk s) →
  ∀ l, lock_of (k_lk s') l = lock_of (k_lk s) l.
Proof. intros H l. unfold lock_of. by rewrite H. Qed.

Lemma acquire_enter_locks h l s r s' : on_hart h (acquire_enter l) s = Done r s' →
  ∀ l', lock_of (k_lk s') l' = lock_of (k_lk s) l'.
Proof.
  unfold on_hart, acquire_enter, bind. destruct (push_off _) as [u s1| |] eqn:Hp; [|done|done].
  apply push_off_locks in Hp. unfold holding, rd_lock, cpuid, bind, gets, ret, panic, stop_with.
  simpl. case_match; [done|]. intros [= <- <-]. by apply lock_of_same.
Qed.

Lemma sysinv_init s : (∀ l, lock_of (k_lk s) l = lock0) → sysinv (sys_init s).
Proof.
  intros H0. split; unfold owns; simpl; intros; rewrite ?H0 in *; simpl in *; set_solver.
Qed.

(** a step of [h] that leaves the locks and the held sets as they are, and
    ends in a program point that owns nothing new *)
Lemma sysinv_local s s' held pc h q :
  sysinv (mk_sys s held pc) → (∀ l, lock_of (k_lk s') l = lock_of (k_lk s) l) →
  pc h = Idle ∨ pc h = Dropped → (∀ l, q ≠ Got l) → (∀ l, q ≠ Dropping l) →
  sysinv (mk_sys s' held (<[h:=q]> pc)).
Proof.
  intros [I1 I2 I3 I4 I5] Hl Hpc Hq1 Hq2. unfold owns in *. simpl in *.
  assert (Hown : ∀ h' l, l ∈ held h' ∨ (<[h:=q]> pc) h' = Got l ∨ (<[h:=q]> pc) h' = Dropping l →
            l ∈ held h' ∨ pc h' = Got l ∨ pc h' = Dropping l).
  { intros h' l. unfold insert, fn_insert. case_decide; naive_solver. }
  split; unfold owns; simpl.
  - intros l. rewrite Hl. apply I1.
  - intros l h'. rewrite Hl. intros H0 Ho. by eapply I2, Hown.
  - intros l h1 h2 H1 H2. by eapply I3; apply Hown.
  - intros l h'. rewrite Hl. apply I4.
  - intros l h'. unfold insert, fn_insert. case_decide; naive_solver.
Qed.

Lemma sysinv_tas s s' held pc h l old :
  sysinv (mk_sys s held pc) → pc h = Spinning l → on_hart h (test_and_set l) s = Done old s' →
  sysinv (mk_sys s' held (if old =? 0 then <[h:=Got l]> pc else pc)).
Proof.
  intros [I1 I2 I3 I4 I5] Hpc Hrun. unfold owns in *. simpl in *.
  cbv [on_hart test_and_set rd_lock wr_lock bind gets modify ret bindr] in Hrun.
  injection Hrun as <- <-. simpl.
  set (lk := lock_of ((k_lk s) <| lk_tp := h |>) l) in *.
  assert (Hlk : lk = lock_of (k_lk s) l) by done.
  destruct (Z.eqb_spec (locked lk) 0) as [H0|H0].
  - rewrite Hlk in H0.
    assert (Hl : ∀ h', ¬ (l ∈ held h' ∨ pc h' = Got l ∨ pc h' = Dropping l)) by eauto.
    assert (Hown : ∀ h' l', l' ∈ held h' ∨ (<[h:=Got l]> pc) h' = Got l' ∨ (<[h:=Got l]> pc) h' = Dropping l' →
            (h' = h ∧ l' = l) ∨ (l' ≠ l ∧ (l' ∈ held h' ∨ pc h' = Got l' ∨ pc h' = Dropping l'))).
    { intros h' l'. unfold insert, fn_insert. case_decide; naive_solver. }
    split; unfold owns; simpl.
    + intros l'. rewrite lock_of_insert. case_decide; [by right|apply I1].
    + intros l' h'. rewrite lock_of_insert. case_decide as Hd; [done|].
      intros Hz Ho. apply Hown in Ho as [[_ ->]|[_ Ho]]; [done|]. by eapply I2.
    + intros l' h1 h2 H1 H2. apply Hown in H1, H2. naive_solver.
    + intros l' h'. rewrite lock_of_insert. case_decide as Hd; [subst l'|apply I4].
      simpl. rewrite Hlk. apply I4.
    + intros l' h'. unfold insert, fn_insert. case_decide; naive_solver.
  - rewrite Hlk in H0. assert (H1 : locked (lock_of (k_lk s) l) = 1) by (destruct (I1 l); done).
    assert (Hsame : ∀ l', lock_of ((k_lk s) <| lk_tp := h |> <| lk_locks ::= <[l:=lk <| locked := 1 |>]> |>) l'
              = lock_of (k_lk s) l').
    { intros l'. rewrite lock_of_insert. case_decide as Hd; [subst l'|done].
      rewrite Hlk, <- H1. by destruct (lock_of (k_lk s) l). }
    split; unfold owns; simpl; intros *; rewrite ?Hsame; eauto.
Qed.

Lemma sysinv_exit s s' held pc h l :
  sysinv (mk_sys s held pc) → pc h = Got l → on_hart h (acquire_exit l) s = Done tt s' →
  sysinv (mk_sys s' (<[h:={[l]} ∪ held h]> held) (<[h:=Idle]> pc)).
Proof.
  intros [I1 I2 I3 I4 I5] Hpc Hrun. unfold owns in *. simpl in *.
  cbv [on_hart acquire_exit cpuid rd_lock wr_lock bind gets modify ret bindr] in Hrun.
  injection Hrun as <-. simpl.
  assert (Hown : ∀ h' l', l' ∈ (<[h:={[l]} ∪ held h]> held) h' ∨ (<[h:=Idle]> pc) h' = Got l' ∨
            (<[h:=Idle]> pc) h' = Dropping l' → l' ∈ held h' ∨ pc h' = Got l' ∨ pc h' = Dropping l').
  { intros h' l'. unfold insert, fn_insert. case_decide; [subst|done]. set_solver. }
  split; unfold owns; simpl.
  - intros l'. rewrite lock_of_insert. case_decide; [subst l'|]; apply I1.
  - intros l' h'. rewrite lock_of_insert. intros Hz Ho. apply Hown in Ho.
    eapply I2; [|done]. case_decide; [by subst l'|done].
  - intros l' h1 h2 H1 H2. apply Hown in H1, H2. eauto.
  - intros l' h'. rewrite lock_of_insert. unfold insert, fn_insert.
    case_decide as Hd; [subst l'; simpl|].
    + case_decide as Hh; [subst; set_solver|]. split; [congruence|].
      intros Hin. exfalso. apply Hh. eapply I3; eauto.
    + rewrite (I4 l' h'). case_decide; [subst; set_solver|done].
  - intros l' h'. unfold insert, fn_insert. case_decide; [naive_solver|]. eauto.
Qed.

Lemma sysinv_release_enter s s' held pc h l :
  sysinv (mk_sys s held pc) → pc h = Idle → on_hart h (release_enter l) s = Done tt s' →
  sysinv (mk_sys s' (<[h:=held h ∖ {[l]}]> held) (<[h:=Dropping l]> pc)).
Proof.
  intros [I1 I2 I3 I4 I5] Hpc Hrun. unfold owns in *. simpl in *.
  cbv [on_hart release_enter holding cpuid rd_lock wr_lock bind gets modify ret bindr panic
    stop_with] in Hrun. simpl in Hrun.
  set (lk := lock_of ((k_lk s) <| lk_tp := h |>) l) in *.
  assert (Hlk : lk = lock_of (k_lk s) l) by done.
  destruct (negb (locked lk =? 0)) eqn:E0; [|done]. simpl in Hrun.
  case_bool_decide as Hcpu; [|done]. injection Hrun as <-. simpl.
  assert (Hin : l ∈ held h) by (by apply I4; rewrite <- Hlk).
  assert (Hown : ∀ h' l', l' ∈ (<[h:=held h ∖ {[l]}]> held) h' ∨ (<[h:=Dropping l]> pc) h' = Got l' ∨
            (<[h:=Dropping l]> pc) h' = Dropping l' → l' ∈ held h' ∨ pc h' = Got l' ∨ pc h' = Dropping l').
  { intros h' l'. unfold insert, fn_insert. case_decide; [subst|done]. set_solver. }
  split; unfold owns; simpl.
  - intros l'. rewrite lock_of_insert. case_decide; [subst l'|]; apply I1.
  - intros l' h'. rewrite lock_of_insert. intros Hz Ho. apply Hown in Ho.
    eapply I2; [|done]. case_decide; [by subst l'|done].
  - intros l' h1 h2 H1 H2. apply Hown in H1, H2. eauto.
  - intros l' h'. rewrite lock_of_insert. unfold insert, fn_insert.
    case_decide as Hd; [subst l'; simpl|].
    + split; [done|]. case_decide as Hh; [set_solver|].
      intros Hin'. exfalso. apply Hh. eapply I3; eauto.
    + rewrite (I4 l' h'). case_decide; [subst; set_solver|done].
  - intros l' h'. unfold insert, fn_insert. case_decide; [|eauto]. set_solver.
Qed.

Lemma sysinv_lock_release s s' held pc h l :
  sysinv (mk_sys s held pc) → pc h = Dropping l →
  on_hart h (sync_lock_release l) s = Done tt s' →
  sysinv (mk_sys s' held (<[h:=Dropped]> pc)).
Proof.
  intros [I1 I2 I3 I4 I5] Hpc Hrun. unfold owns in *. simpl in *.
  cbv [on_hart sync_lock_release rd_lock wr_lock bind gets modify ret bindr] in Hrun.
  injection Hrun as <-. simpl.
  assert (Hown : ∀ h' l', l' ∈ held h' ∨ (<[h:=Dropped]> pc) h' = Got l' ∨
            (<[h:=Dropped]> pc) h' = Dropping l' →
            l' ≠ l ∧ (l' ∈ held h' ∨ pc h' = Got l' ∨ pc h' = Dropping l')).
  { intros h' l' Ho. assert (Ho' : l' ∈ held h' ∨ pc h' = Got l' ∨ pc h' = Dropping l').
    { revert Ho. unfold insert, fn_insert. case_decide; [subst|done]. set_solver. }
    split; [|done]. intros ->. assert (h' = h) as -> by eauto.
    revert Ho. unfold insert, fn_insert. rewrite decide_True by done. naive_solver. }
  split; unfold owns; simpl.
  - intros l'. rewrite lock_of_insert. case_decide; [by left|apply I1].
  - intros l' h'. rewrite lock_of_insert. intros Hz [Hne Ho]%Hown.
    rewrite decide_False in Hz by done. by eapply I2.
  - intros l' h1 h2 [_ H1]%Hown [_ H2]%Hown. eauto.
  - intros l' h'. rewrite lock_of_insert. case_decide; [subst l'|]; apply I4.
  - intros l' h'. unfold insert, fn_insert. case_decide; [naive_solver|]. eauto.
Qed.

Lemma sysinv_step y y' : sysinv y → lk_step y y' → sysinv y'.
Proof.
  intros Hinv Hstep. destruct Hstep.
  - eapply sysinv_local; eauto using acquire_enter_locks.
  - by eapply sysinv_tas.
  - by eapply sysinv_exit.
  - by eapply sysinv_release_enter.
  - by eapply sysinv_lock_release.
  - eapply sysinv_local; eauto. apply lock_of_same.
    by match goal with Hp : on_hart _ pop_off _ = _ |- _ => apply pop_off_locks in Hp end.
Qed.

Lemma sysinv_reach s y : (∀ l, lock_of (k_lk s) l = lock0) →
  rtc lk_step (sys_init s) y → sysinv y.
Proof.
  intros H0. apply rtc_invariant; [apply sysinv_step|by apply sysinv_init].
Qed.

(** ** Properties *)

(** C5: mutual exclusion.  Whatever the interleaving of the harts' steps
    inside [acquire] and [release], starting from free locks: at most one
    hart is between its successful test-and-set of a lock and its release of
    it, and then the lock is marked as held.  [release] only succeeds on a
    lock the hart holds, since [holding] is exact: the recorded owner of a
    lock is [h] if and only if [h] has acquired and not yet released it. *)
Theorem spinlock_mutual_exclusion s y :
  (∀ l, lock_of (k_lk s) l = lock0) → rtc lk_step (sys_init s) y →
  (∀ l h h', owns y h l → owns y h' l → h = h') ∧
  (∀ l h, owns y h l → locked (lock_of (k_lk (sys_k y)) l) = 1) ∧
  (∀ l h, on_hart h (holding l) (sys_k y) =
     Done (bool_decide (l ∈ sys_held y h)) ((sys_k y) <| k_lk ::= λ k, k <| lk_tp := h |> |>)).
Proof.
  intros H0 Hr. pose proof (sysinv_reach _ _ H0 Hr) as [I1 I2 I3 I4 I5].
  assert (Hlk : ∀ l h, owns y h l → locked (lock_of (k_lk (sys_k y)) l) = 1).
  { intros l h Ho. destruct (I1 l) as [Hz|]; [|done]. by destruct (I2 l h Hz). }
  split_and!; [done|done|]. intros l h.
  unfold on_hart, holding, bind, rd_lock, cpuid, gets, ret. simpl. f_equal.
  change (lock_of _ l) with (lock_of (k_lk (sys_k y)) l).
  rewrite (bool_decide_ext _ _ (I4 l h)). case_bool_decide as Hin; [|by rewrite andb_false_r].
  rewrite (Hlk l h) by (by left). done.
Qed.
Lemma spinlock_mutual_exclusion_witness :
  ∃ y, rtc lk_step (sys_init kstate0) y ∧ owns y 1 kmem_lock ∧ ¬ owns y 2 kmem_lock.
Proof.
  eexists. split.
  - eapply rtc_l; [by apply (step_acquire_enter 1 kmem_lock)|].
    eapply rtc_l; [by apply (step_acquire_enter 2 kmem_lock)|].
    eapply rtc_l; [by apply (step_test_and_set 1 kmem_lock)|].
    eapply rtc_l; [by apply (step_test_and_set 2 kmem_lock)|].
    apply rtc_refl.
  - split; [by right; left|]. intros H2.
    assert (H : 1%nat = 2%nat); [|done].
    eapply (spinlock_mutual_exclusion kstate0); [done| | |exact H2]; [|by right; left].
    eapply rtc_l; [by apply (step_acquire_enter 1 kmem_lock)|].
    eapply rtc_l; [by apply (step_acquire_enter 2 kmem_lock)|].
    eapply rtc_l; [by apply (step_test_and_set 1 kmem_lock)|].
    eapply rtc_l; [by apply (step_test_and_set 2 kmem_lock)|].
    apply rtc_refl.
Defined.

