(* ===== verification/Runqueue.v ===== *)
(** * The MLFQ run queues

    The queue management functions of [kernel/proc.c]: [get_quantum],
    [enqueue], [dequeue], [dequeue_specific], [demote_process] and
    [priority_boost].  A queue is a singly linked list threaded through
    [queue_next] with a head and a tail pointer; [qrep t qs] says that the
    four lists of the table [t] are the sequences [qs], and the theorems show
    that the functions act on [qs] as the operations of FIFO queues. *)

From S2P Require Import Prelude Kstate Spinlock.
#[local] Open Scope Z_scope.
#[local] Arguments seq : simpl never.

(** ** The code *)

Definition get_quantum (level : Z) : Z :=
  match level with
  | 0 => QUANTUM_L0
  | 1 => QUANTUM_L1
  | 2 => QUANTUM_L2
  | 3 => QUANTUM_L3
  | _ => QUANTUM_L3
  end.

(** [runqueues[level]] and [runqueues[level].f = v]; an index outside the
    array is a fault *)
Definition rd_rq (level : Z) : KM runqueue :=
  if level <? 0 then fault else
  let* rqs := rd_pt runqueues in deref (rqs !! Z.to_nat level).
Definition wr_rq {T} (level : Z) (f : runqueue → T) `{!Setter f} (v : T) : KM unit :=
  let* rq := rd_rq level in
  let* rqs := rd_pt runqueues in
  wr_pt runqueues (<[Z.to_nat level := rq <| f := v |>]> rqs).

Definition enqueue (p : nat) : KM unit :=
  let* level := rd p p_queue_level in
  let* rq := rd_rq level in
  match rq_tail rq with
  | None =>
      wr_rq level rq_head (Some p) ;;
      wr_rq level rq_tail (Some p) ;;
      wr p p_queue_next None
  | Some t =>
      wr t p_queue_next (Some p) ;;
      wr_rq level rq_tail (Some p) ;;
      wr p p_queue_next None
  end.

Definition dequeue (level : Z) : KM (option nat) :=
  let* rq := rd_rq level in
  match rq_head rq with
  | Some p =>
      let* next := rd p p_queue_next in
      wr_rq level rq_head next ;;
      let* rq := rd_rq level in
      when (bool_decide (rq_head rq = None)) (wr_rq level rq_tail None) ;;
      wr p p_queue_next None ;;
      ret (Some p)
  | None => ret None
  end.

(** the [for] loop of [dequeue_specific] *)
Fixpoint dequeue_specific_loop (fuel : nat) (p : nat) (level : Z)
    (prev curr : option nat) : KM unit :=
  match fuel with
  | O => stop_with StopFuel
  | S fuel =>
      match curr with
      | None => ret tt
      | Some c =>
          if decide (c = p) then
            let* next := rd p p_queue_next in
            match prev with
            | None => wr_rq level rq_head next
            | Some q => wr q p_queue_next next
            end ;;
            let* next := rd p p_queue_next in
            when (bool_decide (next = None)) (wr_rq level rq_tail prev) ;;
            wr p p_queue_next None
          else
            let* next := rd c p_queue_next in
            dequeue_specific_loop fuel p level (Some c) next
      end
  end.
(** a list without a cycle has at most [NPROC] entries *)
Definition dequeue_specific (p : nat) : KM unit :=
  let* level := rd p p_queue_level in
  let* rq := rd_rq level in
  dequeue_specific_loop (S NPROC) p level None (rq_head rq).

(** a critical section on [scheduler_stats] *)
Definition upd_stats (g : mlfq_stats → mlfq_stats) : KM unit :=
  acquire stats_lock ;;
  let* st := rd_pt scheduler_stats in
  wr_pt scheduler_stats (g st) ;;
  release stats_lock.

Definition demote_process (p : nat) : KM unit :=
  let* level := rd p p_queue_level in
  if level <? Z.of_nat MLFQ_LEVELS - 1 then
    dequeue_specific p ;;
    upd_proc p (λ r, r <| p_queue_level ::= λ l, l + 1 |>) ;;
    wr p p_time_in_queue 0 ;;
    upd_stats (λ st, st <| total_demotions ::= λ n, u64 (n + 1) |>) ;;
    enqueue p
  else ret tt.

Definition priority_boost : KM unit :=
  for_each (seq 0 MLFQ_LEVELS) (λ i,
    wr_rq (Z.of_nat i) rq_head None ;;
    wr_rq (Z.of_nat i) rq_tail None) ;;
  for_each all_procs (λ p,
    acquire (p_lock p) ;;
    let* st := rd p p_state in
    when (bool_decide (st = RUNNABLE)) (
      wr p p_queue_level 0 ;;
      wr p p_time_in_queue 0 ;;
      enqueue p) ;;
    release (p_lock p)) ;;
  wr_pt ticks_since_boost 0.

(** ** Representation of the queues *)

(** following [queue_next] from [h] visits exactly [q], then the null pointer *)
Fixpoint chain (ps : list proc) (h : option nat) (q : list nat) : Prop :=
  match q with
  | [] => h = None
  | i :: q' => h = Some i ∧ ∃ r, ps !! i = Some r ∧ chain ps (p_queue_next r) q'
  end.

Definition qrep (t : ptable) (qs : list (list nat)) : Prop :=
  length qs = MLFQ_LEVELS ∧ NoDup (concat qs) ∧
  Forall2 (λ rq q, chain (procs t) (rq_head rq) q ∧ rq_tail rq = last q) (runqueues t) qs.

(** The entries but for their links; [links_only t t'] says that [t'] differs
    from [t] only in the links, heads and tails. *)
Definition core (r : proc) : proc := r <| p_queue_next := None |>.
Definition rest (t : ptable) : ptable := t <| procs := [] |> <| runqueues := [] |>.
Definition same_rest (t t' : ptable) : Prop := rest t' = rest t.
Definition links_only (t t' : ptable) : Prop :=
  core <$> procs t' = core <$> procs t ∧ same_rest t t'.
#[export] Instance links_only_equiv : Equivalence links_only.
Proof.
  unfold links_only, same_rest. split.
  - done.
  - intros t t' [? ?]. by split.
  - intros t1 t2 t3 [? ?] [? ?]. split; congruence.
Qed.

Lemma core_lookup (ps ps' : list proc) i r :
  core <$> ps' = core <$> ps → ps !! i = Some r → ∃ r', ps' !! i = Some r' ∧ core r' = core r.
Proof.
  intros Hc Hi. apply (f_equal (.!! i)) in Hc. rewrite !list_lookup_fmap, Hi in Hc.
  destruct (ps' !! i) as [r'|]; [|done]. exists r'. split; [done|]. by apply (inj Some) in Hc.
Qed.
Lemma core_length (ps ps' : list proc) : core <$> ps' = core <$> ps → length ps' = length ps.
Proof. intros Hc. apply (f_equal length) in Hc. by rewrite !length_fmap in Hc. Qed.

Lemma chain_fun ps h q q' : chain ps h q → chain ps h q' → q = q'.
Proof.
  revert h q'. induction q as [|i q IH]; intros h [|j q']; simpl.
  - done.
  - intros -> [? _]. done.
  - intros [-> _] ?. done.
  - intros [-> (r & Hr & Hq)] [[= <-] (r' & Hr' & Hq')]. simplify_eq. f_equal. by eapply IH.
Qed.

Lemma chain_range ps h q i : chain ps h q → i ∈ q → (i < length ps)%nat.
Proof.
  revert h. induction q as [|j q IH]; simpl; intros h; [set_solver|].
  intros [-> (r & Hr & Hq)] [->|Hi]%elem_of_cons; [by eapply lookup_lt_Some|eauto].
Qed.

(** only the links of the entries of [q] matter *)
Lemma chain_ext ps ps' h q :
  (∀ i, i ∈ q → p_queue_next <$> ps' !! i = p_queue_next <$> ps !! i) →
  chain ps h q → chain ps' h q.
Proof.
  revert h. induction q as [|i q IH]; intros h Heq; simpl; [done|].
  intros [-> (r & Hr & Hq)]. split; [done|].
  pose proof (Heq i ltac:(set_solver)) as Hi. rewrite Hr in Hi.
  destruct (ps' !! i) as [r'|]; [|done]. simpl in Hi. injection Hi as Hi.
  exists r'. split; [done|]. rewrite Hi. apply IH; [|done]. intros j Hj. apply Heq. set_solver.
Qed.

Lemma chain_insert_ne ps h q i r : i ∉ q → chain ps h q → chain (<[i:=r]> ps) h q.
Proof.
  intros Hi. apply chain_ext. intros j Hj. rewrite list_lookup_insert_ne; [done|].
  by intros ->.
Qed.

Lemma chain_insert_next ps h q i r r' :
  ps !! i = Some r → p_queue_next r' = p_queue_next r →
  chain ps h q → chain (<[i:=r']> ps) h q.
Proof.
  intros Hi Hn. apply chain_ext. intros j Hj. rewrite list_lookup_insert.
  case_decide as Hd; [|done]. destruct Hd as [-> Hlt]. rewrite Hi. simpl. by rewrite Hn.
Qed.

(** the list between [h] and a pointer [e] that follows it *)
Fixpoint seg (ps : list proc) (h : option nat) (q : list nat) (e : option nat) : Prop :=
  match q with
  | [] => h = e
  | i :: q' => h = Some i ∧ ∃ r, ps !! i = Some r ∧ seg ps (p_queue_next r) q' e
  end.

Lemma chain_app ps h q1 q2 :
  chain ps h (q1 ++ q2) ↔ ∃ e, seg ps h q1 e ∧ chain ps e q2.
Proof.
  revert h. induction q1 as [|i q1 IH]; intros h; simpl.
  - naive_solver.
  - setoid_rewrite IH. naive_solver.
Qed.

Lemma seg_snoc ps h q i e :
  seg ps h (q ++ [i]) e ↔ ∃ r, seg ps h q (Some i) ∧ ps !! i = Some r ∧ p_queue_next r = e.
Proof.
  revert h. induction q as [|j q IH]; intros h; simpl.
  - naive_solver.
  - setoid_rewrite IH. naive_solver.
Qed.

Lemma seg_insert_ne ps h q e i r : i ∉ q → seg ps h q e → seg (<[i:=r]> ps) h q e.
Proof.
  intros Hi. revert h. induction q as [|j q IH]; intros h; simpl; [done|].
  intros [-> (r' & Hr & Hq)]. apply not_elem_of_cons in Hi as [Hij Hi].
  split; [done|]. exists r'. rewrite list_lookup_insert_ne by done. eauto.
Qed.

(** [tail->queue_next = p] puts [p] at the end *)
Lemma chain_link ps h q t rt p rp :
  chain ps h q → NoDup q → last q = Some t → ps !! t = Some rt → p ∉ q →
  ps !! p = Some rp →
  chain (<[p := rp <| p_queue_next := None |>]> (<[t := rt <| p_queue_next := Some p |>]> ps))
    h (q ++ [p]).
Proof.
  intros Hch Hnd Hlast Ht Hp Hrp.
  apply last_Some in Hlast as [q1 ->]. rewrite <- app_assoc. simpl.
  apply chain_app in Hch as (e & Hseg & [-> (r & Hr & _)]). simplify_eq.
  apply NoDup_app in Hnd as (_ & Hnd & _).
  assert (Htq : t ∉ q1) by (intros ?; by eapply Hnd; [done|left]).
  apply chain_app. exists (Some t).
  assert (t ≠ p) by set_solver.
  split; [apply seg_insert_ne; [set_solver|]; by apply seg_insert_ne|].
  split; [done|]. eexists. rewrite list_lookup_insert_ne by done.
  rewrite list_lookup_insert_eq by (by eapply lookup_lt_Some).
  split; [done|]. simpl. split; [done|].
  eexists. rewrite list_lookup_insert_eq; [done|].
  rewrite length_insert. by eapply lookup_lt_Some.
Qed.

Lemma core_insert (ps : list proc) i r r' :
  ps !! i = Some r → core r' = core r → core <$> <[i:=r']> ps = core <$> ps.
Proof.
  intros Hi Hc. rewrite list_fmap_insert, Hc. apply list_insert_id.
  by rewrite list_lookup_fmap, Hi.
Qed.

Lemma qrep_lookup t qs lvl q : qrep t qs → qs !! lvl = Some q →
  ∃ rq, runqueues t !! lvl = Some rq ∧ chain (procs t) (rq_head rq) q ∧ rq_tail rq = last q.
Proof. intros (_ & _ & HF) Hq. by eapply Forall2_lookup_r in HF as (rq & ? & ? & ?); eauto. Qed.

(** writing a field other than the link keeps the queues *)
Lemma qrep_upd_proc t qs i r r' :
  qrep t qs → procs t !! i = Some r → p_queue_next r' = p_queue_next r →
  qrep (t <| procs ::= <[i:=r']> |>) qs.
Proof.
  intros (Hlen & Hnd & HF) Hi Hn. split_and!; [done|done|]. simpl.
  eapply Forall2_impl; [exact HF|]. intros rq q [Hch ?]. split; [|done].
  by eapply chain_insert_next.
Qed.

Lemma qrep_same_links t t' qs :
  procs t' = procs t → runqueues t' = runqueues t → qrep t qs → qrep t' qs.
Proof. unfold qrep. by intros -> ->. Qed.

(** what a table whose level [lvl] is relinked represents *)
Lemma qrep_relink t t' qs lvl q h :
  qrep t qs → NoDup (concat (<[lvl := q]> qs)) →
  chain (procs t') h q →
  runqueues t' = <[lvl := mk_runqueue h (last q)]> (runqueues t) →
  (∀ l' q', l' ≠ lvl → qs !! l' = Some q' →
     ∀ h', chain (procs t) h' q' → chain (procs t') h' q') →
  qrep t' (<[lvl := q]> qs).
Proof.
  intros (Hlen & _ & HF) Hnd Hch Hrq Hoth.
  split_and!; [by rewrite length_insert|done|].
  rewrite Hrq. eapply Forall2_insert_upd; [exact HF|done|].
  intros j rq q' Hne _ Hq' [? ?]. split; [by eapply Hoth|done].
Qed.

(** an entry of one queue is in no other *)
Lemma qrep_other t qs lvl q p l' q' :
  qrep t qs → qs !! lvl = Some q → p ∈ q → l' ≠ lvl → qs !! l' = Some q' → p ∉ q'.
Proof.
  intros (_ & Hnd & _) Hq Hp Hne Hq' Hp'. apply Hne.
  by eapply (NoDup_concat_inj qs _ _ _ _ p).
Qed.

(** unlinking [p] *)
Lemma chain_unlink ps h q1 p q2 rp :
  chain ps h (q1 ++ p :: q2) → NoDup (q1 ++ p :: q2) → ps !! p = Some rp →
  match last q1 with
  | None => chain (<[p := rp <| p_queue_next := None |>]> ps) (p_queue_next rp) q2
  | Some c => ∃ rc, ps !! c = Some rc ∧
      chain (<[p := rp <| p_queue_next := None |>]>
               (<[c := rc <| p_queue_next := p_queue_next rp |>]> ps)) h (q1 ++ q2)
  end.
Proof.
  intros Hch Hnd Hp. apply NoDup_app in Hnd as (Hnd1 & Hd & [Hp2 Hnd2]%NoDup_cons).
  assert (Hp1 : p ∉ q1) by (intros ?; by eapply Hd; [|left]).
  apply chain_app in Hch as (e & Hseg & -> & r & Hr & Hch). simplify_eq.
  destruct (last q1) as [c|] eqn:Elast.
  - apply last_Some in Elast as [q1' ->].
    apply seg_snoc in Hseg as (rc & Hseg & Hc & _). exists rc. split; [done|].
    assert (Hc2 : c ∉ q2) by (intros ?; eapply (Hd c); set_solver).
    assert (Hcp : c ≠ p) by set_solver.
    assert (Hc1 : c ∉ q1').
    { apply NoDup_app in Hnd1 as (_ & Hd1 & _). intros ?. by eapply Hd1; [|left]. }
    rewrite <- app_assoc. apply chain_app. exists (Some c). simpl.
    split; [apply seg_insert_ne; [set_solver|]; by apply seg_insert_ne|].
    split; [done|]. eexists. rewrite list_lookup_insert_ne by done.
    rewrite list_lookup_insert_eq by (by eapply lookup_lt_Some).
    split; [done|]. simpl. by do 2 (apply chain_insert_ne; [done|]).
  - apply last_None in Elast as ->. by apply chain_insert_ne.
Qed.

Lemma filter_ne_notin (p : nat) (l : list nat) : p ∉ l → filter (λ i, i ≠ p) l = l.
Proof.
  intros Hl. induction l as [|i l IH]; [done|]. apply not_elem_of_cons in Hl as [? ?].
  rewrite filter_cons_True by done. by rewrite IH.
Qed.

Lemma filter_ne_split (p : nat) (q1 q2 : list nat) : NoDup (q1 ++ p :: q2) →
  filter (λ i, i ≠ p) (q1 ++ p :: q2) = q1 ++ q2.
Proof.
  intros (Hnd1 & Hd & [Hp2 _]%NoDup_cons)%NoDup_app.
  rewrite filter_app, filter_cons_False by naive_solver.
  rewrite !filter_ne_notin; [done|done|]. intros ?. by eapply Hd; [|left].
Qed.

Lemma chain_pred ps h q1 q2 c e : chain ps h (q1 ++ e :: q2) → last q1 = Some c →
  ∃ rc, ps !! c = Some rc.
Proof.
  intros Hch [q1' ->]%last_Some. eapply lookup_lt_is_Some, chain_range; [done|]. set_solver.
Qed.

(** the table in which [p], between [q1] and [q2] in level [lvl], is unlinked *)
Definition unlinked (t : ptable) (lvl : nat) (q1 : list nat) (p : nat) (q2 : list nat)
    (r : proc) (rq : runqueue) (t' : ptable) : Prop :=
  match last q1 with
  | None => procs t' = <[p := r <| p_queue_next := None |>]> (procs t)
  | Some c => ∃ rc, procs t !! c = Some rc ∧
      procs t' = <[p := r <| p_queue_next := None |>]>
                   (<[c := rc <| p_queue_next := p_queue_next r |>]> (procs t))
  end ∧
  runqueues t' = <[lvl := mk_runqueue
    (if last q1 is None then p_queue_next r else rq_head rq)
    (if q2 is [] then last q1 else rq_tail rq)]> (runqueues t) ∧
  same_rest t t'.

Lemma qrep_unlink t t' qs lvl q1 p q2 r rq :
  qrep t qs → qs !! lvl = Some (q1 ++ p :: q2) → procs t !! p = Some r →
  runqueues t !! lvl = Some rq → unlinked t lvl q1 p q2 r rq t' →
  qrep t' (<[lvl := filter (λ i, i ≠ p) (q1 ++ p :: q2)]> qs) ∧ links_only t t'.
Proof.
  intros Hrep Hq Hp Hrq (Hps & Hrqs & Hrest).
  assert (Hndq : NoDup (q1 ++ p :: q2)) by (eapply NoDup_concat_lookup; [apply Hrep|done]).
  destruct (qrep_lookup _ _ _ _ Hrep Hq) as (rq' & ? & Hch & Htl). simplify_eq.
  pose proof (chain_unlink _ _ _ _ _ _ Hch Hndq Hp) as Hun.
  rewrite filter_ne_split by done.
  assert (Hlast : last (q1 ++ q2) = if q2 is [] then last q1 else rq_tail rq).
  { rewrite Htl. destruct q2; [by rewrite app_nil_r|]. by rewrite !last_app. }
  assert (Hoth : ∀ i l' q', i ∈ q1 ++ p :: q2 → l' ≠ lvl → qs !! l' = Some q' → i ∉ q').
  { intros i l' q' Hi ??. by eapply (qrep_other _ _ lvl). }
  rewrite <- Hlast in Hrqs.
  assert (Hnd' : NoDup (concat (<[lvl := q1 ++ q2]> qs))).
  { eapply NoDup_concat_insert_sublist; [done| |apply Hrep]. by apply sublist_app, sublist_cons. }
  destruct (last q1) as [c|] eqn:Elast.
  - destruct Hps as (rc & Hrc & Hps). destruct Hun as (rc' & ? & Hun). simplify_eq.
    assert (c ∈ q1) by (apply last_Some in Elast as [? ->]; set_solver).
    assert (c ≠ p) by (apply NoDup_app in Hndq as (_ & Hd & _); intros ->; eapply Hd; set_solver).
    split; [|split; [|done]].
    + eapply qrep_relink; [done|done| |exact Hrqs|]; [by rewrite Hps|].
      intros l' q' ?? h' ?. rewrite Hps.
      do 2 (apply chain_insert_ne; [eapply Hoth; eauto; set_solver|]). done.
    + rewrite Hps, (core_insert _ _ r); [|by rewrite list_lookup_insert_ne|done].
      by rewrite (core_insert _ _ rc).
  - apply last_None in Elast as ->. split; [|split; [|done]].
    + eapply qrep_relink; [done|done| |exact Hrqs|]; [by rewrite Hps|].
      intros l' q' ?? h' ?. rewrite Hps.
      apply chain_insert_ne; [eapply Hoth; eauto; set_solver|done].
    + by rewrite Hps, (core_insert _ _ r).
Qed.

Section ops.
Context (E : stop → Prop) (G : kstate → Prop) (R : kstate → kstate → Prop).
#[local] Abbreviation wpk := (wp E G R).

Lemma wp_rd_rq s lvl rq Q :
  runqueues (k_pt s) !! lvl = Some rq → Q rq s → wpk (rd_rq (Z.of_nat lvl) s) Q.
Proof.
  intros Hrq HQ. unfold rd_rq, rd_pt, bind, gets.
  rewrite (proj2 (Z.ltb_ge _ _)) by lia. simpl. by rewrite Nat2Z.id, Hrq.
Qed.

Lemma wp_wr_rq {T} s lvl (f : runqueue → T) `{!Setter f} v rq (Q : unit → kstate → Prop) :
  runqueues (k_pt s) !! lvl = Some rq →
  Q tt (s <| k_pt ::= λ t, t <| runqueues ::= <[lvl := rq <| f := v |>]> |> |>) →
  wpk (wr_rq (Z.of_nat lvl) f v s) Q.
Proof.
  intros Hrq HQ. unfold wr_rq. apply wp_bind. eapply wp_rd_rq; [done|].
  unfold rd_pt, wr_pt, bind, gets, modify. simpl. by rewrite Nat2Z.id.
Qed.

(** [enqueue p] appends [p] to the queue of its level. *)
Lemma wp_enqueue s p r lvl q qs (Q : unit → kstate → Prop) :
  qrep (k_pt s) qs → procs (k_pt s) !! p = Some r →
  p_queue_level r = Z.of_nat lvl → qs !! lvl = Some q → p ∉ concat qs →
  (∀ t, qrep t (<[lvl := q ++ [p]]> qs) → links_only (k_pt s) t →
        Q tt (s <| k_pt := t |>)) →
  wpk (enqueue p s) Q.
Proof.
  intros Hrep Hp Hlvl Hq Hnin HQ.
  destruct (qrep_lookup _ _ _ _ Hrep Hq) as ([h tl] & Hrq & Hch & Htl). simpl in Hch, Htl.
  assert (Hndq : NoDup q) by (eapply NoDup_concat_lookup; [apply Hrep|done]).
  assert (Hpq : p ∉ q) by (intros ?; apply Hnin, elem_of_concat; eauto).
  assert (Hpr : (p < length (procs (k_pt s)))%nat) by (by eapply lookup_lt_Some).
  unfold enqueue. apply wp_bind. eapply wp_rd; [done|]. rewrite Hlvl.
  apply wp_bind. eapply wp_rd_rq; [done|]. simpl. rewrite Htl.
  destruct (last q) as [t|] eqn:Elast.
  - (* after the tail [t] *)
    pose proof Elast as [q1 Hq1]%last_Some.
    assert (Htq : t ∈ q) by (rewrite Hq1; set_solver).
    assert (∃ rt, procs (k_pt s) !! t = Some rt) as [rt Ht]
      by (by eapply lookup_lt_is_Some, chain_range).
    assert (Htp : t ≠ p) by (by intros ->).
    apply wp_bind. eapply wp_upd_proc; [done|].
    apply wp_bind. eapply wp_wr_rq; [done|].
    eapply wp_upd_proc; [by simpl; rewrite list_lookup_insert_ne|]. apply HQ.
    + eapply qrep_relink; [done|apply NoDup_concat_insert_app; by try apply Hrep| | |].
      { simpl. by eapply chain_link. }
      { by rewrite last_snoc. }
      intros l' q' Hne Hq' h'. simpl. intros Hch'.
      apply chain_insert_ne; [intros ?; apply Hnin, elem_of_concat; by eauto|].
      apply chain_insert_ne; [|done]. by eapply (qrep_other _ _ lvl q).
    + split; [|done]. simpl.
      rewrite (core_insert _ _ r); [|by rewrite list_lookup_insert_ne|done].
      by rewrite (core_insert _ _ rt).
  - (* into the empty queue *)
    apply last_None in Elast as ->. simpl in Hch. subst h.
    apply wp_bind. eapply wp_wr_rq; [done|].
    assert (Hlr : (lvl < length (runqueues (k_pt s)))%nat) by (by eapply lookup_lt_Some).
    apply wp_bind. eapply wp_wr_rq; [by simpl; rewrite list_lookup_insert_eq|].
    eapply wp_upd_proc; [done|]. apply HQ.
    + eapply qrep_relink; [done|apply NoDup_concat_insert_app; by try apply Hrep| | |].
      { simpl. split; [done|]. eexists. by rewrite list_lookup_insert_eq. }
      { simpl. by rewrite list_insert_insert_eq. }
      intros l' q' Hne Hq' h'. simpl. apply chain_insert_ne.
      intros ?. apply Hnin, elem_of_concat. eauto.
    + split; [|done]. simpl. by rewrite (core_insert _ _ r).
Qed.

(** [dequeue level] takes the first entry of the queue of that level. *)
Lemma wp_dequeue s lvl q qs (Q : option nat → kstate → Prop) :
  qrep (k_pt s) qs → qs !! lvl = Some q →
  match q with
  | [] => Q None s
  | p :: q' => ∀ t, qrep t (<[lvl := q']> qs) → links_only (k_pt s) t →
                 Q (Some p) (s <| k_pt := t |>)
  end →
  wpk (dequeue (Z.of_nat lvl) s) Q.
Proof.
  intros Hrep Hq HQ.
  destruct (qrep_lookup _ _ _ _ Hrep Hq) as ([h tl] & Hrq & Hch & Htl). simpl in Hch, Htl.
  assert (Hndq : NoDup q) by (eapply NoDup_concat_lookup; [apply Hrep|done]).
  assert (Hlr : (lvl < length (runqueues (k_pt s)))%nat) by (by eapply lookup_lt_Some).
  unfold dequeue. apply wp_bind. eapply wp_rd_rq; [done|]. simpl.
  destruct q as [|p q']; simpl in Hch; [by subst h|].
  destruct Hch as (-> & r & Hr & Hch).
  apply wp_bind. eapply wp_rd; [done|]. apply wp_bind. eapply wp_wr_rq; [done|].
  apply wp_bind. eapply wp_rd_rq; [by simpl; rewrite list_lookup_insert_eq|]. simpl.
  assert (Hgoal : ∀ t, runqueues t = <[lvl := mk_runqueue (p_queue_next r) (last q')]> (runqueues (k_pt s)) →
            procs t = <[p := r <| p_queue_next := None |>]> (procs (k_pt s)) → same_rest (k_pt s) t →
            Q (Some p) (s <| k_pt := t |>)).
  { intros t Ht1 Ht2 Ht3. apply HQ.
    - eapply qrep_relink; [done| | |exact Ht1|].
      + eapply NoDup_concat_insert_sublist; [done| |apply Hrep]. by apply sublist_cons.
      + rewrite Ht2. apply chain_insert_ne; [|done]. by apply NoDup_cons in Hndq as [? _].
      + intros l' q'' Hne Hq'' h'. rewrite Ht2. apply chain_insert_ne.
        eapply (qrep_other _ _ lvl); eauto; set_solver.
    - split; [|done]. rewrite Ht2. by apply (core_insert _ _ r). }
  apply wp_bind. unfold when. destruct q' as [|p' q'']; simpl in Hch.
  - rewrite bool_decide_eq_true_2 by done.
    eapply wp_wr_rq; [by simpl; rewrite list_lookup_insert_eq|]. simpl.
    apply wp_bind. eapply wp_upd_proc; [done|]. apply Hgoal; [|done|done].
    simpl. rewrite list_insert_insert_eq. by rewrite Hch.
  - destruct Hch as [Hn _]. rewrite bool_decide_eq_false_2 by (by rewrite Hn).
    apply wp_done. simpl. apply wp_bind. eapply wp_upd_proc; [done|].
    apply Hgoal; [|done|done]. simpl. by rewrite Htl.
Qed.

Lemma wp_dequeue_specific_loop s p r lvl q qs fuel v w prev curr (Q : unit → kstate → Prop) :
  qrep (k_pt s) qs → procs (k_pt s) !! p = Some r → qs !! lvl = Some q →
  q = v ++ w → (length w < fuel)%nat → p ∉ v → prev = last v → chain (procs (k_pt s)) curr w →
  (∀ t, qrep t (<[lvl := filter (λ i, i ≠ p) q]> qs) → links_only (k_pt s) t →
        Q tt (s <| k_pt := t |>)) →
  wpk (dequeue_specific_loop fuel p (Z.of_nat lvl) prev curr s) Q.
Proof.
  intros Hrep Hp Hq Hvw. revert v w Hvw prev curr.
  induction fuel as [|fuel IH]; intros v w Hvw prev curr Hfuel Hpv Hprev Hcurr HQ; [lia|].
  simpl. destruct w as [|c w]; simpl in Hcurr.
  { (* [p] is not in the queue *)
    subst curr. apply wp_done. rewrite app_nil_r in Hvw. subst v.
    replace s with (s <| k_pt := k_pt s |>) by (by destruct s). apply HQ; [|done].
    by rewrite filter_ne_notin, list_insert_id. }
  destruct Hcurr as (-> & rc & Hc & Hcw).
  destruct (decide (c = p)) as [->|Hne]; cycle 1.
  { apply wp_bind. eapply wp_rd; [done|]. apply (IH (v ++ [c]) w); try done.
    - by rewrite <- app_assoc.
    - simpl in Hfuel. lia.
    - set_solver.
    - by rewrite last_snoc. }
  simplify_eq.
  destruct (qrep_lookup _ _ _ _ Hrep Hq) as (rq & Hrq & Hch & _).
  assert (Hlr : (lvl < length (runqueues (k_pt s)))%nat) by (by eapply lookup_lt_Some).
  assert (Hdone : ∀ t, unlinked (k_pt s) lvl v p w r rq t → Q tt (s <| k_pt := t |>)).
  { intros t Ht. destruct (qrep_unlink _ _ _ _ _ _ _ _ _ Hrep Hq Hp Hrq Ht). eauto. }
  apply wp_bind. eapply wp_rd; [done|]. apply wp_bind. destruct (last v) as [c|] eqn:Elast.
  - destruct (chain_pred _ _ _ _ _ _ Hch Elast) as [rc' Hrc'].
    assert (Hcp : c ≠ p) by (intros ->; apply Hpv; apply last_Some in Elast as [? ->]; set_solver).
    eapply wp_upd_proc; [done|].
    apply wp_bind. eapply wp_rd; [by simpl; rewrite list_lookup_insert_ne|].
    apply wp_bind. unfold when. case_bool_decide as Hnext.
    + destruct w; [|by destruct Hcw; simplify_eq].
      eapply wp_wr_rq; [done|]. eapply wp_upd_proc; [by simpl; rewrite list_lookup_insert_ne|].
      apply Hdone. split; [|split]; [simpl; rewrite Elast; by eauto|by rewrite Elast|done].
    + destruct w as [|c' w]; [done|]. apply wp_done. simpl.
      eapply wp_upd_proc; [by simpl; rewrite list_lookup_insert_ne|].
      apply Hdone. split; [|split]; [simpl; rewrite Elast; by eauto| |done].
      rewrite Elast. simpl. rewrite list_insert_id; by destruct rq.
  - eapply wp_wr_rq; [done|]. apply wp_bind. eapply wp_rd; [done|].
    apply wp_bind. unfold when. case_bool_decide as Hnext.
    + destruct w; [|by destruct Hcw; simplify_eq].
      eapply wp_wr_rq; [by simpl; rewrite list_lookup_insert_eq|].
      eapply wp_upd_proc; [done|].
      apply Hdone. split; [|split]; [simpl; by rewrite Elast| |done].
      rewrite Elast. simpl. by rewrite list_insert_insert_eq.
    + destruct w as [|c' w]; [done|]. apply wp_done. simpl. eapply wp_upd_proc; [done|].
      apply Hdone. split; [|split]; [simpl; by rewrite Elast|by rewrite Elast|done].
Qed.

(** [dequeue_specific p] removes [p] from the queue of its level and keeps
    the others in order. *)
Lemma wp_dequeue_specific s p r lvl q qs (Q : unit → kstate → Prop) :
  qrep (k_pt s) qs → length (procs (k_pt s)) = NPROC → procs (k_pt s) !! p = Some r →
  p_queue_level r = Z.of_nat lvl → qs !! lvl = Some q →
  (∀ t, qrep t (<[lvl := filter (λ i, i ≠ p) q]> qs) → links_only (k_pt s) t →
        Q tt (s <| k_pt := t |>)) →
  wpk (dequeue_specific p s) Q.
Proof.
  intros Hrep Hlen Hp Hlvl Hq HQ.
  destruct (qrep_lookup _ _ _ _ Hrep Hq) as (rq & Hrq & Hch & Htl).
  unfold dequeue_specific. apply wp_bind. eapply wp_rd; [done|]. rewrite Hlvl.
  apply wp_bind. eapply wp_rd_rq; [done|].
  eapply (wp_dequeue_specific_loop _ _ _ _ _ _ _ [] q); try done; [|set_solver].
  apply Nat.lt_succ_r, NoDup_bounded_length.
  - eapply NoDup_concat_lookup; [apply Hrep|done].
  - intros i Hi. rewrite <- Hlen. by eapply chain_range.
Qed.

Lemma wp_upd_stats s g H (Q : unit → kstate → Prop) :
  lockinv H (k_lk s) → stats_lock ∉ H →
  (∀ k, lockinv H k → lk_frame (k_lk s) k →
        Q tt (s <| k_lk := k |> <| k_pt ::= λ t, t <| scheduler_stats ::= g |> |>)) →
  wpk (upd_stats g s) Q.
Proof.
  intros HH Hn HQ. unfold upd_stats. apply wp_bind. eapply wp_acquire; [done..|].
  intros k Hk Hf. apply wp_bind, wp_done. apply wp_bind, wp_done.
  eapply wp_release_add; [exact Hk|done|]. intros k' Hk' Hf'. apply HQ; [done|]. by etrans.
Qed.

(** the effect of a boost on one process *)
Definition boost_proc (r : proc) : proc :=
  if decide (p_state r = RUNNABLE) then r <| p_queue_level := 0 |> <| p_time_in_queue := 0 |>
  else r.
(** the runnable processes among [l], in order *)
Definition runnables (ps : list proc) (l : list nat) : list nat :=
  filter (λ i, p_state <$> ps !! i = Some RUNNABLE) l.

(** the state in the middle of [priority_boost], processes [l] visited *)
Definition boost_inv (H : gset lockid) (s : kstate) (l : list nat) (s' : kstate) : Prop :=
  ∃ k t, s' = s <| k_lk := k |> <| k_pt := t |> ∧ lockinv H k ∧ lk_frame (k_lk s) k ∧
    qrep t [runnables (procs (k_pt s)) l; []; []; []] ∧ same_rest (k_pt s) t ∧
    ∀ i, core <$> procs t !! i =
         (λ r, core (if decide (i ∈ l) then boost_proc r else r)) <$> procs (k_pt s) !! i.

Lemma wp_boost_clear s (Q : unit → kstate → Prop) :
  length (runqueues (k_pt s)) = MLFQ_LEVELS →
  Q tt (s <| k_pt ::= λ t, t <| runqueues := replicate MLFQ_LEVELS (mk_runqueue None None) |> |>) →
  wpk (for_each (seq 0 MLFQ_LEVELS) (λ i,
    wr_rq (Z.of_nat i) rq_head None ;; wr_rq (Z.of_nat i) rq_tail None) s) Q.
Proof.
  destruct s as [lk [ps rqs ip np tk tb st cc fst] mem csr dev sv]. simpl. intros Hlen HQ.
  by destruct rqs as [|q0 [|q1 [|q2 [|q3 [|]]]]].
Qed.

Lemma wp_boost_step H s n s' :
  length (procs (k_pt s)) = NPROC → (n < NPROC)%nat → p_lock n ∉ H →
  boost_inv H s (seq 0 n) s' →
  wpk ((acquire (p_lock n) ;;
        let* st := rd n p_state in
        when (bool_decide (st = RUNNABLE)) (
          wr n p_queue_level 0 ;; wr n p_time_in_queue 0 ;; enqueue n) ;;
        release (p_lock n)) s')
    (λ _, boost_inv H s (seq 0 (S n))).
Proof.
  intros Hlen Hn HnH (k & t & -> & Hk & Hfr & Hrep & Hrest & Hcore).
  destruct (lookup_lt_is_Some_2 (procs (k_pt s)) n) as [r Hr]; [lia|].
  pose proof (Hcore n) as Hcn. rewrite Hr in Hcn. simpl in Hcn.
  rewrite decide_False in Hcn by (rewrite elem_of_seq; lia).
  destruct (procs t !! n) as [r'|] eqn:Hr'; [|done]. apply (inj Some) in Hcn.
  assert (Hst : p_state r' = p_state r) by apply (f_equal p_state Hcn).
  assert (Hlt : (n < length (procs t))%nat) by (by eapply lookup_lt_Some).
  assert (Hmem : ∀ i, i ∈ seq 0 (S n) ↔ i = n ∨ i ∈ seq 0 n).
  { intros i. rewrite !elem_of_seq. lia. }
  assert (Hkeep : ∀ i, i ≠ n → core <$> procs t !! i =
    (λ r, core (if decide (i ∈ seq 0 (S n)) then boost_proc r else r)) <$> procs (k_pt s) !! i).
  { intros i Hne. rewrite Hcore. destruct (procs (k_pt s) !! i); simpl; [|done].
    repeat case_decide; try done; exfalso; naive_solver. }
  apply wp_bind. eapply wp_acquire; [done|done|]. intros k1 Hk1 Hfr1.
  apply wp_bind. eapply wp_rd; [done|]. apply wp_bind. unfold when.
  rewrite Hst. case_bool_decide as Hrun.
  - apply wp_bind. eapply wp_upd_proc; [done|]. simpl.
    apply wp_bind. eapply wp_upd_proc; [by simpl; rewrite list_lookup_insert_eq|]. simpl.
    eapply (wp_enqueue _ _ (r' <| p_queue_level := 0 |> <| p_time_in_queue := 0 |>) 0 _
      [runnables (procs (k_pt s)) (seq 0 n); []; []; []]); [| |done|done| |]; simpl.
    + eapply qrep_upd_proc; [by eapply qrep_upd_proc|by simpl; rewrite list_lookup_insert_eq|done].
    + by rewrite list_lookup_insert_eq by (by rewrite length_insert).
    + rewrite !app_nil_r. intros [_ Hin%elem_of_seq]%list_elem_of_filter. lia.
    + intros t2 Hrep2 [Hc2 Hrest2]. simpl in Hc2.
      rewrite list_insert_insert_eq in Hc2.
      eapply wp_release_add; [exact Hk1|done|]. intros k2 Hk2 Hfr2.
      exists k2, t2. split_and!; [done|done|by do 2 etrans| | |].
      * rewrite seq_S. unfold runnables. rewrite filter_app, filter_cons_True, filter_nil; [done|].
        simpl. by rewrite Hr; simpl; rewrite Hrun.
      * by etrans.
      * intros i. rewrite <- list_lookup_fmap, Hc2, list_fmap_insert.
        destruct (decide (i = n)) as [->|Hne].
        -- rewrite list_lookup_insert_eq by (by rewrite length_fmap). rewrite Hr. simpl.
           rewrite decide_True by (by apply Hmem; left). unfold boost_proc. rewrite decide_True by done.
           f_equal. change ((core r') <| p_queue_level := 0 |> <| p_time_in_queue := 0 |> =
                            (core r) <| p_queue_level := 0 |> <| p_time_in_queue := 0 |>).
           by rewrite Hcn.
        -- rewrite list_lookup_insert_ne, list_lookup_fmap by done. by apply Hkeep.
  - apply wp_done. simpl. eapply wp_release_add; [exact Hk1|done|]. intros k2 Hk2 Hfr2.
    exists k2, t. split_and!; [done|done|by do 2 etrans| |done|].
    + rewrite seq_S. unfold runnables. rewrite filter_app, filter_cons_False, filter_nil.
      * by rewrite app_nil_r.
      * simpl. rewrite Hr. simpl. congruence.
    + intros i. rewrite Hcore. destruct (decide (i = n)) as [->|Hne].
      * rewrite Hr. simpl. unfold boost_proc. rewrite (decide_False (P:=p_state r = RUNNABLE)) by done.
        by repeat case_decide.
      * rewrite <- Hcore. by apply Hkeep.
Qed.

(** Whatever state the links are in, [priority_boost] leaves the runnable
    processes in queue 0, in table order, and the other queues empty. *)
Lemma wp_priority_boost s H (Q : unit → kstate → Prop) :
  length (procs (k_pt s)) = NPROC → length (runqueues (k_pt s)) = MLFQ_LEVELS →
  lockinv H (k_lk s) → (∀ i, p_lock i ∉ H) →
  (∀ k t, lockinv H k → lk_frame (k_lk s) k →
     qrep t [runnables (procs (k_pt s)) all_procs; []; []; []] →
     core <$> procs t = core <$> (boost_proc <$> procs (k_pt s)) →
     same_rest ((k_pt s) <| ticks_since_boost := 0 |>) t →
     Q tt (s <| k_lk := k |> <| k_pt := t |>)) →
  wpk (priority_boost s) Q.
Proof.
  intros Hlen Hlr HH Hpl HQ. unfold priority_boost.
  apply wp_bind. apply wp_boost_clear; [done|]. apply wp_bind.
  eapply wp_mono; [|apply (wp_for_each _ _ _ all_procs _ (boost_inv H s))].
  - intros _ s' (k & t & -> & Hk & Hfr & Hrep & Hrest & Hcore). apply wp_done.
    apply (HQ k (t <| ticks_since_boost := 0 |>)); [done..| |].
    + simpl. apply list_eq. intros i. rewrite !list_lookup_fmap, Hcore.
      destruct (procs (k_pt s) !! i) as [r|] eqn:Hr; simpl; [|done].
      rewrite decide_True; [done|]. apply elem_of_seq.
      apply lookup_lt_Some in Hr. lia.
    + unfold same_rest in *. apply (f_equal (λ t, t <| ticks_since_boost := 0 |>)) in Hrest. done.
  - exists (k_lk s), ((k_pt s) <| runqueues := replicate MLFQ_LEVELS (mk_runqueue None None) |>).
    split_and!; [by destruct s|done|done| |done|].
    + split_and!; [done|by constructor|]. by repeat constructor.
    + intros i. change (procs _) with (procs (k_pt s)).
      destruct (procs (k_pt s) !! i) as [r|]; [|done].
      change (Some (core r) = Some (core (if decide (i ∈ []) then boost_proc r else r))).
      by rewrite decide_False by set_solver.
  - intros dn p rst s' Heq Hinv.
    apply seq_middle in Heq as [-> Hlt]. rewrite <- seq_S.
    apply wp_boost_step; done.
Qed.

(** [demote_process p] moves [p] from its queue to the end of the next lower
    one; at the lowest level it does nothing. *)
Lemma wp_demote_process s p r lvl q q' qs H (Q : unit → kstate → Prop) :
  qrep (k_pt s) qs → length (procs (k_pt s)) = NPROC → procs (k_pt s) !! p = Some r →
  p_queue_level r = Z.of_nat lvl → (S lvl < MLFQ_LEVELS)%nat →
  qs !! lvl = Some q → qs !! S lvl = Some q' →
  (∀ l q, l ≠ lvl → qs !! l = Some q → p ∉ q) →
  lockinv H (k_lk s) → stats_lock ∉ H →
  (∀ k t, lockinv H k → lk_frame (k_lk s) k →
     qrep t (<[S lvl := q' ++ [p]]> (<[lvl := filter (λ i, i ≠ p) q]> qs)) →
     links_only ((k_pt s)
       <| procs ::= <[p := r <| p_queue_level := Z.of_nat (S lvl) |> <| p_time_in_queue := 0 |>]> |>
       <| scheduler_stats ::= λ st, st <| total_demotions ::= λ n, u64 (n + 1) |> |>) t →
     Q tt (s <| k_lk := k |> <| k_pt := t |>)) →
  wpk (demote_process p s) Q.
Proof.
  intros Hrep Hlen Hp Hlvl Hlt Hq Hq' Hoth HH Hst HQ.
  assert (Hpl : (p < length (procs (k_pt s)))%nat) by (by eapply lookup_lt_Some).
  unfold demote_process. apply wp_bind. eapply wp_rd; [done|]. rewrite Hlvl.
  rewrite (proj2 (Z.ltb_lt _ _)) by (unfold MLFQ_LEVELS in *; lia).
  apply wp_bind. eapply wp_dequeue_specific; [done..|].
  intros t1 Hrep1 [Hcore1 Hrest1].
  assert (∃ r1, procs t1 !! p = Some r1 ∧ core r1 = core r) as (r1 & Hp1 & Hr1).
  { by eapply core_lookup. }
  assert (Hpl1 : (p < length (procs t1))%nat) by (by eapply lookup_lt_Some).
  apply wp_bind. eapply wp_upd_proc; [done|]. simpl.
  apply wp_bind. eapply wp_upd_proc; [by simpl; rewrite list_lookup_insert_eq|]. simpl.
  apply wp_bind. eapply wp_upd_stats; [done|done|]. intros k Hk Hfr. simpl.
  set (r2 := r1 <| p_queue_level ::= λ l, l + 1 |> <| p_time_in_queue := 0 |>).
  eapply (wp_enqueue _ _ r2 (S lvl) q'); simpl.
  - apply (qrep_same_links (t1 <| procs ::= <[p := r1 <| p_queue_level ::= λ l, l + 1 |>]> |> <| procs ::= <[p := r2]> |>));
      [done|done|].
    eapply qrep_upd_proc; [by eapply qrep_upd_proc|by simpl; rewrite list_lookup_insert_eq|done].
  - by rewrite list_lookup_insert_eq by (by rewrite length_insert).
  - unfold r2. simpl. assert (p_queue_level r1 = p_queue_level r) as -> by apply (f_equal p_queue_level Hr1).
    rewrite Hlvl. lia.
  - by rewrite list_lookup_insert_ne by lia.
  - rewrite elem_of_concat. intros (l & ql & Hl & Hin).
    rewrite list_lookup_insert in Hl. case_decide as Hd.
    + simplify_eq. apply list_elem_of_filter in Hin as [? _]. done.
    + destruct (decide (l = lvl)) as [->|]; [|by eapply Hoth].
      apply Hd. split; [done|]. destruct Hrep as [-> _]. lia.
  - intros t2 Hrep2 [Hcore2 Hrest2]. simpl in *. apply HQ; [done|done|done|]. split.
    + rewrite Hcore2. simpl. rewrite list_insert_insert_eq, !list_fmap_insert, Hcore1. f_equal.
      unfold r2. change ((core r1) <| p_queue_level ::= λ l, l + 1 |> <| p_time_in_queue := 0 |> =
                        (core r) <| p_queue_level := Z.of_nat (S lvl) |> <| p_time_in_queue := 0 |>).
      rewrite Hr1. unfold upd, set_p_queue_level. simpl. rewrite Hlvl.
      by replace (Z.of_nat lvl + 1) with (Z.of_nat (S lvl)) by lia.
    + unfold same_rest in *. rewrite Hrest2.
      apply (f_equal (λ t, t <| scheduler_stats ::= λ st, st <| total_demotions ::= λ n, u64 (n + 1) |> |>)) in Hrest1.
      done.
Qed.
End ops.

(** ** The queues as an abstract data type

    [arun] runs a sequence of queue operations on lists, with the level
    [lv p] of each process fixed; enqueueing a queued process is undefined.
    The linked lists refine it. *)

Inductive qop := Qenqueue (p : nat) | Qdequeue (lvl : nat) | Qremove (p : nat).

Definition astep (lv : nat → nat) (qs : list (list nat)) (o : qop)
    : option (list (list nat) * option nat) :=
  match o with
  | Qenqueue p =>
      if decide (p ∈ concat qs) then None
      else Some (alter (λ q, q ++ [p]) (lv p) qs, None)
  | Qdequeue lvl =>
      match qs !! lvl with
      | Some (p :: q) => Some (<[lvl := q]> qs, Some p)
      | Some [] => Some (qs, None)
      | None => None
      end
  | Qremove p => Some (alter (filter (λ i, i ≠ p)) (lv p) qs, None)
  end.
Fixpoint arun (lv : nat → nat) (qs : list (list nat)) (os : list qop)
    : option (list (list nat) * list (option nat)) :=
  match os with
  | [] => Some (qs, [])
  | o :: os =>
      '(qs1, v) ← astep lv qs o;
      '(qs2, vs) ← arun lv qs1 os;
      Some (qs2, v :: vs)
  end.

Definition cstep (o : qop) : KM (option nat) :=
  match o with
  | Qenqueue p => enqueue p ;; ret None
  | Qdequeue lvl => dequeue (Z.of_nat lvl)
  | Qremove p => dequeue_specific p ;; ret None
  end.
Fixpoint crun (os : list qop) : KM (list (option nat)) :=
  match os with
  | [] => ret []
  | o :: os => let* v := cstep o in let* vs := crun os in ret (v :: vs)
  end.

(** the processes the operations name are in the table, at levels [lv] *)
Definition qop_procs (o : qop) : list nat :=
  match o with Qenqueue p | Qremove p => [p] | Qdequeue _ => [] end.
Definition at_level (t : ptable) (lv : nat → nat) (p : nat) : Prop :=
  p_queue_level <$> procs t !! p = Some (Z.of_nat (lv p)) ∧ (lv p < MLFQ_LEVELS)%nat.

Lemma at_level_links t t' lv p : links_only t t' → at_level t lv p → at_level t' lv p.
Proof.
  intros [Hc _] [Hl ?]. split; [|done]. destruct (procs t !! p) as [r|] eqn:Hr; [|done].
  destruct (core_lookup _ _ _ _ Hc Hr) as (r' & -> & Hr'). simpl in *. rewrite <- Hl. f_equal.
  apply (f_equal p_queue_level Hr').
Qed.

Section refinement.
Context (E : stop → Prop) (G : kstate → Prop) (R : kstate → kstate → Prop).

Lemma wp_cstep s qs lv o qs' v (Q : option nat → kstate → Prop) :
  qrep (k_pt s) qs → length (procs (k_pt s)) = NPROC → Forall (at_level (k_pt s) lv) (qop_procs o) →
  astep lv qs o = Some (qs', v) →
  (∀ t, qrep t qs' → links_only (k_pt s) t → Q v (s <| k_pt := t |>)) →
  wp E G R (cstep o s) Q.
Proof.
  intros Hrep Hlen Hlv Ha HQ. destruct Hrep as (Hqs & Hrep') eqn:He.
  assert (Hlvl : ∀ p, p ∈ qop_procs o → ∃ r q, procs (k_pt s) !! p = Some r ∧
    p_queue_level r = Z.of_nat (lv p) ∧ qs !! lv p = Some q).
  { intros p Hp. rewrite Forall_forall in Hlv. destruct (Hlv p Hp) as [Hl Hlt].
    destruct (procs (k_pt s) !! p) as [r|]; [|done]. simpl in Hl. simplify_eq.
    destruct (lookup_lt_is_Some_2 qs (lv p)) as [q Hq]; [lia|]. by exists r, q. }
  destruct o as [p|lvl|p]; simpl in *.
  - destruct (Hlvl p) as (r & q & Hr & Hl & Hq); [set_solver|].
    case_decide; simplify_eq. apply wp_bind. eapply wp_enqueue; [done..|].
    intros t Ht Hlk. apply wp_done, HQ; [|done]. by rewrite (list_alter_insert_eq _ _ _ _ Hq).
  - destruct (qs !! lvl) as [q|] eqn:Hq; [|done]. eapply wp_dequeue; [done..|].
    destruct q; simplify_eq; [|done]. destruct s as [lk pt mem csr dev sv fs]. by apply (HQ pt).
  - destruct (Hlvl p) as (r & q & Hr & Hl & Hq); [set_solver|]. simplify_eq.
    apply wp_bind. eapply wp_dequeue_specific; [done..|].
    intros t Ht Hlk. apply wp_done, HQ; [|done]. by rewrite (list_alter_insert_eq _ _ _ _ Hq).
Qed.
End refinement.

(** ** Properties *)

(** C3: the linked run queues refine lists.  Any sequence of [enqueue],
    [dequeue] and [dequeue_specific] that the abstract queues allow runs
    without fault on the linked lists, returns the same processes, and ends in
    a state that represents the resulting queues; only links, heads and tails
    change. *)
Theorem runqueue_refines_lists lv os s qs qs' vs :
  qrep (k_pt s) qs → length (procs (k_pt s)) = NPROC →
  Forall (at_level (k_pt s) lv) (os ≫= qop_procs) → arun lv qs os = Some (qs', vs) →
  runs (crun os s) (λ vs' s', vs' = vs ∧
    ∃ t, s' = s <| k_pt := t |> ∧ qrep t qs' ∧ links_only (k_pt s) t).
Proof.
  revert s qs vs. induction os as [|o os IH]; intros s qs vs Hrep Hlen Hlv Ha; simpl in *.
  { simplify_eq. exists [], s. split_and!; [done|done|]. exists (k_pt s). by destruct s. }
  destruct (astep lv qs o) as [[qs1 v]|] eqn:Ho; [|done]. simpl in Ha.
  destruct (arun lv qs1 os) as [[qs2 vs2]|] eqn:Hos; [|done]. simpl in Ha. simplify_eq.
  apply Forall_app in Hlv as [Hlv1 Hlv2].
  apply runs_wp, wp_bind. eapply wp_cstep; [done..|]. intros t Ht Hlk.
  apply wp_bind, wp_of_runs.
  destruct (IH (s <| k_pt := t |>) qs1 vs2) as (vs' & s' & Hrun & -> & t' & -> & Ht' & Hlk'); [done| | |done|].
  - simpl. by rewrite (core_length _ _ (proj1 Hlk)).
  - eapply Forall_impl; [done|]. intros p. by apply at_level_links.
  - exists vs2, (s <| k_pt := t' |>). split; [done|]. apply wp_done. split; [done|].
    exists t'. split_and!; [done|done|by etrans].
Qed.
Lemma qrep0 : qrep (k_pt kstate0) [[]; []; []; []].
Proof. split_and!; [done|constructor|by repeat constructor]. Qed.
Lemma runqueue_refines_lists_witness :
  ∃ s', crun [Qenqueue 5; Qenqueue 2; Qenqueue 9; Qremove 2; Qdequeue 0; Qdequeue 0; Qdequeue 0] kstate0
        = Done [None; None; None; None; Some 5%nat; Some 9%nat; None] s'.
Proof.
  destruct (runqueue_refines_lists (λ _, 0%nat)
    [Qenqueue 5; Qenqueue 2; Qenqueue 9; Qremove 2; Qdequeue 0; Qdequeue 0; Qdequeue 0]
    kstate0 [[]; []; []; []] [[]; []; []; []]
    [None; None; None; None; Some 5%nat; Some 9%nat; None]) as (vs & s' & Hrun & -> & _).
  - apply qrep0.
  - reflexivity.
  - repeat constructor.
  - reflexivity.
  - by exists s'.
Defined.

(** C13: [priority_boost] repairs the queues from any state of the links, even
    a corrupted one: afterwards queue 0 holds exactly the [RUNNABLE] processes,
    in table order, the other queues are empty, every runnable process is at
    level 0 with no time used, and nothing else changes but
    [ticks_since_boost], which restarts from 0. *)
Theorem priority_boost_rebuilds s H :
  length (procs (k_pt s)) = NPROC → length (runqueues (k_pt s)) = MLFQ_LEVELS →
  lockinv H (k_lk s) → (∀ i, p_lock i ∉ H) →
  runs (priority_boost s) (λ _ s', ∃ k t, s' = s <| k_lk := k |> <| k_pt := t |> ∧ lockinv H k ∧
    qrep t [runnables (procs (k_pt s)) all_procs; []; []; []] ∧
    core <$> procs t = core <$> (boost_proc <$> procs (k_pt s)) ∧
    same_rest ((k_pt s) <| ticks_since_boost := 0 |>) t).
Proof.
  intros. apply runs_wp. eapply wp_priority_boost; [done..|]. intros k t ?????. by exists k, t.
Qed.
(** a cyclic, inconsistent queue *)
Definition corrupt_state : kstate :=
  kstate0 <| k_pt ::= λ t, t
    <| procs ::= λ ps, <[3%nat := proc0 <| p_state := RUNNABLE |> <| p_queue_level := 2 |>
                                     <| p_queue_next := Some 3%nat |>]> ps |>
    <| runqueues ::= <[1%nat := mk_runqueue (Some 3%nat) None]> |> |>.
Lemma priority_boost_rebuilds_witness :
  runs (priority_boost corrupt_state) (λ _ s', qrep (k_pt s') [[3%nat]; []; []; []]).
Proof.
  destruct (priority_boost_rebuilds corrupt_state ∅) as (u & s' & Hrun & k & t & -> & _ & Hq & _);
    [done|done|apply lockinv0|set_solver|].
  exists u. eexists. split; [exact Hrun|]. exact Hq.
Defined.

(** [demote_process] moves a process from the queue of its level to the
    end of the queue below, resets its time and counts the demotion. *)
Theorem demote_process_moves s p r lvl q q' qs H :
  qrep (k_pt s) qs → length (procs (k_pt s)) = NPROC → procs (k_pt s) !! p = Some r →
  p_queue_level r = Z.of_nat lvl → (S lvl < MLFQ_LEVELS)%nat →
  qs !! lvl = Some q → qs !! S lvl = Some q' →
  (∀ l q, l ≠ lvl → qs !! l = Some q → p ∉ q) →
  lockinv H (k_lk s) → stats_lock ∉ H →
  runs (demote_process p s) (λ _ s', ∃ k t, s' = s <| k_lk := k |> <| k_pt := t |> ∧ lockinv H k ∧
    qrep t (<[S lvl := q' ++ [p]]> (<[lvl := filter (λ i, i ≠ p) q]> qs)) ∧
    links_only ((k_pt s)
      <| procs ::= <[p := r <| p_queue_level := Z.of_nat (S lvl) |> <| p_time_in_queue := 0 |>]> |>
      <| scheduler_stats ::= λ st, st <| total_demotions ::= λ n, u64 (n + 1) |> |>) t).
Proof.
  intros. apply runs_wp. eapply wp_demote_process; [done..|]. intros k t ????. by exists k, t.
Qed.
Lemma demote_process_moves_witness :
  runs (demote_process 7 kstate0) (λ _ s', qrep (k_pt s') [[]; [7%nat]; []; []]).
Proof.
  destruct (demote_process_moves kstate0 7 proc0 0 [] [] [[]; []; []; []] ∅)
    as (u & s' & Hrun & k & t & -> & _ & Hq & _);
    [apply qrep0|done|done|done|by compute; lia|done|done| |apply lockinv0|set_solver|].
  - intros l q _ Hl. do 4 (destruct l as [|l]; [by simplify_eq/=; set_solver|]). done.
  - exists u. eexists. split; [exact Hrun|]. exact Hq.
Defined.
