(* ===== verification/Sched.v ===== *)
(** * Scheduling: context switches, sleep and wakeup

    [scheduler], [sched], [yield], [sleep], [wakeup], [kkill], [setkilled],
    [killed] and [reparent] of [kernel/proc.c].  A call of [swtch] ends the
    current segment of a kernel thread: in the model it yields the state
    together with the continuation of the thread (see [Prelude]). *)

From S2P Require Import Prelude Kstate Spinlock Runqueue.
#[local] Open Scope Z_scope.
#[local] Arguments seq : simpl never.

(** ** The code *)

Definition sched : KM unit :=
  let* p := myproc in
  let* p := deref p in
  let* h := holding (p_lock p) in
  if negb h then panic "sched p->lock" else
  let* c := mycpu in
  if negb (c_noff c =? 1) then panic "sched locks" else
  let* st := rd p p_state in
  if bool_decide (st = RUNNING) then panic "sched RUNNING" else
  let* on := intr_get in
  if on then panic "sched interruptible" else
  let* c := mycpu in
  let intena := c_intena c in
  (* swtch saves the return address in p->context, then runs the scheduler *)
  upd_proc p (λ r, r <| p_context ::= λ x, mk_context ra_sched (ctx_sp x) |>) ;;
  swtch ;;
  upd_cpu (λ c, c <| c_intena := intena |>).

Definition yield : KM unit :=
  let* p := myproc in
  let* p := deref p in
  acquire (p_lock p) ;;
  wr p p_state RUNNABLE ;;
  sched ;;
  release (p_lock p).

Definition sleep (c : chan) (lk : lockid) : KM unit :=
  let* p := myproc in
  let* p := deref p in
  acquire (p_lock p) ;;
  release lk ;;
  wr p p_chan (Some c) ;;
  wr p p_state SLEEPING ;;
  sched ;;
  wr p p_chan None ;;
  release (p_lock p) ;;
  acquire lk.

Definition wakeup (c : option chan) : KM unit :=
  for_each all_procs (λ p,
    let* me := myproc in
    if decide (me = Some p) then ret tt else
    acquire (p_lock p) ;;
    let* r := proc_at p in
    when (bool_decide (p_state r = SLEEPING) && bool_decide (p_chan r = c)) (
      wr p p_state RUNNABLE ;;
      enqueue p) ;;
    release (p_lock p)).

Definition kkill (pid : Z) : KM Z :=
  let* r := for_find all_procs (λ p,
    acquire (p_lock p) ;;
    let* pp := rd p p_pid in
    if pp =? pid then
      wr p p_killed 1 ;;
      let* st := rd p p_state in
      when (bool_decide (st = SLEEPING)) (wr p p_state RUNNABLE) ;;
      release (p_lock p) ;;
      ret (Some 0)
    else
      release (p_lock p) ;;
      ret None) in
  ret (default (-1) r).

Definition setkilled (p : nat) : KM unit :=
  acquire (p_lock p) ;;
  wr p p_killed 1 ;;
  release (p_lock p).

Definition killed (p : nat) : KM Z :=
  acquire (p_lock p) ;;
  let* k := rd p p_killed in
  release (p_lock p) ;;
  ret k.

(** Pass [p]'s children to init. *)
Definition reparent (p : nat) : KM unit :=
  for_each all_procs (λ pp,
    let* par := rd pp p_parent in
    if decide (par = Some p) then
      let* ip := rd_pt initproc in
      wr pp p_parent ip ;;
      let* ip := rd_pt initproc in
      wakeup (ch_proc <$> ip)
    else ret tt).

(** What [scheduler] does with the process it took from the queue of
    [level]; the result says whether it ran. *)
Definition scheduler_run (level : nat) (p : nat) : KM (option unit) :=
  acquire (p_lock p) ;;
  let* st := rd p p_state in
  if bool_decide (st = RUNNABLE) then
    upd_stats (λ x, x <| level_schedules ::= alter (λ n, u64 (n + 1)) level |>) ;;
    wr p p_state RUNNING ;;
    upd_cpu (λ c, c <| c_proc := Some p |>) ;;
    let* tb := rd_pt ticks_since_boost in
    wr p p_entered_queue_tick (s32 tb) ;;
    swtch ;;
    (* the process has switched back *)
    upd_cpu (λ c, c <| c_proc := None |>) ;;
    let* st := rd p p_state in
    when (bool_decide (st = RUNNABLE)) (enqueue p) ;;
    release (p_lock p) ;;
    ret (Some tt)
  else
    release (p_lock p) ;;
    ret None.

(** the scan of the queues: one process per level, highest level first *)
Definition scheduler_scan : KM (option unit) :=
  for_find (seq 0 MLFQ_LEVELS) (λ level,
    let* p := dequeue (Z.of_nat level) in
    match p with
    | Some p => scheduler_run level p
    | None => ret None
    end).

(** One turn of the [for(;;)] of [scheduler]; the result says whether a
    process ran (otherwise the hart waits for an interrupt). *)
Definition scheduler_iter : KM bool :=
  intr_on ;;
  intr_off ;;
  acquire stats_lock ;;
  let* st := rd_pt scheduler_stats in
  wr_pt scheduler_stats (st <| total_schedules ::= λ n, u64 (n + 1) |>) ;;
  let* cc := rd_pt scheduler_cycle_count in
  wr_pt scheduler_cycle_count (u64 (cc + 1)) ;;
  release stats_lock ;;
  let* tb := rd_pt ticks_since_boost in
  when (BOOST_INTERVAL <=? tb) (
    priority_boost ;;
    upd_stats (λ x, x <| total_boosts ::= λ n, u64 (n + 1) |>)) ;;
  let* found := scheduler_scan in
  ret (bool_decide (found = Some tt)).

(** the first statement of [scheduler] *)
Definition scheduler_start : KM unit := upd_cpu (λ c, c <| c_proc := None |>).

(** ** Effect of [wakeup] and [kkill] on the table *)

(** is process [i] woken by [wakeup c] called by [me]? *)
Definition wakes (c : option chan) (me : option nat) (i : nat) (r : proc) : bool :=
  bool_decide (p_state r = SLEEPING) && bool_decide (p_chan r = c) && negb (bool_decide (me = Some i)).
Definition wake_proc (c : option chan) (me : option nat) (i : nat) (r : proc) : proc :=
  if wakes c me i r then r <| p_state := RUNNABLE |> else r.
(** append [i] to the queue of its level *)
Definition enq (ps : list proc) (qs : list (list nat)) (i : nat) : list (list nat) :=
  match ps !! i with
  | Some r => alter (λ q, q ++ [i]) (Z.to_nat (p_queue_level r)) qs
  | None => qs
  end.
(** the queues after the processes among [l] that [wakeup] wakes are appended *)
Definition wake_queues (c : option chan) (me : option nat) (ps : list proc) (qs : list (list nat))
    (l : list nat) : list (list nat) :=
  foldl (λ qs i, if from_option (wakes c me i) false (ps !! i) then enq ps qs i else qs) qs l.

Definition wake_inv (H : gset lockid) (c : option chan) (me : option nat) (s : kstate) (qs : list (list nat))
    (l : list nat) (s' : kstate) : Prop :=
  ∃ k t, s' = s <| k_lk := k |> <| k_pt := t |> ∧ lockinv H k ∧ lk_frame (k_lk s) k ∧
    qrep t (wake_queues c me (procs (k_pt s)) qs l) ∧ same_rest (k_pt s) t ∧
    ∀ i, core <$> procs t !! i =
         (λ r, core (if decide (i ∈ l) then wake_proc c me i r else r)) <$> procs (k_pt s) !! i.

(** levels index the array of queues *)
Definition level_ok (r : proc) : Prop := 0 ≤ p_queue_level r < Z.of_nat MLFQ_LEVELS.

Lemma enq_eq ps qs i r lvl q :
  ps !! i = Some r → p_queue_level r = Z.of_nat lvl → qs !! lvl = Some q →
  enq ps qs i = <[lvl := q ++ [i]]> qs.
Proof.
  intros Hi Hl Hq. unfold enq. rewrite Hi, Hl, Nat2Z.id.
  by apply (list_alter_insert_eq (λ q, q ++ [i])).
Qed.

Lemma enq_length ps qs i : length (enq ps qs i) = length qs.
Proof. unfold enq. case_match; [apply length_alter|done]. Qed.

Lemma enq_elem ps qs i x : x ∈ concat (enq ps qs i) → x = i ∨ x ∈ concat qs.
Proof.
  unfold enq. destruct (ps !! i) as [r|]; [|by right].
  destruct (qs !! Z.to_nat (p_queue_level r)) as [q|] eqn:Hq.
  - rewrite (list_alter_insert_eq _ _ _ _ Hq). intros [Hx|Hx]%(elem_of_concat_insert _ _ _ _ _ Hq).
    + apply elem_of_app in Hx as [Hx|Hx]; [|left; set_solver].
      right. apply elem_of_concat. eauto.
    + by right.
  - assert (alter (λ q, q ++ [i]) (Z.to_nat (p_queue_level r)) qs = qs) as ->; [|by right].
    apply list_eq. intros j. destruct (decide (Z.to_nat (p_queue_level r) = j)) as [<-|].
    + by rewrite list_lookup_alter_eq, Hq.
    + by rewrite list_lookup_alter_ne.
Qed.

Lemma wake_queues_length c me ps qs l : length (wake_queues c me ps qs l) = length qs.
Proof.
  unfold wake_queues. revert qs. induction l as [|i l IH]; intros qs; simpl; [done|].
  rewrite IH. case_match; [apply enq_length|done].
Qed.

Lemma wake_queues_elem c me ps qs l x :
  x ∈ concat (wake_queues c me ps qs l) →
  x ∈ concat qs ∨ (x ∈ l ∧ from_option (wakes c me x) false (ps !! x) = true).
Proof.
  unfold wake_queues. revert qs. induction l as [|i l IH]; intros qs; simpl; [by left|].
  intros [Hx|[Hx ?]]%IH; [|right; split; [set_solver|done]].
  destruct (from_option (wakes c me i) false (ps !! i)) eqn:Hw; [|by left].
  apply enq_elem in Hx as [->|Hx]; [right; split; [set_solver|done]|by left].
Qed.

Section effects.
Context (E : stop → Prop) (G : kstate → Prop) (R : kstate → kstate → Prop).
#[local] Abbreviation wpk := (wp E G R).

(** the queue a process with a level in range is appended to *)
Lemma qs_level (qs : list (list nat)) (r : proc) : length qs = MLFQ_LEVELS → level_ok r →
  ∃ lvl q, p_queue_level r = Z.of_nat lvl ∧ qs !! lvl = Some q.
Proof.
  intros Hlen [H0 H1]. exists (Z.to_nat (p_queue_level r)).
  destruct (lookup_lt_is_Some_2 qs (Z.to_nat (p_queue_level r))) as [q Hq]; [lia|].
  exists q. split; [lia|done].
Qed.

Lemma wp_wakeup_step H c me s qs n s' :
  length (procs (k_pt s)) = NPROC → (n < NPROC)%nat → p_lock n ∉ H →
  cur_proc (k_lk s) = me → length qs = MLFQ_LEVELS →
  (∀ i r, procs (k_pt s) !! i = Some r → level_ok r ∧ (i ∈ concat qs → p_state r ≠ SLEEPING)) →
  wake_inv H c me s qs (seq 0 n) s' →
  wpk ((let* me := myproc in
        if decide (me = Some n) then ret tt else
        acquire (p_lock n) ;;
        let* r := proc_at n in
        when (bool_decide (p_state r = SLEEPING) && bool_decide (p_chan r = c)) (
          wr n p_state RUNNABLE ;; enqueue n) ;;
        release (p_lock n)) s')
    (λ _, wake_inv H c me s qs (seq 0 (S n))).
Proof.
  intros Hlen Hn HnH Hme Hql Hps (k & t & -> & Hk & Hfr & Hrep & Hrest & Hcore).
  destruct (lookup_lt_is_Some_2 (procs (k_pt s)) n) as [r Hr]; [lia|].
  destruct (Hps _ _ Hr) as [Hlv Hnq].
  pose proof (Hcore n) as Hcn. rewrite Hr in Hcn. simpl in Hcn.
  rewrite decide_False in Hcn by (rewrite elem_of_seq; lia).
  destruct (procs t !! n) as [r'|] eqn:Hr'; [|done]. apply (inj Some) in Hcn.
  assert (Hst : p_state r' = p_state r) by apply (f_equal p_state Hcn).
  assert (Hch : p_chan r' = p_chan r) by apply (f_equal p_chan Hcn).
  assert (Hlv' : p_queue_level r' = p_queue_level r) by apply (f_equal p_queue_level Hcn).
  assert (Hlt : (n < length (procs t))%nat) by (by eapply lookup_lt_Some).
  assert (Hmem : ∀ i, i ∈ seq 0 (S n) ↔ i = n ∨ i ∈ seq 0 n) by (intros i; rewrite !elem_of_seq; lia).
  assert (Hkeep : ∀ i, i ≠ n → core <$> procs t !! i =
    (λ r, core (if decide (i ∈ seq 0 (S n)) then wake_proc c me i r else r)) <$> procs (k_pt s) !! i).
  { intros i Hne. rewrite Hcore. destruct (procs (k_pt s) !! i); simpl; [|done].
    repeat case_decide; try done; exfalso; naive_solver. }
  assert (Hqs : wake_queues c me (procs (k_pt s)) qs (seq 0 (S n)) =
    if wakes c me n r then enq (procs (k_pt s)) (wake_queues c me (procs (k_pt s)) qs (seq 0 n)) n
    else wake_queues c me (procs (k_pt s)) qs (seq 0 n)).
  { unfold wake_queues. rewrite seq_S, foldl_snoc. simpl. by rewrite Hr. }
  (* the case in which the process is left alone *)
  assert (Hsame : wakes c me n r = false → ∀ k2, lockinv H k2 → lk_frame (k_lk s) k2 →
    wake_inv H c me s qs (seq 0 (S n)) (s <| k_lk := k2 |> <| k_pt := t |>)).
  { intros Hw k2 Hk2 Hfr2. exists k2, t. split_and!; [done|done|done|by rewrite Hqs, Hw|done|].
    intros i. destruct (decide (i = n)) as [->|Hne]; [|by apply Hkeep].
    rewrite Hr', Hr. simpl. rewrite decide_True by (by apply Hmem; left).
    unfold wake_proc. by rewrite Hw, Hcn. }
  apply wp_bind. eapply wp_myproc; [done|]. intros k0 Hk0 Hfr0. simpl.
  rewrite (cur_proc_frame _ _ Hfr), Hme.
  destruct (decide (me = Some n)) as [Hmn|Hmn].
  { apply wp_done, Hsame; [|done|by etrans]. unfold wakes.
    rewrite (bool_decide_eq_true_2 (me = Some n)) by done. by rewrite andb_false_r. }
  apply wp_bind. eapply wp_acquire; [done|done|]. intros k1 Hk1 Hfr1. simpl.
  apply wp_bind. eapply wp_proc_at; [done|]. apply wp_bind. unfold when.
  rewrite Hst, Hch. destruct (_ && _) eqn:Hw.
  - assert (Hw' : wakes c me n r = true) by (unfold wakes; by rewrite Hw, bool_decide_eq_false_2).
    apply andb_true_iff in Hw as [Hsl _]. apply bool_decide_eq_true_1 in Hsl.
    set (qs' := wake_queues c me (procs (k_pt s)) qs (seq 0 n)) in *.
    destruct (qs_level qs' r) as (lvl & q & Hl & Hq); [by unfold qs'; rewrite wake_queues_length|done|].
    apply wp_bind. eapply wp_upd_proc; [done|]. simpl.
    eapply (wp_enqueue _ _ _ _ n (r' <| p_state := RUNNABLE |>) lvl q qs'); simpl.
    + by eapply qrep_upd_proc.
    + by rewrite list_lookup_insert_eq.
    + by rewrite Hlv'.
    + done.
    + intros [Hin|[Hin _]]%wake_queues_elem; [by apply Hnq in Hin|].
      apply elem_of_seq in Hin. lia.
    + intros t2 Hrep2 [Hc2 Hrest2]. simpl in Hc2.
      eapply wp_release_add; [exact Hk1|done|]. intros k2 Hk2 Hfr2.
      exists k2, t2. split_and!; [done|done|by do 3 etrans| |by etrans|].
      * rewrite Hqs, Hw'. by erewrite enq_eq by done.
      * intros i. rewrite <- list_lookup_fmap, Hc2, list_fmap_insert.
        destruct (decide (i = n)) as [->|Hne].
        -- rewrite list_lookup_insert_eq by (by rewrite length_fmap). rewrite Hr. simpl.
           rewrite decide_True by (by apply Hmem; left). unfold wake_proc. rewrite Hw'.
           f_equal. change ((core r') <| p_state := RUNNABLE |> = (core r) <| p_state := RUNNABLE |>).
           by rewrite Hcn.
        -- rewrite list_lookup_insert_ne, list_lookup_fmap by done. by apply Hkeep.
  - apply wp_done. simpl. eapply wp_release_add; [exact Hk1|done|]. intros k2 Hk2 Hfr2.
    apply Hsame; [|done|by do 3 etrans]. unfold wakes. by rewrite Hw.
Qed.

(** [wakeup c] makes exactly the other processes that sleep on [c] runnable
    and appends them, in table order, to the queues of their levels. *)
Lemma wp_wakeup H c s qs (Q : unit → kstate → Prop) :
  length (procs (k_pt s)) = NPROC → lockinv H (k_lk s) → (∀ i, p_lock i ∉ H) →
  qrep (k_pt s) qs →
  (∀ i r, procs (k_pt s) !! i = Some r → level_ok r ∧ (i ∈ concat qs → p_state r ≠ SLEEPING)) →
  (∀ s', wake_inv H c (cur_proc (k_lk s)) s qs all_procs s' → Q tt s') →
  wpk (wakeup c s) Q.
Proof.
  intros Hlen HH Hpl Hrep Hps HQ. unfold wakeup.
  eapply wp_mono; [|apply (wp_for_each _ _ _ all_procs _ (wake_inv H c (cur_proc (k_lk s)) s qs))].
  - intros [] s'. apply HQ.
  - exists (k_lk s), (k_pt s). split_and!; [by destruct s|done|done|done|done|].
    intros i. destruct (procs (k_pt s) !! i) as [r|]; [|done].
    change (Some (core r) = Some (core (if decide (i ∈ []) then wake_proc c (cur_proc (k_lk s)) i r else r))).
    by rewrite decide_False by set_solver.
  - intros dn p rst s' Heq Hinv. apply seq_middle in Heq as [-> Hlt]. rewrite <- seq_S.
    apply wp_wakeup_step; try done. apply Hrep.
Qed.

(** the effect of [kkill] on its victim *)
Definition kill_proc (r : proc) : proc :=
  let r := r <| p_killed := 1 |> in
  if decide (p_state r = SLEEPING) then r <| p_state := RUNNABLE |> else r.

(** [kkill pid] marks the first process with that pid, makes it runnable if
    it sleeps, and touches no queue. *)
Lemma wp_kkill H pid s (Q : Z → kstate → Prop) :
  length (procs (k_pt s)) = NPROC → lockinv H (k_lk s) → (∀ i, p_lock i ∉ H) →
  (∀ k, lockinv H k → lk_frame (k_lk s) k →
     match list_find (λ r, p_pid r = pid) (procs (k_pt s)) with
     | Some (i, r) => Q 0 (s <| k_lk := k |> <| k_pt ::= λ t, t <| procs ::= <[i := kill_proc r]> |> |>)
     | None => Q (-1) (s <| k_lk := k |>)
     end) →
  wpk (kkill pid s) Q.
Proof.
  intros Hlen HH Hpl HQ. unfold kkill. apply wp_bind.
  apply (wp_for_find _ _ _ _ _ (λ l s', ∃ k, s' = s <| k_lk := k |> ∧ lockinv H k ∧ lk_frame (k_lk s) k ∧
    ∀ i r, i ∈ l → procs (k_pt s) !! i = Some r → p_pid r ≠ pid)).
  - exists (k_lk s). split_and!; [by destruct s|done|done|set_solver].
  - intros dn p rst s' Heq (k & -> & Hk & Hfr & Hbefore).
    apply seq_middle in Heq as [-> Hlt].
    destruct (lookup_lt_is_Some_2 (procs (k_pt s)) p) as [r Hr]; [lia|].
    assert (Hpr : (p < length (procs (k_pt s)))%nat) by (by eapply lookup_lt_Some).
    apply wp_bind. eapply wp_acquire; [done|done|]. intros k1 Hk1 Hfr1.
    apply wp_bind. eapply wp_rd; [done|]. destruct (Z.eqb_spec (p_pid r) pid) as [Hpid|Hpid].
    + assert (Hfind : list_find (λ r, p_pid r = pid) (procs (k_pt s)) = Some (p, r)).
      { apply list_find_Some. split_and!; [done|done|]. intros j y Hj Hjp.
        eapply Hbefore; [|done]. apply elem_of_seq. lia. }
      rewrite Hfind in HQ. apply wp_bind. eapply wp_upd_proc; [done|].
      apply wp_bind. eapply wp_rd; [by simpl; rewrite list_lookup_insert_eq|]. simpl.
      apply wp_bind. unfold when. unfold kill_proc in HQ. case_bool_decide as Hs.
      * eapply wp_upd_proc; [by simpl; rewrite list_lookup_insert_eq|].
        apply wp_bind. eapply wp_release_add; [exact Hk1|done|]. intros k2 Hk2 Hfr2. apply wp_done, wp_done.
        specialize (HQ k2 Hk2 ltac:(lk_frames)). simpl in HQ. rewrite decide_True in HQ by done.
        unfold upd, set_procs. simpl. unfold upd, set_k_pt. simpl. rewrite list_insert_insert_eq. exact HQ.
      * apply wp_done, wp_bind. eapply wp_release_add; [exact Hk1|done|]. intros k2 Hk2 Hfr2. apply wp_done, wp_done.
        specialize (HQ k2 Hk2 ltac:(lk_frames)). simpl in HQ. by rewrite decide_False in HQ by done.
    + apply wp_bind. eapply wp_release_add; [exact Hk1|done|]. intros k2 Hk2 Hfr2. apply wp_done.
      exists k2. split_and!; [done|done|lk_frames|].
      intros i ri [Hi|Hi]%elem_of_app Hri; [by eapply Hbefore|].
      apply list_elem_of_singleton in Hi as ->. by simplify_eq.
  - intros s' (k & -> & Hk & Hfr & Hall). apply wp_done. specialize (HQ k Hk Hfr).
    destruct (list_find _ _) as [[i r]|] eqn:Hf; [|done].
    apply list_find_Some in Hf as (Hi & Hpid & _). exfalso. eapply Hall; [|done|done].
    apply elem_of_seq. apply lookup_lt_Some in Hi. lia.
Qed.

Lemma wp_killed H p r s (Q : Z → kstate → Prop) :
  procs (k_pt s) !! p = Some r → lockinv H (k_lk s) → p_lock p ∉ H →
  (∀ k, lockinv H k → lk_frame (k_lk s) k → Q (p_killed r) (s <| k_lk := k |>)) →
  wpk (killed p s) Q.
Proof.
  intros Hr HH Hn HQ. unfold killed. apply wp_bind. eapply wp_acquire; [done|done|].
  intros k Hk Hfr. apply wp_bind. eapply wp_rd; [done|].
  apply wp_bind. eapply wp_release_add; [exact Hk|done|]. intros k1 Hk1 Hfr1.
  apply wp_done, HQ; [done|lk_frames].
Qed.

Lemma wp_setkilled H p r s (Q : unit → kstate → Prop) :
  procs (k_pt s) !! p = Some r → lockinv H (k_lk s) → p_lock p ∉ H →
  (∀ k, lockinv H k → lk_frame (k_lk s) k →
     Q tt (s <| k_lk := k |> <| k_pt ::= λ t, t <| procs ::= <[p := r <| p_killed := 1 |>]> |> |>)) →
  wpk (setkilled p s) Q.
Proof.
  intros Hr HH Hn HQ. unfold setkilled. apply wp_bind. eapply wp_acquire; [done|done|].
  intros k Hk Hfr. apply wp_bind. eapply wp_upd_proc; [done|].
  eapply wp_release_add; [exact Hk|done|]. intros k1 Hk1 Hfr1. apply HQ; [done|lk_frames].
Qed.
End effects.
