(* ===== verification/SchedInv.v ===== *)
(** * The scheduling invariant

    [kinv o H s] is the invariant of the kernel running on one hart between
    two context switches: the hart holds the locks [H] and runs process [o];
    the queues are well-formed lists without repetition, every queued
    process is [RUNNABLE], [o] is the only [RUNNING] process, and every
    process has a level and a time within bounds.  [parked p] and
    [resumed p] are what a process and the scheduler owe each other at a
    [swtch].  The lemmas show that the operations of [Sched] keep these
    promises and never panic. *)

From S2P Require Import Prelude Kstate Spinlock Runqueue Sched.
#[local] Open Scope Z_scope.
#[local] Arguments seq : simpl never.

(** ** The invariant *)

(** the process has a kernel thread, which runs or waits to run *)
Definition is_live (st : procstate) : bool :=
  match st with SLEEPING | RUNNABLE | RUNNING => true | _ => false end.
Definition proc_ok (r : proc) : Prop :=
  level_ok r ∧ 0 ≤ p_time_in_queue r < get_quantum (p_queue_level r) ∧
  (is_live (p_state r) = true → ctx_ra (p_context r) ≠ ra_zero).

Record wfq (t : ptable) (qs : list (list nat)) (o : option nat) : Prop := {
  wfq_len : length (procs t) = NPROC;
  wfq_rep : qrep t qs;
  wfq_cur i : o = Some i → (i < NPROC)%nat;
  wfq_proc i r : procs t !! i = Some r →
    proc_ok r ∧ (p_state r = RUNNING ↔ o = Some i) ∧ (i ∈ concat qs → p_state r = RUNNABLE)
}.

(** every live process that waits inside [swtch], but for [x], has a saved
    kernel stack *)
Definition saved_ok (x : option nat) (X : gset nat) (t : ptable) : Prop :=
  ∀ i r, procs t !! i = Some r → is_live (p_state r) = true → ctx_ra (p_context r) = ra_sched →
    i ∈ X ∨ x = Some i.

Record kinv (o : option nat) (H : gset lockid) (s : kstate) : Prop := {
  kinv_locks : lockinv H (k_lk s);
  kinv_cur : cur_proc (k_lk s) = o;
  kinv_wf : ∃ qs, wfq (k_pt s) qs o;
  kinv_saved : saved_ok o (k_saved s) (k_pt s)
}.

(** What a process [p] leaves behind when it switches away, up to what [x]
    exempts: its lock is held, it is no longer [RUNNING], it is in no queue,
    and its context will resume in [sched] *)
Definition away (x : option nat) (p : nat) (s : kstate) : Prop :=
  lockinv {[p_lock p]} (k_lk s) ∧ cur_proc (k_lk s) = Some p ∧ (p < NPROC)%nat ∧
  saved_ok x (k_saved s) (k_pt s) ∧
  ∃ qs, wfq (k_pt s) qs None ∧ (p ∉ concat qs) ∧
    ∃ r, procs (k_pt s) !! p = Some r ∧ ctx_ra (p_context r) = ra_sched.
(** [p] calls [swtch]; its stack is not yet among the saved ones *)
Definition parked (p : nat) : kstate → Prop := away (Some p) p.
(** the scheduler goes on after [p] switched back *)
Definition returned (p : nat) : kstate → Prop := away None p.
(** the scheduler has switched to process [p] *)
Definition resumed (p : nat) (s : kstate) : Prop := kinv (Some p) {[p_lock p]} s.
(** the scheduler switches to [p], whose kernel stack is saved unless it
    starts in [forkret] *)
Definition dispatched (p : nat) (s : kstate) : Prop :=
  resumed p s ∧ saved_ok None (k_saved s) (k_pt s).
(** process [p] is live *)
Definition live_at (p : nat) (s : kstate) : Prop :=
  ∃ r, procs (k_pt s) !! p = Some r ∧ is_live (p_state r) = true.

(** what holds of a run of process [p], which is resumed only if it was live
    when it switched away, and of a run of the scheduler *)
Definition wp_proc (E : stop → Prop) (p : nat) {A} (m : res kstate A) (Q : A → kstate → Prop) : Prop :=
  wp E (parked p) (λ s s', live_at p s ∧ resumed p s') m Q.
Definition wp_sched_thread (E : stop → Prop) {A} (m : res kstate A) (Q : A → kstate → Prop) : Prop :=
  wp E (λ s, ∃ p, dispatched p s) (λ s s', ∃ p, cur_proc (k_lk s) = Some p ∧ returned p s') m Q.

(** ** Keeping the table well-formed *)

Lemma wp_proc_bind E p {A B} (m : KM A) (k : A → KM B) s (Q : B → kstate → Prop) :
  wp_proc E p (m s) (λ a s', wp_proc E p (k a s') Q) → wp_proc E p (bind m k s) Q.
Proof. apply wp_bind. Qed.
Lemma wp_proc_switches E p {A} (m : res kstate A) Q :
  wp_proc E p m Q → switches m = true → ∃ s k, m = Swtch s k ∧ parked p s.
Proof. apply wp_switches. Qed.

Lemma proc_ok_core r r' : core r' = core r → proc_ok r → proc_ok r'.
Proof.
  intros Hc. unfold proc_ok, level_ok.
  by rewrite (f_equal p_queue_level Hc : p_queue_level r' = p_queue_level r),
    (f_equal p_time_in_queue Hc : p_time_in_queue r' = p_time_in_queue r),
    (f_equal p_state Hc : p_state r' = p_state r), (f_equal p_context Hc : p_context r' = p_context r).
Qed.

Lemma proc_ok_state r st :
  proc_ok r → (is_live st = true → is_live (p_state r) = true) → proc_ok (r <| p_state := st |>).
Proof. intros (? & ? & Hc) Hl. split; [done|]. split; [done|]. intros Hs. apply Hc, Hl, Hs. Qed.

(** a step that makes no process live and no context one of [sched] *)
Lemma saved_ok_mono x X t t' :
  saved_ok x X t →
  (∀ i r', procs t' !! i = Some r' → ∃ r, procs t !! i = Some r ∧ p_context r = p_context r' ∧
     (is_live (p_state r') = true → is_live (p_state r) = true)) →
  saved_ok x X t'.
Proof.
  intros Hs H i r' Hi Hl Hc. destruct (H _ _ Hi) as (r & Hr & Hcr & Hlr).
  eapply Hs; [exact Hr|auto|by rewrite Hcr].
Qed.
Lemma saved_ok_upd x X t i r r' :
  saved_ok x X t → procs t !! i = Some r →
  (is_live (p_state r') = true → ctx_ra (p_context r') = ra_sched →
     (is_live (p_state r) = true ∧ p_context r' = p_context r) ∨ x = Some i) →
  saved_ok x X (t <| procs ::= <[i := r']> |>).
Proof.
  intros Hs Hi Hr j rj. simpl. rewrite list_lookup_insert. case_decide as Hd; [|apply Hs].
  destruct Hd as [<- _]. intros [= <-] Hl Hc. destruct (Hr Hl Hc) as [[Hl' Hc']|]; [|by right].
  eapply Hs; [done..|]. by rewrite <- Hc'.
Qed.
(** a write that changes neither state nor context *)
Lemma saved_ok_same x X t i r r' :
  saved_ok x X t → procs t !! i = Some r → p_state r' = p_state r → p_context r' = p_context r →
  saved_ok x X (t <| procs ::= <[i := r']> |>).
Proof. intros Hs Hi Hst Hc. eapply saved_ok_upd; [done..|]. rewrite Hst, Hc. auto. Qed.
Lemma saved_ok_core x X t t' :
  saved_ok x X t → core <$> procs t' = core <$> procs t → saved_ok x X t'.
Proof.
  intros Hs Hc. eapply saved_ok_mono; [done|]. intros i r' Hi.
  destruct (core_lookup _ _ _ _ (eq_sym Hc) Hi) as (r & Hr & Hcr). exists r.
  split_and!; [done|apply (f_equal p_context Hcr)|].
  by rewrite (f_equal p_state Hcr : p_state r = p_state r').
Qed.
Lemma saved_ok_weaken x X t : saved_ok None X t → saved_ok x X t.
Proof. intros Hs i r Hi Hl Hc. left. by destruct (Hs i r Hi Hl Hc). Qed.

(** a write to one entry that keeps its link *)
Lemma wfq_upd t qs o o' i r r' :
  wfq t qs o → procs t !! i = Some r → p_queue_next r' = p_queue_next r →
  proc_ok r' → (p_state r' = RUNNING ↔ o' = Some i) →
  (∀ j, j ≠ i → (o = Some j ↔ o' = Some j)) →
  (i ∈ concat qs → p_state r' = RUNNABLE) →
  wfq (t <| procs ::= <[i := r']> |>) qs o'.
Proof.
  intros [Hlen Hrep Hcur Hpr] Hi Hn Hok Hrun Ho Hq. split.
  - simpl. by rewrite length_insert.
  - by eapply qrep_upd_proc.
  - intros j Hj. destruct (decide (j = i)) as [->|Hne].
    + apply lookup_lt_Some in Hi. lia.
    + apply Hcur. by apply Ho.
  - intros j rj. simpl. rewrite list_lookup_insert. case_decide as Hd.
    + destruct Hd as [-> _]. intros [= <-]. done.
    + intros Hj. destruct (decide (i = j)) as [->|Hne].
      { exfalso. apply Hd. split; [done|]. by eapply lookup_lt_Some. }
      destruct (Hpr _ _ Hj) as (? & Hr & ?). split_and!; [done| |done].
      rewrite Hr. by apply Ho.
Qed.

(** a write that changes neither the state nor what the scheduler uses *)
Lemma wfq_upd_same t qs o i r r' :
  wfq t qs o → procs t !! i = Some r → p_queue_next r' = p_queue_next r →
  proc_ok r' → p_state r' = p_state r → wfq (t <| procs ::= <[i := r']> |>) qs o.
Proof.
  intros Hwf Hi Hn Hok Hst. destruct (wfq_proc _ _ _ Hwf _ _ Hi) as (_ & Hr & Hq).
  eapply wfq_upd; eauto; rewrite Hst; done.
Qed.

(** other global variables do not matter *)
Lemma wfq_globals t t' qs o :
  wfq t qs o → procs t' = procs t → runqueues t' = runqueues t → wfq t' qs o.
Proof.
  intros [Hlen Hrep Hcur Hpr] Hp Hr. split; rewrite ?Hp; try done. by eapply qrep_same_links.
Qed.

(** relinking *)
Lemma wfq_links t t' qs qs' o :
  wfq t qs o → links_only t t' → qrep t' qs' →
  (∀ i r, procs t !! i = Some r → i ∈ concat qs' → p_state r = RUNNABLE) → wfq t' qs' o.
Proof.
  intros [Hlen Hrep Hcur Hpr] [Hc _] Hrep' Hq. split; [|done|done|].
  - by rewrite (core_length _ _ Hc).
  - intros i r' Hi.
    destruct (core_lookup _ _ _ _ (eq_sym Hc) Hi) as (r & Hr & Hcr).
    destruct (Hpr _ _ Hr) as (Hok & Hrun & _).
    assert (Hst : p_state r' = p_state r) by apply (f_equal p_state (eq_sym Hcr)).
    split_and!; [by eapply proc_ok_core|by rewrite Hst|]. rewrite Hst. eauto.
Qed.

Lemma wfq_lookup t qs o i : wfq t qs o → (i < NPROC)%nat → ∃ r, procs t !! i = Some r.
Proof. intros Hwf Hi. apply lookup_lt_is_Some. by rewrite (wfq_len _ _ _ Hwf). Qed.

(** the running process is in no queue *)
Lemma wfq_cur_notin t qs i : wfq t qs (Some i) → i ∉ concat qs.
Proof.
  intros Hwf Hin. destruct (wfq_lookup _ _ _ i Hwf) as [r Hr]; [by eapply wfq_cur|].
  destruct (wfq_proc _ _ _ Hwf _ _ Hr) as (_ & Hrun & Hq).
  rewrite (proj2 Hrun) in Hq by done. by apply Hq in Hin.
Qed.

(** appending a runnable process that is in no queue *)
Lemma wp_enqueue_wf E G R s p r qs o (Q : unit → kstate → Prop) :
  wfq (k_pt s) qs o → procs (k_pt s) !! p = Some r → p_state r = RUNNABLE → p ∉ concat qs →
  (∀ t, wfq t (enq (procs (k_pt s)) qs p) o → links_only (k_pt s) t → Q tt (s <| k_pt := t |>)) →
  wp E G R (enqueue p s) Q.
Proof.
  intros Hwf Hp Hst Hnin HQ. destruct (wfq_proc _ _ _ Hwf _ _ Hp) as ([Hlv _] & _ & _).
  destruct (qs_level qs r) as (lvl & q & Hl & Hq); [apply (wfq_rep _ _ _ Hwf)|done|].
  eapply wp_enqueue; [apply (wfq_rep _ _ _ Hwf)|done..|].
  intros t Ht Hlk. rewrite <- (enq_eq (procs (k_pt s)) qs p r lvl q) in Ht by done.
  apply HQ; [|done]. eapply wfq_links; [done|done|done|].
  intros i ri Hi [->|Hin]%enq_elem; [by simplify_eq|]. by eapply wfq_proc.
Qed.

Lemma kinv_frame o H s k : kinv o H s → lockinv H k → lk_frame (k_lk s) k → kinv o H (s <| k_lk := k |>).
Proof. intros [? Hc Hwf ?] Hk Hf. split; [done|by rewrite <- Hc; apply cur_proc_frame|done|done]. Qed.

Lemma kinv_lock o H H' s k :
  kinv o H s → lockinv H' k → lk_frame (k_lk s) k → kinv o H' (s <| k_lk := k |>).
Proof. intros [? Hc Hwf ?] Hk Hf. split; [done|by rewrite <- Hc; apply cur_proc_frame|done|done]. Qed.

Lemma parked_ctx p qs s r :
  lockinv {[p_lock p]} (k_lk s) → cur_proc (k_lk s) = Some p → (p < NPROC)%nat →
  wfq (k_pt s) qs None → p ∉ concat qs → saved_ok (Some p) (k_saved s) (k_pt s) →
  procs (k_pt s) !! p = Some r →
  parked p (s <| k_pt ::= λ t, t <| procs ::= <[p :=
    r <| p_context ::= λ x, mk_context ra_sched (ctx_sp x) |>]> |> |>).
Proof.
  intros Hlk Hcur Hp Hwf Hnin Hsv Hr. split_and!; [done|done|done| |].
  { eapply saved_ok_upd; [done..|]. by right. }
  exists qs. split_and!; [|done|].
  - destruct (wfq_proc _ _ _ Hwf _ _ Hr) as (Hok & _ & _).
    apply (wfq_upd_same (k_pt s) qs None p r); try done. by destruct Hok as (? & ? & _).
  - eexists. simpl. rewrite list_lookup_insert_eq; [done|]. by eapply lookup_lt_Some.
Qed.

(** ** A process gives up the hart *)

Section process.
Context (E : stop → Prop) (p : nat).

(** the state in which [sched] switches away *)
Definition switched (k : lkst) (r : proc) (s : kstate) : kstate :=
  s <| k_lk := k |> <| k_pt ::= λ t, t <| procs ::= <[p :=
    r <| p_context ::= λ x, mk_context ra_sched (ctx_sp x) |>]> |> |>.

Lemma wp_sched_at G R s qs r (Q : unit → kstate → Prop) :
  lockinv {[p_lock p]} (k_lk s) → cur_proc (k_lk s) = Some p → (p < NPROC)%nat →
  wfq (k_pt s) qs None → p ∉ concat qs → saved_ok (Some p) (k_saved s) (k_pt s) →
  procs (k_pt s) !! p = Some r →
  (∀ k, parked p (switched k r s) → G (switched k r s) ∧
    ∀ s', R (switched k r s) s' → resumed p s' ∧ ∀ s'', resumed p s'' → Q tt s'') →
  wp E G R (sched s) Q.
Proof.
  intros Hlk Hcur Hp Hwf Hnin Hsv Hr HQ. unfold sched.
  assert (Hne : ({[p_lock p]} : gset lockid) ≠ ∅) by set_solver.
  destruct (wfq_proc _ _ _ Hwf _ _ Hr) as (_ & Hrun & _).
  apply wp_bind. eapply wp_myproc; [done|]. intros k Hk Hfr. rewrite Hcur.
  apply wp_bind, wp_done. apply wp_bind. eapply wp_holding; [done|].
  rewrite bool_decide_eq_true_2 by set_solver. simpl.
  apply wp_bind. eapply wp_mycpu; [done|]. intros c _ Hn _ _.
  rewrite size_singleton in Hn. rewrite Hn. simpl.
  apply wp_bind. eapply wp_rd; [done|].
  rewrite bool_decide_eq_false_2 by naive_solver.
  apply wp_bind. eapply wp_intr_get_held; [done|done|].
  apply wp_bind. eapply wp_mycpu; [done|]. intros c' _ _ _ Hb.
  destruct (Hb Hne) as [b ->].
  apply wp_bind. eapply wp_upd_proc; [done|].
  destruct (HQ k) as [HG HR].
  { apply (parked_ctx p qs (s <| k_lk := k |>)); try done. by rewrite <- Hcur; apply cur_proc_frame. }
  apply wp_bind. apply wp_swtch; [exact HG|].
  intros s' Hs'. destruct (HR s' Hs') as [Hres HQ']. pose proof Hres as [Hlk' ? ? ?].
  eapply wp_set_intena; [done|done|]. intros k' Hk' Hfr'. apply HQ'. by eapply kinv_frame.
Qed.

Lemma wp_sched s qs (Q : unit → kstate → Prop) :
  lockinv {[p_lock p]} (k_lk s) → cur_proc (k_lk s) = Some p → (p < NPROC)%nat →
  wfq (k_pt s) qs None → p ∉ concat qs → saved_ok (Some p) (k_saved s) (k_pt s) →
  (∀ s', live_at p s → resumed p s' → Q tt s') →
  wp_proc E p (sched s) Q.
Proof.
  intros Hlk Hcur Hp Hwf Hnin Hsv HQ. destruct (wfq_lookup _ _ _ _ Hwf Hp) as [r Hr].
  eapply wp_sched_at; [done..|]. intros k Hpk. split; [done|]. intros s' [(r' & Hr' & Hl) Hres].
  split; [done|]. intros s'' Hs''. apply HQ; [|done]. exists r. split; [done|]. simpl in Hr'.
  rewrite list_lookup_insert_eq in Hr' by (by eapply lookup_lt_Some). apply (inj Some) in Hr' as <-. exact Hl.
Qed.

(** the running process changes its state before it switches away *)
Lemma wfq_leave t qs r st :
  wfq t qs (Some p) → procs t !! p = Some r → st ≠ RUNNING →
  wfq (t <| procs ::= <[p := r <| p_state := st |>]> |>) qs None.
Proof.
  intros Hwf Hr Hst. destruct (wfq_proc _ _ _ Hwf _ _ Hr) as (Hok & Hrun & _).
  eapply wfq_upd; [done|done|done| | |naive_solver|].
  - apply proc_ok_state; [done|]. by rewrite (proj2 Hrun).
  - by simpl; split; [|done].
  - intros Hin. by apply wfq_cur_notin in Hwf.
Qed.

Lemma wp_yield_at G R s r (Q : unit → kstate → Prop) :
  kinv (Some p) ∅ s → procs (k_pt s) !! p = Some r →
  (∀ k, let s1 := switched k (r <| p_state := RUNNABLE |>) s in
    parked p s1 → G s1 ∧ ∀ s', R s1 s' → resumed p s' ∧ ∀ s'', kinv (Some p) ∅ s'' → Q tt s'') →
  wp E G R (yield s) Q.
Proof.
  intros [Hlk Hcur (qs & Hwf) Hsv] Hr HQ. unfold yield.
  assert (Hp : (p < NPROC)%nat) by (by eapply wfq_cur).
  assert (Hlen : (p < length (procs (k_pt s)))%nat) by (by eapply lookup_lt_Some).
  apply wp_bind. eapply wp_myproc; [done|]. intros k Hk Hfr. rewrite Hcur.
  apply wp_bind, wp_done. apply wp_bind. eapply wp_acquire; [done|set_solver|].
  intros k1 Hk1 Hfr1. rewrite (right_id_L ∅ (∪)) in Hk1.
  apply wp_bind. eapply wp_upd_proc; [done|].
  apply wp_bind. eapply (wp_sched_at _ _ _ qs (r <| p_state := RUNNABLE |>)).
  - done.
  - rewrite <- Hcur. apply cur_proc_frame. lk_frames.
  - done.
  - by apply wfq_leave.
  - by apply wfq_cur_notin in Hwf.
  - eapply saved_ok_upd; [done..|]. by right.
  - simpl. by rewrite list_lookup_insert_eq.
  - intros k2. assert (Heq : switched k2 (r <| p_state := RUNNABLE |>)
      (s <| k_lk := k1 |> <| k_pt ::= λ t, t <| procs ::= <[p:=r <| p_state := RUNNABLE |>]> |> |>)
      = switched k2 (r <| p_state := RUNNABLE |>) s).
    { exact (set_proc_twice (s <| k_lk := k2 |>) p _ _). }
    change (s <| k_lk := k |> <| k_lk := k1 |>) with (s <| k_lk := k1 |>).
    rewrite Heq. intros Hpk. destruct (HQ k2 Hpk) as [HG HR]. split; [done|].
    intros s' Hs'. destruct (HR s' Hs') as [Hres HQ']. split; [done|]. clear s' Hs' Hres.
    intros s'' [Hlk' Hcur' Hwf' Hsv']. eapply (wp_release_add _ _ _ _ _ ∅); [by rewrite (right_id_L ∅ (∪))|set_solver|].
    intros k3 Hk3 Hfr3. apply HQ'. by eapply (kinv_lock _ {[p_lock p]}).
Qed.

Lemma wp_yield s (Q : unit → kstate → Prop) :
  kinv (Some p) ∅ s → (∀ s', kinv (Some p) ∅ s' → Q tt s') → wp_proc E p (yield s) Q.
Proof.
  intros Hs HQ. pose proof Hs as [_ _ (qs & Hwf) _].
  assert (Hp : (p < NPROC)%nat) by (by eapply wfq_cur). destruct (wfq_lookup _ _ _ _ Hwf Hp) as [r Hr].
  eapply wp_yield_at; [done|done|]. intros k s1 Hpk. split; [done|]. by intros s' [_ Hs'].
Qed.

Lemma wp_sleep c lk s (Q : unit → kstate → Prop) :
  kinv (Some p) {[lk]} s → lk ≠ p_lock p →
  (∀ s', kinv (Some p) {[lk]} s' → Q tt s') → wp_proc E p (sleep c lk s) Q.
Proof.
  intros [Hlk Hcur (qs & Hwf) Hsv] Hne HQ. unfold wp_proc, sleep.
  assert (Hp : (p < NPROC)%nat) by (by eapply wfq_cur).
  destruct (wfq_lookup _ _ _ _ Hwf Hp) as [r Hr].
  assert (Hlen : (p < length (procs (k_pt s)))%nat) by (by eapply lookup_lt_Some).
  destruct (wfq_proc _ _ _ Hwf _ _ Hr) as (Hok & _ & _).
  apply wp_bind. eapply wp_myproc; [done|]. intros k Hk Hfr. rewrite Hcur.
  apply wp_bind, wp_done. apply wp_bind. eapply wp_acquire; [done|set_solver|].
  intros k1 Hk1 Hfr1. rewrite (comm_L (∪)) in Hk1.
  apply wp_bind. eapply wp_release_add; [done|set_solver|]. intros k2 Hk2 Hfr2.
  apply wp_bind. eapply wp_upd_proc; [done|].
  apply wp_bind. eapply wp_upd_proc; [by simpl; rewrite list_lookup_insert_eq|].
  apply wp_bind. eapply wp_sched.
  - done.
  - rewrite <- Hcur. apply cur_proc_frame. lk_frames.
  - done.
  - apply (wfq_leave ((k_pt s) <| procs ::= <[p := r <| p_chan := Some c |>]> |>) qs
      (r <| p_chan := Some c |>)); [|by simpl; rewrite list_lookup_insert_eq|done].
    by apply (wfq_upd_same (k_pt s) qs (Some p) p r).
  - by apply wfq_cur_notin in Hwf.
  - eapply saved_ok_upd; [|by simpl; rewrite list_lookup_insert_eq|by right].
    eapply saved_ok_upd; [done..|by right].
  - intros s' _ [Hlk' Hcur' (qs' & Hwf') Hsv'].
    destruct (wfq_lookup _ _ _ _ Hwf' Hp) as [r' Hr'].
    destruct (wfq_proc _ _ _ Hwf' _ _ Hr') as (Hok' & _ & _).
    apply wp_bind. eapply wp_upd_proc; [done|].
    assert (Hwf2 : wfq ((k_pt s') <| procs ::= <[p := r' <| p_chan := None |>]> |>) qs' (Some p))
      by (by apply (wfq_upd_same (k_pt s') qs' (Some p) p r')).
    apply wp_bind. eapply (wp_release_add _ _ _ _ _ ∅); [by rewrite (right_id_L ∅ (∪))|set_solver|].
    intros k3 Hk3 Hfr3. eapply wp_acquire; [done|set_solver|]. intros k4 Hk4 Hfr4.
    rewrite (right_id_L ∅ (∪)) in Hk4. apply HQ. split; [done| |by exists qs'|].
    + rewrite <- Hcur'. apply cur_proc_frame. lk_frames.
    + eapply saved_ok_same; done.
Qed.
End process.

(** ** Operations that do not switch *)

Section atomic.
Context (E : stop → Prop) (G : kstate → Prop) (R : kstate → kstate → Prop).
#[local] Abbreviation wpk := (wp E G R).

(** the invariant is enough for [wp_wakeup] *)
Lemma wfq_wakeable t qs o i r : wfq t qs o → procs t !! i = Some r →
  level_ok r ∧ (i ∈ concat qs → p_state r ≠ SLEEPING).
Proof.
  intros Hwf Hr. destruct (wfq_proc _ _ _ Hwf _ _ Hr) as ([? _] & _ & Hq).
  split; [done|]. intros Hin. by rewrite Hq.
Qed.

Lemma wakes_sleeping c me i r : wakes c me i r = true → p_state r = SLEEPING.
Proof.
  unfold wakes. by intros [[Hs%bool_decide_eq_true_1 _]%andb_true_iff _]%andb_true_iff.
Qed.
Lemma wake_proc_ok c me i r : proc_ok r → proc_ok (wake_proc c me i r).
Proof.
  unfold wake_proc. case_match eqn:Hw; [|done]. intros Hok. apply proc_ok_state; [done|].
  by rewrite (wakes_sleeping _ _ _ _ Hw).
Qed.

Lemma wfq_wake H c s qs o s' :
  wfq (k_pt s) qs o → wake_inv H c o s qs all_procs s' →
  wfq (k_pt s') (wake_queues c o (procs (k_pt s)) qs all_procs) o.
Proof.
  intros Hwf (k & t & -> & Hk & Hfr & Hrep & Hrest & Hcore). change (k_pt _) with t at 1.
  assert (Hlen : length (procs t) = NPROC).
  { rewrite <- (wfq_len _ _ _ Hwf). apply length_lookup_eq. intros i. specialize (Hcore i).
    by destruct (procs t !! i), (procs (k_pt s) !! i). }
  split; [done|exact Hrep|by apply (wfq_cur _ _ _ Hwf)|].
  intros i r' Hr'. specialize (Hcore i). rewrite Hr' in Hcore.
  destruct (procs (k_pt s) !! i) as [r|] eqn:Hr; [|done]. simpl in Hcore. apply (inj Some) in Hcore.
  rewrite decide_True in Hcore by (apply elem_of_seq; apply lookup_lt_Some in Hr'; lia).
  destruct (wfq_proc _ _ _ Hwf _ _ Hr) as (Hok & Hrun & Hq).
  split_and!.
  - eapply proc_ok_core; [done|]. by apply wake_proc_ok.
  - rewrite <- Hrun. assert (p_state r' = p_state (wake_proc c o i r)) as -> by apply (f_equal p_state Hcore).
    unfold wake_proc. case_match eqn:Hw; [|done]. rewrite (wakes_sleeping _ _ _ _ Hw). by split.
  - assert (p_state r' = p_state (wake_proc c o i r)) as -> by apply (f_equal p_state Hcore).
    intros [Hin|[_ Hw]]%wake_queues_elem; unfold wake_proc.
    + case_match; [done|]. by apply Hq.
    + rewrite Hr in Hw. simpl in Hw. by rewrite Hw.
Qed.

Lemma saved_ok_wake H c s qs o s' x :
  length (procs (k_pt s)) = NPROC → saved_ok x (k_saved s) (k_pt s) →
  wake_inv H c o s qs all_procs s' → saved_ok x (k_saved s') (k_pt s').
Proof.
  intros Hlen Hsv (k & t & -> & _ & _ & _ & _ & Hcore). change (k_saved _) with (k_saved s).
  change (k_pt _) with t. eapply saved_ok_mono; [done|]. intros i r' Hi. specialize (Hcore i). rewrite Hi in Hcore.
  destruct (procs (k_pt s) !! i) as [r|] eqn:Hr; [|done]. simpl in Hcore. apply (inj Some) in Hcore.
  exists r. rewrite decide_True in Hcore by (apply elem_of_seq; apply lookup_lt_Some in Hr; lia).
  unfold wake_proc in Hcore. case_match eqn:Hw.
  - split_and!; [done|by rewrite (f_equal p_context Hcore : p_context r' = p_context r)|].
    by rewrite (wakes_sleeping _ _ _ _ Hw).
  - split_and!; [done|by rewrite (f_equal p_context Hcore : p_context r' = p_context r)|].
    by rewrite (f_equal p_state Hcore : p_state r' = p_state r).
Qed.

Lemma wp_wakeup_kinv o H c s (Q : unit → kstate → Prop) :
  kinv o H s → (∀ i, p_lock i ∉ H) →
  (∀ s', kinv o H s' → same_rest (k_pt s) (k_pt s') → lk_frame (k_lk s) (k_lk s') →
    (∀ i, o = Some i → core <$> procs (k_pt s') !! i = core <$> procs (k_pt s) !! i) →
    s' = s <| k_lk := k_lk s' |> <| k_pt := k_pt s' |> → Q tt s') →
  wpk (wakeup c s) Q.
Proof.
  intros [Hlk Hcur (qs & Hwf) Hsv] Hpl HQ.
  eapply (wp_wakeup _ _ _ H c s qs); [apply (wfq_len _ _ _ Hwf)|done|done|apply (wfq_rep _ _ _ Hwf)| |].
  - intros i r. by apply (wfq_wakeable _ _ o).
  - rewrite Hcur. intros s' Hs'. pose proof Hs' as (k & t & -> & Hk & Hfr & _ & Hrest & Hcore).
    apply HQ; [|done|done| |done].
    2:{ intros i ->. simpl. rewrite Hcore. destruct (procs (k_pt s) !! i) as [r|]; [|done]. simpl.
        unfold wake_proc, wakes. rewrite (bool_decide_eq_true_2 (Some i = Some i)), andb_false_r by done. by case_decide. }
    split; [done|by rewrite <- Hcur; apply (cur_proc_frame (k_lk s))| |].
    + eexists. by eapply wfq_wake.
    + eapply (saved_ok_wake _ _ s); [apply (wfq_len _ _ _ Hwf)|done|done].
Qed.

Lemma kill_proc_ok r : proc_ok r → proc_ok (kill_proc r).
Proof.
  intros Hok. unfold kill_proc. simpl. case_decide as Hs; [|done].
  apply (proc_ok_state (r <| p_killed := 1 |>)); [done|]. by simpl; rewrite Hs.
Qed.

Lemma wp_kkill_kinv o H pid s (Q : Z → kstate → Prop) :
  kinv o H s → (∀ i, p_lock i ∉ H) → (∀ v s', kinv o H s' → Q v s') → wpk (kkill pid s) Q.
Proof.
  intros [Hlk Hcur (qs & Hwf) Hsv] Hpl HQ.
  eapply wp_kkill; [apply (wfq_len _ _ _ Hwf)|done|done|]. intros k Hk Hfr.
  assert (Hcur' : cur_proc k = o) by (by rewrite <- Hcur; apply cur_proc_frame).
  destruct (list_find _ _) as [[i r]|] eqn:Hf; apply HQ; [|by split; [| |exists qs|]].
  apply list_find_Some in Hf as (Hi & _ & _). destruct (wfq_proc _ _ _ Hwf _ _ Hi) as (Hok & Hrun & Hq).
  split; [done|done|exists qs|].
  - eapply (wfq_upd _ _ o o i r); [done|done| |by apply kill_proc_ok| |done|];
      unfold kill_proc; simpl; case_decide as Hs; simpl; try done.
    rewrite <- Hrun, Hs. done.
  - eapply saved_ok_upd; [done..|]. intros Hl _. left. unfold kill_proc in *. simpl in *.
    case_decide as Hs; [by rewrite Hs|done].
Qed.

Lemma wp_killed_kinv o H p s (Q : Z → kstate → Prop) :
  kinv o H s → (p < NPROC)%nat → p_lock p ∉ H → (∀ v s', kinv o H s' → Q v s') → wpk (killed p s) Q.
Proof.
  intros Hinv Hp Hn HQ. pose proof Hinv as [Hlk Hcur (qs & Hwf) Hsv].
  destruct (wfq_lookup _ _ _ _ Hwf Hp) as [r Hr].
  eapply wp_killed; [done..|]. intros k Hk Hfr. apply HQ. by eapply kinv_frame.
Qed.

Lemma wp_setkilled_kinv o H p s (Q : unit → kstate → Prop) :
  kinv o H s → (p < NPROC)%nat → p_lock p ∉ H → (∀ s', kinv o H s' → Q tt s') → wpk (setkilled p s) Q.
Proof.
  intros Hinv Hp Hn HQ. pose proof Hinv as [Hlk Hcur (qs & Hwf) Hsv].
  destruct (wfq_lookup _ _ _ _ Hwf Hp) as [r Hr]. destruct (wfq_proc _ _ _ Hwf _ _ Hr) as (Hok & _ & _).
  eapply wp_setkilled; [done..|]. intros k Hk Hfr. apply HQ. split; [done|by rewrite <- Hcur; apply (cur_proc_frame (k_lk s))| |].
  - exists qs. by apply (wfq_upd_same (k_pt s) qs o p r).
  - by eapply saved_ok_same.
Qed.

Lemma wp_reparent_kinv o H p s (Q : unit → kstate → Prop) :
  kinv o H s → (∀ i, p_lock i ∉ H) → (∀ s', kinv o H s' → Q tt s') → wpk (reparent p s) Q.
Proof.
  intros Hinv Hpl HQ. unfold reparent.
  eapply wp_mono; [|apply (wp_for_each _ _ _ all_procs _ (λ _ s', kinv o H s'))].
  - intros [] s'. apply HQ.
  - done.
  - intros dn pp rst s' Heq Hinv'. apply seq_middle in Heq as [_ Hlt].
    pose proof Hinv' as [Hlk Hcur (qs & Hwf) Hsv]. destruct (wfq_lookup _ _ _ _ Hwf Hlt) as [r Hr].
    destruct (wfq_proc _ _ _ Hwf _ _ Hr) as (Hok & _ & _).
    apply wp_bind. eapply wp_rd; [done|]. case_decide; [|by apply wp_done].
    apply wp_bind, wp_done, wp_bind. eapply wp_upd_proc; [done|].
    apply wp_bind, wp_done. eapply wp_wakeup_kinv; [|done|by auto].
    split; [done|done|exists qs; by apply (wfq_upd_same (k_pt s') qs o pp r)|by eapply saved_ok_same].
Qed.

Lemma wp_upd_stats_kinv o H g s (Q : unit → kstate → Prop) :
  kinv o H s → stats_lock ∉ H → (∀ s', kinv o H s' → Q tt s') → wpk (upd_stats g s) Q.
Proof.
  intros [Hlk Hcur (qs & Hwf) Hsv] Hn HQ. eapply wp_upd_stats; [done..|]. intros k Hk Hfr.
  apply HQ. split; [done|by rewrite <- Hcur; apply (cur_proc_frame (k_lk s))| |done].
  exists qs. by eapply wfq_globals.
Qed.

Lemma runnables_elem ps l i : i ∈ runnables ps l ↔ i ∈ l ∧ p_state <$> ps !! i = Some RUNNABLE.
Proof. unfold runnables. rewrite list_elem_of_filter. naive_solver. Qed.

Lemma boost_proc_ok r : proc_ok r → proc_ok (boost_proc r).
Proof. unfold boost_proc. case_decide; [|done]. intros (_ & _ & ?). by split; [|split]. Qed.
Lemma boost_proc_state r : p_state (boost_proc r) = p_state r.
Proof. unfold boost_proc. by case_decide. Qed.

Lemma wfq_boost t t' qs o :
  wfq t qs o → qrep t' [runnables (procs t) all_procs; []; []; []] →
  core <$> procs t' = core <$> (boost_proc <$> procs t) →
  wfq t' [runnables (procs t) all_procs; []; []; []] o.
Proof.
  intros [Hlen Hrep Hcur Hpr] Hrep' Hcore. split; [|done|done|].
  - by rewrite (core_length _ _ Hcore), length_fmap.
  - intros i r' Hi. destruct (core_lookup _ _ _ _ (eq_sym Hcore) Hi) as (r2 & Hr2 & Hc).
    rewrite list_lookup_fmap in Hr2. destruct (procs t !! i) as [r|] eqn:Hr; [|done].
    apply (inj Some) in Hr2 as <-. destruct (Hpr _ _ Hr) as (Hok & Hrun & _).
    assert (Hst : p_state r' = p_state r).
    { rewrite <- (boost_proc_state r). apply (f_equal p_state (eq_sym Hc)). }
    split_and!; [|by rewrite Hst|].
    + eapply proc_ok_core; [done|]. by apply boost_proc_ok.
    + simpl. rewrite app_nil_r, runnables_elem, Hr, Hst. simpl. naive_solver.
Qed.

Lemma saved_ok_boost x X t t' : saved_ok x X t →
  core <$> procs t' = core <$> (boost_proc <$> procs t) → saved_ok x X t'.
Proof.
  intros Hs Hc. eapply saved_ok_mono; [done|]. intros i r' Hi.
  destruct (core_lookup _ _ _ _ (eq_sym Hc) Hi) as (r2 & Hr2 & Hcr).
  rewrite list_lookup_fmap in Hr2. destruct (procs t !! i) as [r|] eqn:Hr; [|done].
  apply (inj Some) in Hr2 as <-. exists r. split_and!; [done| |].
  - rewrite <- (f_equal p_context Hcr : p_context (boost_proc r) = p_context r').
    unfold boost_proc. by case_decide.
  - rewrite <- (f_equal p_state Hcr : p_state (boost_proc r) = p_state r'). by rewrite boost_proc_state.
Qed.

Lemma wp_priority_boost_kinv o H s (Q : unit → kstate → Prop) :
  kinv o H s → (∀ i, p_lock i ∉ H) → (∀ s', kinv o H s' → Q tt s') → wpk (priority_boost s) Q.
Proof.
  intros [Hlk Hcur (qs & Hwf) Hsv] Hpl HQ.
  assert (Hl : length (runqueues (k_pt s)) = MLFQ_LEVELS).
  { destruct (wfq_rep _ _ _ Hwf) as (<- & _ & Hf). by eapply Forall2_length. }
  eapply wp_priority_boost; [apply (wfq_len _ _ _ Hwf)|done|done|done|].
  intros k t Hk Hfr Hrep Hcore _. apply HQ.
  split; [done|by rewrite <- Hcur; apply (cur_proc_frame (k_lk s))| |by eapply saved_ok_boost].
  eexists. by eapply wfq_boost.
Qed.
End atomic.

(** ** The scheduler thread *)

Section scheduler.
Context (E : stop → Prop).

(** taking the head of a queue *)
Lemma wp_dequeue_wf G R s lvl q qs o (Q : option nat → kstate → Prop) :
  wfq (k_pt s) qs o → qs !! lvl = Some q →
  match q with
  | [] => Q None s
  | p :: q' => ∀ t, wfq t (<[lvl := q']> qs) o → links_only (k_pt s) t → Q (Some p) (s <| k_pt := t |>)
  end →
  wp E G R (dequeue (Z.of_nat lvl) s) Q.
Proof.
  intros Hwf Hq HQ. eapply wp_dequeue; [apply (wfq_rep _ _ _ Hwf)|done|].
  destruct q as [|p q']; [done|]. intros t Ht Hl. apply HQ; [|done].
  eapply wfq_links; [done|done|done|]. intros i r Hi Hin. eapply (wfq_proc _ _ _ Hwf); [done|].
  apply (elem_of_concat_insert _ _ _ _ _ Hq) in Hin as [Hin|Hin]; [|done].
  apply elem_of_concat. exists lvl, (p :: q'). set_solver.
Qed.

(** the scheduler marks a process that is in no queue as running *)
Lemma wfq_pick t qs p r :
  wfq t qs None → procs t !! p = Some r → p_state r = RUNNABLE → p ∉ concat qs →
  wfq (t <| procs ::= <[p := r <| p_state := RUNNING |>]> |>) qs (Some p).
Proof.
  intros Hwf Hr Hst Hnin. destruct (wfq_proc _ _ _ Hwf _ _ Hr) as (Hok & _ & _).
  eapply (wfq_upd _ _ None); [done|done|done| |done| |done]; [|intros j Hj; split; congruence].
  apply proc_ok_state; [done|]. by rewrite Hst.
Qed.

(** the scheduler puts process [p], which has switched back, into its queue if
    it is still runnable *)
Definition requeued (t : ptable) (p : nat) (qs : list (list nat)) : list (list nat) :=
  if bool_decide (p_state <$> procs t !! p = Some RUNNABLE) then enq (procs t) qs p else qs.
(** what follows a [swtch] to process [p], with the queues [qs] and the
    clock at [tk]: when [p] comes back, it is put into its queue again *)
Definition serves (G : kstate → Prop) (R : kstate → kstate → Prop) (p : nat) (qs : list (list nat)) (tk : Z) (Q : kstate → Prop) : Prop :=
  ∀ s1, dispatched p s1 → wfq (k_pt s1) qs (Some p) → ticks_since_boost (k_pt s1) = tk →
    G s1 ∧ ∀ s2, R s1 s2 → returned p s2 ∧ ∀ qs2, wfq (k_pt s2) qs2 None → p ∉ concat qs2 →
      ∀ s', kinv None ∅ s' → wfq (k_pt s') (requeued (k_pt s2) p qs2) None →
        ticks_since_boost (k_pt s') = ticks_since_boost (k_pt s2) → Q s'.
(** after the process switched back *)
Lemma wp_scheduler_back G R p s (Q : option unit → kstate → Prop) :
  returned p s →
  (∀ qs s', wfq (k_pt s) qs None → p ∉ concat qs → kinv None ∅ s' → wfq (k_pt s') (requeued (k_pt s) p qs) None →
    ticks_since_boost (k_pt s') = ticks_since_boost (k_pt s) → Q (Some tt) s') →
  wp E G R ((upd_cpu (λ c, c <| c_proc := None |>) ;;
    let* st := rd p p_state in
    when (bool_decide (st = RUNNABLE)) (enqueue p) ;;
    release (p_lock p) ;; ret (Some tt)) s) Q.
Proof.
  intros (Hlk & Hcur & Hp & Hsv & qs & Hwf & Hnin & r & Hr & Hra) HQ. specialize (HQ qs).
  apply wp_bind. eapply wp_set_c_proc; [done|]. intros k Hk _ Hc.
  apply wp_bind. eapply wp_rd; [done|]. unfold requeued in HQ. rewrite Hr in HQ. cbn [fmap option_fmap option_map] in HQ.
  assert (Hfin : ∀ t, wfq t (if bool_decide (Some (p_state r) = Some RUNNABLE) then enq (procs (k_pt s)) qs p else qs) None →
    saved_ok None (k_saved s) t → ticks_since_boost t = ticks_since_boost (k_pt s) →
    wp E G R ((release (p_lock p) ;; ret (Some tt)) (s <| k_lk := k |> <| k_pt := t |>)) Q).
  { intros t Hwf' Hsv' Htk. apply wp_bind. eapply (wp_release_add _ _ _ _ _ ∅); [by rewrite (right_id_L ∅ (∪))|set_solver|].
    intros k1 Hk1 Hfr1. apply wp_done, HQ; [done|done| |done|done]. split; [done| |by eexists|done].
    rewrite <- Hc. by apply (cur_proc_frame k). }
  apply wp_bind. unfold when. destruct (decide (p_state r = RUNNABLE)) as [Hst|Hst].
  - rewrite bool_decide_true in Hfin by congruence. rewrite bool_decide_true by done.
    eapply wp_enqueue_wf; [done..|]. intros t Ht [Hcore Hrest]. eapply Hfin; [done|by eapply saved_ok_core|by apply (f_equal ticks_since_boost Hrest)].
  - rewrite bool_decide_false in Hfin by congruence. rewrite bool_decide_false by done.
    apply wp_done. by apply (Hfin (k_pt s)).
Qed.

(** the process taken from a queue is runnable, so it runs *)
Lemma wp_scheduler_run G R lvl p s qs (Q : option unit → kstate → Prop) :
  kinv None ∅ s → wfq (k_pt s) qs None → (p < NPROC)%nat → p ∉ concat qs →
  p_state <$> procs (k_pt s) !! p = Some RUNNABLE →
  serves G R p qs (ticks_since_boost (k_pt s)) (Q (Some tt)) →
  wp E G R (scheduler_run lvl p s) Q.
Proof.
  intros [Hlk Hcur _ Hsv] Hwf Hp Hnin Hst HQ. unfold scheduler_run.
  destruct (procs (k_pt s) !! p) as [r|] eqn:Hr; [|done]. apply (inj Some) in Hst.
  assert (Hlt : (p < length (procs (k_pt s)))%nat) by (by eapply lookup_lt_Some).
  apply wp_bind. eapply wp_acquire; [done|set_solver|]. intros k Hk Hfr.
  rewrite (right_id_L ∅ (∪)) in Hk.
  apply wp_bind. eapply wp_rd; [done|]. rewrite bool_decide_eq_true_2 by done.
  apply wp_bind. eapply wp_upd_stats; [done|set_solver|]. intros k1 Hk1 Hfr1.
  apply wp_bind. eapply wp_upd_proc; [done|].
  apply wp_bind. eapply wp_set_c_proc; [done|]. intros k2 Hk2 _ Hc2.
  apply wp_bind, wp_done. apply wp_bind. eapply wp_upd_proc; [by simpl; rewrite list_lookup_insert_eq|].
  match goal with |- wp _ _ _ (bind swtch _ ?x) _ => set (s1 := x) end.
  assert (Hsv' : saved_ok None (k_saved s1) (k_pt s1)).
  { eapply (saved_ok_same _ _ _ _ (r <| p_state := RUNNING |>));
      [|by simpl; rewrite list_lookup_insert_eq|done|done].
    eapply saved_ok_upd; [done..|]. intros _ Hc. left. split; [by rewrite Hst|done]. }
  assert (Hwf1 : wfq (k_pt s1) qs (Some p)).
  { eapply wfq_upd_same; [|by simpl; rewrite list_lookup_insert_eq|done| |done].
    + apply wfq_pick; [|done|done|done]. by eapply wfq_globals.
    + destruct (wfq_proc _ _ _ Hwf _ _ Hr) as (Hok & _ & _).
      apply (proc_ok_state r RUNNING); [done|]. by rewrite Hst. }
  destruct (HQ s1) as [HG HR]; [|done|done|].
  { split; [|done]. split; [done|done|by exists qs|by apply saved_ok_weaken]. }
  apply wp_bind, wp_swtch; [done|]. intros s2 Hs2. apply HR in Hs2 as [Hret HQ2].
  apply wp_scheduler_back; [done|]. intros qs2 s' ?????. by eapply (HQ2 qs2).
Qed.

Lemma wfq_head_notin t qs o lvl p q :
  wfq t qs o → qs !! lvl = Some (p :: q) → p ∉ concat (<[lvl := q]> qs).
Proof.
  intros Hwf Hq. destruct (wfq_rep _ _ _ Hwf) as (_ & Hnd & _).
  assert (Hc : ∀ q', concat (<[lvl := q']> qs) = concat (take lvl qs) ++ q' ++ concat (drop (S lvl) qs)).
  { intros q'. by rewrite insert_take_drop, concat_app by (by eapply lookup_lt_Some). }
  rewrite <- (list_insert_id qs lvl (p :: q)), Hc in Hnd by done. rewrite Hc.
  apply NoDup_app in Hnd as (_ & Hd & Hnd). simpl in Hnd, Hd. apply NoDup_cons in Hnd as [Hn _].
  intros [Hin|Hin]%elem_of_app; [|done]. apply (Hd p Hin). by left.
Qed.

(** The scan runs the head of the highest nonempty queue, and no other
    process; with all queues empty it does nothing. *)
Definition scanned (G : kstate → Prop) (R : kstate → kstate → Prop) (qs : list (list nat)) (tk : Z) (Q : kstate → Prop) : Prop :=
  ∀ lvl p q, (∀ j, (j < lvl)%nat → qs !! j = Some []) → qs !! lvl = Some (p :: q) → serves G R p (<[lvl := q]> qs) tk Q.
Lemma wp_scheduler_scan G R s qs (Q : option unit → kstate → Prop) :
  kinv None ∅ s → wfq (k_pt s) qs None →
  scanned G R qs (ticks_since_boost (k_pt s)) (Q (Some tt)) → (concat qs = [] → Q None s) →
  wp E G R (scheduler_scan s) Q.
Proof.
  intros Hinv Hwf HQ HN. pose proof Hinv as [Hlk Hcur _ Hsv]. destruct (wfq_rep _ _ _ Hwf) as (Hlen & _ & _).
  apply (wp_for_find _ _ _ _ _ (λ l s', s' = s ∧ ∀ j, j ∈ l → qs !! j = Some [])).
  - split; [done|]. set_solver.
  - intros dn lvl rst s' Heq [-> Hempty]. apply seq_middle in Heq as [-> Hlt].
    destruct (lookup_lt_is_Some_2 qs lvl) as [q Hq]; [lia|].
    apply wp_bind. eapply wp_dequeue_wf; [done..|]. destruct q as [|p q].
    + apply wp_done. split; [done|].
      intros j [Hj|Hj]%elem_of_app; [by apply Hempty|]. by apply list_elem_of_singleton in Hj as ->.
    + intros t Ht Hlk_only.
      assert (Hin : p ∈ concat qs) by (apply elem_of_concat; exists lvl, (p :: q); set_solver).
      destruct (qrep_lookup _ _ _ _ (wfq_rep _ _ _ Hwf) Hq) as (rq & _ & (_ & r & Hr & _) & _).
      destruct (wfq_proc _ _ _ Hwf _ _ Hr) as (_ & _ & Hrun).
      destruct (core_lookup _ _ _ _ (proj1 Hlk_only) Hr) as (r' & Hr' & Hc).
      eapply (wp_scheduler_run _ _ lvl p); [|done| | | |].
      * split; [done|done|by eexists|]. eapply saved_ok_core; [done|apply Hlk_only].
      * rewrite <- (wfq_len _ _ _ Hwf). by eapply lookup_lt_Some.
      * by eapply wfq_head_notin.
      * simpl. rewrite Hr'. simpl. f_equal. rewrite <- (Hrun Hin). apply (f_equal p_state Hc).
      * assert (Htk : ticks_since_boost t = ticks_since_boost (k_pt s)) by (apply (f_equal ticks_since_boost (proj2 Hlk_only))).
        simpl. rewrite Htk. apply (HQ lvl p q); [|done]. intros j Hj. apply Hempty, elem_of_seq. lia.
  - intros s' [-> Hall]. apply HN. apply concat_all_nil.
    intros j q Hj. rewrite (Hall j) in Hj; [by simplify_eq|].
    apply elem_of_seq. apply lookup_lt_Some in Hj. lia.
Qed.

(** the queues that one turn of the scheduler loop scans, and the process it
    runs *)
Definition turn_queues (t : ptable) (qs : list (list nat)) : list (list nat) :=
  if BOOST_INTERVAL <=? ticks_since_boost t then [runnables (procs t) all_procs; []; []; []] else qs.
Definition turn_ticks (t : ptable) : Z := if BOOST_INTERVAL <=? ticks_since_boost t then 0 else ticks_since_boost t.
Definition sched_choice (t : ptable) (qs : list (list nat)) : option nat :=
  if BOOST_INTERVAL <=? ticks_since_boost t then head (runnables (procs t) all_procs)
  else head (concat qs).

Lemma wp_scan_found G R s qs (Q : bool → kstate → Prop) :
  kinv None ∅ s → wfq (k_pt s) qs None →
  scanned G R qs (ticks_since_boost (k_pt s)) (Q true) → (∀ s', kinv None ∅ s' → concat qs = [] → Q false s') →
  wp E G R ((let* found := scheduler_scan in ret (bool_decide (found = Some tt))) s) Q.
Proof.
  intros Hinv Hwf HQ HN. apply wp_bind. eapply wp_scheduler_scan; [done..| |].
  - intros lvl p q H1 H2 s1 H3 H4 H5. destruct (HQ lvl p q H1 H2 s1 H3 H4 H5) as [HG HR]. split; [done|].
    intros s2 Hs2. destruct (HR s2 Hs2) as [Hret HQ2]. split; [done|]. intros qs2 H6 H7 s' H8 H9 H10. apply wp_done. by apply (HQ2 qs2 H6 H7).
  - intros Hnil. apply wp_done. by apply HN.
Qed.
Lemma wp_scheduler_turn G R s qs (Q : bool → kstate → Prop) :
  kinv None ∅ s → wfq (k_pt s) qs None →
  scanned G R (turn_queues (k_pt s) qs) (turn_ticks (k_pt s)) (Q true) →
  (∀ s', kinv None ∅ s' → concat (turn_queues (k_pt s) qs) = [] → Q false s') →
  wp E G R (scheduler_iter s) Q.
Proof.
  intros [Hlk Hcur _ Hsv] Hwf HQ HN. unfold scheduler_iter.
  assert (Hl : length (runqueues (k_pt s)) = MLFQ_LEVELS).
  { destruct (wfq_rep _ _ _ Hwf) as (<- & _ & Hf). by eapply Forall2_length. }
  apply wp_bind. eapply wp_intr_on_free; [done|]. intros k1 Hk1 Hf1.
  apply wp_bind. eapply wp_intr_off_free; [done|]. intros k2 Hk2 Hf2.
  apply wp_bind. eapply wp_acquire; [done|set_solver|]. intros k3 Hk3 Hf3.
  apply wp_bind, wp_done, wp_bind, wp_done, wp_bind, wp_done, wp_bind, wp_done.
  apply wp_bind. eapply wp_release_add; [exact Hk3|set_solver|]. intros k4 Hk4 Hf4.
  assert (Hc4 : cur_proc k4 = None) by (rewrite <- Hcur; apply cur_proc_frame; lk_frames).
  apply wp_bind, wp_done, wp_bind. simpl. unfold when, turn_queues, turn_ticks in *.
  destruct (BOOST_INTERVAL <=? ticks_since_boost (k_pt s)) eqn:Hb.
  - apply wp_bind. eapply (wp_priority_boost _ _ _ _ ∅); [apply (wfq_len _ _ _ Hwf)|done|done|set_solver|].
    intros k5 t Hk5 Hf5 Hrep Hcore Hrest. simpl in Hrep, Hcore.
    eapply (wp_upd_stats _ _ _ _ _ ∅); [done|set_solver|]. intros k6 Hk6 Hf6.
    assert (Hwf' : wfq t [runnables (procs (k_pt s)) all_procs; []; []; []] None)
      by (by apply (wfq_boost (k_pt s) t qs)).
    assert (Hwf2 : wfq (t <| scheduler_stats ::= λ x, x <| total_boosts ::= λ n, u64 (n + 1) |> |>)
      [runnables (procs (k_pt s)) all_procs; []; []; []] None) by (by eapply wfq_globals).
    assert (Htk : ticks_since_boost t = 0) by (apply (f_equal ticks_since_boost Hrest)).
    eapply wp_scan_found; [|exact Hwf2|simpl; by rewrite Htk|done]. split; [done| |by eexists|by eapply saved_ok_boost].
    rewrite <- Hc4. apply cur_proc_frame. lk_frames.
  - apply wp_done. eapply (wp_scan_found _ _ _ qs); [|by eapply wfq_globals|done|done].
    split; [done|done|exists qs; by eapply wfq_globals|done].
Qed.

(** the contract when the scheduler may run only the process [o] *)
Definition wp_picks (o : option nat) {A} (m : res kstate A) (Q : A → kstate → Prop) : Prop :=
  wp E (λ s, ∃ p, o = Some p ∧ dispatched p s) (λ _ s', ∃ p, o = Some p ∧ returned p s') m Q.
Lemma sched_choice_head t qs : sched_choice t qs = head (concat (turn_queues t qs)).
Proof. unfold sched_choice, turn_queues. case_match; [|done]. simpl. by rewrite app_nil_r. Qed.
Lemma wp_scheduler_iter s qs (Q : bool → kstate → Prop) :
  kinv None ∅ s → wfq (k_pt s) qs None →
  (∀ s', kinv None ∅ s' → Q (bool_decide (is_Some (sched_choice (k_pt s) qs))) s') →
  wp_picks (sched_choice (k_pt s) qs) (scheduler_iter s) Q.
Proof.
  intros Hinv Hwf HQ. rewrite sched_choice_head in HQ |- *. eapply wp_scheduler_turn; [done..| |].
  - intros lvl p q Hj Hq s1 Hd _ _. rewrite (head_concat _ lvl p q) in HQ |- * by done. split; [by exists p|].
    intros s2 (? & [= <-] & Hr). split; [done|]. intros qs2 _ _ s' Hs' _ _. specialize (HQ s' Hs'). by rewrite bool_decide_eq_true_2 in HQ.
  - intros s' Hs' Hnil. specialize (HQ s' Hs'). by rewrite Hnil in HQ.
Qed.

(** the scheduler loop keeps its contract with whatever process it runs *)
Lemma wp_picks_thread o {A} (m : res kstate A) Q : wp_picks o m Q → wp_sched_thread E m Q.
Proof.
  apply wp_conseq; [done|naive_solver|].
  intros s s' (p & -> & Hr) (p' & Hc & Hp). exists p.
  rewrite (kinv_cur _ _ _ (proj1 Hr)) in Hc. by simplify_eq.
Qed.

Lemma wp_scheduler_iter_kinv s (Q : bool → kstate → Prop) :
  kinv None ∅ s → (∀ b s', kinv None ∅ s' → Q b s') → wp_sched_thread E (scheduler_iter s) Q.
Proof.
  intros Hinv HQ. pose proof Hinv as [_ _ (qs & Hwf) _].
  eapply wp_picks_thread, wp_scheduler_iter; [done..|]. eauto.
Qed.
End scheduler.

(** ** Deciding the invariant on a concrete table *)

#[export] Instance proc_ok_dec r : Decision (proc_ok r).
Proof. unfold proc_ok, level_ok. apply _. Defined.

Definition wfq_entry (qs : list (list nat)) (o : option nat) (ir : nat * proc) : Prop :=
  proc_ok ir.2 ∧ (p_state ir.2 = RUNNING ↔ o = Some ir.1) ∧
  (ir.1 ∈ concat qs → p_state ir.2 = RUNNABLE).
Lemma wfq_check t qs o :
  length (procs t) = NPROC → qrep t qs → from_option (λ i, (i < NPROC)%nat) True o →
  bool_decide (Forall (wfq_entry qs o) (imap pair (procs t))) = true → wfq t qs o.
Proof.
  intros Hlen Hrep Ho Hall%bool_decide_eq_true_1. split; [done|done|by intros i ->|].
  intros i r Hi. rewrite Forall_lookup in Hall. apply (Hall i (i, r)).
  by rewrite list_lookup_imap, Hi.
Qed.

Lemma saved_check x X t :
  bool_decide (Forall (λ r, ctx_ra (p_context r) ≠ ra_sched) (procs t)) = true → saved_ok x X t.
Proof.
  intros Hall%bool_decide_eq_true_1 i r Hi _ Hc. rewrite Forall_lookup in Hall. by destruct (Hall _ _ Hi).
Qed.

(** ** Properties *)

(** a table with process 3 runnable at level 1, process 4 asleep until a
    tick, and process 5 runnable at level 2 *)
Definition demo_proc : proc := proc0 <| p_context := mk_context ra_forkret 0 |>.
Definition demo_procs : list proc :=
  <[3%nat := demo_proc <| p_state := RUNNABLE |> <| p_pid := 3 |> <| p_queue_level := 1 |>]>
  (<[4%nat := demo_proc <| p_state := SLEEPING |> <| p_pid := 4 |> <| p_chan := Some ch_ticks |>]>
  (<[5%nat := demo_proc <| p_state := RUNNABLE |> <| p_pid := 5 |> <| p_queue_level := 2 |>]>
   (replicate NPROC proc0))).
Definition demo_state : kstate :=
  kstate0 <| k_pt ::= λ t, t <| procs := demo_procs |>
    <| runqueues := [mk_runqueue None None; mk_runqueue (Some 3%nat) (Some 3%nat);
                     mk_runqueue (Some 5%nat) (Some 5%nat); mk_runqueue None None] |> |>.
Ltac solve_qrep :=
  split; [done|split; [apply (bool_decide_unpack _); by vm_compute|repeat constructor; eexists; by split]].
Lemma demo_qrep : qrep (k_pt demo_state) [[]; [3%nat]; [5%nat]; []].
Proof. solve_qrep. Qed.
Lemma demo_wfq : wfq (k_pt demo_state) [[]; [3%nat]; [5%nat]; []] None.
Proof. apply wfq_check; [done|apply demo_qrep|done|by vm_compute]. Qed.
Lemma demo_kinv : kinv None ∅ demo_state.
Proof. split; [apply lockinv0|done|eexists; apply demo_wfq|]. apply saved_check. by vm_compute. Qed.
(** the same with process 4 running *)
Definition demo_running : kstate :=
  demo_state <| k_lk ::= λ k, k <| lk_cpus ::= <[0%nat := mk_cpu (Some 4%nat) 0 0]> |> |>
    <| k_pt ::= λ t, t <| procs ::= alter (λ r, r <| p_state := RUNNING |> <| p_chan := None |>) 4%nat |> |>.
Lemma demo_running_kinv : kinv (Some 4%nat) ∅ demo_running.
Proof.
  split; [|done| |].
  - exists false, (mk_cpu (Some 4%nat) 0 0), 0. split_and!; by try intros l.
  - exists [[]; [3%nat]; [5%nat]; []]. apply wfq_check; [done| |by simpl; compute; lia|by vm_compute].
    split_and!; [done|apply (bool_decide_unpack _); by vm_compute|].
    repeat constructor; eexists; by split.
  - apply saved_check. by vm_compute.
Qed.

Abbreviation no_stop := (λ _ : stop, False).

(** C2: one turn of the scheduler loop runs exactly the process the policy
    chooses: the head of the highest nonempty queue, or, when a boost is due,
    the first runnable process of the table; when it switches, that process is
    the only [RUNNING] one, its lock is the only one held, and it is in no
    queue.  When the process comes back as promised, the loop ends its turn
    with no lock held, no process running and well-formed queues; it never
    panics, and it reports whether a process ran. *)
Theorem scheduler_runs_choice s qs :
  kinv None ∅ s → wfq (k_pt s) qs None →
  wp no_stop (λ s1, ∃ p, sched_choice (k_pt s) qs = Some p ∧ dispatched p s1)
    (λ _ s2, ∃ p, sched_choice (k_pt s) qs = Some p ∧ returned p s2)
    (scheduler_iter s)
    (λ b s', b = bool_decide (is_Some (sched_choice (k_pt s) qs)) ∧ kinv None ∅ s').
Proof. intros. by apply (wp_scheduler_iter no_stop s qs). Qed.
Lemma scheduler_runs_choice_witness :
  ∃ s1 k, scheduler_iter demo_state = Swtch s1 k ∧ dispatched 3 s1.
Proof.
  destruct (wp_switches _ _ _ _ _ (scheduler_runs_choice demo_state [[]; [3%nat]; [5%nat]; []]
    demo_kinv demo_wfq)) as (s1 & k & He & p & Hp & Hr); [by vm_compute|].
  assert (Hc : sched_choice (k_pt demo_state) [[]; [3%nat]; [5%nat]; []] = Some 3%nat) by (by vm_compute).
  rewrite Hc in Hp. injection Hp as <-. exists s1, k. exact (conj He Hr).
Defined.


(** C15: [sleep] releases the condition lock while it sleeps and holds it again
    when it returns; it never panics, for any channel and any lock but the
    process's own. *)
Theorem sleep_keeps_contract p c lk s :
  kinv (Some p) {[lk]} s → lk ≠ p_lock p →
  wp_proc no_stop p (sleep c lk s) (λ _, kinv (Some p) {[lk]}).
Proof. intros. by apply wp_sleep. Qed.
Definition demo_ticks : kstate :=
  demo_running <| k_lk ::= λ k, k <| lk_cpus ::= <[0%nat := mk_cpu (Some 4%nat) 1 0]> |>
    <| lk_locks := {[tickslock := mk_spinlock 1 (Some 0%nat)]} |> |>.
Lemma demo_ticks_kinv : kinv (Some 4%nat) {[tickslock]} demo_ticks.
Proof.
  split; [|done| |].
  - exists false, (mk_cpu (Some 4%nat) 1 0), 0. split_and!; [done|done|by split|].
    intros l. unfold lock_of. simpl. destruct (decide (l = tickslock)) as [->|].
    + by rewrite lookup_singleton_eq, decide_True by set_solver.
    + by rewrite lookup_singleton_ne, decide_False by set_solver.
  - apply demo_running_kinv.
  - apply demo_running_kinv.
Qed.
Lemma sleep_keeps_contract_witness :
  ∃ s1 k, sleep ch_ticks tickslock demo_ticks = Swtch s1 k ∧ parked 4 s1.
Proof.
  apply (wp_switches _ _ _ _ _ (sleep_keeps_contract 4 ch_ticks tickslock demo_ticks demo_ticks_kinv ltac:(done))).
  by vm_compute.
Defined.

(** C16: [wakeup c] makes exactly the processes that sleep on [c] runnable,
    other than the caller, appends them in table order to the queues of their
    levels, and changes nothing else. *)
Theorem wakeup_exact o H c s qs :
  lockinv H (k_lk s) → cur_proc (k_lk s) = o → wfq (k_pt s) qs o → (∀ i, p_lock i ∉ H) →
  runs (wakeup c s) (λ _ s', ∃ k t, s' = s <| k_lk := k |> <| k_pt := t |> ∧ lockinv H k ∧
    wfq t (wake_queues c o (procs (k_pt s)) qs all_procs) o ∧ same_rest (k_pt s) t ∧
    ∀ i, core <$> procs t !! i = core ∘ wake_proc c o i <$> procs (k_pt s) !! i).
Proof.
  intros Hlk Hcur Hwf Hpl. apply runs_wp.
  eapply (wp_wakeup _ _ _ H c s qs); [apply (wfq_len _ _ _ Hwf)|done|done|apply (wfq_rep _ _ _ Hwf)| |].
  { intros i r. by apply (wfq_wakeable _ _ o). }
  rewrite Hcur. intros s' Hs'. pose proof (wfq_wake _ _ _ _ _ _ Hwf Hs') as Hwf'.
  destruct Hs' as (k & t & -> & Hk & _ & _ & Hrest & Hcore). exists k, t.
  split_and!; [done|done|done|done|]. intros i. rewrite Hcore.
  destruct (procs (k_pt s) !! i) as [r|] eqn:Hi; simpl; [|done].
  rewrite decide_True; [done|]. apply elem_of_seq. apply lookup_lt_Some in Hi.
  rewrite (wfq_len _ _ _ Hwf) in Hi. lia.
Qed.
Lemma wakeup_exact_witness :
  runs (wakeup (Some ch_ticks) demo_state) (λ _ s', wfq (k_pt s') [[4%nat]; [3%nat]; [5%nat]; []] None).
Proof.
  destruct (wakeup_exact None ∅ (Some ch_ticks) demo_state _ lockinv0 eq_refl demo_wfq)
    as (u & s' & Hrun & k & t & -> & _ & Hwf & _); [set_solver|].
  exists u. eexists. split; [exact Hrun|].
  assert (Hq : wake_queues (Some ch_ticks) None (procs (k_pt demo_state)) [[]; [3%nat]; [5%nat]; []] all_procs
             = [[4%nat]; [3%nat]; [5%nat]; []]) by (by vm_compute).
  by rewrite <- Hq.
Defined.

(** C19: [kkill] marks the process with the given pid, makes it runnable if it
    sleeps, and puts it in no queue: the queues are the same lists as before,
    and a sleeping victim, although [RUNNABLE], is in none of them. *)
Theorem kkill_leaves_unqueued o H pid s qs i r :
  lockinv H (k_lk s) → cur_proc (k_lk s) = o → wfq (k_pt s) qs o → (∀ i, p_lock i ∉ H) →
  list_find (λ r, p_pid r = pid) (procs (k_pt s)) = Some (i, r) → p_state r = SLEEPING →
  runs (kkill pid s) (λ v s', v = 0 ∧ wfq (k_pt s') qs o ∧ (i ∉ concat qs) ∧
    procs (k_pt s') !! i = Some (r <| p_killed := 1 |> <| p_state := RUNNABLE |>)).
Proof.
  intros Hlk Hcur Hwf Hpl Hf Hst. apply runs_wp.
  eapply wp_kkill; [apply (wfq_len _ _ _ Hwf)|done|done|]. intros k Hk Hfr. rewrite Hf.
  apply list_find_Some in Hf as (Hi & _ & _). destruct (wfq_proc _ _ _ Hwf _ _ Hi) as (Hok & Hrun & Hq).
  assert (Hkp : kill_proc r = r <| p_killed := 1 |> <| p_state := RUNNABLE |>).
  { unfold kill_proc. by rewrite decide_True. }
  rewrite Hkp. split_and!; [done| | |].
  - apply (wfq_upd (k_pt s) qs o o i r); try done.
    + rewrite <- Hkp. by apply kill_proc_ok.
    + simpl. rewrite <- Hrun, Hst. done.
  - intros Hin. rewrite Hq in Hst; done.
  - simpl. rewrite list_lookup_insert_eq; [done|]. by eapply lookup_lt_Some.
Qed.
Lemma kkill_leaves_unqueued_witness :
  runs (kkill 4 demo_state) (λ v s', v = 0 ∧ wfq (k_pt s') [[]; [3%nat]; [5%nat]; []] None).
Proof.
  edestruct (kkill_leaves_unqueued None ∅ 4 demo_state) as (v & s' & Hrun & Hv & Hwf & _);
    [apply lockinv0|done|apply demo_wfq|set_solver|by vm_compute|done|].
  exists v, s'. exact (conj Hrun (conj Hv Hwf)).
Defined.

