(* ===== verification/Fairness.v ===== *)
(** * No process starves

    The scheduler serves queue 0 in order, and a priority boost puts every
    runnable process there.  So a process that is runnable when a boost is due
    runs within [NPROC] turns of the scheduler loop of [kernel/proc.c], as long
    as the processes that run before it come back. *)

From S2P Require Import Prelude Kstate Spinlock Runqueue Sched SchedInv.
#[local] Open Scope Z_scope.

(** processes have been put at the ends of the queues *)
Definition appends (qs qs' : list (list nat)) : Prop := ∀ l q, qs !! l = Some q → ∃ q', qs' !! l = Some (q ++ q').
(** process [p], which was given the hart in [s1], gives it back in [s2], and
    has woken up or made other processes in between *)
Definition comes_back (p : nat) (s1 s2 : kstate) : Prop :=
  returned p s2 ∧ ∀ qs qs', wfq (k_pt s1) qs (Some p) → wfq (k_pt s2) qs' None → appends qs qs'.
(** interrupts between two turns of the scheduler; the next boost is not yet due *)
Definition idles (s s' : kstate) : Prop :=
  kinv None ∅ s' ∧ ticks_since_boost (k_pt s') < BOOST_INTERVAL ∧
  ∀ qs qs', wfq (k_pt s) qs None → wfq (k_pt s') qs' None → appends qs qs'.

(** process [x] gets the hart within [n] turns of the scheduler loop: a turn
    switches to a process [p]; if that is another one, the turn ends when [p]
    comes back, and [x] gets the hart within the turns that are left *)
Fixpoint runs_within (n : nat) (x : nat) (s : kstate) : Prop :=
  match n with
  | O => False
  | S n => ∃ p, (∃ s1 k, scheduler_iter s = Swtch s1 k) ∧
      wp no_stop (dispatched p) (λ s1 s2, p ≠ x ∧ comes_back p s1 s2) (scheduler_iter s)
        (λ b s3, b = true ∧ ∀ s4, idles s3 s4 → runs_within n x s4)
  end.

Lemma appends_refl qs : appends qs qs.
Proof. intros l q Hq. exists []. by rewrite app_nil_r. Qed.
Lemma appends_trans qs1 qs2 qs3 : appends qs1 qs2 → appends qs2 qs3 → appends qs1 qs3.
Proof. intros H1 H2 l q Hq. destruct (H1 l q Hq) as (q1 & Hq1). destruct (H2 _ _ Hq1) as (q2 & Hq2). exists (q1 ++ q2). by rewrite app_assoc. Qed.
Lemma appends_enq ps qs p : appends qs (enq ps qs p).
Proof.
  intros l q Hq. unfold enq. destruct (ps !! p) as [r|]; [|by apply appends_refl].
  destruct (decide (l = Z.to_nat (p_queue_level r))) as [->|Hne].
  - exists [p]. by rewrite list_lookup_alter_eq, Hq.
  - exists []. by rewrite list_lookup_alter_ne, app_nil_r.
Qed.
Lemma appends_requeued t qs p : appends qs (requeued t p qs).
Proof. unfold requeued. case_bool_decide; [apply appends_enq|apply appends_refl]. Qed.

Lemma runs_within_mono n m x s : (n ≤ m)%nat → runs_within n x s → runs_within m x s.
Proof.
  revert m s. induction n as [|n IH]; intros m s Hm; [done|]. destruct m as [|m]; [lia|].
  intros (p & Hs & Hw). exists p. split; [done|]. eapply wp_mono; [|exact Hw]. intros b s3 [-> H]. split; [done|]. intros s4 Hs4. apply IH; [lia|by apply H].
Qed.

(** the process at place [n] of queue 0, after a boost that may be due, runs
    within [n + 1] turns *)
Lemma queue_served n x : ∀ s qs q, kinv None ∅ s → wfq (k_pt s) qs None → turn_queues (k_pt s) qs !! 0%nat = Some q → q !! n = Some x →
  runs_within (S n) x s.
Proof.
  induction n as [|n IH]; intros s qs q Hinv Hwf Hq Hx; (destruct q as [|p q]; [done|]); cbn [lookup list_lookup] in Hx.
  all: assert (Hfirst : ∀ lvl p' q' (P : Prop), (∀ j, (j < lvl)%nat → turn_queues (k_pt s) qs !! j = Some []) →
    turn_queues (k_pt s) qs !! lvl = Some (p' :: q') → (lvl = 0%nat → p' = p → q' = q → P) → P)
    by (intros [|lvl] p' q' P Hj Hlvl HP; [rewrite Hq in Hlvl; injection Hlvl as <- <-; by apply HP|by rewrite (Hj 0%nat) in Hq by lia]).
  all: assert (Hne : concat (turn_queues (k_pt s) qs) ≠ [])
    by (intros Hnil; assert (Hin : p ∈ concat (turn_queues (k_pt s) qs)) by (apply elem_of_concat; exists 0%nat, (p :: q); split; [done|left]); rewrite Hnil in Hin; by apply elem_of_nil in Hin).
  all: assert (Hsw : ∃ s1 k, scheduler_iter s = Swtch s1 k)
    by (assert (Hw : wp no_stop (λ _, True) (λ _ _, False) (scheduler_iter s) (λ _ _, False));
        [eapply wp_scheduler_turn; [done..|by intros lvl p' q' _ _ s1 _ _ _; split|done]|]; destruct (scheduler_iter s) as [| |s1 k]; [done|done|by exists s1, k]).
  all: exists p; (split; [done|]).
  - injection Hx as ->. eapply wp_scheduler_turn; [done..| |done]. intros lvl p' q' Hj Hlvl. eapply Hfirst; [done..|]. intros -> -> -> s1 Hd _ _. split; [done|]. by intros s2 [? _].
  - eapply wp_scheduler_turn; [done..| |done]. intros lvl p' q' Hj Hlvl. eapply Hfirst; [done..|]. intros -> -> -> s1 Hd Hwf1 Htk. split; [done|].
    intros s2 (Hpx & Hret & Happ). split; [done|]. intros qs2 Hwf2 Hnin s3 Hinv3 Hwf3 Htk3. split; [done|]. intros s4 (Hinv4 & Hlt & Happ4).
    pose proof Hinv4 as [_ _ (qs4 & Hwf4) _].
    assert (Hall : appends (<[0%nat := q]> (turn_queues (k_pt s) qs)) qs4).
    { eapply appends_trans; [by apply Happ|]. eapply appends_trans; [apply appends_requeued|by apply Happ4]. }
    destruct (Hall 0%nat q) as (q4 & Hq4); [apply list_lookup_insert_eq; by eapply lookup_lt_Some|].
    eapply (IH s4 qs4 (q ++ q4)); [done|done| |by apply lookup_app_l_Some].
    unfold turn_queues. by rewrite (proj2 (Z.leb_gt _ _)).
Qed.

Lemma runnables_length ps : (length (runnables ps all_procs) ≤ NPROC)%nat.
Proof. unfold runnables. pose proof (length_filter (λ i, p_state <$> ps !! i = Some RUNNABLE) all_procs) as H. unfold all_procs in H at 2. by rewrite length_seq in H. Qed.

(** ** Processes that come back

    What [comes_back] asks of a process holds for one that yields, having
    woken up others. *)

Lemma chain_unique ps h q q' : chain ps h q → chain ps h q' → q = q'.
Proof.
  revert h q'. induction q as [|i q IH]; intros h q'; destruct q' as [|i' q']; cbn; [done|..].
  - intros -> [? _]. done.
  - intros [-> _] ?. done.
  - intros [-> (r & Hr & Hc)] [[= <-] (r' & Hr' & Hc')]. simplify_eq. f_equal. by eapply IH.
Qed.
Lemma wfq_unique t qs qs' o o' : wfq t qs o → wfq t qs' o' → qs = qs'.
Proof.
  intros [_ (_ & _ & H1) _ _] [_ (_ & _ & H2) _ _]. revert qs' H2. induction H1 as [|rq q rqs qs [Hc _] _ IH]; intros qs' H2; inversion H2 as [|? q' ? ? [Hc' _] H2']; subst; [done|].
  f_equal; [by eapply chain_unique|by apply IH].
Qed.
Lemma appends_wake c me ps l : ∀ qs, appends qs (wake_queues c me ps qs l).
Proof.
  unfold wake_queues. induction l as [|i l IH]; intros qs; [apply appends_refl|]. cbn. eapply appends_trans; [|apply IH].
  case_match; [apply appends_enq|apply appends_refl].
Qed.
Lemma wakeup_appends o H c s qs : lockinv H (k_lk s) → cur_proc (k_lk s) = o → wfq (k_pt s) qs o → (∀ i, p_lock i ∉ H) →
  runs (wakeup c s) (λ _ s', ∀ qs', wfq (k_pt s') qs' o → appends qs qs').
Proof.
  intros Hlk Hcur Hwf Hpl. apply runs_wp.
  eapply (wp_wakeup _ _ _ H c s qs); [apply (wfq_len _ _ _ Hwf)|done|done|apply (wfq_rep _ _ _ Hwf)| |].
  { intros i r. by apply (wfq_wakeable _ _ o). }
  rewrite Hcur. intros s' Hs' qs' Hwf'. pose proof (wfq_wake _ _ _ _ _ _ Hwf Hs') as Hw. rewrite (wfq_unique _ _ _ _ _ Hwf' Hw). apply appends_wake.
Qed.
(** the process, which left the queues as they were, or appended to them,
    yields *)
Lemma yield_comes_back p s1 s : dispatched p s1 → kinv (Some p) ∅ s →
  (∀ qs qs', wfq (k_pt s1) qs (Some p) → wfq (k_pt s) qs' (Some p) → appends qs qs') →
  ∃ s2 k, yield s = Swtch s2 k ∧ parked p s2 ∧ ∀ s2', k_pt s2' = k_pt s2 → returned p s2' → comes_back p s1 s2'.
Proof.
  intros Hd Hs Happ. pose proof Hs as [_ _ (qs & Hwf) _]. assert (Hp : (p < NPROC)%nat) by (by eapply wfq_cur).
  destruct (wfq_lookup _ _ _ _ Hwf Hp) as [r Hr].
  assert (Hw : wp no_stop (λ s2, parked p s2 ∧ wfq (k_pt s2) qs None) (λ _ _, False) (yield s) (λ _ _, False)).
  { eapply (wp_yield_at no_stop p); [done|done|]. intros k s2 Hpk. split; [|done]. split; [done|].
    destruct (wfq_proc _ _ _ Hwf _ _ Hr) as ((Hlv & Htm & Hra) & Hrun & _). destruct Hpk as (_ & _ & _ & _ & _ & _ & _ & r2 & Hr2 & Hc2).
    eapply (wfq_upd _ _ (Some p)); [exact Hwf|exact Hr|done| |done|naive_solver|done]. split; [exact Hlv|split; [exact Htm|done]]. }
  destruct (yield s) as [| |s2 k]; [done|done|]. destruct Hw as [[Hpk Hwf2] _]. exists s2, k. split; [done|split; [done|]].
  intros s2' Heq Hret. split; [done|]. intros qs1 qs2 H1 H2. rewrite Heq in H2. rewrite (wfq_unique _ _ _ _ _ H2 Hwf2). by apply Happ.
Qed.

(** C33: no process starves.  When a priority boost is due, every process that
    is [RUNNABLE], in whatever queue or in none, is given the hart within [NPROC]
    turns of the scheduler loop, as long as each process that runs before it
    comes back with its promise to the scheduler kept, other processes are only put at the
    ends of the queues meanwhile, and the next boost is not due before. *)
Theorem mlfq_no_starvation x s : kinv None ∅ s → p_state <$> procs (k_pt s) !! x = Some RUNNABLE →
  BOOST_INTERVAL ≤ ticks_since_boost (k_pt s) → runs_within NPROC x s.
Proof.
  intros Hinv Hx Hb. pose proof Hinv as [_ _ (qs & Hwf) _].
  assert (Hin : x ∈ runnables (procs (k_pt s)) all_procs).
  { apply list_elem_of_filter. split; [done|]. destruct (procs (k_pt s) !! x) as [r|] eqn:Hr; [|done]. apply elem_of_seq.
    apply lookup_lt_Some in Hr. rewrite (wfq_len _ _ _ Hwf) in Hr. lia. }
  apply list_elem_of_lookup in Hin as [n Hn]. pose proof (lookup_lt_Some _ _ _ Hn). pose proof (runnables_length (procs (k_pt s))).
  apply (runs_within_mono (S n)); [lia|]. eapply queue_served; [done|done| |exact Hn].
  unfold turn_queues. by rewrite (proj2 (Z.leb_le _ _)).
Qed.
Lemma mlfq_no_starvation_witness : runs_within NPROC 5 (demo_state <| k_pt ::= λ t, t <| ticks_since_boost := 100 |> |>).
Proof.
  apply mlfq_no_starvation; [|done|done]. pose proof demo_kinv as [H1 H2 _ H4].
  split; [done|done| |done]. exists [[]; [3%nat]; [5%nat]; []]. eapply wfq_globals; [exact demo_wfq|done..].
Defined.
