(* ===== verification/Bytes.v ===== *)
(** * Byte stores and [kernel/string.c]

    The C code applies the functions of [kernel/string.c] both to physical
    memory and to arrays inside kernel objects.  [Bytes] is the interface of a
    store of bytes; memory ([gmap Z Z]) and arrays ([list Z], at offset 0) are
    its two instances.  A [None] is an access outside of the store.  [char] is
    unsigned on RISC-V, so a byte is a [Z] between 0 and 255. *)

From stdpp Require Import list_numbers.
From S2P Require Import Prelude.
#[local] Open Scope Z_scope.

Class Bytes (B : Type) := {
  byte_at : B → Z → option Z;
  put_byte : B → Z → Z → option B;
  extent : B → nat                      (* a bound on the number of bytes *)
}.
Class BytesLaws (B : Type) `{!Bytes B} := {
  put_byte_some b a v : is_Some (byte_at b a) → is_Some (put_byte b a v);
  byte_at_put b a v b' a' :
    put_byte b a v = Some b' → byte_at b' a' = if decide (a' = a) then Some v else byte_at b a';
  extent_bound b a (n : nat) :
    (∀ i, 0 ≤ i < Z.of_nat n → is_Some (byte_at b (a + i))) → (n ≤ extent b)%nat
}.

(** ** The code *)

Section string.
Context {B : Type} `{!Bytes B}.
#[local] Notation "'let?' x := m 'in' k" := (match m with Some x => k | None => None end)
  (at level 10, x pattern, m at level 200, k at level 200).

(** the loop of [memset]; [n] iterations are left *)
Fixpoint memset_loop (b : B) (cdst c i : Z) (n : nat) : option B :=
  match n with
  | O => Some b
  | S n => let? b := put_byte b (cdst + i) (u8 c) in memset_loop b cdst c (i + 1) n
  end.
Definition memset (b : B) (dst c n : Z) : option B :=
  memset_loop b dst c 0 (Z.to_nat (u32 n)).

(** the two loops of [memmove] *)
Fixpoint memmove_up (b : B) (d s : Z) (n : nat) : option B :=
  match n with
  | O => Some b
  | S n => let? x := byte_at b s in
           let? b := put_byte b d x in
           memmove_up b (d + 1) (s + 1) n
  end.
Fixpoint memmove_down (b : B) (d s : Z) (n : nat) : option B :=
  match n with
  | O => Some b
  | S n => let? x := byte_at b (s - 1) in
           let? b := put_byte b (d - 1) x in
           memmove_down b (d - 1) (s - 1) n
  end.
Definition memmove (b : B) (dst src n : Z) : option B :=
  let n := u32 n in
  if n =? 0 then Some b else
  if (src <? dst) && (dst <? src + n)
  then memmove_down b (dst + n) (src + n) (Z.to_nat n)
  else memmove_up b dst src (Z.to_nat n).

(** [s[n]] for [n] from the given index on; [fuel] exceeds the store's size *)
Fixpoint strlen_loop (b : B) (s n : Z) (fuel : nat) : option Z :=
  match fuel with
  | O => None
  | S fuel => let? x := byte_at b (s + n) in
              if x =? 0 then Some n else strlen_loop b s (n + 1) fuel
  end.
Definition strlen (b : B) (s : Z) : option Z := strlen_loop b s 0 (S (extent b)).

(** Functions of two strings; the strings may be in different stores. *)
Context {B' : Type} `{!Bytes B'}.

Fixpoint memcmp_loop (b : B) (b' : B') (s1 s2 : Z) (n : nat) : option Z :=
  match n with
  | O => Some 0
  | S n => let? x := byte_at b s1 in
           let? y := byte_at b' s2 in
           if negb (x =? y) then Some (x - y) else memcmp_loop b b' (s1 + 1) (s2 + 1) n
  end.
Definition memcmp (b : B) (v1 : Z) (b' : B') (v2 n : Z) : option Z :=
  memcmp_loop b b' v1 v2 (Z.to_nat (u32 n)).

Fixpoint strncmp_loop (b : B) (b' : B') (p q : Z) (n : nat) : option Z :=
  match n with
  | O => Some 0
  | S n => let? x := byte_at b p in
           if x =? 0 then let? y := byte_at b' q in Some (x - y) else
           let? y := byte_at b' q in
           if x =? y then strncmp_loop b b' (p + 1) (q + 1) n else Some (x - y)
  end.
Definition strncmp (b : B) (p : Z) (b' : B') (q n : Z) : option Z :=
  strncmp_loop b b' p q (Z.to_nat (u32 n)).

(** [strncpy]: the second loop, then the first, which goes on to it *)
Fixpoint strncpy_pad (b : B) (s : Z) (n : nat) : option B :=
  match n with
  | O => Some b
  | S n => let? b := put_byte b s 0 in strncpy_pad b (s + 1) n
  end.
Fixpoint strncpy_loop (b : B) (s : Z) (b' : B') (t : Z) (n : nat) : option B :=
  match n with
  | O => Some b
  | S n => let? x := byte_at b' t in
           let? b := put_byte b s x in
           if negb (x =? 0) then strncpy_loop b (s + 1) b' (t + 1) n
           else strncpy_pad b (s + 1) n
  end.
Definition strncpy (b : B) (s : Z) (b' : B') (t n : Z) : option B :=
  strncpy_loop b s b' t (Z.to_nat n).

(** the loop of [safestrcpy], which is entered with [--n] *)
Fixpoint safestrcpy_loop (b : B) (s : Z) (b' : B') (t : Z) (n : nat) : option B :=
  match n with
  | O => put_byte b s 0
  | S n => let? x := byte_at b' t in
           let? b := put_byte b s x in
           if negb (x =? 0) then safestrcpy_loop b (s + 1) b' (t + 1) n
           else put_byte b (s + 1) 0
  end.
Definition safestrcpy (b : B) (s : Z) (b' : B') (t n : Z) : option B :=
  if n <=? 0 then Some b else safestrcpy_loop b s b' t (Z.to_nat (n - 1)).
End string.

(** ** The two instances *)

#[export] Instance bytes_mem : Bytes (gmap Z Z) := {
  byte_at m a := m !! a;
  put_byte m a v := match m !! a with Some _ => Some (<[a := v]> m) | None => None end;
  extent m := size m
}.
#[export] Instance bytes_mem_laws : BytesLaws (gmap Z Z).
Proof.
  split; simpl.
  - intros m a v [x ->]. eauto.
  - intros m a v m' a'. destruct (m !! a); intros [= <-]. rewrite lookup_insert.
    repeat case_decide; congruence.
  - intros m a n H.
    assert (Hsub : list_to_set (C:=gset Z) ((λ i, a + Z.of_nat i) <$> seq 0 n) ⊆ dom m).
    { intros x. rewrite elem_of_list_to_set, list_elem_of_fmap, elem_of_dom.
      intros (i & -> & Hi%elem_of_seq). apply H. lia. }
    apply subseteq_size in Hsub. rewrite size_dom in Hsub.
    rewrite size_list_to_set, length_fmap, length_seq in Hsub; [done|].
    apply NoDup_fmap; [|apply NoDup_seq]. intros i j. lia.
Qed.

#[export] Instance bytes_array : Bytes (list Z) := {
  byte_at l a := if 0 <=? a then l !! Z.to_nat a else None;
  put_byte l a v := if (0 <=? a) && (a <? Z.of_nat (length l)) then Some (<[Z.to_nat a := v]> l) else None;
  extent l := length l
}.
#[export] Instance bytes_array_laws : BytesLaws (list Z).
Proof.
  split; simpl.
  - intros l a v [x Hx]. destruct (Z.leb_spec 0 a); [|done].
    apply lookup_lt_Some in Hx. rewrite (proj2 (Z.ltb_lt _ _)) by lia. eauto.
  - intros l a v l' a'. destruct (Z.leb_spec 0 a); [|done].
    destruct (Z.ltb_spec a (Z.of_nat (length l))); [|done]. simpl. intros [= <-].
    case_decide as Hd; [subst a'|].
    + rewrite (proj2 (Z.leb_le _ _)) by lia. apply list_lookup_insert_eq. lia.
    + destruct (Z.leb_spec 0 a'); [|done]. apply list_lookup_insert_ne. lia.
  - intros l a n H. destruct n as [|n]; [lia|].
    assert (Ha : is_Some (l !! Z.to_nat a)).
    { destruct (H 0) as [x Hx]; [lia|]. rewrite Z.add_0_r in Hx. case_match; [eauto|done]. }
    destruct (H (Z.of_nat n)) as [x Hx]; [lia|]. case_match; [|done]. apply lookup_lt_Some in Hx.
    destruct (Z.leb_spec 0 a) as [|Hneg]; [lia|].
    destruct (H 0) as [y Hy]; [lia|]. rewrite (proj2 (Z.leb_gt _ _)) in Hy by lia. done.
Qed.

(** ** Specifications *)

Section specs.
Context {B : Type} `{!Bytes B, !BytesLaws B}.

(** the [n] bytes from [a] on are in the store *)
Definition mapped (b : B) (a n : Z) : Prop := ∀ i, 0 ≤ i < n → is_Some (byte_at b (a + i)).
(** [b'] differs from [b] only in the [n] bytes from [a] on, which are [f 0], [f 1], ... *)
Definition written (b b' : B) (a n : Z) (f : Z → option Z) : Prop :=
  ∀ x, byte_at b' x = if decide (a ≤ x < a + n) then f (x - a) else byte_at b x.

Lemma mapped_sub b a n a' n' : mapped b a n → a ≤ a' → a' + n' ≤ a + n → mapped b a' n'.
Proof. intros H ?? i Hi. replace (a' + i) with (a + (a' + i - a)) by lia. apply H. lia. Qed.

Lemma put_byte_mapped b a v b' x n : put_byte b a v = Some b' → mapped b x n → mapped b' x n.
Proof.
  intros Hp H i Hi. rewrite (byte_at_put _ _ _ _ _ Hp). case_decide; [done|by apply H].
Qed.
Lemma written_mapped b b' a n f x m :
  written b b' a n f → (∀ i, 0 ≤ i < n → is_Some (f i)) → mapped b x m → mapped b' x m.
Proof.
  intros Hw Hf H i Hi. rewrite (Hw (x + i)). case_decide; [apply Hf; lia|by apply H].
Qed.

Lemma memset_loop_spec c n : ∀ b a i, mapped b (a + i) (Z.of_nat n) →
  ∃ b', memset_loop b a c i n = Some b' ∧ written b b' (a + i) (Z.of_nat n) (λ _, Some (u8 c)).
Proof.
  induction n as [|n IH]; intros b a i Hm; simpl.
  { exists b. split; [done|]. intros x. rewrite decide_False by lia. done. }
  destruct (put_byte_some b (a + i) (u8 c)) as [b1 Hb1].
  { rewrite <- (Z.add_0_r (a + i)). apply Hm. lia. }
  rewrite Hb1. destruct (IH b1 a (i + 1)) as (b' & Hb' & Hw).
  { eapply put_byte_mapped, mapped_sub; [done..| |]; lia. }
  exists b'. split; [done|]. intros x. rewrite (Hw x), (byte_at_put _ _ _ _ _ Hb1).
  repeat case_decide; try done; lia.
Qed.

Lemma memset_spec b a c n : 0 ≤ n < 2 ^ 32 → mapped b a n →
  ∃ b', memset b a c n = Some b' ∧ written b b' a n (λ _, Some (u8 c)).
Proof.
  intros Hn Hm. unfold memset. rewrite u32_small by done.
  destruct (memset_loop_spec c (Z.to_nat n) b a 0) as (b' & Hb' & Hw).
  - by rewrite Z.add_0_r, Z2Nat.id by lia.
  - rewrite Z.add_0_r, Z2Nat.id in Hw by lia. eauto.
Qed.

Lemma memmove_up_spec n : ∀ b d s, (d ≤ s ∨ s + Z.of_nat n ≤ d) →
  mapped b d (Z.of_nat n) → mapped b s (Z.of_nat n) →
  ∃ b', memmove_up b d s n = Some b' ∧ written b b' d (Z.of_nat n) (λ i, byte_at b (s + i)).
Proof.
  induction n as [|n IH]; intros b d s Hds Hd Hs; simpl.
  { exists b. split; [done|]. intros x. rewrite decide_False by lia. done. }
  destruct (Hs 0) as [v Hv]; [lia|]. rewrite Z.add_0_r in Hv. rewrite Hv.
  destruct (put_byte_some b d v) as [b1 Hb1]; [rewrite <- (Z.add_0_r d); apply Hd; lia|].
  rewrite Hb1. destruct (IH b1 (d + 1) (s + 1)) as (b' & Hb' & Hw).
  { lia. } { eapply put_byte_mapped, mapped_sub; [done|exact Hd| |]; lia. }
  { eapply put_byte_mapped, mapped_sub; [done|exact Hs| |]; lia. }
  exists b'. split; [done|]. intros x. rewrite (Hw x), !(byte_at_put _ _ _ _ _ Hb1).
  destruct (decide (x = d)) as [->|].
  { rewrite decide_False, decide_True by lia. rewrite <- Hv. f_equal. lia. }
  repeat case_decide; try lia; try done. f_equal. lia.
Qed.

Lemma memmove_down_spec n : ∀ b d s, s ≤ d →
  mapped b (d - Z.of_nat n) (Z.of_nat n) → mapped b (s - Z.of_nat n) (Z.of_nat n) →
  ∃ b', memmove_down b d s n = Some b' ∧
    written b b' (d - Z.of_nat n) (Z.of_nat n) (λ i, byte_at b (s - Z.of_nat n + i)).
Proof.
  induction n as [|n IH]; intros b d s Hds Hd Hs; simpl.
  { exists b. split; [done|]. intros x. rewrite decide_False by lia. done. }
  destruct (Hs (Z.of_nat n)) as [v Hv]; [lia|].
  replace (s - Z.of_nat (S n) + Z.of_nat n) with (s - 1) in Hv by lia. rewrite Hv.
  destruct (put_byte_some b (d - 1) v) as [b1 Hb1].
  { replace (d - 1) with (d - Z.of_nat (S n) + Z.of_nat n) by lia. apply Hd. lia. }
  rewrite Hb1. destruct (IH b1 (d - 1) (s - 1)) as (b' & Hb' & Hw).
  { lia. } { eapply put_byte_mapped, mapped_sub; [done|exact Hd| |]; lia. }
  { eapply put_byte_mapped, mapped_sub; [done|exact Hs| |]; lia. }
  exists b'. split; [done|]. intros x. rewrite (Hw x), !(byte_at_put _ _ _ _ _ Hb1).
  destruct (decide (x = d - 1)) as [->|].
  { rewrite decide_False, decide_True by lia. rewrite <- Hv. f_equal. lia. }
  repeat case_decide; try lia; try done. f_equal. lia.
Qed.

Lemma memmove_spec b d s n : 0 ≤ n < 2 ^ 32 → mapped b d n → mapped b s n →
  ∃ b', memmove b d s n = Some b' ∧ written b b' d n (λ i, byte_at b (s + i)).
Proof.
  intros Hn Hd Hs. unfold memmove. rewrite u32_small by done.
  destruct (Z.eqb_spec n 0) as [->|Hnz].
  { exists b. split; [done|]. intros x. rewrite decide_False by lia. done. }
  destruct (_ && _) eqn:Hov.
  - apply andb_true_iff in Hov as [?%Z.ltb_lt ?%Z.ltb_lt].
    destruct (memmove_down_spec (Z.to_nat n) b (d + n) (s + n)) as (b' & Hb' & Hw); rewrite ?Z2Nat.id in * by lia.
    + lia.
    + by replace (d + n - n) with d by lia.
    + by replace (s + n - n) with s by lia.
    + exists b'. split; [done|]. replace (d + n - n) with d in Hw by lia.
      by replace (s + n - n) with s in Hw by lia.
  - destruct (memmove_up_spec (Z.to_nat n) b d s) as (b' & Hb' & Hw); rewrite ?Z2Nat.id in * by lia; eauto.
    apply andb_false_iff in Hov as [?%Z.ltb_ge|?%Z.ltb_ge]; lia.
Qed.
End specs.

(** *** Strings *)

(** the bytes from [a] on start with [l] *)
Definition bytes_at {B} `{!Bytes B} (b : B) (a : Z) (l : list Z) : Prop :=
  ∀ i x, l !! i = Some x → byte_at b (a + Z.of_nat i) = Some x.
(** the NUL-terminated string [l] is at [a] *)
Definition cstr {B} `{!Bytes B} (b : B) (a : Z) (l : list Z) : Prop :=
  bytes_at b a (l ++ [0]) ∧ Forall (λ x, x ≠ 0) l.

Section strings.
Context {B : Type} `{!Bytes B, !BytesLaws B}.

Lemma bytes_at_cons (b : B) a x l :
  bytes_at b a (x :: l) ↔ byte_at b a = Some x ∧ bytes_at b (a + 1) l.
Proof.
  split.
  - intros H. split; [rewrite <- (Z.add_0_r a); by apply (H 0%nat)|].
    intros i y Hi. rewrite <- (H (S i) y) by done. f_equal. lia.
  - intros [Hx H] [|i] y Hi; simpl in *; simplify_eq.
    + by rewrite Z.add_0_r.
    + rewrite <- (H i y) by done. f_equal. lia.
Qed.

Lemma bytes_at_nil (b : B) a : bytes_at b a [].
Proof. by intros i x. Qed.

Lemma bytes_at_app (b : B) a l1 l2 :
  bytes_at b a (l1 ++ l2) ↔ bytes_at b a l1 ∧ bytes_at b (a + Z.of_nat (length l1)) l2.
Proof.
  revert a. induction l1 as [|x l1 IH]; intros a; simpl.
  - rewrite Z.add_0_r. split; [|by intros [_ ?]]. intros ?. split; [apply bytes_at_nil|done].
  - rewrite !bytes_at_cons, IH. replace (a + 1 + Z.of_nat (length l1)) with (a + Z.of_nat (S (length l1))) by lia.
    tauto.
Qed.

Lemma bytes_at_mapped (b : B) a l : bytes_at b a l → mapped b a (Z.of_nat (length l)).
Proof.
  intros H i Hi. destruct (lookup_lt_is_Some_2 l (Z.to_nat i)) as [x Hx]; [lia|].
  exists x. rewrite <- (H (Z.to_nat i) x Hx). f_equal. lia.
Qed.

Lemma cstr_cons (b : B) a x l : cstr b a (x :: l) ↔ byte_at b a = Some x ∧ x ≠ 0 ∧ cstr b (a + 1) l.
Proof. unfold cstr. simpl. rewrite bytes_at_cons, Forall_cons. tauto. Qed.
Lemma cstr_nil (b : B) a : cstr b a [] ↔ byte_at b a = Some 0.
Proof.
  unfold cstr. simpl. rewrite bytes_at_cons. split; [by intros [[? _] _]|].
  intros ?. split; [|by constructor]. split; [done|apply bytes_at_nil].
Qed.

Lemma strlen_loop_spec (b : B) s l n fuel : cstr b (s + n) l → (length l < fuel)%nat →
  strlen_loop b s n fuel = Some (n + Z.of_nat (length l)).
Proof.
  revert n l. induction fuel as [|fuel IH]; intros n l Hl Hf; [lia|]. simpl.
  destruct l as [|x l].
  - apply cstr_nil in Hl. rewrite Hl. simpl. f_equal. lia.
  - apply cstr_cons in Hl as (Hx & Hnz & Hl). rewrite Hx.
    rewrite (proj2 (Z.eqb_neq _ _)) by done. rewrite (IH (n + 1) l); [|by rewrite Z.add_assoc|by simpl in Hf; lia].
    f_equal. simpl. lia.
Qed.
Lemma strlen_spec (b : B) s l : cstr b s l → strlen b s = Some (Z.of_nat (length l)).
Proof.
  intros Hl. unfold strlen. rewrite (strlen_loop_spec b s l 0); [done|by rewrite Z.add_0_r|].
  assert (length (l ++ [0%Z]) ≤ extent b)%nat; [|rewrite length_app in *; simpl in *; lia].
  apply (extent_bound b s). apply bytes_at_mapped, Hl.
Qed.

End strings.

Section two_strings.
Context {B : Type} `{!Bytes B, !BytesLaws B} {B' : Type} `{!Bytes B', !BytesLaws B'}.

(** what [strncmp] computes, on the strings themselves *)
Fixpoint str_compare (n : nat) (l l' : list Z) : Z :=
  match n, l, l' with
  | O, _, _ => 0
  | _, [], [] => 0
  | _, x :: _, [] => x
  | _, [], y :: _ => - y
  | S n, x :: l, y :: l' => if x =? y then str_compare n l l' else x - y
  end.
Lemma strncmp_loop_spec (b : B) (b' : B') n : ∀ p q l l', cstr b p l → cstr b' q l' →
  strncmp_loop b b' p q n = Some (str_compare n l l').
Proof.
  induction n as [|n IH]; intros p q l l' Hl Hl'; [done|]. simpl.
  destruct l as [|x l].
  - apply cstr_nil in Hl. rewrite Hl. simpl. destruct l' as [|y l'].
    + apply cstr_nil in Hl'. by rewrite Hl'.
    + apply cstr_cons in Hl' as (-> & _). f_equal.
  - apply cstr_cons in Hl as (-> & Hx & Hl). rewrite (proj2 (Z.eqb_neq _ _)) by done.
    destruct l' as [|y l'].
    + apply cstr_nil in Hl'. rewrite Hl'. rewrite (proj2 (Z.eqb_neq _ _)) by done. f_equal. lia.
    + apply cstr_cons in Hl' as (-> & Hy & Hl'). destruct (Z.eqb_spec x y); [by apply IH|done].
Qed.
Lemma str_compare_0 n l l' : Forall (λ x, x ≠ 0) l → Forall (λ x, x ≠ 0) l' →
  str_compare n l l' = 0 ↔ take n l = take n l'.
Proof.
  revert l l'. induction n as [|n IH]; intros l l' Hl Hl'; [done|].
  destruct Hl as [|x l Hx Hl], Hl' as [|y l' Hy Hl']; simpl; try (split; [lia|done]); [done|].
  destruct (Z.eqb_spec x y) as [->|Hne].
  - rewrite IH by done. split; [by intros ->|by intros [= ->]].
  - split; [lia|]. intros [= ]. done.
Qed.

Lemma safestrcpy_loop_spec (b' : B') n : ∀ (b : B) s t l, cstr b' t l →
  mapped b s (Z.of_nat (S n)) →
  ∃ b1, safestrcpy_loop b s b' t n = Some b1 ∧ cstr b1 s (take n l) ∧
    ∀ x, (x < s ∨ s + Z.of_nat (S n) ≤ x) → byte_at b1 x = byte_at b x.
Proof.
  induction n as [|n IH]; intros b s t l Hl Hm; simpl.
  - destruct (put_byte_some b s 0) as [b1 Hb1]; [rewrite <- (Z.add_0_r s); apply Hm; lia|].
    exists b1. split_and!; [done|rewrite take_0; apply cstr_nil|intros x Hx];
      rewrite (byte_at_put _ _ _ _ _ Hb1); case_decide; try done; lia.
  - assert (∃ x, byte_at b' t = Some x ∧ (x = 0 ∧ l = [] ∨ ∃ l', x ≠ 0 ∧ l = x :: l' ∧ cstr b' (t + 1) l'))
      as (x & Hx & Hcase).
    { destruct l as [|x l]; [exists 0; apply cstr_nil in Hl; eauto|].
      apply cstr_cons in Hl as (? & ? & ?). exists x. split; [done|]. right. eauto. }
    rewrite Hx. destruct (put_byte_some b s x) as [b1 Hb1]; [rewrite <- (Z.add_0_r s); apply Hm; lia|].
    rewrite Hb1. assert (Hm1 : mapped b1 (s + 1) (Z.of_nat (S n))).
    { eapply put_byte_mapped; [done|]. eapply mapped_sub; [exact Hm| |]; lia. }
    destruct Hcase as [[-> ->]|(l' & Hnz & -> & Hl')].
    + simpl. destruct (put_byte_some b1 (s + 1) 0) as [b2 Hb2].
      { rewrite <- (Z.add_0_r (s + 1)). apply Hm1. lia. }
      exists b2. split_and!; [done| |].
      * apply cstr_nil. rewrite (byte_at_put _ _ _ _ _ Hb2), (byte_at_put _ _ _ _ _ Hb1).
        rewrite decide_False, decide_True by lia. done.
      * intros y Hy. rewrite (byte_at_put _ _ _ _ _ Hb2), (byte_at_put _ _ _ _ _ Hb1).
        rewrite !decide_False by lia. done.
    + rewrite (proj2 (Z.eqb_neq _ _)) by done. simpl.
      destruct (IH b1 (s + 1) (t + 1) l' Hl' Hm1) as (b2 & Hb2 & Hc & Ho).
      exists b2. split_and!; [done| |].
      * apply cstr_cons. split_and!; [|done|done]. rewrite Ho by lia.
        by rewrite (byte_at_put _ _ _ _ _ Hb1), decide_True.
      * intros y Hy. rewrite Ho by lia. by rewrite (byte_at_put _ _ _ _ _ Hb1), decide_False by lia.
Qed.

Lemma strncpy_pad_spec n : ∀ (b : B) s, mapped b s (Z.of_nat n) →
  ∃ b1, strncpy_pad b s n = Some b1 ∧ written b b1 s (Z.of_nat n) (λ _, Some 0).
Proof.
  induction n as [|n IH]; intros b s Hm; simpl.
  { exists b. split; [done|]. intros x. rewrite decide_False by lia. done. }
  destruct (put_byte_some b s 0) as [b1 Hb1]; [rewrite <- (Z.add_0_r s); apply Hm; lia|].
  rewrite Hb1. destruct (IH b1 (s + 1)) as (b2 & Hb2 & Hw).
  { eapply put_byte_mapped; [done|]. eapply mapped_sub; [exact Hm| |]; lia. }
  exists b2. split; [done|]. intros x. rewrite (Hw x), (byte_at_put _ _ _ _ _ Hb1).
  repeat case_decide; try done; lia.
Qed.

(** [strncpy] writes the first [n] bytes of the string padded with zeros *)
Lemma strncpy_loop_spec (b' : B') n : ∀ (b : B) s t l, cstr b' t l → mapped b s (Z.of_nat n) →
  ∃ b1, strncpy_loop b s b' t n = Some b1 ∧
    written b b1 s (Z.of_nat n) (λ i, Some (default 0 (l !! Z.to_nat i))).
Proof.
  induction n as [|n IH]; intros b s t l Hl Hm; simpl.
  { exists b. split; [done|]. intros x. rewrite decide_False by lia. done. }
  destruct l as [|x l].
  - apply cstr_nil in Hl. rewrite Hl.
    destruct (strncpy_pad_spec (S n) b s Hm) as (b1 & Hb1 & Hw). simpl in Hb1.
    destruct (put_byte b s 0) as [b0|]; [|done]. simpl. exists b1. split; [done|].
    intros x. rewrite (Hw x). case_decide; [|done]. by destruct (Z.to_nat (x - s)).
  - apply cstr_cons in Hl as (Hx & Hnz & Hl). rewrite Hx.
    destruct (put_byte_some b s x) as [b1 Hb1]; [rewrite <- (Z.add_0_r s); apply Hm; lia|].
    rewrite Hb1, (proj2 (Z.eqb_neq _ _)) by done. simpl.
    destruct (IH b1 (s + 1) (t + 1) l Hl) as (b2 & Hb2 & Hw).
    { eapply put_byte_mapped; [done|]. eapply mapped_sub; [exact Hm| |]; lia. }
    exists b2. split; [done|]. intros y. rewrite (Hw y), (byte_at_put _ _ _ _ _ Hb1).
    destruct (decide (y = s)) as [->|].
    { rewrite decide_False, decide_True by lia. by rewrite Z.sub_diag. }
    repeat case_decide; try lia; try done.
    replace (Z.to_nat (y - s)) with (S (Z.to_nat (y - (s + 1)))) by lia. done.
Qed.
End two_strings.

(** ** Little-endian words *)

Section words.
Context {B : Type} `{!Bytes B}.

Fixpoint load_bytes (b : B) (a : Z) (n : nat) : option (list Z) :=
  match n with
  | O => Some []
  | S n => x ← byte_at b a; l ← load_bytes b (a + 1) n; Some (x :: l)
  end.
Fixpoint store_bytes (b : B) (a : Z) (l : list Z) : option B :=
  match l with
  | [] => Some b
  | x :: l => b ← put_byte b a x; store_bytes b (a + 1) l
  end.
(** the word of [n] bytes at [a] *)
Definition load_le (n : nat) (b : B) (a : Z) : option Z :=
  little_endian_to_Z 8 <$> load_bytes b a n.
Definition store_le (n : nat) (b : B) (a v : Z) : option B :=
  store_bytes b a (Z_to_little_endian (Z.of_nat n) 8 v).
Definition load64 : B → Z → option Z := load_le 8.
Definition store64 : B → Z → Z → option B := store_le 8.

Lemma load_bytes_ext (b b' : B) n : ∀ a,
  (∀ i, 0 ≤ i < Z.of_nat n → byte_at b' (a + i) = byte_at b (a + i)) →
  load_bytes b' a n = load_bytes b a n.
Proof.
  induction n as [|n IH]; intros a H; [done|]. simpl.
  rewrite <- (Z.add_0_r a), (H 0), Z.add_0_r by lia. rewrite IH; [done|].
  intros i Hi. rewrite <- Z.add_assoc. apply H. lia.
Qed.

Lemma load_bytes_at (b : B) l : ∀ a, bytes_at b a l → load_bytes b a (length l) = Some l.
Proof.
  induction l as [|x l IH]; intros a; [done|]. rewrite bytes_at_cons. intros [Hx Hl].
  simpl. by rewrite Hx, (IH _ Hl).
Qed.

Lemma load_bytes_mapped (b : B) n : ∀ a, mapped b a (Z.of_nat n) →
  ∃ l, load_bytes b a n = Some l ∧ length l = n ∧ bytes_at b a l.
Proof.
  induction n as [|n IH]; intros a Hm; simpl.
  { exists []. split_and!; [done|done|apply bytes_at_nil]. }
  destruct (Hm 0) as [x Hx]; [lia|]. rewrite Z.add_0_r in Hx.
  destruct (IH (a + 1)) as (l & Hl & Hlen & Hat); [eapply mapped_sub; [done|lia..]|].
  exists (x :: l). rewrite Hx, Hl. simpl. split_and!; [done|by rewrite Hlen|by apply bytes_at_cons].
Qed.

Lemma load64_mapped (b : B) a : mapped b a 8 → is_Some (load64 b a).
Proof.
  intros Hm. destruct (load_bytes_mapped b 8 a Hm) as (l & Hl & _).
  unfold load64, load_le. rewrite Hl. eauto.
Qed.

Lemma load_le_other k (b b' : B) a n f x :
  written b b' a n f → x + Z.of_nat k ≤ a ∨ a + n ≤ x → load_le k b' x = load_le k b x.
Proof.
  intros Hw Hx. unfold load_le. rewrite (load_bytes_ext b b'); [done|].
  intros i Hi. rewrite (Hw (x + i)). by rewrite decide_False by lia.
Qed.
Lemma load64_other (b b' : B) a n f x :
  written b b' a n f → x + 8 ≤ a ∨ a + n ≤ x → load64 b' x = load64 b x.
Proof. apply (load_le_other 8). Qed.

Context `{!BytesLaws B}.

Lemma store_bytes_spec l : ∀ (b : B) a, mapped b a (Z.of_nat (length l)) →
  ∃ b', store_bytes b a l = Some b' ∧ written b b' a (Z.of_nat (length l)) (λ i, l !! Z.to_nat i).
Proof.
  induction l as [|x l IH]; intros b a Hm; simpl.
  { exists b. split; [done|]. intros y. rewrite decide_False by lia. done. }
  destruct (put_byte_some b a x) as [b1 Hb1]; [rewrite <- (Z.add_0_r a); apply Hm; simpl; lia|].
  rewrite Hb1. simpl. destruct (IH b1 (a + 1)) as (b2 & Hb2 & Hw).
  { eapply put_byte_mapped; [done|]. eapply mapped_sub; [exact Hm| |]; simpl; lia. }
  exists b2. split; [done|]. intros y. rewrite (Hw y), (byte_at_put _ _ _ _ _ Hb1).
  destruct (decide (y = a)) as [->|].
  { rewrite decide_False, decide_True by lia. by rewrite Z.sub_diag. }
  repeat case_decide; try lia; try done.
  replace (Z.to_nat (y - a)) with (S (Z.to_nat (y - (a + 1)))) by lia. done.
Qed.

Lemma written_bytes_at (b b' : B) a l :
  written b b' a (Z.of_nat (length l)) (λ i, l !! Z.to_nat i) → bytes_at b' a l.
Proof.
  intros Hw i x Hi. rewrite (Hw (a + Z.of_nat i)). pose proof (lookup_lt_Some _ _ _ Hi).
  rewrite decide_True by lia. by replace (Z.to_nat (a + Z.of_nat i - a)) with i by lia.
Qed.

Lemma store_le_spec n (b : B) a v : mapped b a (Z.of_nat n) →
  ∃ b', store_le n b a v = Some b' ∧ load_le n b' a = Some (v `mod` 2 ^ (8 * Z.of_nat n)) ∧
    ∃ f, written b b' a (Z.of_nat n) f ∧ ∀ i, 0 ≤ i < Z.of_nat n → is_Some (f i).
Proof.
  intros Hm. unfold store_le, load_le.
  assert (Hlen : length (Z_to_little_endian (Z.of_nat n) 8 v) = n).
  { pose proof (length_Z_to_little_endian (Z.of_nat n) 8 v ltac:(lia)). lia. }
  destruct (store_bytes_spec (Z_to_little_endian (Z.of_nat n) 8 v) b a) as (b' & Hb' & Hw); [by rewrite Hlen|].
  exists b'. split_and!; [done| |].
  - rewrite <- Hlen at 1. rewrite (load_bytes_at b' _ a); [|by eapply written_bytes_at].
    apply (f_equal Some). rewrite little_endian_to_Z_to_little_endian by lia. f_equal. f_equal. lia.
  - rewrite Hlen in Hw. eexists. split; [exact Hw|]. intros i Hi. simpl. apply lookup_lt_is_Some_2. lia.
Qed.
Lemma store64_spec (b : B) a v : mapped b a 8 →
  ∃ b', store64 b a v = Some b' ∧ load64 b' a = Some (u64 v) ∧
    ∃ f, written b b' a 8 f ∧ ∀ i, 0 ≤ i < 8 → is_Some (f i).
Proof. apply (store_le_spec 8). Qed.
End words.

(** ** Words of an array *)

Section array.
Implicit Types (d : list Z).

Lemma put_byte_length d a v d' : put_byte d a v = Some d' → length d' = length d.
Proof. simpl. case_match; [|done]. intros [= <-]. apply length_insert. Qed.
Lemma store_bytes_length l : ∀ d a d', store_bytes d a l = Some d' → length d' = length d.
Proof.
  induction l as [|x l IH]; intros d a d' Hs; cbn [store_bytes] in Hs; [by simplify_eq|].
  destruct (put_byte d a x) as [d1|] eqn:Hd1; [|done]. rewrite (IH _ _ _ Hs). by eapply put_byte_length.
Qed.
Lemma array_mapped d a n : 0 ≤ a → a + n ≤ Z.of_nat (length d) → mapped d a n.
Proof.
  intros Ha Hn i Hi. simpl. rewrite (proj2 (Z.leb_le _ _)) by lia. apply lookup_lt_is_Some_2. lia.
Qed.
Lemma array_load_le k d a : 0 ≤ a → a + Z.of_nat k ≤ Z.of_nat (length d) → ∃ x, load_le k d a = Some x.
Proof.
  intros Ha Hk. destruct (load_bytes_mapped d k a) as (l & Hl & _); [by apply array_mapped|].
  unfold load_le. rewrite Hl. eauto.
Qed.
Lemma array_store_le k d a v :
  0 ≤ a → a + Z.of_nat k ≤ Z.of_nat (length d) →
  ∃ d', store_le k d a v = Some d' ∧ length d' = length d ∧
    load_le k d' a = Some (v `mod` 2 ^ (8 * Z.of_nat k)) ∧
    ∀ j x, x + Z.of_nat j ≤ a ∨ a + Z.of_nat k ≤ x → load_le j d' x = load_le j d x.
Proof.
  intros Ha Hk. destruct (store_le_spec k d a v) as (d' & Hs & Hl & f & Hw & _); [by apply array_mapped|].
  exists d'. split_and!; [done|by eapply store_bytes_length|done|]. intros j x Hx. by eapply load_le_other.
Qed.
(** an array written in full *)
Lemma store_bytes_all d l : length d = length l → store_bytes d 0 l = Some l.
Proof.
  intros Hlen. destruct (store_bytes_spec l d 0) as (d' & Hs & Hw); [apply array_mapped; lia|].
  rewrite Hs. apply (f_equal Some). pose proof (store_bytes_length _ _ _ _ Hs) as Hl. apply list_eq. intros i.
  specialize (Hw (Z.of_nat i)). cbn in Hw. rewrite (proj2 (Z.leb_le 0 (Z.of_nat i))), Z.sub_0_r, Nat2Z.id in Hw by lia.
  case_decide; [done|]. rewrite Hw. by rewrite !lookup_ge_None_2 by lia.
Qed.
End array.
