(* ===== verification/Layout.v ===== *)
(** * Memory layout and page-table arithmetic

    [kernel/memlayout.h], the paging macros of [kernel/riscv.h], and the
    addresses the linker chooses ([kernel/kernel.ld]). *)

From S2P Require Import Prelude.
#[local] Open Scope Z_scope.

Definition PGSIZE : Z := 4096.
Definition PGSHIFT : Z := 12.
(** the arguments are [uint64] *)
Definition PGROUNDUP (sz : Z) : Z := Z.land (u64 (sz + PGSIZE - 1)) (Z.lnot (PGSIZE - 1)).
Definition PGROUNDDOWN (a : Z) : Z := Z.land a (Z.lnot (PGSIZE - 1)).

Definition PTE_V : Z := Z.shiftl 1 0.
Definition PTE_R : Z := Z.shiftl 1 1.
Definition PTE_W : Z := Z.shiftl 1 2.
Definition PTE_X : Z := Z.shiftl 1 3.
Definition PTE_U : Z := Z.shiftl 1 4.

Definition PA2PTE (pa : Z) : Z := u64 (Z.shiftl (Z.shiftr pa 12) 10).
Definition PTE2PA (pte : Z) : Z := u64 (Z.shiftl (Z.shiftr pte 10) 12).
Definition PTE_FLAGS (pte : Z) : Z := Z.land pte 1023.

Definition PXMASK : Z := 511.
Definition PXSHIFT (level : Z) : Z := PGSHIFT + 9 * level.
Definition PX (level va : Z) : Z := Z.land (Z.shiftr va (PXSHIFT level)) PXMASK.

Definition MAXVA : Z := Z.shiftl 1 (9 + 9 + 9 + 12 - 1).
Definition SATP_SV39 : Z := Z.shiftl 8 60.
Definition MAKE_SATP (pagetable : Z) : Z := Z.lor SATP_SV39 (Z.shiftr pagetable 12).

Definition UART0 : Z := 0x10000000.
Definition UART0_IRQ : Z := 10.
Definition VIRTIO0 : Z := 0x10001000.
Definition VIRTIO0_IRQ : Z := 1.
Definition PLIC : Z := 0x0c000000.
Definition KERNBASE : Z := 0x80000000.
Definition PHYSTOP : Z := KERNBASE + 128 * 1024 * 1024.
Definition TRAMPOLINE : Z := MAXVA - PGSIZE.
Definition KSTACK (p : nat) : Z := TRAMPOLINE - (Z.of_nat p + 1) * 2 * PGSIZE.
Definition TRAPFRAME : Z := TRAMPOLINE - PGSIZE.

(** ** Linker symbols

    [end], [etext] and [trampoline] are section boundaries of
    [kernel/kernel.ld], which aligns the last two to a page; the other symbols
    are code addresses. *)

Class Symbols := {
  sym_end : Z; sym_etext : Z; sym_trampoline : Z;
  sym_uservec : Z; sym_userret : Z; sym_kernelvec : Z; sym_usertrap : Z
}.
Class SymbolsOk {SY : Symbols} : Prop := {
  sym_end_range : KERNBASE ≤ sym_end ≤ PHYSTOP;
  sym_etext_range : KERNBASE < sym_etext ≤ sym_end;
  sym_etext_aligned : sym_etext mod PGSIZE = 0;
  sym_trampoline_range : KERNBASE ≤ sym_trampoline < sym_etext;
  sym_trampoline_aligned : sym_trampoline mod PGSIZE = 0
}.

(** ** Lemmas *)

Lemma land_page_mask x : Z.land x (Z.lnot (PGSIZE - 1)) = x - x mod PGSIZE.
Proof.
  change (PGSIZE - 1) with (Z.ones 12). rewrite <- Z.ldiff_land, Z.ldiff_ones_r by lia.
  rewrite Z.shiftr_div_pow2, Z.shiftl_mul_pow2 by lia.
  change (2 ^ 12) with PGSIZE. unfold PGSIZE. pose proof (Z.div_mod x 4096). lia.
Qed.
Lemma PGROUNDDOWN_eq x : PGROUNDDOWN x = x - x mod PGSIZE.
Proof. apply land_page_mask. Qed.
Lemma PGROUNDUP_eq x : 0 ≤ x ≤ 2 ^ 64 - PGSIZE →
  PGROUNDUP x = (x + PGSIZE - 1) - (x + PGSIZE - 1) mod PGSIZE.
Proof.
  intros Hx. unfold PGROUNDUP. rewrite land_page_mask, u64_small; [done|]. unfold PGSIZE in *. lia.
Qed.
Lemma PGROUNDDOWN_aligned x : PGROUNDDOWN x mod PGSIZE = 0.
Proof. rewrite PGROUNDDOWN_eq. unfold PGSIZE. rewrite Zminus_mod_idemp_r, Z.sub_diag. done. Qed.
Lemma PGROUNDUP_aligned x : PGROUNDUP x mod PGSIZE = 0.
Proof. unfold PGROUNDUP. rewrite land_page_mask. unfold PGSIZE. by rewrite Zminus_mod_idemp_r, Z.sub_diag. Qed.
Lemma PGROUNDDOWN_bound x : PGROUNDDOWN x ≤ x < PGROUNDDOWN x + PGSIZE.
Proof. rewrite PGROUNDDOWN_eq. unfold PGSIZE. pose proof (Z.mod_pos_bound x 4096). lia. Qed.
Lemma PGROUNDUP_bound x : 0 ≤ x ≤ 2 ^ 64 - PGSIZE → x ≤ PGROUNDUP x < x + PGSIZE.
Proof.
  intros Hx. rewrite PGROUNDUP_eq by done. unfold PGSIZE.
  pose proof (Z.mod_pos_bound (x + 4096 - 1) 4096). lia.
Qed.
