(* ===== verification/Kalloc.v ===== *)
(** * The page allocator, [kernel/kalloc.c]

    [kmem.freelist] is a list of free pages linked through their first words.
    [freepages m l] says that the list is [l]: distinct page-aligned pages of
    the allocator's range, all of physical memory present.  [kalloc] takes
    the first page, [kfree] puts one in front, [kinit] builds the list of all
    pages; none of them touches a byte outside of the pages it handles. *)

From S2P Require Import Prelude Kstate Spinlock Bytes Layout.
#[local] Open Scope Z_scope.

(** ** Access to physical memory *)

Definition mem_op (f : gmap Z Z → option (gmap Z Z)) : KM unit :=
  let* s := get in
  match f (mbytes (k_mem s)) with
  | Some m => modify (λ s, s <| k_mem ::= λ x, x <| mbytes := m |> |>)
  | None => fault
  end.
Definition mem_rd {A} (f : gmap Z Z → option A) : KM A :=
  let* s := get in deref (f (mbytes (k_mem s))).
Definition ld64 (a : Z) : KM Z := mem_rd (λ m, load64 m a).
Definition st64 (a v : Z) : KM unit := mem_op (λ m, store64 m a v).
Definition kmemset (dst c n : Z) : KM unit := mem_op (λ m, memset m dst c n).
Definition kmemmove (dst src n : Z) : KM unit := mem_op (λ m, memmove m dst src n).

(** ** The code *)

Section code.
Context {SY : Symbols}.

Definition kfree (pa : Z) : KM unit :=
  if negb (pa mod PGSIZE =? 0) || (pa <? sym_end) || (PHYSTOP <=? pa) then panic "kfree" else
  kmemset pa 1 PGSIZE ;;
  let r := pa in
  acquire kmem_lock ;;
  let* fl := gets (λ s, freelist (k_mem s)) in
  st64 r fl ;;
  modify (λ s, s <| k_mem ::= λ m, m <| freelist := r |> |>) ;;
  release kmem_lock.

Definition kalloc : KM Z :=
  acquire kmem_lock ;;
  let* r := gets (λ s, freelist (k_mem s)) in
  when (negb (r =? 0)) (
    let* next := ld64 r in
    modify (λ s, s <| k_mem ::= λ m, m <| freelist := next |> |>)) ;;
  release kmem_lock ;;
  when (negb (r =? 0)) (kmemset r 5 PGSIZE) ;;
  ret r.

(** the loop runs once per page; [n] bounds its turns *)
Fixpoint freerange_loop (p pa_end : Z) (n : nat) : KM unit :=
  match n with
  | O => stop_with StopFuel
  | S n => if p + PGSIZE <=? pa_end then kfree p ;; freerange_loop (p + PGSIZE) pa_end n
           else ret tt
  end.
Definition freerange (pa_start pa_end : Z) : KM unit :=
  let p := PGROUNDUP pa_start in
  freerange_loop p pa_end (S (Z.to_nat ((pa_end - p) / PGSIZE))).

Definition kinit : KM unit :=
  initlock kmem_lock ;;
  freerange sym_end PHYSTOP.
End code.

(** ** Memory accesses in postconditions *)

Section access.
Context (E : stop → Prop) (G : kstate → Prop) (R : kstate → kstate → Prop).

Lemma wp_mem_op f m s (Q : unit → kstate → Prop) :
  f (mbytes (k_mem s)) = Some m → Q tt (s <| k_mem ::= λ x, x <| mbytes := m |> |>) →
  wp E G R (mem_op f s) Q.
Proof. intros Hf HQ. apply wp_bind, wp_done. by rewrite Hf. Qed.
Lemma wp_mem_rd {A} (f : gmap Z Z → option A) v s (Q : A → kstate → Prop) :
  f (mbytes (k_mem s)) = Some v → Q v s → wp E G R (mem_rd f s) Q.
Proof. intros Hf HQ. apply wp_bind, wp_done. by rewrite Hf. Qed.
End access.

(** ** The free list *)

Section freelist.
Context {SY : Symbols} {SYok : SymbolsOk}.

Definition page_ok (p : Z) : Prop := p mod PGSIZE = 0 ∧ sym_end ≤ p < PHYSTOP.
Definition ram (m : gmap Z Z) : Prop := ∀ a, KERNBASE ≤ a < PHYSTOP → is_Some (m !! a).

Fixpoint flist (m : gmap Z Z) (h : Z) (l : list Z) : Prop :=
  match l with
  | [] => h = 0
  | p :: l => h = p ∧ ∃ next, load64 m p = Some next ∧ flist m next l
  end.
Record freepages (ms : memst) (l : list Z) : Prop := {
  fp_list : flist (mbytes ms) (freelist ms) l;
  fp_nodup : NoDup l;
  fp_ok : Forall page_ok l;
  fp_ram : ram (mbytes ms)
}.
(** the memories agree outside of the pages [P] *)
Definition same_outside (P : list Z) (m m' : gmap Z Z) : Prop :=
  ∀ a, PGROUNDDOWN a ∉ P → m' !! a = m !! a.

#[export] Instance same_outside_refl P : Reflexive (same_outside P).
Proof. by intros m a. Qed.
#[export] Instance same_outside_trans P : Transitive (same_outside P).
Proof. intros m1 m2 m3 H1 H2 a Ha. by rewrite H2, H1. Qed.
Lemma same_outside_mono P P' m m' : P ⊆ P' → same_outside P m m' → same_outside P' m m'.
Proof. intros HP H a Ha. apply H. set_solver. Qed.

Lemma page_ok_pos p : page_ok p → KERNBASE ≤ p ∧ p + PGSIZE ≤ PHYSTOP.
Proof.
  intros [Ha Hr]. destruct sym_end_range. split; [lia|].
  unfold PHYSTOP, KERNBASE, PGSIZE in *. pose proof (Z.div_mod p 4096). lia.
Qed.
Lemma page_of_offset p off : p mod PGSIZE = 0 → 0 ≤ off < PGSIZE → PGROUNDDOWN (p + off) = p.
Proof.
  intros Hp Hoff. rewrite PGROUNDDOWN_eq, <- Zplus_mod_idemp_l, Hp, Z.add_0_l.
  rewrite Z.mod_small by done. lia.
Qed.

Lemma ram_page m p : ram m → page_ok p → mapped m p PGSIZE.
Proof. intros Hm Hp i Hi. apply page_ok_pos in Hp. apply Hm. lia. Qed.

Lemma ram_written m m' p n f :
  written m m' p n f → (∀ i, 0 ≤ i < n → is_Some (f i)) → ram m → ram m'.
Proof.
  intros Hw Hf Hm a Ha. pose proof (Hw a) as Hwa. simpl in Hwa. rewrite Hwa.
  case_decide; [apply Hf; lia|by apply Hm].
Qed.

Lemma written_outside m m' p off n f :
  written m m' (p + off) n f → p mod PGSIZE = 0 → 0 ≤ off → off + n ≤ PGSIZE → same_outside [p] m m'.
Proof.
  intros Hw Hp Ho Hn a Ha. pose proof (Hw a) as Hwa. simpl in Hwa. rewrite Hwa.
  case_decide as Hd; [|done]. exfalso. apply Ha. apply list_elem_of_singleton.
  replace a with (p + (a - p)) by lia. apply page_of_offset; [done|lia].
Qed.
Lemma written_page_outside m m' p f : written m m' p PGSIZE f → p mod PGSIZE = 0 → same_outside [p] m m'.
Proof.
  intros Hw Hp. apply (written_outside m m' p 0 PGSIZE f); [by rewrite Z.add_0_r|done|lia..].
Qed.

Lemma load64_same P m m' p off : same_outside P m m' → p mod PGSIZE = 0 → p ∉ P →
  0 ≤ off → off + 8 ≤ PGSIZE → load64 m' (p + off) = load64 m (p + off).
Proof.
  intros Hs Hp Hn Ho Hb. unfold load64, load_le. rewrite (load_bytes_ext m m'); [done|].
  intros i Hi. apply Hs. rewrite <- Z.add_assoc, page_of_offset; [done|done|lia].
Qed.
Lemma flist_same P m m' h l : same_outside P m m' → Forall page_ok l → (∀ p, p ∈ l → p ∉ P) →
  flist m h l → flist m' h l.
Proof.
  intros Hs. revert h. induction l as [|p l IH]; intros h Hok Hn; [done|]. simpl.
  apply Forall_cons in Hok as [[Hp _] Hok]. intros (-> & nx & Hnx & Hl). split; [done|].
  exists nx. split.
  - rewrite <- Hnx, <- (Z.add_0_r p). apply (load64_same P); [done|done|set_solver|lia|unfold PGSIZE; lia].
  - apply IH; [done|set_solver|done].
Qed.

Context (E : stop → Prop) (G : kstate → Prop) (R : kstate → kstate → Prop).
#[local] Abbreviation wpk := (wp E G R).

Lemma page_ok_guard p : page_ok p →
  negb (p mod PGSIZE =? 0) || (p <? sym_end) || (PHYSTOP <=? p) = false.
Proof.
  intros [Ha Hr]. rewrite Ha. simpl. apply orb_false_iff. split; [apply Z.ltb_ge|apply Z.leb_gt]; lia.
Qed.

Lemma wp_kfree s H l p (Q : unit → kstate → Prop) :
  lockinv H (k_lk s) → kmem_lock ∉ H → freepages (k_mem s) l → page_ok p → p ∉ l →
  (∀ k ms, lockinv H k → lk_frame (k_lk s) k → freepages ms (p :: l) →
     same_outside [p] (mbytes (k_mem s)) (mbytes ms) → Q tt (s <| k_lk := k |> <| k_mem := ms |>)) →
  wpk (kfree p s) Q.
Proof.
  intros HH Hn [Hl Hnd Hok Hram] Hp Hpl HQ. unfold kfree. rewrite page_ok_guard by done.
  destruct (memset_spec (mbytes (k_mem s)) p 1 PGSIZE) as (m1 & Hm1 & Hw1);
    [by compute|by apply ram_page|].
  assert (Hram1 : ram m1) by (eapply ram_written; [done|eauto|done]).
  apply wp_bind. eapply wp_mem_op; [exact Hm1|].
  apply wp_bind. eapply wp_acquire; [done|done|]. intros k Hk Hfr.
  apply wp_bind, wp_done. simpl.
  destruct (store64_spec m1 p (freelist (k_mem s))) as (m2 & Hm2 & Hld & f & Hw2 & Hf).
  { eapply mapped_sub; [by apply ram_page| |]; unfold PGSIZE; lia. }
  apply wp_bind. eapply wp_mem_op; [exact Hm2|]. apply wp_bind, wp_done.
  eapply wp_release_add; [exact Hk|done|]. intros k2 Hk2 Hfr2.
  assert (Hout : same_outside [p] (mbytes (k_mem s)) m2).
  { transitivity m1; [by eapply written_page_outside, Hp|].
    apply (written_outside m1 m2 p 0 8 f); [by rewrite Z.add_0_r|apply Hp|lia|unfold PGSIZE; lia]. }
  apply (HQ k2 (mk_memst m2 p (kernel_pagetable (k_mem s)))); [done|lk_frames| |done]. split; simpl.
  - split; [done|]. eexists. split; [done|].
    assert (u64 (freelist (k_mem s)) = freelist (k_mem s)) as ->.
    { destruct l as [|q l]; simpl in Hl; [by rewrite Hl|]. destruct Hl as [-> _].
      apply Forall_cons in Hok as [Hq%page_ok_pos _]. apply u64_small.
      unfold PHYSTOP, KERNBASE, PGSIZE in *. lia. }
    eapply flist_same; [done|done|set_solver|done].
  - by constructor.
  - by constructor.
  - by eapply ram_written.
Qed.

Lemma wp_kalloc s H l (Q : Z → kstate → Prop) :
  lockinv H (k_lk s) → kmem_lock ∉ H → freepages (k_mem s) l →
  match l with
  | [] => ∀ k, lockinv H k → lk_frame (k_lk s) k → Q 0 (s <| k_lk := k |>)
  | p :: l' => ∀ k ms, lockinv H k → lk_frame (k_lk s) k → freepages ms l' → page_ok p → p ∉ l' →
      same_outside [p] (mbytes (k_mem s)) (mbytes ms) →
      (∀ off, 0 ≤ off < PGSIZE → mbytes ms !! (p + off) = Some 5) →
      Q p (s <| k_lk := k |> <| k_mem := ms |>)
  end →
  wpk (kalloc s) Q.
Proof.
  intros HH Hn [Hl Hnd Hok Hram] HQ. unfold kalloc.
  apply wp_bind. eapply wp_acquire; [done|done|]. intros k Hk Hfr.
  apply wp_bind, wp_done. destruct l as [|p l]; simpl in Hl.
  - simpl. rewrite Hl. apply wp_bind, wp_done, wp_bind. eapply wp_release_add; [exact Hk|done|].
    intros k2 Hk2 Hfr2. apply wp_bind, wp_done, wp_done. apply HQ; [done|lk_frames].
  - destruct Hl as (Hh & nx & Hnx & Hl). apply Forall_cons in Hok as [Hp Hok].
    apply NoDup_cons in Hnd as [Hpl Hnd]. simpl. rewrite Hh.
    assert (Hp0 : (p =? 0) = false).
    { apply Z.eqb_neq. apply page_ok_pos in Hp. unfold KERNBASE in Hp. lia. }
    rewrite Hp0. simpl. apply wp_bind, wp_bind. eapply wp_mem_rd; [exact Hnx|]. apply wp_done.
    apply wp_bind. eapply wp_release_add; [exact Hk|done|]. intros k2 Hk2 Hfr2.
    destruct (memset_spec (mbytes (k_mem s)) p 5 PGSIZE) as (m1 & Hm1 & Hw1);
      [by compute|by apply ram_page|].
    apply wp_bind. eapply wp_mem_op; [exact Hm1|]. apply wp_done.
    assert (Hout : same_outside [p] (mbytes (k_mem s)) m1) by (by eapply written_page_outside, Hp).
    apply (HQ k2 (mk_memst m1 nx (kernel_pagetable (k_mem s)))); [done|lk_frames| |done|done|done|].
    + split; simpl; [|done|done|eapply ram_written; [done|eauto|done]].
      eapply flist_same; [done|done|set_solver|done].
    + intros off Hoff. pose proof (Hw1 (p + off)) as Hwo. simpl in Hwo |- *. rewrite Hwo.
      by rewrite decide_True by lia.
Qed.

(** the [n] pages from [p] on *)
Definition pages (p : Z) (n : nat) : list Z := (λ i, p + Z.of_nat i * PGSIZE) <$> seq 0 n.
Lemma pages_S p n : pages p (S n) = p :: pages (p + PGSIZE) n.
Proof.
  unfold pages. simpl. f_equal; [lia|]. rewrite <- fmap_S_seq, <- list_fmap_compose.
  apply list_fmap_ext. intros i x _. simpl. lia.
Qed.

Lemma wp_freerange_loop pa_end H n : ∀ fuel s l p (Q : unit → kstate → Prop),
  lockinv H (k_lk s) → kmem_lock ∉ H → freepages (k_mem s) l → (n < fuel)%nat →
  p mod PGSIZE = 0 → sym_end ≤ p → pa_end ≤ PHYSTOP →
  p + Z.of_nat n * PGSIZE ≤ pa_end < p + (Z.of_nat n + 1) * PGSIZE → (∀ q, q ∈ l → q < p) →
  (∀ k ms, lockinv H k → lk_frame (k_lk s) k → freepages ms (reverse (pages p n) ++ l) →
     Q tt (s <| k_lk := k |> <| k_mem := ms |>)) →
  wpk (freerange_loop p pa_end fuel s) Q.
Proof.
  induction n as [|n IH]; intros fuel s l p Q HH Hn Hfp Hfuel Ha He Hstop Hr Hl HQ;
    (destruct fuel as [|fuel]; [lia|]); simpl.
  - rewrite (proj2 (Z.leb_gt _ _)) by lia. apply wp_done. destruct s as [lk pt ms csr dev sv].
    by apply (HQ lk ms).
  - assert (Hmul : Z.of_nat (S n) * PGSIZE = Z.of_nat n * PGSIZE + PGSIZE) by lia.
    assert (0 ≤ Z.of_nat n * PGSIZE) by (unfold PGSIZE; lia).
    assert (0 < PGSIZE) by (unfold PGSIZE; lia).
    rewrite (proj2 (Z.leb_le _ _)) by lia. apply wp_bind.
    eapply wp_kfree; [done|done|done|split; [done|lia]|intros Hp%Hl; lia|].
    intros k ms Hk Hfr Hfp' _. eapply (IH fuel _ (p :: l)); [done|done|done|lia| |lia|lia| | |].
    + by rewrite <- Zplus_mod_idemp_r, Z_mod_same_full, Z.add_0_r.
    + lia.
    + intros q [->|Hq%Hl]%elem_of_cons; lia.
    + intros k2 ms2 Hk2 Hfr2 Hfp2. apply (HQ k2 ms2); [done|lk_frames|].
      by rewrite pages_S, reverse_cons, <- app_assoc.
Qed.

(** all pages the allocator manages *)
Definition all_pages : list Z :=
  pages (PGROUNDUP sym_end) (Z.to_nat ((PHYSTOP - PGROUNDUP sym_end) / PGSIZE)).

Lemma wp_initlock l s H (Q : unit → kstate → Prop) :
  lockinv H (k_lk s) → l ∉ H →
  (∀ k, lockinv H k → lk_frame (k_lk s) k → Q tt (s <| k_lk := k |>)) → wpk (initlock l s) Q.
Proof.
  intros (b & c & x & Hc & Hx & Hi & Hlk) Hn HQ.
  apply (HQ ((k_lk s) <| lk_locks ::= <[l := lock0]> |>)); [|done].
  exists b, c, x. split_and!; [done|done|done|]. intros l'. rewrite lock_of_insert, (Hlk l').
  repeat case_decide; naive_solver.
Qed.

Lemma all_pages_bounds : 0 ≤ (PHYSTOP - PGROUNDUP sym_end) / PGSIZE ∧ sym_end ≤ PGROUNDUP sym_end.
Proof.
  destruct sym_end_range as [He1 He2].
  assert (Hb : sym_end ≤ PGROUNDUP sym_end < sym_end + PGSIZE).
  { apply PGROUNDUP_bound. unfold PHYSTOP, KERNBASE, PGSIZE in *. lia. }
  split; [|lia]. apply Z.div_pos; [|done]. pose proof (PGROUNDUP_aligned sym_end).
  unfold PHYSTOP, KERNBASE, PGSIZE in *. pose proof (Z.div_mod (PGROUNDUP sym_end) 4096). lia.
Qed.

Lemma wp_kinit s H (Q : unit → kstate → Prop) :
  lockinv H (k_lk s) → kmem_lock ∉ H → freelist (k_mem s) = 0 → ram (mbytes (k_mem s)) →
  (∀ k ms, lockinv H k → lk_frame (k_lk s) k → freepages ms (reverse all_pages) →
     Q tt (s <| k_lk := k |> <| k_mem := ms |>)) →
  wpk (kinit s) Q.
Proof.
  intros HH Hn Hfl Hram HQ. unfold kinit, freerange. destruct all_pages_bounds as [Hpos Hge].
  apply wp_bind. eapply wp_initlock; [done|done|]. intros k Hk Hfr.
  set (n := (PHYSTOP - PGROUNDUP sym_end) / PGSIZE) in *.
  assert (Hdm : PHYSTOP - PGROUNDUP sym_end = PGSIZE * n + (PHYSTOP - PGROUNDUP sym_end) mod PGSIZE)
    by (by apply Z.div_mod).
  pose proof (Z.mod_pos_bound (PHYSTOP - PGROUNDUP sym_end) PGSIZE ltac:(done)).
  eapply (wp_freerange_loop PHYSTOP H (Z.to_nat n) _ _ []); [done|done| |apply Nat.lt_succ_diag_r|apply PGROUNDUP_aligned|done|done| | |].
  - split; [done|constructor|constructor|done].
  - rewrite Z2Nat.id by done. lia.
  - set_solver.
  - rewrite app_nil_r. intros k2 ms Hk2 Hfr2 Hfp. apply HQ; [done|lk_frames|done].
Qed.
End freelist.

(** ** The allocator as a stack of pages *)

Section stack.
Context {SY : Symbols} {SYok : SymbolsOk}.

Lemma elem_of_pages p n q :
  q ∈ pages p n ↔ ∃ i, 0 ≤ i < Z.of_nat n ∧ q = p + i * PGSIZE.
Proof.
  unfold pages. rewrite list_elem_of_fmap. split.
  - intros (i & -> & Hi%elem_of_seq). exists (Z.of_nat i). split; [lia|done].
  - intros (i & Hi & ->). exists (Z.to_nat i). rewrite elem_of_seq, Z2Nat.id by lia. split; [done|lia].
Qed.
Lemma all_pages_ok p : p ∈ all_pages ↔ page_ok p.
Proof.
  destruct all_pages_bounds as [Hn Hge]. pose proof (PGROUNDUP_aligned sym_end) as Ha.
  destruct sym_end_range as [He1 He2].
  assert (Hb : sym_end ≤ PGROUNDUP sym_end < sym_end + PGSIZE).
  { apply PGROUNDUP_bound. unfold PHYSTOP, KERNBASE, PGSIZE in *. lia. }
  unfold all_pages. rewrite elem_of_pages, Z2Nat.id by done.
  pose proof (Z.div_mod (PHYSTOP - PGROUNDUP sym_end) PGSIZE ltac:(done)) as Hdm.
  pose proof (Z.mod_pos_bound (PHYSTOP - PGROUNDUP sym_end) PGSIZE ltac:(done)).
  set (n := (PHYSTOP - PGROUNDUP sym_end) / PGSIZE) in *. unfold page_ok. split.
  - intros (i & Hi & ->). rewrite Z_mod_plus_full. split; [done|]. unfold PGSIZE in *. nia.
  - intros [Hp Hr]. unfold PGSIZE in *.
    pose proof (Z.div_mod p 4096 ltac:(done)). pose proof (Z.div_mod (PGROUNDUP sym_end) 4096 ltac:(done)).
    exists (p / 4096 - PGROUNDUP sym_end / 4096). unfold PHYSTOP, KERNBASE in *. lia.
Qed.

Inductive palloc_op := Palloc | Pfree (p : Z).
#[export] Instance page_ok_dec p : Decision (page_ok p).
Proof. unfold page_ok. apply _. Defined.
(** freeing a page that is free already, or no page, is undefined *)
Definition stack_step (l : list Z) (o : palloc_op) : option (list Z * Z) :=
  match o with
  | Palloc => Some (match l with p :: l => (l, p) | [] => ([], 0) end)
  | Pfree p => if decide (page_ok p ∧ p ∉ l) then Some (p :: l, 0) else None
  end.
Fixpoint stack_run (l : list Z) (os : list palloc_op) : option (list Z * list Z) :=
  match os with
  | [] => Some (l, [])
  | o :: os => '(l1, v) ← stack_step l o; '(l2, vs) ← stack_run l1 os; Some (l2, v :: vs)
  end.
Fixpoint palloc_run (os : list palloc_op) : KM (list Z) :=
  match os with
  | [] => ret []
  | o :: os =>
      let* v := match o with Palloc => kalloc | Pfree p => kfree p ;; ret 0 end in
      let* vs := palloc_run os in ret (v :: vs)
  end.

Definition freed (os : list palloc_op) : list Z :=
  os ≫= λ o, match o with Palloc => [] | Pfree p => [p] end.

(** *** Properties *)

(** C6: the page allocator refines a stack of distinct pages.  A sequence of
    [kalloc] and [kfree], where only pages that are not free are freed, runs
    without panic or fault, returns the pages of the stack (0 when it is
    empty), and leaves the other pages of memory, those neither on the stack
    nor freed by the sequence, as they were. *)
Theorem kalloc_refines_stack os s H l l' vs :
  lockinv H (k_lk s) → kmem_lock ∉ H → freepages (k_mem s) l → stack_run l os = Some (l', vs) →
  runs (palloc_run os s) (λ vs' s', vs' = vs ∧
    ∃ k ms, s' = s <| k_lk := k |> <| k_mem := ms |> ∧ lockinv H k ∧ freepages ms l' ∧
      same_outside (l ++ freed os) (mbytes (k_mem s)) (mbytes ms)).
Proof.
  intros HH Hn. revert s HH l vs. induction os as [|o os IH]; intros s HH l vs Hfp Hrun; simpl in *.
  { simplify_eq. exists [], s. split_and!; [done|done|]. exists (k_lk s), (k_mem s).
    split_and!; [by destruct s|done|done|done]. }
  destruct (stack_step l o) as [[l1 v]|] eqn:Ho; [|done]. simpl in Hrun.
  destruct (stack_run l1 os) as [[l2 vs2]|] eqn:Hos; [|done]. simpl in Hrun. simplify_eq.
  apply runs_wp, wp_bind.
  assert (Hnext : ∀ P k ms, lockinv H k → freepages ms l1 →
    same_outside P (mbytes (k_mem s)) (mbytes ms) → P ⊆ l ++ freed (o :: os) → l1 ⊆ l ++ freed (o :: os) →
    wp (λ _, False) (λ _, False) (λ _ _, False)
      ((let* vs := palloc_run os in ret (v :: vs)) (s <| k_lk := k |> <| k_mem := ms |>))
      (λ vs' s', vs' = v :: vs2 ∧ ∃ k ms, s' = s <| k_lk := k |> <| k_mem := ms |> ∧ lockinv H k ∧
         freepages ms l' ∧ same_outside (l ++ freed (o :: os)) (mbytes (k_mem s)) (mbytes ms))).
  { intros P k ms Hk Hms Hs HP Hl1. apply wp_bind, wp_of_runs.
    edestruct (IH (s <| k_lk := k |> <| k_mem := ms |>))
      as (vs' & s' & Hr & -> & k2 & ms2 & -> & Hk2 & Hms2 & Hs2); [done|done|done|].
    exists vs2. eexists. split; [exact Hr|]. apply wp_done. split; [done|].
    exists k2, ms2. split_and!; [done|done|done|]. transitivity (mbytes ms).
    - eapply same_outside_mono; [exact HP|exact Hs].
    - eapply same_outside_mono; [|exact Hs2]. unfold freed in *. simpl. set_solver. }
  destruct o as [|p]; simpl in Ho.
  - eapply wp_kalloc; [done..|]. destruct l as [|p l]; simplify_eq.
    + intros k Hk _. destruct s as [lk pt ms csr dev sv]. apply (Hnext [] k ms); [done..|set_solver|set_solver].
    + intros k ms Hk _ Hms _ _ Hs _. by apply (Hnext [v] k ms); [done..|set_solver|set_solver].
  - case_decide as Hd; [|done]. destruct Hd as [Hok Hnin]. simplify_eq. apply wp_bind.
    eapply wp_kfree; [done..|]. intros k ms Hk _ Hms Hs. apply wp_done.
    apply (Hnext [p] k ms); [done..| |]; unfold freed; simpl; set_solver.
Qed.

(** C7: [kinit] puts every page between the end of the kernel and the end of
    memory on the free list, exactly once, and nothing else. *)
Theorem kinit_frees_all s H :
  lockinv H (k_lk s) → kmem_lock ∉ H → freelist (k_mem s) = 0 → ram (mbytes (k_mem s)) →
  runs (kinit s) (λ _ s', ∃ k ms l, s' = s <| k_lk := k |> <| k_mem := ms |> ∧ lockinv H k ∧
    freepages ms l ∧ ∀ p, p ∈ l ↔ page_ok p).
Proof.
  intros. apply runs_wp. eapply wp_kinit; [done..|]. intros k ms Hk _ Hfp.
  exists k, ms, (reverse all_pages). split_and!; [done|done|done|]. intros p.
  by rewrite elem_of_reverse, all_pages_ok.
Qed.
End stack.

(** a machine with two pages for the allocator *)
Definition two_pages : Symbols :=
  {| sym_end := PHYSTOP - 2 * PGSIZE; sym_etext := PHYSTOP - 3 * PGSIZE;
     sym_trampoline := PHYSTOP - 4 * PGSIZE; sym_uservec := PHYSTOP - 4 * PGSIZE;
     sym_userret := PHYSTOP - 4 * PGSIZE + 64; sym_kernelvec := PHYSTOP - 5 * PGSIZE;
     sym_usertrap := PHYSTOP - 6 * PGSIZE |}.
Lemma two_pages_ok : @SymbolsOk two_pages.
Proof. by split. Qed.
Lemma zeros_between lo hi : ∃ m : gmap Z Z, ∀ a, lo ≤ a < hi → is_Some (m !! a).
Proof.
  exists (gset_to_gmap 0 (list_to_set (seqZ lo (hi - lo)))). intros a Ha.
  apply elem_of_dom. rewrite dom_gset_to_gmap. apply elem_of_list_to_set, elem_of_seqZ. lia.
Qed.
Lemma ram_exists : ∃ m, ram m.
Proof. apply zeros_between. Qed.
Lemma kinit_frees_all_witness :
  ∃ s s' : kstate, @kinit two_pages s = Done tt s' ∧
    ∃ l, @freepages two_pages (k_mem s') l ∧ PHYSTOP - PGSIZE ∈ l.
Proof.
  destruct ram_exists as [m Hm]. pose proof two_pages_ok as Hok.
  destruct (@kinit_frees_all two_pages Hok (kstate0 <| k_mem := mk_memst m 0 0 |>) ∅)
    as ([] & s' & Hrun & k & ms & l & -> & _ & Hfp & Hl);
    [apply lockinv0|set_solver|done|done|].
  eexists _, _. split; [exact Hrun|]. exists l. split; [done|]. apply Hl. by split.
Defined.
Lemma kalloc_refines_stack_witness :
  ∃ s s' : kstate, @palloc_run two_pages [Palloc; Palloc; Palloc; Pfree (PHYSTOP - 2 * PGSIZE); Palloc] s
    = Done [PHYSTOP - PGSIZE; PHYSTOP - 2 * PGSIZE; 0; 0; PHYSTOP - 2 * PGSIZE] s'.
Proof.
  destruct ram_exists as [m Hm]. pose proof two_pages_ok as Hok.
  assert (Hinit : runs (@kinit two_pages (kstate0 <| k_mem := mk_memst m 0 0 |>)) (λ _ s',
    lockinv ∅ (k_lk s') ∧ @freepages two_pages (k_mem s') (reverse (@all_pages two_pages)))).
  { apply runs_wp. eapply (@wp_kinit two_pages Hok); [apply lockinv0|set_solver|done|done|]. done. }
  destruct Hinit as (_ & s & _ & Hlk & Hfp).
  destruct (@kalloc_refines_stack two_pages Hok
    [Palloc; Palloc; Palloc; Pfree (PHYSTOP - 2 * PGSIZE); Palloc] s ∅
    (reverse (@all_pages two_pages)) []
    [PHYSTOP - PGSIZE; PHYSTOP - 2 * PGSIZE; 0; 0; PHYSTOP - 2 * PGSIZE])
    as (vs & s' & Hrun & -> & _); [done|set_solver|done|by vm_compute|].
  exists s, s'. exact Hrun.
Defined.
