(* ===== verification/Vm.v ===== *)
(** * Page tables, [kernel/vm.c]

    Sv39 page tables in physical memory: a table is the address of its root
    page, an entry is a 64-bit word.  [proc_mapstacks] of [kernel/proc.c] is
    here too, since [kvmmake] calls it.  Loops that count through pages take
    a bound on their turns ([StopFuel] if it were exceeded).

    [copyout] takes the bytes to copy out as a list, [copyin] and [copyinstr]
    return the bytes they have written to the kernel's buffer. *)

From S2P Require Import Prelude Kstate Spinlock Bytes Layout Kalloc.
#[local] Open Scope Z_scope.

(** [e & flag] as a condition *)
Definition flag (e f : Z) : bool := negb (Z.land e f =? 0).
Definition pages_of (n : Z) : nat := Z.to_nat (n / PGSIZE).

Section code.
Context {SY : Symbols}.

(** the loop of [walk] over the two upper levels; [None] for a return of 0 *)
Fixpoint walk_levels (levels : list Z) (pagetable va : Z) (alloc : bool) : KM (option Z) :=
  match levels with
  | [] => ret (Some pagetable)
  | level :: levels =>
      let pte := pagetable + 8 * PX level va in
      let* e := ld64 pte in
      if flag e PTE_V then walk_levels levels (PTE2PA e) va alloc else
      if negb alloc then ret None else
      let* pagetable := kalloc in
      if pagetable =? 0 then ret None else
      kmemset pagetable 0 PGSIZE ;;
      st64 pte (Z.lor (PA2PTE pagetable) PTE_V) ;;
      walk_levels levels pagetable va alloc
  end.
Definition walk (pagetable va : Z) (alloc : bool) : KM Z :=
  if MAXVA <=? va then panic "walk" else
  let* r := walk_levels [2; 1] pagetable va alloc in
  match r with
  | Some pagetable => ret (pagetable + 8 * PX 0 va)
  | None => ret 0
  end.

Definition walkaddr (pagetable va : Z) : KM Z :=
  if MAXVA <=? va then ret 0 else
  let* pte := walk pagetable va false in
  if pte =? 0 then ret 0 else
  let* e := ld64 pte in
  if negb (flag e PTE_V) then ret 0 else
  if negb (flag e PTE_U) then ret 0 else
  ret (PTE2PA e).

Fixpoint mappages_loop (fuel : nat) (pagetable a last pa perm : Z) : KM Z :=
  match fuel with
  | O => stop_with StopFuel
  | S fuel =>
      let* pte := walk pagetable a true in
      if pte =? 0 then ret (-1) else
      let* e := ld64 pte in
      if flag e PTE_V then panic "mappages: remap" else
      st64 pte (Z.lor (Z.lor (PA2PTE pa) perm) PTE_V) ;;
      if a =? last then ret 0
      else mappages_loop fuel pagetable (u64 (a + PGSIZE)) last (u64 (pa + PGSIZE)) perm
  end.
Definition mappages (pagetable va size pa perm : Z) : KM Z :=
  if negb (va mod PGSIZE =? 0) then panic "mappages: va not aligned" else
  if negb (size mod PGSIZE =? 0) then panic "mappages: size not aligned" else
  if size =? 0 then panic "mappages: size" else
  mappages_loop (pages_of size) pagetable va (u64 (va + size - PGSIZE)) pa perm.

Definition kvmmap (kpgtbl va pa sz perm : Z) : KM unit :=
  let* r := mappages kpgtbl va sz pa perm in
  if negb (r =? 0) then panic "kvmmap" else ret tt.

Definition proc_mapstacks (kpgtbl : Z) : KM unit :=
  for_each all_procs (λ p,
    let* pa := kalloc in
    if pa =? 0 then panic "kalloc" else
    kvmmap kpgtbl (KSTACK p) pa PGSIZE (Z.lor PTE_R PTE_W)).

Definition kvmmake : KM Z :=
  let* kpgtbl := kalloc in
  kmemset kpgtbl 0 PGSIZE ;;
  kvmmap kpgtbl UART0 UART0 PGSIZE (Z.lor PTE_R PTE_W) ;;
  kvmmap kpgtbl VIRTIO0 VIRTIO0 PGSIZE (Z.lor PTE_R PTE_W) ;;
  kvmmap kpgtbl PLIC PLIC 0x4000000 (Z.lor PTE_R PTE_W) ;;
  kvmmap kpgtbl KERNBASE KERNBASE (sym_etext - KERNBASE) (Z.lor PTE_R PTE_X) ;;
  kvmmap kpgtbl sym_etext sym_etext (PHYSTOP - sym_etext) (Z.lor PTE_R PTE_W) ;;
  kvmmap kpgtbl TRAMPOLINE sym_trampoline PGSIZE (Z.lor PTE_R PTE_X) ;;
  proc_mapstacks kpgtbl ;;
  ret kpgtbl.

Definition kvminit : KM unit :=
  let* kpgtbl := kvmmake in
  modify (λ s, s <| k_mem ::= λ m, m <| kernel_pagetable := kpgtbl |> |>).
(** [sfence_vma] has no effect on this model, which has no TLB *)
Definition kvminithart : KM unit :=
  modify (λ s, s <| k_csr ::= λ c, c <| satp := MAKE_SATP (kernel_pagetable (k_mem s)) |> |>).

Definition uvmcreate : KM Z :=
  let* pagetable := kalloc in
  if pagetable =? 0 then ret 0 else
  kmemset pagetable 0 PGSIZE ;;
  ret pagetable.

(** the body of the loop of [uvmunmap]: a [continue] is a return *)
Definition uvmunmap_page (pagetable a : Z) (do_free : bool) : KM unit :=
  let* pte := walk pagetable a false in
  if pte =? 0 then ret tt else
  let* e := ld64 pte in
  if negb (flag e PTE_V) then ret tt else
  when do_free (kfree (PTE2PA e)) ;;
  st64 pte 0.
Fixpoint uvmunmap_loop (fuel : nat) (pagetable a stop : Z) (do_free : bool) : KM unit :=
  match fuel with
  | O => stop_with StopFuel
  | S fuel =>
      if a <? stop then
        uvmunmap_page pagetable a do_free ;;
        uvmunmap_loop fuel pagetable (u64 (a + PGSIZE)) stop do_free
      else ret tt
  end.
Definition uvmunmap (pagetable va npages : Z) (do_free : bool) : KM unit :=
  if negb (va mod PGSIZE =? 0) then panic "uvmunmap: not aligned" else
  uvmunmap_loop (S (Z.to_nat npages)) pagetable va (u64 (va + u64 (npages * PGSIZE))) do_free.

Definition uvmdealloc (pagetable oldsz newsz : Z) : KM Z :=
  if oldsz <=? newsz then ret oldsz else
  when (PGROUNDUP newsz <? PGROUNDUP oldsz) (
    let npages := s32 ((PGROUNDUP oldsz - PGROUNDUP newsz) / PGSIZE) in
    uvmunmap pagetable (PGROUNDUP newsz) (u64 npages) true) ;;
  ret newsz.

Fixpoint uvmalloc_loop (fuel : nat) (pagetable a oldsz newsz xperm : Z) : KM Z :=
  match fuel with
  | O => stop_with StopFuel
  | S fuel =>
      if a <? newsz then
        let* mem := kalloc in
        if mem =? 0 then uvmdealloc pagetable a oldsz ;; ret 0 else
        kmemset mem 0 PGSIZE ;;
        let* r := mappages pagetable a PGSIZE mem (Z.lor (Z.lor PTE_R PTE_U) xperm) in
        if negb (r =? 0) then
          kfree mem ;;
          uvmdealloc pagetable a oldsz ;;
          ret 0
        else uvmalloc_loop fuel pagetable (u64 (a + PGSIZE)) oldsz newsz xperm
      else ret newsz
  end.
Definition uvmalloc (pagetable oldsz newsz xperm : Z) : KM Z :=
  if newsz <? oldsz then ret oldsz else
  let oldsz := PGROUNDUP oldsz in
  uvmalloc_loop (S (S (pages_of (newsz - oldsz)))) pagetable oldsz oldsz newsz xperm.

(** [freewalk] descends once per level *)
Fixpoint freewalk_rec (depth : nat) (pagetable : Z) : KM unit :=
  match depth with
  | O => stop_with StopFuel
  | S depth =>
      for_each (seq 0 512) (λ i,
        let* pte := ld64 (pagetable + 8 * Z.of_nat i) in
        if flag pte PTE_V && negb (flag pte (Z.lor (Z.lor PTE_R PTE_W) PTE_X)) then
          freewalk_rec depth (PTE2PA pte) ;;
          st64 (pagetable + 8 * Z.of_nat i) 0
        else if flag pte PTE_V then panic "freewalk: leaf" else ret tt) ;;
      kfree pagetable
  end.
Definition freewalk : Z → KM unit := freewalk_rec 3.

Definition uvmfree (pagetable sz : Z) : KM unit :=
  when (0 <? sz) (uvmunmap pagetable 0 (PGROUNDUP sz / PGSIZE) true) ;;
  freewalk pagetable.

(** [uvmcopy]: [Some] ends the loop with the value of [i] at [err] *)
Fixpoint uvmcopy_loop (fuel : nat) (old new i sz : Z) : KM (option Z) :=
  match fuel with
  | O => stop_with StopFuel
  | S fuel =>
      if i <? sz then
        let next := uvmcopy_loop fuel old new (u64 (i + PGSIZE)) sz in
        let* pte := walk old i false in
        if pte =? 0 then next else
        let* e := ld64 pte in
        if negb (flag e PTE_V) then next else
        let pa := PTE2PA e in
        let flags := PTE_FLAGS e in
        let* mem := kalloc in
        if mem =? 0 then ret (Some i) else
        kmemmove mem pa PGSIZE ;;
        let* r := mappages new i PGSIZE mem flags in
        if negb (r =? 0) then kfree mem ;; ret (Some i)
        else next
      else ret None
  end.
Definition uvmcopy (old new sz : Z) : KM Z :=
  let* r := uvmcopy_loop (S (S (pages_of sz))) old new 0 sz in
  match r with
  | None => ret 0
  | Some i => uvmunmap new 0 (i / PGSIZE) true ;; ret (-1)
  end.

Definition uvmclear (pagetable va : Z) : KM unit :=
  let* pte := walk pagetable va false in
  if pte =? 0 then panic "uvmclear" else
  let* e := ld64 pte in
  st64 pte (Z.land e (Z.lnot PTE_U)).

Definition ismapped (pagetable va : Z) : KM bool :=
  let* pte := walk pagetable va false in
  if pte =? 0 then ret false else
  let* e := ld64 pte in
  ret (flag e PTE_V).

(** the [read] flag is not used *)
Definition vmfault (pagetable va : Z) : KM Z :=
  let* p := myproc in
  let* p := deref p in
  let* sz := rd p p_sz in
  if sz <=? va then ret 0 else
  let va := PGROUNDDOWN va in
  let* m := ismapped pagetable va in
  if m then ret 0 else
  let* mem := kalloc in
  if mem =? 0 then ret 0 else
  kmemset mem 0 PGSIZE ;;
  let* pt := rd p p_pagetable in
  let* r := mappages pt va PGSIZE mem (Z.lor (Z.lor PTE_W PTE_U) PTE_R) in
  if negb (r =? 0) then kfree mem ;; ret 0 else
  ret mem.

(** turns of a loop that handles [len] bytes, a page at a time *)
Definition copy_turns (len : Z) : nat := S (S (S (pages_of len))).

Fixpoint copyout_loop (fuel : nat) (pagetable dstva : Z) (src : list Z) (len : Z) : KM Z :=
  match fuel with
  | O => stop_with StopFuel
  | S fuel =>
      if 0 <? len then
        let va0 := PGROUNDDOWN dstva in
        if MAXVA <=? va0 then ret (-1) else
        let* pa0 := walkaddr pagetable va0 in
        let* pa0 := if pa0 =? 0 then vmfault pagetable va0 else ret pa0 in
        if pa0 =? 0 then ret (-1) else
        let* pte := walk pagetable va0 false in
        let* e := ld64 pte in
        if negb (flag e PTE_W) then ret (-1) else
        let n := PGSIZE - (dstva - va0) in
        let n := if len <? n then len else n in
        mem_op (λ m, store_bytes m (pa0 + (dstva - va0)) (take (Z.to_nat n) src)) ;;
        copyout_loop fuel pagetable (va0 + PGSIZE) (drop (Z.to_nat n) src) (len - n)
      else ret 0
  end.
Definition copyout (pagetable dstva : Z) (src : list Z) : KM Z :=
  let len := Z.of_nat (length src) in
  copyout_loop (copy_turns len) pagetable dstva src len.

(** the bytes are those written to [dst] so far *)
Fixpoint copyin_loop (fuel : nat) (pagetable srcva len : Z) : KM (Z * list Z) :=
  match fuel with
  | O => stop_with StopFuel
  | S fuel =>
      if 0 <? len then
        let va0 := PGROUNDDOWN srcva in
        let* pa0 := walkaddr pagetable va0 in
        let* pa0 := if pa0 =? 0 then vmfault pagetable va0 else ret pa0 in
        if pa0 =? 0 then ret (-1, []) else
        let n := PGSIZE - (srcva - va0) in
        let n := if len <? n then len else n in
        let* bs := mem_rd (λ m, load_bytes m (pa0 + (srcva - va0)) (Z.to_nat n)) in
        let* r := copyin_loop fuel pagetable (u64 (va0 + PGSIZE)) (len - n) in
        ret (r.1, bs ++ r.2)
      else ret (0, [])
  end.
Definition copyin (pagetable srcva len : Z) : KM (Z * list Z) :=
  copyin_loop (copy_turns len) pagetable srcva len.

(** the inner loop of [copyinstr]: at most [n] bytes from [p] on, up to a
    NUL, which is the last byte of the result if there is one *)
Fixpoint copyinstr_page (p : Z) (n : nat) : KM (list Z) :=
  match n with
  | O => ret []
  | S n =>
      let* c := mem_rd (λ m, byte_at m p) in
      if c =? 0 then ret [0] else
      let* bs := copyinstr_page (p + 1) n in
      ret (c :: bs)
  end.
Definition ends_in_nul (bs : list Z) : bool := bool_decide (last bs = Some 0).
Fixpoint copyinstr_loop (fuel : nat) (pagetable srcva max : Z) : KM (Z * list Z) :=
  match fuel with
  | O => stop_with StopFuel
  | S fuel =>
      if 0 <? max then
        let va0 := PGROUNDDOWN srcva in
        let* pa0 := walkaddr pagetable va0 in
        if pa0 =? 0 then ret (-1, []) else
        let n := PGSIZE - (srcva - va0) in
        let n := if max <? n then max else n in
        let* bs := copyinstr_page (pa0 + (srcva - va0)) (Z.to_nat n) in
        if ends_in_nul bs then ret (0, bs) else
        let* r := copyinstr_loop fuel pagetable (u64 (va0 + PGSIZE)) (max - n) in
        ret (r.1, bs ++ r.2)
      else ret (-1, [])
  end.
Definition copyinstr (pagetable srcva max : Z) : KM (Z * list Z) :=
  copyinstr_loop (copy_turns max) pagetable srcva max.
End code.
