(* ===== verification/PageTable.v ===== *)
(** * Page tables as finite maps

    A page table of [kernel/vm.c] is a tree of pages in physical memory.
    [ptrep m A] says that the memory [m] holds the page table [A]: the pages
    of the tree, and the map [leaf] from virtual page numbers to page-table
    entries, which is what the table means.  The theorems give the functions
    of [kernel/vm.c] their meaning as operations on that map and on the user
    memory it describes. *)

From S2P Require Import Prelude Kstate Spinlock Bytes Layout Kalloc Vm.
#[local] Open Scope Z_scope.

(** ** Arithmetic *)

Lemma div_512 j k : 0 ≤ k < 512 → (512 * j + k) / 512 = j.
Proof. intros Hk. rewrite Z.mul_comm, Z.div_add_l, Z.div_small by lia. lia. Qed.

Lemma PX_spec level va : 0 ≤ level → PX level va = va / 2 ^ (12 + 9 * level) mod 512.
Proof.
  intros Hl. unfold PX, PXMASK, PXSHIFT, PGSHIFT. change 511 with (Z.ones 9).
  by rewrite Z.land_ones, Z.shiftr_div_pow2 by lia.
Qed.
Lemma PX_range level va : 0 ≤ level → 0 ≤ PX level va < 512.
Proof. intros Hl. rewrite PX_spec by done. apply Z.mod_pos_bound. lia. Qed.

(** the number of a virtual page, and of the lowest-level table it is in *)
Definition vpn (va : Z) : Z := va / PGSIZE.
Lemma PX_0 va : PX 0 va = vpn va mod 512.
Proof. by rewrite PX_spec by lia. Qed.
Lemma PX_1 va : PX 1 va = vpn va / 512 mod 512.
Proof. rewrite PX_spec by lia. unfold vpn, PGSIZE. by rewrite Z.div_div by lia. Qed.
Lemma PX_2 va : 0 ≤ va < MAXVA → PX 2 va = vpn va / 512 / 512.
Proof.
  intros Hva. rewrite PX_spec by lia. unfold vpn, PGSIZE. rewrite !Z.div_div by lia.
  apply Z.mod_small. change MAXVA with (2 ^ 38) in Hva. change (2 ^ (12 + 9 * 2)) with (2 ^ 30).
  change (4096 * 512 * 512) with (2 ^ 30). split; [apply Z.div_pos; lia|apply Z.div_lt_upper_bound; lia].
Qed.

(** flags are below bit 10 of an entry, the page number above *)
Definition page_addr (pa : Z) : Prop := pa mod PGSIZE = 0 ∧ 0 ≤ pa < 2 ^ 56.
Lemma PA2PTE_eq pa : page_addr pa → PA2PTE pa = pa / 4096 * 1024.
Proof.
  intros [_ Hr]. unfold PA2PTE. rewrite Z.shiftr_div_pow2, Z.shiftl_mul_pow2 by lia. apply u64_small.
  change (2 ^ 12) with 4096. change (2 ^ 10) with 1024. pose proof (Z.div_pos pa 4096 ltac:(lia) ltac:(lia)).
  assert (pa / 4096 < 2 ^ 44) by (apply Z.div_lt_upper_bound; lia). lia.
Qed.
Lemma lor_low a f : 0 ≤ f < 1024 → Z.lor (a * 1024) f = a * 1024 + f.
Proof.
  intros Hf. change 1024 with (2 ^ 10) at 1. rewrite <- Z.shiftl_mul_pow2 by lia.
  apply Z.bits_inj'. intros n Hn. rewrite Z.lor_spec. change 1024 with (2 ^ 10) in *.
  destruct (Z.lt_ge_cases n 10) as [Hlt|Hge].
  - rewrite Z.shiftl_spec_low by done. simpl. rewrite <- (Z.mod_pow2_bits_low (a * 2 ^ 10 + f) 10 n) by lia.
    rewrite Z.add_comm, Z_mod_plus_full, Z.mod_pow2_bits_low by lia. done.
  - rewrite (Z.bits_above_log2 f n), orb_false_r; [|lia|].
    + rewrite Z.shiftl_spec by lia. replace n with (n - 10 + 10) at 2 by lia.
      rewrite <- Z.shiftr_spec by lia. rewrite Z.shiftr_div_pow2 by lia.
      rewrite Z.div_add_l by lia. by rewrite Z.div_small, Z.add_0_r by lia.
    + destruct (Z.eq_dec f 0) as [-> |]; [simpl; lia|]. apply Z.log2_lt_pow2; [lia|].
      apply Z.lt_le_trans with (2 ^ 10); [lia|]. apply Z.pow_le_mono_r; lia.
Qed.

Lemma flag_testbit e k : 0 ≤ k → flag e (Z.shiftl 1 k) = Z.testbit e k.
Proof.
  intros Hk. unfold flag. rewrite land_bit by done. apply negb_involutive.
Qed.

(** the entry of a page with the permissions [perm] *)
Definition pte_of (pa perm : Z) : Z := Z.lor (Z.lor (PA2PTE pa) perm) PTE_V.
Section pte.
Context (pa perm : Z) (Hpa : page_addr pa) (Hperm : 0 ≤ perm < 1024).
Lemma lor_V_range : 0 ≤ Z.lor perm 1 < 1024.
Proof.
  split; [apply Z.lor_nonneg; lia|]. change 1024 with (2 ^ 10). destruct (Z.eq_dec (Z.lor perm 1) 0) as [-> |]; [lia|].
  apply Z.log2_lt_pow2; [pose proof (proj2 (Z.lor_nonneg perm 1) ltac:(lia)); lia|].
  rewrite Z.log2_lor by lia. apply Z.max_lub_lt; [|simpl; lia].
  destruct (Z.eq_dec perm 0) as [-> |]; [simpl; lia|]. apply Z.log2_lt_pow2; lia.
Qed.
Lemma pte_of_eq : pte_of pa perm = pa / 4096 * 1024 + Z.lor perm 1.
Proof. unfold pte_of. rewrite PA2PTE_eq, <- Z.lor_assoc by done. apply lor_low, lor_V_range. Qed.
Lemma PTE2PA_pte_of : PTE2PA (pte_of pa perm) = pa.
Proof.
  destruct Hpa as [Ha Hr]. rewrite pte_of_eq. unfold PTE2PA. pose proof lor_V_range.
  rewrite Z.shiftr_div_pow2, Z.shiftl_mul_pow2 by lia. change (2 ^ 10) with 1024. change (2 ^ 12) with 4096.
  rewrite Z.div_add_l by lia. rewrite (Z.div_small (Z.lor perm 1)), Z.add_0_r by lia.
  unfold PGSIZE in Ha. pose proof (Z.div_mod pa 4096 ltac:(lia)). rewrite u64_small; lia.
Qed.
Lemma flag_pte_of k : 0 ≤ k < 10 → flag (pte_of pa perm) (Z.shiftl 1 k) = Z.testbit (Z.lor perm 1) k.
Proof.
  intros Hk. rewrite flag_testbit, pte_of_eq by lia.
  rewrite <- (Z.mod_pow2_bits_low _ 10 k) by lia. change (2 ^ 10) with 1024.
  rewrite Z.add_comm, Z_mod_plus_full, (Z.mod_small _ _ lor_V_range). done.
Qed.
Lemma flag_V_pte_of : flag (pte_of pa perm) PTE_V = true.
Proof. unfold PTE_V. rewrite flag_pte_of by lia. rewrite Z.lor_spec. apply orb_true_r. Qed.
Lemma pte_of_u64 : u64 (pte_of pa perm) = pte_of pa perm.
Proof.
  apply u64_small. rewrite pte_of_eq. pose proof lor_V_range. destruct Hpa as [_ Hr].
  assert (pa / 4096 < 2 ^ 44) by (apply Z.div_lt_upper_bound; lia). pose proof (Z.div_pos pa 4096 ltac:(lia) ltac:(lia)). lia.
Qed.
End pte.
(** an entry without permissions is that of a table *)
Lemma table_entry pa : page_addr pa → flag (pte_of pa 0) (Z.lor (Z.lor PTE_R PTE_W) PTE_X) = false.
Proof.
  intros Hpa. unfold flag. rewrite pte_of_eq by done || lia. apply negb_false_iff, Z.eqb_eq.
  apply Z.bits_inj'. intros n Hn. rewrite Z.land_spec, Z.bits_0. destruct (Z.lt_ge_cases n 10) as [Hlt|Hge].
  - rewrite <- (Z.mod_pow2_bits_low _ 10) by done. change (2 ^ 10) with 1024.
    rewrite Z.add_comm, Z_mod_plus_full, <- Z.land_spec. change (_ mod 1024) with 1. by rewrite Z.bits_0.
  - rewrite (Z.bits_above_log2 (Z.lor _ _)), andb_false_r; [done|done|]. by apply Z.lt_le_trans with 10.
Qed.
Lemma page_ok_addr {SY : Symbols} {SYok : SymbolsOk} q : page_ok q → page_addr q.
Proof.
  intros Hq. pose proof (page_ok_pos q Hq). destruct Hq as [Ha _]. split; [done|].
  unfold PHYSTOP, KERNBASE, PGSIZE in *. lia.
Qed.

(** ** Programs that use memory *)

Section mem.
Context (E : stop → Prop) (G : kstate → Prop) (R : kstate → kstate → Prop) (H : gset lockid).

(** [m], run with the locks [H] held and the memory [ms], ends with the same
    locks held and memory and result as [Q] says; it changes nothing but the
    locks and the memory *)
Definition mwp {A} (m : KM A) (ms : memst) (Q : A → memst → Prop) : Prop :=
  ∀ s, lockinv H (k_lk s) → k_mem s = ms →
    wp E G R (m s) (λ a s', ∃ k ms', s' = s <| k_lk := k |> <| k_mem := ms' |> ∧ lockinv H k ∧
      lk_frame (k_lk s) k ∧ Q a ms').

Lemma mwp_mono {A} (m : KM A) ms (Q Q' : A → memst → Prop) :
  (∀ a ms', Q a ms' → Q' a ms') → mwp m ms Q → mwp m ms Q'.
Proof.
  intros HQ Hm s Hs He. eapply wp_mono; [|by apply Hm]. intros a s' (k & ms' & ? & ? & ? & ?).
  exists k, ms'. eauto 10.
Qed.
Lemma mwp_bind {A B} (m : KM A) (f : A → KM B) ms Q :
  mwp m ms (λ a ms', mwp (f a) ms' Q) → mwp (bind m f) ms Q.
Proof.
  intros Hm s Hs He. apply wp_bind. eapply wp_mono; [|by apply Hm]. simpl.
  intros a s' (k & ms' & -> & Hk & Hfr & Hf). eapply wp_mono; [|by apply Hf].
  intros b s2 (k2 & ms2 & -> & Hk2 & Hfr2 & HQ). exists k2, ms2. split_and!; [done|done|by etrans|done].
Qed.
Lemma mwp_ret {A} (a : A) ms (Q : A → memst → Prop) : Q a ms → mwp (ret a) ms Q.
Proof.
  intros HQ s Hs <-. apply wp_done. exists (k_lk s), (k_mem s). by destruct s.
Qed.
Lemma mwp_mem_rd {A} (f : gmap Z Z → option A) v ms (Q : A → memst → Prop) :
  f (mbytes ms) = Some v → Q v ms → mwp (mem_rd f) ms Q.
Proof.
  intros Hf HQ s Hs <-. eapply wp_mem_rd; [done|]. exists (k_lk s), (k_mem s). by destruct s.
Qed.
Lemma mwp_mem_op f m ms (Q : unit → memst → Prop) :
  f (mbytes ms) = Some m → Q tt (ms <| mbytes := m |>) → mwp (mem_op f) ms Q.
Proof.
  intros Hf HQ s Hs <-. eapply wp_mem_op; [done|]. exists (k_lk s), ((k_mem s) <| mbytes := m |>). by destruct s.
Qed.
End mem.

(** ** What a page table means *)

(** the pages of the tree: the root, the tables of the middle level by the
    index in the root, those of the lowest level by their number; and the
    entries by page number *)
Record pt := mk_pt { root : Z; mid : gmap Z Z; low : gmap Z Z; leaf : gmap Z Z }.
#[export] Instance eta_pt : Eta pt := λ r, mk_pt (root r) (mid r) (low r) (leaf r).
#[export] Instance set_root : Setter root. Proof. solve_setter. Defined.
#[export] Instance set_mid : Setter mid. Proof. solve_setter. Defined.
#[export] Instance set_low : Setter low. Proof. solve_setter. Defined.
#[export] Instance set_leaf : Setter leaf. Proof. solve_setter. Defined.

Definition is_page (A : pt) (q : Z) : Prop :=
  q = root A ∨ (∃ i, mid A !! i = Some q) ∨ (∃ v, low A !! v = Some q).
Definition points_to (e : Z) (t : option Z) : Prop :=
  match t with
  | Some q => flag e PTE_V = true ∧ PTE2PA e = q ∧ flag e (Z.lor (Z.lor PTE_R PTE_W) PTE_X) = false
  | None => flag e PTE_V = false
  end.
Definition leaf_is (e : Z) (t : option Z) : Prop :=
  match t with Some e' => e = e' ∧ flag e PTE_V = true | None => flag e PTE_V = false end.

Section rep.
Context {SY : Symbols} {SYok : SymbolsOk}.

Record ptrep (m : gmap Z Z) (A : pt) : Prop := {
  pr_ok q : is_page A q → page_ok q;
  pr_mid_inj i j q : mid A !! i = Some q → mid A !! j = Some q → i = j;
  pr_low_inj i j q : low A !! i = Some q → low A !! j = Some q → i = j;
  pr_root_mid i : mid A !! i ≠ Some (root A);
  pr_root_low i : low A !! i ≠ Some (root A);
  pr_mid_low i j q : mid A !! i = Some q → low A !! j ≠ Some q;
  pr_root i : 0 ≤ i < 512 → ∃ e, load64 m (root A + 8 * i) = Some e ∧ points_to e (mid A !! i);
  pr_mid i q j : mid A !! i = Some q → 0 ≤ j < 512 →
    ∃ e, load64 m (q + 8 * j) = Some e ∧ points_to e (low A !! (512 * i + j));
  pr_low v q j : low A !! v = Some q → 0 ≤ j < 512 →
    ∃ e, load64 m (q + 8 * j) = Some e ∧ leaf_is e (leaf A !! (512 * v + j));
  pr_dom i : is_Some (mid A !! i) → 0 ≤ i < 512;
  pr_low_mid v : is_Some (low A !! v) → is_Some (mid A !! (v / 512));
  pr_leaf_low n : is_Some (leaf A !! n) → is_Some (low A !! (n / 512))
}.

(** a page table, and the pages on the free list *)
Record vmst (ms : memst) (A : pt) (l : list Z) : Prop := {
  vs_pt : ptrep (mbytes ms) A;
  vs_free : freepages ms l;
  vs_disj q : is_page A q → q ∉ l
}.

Lemma load64_page P m m' q j :
  same_outside P m m' → page_ok q → q ∉ P → 0 ≤ j < 512 → load64 m' (q + 8 * j) = load64 m (q + 8 * j).
Proof. intros Hs [Hq _] Hn Hj. apply (load64_same P); [done..|lia|unfold PGSIZE; lia]. Qed.

(** the page table is what the bytes of its pages say *)
Lemma ptrep_bytes m m' A : (∀ a, is_page A (PGROUNDDOWN a) → m' !! a = m !! a) → ptrep m A → ptrep m' A.
Proof.
  intros Hb Hp. pose proof Hp as [H1 H2 H3 H4 H5 H6 Hroot Hmid Hlow H9 H10 H11].
  assert (Hld : ∀ q j, is_page A q → 0 ≤ j < 512 → load64 m' (q + 8 * j) = load64 m (q + 8 * j)).
  { intros q j Hq Hj. unfold load64, load_le. rewrite (load_bytes_ext m m'); [done|]. intros i Hi. apply Hb.
    rewrite <- Z.add_assoc, page_of_offset; [done|by apply H1|unfold PGSIZE; lia]. }
  split; try done.
  - intros i Hi. rewrite Hld; [by apply Hroot|by left|done].
  - intros i q j Hq Hj. rewrite Hld; [by apply Hmid|right; left; eauto|done].
  - intros v q j Hq Hj. rewrite Hld; [by apply Hlow|right; right; eauto|done].
Qed.
Lemma ptrep_same P m m' A : same_outside P m m' → (∀ q, is_page A q → q ∉ P) → ptrep m A → ptrep m' A.
Proof. intros Hs Hn. apply ptrep_bytes. intros a Ha. by apply Hs, Hn. Qed.
Lemma freepages_same P ms l m' :
  same_outside P (mbytes ms) m' → ram m' → (∀ q, q ∈ l → q ∉ P) → freepages ms l → freepages (ms <| mbytes := m' |>) l.
Proof. intros Hs Hr Hn [Hl Hnd Hok _]. split; [by eapply flist_same|done..]. Qed.

(** ** Memory accesses *)

Context (E : stop → Prop) (G : kstate → Prop) (R : kstate → kstate → Prop) (H : gset lockid) (HH : kmem_lock ∉ H).
#[local] Abbreviation mwp := (mwp E G R H).

Lemma mwp_kalloc ms l (Q : Z → memst → Prop) :
  freepages ms l → (l = [] → Q 0 ms) →
  (∀ q l' ms', l = q :: l' → freepages ms' l' → page_ok q → q ∉ l' →
     same_outside [q] (mbytes ms) (mbytes ms') → Q q ms') →
  mwp kalloc ms Q.
Proof.
  intros Hf H0 H1 s Hs <-. eapply wp_kalloc; [done..|]. destruct l as [|q l].
  - intros k Hk Hfr. exists k, (k_mem s). split_and!; [by destruct s|done|done|by apply H0].
  - intros k ms' Hk Hfr Hf' Hq Hn Hsame _. exists k, ms'. split_and!; [done|done|done|by eapply H1].
Qed.
Lemma mwp_zero_page q ms l (Q : unit → memst → Prop) :
  freepages ms l → page_ok q → q ∉ l →
  (∀ ms', freepages ms' l → same_outside [q] (mbytes ms) (mbytes ms') →
     (∀ j, 0 ≤ j < 512 → load64 (mbytes ms') (q + 8 * j) = Some 0) → Q tt ms') →
  mwp (kmemset q 0 PGSIZE) ms Q.
Proof.
  intros Hf Hq Hn HQ. destruct (memset_spec (mbytes ms) q 0 PGSIZE) as (m1 & Hm1 & Hw1);
    [by compute|by apply ram_page; [apply Hf|]|].
  assert (Hs : same_outside [q] (mbytes ms) m1) by (by eapply written_page_outside, Hq).
  eapply mwp_mem_op; [exact Hm1|]. apply HQ.
  - eapply freepages_same; [done|eapply ram_written; [done|eauto|apply Hf]|set_solver|done].
  - done.
  - intros j Hj. unfold load64, load_le. change 8%nat with (length (replicate 8 0)).
    rewrite (load_bytes_at m1 (replicate 8 0)); [done|]. intros i x Hx.
    apply lookup_replicate in Hx as [-> Hi]. pose proof (Hw1 (q + 8 * j + Z.of_nat i)) as Hw.
    rewrite Hw, decide_True by (unfold PGSIZE; lia). done.
Qed.
(** a store to an entry of a table page *)
Lemma mwp_st64_page q j v ms l (Q : unit → memst → Prop) :
  freepages ms l → page_ok q → q ∉ l → 0 ≤ j < 512 → u64 v = v →
  (∀ ms', freepages ms' l → same_outside [q] (mbytes ms) (mbytes ms') →
     (∀ j', 0 ≤ j' < 512 → load64 (mbytes ms') (q + 8 * j') = if decide (j' = j) then Some v else load64 (mbytes ms) (q + 8 * j')) →
     Q tt ms') →
  mwp (st64 (q + 8 * j) v) ms Q.
Proof.
  intros Hf Hq Hn Hj Hv HQ. destruct (store64_spec (mbytes ms) (q + 8 * j) v) as (m1 & Hm1 & Hl & f & Hw & Hsome).
  { eapply mapped_sub; [apply (ram_page _ q); [apply Hf|done]| |]; unfold PGSIZE; lia. }
  assert (Hs : same_outside [q] (mbytes ms) m1).
  { eapply written_outside; [done|apply Hq|lia|unfold PGSIZE; lia]. }
  eapply mwp_mem_op; [exact Hm1|]. apply HQ.
  - eapply freepages_same; [done|eapply ram_written; [done|eauto|apply Hf]|set_solver|done].
  - done.
  - intros j' Hj'. case_decide; subst; [simpl; by rewrite Hl, Hv|]. simpl. eapply load64_other; [done|lia].
Qed.

(** ** [walk] *)

(** the address of the entry for [va], or 0 *)
Definition entry_addr (A : pt) (va : Z) : Z :=
  match low A !! (vpn va / 512) with Some q => q + 8 * PX 0 va | None => 0 end.

Lemma vpn_split va : 0 ≤ va < MAXVA →
  512 * PX 2 va + PX 1 va = vpn va / 512 ∧ 512 * (vpn va / 512) + PX 0 va = vpn va ∧ vpn va / 512 / 512 = PX 2 va.
Proof.
  intros Hva. rewrite PX_2, PX_1, PX_0 by done.
  pose proof (Z.div_mod (vpn va / 512) 512 ltac:(lia)). pose proof (Z.div_mod (vpn va) 512 ltac:(lia)). lia.
Qed.

Lemma mwp_walk A va ms (Q : Z → memst → Prop) :
  0 ≤ va < MAXVA → ptrep (mbytes ms) A → Q (entry_addr A va) ms → mwp (walk (root A) va false) ms Q.
Proof.
  intros Hva Hp HQ. destruct (vpn_split va Hva) as (E1 & E0 & E2). unfold walk.
  rewrite (proj2 (Z.leb_gt _ _)) by lia. apply mwp_bind. cbn [walk_levels].
  unfold entry_addr in HQ. rewrite <- E1 in HQ.
  destruct (pr_root _ _ Hp (PX 2 va)) as (e & He & Hpt); [apply PX_range; lia|].
  apply mwp_bind. eapply mwp_mem_rd; [exact He|]. destruct (mid A !! PX 2 va) as [q|] eqn:Hm; simpl in Hpt.
  - destruct Hpt as (-> & -> & _). destruct (pr_mid _ _ Hp _ _ (PX 1 va) Hm) as (e1 & He1 & Hpt1); [apply PX_range; lia|].
    apply mwp_bind. eapply mwp_mem_rd; [exact He1|].
    destruct (low A !! (512 * PX 2 va + PX 1 va)) as [q1|]; simpl in Hpt1.
    + destruct Hpt1 as (-> & -> & _). by apply mwp_ret, mwp_ret.
    + rewrite Hpt1. simpl. by apply mwp_ret, mwp_ret.
  - rewrite Hpt. simpl. apply mwp_ret, mwp_ret.
    destruct (low A !! (512 * PX 2 va + PX 1 va)) as [q1|] eqn:Hl; [|done].
    exfalso. destruct (pr_low_mid _ _ Hp (512 * PX 2 va + PX 1 va)) as [q Hq]; [by eauto|].
    rewrite E1, E2 in Hq. congruence.
Qed.

(** the entries of the tables in memory *)
Definition entries_set (A : pt) (p i e : Z) (m m' : gmap Z Z) : Prop :=
  ∀ q j, is_page A q → 0 ≤ j < 512 →
    load64 m' (q + 8 * j) = if decide (q = p ∧ j = i) then Some e else load64 m (q + 8 * j).
Lemma entries_other A p i e m m' q j : entries_set A p i e m m' → is_page A q → q ≠ p → 0 ≤ j < 512 →
  load64 m' (q + 8 * j) = load64 m (q + 8 * j).
Proof. intros Hs Hq Hne Hj. rewrite (Hs q j) by done. by rewrite decide_False by naive_solver. Qed.

Lemma ptrep_add_mid m m' A i q e :
  ptrep m A → mid A !! i = None → 0 ≤ i < 512 → page_ok q → ¬ is_page A q → points_to e (Some q) →
  entries_set A (root A) i e m m' → (∀ j, 0 ≤ j < 512 → load64 m' (q + 8 * j) = Some 0) →
  ptrep m' (A <| mid ::= <[i := q]> |>).
Proof.
  intros Hp Hi Hr Hq Hnq He Hset Hz. pose proof Hp as [H1 H2 H3 H4 H5 H6 Hroot Hmid Hlow H9 H10 H11].
  assert (Hnm : ∀ j, mid A !! j ≠ Some q) by (intros j Hj; apply Hnq; right; left; eauto).
  assert (Hnl : ∀ j, low A !! j ≠ Some q) by (intros j Hj; apply Hnq; right; right; eauto).
  assert (Hnr : q ≠ root A) by (intros ->; apply Hnq; by left).
  split; simpl.
  - intros p [-> |[[j Hj]|Hl]]; simpl in *; [apply H1; by left| |apply H1; by right; right].
    apply lookup_insert_Some in Hj as [[_ <-]|[_ Hj]]; [done|]. apply H1. right; left; eauto.
  - intros j k p. rewrite !lookup_insert_Some. naive_solver.
  - done.
  - intros j. rewrite lookup_insert_Some. naive_solver.
  - done.
  - intros j k p. rewrite lookup_insert_Some. naive_solver.
  - intros j Hj. rewrite (Hset (root A) j) by (done || by left). destruct (decide (j = i)) as [-> |Hne].
    + rewrite decide_True, lookup_insert_eq by done. eauto.
    + rewrite decide_False, lookup_insert_ne by naive_solver. by apply Hroot.
  - intros j p k Hj Hk. apply lookup_insert_Some in Hj as [[-> <-]|[Hne Hj]].
    + rewrite Hz by done. exists 0. split; [done|]. destruct (low A !! (512 * j + k)) eqn:Hl; [|done].
      exfalso. destruct (H10 (512 * j + k)) as [p Hp']; [eauto|].
      rewrite div_512 in Hp' by done. congruence.
    + rewrite (entries_other A (root A) i e m); [by apply Hmid|done|right; left; eauto| |done].
      intros ->. by eapply H4.
  - intros v p k Hv Hk. rewrite (entries_other A (root A) i e m); [by apply Hlow|done|right; right; eauto| |done].
    intros ->. by eapply H5.
  - intros j [p Hj]. apply lookup_insert_Some in Hj as [[<- _]|[_ Hj]]; [done|]. apply H9. eauto.
  - intros v Hv. destruct (H10 v Hv) as [p Hp']. rewrite lookup_insert_is_Some'. eauto.
  - done.
Qed.
Lemma ptrep_add_low m m' A i v p q e :
  ptrep m A → mid A !! i = Some p → low A !! (512 * i + v) = None → 0 ≤ v < 512 → page_ok q → ¬ is_page A q →
  points_to e (Some q) → entries_set A p v e m m' → (∀ j, 0 ≤ j < 512 → load64 m' (q + 8 * j) = Some 0) →
  ptrep m' (A <| low ::= <[512 * i + v := q]> |>).
Proof.
  intros Hp Hi Hv Hr Hq Hnq He Hset Hz. pose proof Hp as [H1 H2 H3 H4 H5 H6 Hroot Hmid Hlow H9 H10 H11].
  assert (Hnm : ∀ j, mid A !! j ≠ Some q) by (intros j Hj; apply Hnq; right; left; eauto).
  assert (Hnl : ∀ j, low A !! j ≠ Some q) by (intros j Hj; apply Hnq; right; right; eauto).
  assert (Hnr : q ≠ root A) by (intros ->; apply Hnq; by left).
  split; simpl.
  - intros p' [-> |[Hm|[j Hj]]]; simpl in *; [apply H1; by left|apply H1; by right; left|].
    apply lookup_insert_Some in Hj as [[_ <-]|[_ Hj]]; [done|]. apply H1. right; right; eauto.
  - done.
  - intros j k p'. rewrite !lookup_insert_Some. naive_solver.
  - done.
  - intros j. rewrite lookup_insert_Some. naive_solver.
  - intros j k p' Hj. rewrite lookup_insert_Some. naive_solver.
  - intros j Hj. rewrite (entries_other A p v e m); [by apply Hroot|done|by left| |done]. intros <-. by eapply H4.
  - intros j p' k Hj Hk. rewrite (Hset p' k) by (done || (right; left; by eauto)).
    destruct (decide (p' = p ∧ k = v)) as [[-> ->]|Hne].
    + assert (j = i) as -> by eauto. rewrite lookup_insert_eq. eauto.
    + rewrite lookup_insert_ne; [by apply Hmid|]. intros Heq.
      assert (j = i) as -> by (rewrite <- (div_512 j k), <- Heq, div_512 by done; done). apply Hne. split; [congruence|lia].
  - intros w p' k Hw Hk. apply lookup_insert_Some in Hw as [[<- <-]|[Hne Hw]].
    + rewrite Hz by done. exists 0. split; [done|]. destruct (leaf A !! _) eqn:Hl; [|done].
      exfalso. destruct (H11 (512 * (512 * i + v) + k)) as [x Hx]; [eauto|]. rewrite div_512 in Hx by done. congruence.
    + rewrite (entries_other A p v e m); [by apply Hlow|done|right; right; eauto| |done].
      intros ->. by eapply H6.
  - done.
  - intros w [x Hw]. apply lookup_insert_Some in Hw as [[<- _]|[_ Hw]]; [rewrite div_512 by done; eauto|]. apply H10. eauto.
  - intros n Hn. destruct (H11 n Hn) as [x Hx]. rewrite lookup_insert_is_Some'. eauto.
Qed.

(** a page table grows by pages of the free list *)
Record vext (A : pt) (l : list Z) (A' : pt) (l' : list Z) : Prop := {
  ve_root : root A' = root A;
  ve_grow q : is_page A q → is_page A' q;
  ve_all q : is_page A' q ∨ q ∈ l' ↔ is_page A q ∨ q ∈ l;
  ve_free : l' ⊆ l
}.
Lemma ve_page A l A' l' q : vext A l A' l' → is_page A' q → is_page A q ∨ q ∈ l.
Proof. intros Hx Hq. apply (ve_all _ _ _ _ Hx). by left. Qed.
(** the memory outside of the table and the free pages is kept *)
Definition kept (A : pt) (l : list Z) (m m' : gmap Z Z) : Prop :=
  ∀ a, ¬ is_page A (PGROUNDDOWN a) → PGROUNDDOWN a ∉ l → m' !! a = m !! a.
Lemma vext_refl A l : vext A l A l.
Proof. by split. Qed.
Lemma vext_trans A l A1 l1 A2 l2 : vext A l A1 l1 → vext A1 l1 A2 l2 → vext A l A2 l2.
Proof.
  intros [H1 H2 H3 H4] [H1' H2' H3' H4']. split; [congruence|by eauto| |set_solver].
  intros q. by rewrite H3', H3.
Qed.
Lemma kept_trans A l A1 l1 m m1 m2 : vext A l A1 l1 → kept A l m m1 → kept A1 l1 m1 m2 → kept A l m m2.
Proof.
  intros Hx K1 K2 a Ha Hal. rewrite K2; [by apply K1| |].
  - by intros [?|?]%(ve_page _ _ _ _ _ Hx).
  - intros Hin. by apply (ve_free _ _ _ _ Hx) in Hin.
Qed.
Lemma same_outside_kept P A l m m' :
  same_outside P m m' → (∀ q, q ∈ P → is_page A q ∨ q ∈ l) → kept A l m m'.
Proof. intros Hs HP a Ha Hl. apply Hs. intros Hin. by destruct (HP _ Hin). Qed.

#[local] Ltac other := first [done|rewrite list_elem_of_singleton; congruence].
(** the allocation of a table, whose address is stored in the entry [i] of
    the page [p] *)
Lemma mwp_new_table p i ms A l (k : Z → KM (option Z)) (Q : option Z → memst → Prop) :
  vmst ms A l → is_page A p → 0 ≤ i < 512 → (l = [] → Q None ms) →
  (∀ q l' ms' e, l = q :: l' → page_ok q → ¬ is_page A q → freepages ms' l' → q ∉ l' →
     entries_set A p i e (mbytes ms) (mbytes ms') → points_to e (Some q) →
     (∀ j, 0 ≤ j < 512 → load64 (mbytes ms') (q + 8 * j) = Some 0) → kept A l (mbytes ms) (mbytes ms') →
     mwp (k q) ms' Q) →
  mwp (let* pagetable := kalloc in
       if pagetable =? 0 then ret None else
       kmemset pagetable 0 PGSIZE ;;
       st64 (p + 8 * i) (Z.lor (PA2PTE pagetable) PTE_V) ;;
       k pagetable) ms Q.
Proof.
  intros [Hpt Hf Hdisj] Hp Hi H0 Hk. pose proof (pr_ok _ _ Hpt p Hp) as Hpok.
  apply mwp_bind. eapply mwp_kalloc; [done|intros ->; by apply mwp_ret, H0|].
  intros q l' ms1 -> Hf1 Hq Hnq S1.
  assert (Hnp : ¬ is_page A q) by (intros Hq'%Hdisj; set_solver).
  assert (Hqp : q ≠ p) by (by intros ->).
  rewrite (proj2 (Z.eqb_neq q 0)) by (apply page_ok_pos in Hq; unfold KERNBASE in Hq; lia).
  apply mwp_bind. eapply mwp_zero_page; [done..|]. intros ms2 Hf2 S2 Hz.
  assert (Hpl : p ∉ l') by (intros Hin; apply (Hdisj p Hp); set_solver).
  pose proof (page_ok_addr q Hq) as Hqa.
  assert (Heq : Z.lor (PA2PTE q) PTE_V = pte_of q 0) by (unfold pte_of; by rewrite Z.lor_0_r). rewrite Heq.
  apply mwp_bind. eapply mwp_st64_page; [done|done|done|done|apply pte_of_u64; [done|lia]|]. intros ms3 Hf3 S3 Hent.
  eapply (Hk q l' ms3 (pte_of q 0)); try done.
  - intros r j Hr Hj. destruct (decide (r = p)) as [-> |Hne].
    + rewrite Hent by done. destruct (decide (j = i)); [by rewrite decide_True|]. rewrite decide_False by naive_solver.
      rewrite (load64_page [q] (mbytes ms1)), (load64_page [q] (mbytes ms)) by other. done.
    + rewrite decide_False by naive_solver. assert (r ≠ q) by (by intros ->).
      pose proof (pr_ok _ _ Hpt r Hr) as Hrok.
      rewrite (load64_page [p] (mbytes ms2)), (load64_page [q] (mbytes ms1)), (load64_page [q] (mbytes ms)) by other. done.
  - split_and!; [by apply flag_V_pte_of|by apply PTE2PA_pte_of|by apply table_entry].
  - intros j Hj. rewrite (load64_page [p] (mbytes ms2)); [by apply Hz|done|done|set_solver|done].
  - eapply (same_outside_kept [q; p]).
    + transitivity (mbytes ms1); [eapply same_outside_mono; [|exact S1]; set_solver|].
      transitivity (mbytes ms2); eapply same_outside_mono; [|exact S2| |exact S3]; set_solver.
    + intros r [-> |[-> |[]%not_elem_of_nil]%elem_of_cons]%elem_of_cons; [right; set_solver|by left].
Qed.

(** the memory after the table has grown *)
Record grown (ms : memst) (A : pt) (l : list Z) (ms' : memst) (A' : pt) (l' : list Z) : Prop := {
  gr_vmst : vmst ms' A' l';
  gr_vext : vext A l A' l';
  gr_kept : kept A l (mbytes ms) (mbytes ms')
}.
Lemma grown_refl ms A l : vmst ms A l → grown ms A l ms A l.
Proof. intros Hv. split; [done|apply vext_refl|by intros a]. Qed.
Lemma grown_trans ms A l ms1 A1 l1 ms2 A2 l2 : grown ms A l ms1 A1 l1 → grown ms1 A1 l1 ms2 A2 l2 → grown ms A l ms2 A2 l2.
Proof. intros [V1 X1 K1] [V2 X2 K2]. split; [done|by eapply vext_trans|by eapply kept_trans]. Qed.

Lemma is_page_mid A i q p : mid A !! i = None → is_page (A <| mid ::= <[i := q]> |>) p ↔ p = q ∨ is_page A p.
Proof.
  intros Hi. unfold is_page. simpl. setoid_rewrite lookup_insert_Some. split.
  - intros [?|[[j [[_ ?]|[_ ?]]]|?]]; eauto.
  - intros [-> |[?|[[j Hj]|?]]]; [right; left; by eauto|by eauto| |by eauto]. right; left. exists j. right. split; [congruence|done].
Qed.
Lemma is_page_low A i q p : low A !! i = None → is_page (A <| low ::= <[i := q]> |>) p ↔ p = q ∨ is_page A p.
Proof.
  intros Hi. unfold is_page. simpl. setoid_rewrite lookup_insert_Some. split.
  - intros [?|[?|[j [[_ ?]|[_ ?]]]]]; eauto.
  - intros [-> |[?|[?|[j Hj]]]]; [right; right; by eauto|by eauto|by eauto|]. right; right. exists j. right. split; [congruence|done].
Qed.
(** a table that has grown by the page [q] *)
Lemma grown_by ms A ms' A' q l' :
  vmst ms A (q :: l') → ptrep (mbytes ms') A' → freepages ms' l' → q ∉ l' → kept A (q :: l') (mbytes ms) (mbytes ms') →
  root A' = root A → (∀ p, is_page A' p ↔ p = q ∨ is_page A p) → grown ms A (q :: l') ms' A' l'.
Proof.
  intros [Hp Hf Hd] Hp' Hf' Hq Hk Hr Hpg. split; [split; [done|done|]|split; [done| | |]|done].
  - intros p [-> |Hpp]%Hpg; [done|]. intros Hin. apply (Hd p Hpp), elem_of_cons. by right.
  - intros p Hpp. apply Hpg. by right.
  - intros p. rewrite Hpg, elem_of_cons. tauto.
  - intros x Hx. apply elem_of_cons. by right.
Qed.

Lemma mwp_level2 A va ls ms l (Q : option Z → memst → Prop) :
  0 ≤ va < MAXVA → vmst ms A l → (l = [] → Q None ms) →
  (∀ A' l' ms' p, grown ms A l ms' A' l' → leaf A' = leaf A → (length l ≤ length l' + 1)%nat → mid A' !! PX 2 va = Some p →
     mwp (walk_levels ls p va true) ms' Q) →
  mwp (walk_levels (2 :: ls) (root A) va true) ms Q.
Proof.
  intros Hva Hv H0 HQ. pose proof Hv as [Hp Hf Hd]. pose proof (PX_range 2 va ltac:(lia)) as Hr. cbn [walk_levels].
  destruct (pr_root _ _ Hp (PX 2 va) Hr) as (e & He & Hpt). apply mwp_bind. eapply mwp_mem_rd; [exact He|].
  destruct (mid A !! PX 2 va) as [q|] eqn:Hm; simpl in Hpt.
  { destruct Hpt as (-> & -> & _). apply (HQ A l); [by apply grown_refl|done|lia|done]. }
  rewrite Hpt. simpl. eapply mwp_new_table; [done|by left|done|done|].
  intros q l' ms' e' -> Hq Hnq Hf' Hnl Hset He' Hz Hkept.
  apply (HQ (A <| mid ::= <[PX 2 va := q]> |>) l'); [|done|simpl; lia|apply lookup_insert_eq].
  eapply grown_by; [done|by eapply ptrep_add_mid|done..|]. intros r. by apply is_page_mid.
Qed.
Lemma mwp_level1 A va p ms l (Q : option Z → memst → Prop) :
  0 ≤ va < MAXVA → vmst ms A l → mid A !! PX 2 va = Some p → (l = [] → Q None ms) →
  (∀ A' l' ms' q, grown ms A l ms' A' l' → leaf A' = leaf A → (length l ≤ length l' + 1)%nat →
     low A' !! (vpn va / 512) = Some q → Q (Some q) ms') →
  mwp (walk_levels [1] p va true) ms Q.
Proof.
  intros Hva Hv Hm H0 HQ. pose proof Hv as [Hp Hf Hd]. pose proof (PX_range 1 va ltac:(lia)) as Hr.
  destruct (vpn_split va Hva) as (E1 & E0 & E2). rewrite <- E1 in HQ. cbn [walk_levels].
  destruct (pr_mid _ _ Hp _ _ (PX 1 va) Hm Hr) as (e & He & Hpt). apply mwp_bind. eapply mwp_mem_rd; [exact He|].
  destruct (low A !! (512 * PX 2 va + PX 1 va)) as [q|] eqn:Hl; simpl in Hpt.
  { destruct Hpt as (-> & -> & _). apply mwp_ret, (HQ A l); [by apply grown_refl|done|lia|done]. }
  rewrite Hpt. simpl. eapply mwp_new_table; [done|right; left; eauto|done|done|].
  intros q l' ms' e' -> Hq Hnq Hf' Hnl Hset He' Hz Hkept.
  apply mwp_ret, (HQ (A <| low ::= <[512 * PX 2 va + PX 1 va := q]> |>) l'); [|done|simpl; lia|apply lookup_insert_eq].
  eapply grown_by; [done|by eapply ptrep_add_low|done..|]. intros r. by apply is_page_low.
Qed.
Lemma mwp_walk_alloc A va ms l (Q : Z → memst → Prop) :
  0 ≤ va < MAXVA → vmst ms A l →
  (∀ A' ms', grown ms A l ms' A' [] → leaf A' = leaf A → (length l < 2)%nat → Q 0 ms') →
  (∀ A' l' ms' q, grown ms A l ms' A' l' → leaf A' = leaf A → (length l ≤ length l' + 2)%nat →
     low A' !! (vpn va / 512) = Some q → Q (q + 8 * PX 0 va) ms') →
  mwp (walk (root A) va true) ms Q.
Proof.
  intros Hva Hv H0 HQ. unfold walk. rewrite (proj2 (Z.leb_gt _ _)) by lia. apply mwp_bind.
  eapply mwp_level2; [done|done|intros ->; apply mwp_ret, (H0 A); [by apply grown_refl|done|simpl; lia]|].
  intros A1 l1 ms1 p G1 L1 N1 Hm. eapply mwp_level1; [done|apply G1|done|intros ->; eapply mwp_ret, H0; [done|done|cbn [length] in N1; lia]|].
  intros A2 l2 ms2 q G2 L2 N2 Hl. eapply mwp_ret, HQ; [by eapply grown_trans|congruence|lia|done].
Qed.

(** ** [mappages] *)

Definition set_entry (n : Z) (t : option Z) (A : pt) : pt := A <| leaf ::= partial_alter (λ _, t) n |>.
Lemma set_entry_lookup n t A k : leaf (set_entry n t A) !! k = if decide (k = n) then t else leaf A !! k.
Proof. simpl. case_decide; subst; [apply lookup_partial_alter_eq|by apply lookup_partial_alter_ne]. Qed.
Lemma ptrep_set_leaf m m' A n q e t :
  ptrep m A → low A !! (n / 512) = Some q → leaf_is e t →
  entries_set A q (n mod 512) e m m' → ptrep m' (set_entry n t A).
Proof.
  intros Hp Hq He Hset. pose proof Hp as [H1 H2 H3 H4 H5 H6 Hroot Hmid Hlow H9 H10 H11].
  pose proof (Z.div_mod n 512 ltac:(lia)) as Hdm. split; try done.
  - intros i Hi. simpl. rewrite (entries_other A q (n mod 512) e m); [by apply Hroot|done|by left| |done]. intros <-. by eapply H5.
  - intros i p j Hi Hj. simpl in *. rewrite (entries_other A q (n mod 512) e m); [by apply Hmid|done|right; left; eauto| |done].
    intros ->. by eapply H6.
  - intros v p j Hv Hj. simpl in Hv. rewrite (Hset p j) by (done || (right; right; by eauto)). rewrite set_entry_lookup.
    destruct (decide (p = q ∧ j = n mod 512)) as [[-> ->]|Hne].
    + assert (v = n / 512) as -> by eauto. rewrite decide_True by lia. by exists e.
    + rewrite decide_False; [by apply Hlow|]. intros <-. apply Hne.
      rewrite div_512 in Hq by done. split; [congruence|]. rewrite Z.add_comm, Z.mul_comm, Z_mod_plus_full.
      by rewrite Z.mod_small.
  - intros k [x Hk]. rewrite set_entry_lookup in Hk. case_decide; subst; [eauto|]. apply H11. eauto.
Qed.
(** a store to an entry of a lowest-level table *)
Lemma mwp_st_leaf A n q e t ms l (Q : unit → memst → Prop) :
  vmst ms A l → low A !! (n / 512) = Some q → u64 e = e → leaf_is e t →
  (∀ ms', vmst ms' (set_entry n t A) l → same_outside [q] (mbytes ms) (mbytes ms') → Q tt ms') →
  mwp (st64 (q + 8 * (n mod 512)) e) ms Q.
Proof.
  intros [Hp Hf Hd] Hq Hu He HQ. assert (Hpq : is_page A q) by (right; right; eauto).
  pose proof (Z.mod_pos_bound n 512 ltac:(lia)) as Hr.
  eapply mwp_st64_page; [done|by apply (pr_ok _ _ Hp)|by apply Hd|done|done|].
  intros ms2 Hf2 S2 Hent. apply HQ; [|done]. split; [|done|done]. eapply ptrep_set_leaf; [done..|].
  intros p j Hpp Hj. destruct (decide (p = q)) as [-> |Hne].
  - rewrite Hent by done. destruct (decide (j = n mod 512)); [by rewrite decide_True|by rewrite decide_False by naive_solver].
  - rewrite decide_False by naive_solver. apply (load64_page [q]); [done|by apply (pr_ok _ _ Hp)|other|done].
Qed.

(** [k] pages from page number [v] on are mapped to [pa] and on *)
Fixpoint map_pages (k : nat) (v pa perm : Z) (L : gmap Z Z) : gmap Z Z :=
  match k with
  | O => L
  | S k => map_pages k (v + 1) (pa + PGSIZE) perm (<[v := pte_of pa perm]> L)
  end.

Lemma mwp_map_page A va pa perm ms l (k : KM Z) (Q : Z → memst → Prop) :
  0 ≤ va < MAXVA → page_addr pa → 0 ≤ perm < 1024 → vmst ms A l → leaf A !! vpn va = None →
  (∀ A' ms', grown ms A l ms' A' [] → leaf A' = leaf A → (length l < 2)%nat → Q (-1) ms') →
  (∀ A' l' ms', grown ms A l ms' A' l' → leaf A' = <[vpn va := pte_of pa perm]> (leaf A) → (length l ≤ length l' + 2)%nat →
     mwp k ms' Q) →
  mwp (let* pte := walk (root A) va true in
       if pte =? 0 then ret (-1) else
       let* e := ld64 pte in
       if flag e PTE_V then panic "mappages: remap" else
       st64 pte (Z.lor (Z.lor (PA2PTE pa) perm) PTE_V) ;; k) ms Q.
Proof.
  intros Hva Hpa Hperm Hv Hn H0 HQ. apply mwp_bind. eapply mwp_walk_alloc; [done|done|..].
  { intros A' ms' G1 L1 N1. by eapply mwp_ret, H0. }
  intros A1 l1 ms1 q G1 L1 N1 Hq. pose proof (gr_vmst _ _ _ _ _ _ G1) as [Hp1 Hf1 Hd1].
  assert (Hpq : is_page A1 q) by (right; right; eauto). pose proof (pr_ok _ _ Hp1 q Hpq) as Hqok.
  pose proof (PX_range 0 va ltac:(lia)) as Hr. destruct (vpn_split va Hva) as (_ & E0 & _).
  rewrite (proj2 (Z.eqb_neq _ _)) by (apply page_ok_pos in Hqok; unfold KERNBASE in Hqok; lia).
  destruct (pr_low _ _ Hp1 _ _ (PX 0 va) Hq Hr) as (e & He & Hle).
  apply mwp_bind. eapply mwp_mem_rd; [exact He|]. rewrite E0, L1, Hn in Hle. simpl in Hle. rewrite Hle.
  apply mwp_bind. rewrite PX_0.
  eapply (mwp_st_leaf A1 (vpn va) q _ (Some (pte_of pa perm))); [apply G1|done|by apply pte_of_u64|by split; [|apply flag_V_pte_of]|].
  intros ms2 Hv2 S2. apply (HQ (set_entry (vpn va) (Some (pte_of pa perm)) A1) l1 ms2); [|simpl; by rewrite L1|done].
  eapply grown_trans; [exact G1|]. split; [done|done|].
  eapply (same_outside_kept [q]); [done|]. intros r ->%list_elem_of_singleton. by left.
Qed.

Lemma map_pages_other k : ∀ v pa perm L n, n < v ∨ v + Z.of_nat k ≤ n → map_pages k v pa perm L !! n = L !! n.
Proof.
  induction k as [|k IH]; intros v pa perm L n Hn; simpl; [done|]. rewrite IH by lia. apply lookup_insert_ne. lia.
Qed.
Lemma map_pages_lookup k : ∀ v pa perm L i, 0 ≤ i < Z.of_nat k →
  map_pages k v pa perm L !! (v + i) = Some (pte_of (pa + i * PGSIZE) perm).
Proof.
  induction k as [|k IH]; intros v pa perm L i Hi; simpl; [lia|]. destruct (Z.eq_dec i 0) as [-> |Hne].
  - rewrite map_pages_other by lia. rewrite Z.add_0_r, lookup_insert_eq, Z.mul_0_l, Z.add_0_r. done.
  - replace (v + i) with (v + 1 + (i - 1)) by lia. rewrite IH by lia. f_equal. f_equal. unfold PGSIZE. lia.
Qed.

Lemma vpn_next va : vpn (va + PGSIZE) = vpn va + 1.
Proof. unfold vpn. rewrite <- (Z.mul_1_l PGSIZE) at 1. by rewrite Z.div_add. Qed.

Lemma mwp_mappages_loop n : ∀ fuel A va pa perm ms l (Q : Z → memst → Prop),
  (n < fuel)%nat → 0 ≤ va → va + (Z.of_nat n + 1) * PGSIZE ≤ MAXVA →
  pa mod PGSIZE = 0 → 0 ≤ pa → pa + (Z.of_nat n + 1) * PGSIZE ≤ 2 ^ 56 → 0 ≤ perm < 1024 → vmst ms A l →
  (∀ i, 0 ≤ i ≤ Z.of_nat n → leaf A !! (vpn va + i) = None) →
  (∀ A' ms' k, (k ≤ n)%nat → grown ms A l ms' A' [] → leaf A' = map_pages k (vpn va) pa perm (leaf A) →
     (length l < 2 * S n)%nat → Q (-1) ms') →
  (∀ A' l' ms', grown ms A l ms' A' l' → leaf A' = map_pages (S n) (vpn va) pa perm (leaf A) →
     (length l ≤ length l' + 2 * S n)%nat → Q 0 ms') →
  mwp (mappages_loop fuel (root A) va (va + Z.of_nat n * PGSIZE) pa perm) ms Q.
Proof.
  induction n as [|n IH]; intros fuel A va pa perm ms l Q Hfuel Hva Hmax Ha Hpa Hpam Hperm Hv Hnone H0 HQ;
    (destruct fuel as [|fuel]; [lia|]); cbn [mappages_loop];
    (eapply mwp_map_page; [unfold PGSIZE in *; lia|split; [done|unfold PGSIZE in *; lia]|done|done|
      rewrite <- (Z.add_0_r (vpn va)); apply Hnone; lia|intros A' ms' G1 L1 N1; apply (H0 A' ms' 0%nat); [lia|done|done|lia]|]);
    intros A1 l1 ms1 G1 L1 N1.
  - rewrite Z.add_0_r, Z.eqb_refl. apply mwp_ret. eapply HQ; [done|done|lia].
  - rewrite (proj2 (Z.eqb_neq _ _)) by (unfold PGSIZE; lia).
    assert (MAXVA = 2 ^ 38) by done. rewrite !u64_small by (unfold PGSIZE in *; lia).
    rewrite <- (ve_root _ _ _ _ (gr_vext _ _ _ _ _ _ G1)).
    replace (va + Z.of_nat (S n) * PGSIZE) with (va + PGSIZE + Z.of_nat n * PGSIZE) by lia.
    eapply IH; [lia|unfold PGSIZE in *; lia|lia| |unfold PGSIZE in *; lia|lia|done|apply G1| | |].
    + by rewrite <- Zplus_mod_idemp_r, Z_mod_same_full, Z.add_0_r.
    + intros i Hi. rewrite L1, vpn_next, lookup_insert_ne by lia. rewrite <- Z.add_assoc. apply Hnone. lia.
    + intros A' ms' k Hk G2 L2 N2. apply (H0 A' ms' (S k)); [lia|by eapply grown_trans| |lia]. simpl. by rewrite L2, L1, vpn_next.
    + intros A' l' ms' G2 L2 N2. eapply HQ; [by eapply grown_trans| |lia]. simpl. simpl in L2. by rewrite L2, L1, vpn_next.
Qed.

Lemma mwp_mappages n A va pa perm ms l (Q : Z → memst → Prop) :
  va mod PGSIZE = 0 → 0 ≤ va → va + (Z.of_nat n + 1) * PGSIZE ≤ MAXVA →
  pa mod PGSIZE = 0 → 0 ≤ pa → pa + (Z.of_nat n + 1) * PGSIZE ≤ 2 ^ 56 → 0 ≤ perm < 1024 → vmst ms A l →
  (∀ i, 0 ≤ i ≤ Z.of_nat n → leaf A !! (vpn va + i) = None) →
  (∀ A' ms' k, (k ≤ n)%nat → grown ms A l ms' A' [] → leaf A' = map_pages k (vpn va) pa perm (leaf A) →
     (length l < 2 * S n)%nat → Q (-1) ms') →
  (∀ A' l' ms', grown ms A l ms' A' l' → leaf A' = map_pages (S n) (vpn va) pa perm (leaf A) →
     (length l ≤ length l' + 2 * S n)%nat → Q 0 ms') →
  mwp (mappages (root A) va ((Z.of_nat n + 1) * PGSIZE) pa perm) ms Q.
Proof.
  intros Hva Hv0 Hmax Ha Hpa Hpam Hperm Hv Hnone H0 HQ. unfold mappages.
  rewrite Hva, Z_mod_mult, (proj2 (Z.eqb_neq ((Z.of_nat n + 1) * PGSIZE) 0)) by (unfold PGSIZE; lia). simpl.
  assert (MAXVA = 2 ^ 38) by done. unfold pages_of. rewrite Z.div_mul by done.
  rewrite u64_small by (unfold PGSIZE in *; lia).
  replace (va + (Z.of_nat n + 1) * PGSIZE - PGSIZE) with (va + Z.of_nat n * PGSIZE) by lia.
  eapply mwp_mappages_loop; try done. lia.
Qed.

(** ** User memory *)

(** the entry and the physical address of a user address *)
Definition user_entry (A : pt) (va : Z) : option Z := leaf A !! vpn va.
Definition user_addr (A : pt) (va : Z) : option Z :=
  match user_entry A va with
  | Some e => if flag e PTE_U then Some (PTE2PA e + va mod PGSIZE) else None
  | None => None
  end.
Definition umem (m : gmap Z Z) (A : pt) (va : Z) : option Z := user_addr A va ≫= λ a, m !! a.
(** user pages are pages of memory, not in the page table, one for each page number *)
Record user_pages (A : pt) : Prop := {
  up_ok n e : leaf A !! n = Some e → flag e PTE_U = true → page_ok (PTE2PA e) ∧ ¬ is_page A (PTE2PA e);
  up_inj n n' e e' : leaf A !! n = Some e → leaf A !! n' = Some e' → flag e PTE_U = true → flag e' PTE_U = true →
    PTE2PA e = PTE2PA e' → n = n'
}.
Lemma vpn_rounddown va : vpn (PGROUNDDOWN va) = vpn va.
Proof.
  rewrite PGROUNDDOWN_eq. unfold vpn. pose proof (Z.div_mod va PGSIZE ltac:(done)) as Hd.
  replace (va - va mod PGSIZE) with (va / PGSIZE * PGSIZE) by lia. by rewrite Z.div_mul.
Qed.
Lemma entry_addr_rounddown A va : entry_addr A (PGROUNDDOWN va) = entry_addr A va.
Proof. unfold entry_addr. by rewrite vpn_rounddown, !PX_0, vpn_rounddown. Qed.

(** the entry of a mapped address in memory *)
Lemma mapped_entry m A va e :
  ptrep m A → 0 ≤ va < MAXVA → leaf A !! vpn va = Some e →
  entry_addr A va ≠ 0 ∧ load64 m (entry_addr A va) = Some e ∧ flag e PTE_V = true.
Proof.
  intros Hp Hva He. destruct (pr_leaf_low _ _ Hp (vpn va)) as [q Hq]; [eauto|]. unfold entry_addr. rewrite Hq.
  pose proof (PX_range 0 va ltac:(lia)) as Hr. destruct (vpn_split va Hva) as (_ & E0 & _).
  destruct (pr_low _ _ Hp _ _ (PX 0 va) Hq Hr) as (e' & He' & Hl). rewrite E0, He in Hl. destruct Hl as [-> Hv].
  split_and!; [|done|done]. assert (page_ok q) as Hqok by (apply (pr_ok _ _ Hp); right; right; eauto).
  apply page_ok_pos in Hqok. unfold KERNBASE in Hqok. lia.
Qed.
Lemma mwp_walkaddr A va e ms (Q : Z → memst → Prop) :
  0 ≤ va < MAXVA → ptrep (mbytes ms) A → leaf A !! vpn va = Some e → flag e PTE_U = true →
  Q (PTE2PA e) ms → mwp (walkaddr (root A) va) ms Q.
Proof.
  intros Hva Hp He Hu HQ. destruct (mapped_entry _ _ _ _ Hp Hva He) as (Hnz & Hl & Hv).
  unfold walkaddr. rewrite (proj2 (Z.leb_gt _ _)) by lia. apply mwp_bind. eapply mwp_walk; [done|done|].
  rewrite (proj2 (Z.eqb_neq _ _)) by done. apply mwp_bind. eapply mwp_mem_rd; [exact Hl|].
  rewrite Hv, Hu. simpl. by apply mwp_ret.
Qed.

(** the addresses of a range are mapped for the user, and writable if [w] *)
Definition user_range (A : pt) (va len : Z) (w : bool) : Prop :=
  0 ≤ va ∧ va + len ≤ MAXVA ∧ ∀ i, 0 ≤ i < len →
    ∃ e, leaf A !! vpn (va + i) = Some e ∧ flag e PTE_U = true ∧ (w = true → flag e PTE_W = true).
Lemma user_range_sub A va len n w : 0 ≤ n ≤ len → user_range A va len w → user_range A (va + n) (len - n) w.
Proof.
  intros Hn (H1 & H2 & H3). split_and!; [lia|lia|]. intros i Hi. rewrite <- Z.add_assoc. apply H3. lia.
Qed.
(** the part of a range in its first page *)
Definition first_part (va len : Z) : Z := let n := PGSIZE - va mod PGSIZE in if len <? n then len else n.
Lemma first_part_bounds va len : 0 < len → 0 < first_part va len ≤ len ∧ va mod PGSIZE + first_part va len ≤ PGSIZE.
Proof.
  intros Hl. unfold first_part. pose proof (Z.mod_pos_bound va PGSIZE ltac:(done)).
  destruct (Z.ltb_spec len (PGSIZE - va mod PGSIZE)); lia.
Qed.
Lemma vpn_first_part va i : 0 ≤ i → va mod PGSIZE + i < PGSIZE → vpn (va + i) = vpn va ∧ (va + i) mod PGSIZE = va mod PGSIZE + i.
Proof.
  intros Hi Hlt. pose proof (Z.mod_pos_bound va PGSIZE ltac:(done)). pose proof (Z.div_mod va PGSIZE ltac:(done)) as Hd.
  unfold vpn. replace (va + i) with (va mod PGSIZE + i + va / PGSIZE * PGSIZE) by lia.
  rewrite Z.div_add, Z_mod_plus_full, Z.div_small, Z.mod_small by done || lia. lia.
Qed.
(** the turns a copy needs *)
Definition enough_turns (va len : Z) (turns : nat) : Prop :=
  0 ≤ len ∧ (va mod PGSIZE + len) / PGSIZE + 1 < Z.of_nat turns.
Lemma enough_turns_next va len turns :
  0 < len → 0 ≤ va → enough_turns va len (S turns) →
  first_part va len = len ∧ (0 < turns)%nat ∨
  PGROUNDDOWN va + PGSIZE = va + first_part va len ∧
    enough_turns (va + first_part va len) (len - first_part va len) turns.
Proof.
  intros Hl Hva [_ Ht]. unfold first_part. pose proof (Z.mod_pos_bound va PGSIZE ltac:(done)) as Hm.
  rewrite PGROUNDDOWN_eq. destruct (Z.ltb_spec len (PGSIZE - va mod PGSIZE)).
  - left. split; [done|]. pose proof (Z.div_pos (va mod PGSIZE + len) PGSIZE ltac:(lia) ltac:(done)). lia.
  - right. split; [lia|]. unfold enough_turns.
    replace (va + (PGSIZE - va mod PGSIZE)) with ((va / PGSIZE + 1) * PGSIZE) by (pose proof (Z.div_mod va PGSIZE ltac:(done)); lia).
    rewrite Z_mod_mult. split; [lia|]. replace (va mod PGSIZE + len) with (0 + (len - (PGSIZE - va mod PGSIZE)) + 1 * PGSIZE) in Ht by lia.
    rewrite Z.div_add in Ht by done. lia.
Qed.
Lemma copy_turns_enough va len : 0 ≤ len → enough_turns va len (copy_turns len).
Proof.
  intros Hl. split; [done|]. unfold copy_turns, pages_of. pose proof (Z.div_pos len PGSIZE ltac:(lia) ltac:(done)).
  pose proof (Z.mod_pos_bound va PGSIZE ltac:(done)).
  assert ((va mod PGSIZE + len) / PGSIZE ≤ (len + 1 * PGSIZE) / PGSIZE) as Hle by (apply Z.div_le_mono; [done|lia]).
  rewrite Z.div_add in Hle by done. lia.
Qed.

Lemma PGROUNDDOWN_range va : 0 ≤ va → 0 ≤ PGROUNDDOWN va ≤ va.
Proof.
  intros Hva. rewrite PGROUNDDOWN_eq. pose proof (Z.mod_le va PGSIZE Hva ltac:(done)).
  pose proof (Z.mod_pos_bound va PGSIZE ltac:(done)). lia.
Qed.
(** the translation of a user address, as the copies do it *)
Lemma mwp_user_page {B} A va e ms (fail : KM B) (k : Z → KM B) (Q : B → memst → Prop) :
  user_pages A → ptrep (mbytes ms) A → 0 ≤ va < MAXVA → leaf A !! vpn va = Some e → flag e PTE_U = true →
  mwp (k (PTE2PA e)) ms Q →
  mwp (let* pa0 := walkaddr (root A) (PGROUNDDOWN va) in
       let* pa0 := if pa0 =? 0 then vmfault (root A) (PGROUNDDOWN va) else ret pa0 in
       if pa0 =? 0 then fail else k pa0) ms Q.
Proof.
  intros Hup Hp Hva He Hu Hk. destruct (up_ok _ Hup _ _ He Hu) as [Hpg _]. apply page_ok_pos in Hpg as Hpos.
  pose proof (PGROUNDDOWN_range va ltac:(lia)). assert (PTE2PA e ≠ 0) as Hnz by (unfold KERNBASE in Hpos; lia).
  apply mwp_bind. eapply mwp_walkaddr; [lia|done|by rewrite vpn_rounddown|done|].
  rewrite (proj2 (Z.eqb_neq _ _) Hnz). apply mwp_bind, mwp_ret. by rewrite (proj2 (Z.eqb_neq _ _) Hnz).
Qed.

Lemma mwp_copyin_loop ms A : ptrep (mbytes ms) A → user_pages A → ram (mbytes ms) → ∀ turns va len,
  enough_turns va len turns → user_range A va len false →
  mwp (copyin_loop turns (root A) va len) ms (λ r ms', ms' = ms ∧ r.1 = 0 ∧ Z.of_nat (length r.2) = len ∧
    ∀ i x, r.2 !! i = Some x → umem (mbytes ms) A (va + Z.of_nat i) = Some x).
Proof.
  intros Hp Hup Hram. induction turns as [|turns IH]; intros va len Ht Hr.
  { destruct Ht as [Hl Ht]. pose proof (Z.div_pos (va mod PGSIZE + len) PGSIZE) as Hd.
    pose proof (Z.mod_pos_bound va PGSIZE ltac:(done)). lia. }
  cbn [copyin_loop]. destruct (Z.ltb_spec 0 len) as [Hl|Hl].
  2: { apply mwp_ret. destruct Ht as [? _]. split_and!; [done|done|simpl; lia|done]. }
  pose proof Hr as (Hva & Hmax & Hmap). destruct (Hmap 0 ltac:(lia)) as (e & He & Hu & _). rewrite Z.add_0_r in He.
  pose proof (PGROUNDDOWN_eq va) as Hrd. destruct (up_ok _ Hup _ _ He Hu) as [Hpg _].
  eapply mwp_user_page; [done..|lia|done|done|].
  replace (va - PGROUNDDOWN va) with (va mod PGSIZE) by lia. fold (first_part va len).
  destruct (first_part_bounds va len Hl) as [Hfp Hfp2]. set (n := first_part va len) in *.
  destruct (load_bytes_mapped (mbytes ms) (Z.to_nat n) (PTE2PA e + va mod PGSIZE)) as (bs & Hbs & Hlen & Hat).
  { rewrite Z2Nat.id by lia. eapply mapped_sub; [by apply ram_page|..]; pose proof (Z.mod_pos_bound va PGSIZE ltac:(done)); lia. }
  apply mwp_bind. eapply mwp_mem_rd; [exact Hbs|].
  assert (Hfirst : ∀ i x, bs !! i = Some x → umem (mbytes ms) A (va + Z.of_nat i) = Some x).
  { intros i x Hx. pose proof (lookup_lt_Some _ _ _ Hx). destruct (vpn_first_part va (Z.of_nat i)) as [Hv Hm]; [lia|lia|].
    unfold umem, user_addr, user_entry. rewrite Hv, He, Hu, Hm. simpl. rewrite Z.add_assoc. by apply Hat. }
  apply mwp_bind. apply mwp_mono with (Q := λ (r : Z * list Z) ms', ms' = ms ∧ r.1 = 0 ∧ Z.of_nat (length r.2) = len - n ∧
    ∀ i x, r.2 !! i = Some x → umem (mbytes ms) A (va + n + Z.of_nat i) = Some x).
  { intros [c cs] ms' (-> & -> & Hcl & Hcs). apply mwp_ret. cbn [fst snd] in *. split_and!; [done..| |].
    { rewrite length_app. lia. }
    intros i x [Hx|[Hge Hx]]%lookup_app_Some; [by apply Hfirst|]. apply Hcs in Hx. rewrite <- Hx. f_equal. lia. }
  destruct (enough_turns_next va len turns Hl Hva Ht) as [[Hall Hturns]|[Hnext Hleft]].
  - destruct turns as [|turns]; [lia|]. cbn [copyin_loop]. fold n in Hall. rewrite (proj2 (Z.ltb_ge 0 (len - n))) by lia.
    apply mwp_ret. split_and!; [done|done|simpl; lia|done].
  - fold n in Hnext, Hleft. assert (MAXVA = 2 ^ 38) by done. rewrite u64_small by lia. rewrite Hnext.
    apply IH; [done|]. apply user_range_sub; [lia|done].
Qed.

(** user addresses are translated to different physical addresses *)
Lemma user_addr_Some A x a : user_addr A x = Some a → ∃ e, leaf A !! vpn x = Some e ∧ flag e PTE_U = true ∧ a = PTE2PA e + x mod PGSIZE.
Proof.
  unfold user_addr, user_entry. destruct (leaf A !! vpn x) as [e|]; [|done]. destruct (flag e PTE_U) eqn:Hu; [|done].
  intros [= <-]. eauto.
Qed.
Lemma user_addr_inj A x y a : user_pages A → user_addr A x = Some a → user_addr A y = Some a → x = y.
Proof.
  intros Hup (e & He & Hu & ->)%user_addr_Some (e' & He' & Hu' & Heq)%user_addr_Some.
  destruct (up_ok _ Hup _ _ He Hu) as [[Ha _] _]. destruct (up_ok _ Hup _ _ He' Hu') as [[Ha' _] _].
  pose proof (Z.mod_pos_bound x PGSIZE ltac:(done)) as Hx. pose proof (Z.mod_pos_bound y PGSIZE ltac:(done)) as Hy.
  pose proof (page_of_offset _ _ Ha Hx) as Hp. rewrite Heq, (page_of_offset _ _ Ha' Hy) in Hp.
  assert (vpn x = vpn y) by (eapply up_inj; eauto). unfold vpn in *.
  pose proof (Z.div_mod x PGSIZE ltac:(done)). pose proof (Z.div_mod y PGSIZE ltac:(done)). lia.
Qed.
Lemma user_addr_page A x a : user_pages A → user_addr A x = Some a → page_ok (PGROUNDDOWN a) ∧ ¬ is_page A (PGROUNDDOWN a).
Proof.
  intros Hup (e & He & Hu & ->)%user_addr_Some. destruct (up_ok _ Hup _ _ He Hu) as [Hok Hn].
  rewrite page_of_offset; [done|apply Hok|]. by apply Z.mod_pos_bound.
Qed.

(** [m'] is [m] with the bytes [bs] at the user addresses from [va] on *)
Record user_written (A : pt) (va : Z) (bs : list Z) (m m' : gmap Z Z) : Prop := {
  uw_in i x : bs !! i = Some x → umem m' A (va + Z.of_nat i) = Some x;
  uw_out a : (∀ i, (i < length bs)%nat → user_addr A (va + Z.of_nat i) ≠ Some a) → m' !! a = m !! a
}.
Lemma user_written_nil A va m : user_written A va [] m m.
Proof. by split. Qed.
Lemma user_written_app A va bs bs' m m1 m2 : user_pages A →
  user_written A va bs m m1 → user_written A (va + Z.of_nat (length bs)) bs' m1 m2 → user_written A va (bs ++ bs') m m2.
Proof.
  intros Hup [I1 O1] [I2 O2]. split.
  - intros i x [Hx|[Hge Hx]]%lookup_app_Some.
    + pose proof (lookup_lt_Some _ _ _ Hx). specialize (I1 _ _ Hx). unfold umem in *.
      destruct (user_addr A (va + Z.of_nat i)) as [a|] eqn:Ha; [|done]. simpl in *. rewrite O2; [done|].
      intros j _ Hj. pose proof (user_addr_inj _ _ _ _ Hup Ha Hj). lia.
    + apply I2 in Hx. rewrite <- Hx. f_equal. lia.
  - intros a Ha. rewrite O2, O1; [done|..]; intros i Hi.
    + apply Ha. rewrite length_app. lia.
    + specialize (Ha (length bs + i)%nat). rewrite <- Z.add_assoc, <- Nat2Z.inj_add. apply Ha. rewrite length_app. lia.
Qed.
(** nothing but user pages changes, so the page table is kept *)
Lemma user_written_outside A va bs m m' :
  user_pages A → user_written A va bs m m' → ∀ a, is_page A (PGROUNDDOWN a) → m' !! a = m !! a.
Proof. intros Hup [_ O] a Ha. apply O. intros i _ Hi. by destruct (user_addr_page _ _ _ Hup Hi). Qed.
Lemma umem_other A va bs m m' x : user_pages A →
  user_written A va bs m m' → ¬ va ≤ x < va + Z.of_nat (length bs) → umem m' A x = umem m A x.
Proof.
  intros Hup [_ O] Hx. unfold umem. destruct (user_addr A x) as [a|] eqn:Ha; [|done]. simpl. apply O.
  intros i Hi Hi'. pose proof (user_addr_inj _ _ _ _ Hup Ha Hi'). lia.
Qed.

(** a copy within a page *)
Lemma user_written_page A va bs e m : user_pages A → ram m →
  leaf A !! vpn va = Some e → flag e PTE_U = true → va mod PGSIZE + Z.of_nat (length bs) ≤ PGSIZE →
  ∃ m', store_bytes m (PTE2PA e + va mod PGSIZE) bs = Some m' ∧
    user_written A va bs m m' ∧ ram m' ∧ same_outside [PTE2PA e] m m'.
Proof.
  intros Hup Hram He Hu Hfit. destruct (up_ok _ Hup _ _ He Hu) as [Hpg _].
  pose proof (Z.mod_pos_bound va PGSIZE ltac:(done)) as Hm.
  destruct (store_bytes_spec bs m (PTE2PA e + va mod PGSIZE)) as (m' & Hst & Hw).
  { eapply mapped_sub; [by apply ram_page|lia|lia]. }
  assert (Haddr : ∀ i, (i < length bs)%nat → user_addr A (va + Z.of_nat i) = Some (PTE2PA e + va mod PGSIZE + Z.of_nat i)).
  { intros i Hi. destruct (vpn_first_part va (Z.of_nat i)) as [Hv Hmod]; [lia|lia|].
    unfold user_addr, user_entry. rewrite Hv, He, Hu, Hmod. f_equal. lia. }
  exists m'. split_and!; [done| | |].
  - split.
    + intros i x Hx. pose proof (lookup_lt_Some _ _ _ Hx). unfold umem. rewrite Haddr by done.
      pose proof (Hw (PTE2PA e + va mod PGSIZE + Z.of_nat i)) as Hwi. simpl in *. rewrite Hwi, decide_True by lia.
      rewrite <- Hx. f_equal. lia.
    + intros a Ha. pose proof (Hw a) as Hwa. simpl in Hwa. rewrite Hwa. case_decide as Hd; [|done]. exfalso.
      apply (Ha (Z.to_nat (a - (PTE2PA e + va mod PGSIZE)))); [lia|]. rewrite Haddr by lia. f_equal. lia.
  - eapply ram_written; [done| |done]. intros i Hi. apply lookup_lt_is_Some. lia.
  - eapply written_outside; [done|apply Hpg|lia|lia].
Qed.
Lemma mwp_copyout_loop A : user_pages A → ∀ turns ms va src,
  ptrep (mbytes ms) A → ram (mbytes ms) → let len := Z.of_nat (length src) in
  enough_turns va len turns → user_range A va len true →
  mwp (copyout_loop turns (root A) va src len) ms (λ r ms', r = 0 ∧ ∃ m', ms' = ms <| mbytes := m' |> ∧
    ptrep m' A ∧ ram m' ∧ user_written A va src (mbytes ms) m').
Proof.
  intros Hup. induction turns as [|turns IH]; intros ms va src Hp Hram len Ht Hr.
  { destruct Ht as [Hl Ht]. pose proof (Z.div_pos (va mod PGSIZE + len) PGSIZE) as Hd.
    pose proof (Z.mod_pos_bound va PGSIZE ltac:(done)). lia. }
  cbn [copyout_loop]. destruct (Z.ltb_spec 0 len) as [Hl|Hl].
  2: { apply mwp_ret. split; [done|]. exists (mbytes ms). split_and!; [by destruct ms|done|done|].
       destruct src; [apply user_written_nil|simpl in *; lia]. }
  pose proof Hr as (Hva & Hmax & Hmap). destruct (Hmap 0 ltac:(lia)) as (e & He & Hu & Hw). rewrite Z.add_0_r in He.
  pose proof (PGROUNDDOWN_eq va) as Hrd. destruct (up_ok _ Hup _ _ He Hu) as [Hpg Hnp].
  pose proof (PGROUNDDOWN_range va Hva) as Hb. rewrite (proj2 (Z.leb_gt _ _)) by lia.
  eapply mwp_user_page; [done..|lia|done|done|].
  destruct (mapped_entry _ _ va _ Hp ltac:(lia) He) as (_ & Hld & _).
  apply mwp_bind. eapply mwp_walk; [lia|done|]. rewrite entry_addr_rounddown.
  apply mwp_bind. eapply mwp_mem_rd; [exact Hld|]. rewrite Hw by done. simpl.
  replace (va - PGROUNDDOWN va) with (va mod PGSIZE) by lia. fold (first_part va len).
  destruct (first_part_bounds va len Hl) as [Hfp Hfp2]. set (n := first_part va len) in *.
  assert (Htl : length (take (Z.to_nat n) src) = Z.to_nat n) by (rewrite length_take; lia).
  destruct (user_written_page A va (take (Z.to_nat n) src) e (mbytes ms)) as (m1 & Hm1 & Huw & Hram1 & Hs); [done..|lia|].
  apply mwp_bind. eapply mwp_mem_op; [exact Hm1|].
  assert (Hp1 : ptrep m1 A).
  { eapply ptrep_same; [exact Hs| |done]. intros q Hq ->%list_elem_of_singleton. done. }
  assert (Hdl : Z.of_nat (length (drop (Z.to_nat n) src)) = len - n) by (rewrite length_drop; lia).
  rewrite <- Hdl. apply mwp_mono with (Q := λ r ms', r = 0 ∧ ∃ m', ms' = ms <| mbytes := m' |> ∧
    ptrep m' A ∧ ram m' ∧ user_written A (va + n) (drop (Z.to_nat n) src) m1 m').
  { intros r ms' (-> & m' & -> & Hp' & Hr' & Hu'). split; [done|]. exists m'. split_and!; [done..|].
    rewrite <- (take_drop (Z.to_nat n) src). eapply user_written_app; [done..|]. by rewrite Htl, Z2Nat.id by lia. }
  destruct (enough_turns_next va len turns Hl Hva Ht) as [[Hall Hturns]|[Hnext Hleft]].
  - destruct turns as [|turns]; [lia|]. cbn [copyout_loop]. fold n in Hall. rewrite (proj2 (Z.ltb_ge 0 _)) by lia.
    apply mwp_ret. split; [done|]. exists m1. split_and!; [by destruct ms|done|done|].
    rewrite drop_ge by lia. apply user_written_nil.
  - fold n in Hnext, Hleft. rewrite Hnext.
    eapply mwp_mono; [|apply IH; [done|done|by rewrite Hdl|rewrite Hdl; apply user_range_sub; [lia|done]]].
    intros r ms' (-> & m' & -> & Hrest). split; [done|]. exists m'. by destruct ms.
Qed.
End rep.
