(* ===== verification/UserMem.v ===== *)
(** * User memory

    The functions of [kernel/vm.c] that build, copy and destroy the memory of
    a process: [uvmcreate], [uvmalloc], [uvmdealloc], [uvmunmap], [freewalk],
    [uvmfree], [uvmcopy], [copyout] and [copyin], as operations on an address
    space.  [space ms A l] is an address space: a page table [A], the pages it
    maps, and the free list [l], without sharing; [vmove] says that an
    operation takes one to another without losing a page. *)

From stdpp Require Import list_numbers.
From S2P Require Import Prelude Kstate Spinlock Bytes Layout Kalloc Vm PageTable.
#[local] Open Scope Z_scope.

Section space.
Context {SY : Symbols} {SYok : SymbolsOk}.

(** the pages below the trap frame belong to the process *)
Definition utop : Z := vpn TRAPFRAME.
Lemma vpn_utop va : 0 ≤ va → vpn va < utop → 0 ≤ va < MAXVA.
Proof.
  intros Hva. unfold utop, vpn. intros Hlt. split; [done|]. apply Z.lt_le_trans with TRAPFRAME; [|done].
  pose proof (Z.div_mod va PGSIZE ltac:(done)). pose proof (Z.mod_pos_bound va PGSIZE ltac:(done)).
  change (TRAPFRAME / PGSIZE) with 67108862 in Hlt. change TRAPFRAME with (67108862 * 4096). unfold PGSIZE in *. lia.
Qed.
Record space (ms : memst) (A : pt) (l : list Z) : Prop := {
  sp_vm : vmst ms A l;
  sp_ok n e : leaf A !! n = Some e → n < utop → page_ok (PTE2PA e) ∧ ¬ is_page A (PTE2PA e) ∧ PTE2PA e ∉ l;
  sp_inj n n' e e' : leaf A !! n = Some e → leaf A !! n' = Some e' → n < utop → n' < utop →
    PTE2PA e = PTE2PA e' → n = n';
  sp_U n e : leaf A !! n = Some e → flag e PTE_U = true → n < utop
}.
Lemma space_user_pages ms A l : space ms A l → user_pages A.
Proof.
  intros [_ Hok Hinj HU]. split.
  - intros n e He Hu. destruct (Hok n e He) as (? & ? & _); eauto.
  - intros n n' e e' He He' Hu Hu'. eauto.
Qed.

(** the pages of an address space and of the free list *)
Definition upage (A : pt) (q : Z) : Prop := ∃ n e, leaf A !! n = Some e ∧ n < utop ∧ PTE2PA e = q.
Definition has_page (A : pt) (l : list Z) (q : Z) : Prop := is_page A q ∨ upage A q ∨ q ∈ l.
Lemma upage_ext A A' q : leaf A' = leaf A → upage A' q ↔ upage A q.
Proof. intros Hl. unfold upage. by rewrite Hl. Qed.

Record vmove (ms : memst) (A : pt) (l : list Z) (ms' : memst) (A' : pt) (l' : list Z) : Prop := {
  mv_space : space ms' A' l';
  mv_root : root A' = root A;
  mv_all q : has_page A' l' q ↔ has_page A l q;
  mv_out a : ¬ has_page A l (PGROUNDDOWN a) → mbytes ms' !! a = mbytes ms !! a;
  mv_user n e a : leaf A !! n = Some e → leaf A' !! n = Some e → n < utop → PGROUNDDOWN a = PTE2PA e →
    mbytes ms' !! a = mbytes ms !! a
}.
Lemma vmove_refl ms A l : space ms A l → vmove ms A l ms A l.
Proof. by split. Qed.
Lemma vmove_trans ms A l ms1 A1 l1 ms2 A2 l2 :
  vmove ms A l ms1 A1 l1 → vmove ms1 A1 l1 ms2 A2 l2 →
  (∀ n e, leaf A !! n = Some e → leaf A2 !! n = Some e → leaf A1 !! n = Some e) → vmove ms A l ms2 A2 l2.
Proof.
  intros [S1 R1 P1 O1 U1] [S2 R2 P2 O2 U2] Hmid. split; [done|congruence| | |].
  - intros q. by rewrite P2, P1.
  - intros a Ha. rewrite O2, O1; [done|done|]. by rewrite P1.
  - intros n e a He He2 Hn Ha. rewrite (U2 n e), (U1 n e); eauto.
Qed.

(** the table grows *)
Lemma grown_vmove ms A l ms' A' l' :
  space ms A l → grown ms A l ms' A' l' → leaf A' = leaf A → vmove ms A l ms' A' l'.
Proof.
  intros [Hv Hok Hinj HU] [Hv' Hx Hk] Hl. split.
  - split; [done|..]; rewrite Hl; [|done..]. intros n e He Hn. destruct (Hok n e He Hn) as (H1 & H2 & H3).
    split_and!; [done| |].
    + by intros [?|?]%(ve_page _ _ _ _ _ Hx).
    + intros Hin. by apply (ve_free _ _ _ _ Hx) in Hin.
  - by rewrite (ve_root _ _ _ _ Hx).
  - intros q. unfold has_page. rewrite (upage_ext A A') by done. pose proof (ve_all _ _ _ _ Hx q). tauto.
  - intros a Ha. unfold has_page in Ha. apply Hk; tauto.
  - intros n e a He _ Hn Ha. destruct (Hok n e He Hn) as (_ & H2 & H3). by apply Hk; rewrite Ha.
Qed.

Context (E : stop → Prop) (G : kstate → Prop) (R : kstate → kstate → Prop) (H : gset lockid) (HH : kmem_lock ∉ H).
#[local] Abbreviation mwp := (mwp E G R H).

Lemma mwp_kfree q ms l (Q : unit → memst → Prop) :
  freepages ms l → page_ok q → q ∉ l →
  (∀ ms', freepages ms' (q :: l) → same_outside [q] (mbytes ms) (mbytes ms') → Q tt ms') →
  mwp (kfree q) ms Q.
Proof.
  intros Hf Hq Hn HQ s Hs <-. eapply wp_kfree; [done..|]. intros k ms Hk Hfr Hf' Hsame. exists k, ms. by split_and!; [..|apply HQ].
Qed.

(** ** [uvmunmap] *)

Lemma is_page_set_entry n t A q : is_page (set_entry n t A) q ↔ is_page A q.
Proof. done. Qed.
Lemma set_entry_id n A : leaf A !! n = None → set_entry n None A = A.
Proof.
  intros Hn. destruct A as [r m lo le]. change (mk_pt r m lo (delete n le) = mk_pt r m lo le). f_equal. by apply delete_id.
Qed.
(** the entry of an address as the loops over pages find it *)
Lemma mwp_find_entry {B} A va ms (skip : KM B) (k : Z → Z → KM B) (Q : B → memst → Prop) :
  ptrep (mbytes ms) A → 0 ≤ va < MAXVA →
  (leaf A !! vpn va = None → mwp skip ms Q) →
  (∀ e q, leaf A !! vpn va = Some e → low A !! (vpn va / 512) = Some q →
    mwp (k (q + 8 * (vpn va mod 512)) e) ms Q) →
  mwp (let* pte := walk (root A) va false in
       if pte =? 0 then skip else
       let* e := ld64 pte in
       if negb (flag e PTE_V) then skip else k pte e) ms Q.
Proof.
  intros Hp Hva Hskip Hk. apply mwp_bind. eapply mwp_walk; [done|done|]. unfold entry_addr in *. rewrite PX_0 in *.
  destruct (low A !! (vpn va / 512)) as [q|] eqn:Hq.
  - assert (page_ok q) as Hqok by (apply (pr_ok _ _ Hp); right; right; eauto). apply page_ok_pos in Hqok.
    pose proof (Z.mod_pos_bound (vpn va) 512 ltac:(lia)) as Hr.
    rewrite (proj2 (Z.eqb_neq _ 0)) by (unfold KERNBASE in Hqok; lia).
    destruct (pr_low _ _ Hp _ _ _ Hq Hr) as (e & He & Hle). apply mwp_bind. eapply mwp_mem_rd; [exact He|].
    rewrite <- (Z.div_mod (vpn va) 512) in Hle by done. destruct (leaf A !! vpn va) as [e'|]; simpl in Hle.
    + destruct Hle as [-> ->]. by apply (Hk e' q).
    + rewrite Hle. by apply Hskip.
  - apply Hskip. destruct (leaf A !! vpn va) eqn:Hl; [|done].
    destruct (pr_leaf_low _ _ Hp (vpn va)) as [q Hq']; [by eauto|]. congruence.
Qed.

(** [uvmunmap] of a page that belongs to the process *)
Lemma vmove_unmap ms A l n e ms1 q ms2 :
  space ms A l → leaf A !! n = Some e → n < utop → low A !! (n / 512) = Some q →
  same_outside [PTE2PA e] (mbytes ms) (mbytes ms1) →
  vmst ms2 (set_entry n None A) (PTE2PA e :: l) → same_outside [q] (mbytes ms1) (mbytes ms2) →
  vmove ms A l ms2 (set_entry n None A) (PTE2PA e :: l).
Proof.
  intros [Hv Hok Hinj HU] He Hn Hq S1 Hv2 S2. destruct (Hok n e He Hn) as (Hpok & Hnp & Hnl).
  assert (Hpq : is_page A q) by (right; right; eauto).
  assert (Hsame : ∀ a, PGROUNDDOWN a ≠ PTE2PA e → PGROUNDDOWN a ≠ q → mbytes ms2 !! a = mbytes ms !! a).
  { intros a H1 H2. rewrite S2, S1; [done|..]; by rewrite list_elem_of_singleton. }
  split.
  - split; [done|..].
    + intros k x Hk Hlt. rewrite set_entry_lookup in Hk. case_decide; [done|]. destruct (Hok k x Hk Hlt) as (? & ? & ?).
      split_and!; [done|done|]. intros [Heq|?]%elem_of_cons; [|done]. by apply (Hinj k n x e) in Heq.
    + intros k k' x x' Hk Hk'. rewrite set_entry_lookup in Hk, Hk'. repeat case_decide; try done. by apply Hinj.
    + intros k x Hk. rewrite set_entry_lookup in Hk. case_decide; [done|]. by apply HU.
  - done.
  - intros p. unfold has_page. rewrite is_page_set_entry, elem_of_cons.
    assert (upage A p ↔ p = PTE2PA e ∨ upage (set_entry n None A) p) as ->; [|tauto]. split.
    + intros (k & x & Hk & Hlt & <-). destruct (decide (k = n)) as [-> |Hne]; [left; congruence|].
      right. exists k, x. by rewrite set_entry_lookup, decide_False.
    + intros [-> |(k & x & Hk & Hlt & <-)]; [by exists n, e|]. rewrite set_entry_lookup in Hk. case_decide; [done|]. by exists k, x.
  - intros a Ha. apply Hsame; intros Heq; apply Ha; rewrite Heq; [|by left]. right; left. by exists n, e.
  - intros k x a Hk Hk' Hlt Ha. rewrite set_entry_lookup in Hk'. case_decide; [done|].
    destruct (Hok k x Hk Hlt) as (_ & Hnpk & _). apply Hsame; rewrite Ha; [|intros Heq; by rewrite Heq in Hnpk].
    intros Heq. by apply (Hinj k n x e) in Heq.
Qed.
Lemma mwp_unmap_page A va ms l (Q : unit → memst → Prop) :
  space ms A l → 0 ≤ va → vpn va < utop →
  (∀ l' ms', vmove ms A l ms' (set_entry (vpn va) None A) l' → Q tt ms') →
  mwp (uvmunmap_page (root A) va true) ms Q.
Proof.
  intros Hs Hva Hn HQ. pose proof Hs as [[Hp Hf Hd] Hok _ _]. unfold uvmunmap_page.
  apply mwp_find_entry; [done|by apply vpn_utop| |].
  { intros Hnone. apply mwp_ret, (HQ l). rewrite set_entry_id by done. by apply vmove_refl. }
  intros e q He Hq. destruct (Hok _ _ He Hn) as (Hpok & Hnp & Hnl). simpl.
  apply mwp_bind. eapply mwp_kfree; [done..|]. intros ms1 Hf1 S1.
  assert (Hv1 : vmst ms1 A (PTE2PA e :: l)).
  { split; [eapply ptrep_same; [done| |done]; by intros r Hr ->%list_elem_of_singleton|done|].
    intros r Hr [-> |Hin]%elem_of_cons; [done|]. by apply (Hd r). }
  eapply mwp_st_leaf with (t := None); [done|done|done|done|done|]. intros ms2 Hv2 S2.
  eapply HQ. by eapply vmove_unmap.
Qed.

(** the entries of the [k] pages from [v] on are cleared *)
Fixpoint clear_pages (k : nat) (v : Z) (A : pt) : pt :=
  match k with O => A | S k => clear_pages k (v + 1) (set_entry v None A) end.
Lemma clear_pages_lookup k : ∀ v A n, leaf (clear_pages k v A) !! n = if decide (v ≤ n < v + Z.of_nat k) then None else leaf A !! n.
Proof.
  induction k as [|k IH]; intros v A n; cbn [clear_pages]; [by rewrite decide_False by lia|].
  rewrite IH, set_entry_lookup. repeat case_decide; done || lia.
Qed.
Lemma vpn_add v k : vpn (v * PGSIZE + k * PGSIZE) = v + k.
Proof. unfold vpn. by rewrite <- Z.mul_add_distr_r, Z.div_mul. Qed.
Lemma vpn_mul v : vpn (v * PGSIZE) = v.
Proof. unfold vpn. by rewrite Z.div_mul. Qed.
Lemma utop_small : utop = 67108862.
Proof. done. Qed.
Lemma clear_pages_root k : ∀ v A, root (clear_pages k v A) = root A.
Proof. induction k as [|k IH]; intros v A; [done|]. cbn [clear_pages]. by rewrite IH. Qed.
Lemma mwp_uvmunmap_loop k : ∀ fuel A v ms l (Q : unit → memst → Prop),
  (k < fuel)%nat → space ms A l → 0 ≤ v → v + Z.of_nat k ≤ utop →
  (∀ l' ms', vmove ms A l ms' (clear_pages k v A) l' → Q tt ms') →
  mwp (uvmunmap_loop fuel (root A) (v * PGSIZE) ((v + Z.of_nat k) * PGSIZE) true) ms Q.
Proof.
  pose proof utop_small as Hu.
  induction k as [|k IH]; intros fuel A v ms l Q Hfuel Hs Hv Hk HQ; (destruct fuel as [|fuel]; [lia|]); cbn [uvmunmap_loop].
  { rewrite (proj2 (Z.ltb_ge _ _)) by lia. by apply mwp_ret, (HQ l), vmove_refl. }
  rewrite (proj2 (Z.ltb_lt _ _)) by (unfold PGSIZE; lia).
  apply mwp_bind. eapply mwp_unmap_page; [done|unfold PGSIZE; lia|rewrite vpn_mul; lia|]. rewrite vpn_mul. intros l1 ms1 M1.
  rewrite u64_small by (unfold PGSIZE; lia). replace (v * PGSIZE + PGSIZE) with ((v + 1) * PGSIZE) by lia.
  replace (v + Z.of_nat (S k)) with (v + 1 + Z.of_nat k) by lia.
  change (root A) with (root (set_entry v None A)).
  eapply IH; [lia|apply M1|lia|lia|]. intros l2 ms2 M2. apply (HQ l2). eapply vmove_trans; [done|done|].
  intros n e He He'. rewrite clear_pages_lookup in He'. rewrite set_entry_lookup. repeat case_decide; done || lia.
Qed.
Lemma mwp_uvmunmap k A v ms l (Q : unit → memst → Prop) :
  space ms A l → 0 ≤ v → v + Z.of_nat k ≤ utop →
  (∀ l' ms', vmove ms A l ms' (clear_pages k v A) l' → Q tt ms') →
  mwp (uvmunmap (root A) (v * PGSIZE) (Z.of_nat k) true) ms Q.
Proof.
  pose proof utop_small as Hu. intros Hs Hv Hk HQ. unfold uvmunmap. rewrite Z_mod_mult, Z.eqb_refl. cbn [negb].
  rewrite (u64_small (_ * PGSIZE)), <- Z.mul_add_distr_r, u64_small by (unfold PGSIZE; lia).
  eapply mwp_uvmunmap_loop; [lia|done..].
Qed.

(** the pages of a memory of size [sz] *)
Definition npages (sz : Z) : nat := Z.to_nat ((sz + PGSIZE - 1) / PGSIZE).
Lemma npages_Z sz : 0 ≤ sz → Z.of_nat (npages sz) = (sz + PGSIZE - 1) / PGSIZE.
Proof. intros Hsz. apply Z2Nat.id, Z.div_pos; unfold PGSIZE; lia. Qed.
Lemma PGROUNDUP_npages sz : 0 ≤ sz ≤ TRAPFRAME → PGROUNDUP sz = Z.of_nat (npages sz) * PGSIZE.
Proof.
  intros Hsz. change TRAPFRAME with (67108862 * 4096) in Hsz. rewrite npages_Z by lia.
  change (PGROUNDUP sz) with (PGROUNDDOWN (u64 (sz + PGSIZE - 1))). rewrite u64_small by (unfold PGSIZE; lia).
  rewrite PGROUNDDOWN_eq. pose proof (Z.div_mod (sz + PGSIZE - 1) PGSIZE ltac:(done)). lia.
Qed.
Lemma npages_mono sz sz' : 0 ≤ sz ≤ sz' → (npages sz ≤ npages sz')%nat.
Proof. intros Hsz. apply Z2Nat.inj_le; [apply Z.div_pos; unfold PGSIZE; lia..|]. apply Z.div_le_mono; [done|lia]. Qed.
Lemma npages_utop sz : 0 ≤ sz ≤ TRAPFRAME → Z.of_nat (npages sz) ≤ utop.
Proof.
  intros Hsz. rewrite npages_Z by lia. change utop with ((TRAPFRAME + PGSIZE - 1) / PGSIZE). apply Z.div_le_mono; [done|lia].
Qed.
Lemma mwp_uvmdealloc A old new ms l (Q : Z → memst → Prop) :
  space ms A l → 0 ≤ new ≤ old → old ≤ TRAPFRAME →
  (∀ l' ms', vmove ms A l ms' (clear_pages (npages old - npages new) (Z.of_nat (npages new)) A) l' → Q new ms') →
  mwp (uvmdealloc (root A) old new) ms Q.
Proof.
  intros Hs Hnew Hold HQ. pose proof utop_small as Hu. pose proof (npages_utop old ltac:(lia)) as Ho.
  pose proof (npages_mono new old ltac:(lia)) as Hmono. unfold uvmdealloc. destruct (Z.leb_spec old new) as [Hle|Hlt].
  { assert (old = new) as -> by lia. apply mwp_ret, (HQ l). rewrite Nat.sub_diag. by apply vmove_refl. }
  rewrite !PGROUNDUP_npages by lia. apply mwp_bind. destruct (Z.ltb_spec (Z.of_nat (npages new) * PGSIZE) (Z.of_nat (npages old) * PGSIZE)) as [Hp|Hp].
  - cbn [when]. rewrite <- Z.mul_sub_distr_r, Z.div_mul, s32_small, u64_small, <- Nat2Z.inj_sub by done || lia.
    eapply mwp_uvmunmap; [done|lia|lia|]. intros l' ms' M. by eapply mwp_ret, HQ.
  - cbn [when]. assert (npages old - npages new = 0)%nat as Heq by (unfold PGSIZE in *; lia). rewrite Heq in HQ.
    by apply mwp_ret, mwp_ret, (HQ l), vmove_refl.
Qed.

(** ** New pages *)

(** the page [q], not of the address space, is mapped at page number [v] *)
Lemma mwp_map_fresh A v q perm ms l (Q : Z → memst → Prop) :
  space ms A l → page_ok q → ¬ has_page A l q → 0 ≤ v < utop → leaf A !! v = None → 0 ≤ perm < 1024 →
  (∀ A' ms', vmove ms A l ms' A' [] → leaf A' = leaf A → (length l < 2)%nat → Q (-1) ms') →
  (∀ A' l' ms', space ms' A' l' → (length l ≤ length l' + 2)%nat → root A' = root A → (∀ p, has_page A' l' p ↔ p = q ∨ has_page A l p) →
     kept A l (mbytes ms) (mbytes ms') → leaf A' = <[v := pte_of q perm]> (leaf A) → Q 0 ms') →
  mwp (mappages (root A) (v * PGSIZE) PGSIZE q perm) ms Q.
Proof.
  intros Hs Hq Hfresh Hv Hn Hperm HF HQ. pose proof Hs as [Hvm Hok Hinj HU]. pose proof utop_small as Hu.
  pose proof (page_ok_addr q Hq) as Hqa. pose proof (page_ok_pos q Hq) as Hpos.
  assert (MAXVA = 2 ^ 38) by done. change PGSIZE with ((Z.of_nat 0 + 1) * PGSIZE) at 2.
  eapply mwp_mappages; [done|apply Z_mod_mult|unfold PGSIZE; lia|unfold PGSIZE; lia|apply Hqa|apply Hqa| |done|done|..].
  - unfold PHYSTOP, KERNBASE, PGSIZE in *. lia.
  - intros i Hi. rewrite vpn_mul. by replace (v + i) with v by lia.
  - intros A' ms' k Hk Gr HL N. assert (k = 0)%nat as -> by lia. eapply HF; [by eapply grown_vmove|done|lia].
  - intros A' l' ms' [Hv' Hx Hk] HL N. cbn [map_pages] in HL. rewrite vpn_mul in HL.
    assert (Hnpg : ∀ p, has_page A l p → p ≠ q) by (by intros p Hp ->).
    assert (Hpa : PTE2PA (pte_of q perm) = q) by (by apply PTE2PA_pte_of).
    eapply (HQ A' l' ms'); [|lia|by rewrite (ve_root _ _ _ _ Hx)| |done|done].
    + split; [done|..].
      * intros n e He Hlt. rewrite HL in He. apply lookup_insert_Some in He as [[<- <-]|[Hne He]].
        -- rewrite Hpa. split_and!; [done|intros Hp; apply Hfresh..].
           ++ destruct (ve_page _ _ _ _ _ Hx Hp); [by left|by right; right].
           ++ apply (ve_free _ _ _ _ Hx) in Hp. by right; right.
        -- destruct (Hok n e He Hlt) as (? & Hnp & Hnl). split_and!; [done|by intros [?|?]%(ve_page _ _ _ _ _ Hx)|].
           intros Hin. by apply (ve_free _ _ _ _ Hx) in Hin.
      * intros n n' e e' He He' Hlt Hlt' Heq. rewrite HL in He, He'.
        apply lookup_insert_Some in He as [[<- <-]|[Hne He]], He' as [[<- <-]|[Hne' He']]; [done|..].
        -- exfalso. rewrite Hpa in Heq. apply (Hnpg q); [|done]. right; left. by exists n', e'.
        -- exfalso. rewrite Hpa in Heq. apply (Hnpg q); [|done]. right; left. by exists n, e.
        -- by apply (Hinj n n' e e').
      * intros n e He Hf. rewrite HL in He. apply lookup_insert_Some in He as [[<- _]|[_ He]]; [lia|]. eauto.
    + intros p. unfold has_page. pose proof (ve_all _ _ _ _ Hx p).
      assert (upage A' p ↔ p = q ∨ upage A p) as ->; [|tauto]. unfold upage. rewrite HL. split.
      * intros (n & e & [[<- <-]|[Hne He]]%lookup_insert_Some & Hlt & <-); [by left|]. right. eauto.
      * intros [-> |(n & e & He & Hlt & <-)]; [exists v, (pte_of q perm); split_and!; [apply lookup_insert_eq|lia|done]|].
        exists n, e. rewrite lookup_insert_ne by congruence. done.
Qed.

(** a page of the free list is filled and mapped at page number [v], as
    [uvmalloc] and [uvmcopy] do it *)
Lemma space_alloc ms A q l ms1 : space ms A (q :: l) → freepages ms1 l → q ∉ l → same_outside [q] (mbytes ms) (mbytes ms1) →
  space ms1 A l ∧ ¬ has_page A l q ∧ (∀ p, has_page A (q :: l) p ↔ p = q ∨ has_page A l p).
Proof.
  intros [[Hp Hf Hd] Hok Hinj HU] Hf1 Hql S1.
  assert (Hnp : ¬ is_page A q) by (intros Hin%Hd; apply Hin, elem_of_cons; by left). split_and!.
  - split; [split|..]; [|done| | |done|done].
    + eapply ptrep_same; [done| |done]. by intros r Hr ->%list_elem_of_singleton.
    + intros r Hr Hin. apply (Hd r Hr), elem_of_cons. by right.
    + intros n e He Hlt. destruct (Hok n e He Hlt) as (? & ? & Hnl). rewrite elem_of_cons in Hnl. tauto.
  - intros [?|[(n & e & He & Hlt & <-)|?]]; [done| |done]. destruct (Hok n e He Hlt) as (_ & _ & Hnl). apply Hnl, elem_of_cons. by left.
  - intros p. unfold has_page. rewrite elem_of_cons. tauto.
Qed.
Lemma space_free ms A q l ms1 : space ms A l → freepages ms1 (q :: l) → ¬ has_page A l q → same_outside [q] (mbytes ms) (mbytes ms1) →
  space ms1 A (q :: l).
Proof.
  intros [[Hp Hf Hd] Hok Hinj HU] Hf1 Hq S1. split; [split|..]; [|done| | |done|done].
  - eapply ptrep_same; [done| |done]. intros r Hr ->%list_elem_of_singleton. apply Hq. by left.
  - intros r Hr [-> |Hin]%elem_of_cons; [apply Hq; by left|by apply (Hd r)].
  - intros n e He Hlt. destruct (Hok n e He Hlt) as (? & ? & ?). split_and!; [done|done|].
    intros [<- |?]%elem_of_cons; [|done]. apply Hq. right; left. by exists n, e.
Qed.
Section new_page.
Context (ms ms2 : memst) (A : pt) (q : Z) (l : list Z).
Context (Hs : space ms A (q :: l)) (S02 : same_outside [q] (mbytes ms) (mbytes ms2)) (Hfresh : ¬ has_page A l q).
Lemma has_page_cons A' l' p : has_page A' (q :: l') p ↔ p = q ∨ has_page A' l' p.
Proof using. unfold has_page. rewrite elem_of_cons. tauto. Qed.
Lemma same_unless_q m m' a : same_outside [q] m m' → PGROUNDDOWN a ≠ q → m' !! a = m !! a.
Proof using. intros S Ha. apply S. by rewrite list_elem_of_singleton. Qed.
Lemma upage_not_q n e a : leaf A !! n = Some e → n < utop → PGROUNDDOWN a = PTE2PA e → PGROUNDDOWN a ≠ q.
Proof using Hfresh. intros He Hn Ha Hq. apply Hfresh. right; left. exists n, e. split_and!; [done|done|congruence]. Qed.
Lemma vmove_failed ms3 A' l1 ms4 :
  vmove ms2 A l ms3 A' l1 → leaf A' = leaf A → freepages ms4 (q :: l1) → same_outside [q] (mbytes ms3) (mbytes ms4) →
  vmove ms A (q :: l) ms4 A' (q :: l1).
Proof using Hs S02 Hfresh.
  intros [Hs3 R3 P3 O3 U3] HL Hf4 S4. split; [|done| | |].
  - eapply space_free; [done..| |done]. by rewrite P3.
  - intros p. by rewrite !has_page_cons, P3.
  - intros a Ha. rewrite has_page_cons in Ha. apply Decidable.not_or in Ha as [Hne Ha].
    by rewrite (same_unless_q _ _ _ S4), O3, (same_unless_q _ _ _ S02).
  - intros n e a He He' Hn Ha. pose proof (upage_not_q n e a He Hn Ha).
    by rewrite (same_unless_q _ _ _ S4), (U3 n e), (same_unless_q _ _ _ S02).
Qed.
Lemma vmove_mapped ms3 A' l1 :
  space ms3 A' l1 → root A' = root A → (∀ p, has_page A' l1 p ↔ p = q ∨ has_page A l p) →
  kept A l (mbytes ms2) (mbytes ms3) → vmove ms A (q :: l) ms3 A' l1.
Proof using Hs S02 Hfresh.
  intros Hs3 R3 P3 K3. split; [done|done| | |].
  - intros p. by rewrite has_page_cons, P3.
  - intros a Ha. rewrite has_page_cons in Ha. apply Decidable.not_or in Ha as [Hne Ha]. unfold has_page in Ha.
    rewrite K3, (same_unless_q _ _ _ S02); tauto.
  - intros n x a He He' Hn Ha. pose proof (upage_not_q n x a He Hn Ha). destruct (sp_ok _ _ _ Hs n x He Hn) as (_ & Hnp & Hnl).
    rewrite <- Ha in Hnp, Hnl. rewrite elem_of_cons in Hnl. rewrite K3, (same_unless_q _ _ _ S02); tauto.
Qed.
End new_page.
Lemma mwp_new_page {B} A v perm ms l (fill : Z → gmap Z Z → option (gmap Z Z)) (g : Z → option Z) (F0 F1 K : KM B) Q :
  space ms A l → 0 ≤ v < utop → leaf A !! v = None → 0 ≤ perm < 1024 → (∀ i, 0 ≤ i < PGSIZE → is_Some (g i)) →
  (∀ q m, q ∈ l → page_ok q → ram m → same_outside [q] (mbytes ms) m → ∃ m', fill q m = Some m' ∧ written m m' q PGSIZE g) →
  (l = [] → mwp F0 ms Q) →
  (∀ A' l' ms', vmove ms A l ms' A' l' → leaf A' = leaf A → (length l < 3)%nat → mwp F1 ms' Q) →
  (∀ q A' l' ms', vmove ms A l ms' A' l' → (length l ≤ length l' + 3)%nat → leaf A' = <[v := pte_of q perm]> (leaf A) → page_addr q →
     (∀ i, 0 ≤ i < PGSIZE → mbytes ms' !! (q + i) = g i) → mwp K ms' Q) →
  mwp (let* mem := kalloc in
       if mem =? 0 then F0 else
       mem_op (fill mem) ;;
       let* r := mappages (root A) (v * PGSIZE) PGSIZE mem perm in
       if negb (r =? 0) then kfree mem ;; F1 else K) ms Q.
Proof.
  intros Hs Hv Hn Hperm Hg Hfill H0 HF HK. pose proof (vs_free _ _ _ (sp_vm _ _ _ Hs)) as Hf.
  apply mwp_bind. eapply mwp_kalloc; [done|done|intros ->; by apply H0|].
  intros q l' ms1 -> Hf1 Hq Hql S1. pose proof (page_ok_pos q Hq) as Hpos.
  rewrite (proj2 (Z.eqb_neq q 0)) by (unfold KERNBASE in Hpos; lia).
  destruct (Hfill q (mbytes ms1)) as (m2 & Hm2 & Hw); [apply elem_of_cons; by left|done|apply Hf1|done|].
  apply mwp_bind. eapply mwp_mem_op; [exact Hm2|].
  assert (S2 : same_outside [q] (mbytes ms1) m2) by (by eapply written_page_outside, Hq).
  assert (S02 : same_outside [q] (mbytes ms) m2) by (by transitivity (mbytes ms1)).
  destruct (space_alloc ms A q l' (ms1 <| mbytes := m2 |>)) as (Hs2 & Hfresh & Hall); [done| |done|done|].
  { eapply freepages_same; [done|eapply ram_written; [done|done|apply Hf1]| |done]. by intros r Hr ->%list_elem_of_singleton. }
  apply mwp_bind. eapply mwp_map_fresh; [done..| |].
  - intros A' ms3 M3 HL N. apply mwp_bind. eapply mwp_kfree; [apply M3|done| |].
    { intros Hin. apply Hfresh, (mv_all _ _ _ _ _ _ M3). by right; right. }
    intros ms4 Hf4 S4. apply (HF A' [q]); [|done|cbn [length]; lia]. by apply (vmove_failed ms (ms1 <| mbytes := m2 |>) A q l') with ms3.
  - intros A' l1 ms3 Hs3 N R3 P3 K3 HL. eapply HK; [by apply (vmove_mapped ms (ms1 <| mbytes := m2 |>) A q l')|cbn [length]; lia|done|by apply page_ok_addr|].
    intros i Hi. pose proof (page_of_offset q i (proj1 Hq) Hi) as Hpg. rewrite K3.
    + pose proof (Hw (q + i)) as Hwi. simpl in *. rewrite Hwi, decide_True by lia. f_equal. lia.
    + rewrite Hpg. intros Hin. apply Hfresh. by left.
    + rewrite Hpg. done.
Qed.

(** ** [uvmalloc] *)

(** page number [n] is mapped with [perm] to a page of bytes [g] *)
Definition page_at (ms : memst) (A : pt) (n perm : Z) (g : Z → option Z) : Prop :=
  ∃ q, leaf A !! n = Some (pte_of q perm) ∧ page_addr q ∧ ∀ i, 0 ≤ i < PGSIZE → mbytes ms !! (q + i) = g i.
Lemma page_at_vmove ms A l ms' A' l' n perm g : 0 ≤ perm < 1024 →
  page_at ms A n perm g → vmove ms A l ms' A' l' → leaf A' !! n = leaf A !! n → n < utop → page_at ms' A' n perm g.
Proof.
  intros Hperm (q & Hq & Hpa & Hg) M HL Hn. exists q. split_and!; [congruence|done|]. intros i Hi. rewrite <- Hg by done.
  eapply (mv_user _ _ _ _ _ _ M n); [done|congruence|done|]. rewrite PTE2PA_pte_of by done. apply page_of_offset; [apply Hpa|done].
Qed.
Lemma zero_fill q m : page_ok q → ram m → ∃ m', memset m q 0 PGSIZE = Some m' ∧ written m m' q PGSIZE (λ _, Some 0).
Proof. intros Hq Hm. destruct (memset_spec m q 0 PGSIZE) as (m' & Hm' & Hw); [by compute|by apply ram_page|]. by exists m'. Qed.
Lemma npages_mul v : 0 ≤ v → npages (v * PGSIZE) = Z.to_nat v.
Proof.
  intros Hv. unfold npages. f_equal. rewrite <- Z.add_sub_assoc, Z.div_add_l by done. by rewrite Z.div_small, Z.add_0_r by done.
Qed.
Lemma npages_lt v sz : 0 ≤ sz → v * PGSIZE < sz ↔ v < Z.of_nat (npages sz).
Proof.
  intros Hsz. rewrite npages_Z by done. pose proof (Z.div_mod (sz + PGSIZE - 1) PGSIZE ltac:(done)).
  pose proof (Z.mod_pos_bound (sz + PGSIZE - 1) PGSIZE ltac:(done)). unfold PGSIZE in *. lia.
Qed.

Section uvmalloc.
Context (xperm newsz v0 : Z) (Hx : 0 ≤ xperm < 1024) (Hsz : 0 ≤ newsz ≤ TRAPFRAME) (Hv0 : 0 ≤ v0).
#[local] Abbreviation perm := (Z.lor (Z.lor PTE_R PTE_U) xperm).
#[local] Abbreviation top := (Z.of_nat (npages newsz)).
Lemma uperm_range : 0 ≤ perm < 1024.
Proof using Hx.
  assert (Hnn : 0 ≤ perm) by (apply Z.lor_nonneg; split; [done|lia]). split; [done|].
  change 1024 with (2 ^ 10). destruct (Z.eq_dec perm 0) as [-> |Hnz]; [done|]. apply Z.log2_lt_pow2; [lia|]. rewrite Z.log2_lor by done || lia. apply Z.max_lub_lt; [done|].
  destruct (Z.eq_dec xperm 0) as [-> |]; [done|]. apply Z.log2_lt_pow2; lia.
Qed.
Lemma mwp_uvmalloc_loop k : ∀ fuel A v ms l (Q : Z → memst → Prop),
  (k < fuel)%nat → space ms A l → v0 ≤ v → v + Z.of_nat k = Z.max v top → (∀ n, v ≤ n < top → leaf A !! n = None) →
  (∀ A' l' ms', vmove ms A l ms' A' l' → (∀ n, leaf A' !! n = if decide (v0 ≤ n < v) then None else leaf A !! n) →
     (length l < 3 * k)%nat → Q 0 ms') →
  (∀ A' l' ms', vmove ms A l ms' A' l' → (∀ n, ¬ v ≤ n < top → leaf A' !! n = leaf A !! n) →
     (∀ n, v ≤ n < top → page_at ms' A' n perm (λ _, Some 0)) → (length l ≤ length l' + 3 * k)%nat → Q newsz ms') →
  mwp (uvmalloc_loop fuel (root A) (v * PGSIZE) (v0 * PGSIZE) newsz xperm) ms Q.
Proof using Hx Hsz Hv0 SYok HH.
  pose proof utop_small as Hu. pose proof (npages_utop newsz ltac:(lia)) as Htop.
  induction k as [|k IH]; intros fuel A v ms l Q Hfuel Hs Hv Hk Hnone HF HQ; (destruct fuel as [|fuel]; [lia|]);
    cbn [uvmalloc_loop]; pose proof (npages_lt v newsz ltac:(lia)) as Hlt.
  { rewrite (proj2 (Z.ltb_ge _ _)) by lia. apply mwp_ret, (HQ A l); [by apply vmove_refl|done|lia|lia]. }
  assert (Hvt : v < top) by lia. rewrite (proj2 (Z.ltb_lt _ _)) by lia.
  assert (Hundo : ∀ A' l' ms', vmove ms A l ms' A' l' → leaf A' = leaf A → (length l < 3)%nat →
    mwp (uvmdealloc (root A) (v * PGSIZE) (v0 * PGSIZE) ;; ret 0) ms' Q).
  { intros A' l' ms' M HL N. rewrite <- (mv_root _ _ _ _ _ _ M). apply mwp_bind. eapply mwp_uvmdealloc; [apply M|unfold PGSIZE; lia|..].
    { change TRAPFRAME with (67108862 * 4096). unfold PGSIZE. lia. }
    rewrite !npages_mul by lia. intros l2 ms2 M2. apply mwp_ret. eapply HF; [eapply vmove_trans; [done|done|by rewrite HL]| |lia].
    intros n. rewrite clear_pages_lookup, HL. repeat case_decide; done || lia. }
  eapply (mwp_new_page A v perm ms l (λ q m, memset m q 0 PGSIZE) (λ _, Some 0));
    [done|lia|apply Hnone; lia|apply uperm_range|by eauto|intros q m _ Hq Hm _; by apply zero_fill|intros ->; apply (Hundo A []); [by apply vmove_refl|done|cbn [length]; lia]|done|].
  intros q A1 l1 ms1 M1 N1 L1 Hqa Hz. rewrite u64_small by (unfold PGSIZE; lia).
  replace (v * PGSIZE + PGSIZE) with ((v + 1) * PGSIZE) by lia. rewrite <- (mv_root _ _ _ _ _ _ M1).
  assert (Hv1 : leaf A !! v = None) by (apply Hnone; lia).
  assert (Htr : ∀ ms2 A2 l2, vmove ms1 A1 l1 ms2 A2 l2 → vmove ms A l ms2 A2 l2).
  { intros ms2 A2 l2 M2. eapply vmove_trans; [done..|]. intros n e He _. rewrite L1, lookup_insert_ne by congruence. done. }
  eapply IH; [lia|apply M1|lia|lia| | |].
  - intros n Hn. rewrite L1, lookup_insert_ne by lia. apply Hnone. lia.
  - intros A2 l2 ms2 M2 L2 N2. eapply HF; [by apply Htr| |lia]. intros n. rewrite L2, L1.
    repeat case_decide; try done || lia; [assert (n = v) as -> by lia; done|]. by rewrite lookup_insert_ne by lia.
  - intros A2 l2 ms2 M2 L2 Hz2 N2. eapply HQ; [by apply Htr| | |lia].
    + intros n Hn. rewrite L2, L1, lookup_insert_ne by lia. done.
    + intros n Hn. destruct (Z.eq_dec n v) as [-> |]; [|apply Hz2; lia].
      eapply page_at_vmove; [apply uperm_range| |done|rewrite L2 by lia; done|lia]. exists q. by rewrite L1, lookup_insert_eq.
Qed.
End uvmalloc.

Lemma mwp_uvmalloc A old new xperm ms l (Q : Z → memst → Prop) :
  0 ≤ xperm < 1024 → 0 ≤ old ≤ new → new ≤ TRAPFRAME → space ms A l →
  (∀ n, Z.of_nat (npages old) ≤ n < Z.of_nat (npages new) → leaf A !! n = None) →
  (∀ A' l' ms', vmove ms A l ms' A' l' → leaf A' = leaf A → (length l < 3 * (npages new - npages old))%nat → Q 0 ms') →
  (∀ A' l' ms', vmove ms A l ms' A' l' →
     (∀ n, ¬ Z.of_nat (npages old) ≤ n < Z.of_nat (npages new) → leaf A' !! n = leaf A !! n) →
     (∀ n, Z.of_nat (npages old) ≤ n < Z.of_nat (npages new) → page_at ms' A' n (Z.lor (Z.lor PTE_R PTE_U) xperm) (λ _, Some 0)) →
     (length l ≤ length l' + 3 * (npages new - npages old))%nat → Q new ms') →
  mwp (uvmalloc (root A) old new xperm) ms Q.
Proof.
  intros Hx Hold Hnew Hs Hnone HF HQ. unfold uvmalloc. rewrite (proj2 (Z.ltb_ge _ _)) by lia.
  rewrite !PGROUNDUP_npages by lia. pose proof (npages_mono old new Hold) as Hm.
  eapply (mwp_uvmalloc_loop xperm new (Z.of_nat (npages old))) with (k := (npages new - npages old)%nat); [done|lia|lia| |done|lia|lia|done| |done].
  - unfold pages_of. rewrite (npages_Z new) in * by lia. apply Nat2Z.inj_lt.
    set (x := new - Z.of_nat (npages old) * PGSIZE) in *.
    assert (Hle : (new + PGSIZE - 1) / PGSIZE - Z.of_nat (npages old) ≤ x / PGSIZE + 1).
    { replace (new + PGSIZE - 1) with (x + PGSIZE - 1 + Z.of_nat (npages old) * PGSIZE) by lia. rewrite Z.div_add by done.
      replace (x + PGSIZE - 1) with (x - 1 + 1 * PGSIZE) by lia. rewrite Z.div_add by done.
      pose proof (Z.div_le_mono (x - 1) x PGSIZE ltac:(done) ltac:(lia)). lia. }
    rewrite Nat2Z.inj_sub by done. rewrite npages_Z by lia. lia.
  - intros A' l' ms' M L N. eapply HF; [done| |done]. apply map_eq. intros n. rewrite L. by rewrite decide_False by lia.
Qed.

(** ** [uvmcopy] *)

(** the page tables share no page *)
Definition foreign (A0 A : pt) (l : list Z) : Prop := ∀ q, is_page A0 q ∨ upage A0 q → ¬ has_page A l q.
Lemma foreign_vmove A0 ms A l ms' A' l' : foreign A0 A l → vmove ms A l ms' A' l' → foreign A0 A' l'.
Proof. intros Hf M q Hq. rewrite (mv_all _ _ _ _ _ _ M). by apply Hf. Qed.
Lemma foreign_bytes A0 ms A l ms' A' l' a : foreign A0 A l → vmove ms A l ms' A' l' →
  is_page A0 (PGROUNDDOWN a) ∨ upage A0 (PGROUNDDOWN a) → mbytes ms' !! a = mbytes ms !! a.
Proof. intros Hf M Ha. by apply (mv_out _ _ _ _ _ _ M), Hf. Qed.
Lemma foreign_ptrep A0 ms A l ms' A' l' : foreign A0 A l → vmove ms A l ms' A' l' → ptrep (mbytes ms) A0 → ptrep (mbytes ms') A0.
Proof. intros Hf M. apply ptrep_bytes. intros a Ha. eapply foreign_bytes; [done..|by left]. Qed.

(** page number [n] of [A'] is a copy of that of [A0] *)
Definition copied (m0 : gmap Z Z) (A0 : pt) (ms' : memst) (A' : pt) (n : Z) : Prop :=
  match leaf A0 !! n with
  | Some e => page_at ms' A' n (PTE_FLAGS e) (λ i, m0 !! (PTE2PA e + i))
  | None => leaf A' !! n = None
  end.
Lemma PTE_FLAGS_range e : 0 ≤ PTE_FLAGS e < 1024.
Proof. unfold PTE_FLAGS. change 1023 with (Z.ones 10). rewrite Z.land_ones by done. by apply Z.mod_pos_bound. Qed.
Lemma copied_bytes m0 m1 A0 ms' A' n :
  (∀ e i, leaf A0 !! n = Some e → 0 ≤ i < PGSIZE → m1 !! (PTE2PA e + i) = m0 !! (PTE2PA e + i)) →
  copied m1 A0 ms' A' n → copied m0 A0 ms' A' n.
Proof.
  unfold copied. destruct (leaf A0 !! n) as [e|]; [|done]. intros Hm (q & Hq & Hqa & Hg). exists q.
  split_and!; [done|done|]. intros i Hi. rewrite Hg by done. by apply Hm.
Qed.
Lemma copied_vmove m0 A0 ms A l ms' A' l' n : n < utop →
  copied m0 A0 ms A n → vmove ms A l ms' A' l' → leaf A' !! n = leaf A !! n → copied m0 A0 ms' A' n.
Proof.
  intros Hn Hc M HL. unfold copied in *. destruct (leaf A0 !! n) as [e|]; [|congruence].
  eapply page_at_vmove; [apply PTE_FLAGS_range|done..].
Qed.

Lemma copy_fill pa q m0 m : page_ok pa → page_ok q → pa ≠ q → ram m → same_outside [q] m0 m →
  ∃ m', memmove m q pa PGSIZE = Some m' ∧ written m m' q PGSIZE (λ i, m0 !! (pa + i)).
Proof.
  intros Hpa Hq Hne Hm S. destruct (memmove_spec m q pa PGSIZE) as (m' & Hm' & Hw); [by compute|by apply ram_page..|].
  exists m'. split; [done|]. intros x. rewrite (Hw x). case_decide as Hd; [|done]. apply S.
  rewrite page_of_offset; [by rewrite list_elem_of_singleton|apply Hpa|lia].
Qed.

Section uvmcopy.
Context (A0 : pt) (sz : Z) (Hsz : 0 ≤ sz ≤ TRAPFRAME).
#[local] Abbreviation top := (Z.of_nat (npages sz)).
Context (Hok0 : ∀ n e, leaf A0 !! n = Some e → 0 ≤ n < top → page_ok (PTE2PA e)).

Lemma mwp_uvmcopy_loop k : ∀ fuel A v ms l (Q : option Z → memst → Prop),
  (k < fuel)%nat → space ms A l → ptrep (mbytes ms) A0 → ram (mbytes ms) → foreign A0 A l → 0 ≤ v → v + Z.of_nat k = top →
  (∀ n, v ≤ n < top → leaf A !! n = None) →
  (∀ A' l' ms' w, v ≤ w ≤ top → vmove ms A l ms' A' l' → (∀ n, ¬ v ≤ n < w → leaf A' !! n = leaf A !! n) →
     (length l < 3 * k)%nat → Q (Some (w * PGSIZE)) ms') →
  (∀ A' l' ms', vmove ms A l ms' A' l' → (∀ n, ¬ v ≤ n < top → leaf A' !! n = leaf A !! n) →
     (∀ n, v ≤ n < top → copied (mbytes ms) A0 ms' A' n) → Q None ms') →
  mwp (uvmcopy_loop fuel (root A0) (root A) (v * PGSIZE) sz) ms Q.
Proof using Hsz Hok0 SYok HH.
  pose proof utop_small as Hu. pose proof (npages_utop sz ltac:(lia)) as Htop.
  induction k as [|k IH]; intros fuel A v ms l Q Hfuel Hs Hp0 Hram Hfor Hv Hk Hnone HF HQ; (destruct fuel as [|fuel]; [lia|]);
    cbn [uvmcopy_loop]; pose proof (npages_lt v sz ltac:(lia)) as Hlt.
  { rewrite (proj2 (Z.ltb_ge _ _)) by lia. apply mwp_ret, (HQ A l); [by apply vmove_refl|done|lia]. }
  assert (Hvt : v < top) by lia. rewrite (proj2 (Z.ltb_lt _ _)) by lia.
  assert (Hvn : leaf A !! v = None) by (apply Hnone; lia).
  assert (Hnext : ∀ A1 l1 ms1, vmove ms A l ms1 A1 l1 → (∀ n, n ≠ v → leaf A1 !! n = leaf A !! n) → copied (mbytes ms) A0 ms1 A1 v → (length l ≤ length l1 + 3)%nat →
    mwp (uvmcopy_loop fuel (root A0) (root A) (u64 (v * PGSIZE + PGSIZE)) sz) ms1 Q).
  { intros A1 l1 ms1 M1 L1 C1 N1. rewrite u64_small by (unfold PGSIZE; lia).
    replace (v * PGSIZE + PGSIZE) with ((v + 1) * PGSIZE) by lia. rewrite <- (mv_root _ _ _ _ _ _ M1).
    assert (Htr : ∀ ms2 A2 l2, vmove ms1 A1 l1 ms2 A2 l2 → vmove ms A l ms2 A2 l2).
    { intros ms2 A2 l2 M2. eapply vmove_trans; [done..|]. intros n e He _. rewrite L1 by congruence. done. }
    eapply IH; [lia|apply M1|by eapply foreign_ptrep|apply M1|by eapply foreign_vmove|lia|lia| | |].
    - intros n Hn. rewrite L1 by lia. apply Hnone. lia.
    - intros A2 l2 ms2 w Hw M2 L2 N2. eapply HF; [|by apply Htr| |lia]; [lia|]. intros n Hn. rewrite L2, L1 by lia. done.
    - intros A2 l2 ms2 M2 L2 C2. eapply HQ; [by apply Htr|intros n Hn; rewrite L2, L1 by lia; done|].
      intros n Hn. destruct (Z.eq_dec n v) as [-> |].
      { eapply copied_vmove; [lia|done|done|rewrite L2 by lia; done]. }
      eapply copied_bytes; [|apply C2; lia]. intros e i He Hi. eapply foreign_bytes; [done..|]. right. exists n, e.
      rewrite page_of_offset; [split_and!; [done|lia|done]|eapply Hok0; [done|lia]|done]. }
  eapply (mwp_find_entry A0); [done|apply vpn_utop; [unfold PGSIZE; lia|rewrite vpn_mul; lia]| |]; rewrite vpn_mul.
  { intros Hn0. eapply (Hnext A l); [by apply vmove_refl|done| |lia]. unfold copied. by rewrite Hn0. }
  intros e q He Hq. pose proof (Hok0 v e He ltac:(lia)) as Hpok.
  assert (Hne : PTE2PA e ∉ l). { intros Hin. apply (Hfor (PTE2PA e)); [right; exists v, e|right; right]; [|done]. split_and!; [done|lia|done]. }
  eapply (mwp_new_page A v (PTE_FLAGS e) ms l (λ q m, memmove m q (PTE2PA e) PGSIZE) (λ i, mbytes ms !! (PTE2PA e + i)));
    [done|lia|done|apply PTE_FLAGS_range| | |intros ->|intros A' l' ms' M L N|intros p A' l' ms' M N L Hpa Hg].
  - intros i Hi. by apply (ram_page _ _ Hram Hpok).
  - intros p m Hp Hpo Hm S. apply copy_fill; [done|done|by intros <-|done|done].
  - apply mwp_ret, (HF A []); [lia|by apply vmove_refl|done|cbn [length]; lia].
  - apply mwp_ret, (HF A' l'); [lia|done|by rewrite L|lia].
  - eapply (Hnext A' l'); [done|intros n Hn; by rewrite L, lookup_insert_ne| |done]. unfold copied. rewrite He. exists p.
    by rewrite L, lookup_insert_eq.
Qed.
Lemma mwp_uvmcopy A ms l (Q : Z → memst → Prop) :
  space ms A l → ptrep (mbytes ms) A0 → foreign A0 A l → (∀ n, 0 ≤ n < top → leaf A !! n = None) →
  (∀ A' l' ms', vmove ms A l ms' A' l' → leaf A' = leaf A → (length l < 3 * npages sz)%nat → Q (-1) ms') →
  (∀ A' l' ms', vmove ms A l ms' A' l' → (∀ n, ¬ 0 ≤ n < top → leaf A' !! n = leaf A !! n) →
     (∀ n, 0 ≤ n < top → copied (mbytes ms) A0 ms' A' n) → Q 0 ms') →
  mwp (uvmcopy (root A0) (root A) sz) ms Q.
Proof using Hsz Hok0 SYok HH.
  intros Hs Hp0 Hfor Hnone HF HQ. pose proof (npages_utop sz ltac:(lia)) as Htop.
  unfold uvmcopy. apply mwp_bind. change 0 with (0 * PGSIZE) at 1.
  eapply (mwp_uvmcopy_loop (npages sz)); [|done|done|apply Hs|done|lia|lia|done| |].
  - pose proof (npages_Z sz ltac:(lia)) as Hn. unfold pages_of. apply Nat2Z.inj_lt. rewrite Hn.
    replace (sz + PGSIZE - 1) with (sz - 1 + 1 * PGSIZE) by lia. rewrite Z.div_add by done.
    pose proof (Z.div_le_mono (sz - 1) sz PGSIZE ltac:(done) ltac:(lia)). lia.
  - intros A1 l1 ms1 w Hw M1 L1 N1. rewrite Z.div_mul by done. rewrite <- (mv_root _ _ _ _ _ _ M1).
    apply mwp_bind. change 0 with (0 * PGSIZE) at 1. rewrite <- (Z2Nat.id w) by lia.
    eapply mwp_uvmunmap; [apply M1|lia|lia|]. intros l2 ms2 M2. apply mwp_ret.
    assert (HL : leaf (clear_pages (Z.to_nat w) 0 A1) = leaf A).
    { apply map_eq. intros n. rewrite clear_pages_lookup. case_decide; [symmetry; apply Hnone; lia|apply L1; lia]. }
    eapply HF; [|done|done]. eapply vmove_trans; [done..|]. intros n e He He2.
    rewrite clear_pages_lookup in He2. by case_decide.
  - intros A1 l1 ms1 M1 L1 C1. by eapply mwp_ret, HQ.
Qed.
End uvmcopy.

(** ** [uvmcreate] and [uvmfree] *)

Definition empty_pt (q : Z) : pt := mk_pt q ∅ ∅ ∅.
Lemma is_page_empty q p : is_page (empty_pt q) p ↔ p = q.
Proof. unfold is_page, empty_pt. cbn. setoid_rewrite lookup_empty. naive_solver. Qed.
Lemma ptrep_empty m q : page_ok q → (∀ j, 0 ≤ j < 512 → load64 m (q + 8 * j) = Some 0) → ptrep m (empty_pt q).
Proof.
  intros Hq Hz. split; cbn; try (intros; by rewrite ?lookup_empty in *).
  - by intros p ->%is_page_empty.
  - intros i Hi. exists 0. split; [by apply Hz|]. by rewrite lookup_empty.
Qed.
Lemma mwp_uvmcreate ms l (Q : Z → memst → Prop) :
  freepages ms l → (l = [] → Q 0 ms) →
  (∀ q l' ms', l = q :: l' → space ms' (empty_pt q) l' → same_outside [q] (mbytes ms) (mbytes ms') → Q q ms') →
  mwp uvmcreate ms Q.
Proof.
  intros Hf H0 HQ. unfold uvmcreate. apply mwp_bind. eapply mwp_kalloc; [done|done|intros ->; by apply mwp_ret, H0|].
  intros q l' ms1 -> Hf1 Hq Hql S1. pose proof (page_ok_pos q Hq) as Hpos.
  rewrite (proj2 (Z.eqb_neq q 0)) by (unfold KERNBASE in Hpos; lia).
  apply mwp_bind. eapply mwp_zero_page; [done..|]. intros ms2 Hf2 S2 Hz.
  eapply mwp_ret, HQ; [done| |by transitivity (mbytes ms1)].
  split; [split|..]; [by apply ptrep_empty|done|by intros p ->%is_page_empty|..]; intros n; cbn; intros; by rewrite lookup_empty in *.
Qed.

(** the pages of a table whose leaf entries are clear, in the order in which
    [freewalk] frees them *)
Definition no_perm (e : Z) : bool := negb (flag e (Z.lor (Z.lor PTE_R PTE_W) PTE_X)).
Definition entry_of (sub : Z → list Z → Prop) (m : gmap Z Z) (q : Z) (i : nat) (P : list Z) : Prop :=
  ∃ e, load64 m (q + 8 * Z.of_nat i) = Some e ∧
    (flag e PTE_V = false ∧ P = [] ∨ flag e PTE_V = true ∧ no_perm e = true ∧ sub (PTE2PA e) P).
Fixpoint subtree (d : nat) (m : gmap Z Z) (q : Z) (P : list Z) : Prop :=
  ∃ Ps : list (list Z), length Ps = 512%nat ∧ P = mjoin Ps ++ [q] ∧
    ∀ i Pi, Ps !! i = Some Pi → entry_of (match d with O => λ _ _, False | S d => subtree d m end) m q i Pi.
Lemma subtree_root d m q P : subtree d m q P → q ∈ P.
Proof. destruct d; intros (Ps & _ & -> & _); apply elem_of_app; right; by apply list_elem_of_singleton. Qed.
Lemma entry_of_same X m m' sub sub' q i P : same_outside X m m' → page_ok q → q ∉ X → (i < 512)%nat →
  (∀ p, sub p P → sub' p P) → entry_of sub m q i P → entry_of sub' m' q i P.
Proof.
  intros S Hq Hn Hi Hsub (e & He & Hcase). exists e. split; [rewrite (load64_page X m); [done..|lia]|]. naive_solver.
Qed.
Lemma elem_of_subtree (Ps : list (list Z)) i Pi : Ps !! i = Some Pi → Pi ⊆ mjoin Ps.
Proof. intros Hi p Hp. apply list_elem_of_join. exists Pi. split; [done|]. by eapply list_elem_of_lookup_2. Qed.
Lemma subtree_same X m m' : same_outside X m m' → ∀ d q P, Forall page_ok P → (∀ p, p ∈ P → p ∉ X) → subtree d m q P → subtree d m' q P.
Proof.
  intros S. induction d as [|d IH]; intros q P Hok Hd Ht; pose proof (subtree_root _ _ _ _ Ht) as Hq;
    destruct Ht as (Ps & Hlen & -> & Hent); exists Ps; (split_and!; [done|done|]); intros i Pi Hi;
    pose proof (lookup_lt_Some _ _ _ Hi); rewrite Forall_forall in Hok;
    (eapply entry_of_same; [done|by apply Hok|by apply Hd|lia| |by apply Hent]); [done|].
  pose proof (elem_of_subtree _ _ _ Hi) as Hsub. intros p.
  apply IH; [apply Forall_forall; intros r Hr; apply Hok|intros r Hr; apply Hd]; apply elem_of_app; left; by apply Hsub.
Qed.

(** [freewalk d] puts the pages of a subtree on the free list *)
Definition frees (d : nat) (sub : gmap Z Z → Z → list Z → Prop) : Prop :=
  ∀ q P ms L (Q : unit → memst → Prop), sub (mbytes ms) q P → freepages ms L → Forall page_ok P → NoDup (P ++ L) →
    (∀ ms', freepages ms' (reverse P ++ L) → same_outside P (mbytes ms) (mbytes ms') → Q tt ms') →
    mwp (freewalk_rec d q) ms Q.
Section freewalk.
Context (d : nat) (sub : gmap Z Z → Z → list Z → Prop) (q : Z) (Hq : page_ok q).
Context (Hrec : frees d sub).
Context (Hsame : ∀ X m m' p P, same_outside X m m' → Forall page_ok P → (∀ r, r ∈ P → r ∉ X) → sub m p P → sub m' p P).
#[local] Abbreviation walk_entry := (λ i : nat,
  let* pte := ld64 (q + 8 * Z.of_nat i) in
  if flag pte PTE_V && no_perm pte then
    freewalk_rec d (PTE2PA pte) ;;
    st64 (q + 8 * Z.of_nat i) 0
  else if flag pte PTE_V then panic "freewalk: leaf" else ret tt).
(** the loop from entry [k] on, whose subtrees have the pages [Ps] *)
Definition walks (k : nat) (Ps : list (list Z)) (ms : memst) : Prop :=
  ∀ L (Q : unit → memst → Prop), let P := mjoin Ps in
  freepages ms L → Forall page_ok P → NoDup (P ++ L) → q ∉ P → q ∉ L → (k + length Ps ≤ 512)%nat →
  (∀ i Pi, Ps !! i = Some Pi → entry_of (sub (mbytes ms)) (mbytes ms) q (k + i) Pi) →
  (∀ ms', freepages ms' (reverse P ++ L) → same_outside (q :: P) (mbytes ms) (mbytes ms') → Q tt ms') →
  mwp (for_each (seq k (length Ps)) walk_entry) ms Q.
Lemma walks_next P1 Ps k ms L ms1 (Q : unit → memst → Prop) : let P := mjoin (P1 :: Ps) in
  walks (S k) Ps ms1 → freepages ms1 (reverse P1 ++ L) → same_outside (q :: P1) (mbytes ms) (mbytes ms1) →
  Forall page_ok P → NoDup (P ++ L) → q ∉ P → q ∉ L → (k + length (P1 :: Ps) ≤ 512)%nat →
  (∀ i Pi, (P1 :: Ps) !! i = Some Pi → entry_of (sub (mbytes ms)) (mbytes ms) q (k + i) Pi) →
  (∀ j, (k < j < 512)%nat → load64 (mbytes ms1) (q + 8 * Z.of_nat j) = load64 (mbytes ms) (q + 8 * Z.of_nat j)) →
  (∀ ms', freepages ms' (reverse P ++ L) → same_outside (q :: P) (mbytes ms) (mbytes ms') → Q tt ms') →
  mwp (for_each (seq (S k) (length Ps)) walk_entry) ms1 Q.
Proof using Hq Hrec Hsame SYok HH.
  intros P IH Hf1 S1 Hok Hnd HqP HqL Hk Hent Hld HQ. unfold P in *. clear P. cbn [mjoin list_join length] in *.
  apply Forall_app in Hok as [Hok1 Hok2]. rewrite elem_of_app in HqP. apply Decidable.not_or in HqP as [HqP1 HqP2].
  rewrite <- app_assoc in Hnd. pose proof Hnd as (_ & Hdis & _)%NoDup_app.
  apply (IH (reverse P1 ++ L)); [done|done| |done| |lia| |].
  - by rewrite reverse_Permutation, Permutation_app_swap_app.
  - rewrite elem_of_app, elem_of_reverse. tauto.
  - intros i Pi Hi. destruct (Hent (S i) Pi Hi) as (e & He & Hcase). pose proof (lookup_lt_Some _ _ _ Hi).
    replace (k + S i)%nat with (S k + i)%nat in He by lia. exists e. rewrite Hld by lia. split; [done|].
    destruct Hcase as [?|(? & ? & Hsub)]; [by left|right]. split_and!; [done|done|].
    pose proof (elem_of_subtree _ _ _ Hi) as Hin. eapply Hsame; [exact S1| | |done].
    + apply Forall_forall. intros r Hr. rewrite Forall_forall in Hok2. by apply Hok2, Hin.
    + intros r Hr%Hin [-> |Hr1]%elem_of_cons; [done|]. apply (Hdis r Hr1), elem_of_app. by left.
  - intros ms' Hf' S'. apply HQ; [by rewrite reverse_app, <- app_assoc|].
    transitivity (mbytes ms1); (eapply same_outside_mono; [|done]); set_solver.
Qed.
Lemma freewalk_loop : ∀ Ps k ms, walks k Ps ms.
Proof using Hq Hrec Hsame SYok HH.
  induction Ps as [|P1 Ps IH]; intros k ms L Q P Hf Hok Hnd HqP HqL Hk Hent HQ; cbn [length seq for_each].
  { apply mwp_ret, HQ; [done|reflexivity]. }
  destruct (Hent 0%nat P1 eq_refl) as (e & He & Hcase). rewrite Nat.add_0_r in He.
  apply mwp_bind, mwp_bind. eapply mwp_mem_rd; [exact He|].
  destruct Hcase as [[Hv ->]|(Hv & Hnp & Hsub)]; rewrite Hv.
  - cbn [andb]. apply mwp_ret. apply (walks_next [] Ps k ms L); [apply IH|done..].
  - rewrite Hnp. cbn [andb]. unfold P in Hok, Hnd, HqP. cbn [mjoin list_join] in *.
    pose proof Hok as [Hok1 _]%Forall_app. pose proof HqP as [HqP1 _]%not_elem_of_app.
    rewrite <- app_assoc in Hnd. pose proof Hnd as (Hnd1 & Hdis & (_ & _ & HndL)%NoDup_app)%NoDup_app.
    apply mwp_bind. eapply Hrec; [done|done|done| |].
    { apply NoDup_app. split_and!; [done| |done]. intros r Hr HrL. apply (Hdis r Hr), elem_of_app. by right. }
    intros ms1 Hf1 S1. assert (HqL1 : q ∉ reverse P1 ++ L) by (rewrite elem_of_app, elem_of_reverse; tauto).
    eapply mwp_st64_page; [done|done|done|done|cbn [length] in Hk; lia|done|]. intros ms2 Hf2 S2 Hent2.
    eapply walks_next; [apply IH|done| |done|cbn [mjoin list_join]; by rewrite <- app_assoc|done|done|done|done| |done].
    + transitivity (mbytes ms1); (eapply same_outside_mono; [|done]); set_solver.
    + intros j Hj. rewrite Hent2 by lia. rewrite decide_False by lia. by apply (load64_page P1); [..|lia].
Qed.
End freewalk.

Definition node (sub : gmap Z Z → Z → list Z → Prop) (m : gmap Z Z) (q : Z) (P : list Z) : Prop :=
  ∃ Ps : list (list Z), length Ps = 512%nat ∧ P = mjoin Ps ++ [q] ∧
    ∀ i Pi, Ps !! i = Some Pi → entry_of (sub m) m q i Pi.
Lemma frees_node d sub : frees d sub →
  (∀ X m m' p P, same_outside X m m' → Forall page_ok P → (∀ r, r ∈ P → r ∉ X) → sub m p P → sub m' p P) →
  frees (S d) (node sub).
Proof.
  intros Hrec Hsame q P ms L Q (Ps & Hlen & -> & Hent) Hf Hok Hnd HQ.
  pose proof Hok as [Hok' Hqok]%Forall_app. rewrite Forall_singleton in Hqok.
  rewrite <- app_assoc in Hnd. pose proof Hnd as (HndP & Hdis & [HqL HndL]%NoDup_cons)%NoDup_app.
  assert (HqP : q ∉ mjoin Ps) by (intros Hin; apply (Hdis q Hin), elem_of_cons; by left).
  cbn [freewalk_rec]. apply mwp_bind. rewrite <- Hlen at 1.
  eapply (freewalk_loop d sub q Hqok Hrec Hsame); [done|done| |done|done|lia|done|].
  - apply NoDup_app. split_and!; [done| |done]. intros r Hr HrL. apply (Hdis r Hr), elem_of_cons. by right.
  - intros ms1 Hf1 S1. eapply mwp_kfree; [done|done| |].
    { rewrite elem_of_app, elem_of_reverse. tauto. }
    intros ms2 Hf2 S2. apply HQ; [by rewrite reverse_app|].
    transitivity (mbytes ms1); (eapply same_outside_mono; [|done]); set_solver.
Qed.
Lemma frees_subtree d : frees (S d) (subtree d).
Proof.
  induction d as [|d IH].
  - apply (frees_node 0 (λ _ _ _, False)); [by intros ? ? ? ? ? []|done].
  - apply (frees_node (S d) (subtree d)); [done|]. intros X m m' p P S. by apply (subtree_same X).
Qed.

(** the pages of a page table without leaf entries *)
Definition low_pages (A : pt) (i : nat) (j : nat) : list Z :=
  match low A !! (512 * Z.of_nat i + Z.of_nat j) with Some q => [q] | None => [] end.
Definition mid_pages (A : pt) (i : nat) : list Z :=
  match mid A !! Z.of_nat i with Some p => (seq 0 512 ≫= low_pages A i) ++ [p] | None => [] end.
Definition table_pages (A : pt) : list Z := (seq 0 512 ≫= mid_pages A) ++ [root A].
Lemma elem_of_low_pages A i j q : q ∈ low_pages A i j ↔ low A !! (512 * Z.of_nat i + Z.of_nat j) = Some q.
Proof. unfold low_pages. destruct (low A !! _); set_solver. Qed.
Lemma elem_of_mid_pages A i q : q ∈ mid_pages A i ↔ ∃ p, mid A !! Z.of_nat i = Some p ∧
  (q = p ∨ ∃ j, (j < 512)%nat ∧ low A !! (512 * Z.of_nat i + Z.of_nat j) = Some q).
Proof.
  unfold mid_pages. destruct (mid A !! Z.of_nat i) as [p|]; [|set_solver].
  rewrite elem_of_app, list_elem_of_bind, list_elem_of_singleton. setoid_rewrite elem_of_low_pages. setoid_rewrite elem_of_seq.
  split; [intros [(j & Hj & Hr)| ->]|intros (p' & [= <-] & [-> |(j & Hj & Hr)])].
  - exists p. split; [done|]. right. exists j. split; [lia|done].
  - exists p. split; [done|]. by left.
  - by right.
  - left. exists j. split; [done|lia].
Qed.
Lemma elem_of_table_pages m A q : ptrep m A → q ∈ table_pages A ↔ is_page A q.
Proof.
  intros Hp. unfold table_pages, is_page. rewrite elem_of_app, list_elem_of_bind, list_elem_of_singleton.
  setoid_rewrite elem_of_mid_pages. setoid_rewrite elem_of_seq. split.
  - intros [(i & (p & Hm & [-> |(j & _ & Hl)]) & _)| ->]; eauto.
  - intros [-> |[[i Hi]|[v Hv]]]; [by right|left|left].
    + pose proof (pr_dom _ _ Hp i ltac:(eauto)). exists (Z.to_nat i). rewrite Z2Nat.id by lia. split; [eauto|lia].
    + destruct (pr_low_mid _ _ Hp v) as [p Hm]; [by eauto|]. pose proof (pr_dom _ _ Hp _ ltac:(eauto)) as Hd.
      pose proof (Z.mod_pos_bound v 512 ltac:(lia)). pose proof (Z.div_mod v 512 ltac:(lia)) as Hdm.
      exists (Z.to_nat (v / 512)). rewrite Z2Nat.id by lia. split; [|lia]. exists p. split; [done|]. right.
      exists (Z.to_nat (v mod 512)). rewrite Z2Nat.id, <- Hdm by lia. split; [lia|done].
Qed.
Lemma NoDup_table_pages m A : ptrep m A → NoDup (table_pages A).
Proof.
  intros Hp. pose proof Hp as [_ Hmi Hli Hrm Hrl Hml _ _ _ _ _ _]. apply NoDup_app. split_and!; [apply NoDup_bind| |apply NoDup_singleton].
  - intros i i' q _ _. rewrite !elem_of_mid_pages.
    intros (p & Hm & [-> |(j & Hj & Hl)]) (p' & Hm' & [-> |(j' & Hj' & Hl')]).
    + pose proof (Hmi _ _ _ Hm Hm'). lia.
    + by destruct (Hml _ (512 * Z.of_nat i' + Z.of_nat j') _ Hm).
    + by destruct (Hml _ (512 * Z.of_nat i + Z.of_nat j) _ Hm').
    + pose proof (Hli _ _ _ Hl Hl'). lia.
  - intros i _. unfold mid_pages. destruct (mid A !! Z.of_nat i) as [p|] eqn:Hm; [|constructor].
    apply NoDup_app. split_and!; [apply NoDup_bind| |apply NoDup_singleton].
    + intros j j' q _ _. rewrite !elem_of_low_pages. intros Hl Hl'. pose proof (Hli _ _ _ Hl Hl'). lia.
    + intros j _. unfold low_pages. destruct (low A !! _); [apply NoDup_singleton|constructor].
    + apply NoDup_seq.
    + intros q (j & Hl & _)%list_elem_of_bind ->%list_elem_of_singleton. apply elem_of_low_pages in Hl. by eapply Hml.
  - apply NoDup_seq.
  - intros q (i & Hi & _)%list_elem_of_bind ->%list_elem_of_singleton.
    apply elem_of_mid_pages in Hi as (p & Hm & [Heq|(j & _ & Hl)]); [by eapply Hrm; rewrite Heq|by eapply Hrl].
Qed.

(** the page table, seen as the tree that [freewalk] descends *)
Lemma points_to_no_perm e q : points_to e (Some q) → flag e PTE_V = true ∧ no_perm e = true ∧ PTE2PA e = q.
Proof. intros (Hv & Hp & Hn). unfold no_perm. by rewrite Hn. Qed.
Lemma mjoin_fmap_seq (f : nat → list Z) n : mjoin (f <$> seq 0 n) = seq 0 n ≫= f.
Proof. generalize 0%nat. induction n as [|n IH]; intros k; [done|]. cbn. by rewrite <- IH. Qed.
Lemma lookup_fmap_seq (f : nat → list Z) i Pi : (f <$> seq 0 512) !! i = Some Pi → (i < 512)%nat ∧ Pi = f i.
Proof. rewrite list_lookup_fmap. intros (k & Hk & ->)%fmap_Some. apply lookup_seq in Hk as [-> Hk]. done. Qed.
Lemma subtree_low m A v q : ptrep m A → leaf A = ∅ → low A !! v = Some q → subtree 0 m q [q].
Proof.
  intros Hp Hleaf Hq. exists ((λ _, []) <$> seq 0 512). rewrite length_fmap, length_seq. split_and!; [done| |].
  { rewrite mjoin_fmap_seq. generalize (seq 0 512). induction l; [done|]. done. }
  intros i Pi [Hi ->]%lookup_fmap_seq. destruct (pr_low _ _ Hp v q (Z.of_nat i) Hq ltac:(lia)) as (e & He & Hl).
  exists e. rewrite Hleaf, lookup_empty in Hl. split; [done|]. by left.
Qed.
Lemma subtree_mid m A i p : ptrep m A → leaf A = ∅ → mid A !! Z.of_nat i = Some p → subtree 1 m p (mid_pages A i).
Proof.
  intros Hp Hleaf Hm. exists (low_pages A i <$> seq 0 512). rewrite length_fmap, length_seq, mjoin_fmap_seq.
  split_and!; [done|unfold mid_pages; by rewrite Hm|].
  intros j Pj [Hj ->]%lookup_fmap_seq. destruct (pr_mid _ _ Hp _ p (Z.of_nat j) Hm ltac:(lia)) as (e & He & Hpt).
  exists e. split; [done|]. unfold low_pages. destruct (low A !! _) as [q|] eqn:Hl; [right|by left].
  apply points_to_no_perm in Hpt as (? & ? & ->). split_and!; [done|done|]. by eapply subtree_low.
Qed.
Lemma subtree_root_page m A : ptrep m A → leaf A = ∅ → subtree 2 m (root A) (table_pages A).
Proof.
  intros Hp Hleaf. exists (mid_pages A <$> seq 0 512). rewrite length_fmap, length_seq, mjoin_fmap_seq.
  split_and!; [done|done|]. intros i Pi [Hi ->]%lookup_fmap_seq.
  destruct (pr_root _ _ Hp (Z.of_nat i) ltac:(lia)) as (e & He & Hpt). exists e. split; [done|].
  destruct (mid A !! Z.of_nat i) as [p|] eqn:Hm; [right|left].
  - apply points_to_no_perm in Hpt as (? & ? & ->). split_and!; [done|done|]. by apply subtree_mid.
  - unfold mid_pages. by rewrite Hm.
Qed.
Lemma mwp_freewalk A ms l (Q : unit → memst → Prop) :
  vmst ms A l → leaf A = ∅ →
  (∀ l' ms', freepages ms' l' → (∀ q, q ∈ l' ↔ is_page A q ∨ q ∈ l) → kept A l (mbytes ms) (mbytes ms') → Q tt ms') →
  mwp (freewalk (root A)) ms Q.
Proof.
  intros [Hp Hf Hd] Hleaf HQ. pose proof (λ q, elem_of_table_pages _ _ q Hp) as Hin.
  eapply (frees_subtree 2); [by apply subtree_root_page|done| | |].
  - apply Forall_forall. intros q Hq%Hin. by apply (pr_ok _ _ Hp).
  - apply NoDup_app. split_and!; [by eapply NoDup_table_pages| |apply Hf]. intros q Hq%Hin. by apply Hd.
  - intros ms' Hf' S. eapply HQ; [done|intros q; by rewrite elem_of_app, elem_of_reverse, Hin|].
    eapply same_outside_kept; [done|]. intros q Hq%Hin. by left.
Qed.

Lemma mwp_uvmfree A sz ms l (Q : unit → memst → Prop) :
  space ms A l → 0 ≤ sz ≤ TRAPFRAME → (∀ n e, leaf A !! n = Some e → 0 ≤ n < Z.of_nat (npages sz)) →
  (∀ l' ms', freepages ms' l' → (∀ q, q ∈ l' ↔ has_page A l q) →
     (∀ a, ¬ has_page A l (PGROUNDDOWN a) → mbytes ms' !! a = mbytes ms !! a) → Q tt ms') →
  mwp (uvmfree (root A) sz) ms Q.
Proof.
  intros Hs Hsz Hleaf HQ. unfold uvmfree. apply mwp_bind. pose proof (npages_utop sz Hsz) as Hu.
  assert (Hwalk : ∀ A1 l1 ms1, vmove ms A l ms1 A1 l1 → leaf A1 = ∅ → mwp (freewalk (root A)) ms1 Q).
  { intros A1 l1 ms1 M1 HL. rewrite <- (mv_root _ _ _ _ _ _ M1). eapply mwp_freewalk; [apply M1|done|].
    intros l2 ms2 Hf2 Hl2 Hk2. assert (Hall : ∀ q, q ∈ l2 ↔ has_page A l q).
    { intros q. rewrite Hl2, <- (mv_all _ _ _ _ _ _ M1). unfold has_page. assert (¬ upage A1 q) by (intros (n & e & He & _); by rewrite HL, lookup_empty in He). tauto. }
    apply (HQ l2 ms2); [done|done|]. intros a Ha. rewrite <- (mv_out _ _ _ _ _ _ M1) by done. apply Hk2.
    - intros Hp. apply Ha, (mv_all _ _ _ _ _ _ M1). by left.
    - intros Hp. apply Ha, (mv_all _ _ _ _ _ _ M1). by right; right. }
  destruct (Z.ltb_spec 0 sz) as [Hpos|Hzero]; cbn [when].
  - rewrite PGROUNDUP_npages, Z.div_mul by done. change 0 with (0 * PGSIZE) at 1.
    eapply mwp_uvmunmap; [done|lia|lia|]. intros l1 ms1 M1. eapply Hwalk; [done|]. apply map_eq. intros n.
    rewrite clear_pages_lookup, lookup_empty. case_decide as Hd; [done|]. destruct (leaf A !! n) as [e|] eqn:He; [|done].
    apply Hleaf in He. lia.
  - apply mwp_ret, (Hwalk A l); [by apply vmove_refl|]. apply map_empty. intros n.
    destruct (leaf A !! n) as [e|] eqn:He; [|done]. apply Hleaf in He. assert (sz = 0) as -> by lia. by change (Z.of_nat (npages 0)) with 0 in He; lia.
Qed.
Lemma mwp_runs {B} (m : KM B) s (Q : B → memst → Prop) : lockinv H (k_lk s) →
  PageTable.mwp (λ _, False) (λ _, False) (λ _ _, False) H m (k_mem s) Q →
  runs (m s) (λ b s', ∃ k ms, s' = s <| k_lk := k |> <| k_mem := ms |> ∧ lockinv H k ∧ Q b ms).
Proof.
  intros Hk Hm. apply runs_wp. eapply wp_mono; [|by apply Hm]. intros b s' (k & ms & -> & Hk' & _ & HQ). by exists k, ms.
Qed.

Lemma flag_U_copy q e : page_addr q → flag (pte_of q (PTE_FLAGS e)) PTE_U = flag e PTE_U.
Proof.
  intros Hq. unfold PTE_U. rewrite flag_pte_of by (done || apply PTE_FLAGS_range).
  rewrite flag_testbit, Z.lor_spec by done. unfold PTE_FLAGS. rewrite Z.land_spec. by destruct (Z.testbit e 4).
Qed.
Lemma copied_umem m0 A0 ms A x : copied m0 A0 ms A (vpn x) → umem (mbytes ms) A x = umem m0 A0 x.
Proof.
  unfold copied, umem, user_addr, user_entry. destruct (leaf A0 !! vpn x) as [e|]; [|by intros ->].
  intros (q & -> & Hqa & Hg). rewrite flag_U_copy by done. destruct (flag e PTE_U); [|done]. cbn [mbind option_bind].
  rewrite PTE2PA_pte_of by (done || apply PTE_FLAGS_range). apply Hg. by apply Z.mod_pos_bound.
Qed.
Lemma foreign_umem A0 ms A l ms' A' l' x : (∀ n e, leaf A0 !! n = Some e → flag e PTE_U = true → n < utop ∧ page_ok (PTE2PA e)) →
  foreign A0 A l → vmove ms A l ms' A' l' → umem (mbytes ms') A0 x = umem (mbytes ms) A0 x.
Proof.
  intros HU Hf M. unfold umem. destruct (user_addr A0 x) as [a|] eqn:Ha; [|done]. cbn [mbind option_bind].
  apply user_addr_Some in Ha as (e & He & Hu & ->). destruct (HU _ _ He Hu) as [Hn [Hal _]].
  eapply foreign_bytes; [done..|]. right. exists (vpn x), e. rewrite page_of_offset; [done|done|]. by apply Z.mod_pos_bound.
Qed.
End space.

(** ** The memory of a process *)

(** the free list is what the bytes of its pages say *)
Lemma flist_bytes {SY : Symbols} m m' l : ∀ h, Forall page_ok l → (∀ a, PGROUNDDOWN a ∈ l → m' !! a = m !! a) →
  flist m h l → flist m' h l.
Proof.
  induction l as [|p l IH]; intros h Hok Hb; [done|]. apply Forall_cons in Hok as [[Hp _] Hok].
  intros (-> & nx & Hnx & Hl). split; [done|]. exists nx. split.
  - rewrite <- Hnx. unfold load64, load_le. rewrite (load_bytes_ext m m'); [done|]. intros i Hi. apply Hb.
    rewrite page_of_offset; [apply elem_of_cons; by left|done|unfold PGSIZE; lia].
  - apply IH; [done| |done]. intros a Ha. apply Hb, elem_of_cons. by right.
Qed.
Lemma space_user_written {SY : Symbols} {SYok : SymbolsOk} ms A l va bs m' :
  space ms A l → user_written A va bs (mbytes ms) m' → ram m' → space (ms <| mbytes := m' |>) A l.
Proof.
  intros Hs Hw Hram. pose proof (space_user_pages _ _ _ Hs) as Hup. pose proof Hs as [[Hp [Hfl Hnd Hok _] Hd] Hsok Hinj HU].
  split; [split; [| |done]|done..].
  - eapply ptrep_bytes; [|done]. intros a Ha. by eapply user_written_outside.
  - split; [|done..]. eapply flist_bytes; [done| |done]. intros a Ha. apply (uw_out _ _ _ _ _ Hw). intros i _ Hi.
    apply user_addr_Some in Hi as (e & He & Hu & ->). destruct (Hsok _ _ He (HU _ _ He Hu)) as ([Hal _] & _ & Hnl).
    rewrite page_of_offset in Ha; [done|done|]. by apply Z.mod_pos_bound.
Qed.

Section theorems.
Context {SY : Symbols} {SYok : SymbolsOk} (s : kstate) (H : gset lockid) (l : list Z).
Context (Hlk : lockinv H (k_lk s)).

(** C12: [copyout] writes the given bytes to the user memory of an address
    space, and [copyin] reads them back: both return 0, the bytes returned are
    the bytes given, the address space is still one with the same page table
    and free list, and no byte of memory but those at the given user addresses
    is changed. *)
Theorem copyout_copyin A va src :
  space (k_mem s) A l → user_range A va (Z.of_nat (length src)) true →
  ∃ s1 s2, copyout (root A) va src s = Done 0 s1 ∧
    copyin (root A) va (Z.of_nat (length src)) s1 = Done (0, src) s2 ∧
    space (k_mem s1) A l ∧ user_written A va src (mbytes (k_mem s)) (mbytes (k_mem s1)) ∧
    k_mem s2 = k_mem s1.
Proof using Hlk SYok.
  intros Hs Hr. set (len := Z.of_nat (length src)) in *. pose proof (space_user_pages _ _ _ Hs) as Hup.
  pose proof Hs as [[Hp [_ _ _ Hram] _] _ _ _].
  destruct (mwp_runs H (copyout (root A) va src) s _ Hlk
    (mwp_copyout_loop _ _ _ H A Hup _ (k_mem s) va src Hp Hram (copy_turns_enough va len ltac:(lia)) Hr))
    as (r & s1 & Hrun1 & k1 & ms1 & Hs1 & Hk1 & -> & m1 & -> & Hp1 & Hram1 & Hw).
  assert (Hlk1 : lockinv H (k_lk s1)) by (by rewrite Hs1; destruct s).
  assert (Hms1 : k_mem s1 = (k_mem s) <| mbytes := m1 |>) by (by rewrite Hs1; destruct s).
  assert (Hm1 : mbytes (k_mem s1) = m1) by (by rewrite Hms1). 
  assert (Hsp : space (k_mem s1) A l) by (rewrite Hms1; by eapply space_user_written). rewrite <- Hm1 in *.
  assert (Hr' : user_range A va len false) by (destruct Hr as (? & ? & Hm); split_and!; [done..|]; naive_solver).
  destruct (mwp_runs H (copyin (root A) va len) s1 _ Hlk1
    (mwp_copyin_loop _ _ _ H _ A Hp1 Hup Hram1 _ va len (copy_turns_enough va len ltac:(lia)) Hr'))
    as ([r bs] & s2 & Hrun2 & k2 & ms2 & Hs2 & Hk2 & -> & Hr0 & Hlen & Hbs). simpl in Hr0, Hlen, Hbs. subst r.
  assert (bs = src) as ->.
  { apply list_eq_same_length with (length src); [lia|lia|]. intros i x y _ Hx Hy. apply Hbs in Hx.
    apply (uw_in _ _ _ _ _ Hw) in Hy. congruence. }
  exists s1, s2. split_and!; [exact Hrun1|exact Hrun2|done|done|]. rewrite Hs2. by destruct s1.
Qed.

Context (HH : kmem_lock ∉ H).

(** C10: [uvmcopy] gives a child the memory of its parent.  If it returns 0,
    every byte of the child's user memory below the size is the parent's, and
    the parent's memory is unchanged; if it returns -1, there were less than
    three free pages for each page to copy, and the child maps what it mapped
    before.  In both cases no page is lost: every page is in the child's address
    space or on the free list if it was before. *)
Theorem uvmcopy_copies A0 A sz :
  space (k_mem s) A l → ptrep (mbytes (k_mem s)) A0 → foreign A0 A l → 0 ≤ sz ≤ TRAPFRAME →
  (∀ n e, leaf A0 !! n = Some e → 0 ≤ n < Z.of_nat (npages sz) → page_ok (PTE2PA e)) →
  (∀ n e, leaf A0 !! n = Some e → flag e PTE_U = true → 0 ≤ n < Z.of_nat (npages sz)) →
  (∀ n, 0 ≤ n < Z.of_nat (npages sz) → leaf A !! n = None) →
  runs (uvmcopy (root A0) (root A) sz s) (λ r s', ∃ A' l', vmove (k_mem s) A l (k_mem s') A' l' ∧
    (r = 0 ∧ (∀ x, 0 ≤ x < PGROUNDUP sz → umem (mbytes (k_mem s')) A' x = umem (mbytes (k_mem s)) A0 x ∧
                                            umem (mbytes (k_mem s')) A0 x = umem (mbytes (k_mem s)) A0 x) ∨
     r = -1 ∧ (length l < 3 * npages sz)%nat ∧ leaf A' = leaf A)).
Proof using Hlk HH SYok.
  intros Hs Hp0 Hfor Hsz H0 HU0 Hnone. pose proof (npages_utop sz Hsz) as Hu.
  destruct (mwp_runs H (uvmcopy (root A0) (root A) sz) s (λ r ms', ∃ A' l', vmove (k_mem s) A l ms' A' l' ∧
    (r = 0 ∧ (∀ n, 0 ≤ n < Z.of_nat (npages sz) → copied (mbytes (k_mem s)) A0 ms' A' n) ∨
     r = -1 ∧ (length l < 3 * npages sz)%nat ∧ leaf A' = leaf A)) Hlk) as (r & s' & Hrun & k & ms & Hs' & Hk & A' & l' & M & Hcase).
  { apply (mwp_uvmcopy _ _ _ H HH A0 sz Hsz) with l; [done|done|done|done|done| |]; eauto 10. }
  assert (Hms : k_mem s' = ms) by (by rewrite Hs'; destruct s).
  exists r, s'. split; [done|]. rewrite Hms. exists A', l'. split; [done|]. destruct Hcase as [[-> Hc]|(-> & Hl)]; [left|by right].
  split; [done|]. intros x Hx. rewrite PGROUNDUP_npages in Hx by done. split.
  - apply copied_umem, Hc. unfold vpn. split; [apply Z.div_pos; [lia|done]|]. apply Z.div_lt_upper_bound; [done|lia].
  - eapply foreign_umem; [|done..]. intros n e He Hf. specialize (HU0 _ _ He Hf). split; [lia|]. by eapply H0.
Qed.

(** the memory of a process as it grows and shrinks, from [uvmcreate] to [uvmfree] *)
Inductive vm_op := Grow (newsz xperm : Z) | Shrink (newsz : Z).
Definition op_size (o : vm_op) : Z := match o with Grow newsz _ => newsz | Shrink newsz => newsz end.
Definition op_ok (o : vm_op) : Prop :=
  0 ≤ op_size o ≤ TRAPFRAME ∧ match o with Grow _ xperm => 0 ≤ xperm < 1024 | Shrink _ => True end.
Fixpoint uvm_run (os : list vm_op) (pagetable sz : Z) : KM Z :=
  match os with
  | [] => ret sz
  | Grow newsz xperm :: os =>
      let* r := uvmalloc pagetable sz newsz xperm in
      uvm_run os pagetable (if r =? 0 then sz else r)
  | Shrink newsz :: os =>
      let* r := uvmdealloc pagetable sz newsz in
      uvm_run os pagetable r
  end.
Definition uvm_life (os : list vm_op) : KM unit :=
  let* pagetable := uvmcreate in
  if pagetable =? 0 then ret tt else
  let* sz := uvm_run os pagetable 0 in
  uvmfree pagetable sz.
(** all that is mapped is below [sz] *)
Definition sized (A : pt) (sz : Z) : Prop :=
  0 ≤ sz ≤ TRAPFRAME ∧ ∀ n e, leaf A !! n = Some e → 0 ≤ n < Z.of_nat (npages sz).

#[local] Abbreviation mwpF := (mwp (λ _, False) (λ _, False) (λ _ _, False) H).
Lemma sized_none A sz n : sized A sz → ¬ 0 ≤ n < Z.of_nat (npages sz) → leaf A !! n = None.
Proof using. intros [_ Hl] Hn. destruct (leaf A !! n) eqn:He; [|done]. by apply Hl in He. Qed.
Lemma mwp_uvm_run os : ∀ A sz ms l (Q : Z → memst → Prop), Forall op_ok os → space ms A l → sized A sz →
  (∀ A' l' ms' sz', space ms' A' l' → root A' = root A → sized A' sz' → (∀ q, has_page A' l' q ↔ has_page A l q) →
     (∀ a, ¬ has_page A l (PGROUNDDOWN a) → mbytes ms' !! a = mbytes ms !! a) → Q sz' ms') →
  mwpF (uvm_run os (root A) sz) ms Q.
Proof using SYok HH.
  induction os as [|o os IH]; intros A sz ms l0 Q Hos Hs Hz HQ; cbn [uvm_run]; [by eapply mwp_ret, (HQ A l0)|].
  apply Forall_cons in Hos as [[Hsz Ho] Hos].
  assert (Hnext : ∀ A1 l1 ms1 sz1, vmove ms A l0 ms1 A1 l1 → sized A1 sz1 → mwpF (uvm_run os (root A) sz1) ms1 Q).
  { intros A1 l1 ms1 sz1 M1 Hz1. rewrite <- (mv_root _ _ _ _ _ _ M1). apply (IH A1 sz1 ms1 l1); [done|apply M1|done|].
    intros A2 l2 ms2 sz2 S2 R2 Hz2 P2 O2. apply (HQ A2 l2); [done|by rewrite R2, (mv_root _ _ _ _ _ _ M1)|done| |].
    - intros q. by rewrite P2, (mv_all _ _ _ _ _ _ M1).
    - intros a Ha. rewrite O2, (mv_out _ _ _ _ _ _ M1); [done|done|]. by rewrite (mv_all _ _ _ _ _ _ M1). }
  destruct o as [new xperm|new]; cbn [op_size] in Hsz; apply mwp_bind.
  - destruct (Z.lt_ge_cases new sz) as [Hlt|Hge].
    { unfold uvmalloc. rewrite (proj2 (Z.ltb_lt _ _)) by done. apply mwp_ret. apply (Hnext A l0); [by apply vmove_refl|].
      by destruct (sz =? 0). }
    pose proof (npages_mono sz new ltac:(destruct Hz; lia)) as Hm.
    eapply mwp_uvmalloc; [done|done|destruct Hz; lia|lia|done| | |].
    + intros n Hn. eapply sized_none; [done|lia].
    + intros A1 l1 ms1 M1 L1 _. rewrite Z.eqb_refl. apply (Hnext A1 l1); [done|]. split; [apply Hz|]. rewrite L1. apply Hz.
    + intros A1 l1 ms1 M1 L1 _ _. apply (Hnext A1 l1); [done|].
      assert (Hn1 : sized A1 new). { split; [done|]. intros n e He. destruct (decide (Z.of_nat (npages sz) ≤ n < Z.of_nat (npages new))); [lia|].
        rewrite L1 in He by done. apply Hz in He. lia. }
      destruct (Z.eqb_spec new 0) as [-> |]; [|done]. assert (sz = 0) as -> by (destruct Hz; lia). done.
  - destruct (Z.le_gt_cases sz new) as [Hle|Hgt].
    { unfold uvmdealloc. rewrite (proj2 (Z.leb_le _ _)) by done. apply mwp_ret. apply (Hnext A l0); [by apply vmove_refl|done]. }
    pose proof (npages_mono new sz ltac:(lia)) as Hm. eapply mwp_uvmdealloc; [done|done|lia|apply Hz|].
    intros l1 ms1 M1. eapply Hnext; [done|]. split; [done|]. intros n e. rewrite clear_pages_lookup. case_decide as Hd; [done|].
    intros He. apply Hz in He. lia.
Qed.

(** C11: the memory of a process is given back in full.  An address space that
    [uvmcreate] makes, that grows and shrinks any number of times by [uvmalloc]
    and [uvmdealloc], whether the allocations succeed or fail, and that
    [uvmfree] destroys, leaves on the free list exactly the pages it held
    before, and changes no memory outside of these pages. *)
Theorem address_space_no_leak os :
  freepages (k_mem s) l → Forall op_ok os →
  runs (uvm_life os s) (λ _ s', ∃ l', freepages (k_mem s') l' ∧ l' ≡ₚ l ∧
    ∀ a, PGROUNDDOWN a ∉ l → mbytes (k_mem s') !! a = mbytes (k_mem s) !! a).
Proof using Hlk HH SYok.
  intros Hf Hos. destruct (mwp_runs H (uvm_life os) s (λ _ ms', ∃ l', freepages ms' l' ∧ (∀ q, q ∈ l' ↔ q ∈ l) ∧
    ∀ a, PGROUNDDOWN a ∉ l → mbytes ms' !! a = mbytes (k_mem s) !! a) Hlk) as ([] & s' & Hrun & k & ms & Hs' & Hk & l' & Hf' & Hl' & Ho).
  - unfold uvm_life. apply mwp_bind. eapply mwp_uvmcreate; [done|done|intros ->; apply mwp_ret; by exists []|].
    intros q l1 ms1 -> S1 Hs1. pose proof (vs_pt _ _ _ (sp_vm _ _ _ S1)) as Hp.
    assert (page_ok q) as Hq by (apply (pr_ok _ _ Hp), is_page_empty; done). apply page_ok_pos in Hq.
    rewrite (proj2 (Z.eqb_neq q 0)) by (unfold KERNBASE in Hq; lia). apply mwp_bind.
    assert (Hall : ∀ p, has_page (empty_pt q) l1 p ↔ p ∈ q :: l1).
    { intros p. unfold has_page. rewrite is_page_empty, elem_of_cons. assert (¬ upage (empty_pt q) p); [|tauto].
      intros (n & e & He & _). cbn in He. by rewrite lookup_empty in He. }
    eapply (mwp_uvm_run os (empty_pt q)); [done|done| |].
    { split; [done|]. intros n e He. cbn in He. by rewrite lookup_empty in He. }
    intros A2 l2 ms2 sz2 S2 R2 [Hz2 Hl2] P2 O2. assert (Hq2 : q = root A2) by (by rewrite R2). rewrite Hq2 at 1.
    eapply mwp_uvmfree; [done|done|done|done|]. intros l3 ms3 Hf3 Hl3 O3. exists l3. split_and!; [done| |].
    + intros p. by rewrite Hl3, P2, Hall.
    + intros a Ha. rewrite O3 by (by rewrite P2, Hall). rewrite O2 by (by rewrite Hall). apply Hs1.
      intros Hin%list_elem_of_singleton. apply Ha, elem_of_cons. by left.
  - assert (Hms : k_mem s' = ms) by (by rewrite Hs'; destruct s). exists tt, s'. split; [done|]. rewrite Hms. exists l'.
    split_and!; [done| |done]. apply NoDup_Permutation; [apply Hf'|apply Hf|done].
Qed.
End theorems.

(** ** An example: a machine with sixteen pages, a process of two *)

Definition sixteen_pages : Symbols :=
  {| sym_end := PHYSTOP - 16 * PGSIZE; sym_etext := PHYSTOP - 17 * PGSIZE;
     sym_trampoline := PHYSTOP - 18 * PGSIZE; sym_uservec := PHYSTOP - 18 * PGSIZE;
     sym_userret := PHYSTOP - 18 * PGSIZE + 64; sym_kernelvec := PHYSTOP - 19 * PGSIZE;
     sym_usertrap := PHYSTOP - 20 * PGSIZE |}.
#[local] Existing Instance sixteen_pages.
#[local] Instance sixteen_pages_ok : SymbolsOk.
Proof. by split. Qed.
Lemma example_free : ∃ s l, lockinv ∅ (k_lk s) ∧ freepages (k_mem s) l ∧ length l = 16%nat.
Proof.
  destruct ram_exists as [m Hm].
  assert (Hinit : runs (kinit (kstate0 <| k_mem := mk_memst m 0 0 |>)) (λ _ s',
    lockinv ∅ (k_lk s') ∧ freepages (k_mem s') (reverse all_pages))).
  { apply runs_wp. eapply wp_kinit; [apply lockinv0|set_solver|done|done|]. done. }
  destruct Hinit as (_ & s & _ & Hlk & Hfp). by exists s, (reverse all_pages).
Qed.
Definition example_perm : Z := Z.lor (Z.lor PTE_R PTE_U) PTE_W.
Lemma example_space : ∃ s A l, lockinv ∅ (k_lk s) ∧ space (k_mem s) A l ∧ sized A 8192 ∧
  (∀ n, 0 ≤ n < 2 → page_at (k_mem s) A n example_perm (λ _, Some 0)) ∧ (9 ≤ length l)%nat.
Proof.
  destruct example_free as (s & l & Hlk & Hf & Hlen).
  destruct (mwp_runs ∅ (let* pt := uvmcreate in uvmalloc pt 0 8192 PTE_W) s (λ _ ms, ∃ A l', space ms A l' ∧ sized A 8192 ∧
    (∀ n, 0 ≤ n < 2 → page_at ms A n example_perm (λ _, Some 0)) ∧ (9 ≤ length l')%nat) Hlk)
    as (r & s' & _ & k & ms & -> & Hk & A & l' & HA).
  - apply mwp_bind. eapply mwp_uvmcreate; [set_solver|done|by intros ->|]. intros q l1 ms1 -> S1 _. simpl in Hlen.
    change (mwp (λ _, False) (λ _, False) (λ _ _, False) ∅ (uvmalloc (root (empty_pt q)) 0 8192 PTE_W) ms1
      (λ _ ms, ∃ A l', space ms A l' ∧ sized A 8192 ∧
       (∀ n, 0 ≤ n < 2 → page_at ms A n example_perm (λ _, Some 0)) ∧ (9 ≤ length l')%nat)).
    eapply mwp_uvmalloc; [set_solver|done|done|done|done|by intros n _|..].
    + intros A' l' ms' _ _ Hlt. change (npages 8192 - npages 0)%nat with 2%nat in Hlt. lia.
    + change (npages 8192) with 2%nat. change (npages 0) with 0%nat. intros A' l' ms' M L Hz N. exists A', l'.
      split_and!; [apply M| |done|lia]. split; [done|]. change (npages 8192) with 2%nat. intros n e He.
      destruct (decide (0 ≤ n < 2)) as [|Hn]; [done|]. rewrite L in He by done. cbn in He. by rewrite lookup_empty in He.
  - exists (s <| k_lk := k |> <| k_mem := ms |>), A, l'. by destruct s.
Qed.
Lemma page_at_entry ms A n perm g : 0 ≤ perm < 1024 → page_at ms A n perm g →
  ∃ e, leaf A !! n = Some e ∧ flag e PTE_U = Z.testbit (Z.lor perm 1) 4 ∧ flag e PTE_W = Z.testbit (Z.lor perm 1) 2.
Proof.
  intros Hp (q & Hq & Hpa & _). exists (pte_of q perm). unfold PTE_U, PTE_W. rewrite !flag_pte_of by done. done.
Qed.
Lemma example_range ms A : (∀ n, 0 ≤ n < 2 → page_at ms A n example_perm (λ _, Some 0)) → user_range A 4094 4 true.
Proof.
  intros Hz. split_and!; [done|done|]. intros i Hi. destruct (page_at_entry ms A (vpn (4094 + i)) example_perm (λ _, Some 0)) as (e & He & Hu & Hw).
  - done.
  - apply Hz. unfold vpn, PGSIZE. pose proof (Z.div_pos (4094 + i) 4096). split; [lia|]. apply Z.div_lt_upper_bound; lia.
  - exists e. split_and!; [done|by rewrite Hu|by rewrite Hw].
Qed.
Lemma copyout_copyin_witness : ∃ s s1 s2 pagetable,
  copyout pagetable 4094 [10; 20; 30; 40] s = Done 0 s1 ∧ copyin pagetable 4094 4 s1 = Done (0, [10; 20; 30; 40]) s2.
Proof.
  destruct example_space as (s & A & l & Hlk & Hs & _ & Hz & _).
  destruct (copyout_copyin s ∅ l Hlk A 4094 [10; 20; 30; 40] Hs (example_range _ _ Hz)) as (s1 & s2 & H1 & H2 & _).
  exists s, s1, s2, (root A). split; [exact H1|exact H2].
Defined.
Lemma address_space_no_leak_witness : ∃ s s',
  uvm_life [Grow 5000 PTE_W; Shrink 100; Grow (20 * PGSIZE) 0] s = Done tt s' ∧
  ∃ l, freepages (k_mem s') l ∧ length l = 16%nat.
Proof.
  destruct example_free as (s & l & Hlk & Hf & Hlen).
  destruct (address_space_no_leak s ∅ l Hlk (not_elem_of_empty _) [Grow 5000 PTE_W; Shrink 100; Grow (20 * PGSIZE) 0] Hf)
    as ([] & s' & Hrun & l' & Hf' & Hl' & _); [by repeat constructor|].
  exists s, s'. split; [exact Hrun|]. exists l'. split; [done|]. by rewrite (Permutation_length Hl').
Defined.
Lemma uvmcopy_copies_witness : ∃ s s' old new A A',
  uvmcopy old new 8192 s = Done 0 s' ∧ umem (mbytes (k_mem s)) A 5000 = Some 0 ∧ umem (mbytes (k_mem s')) A' 5000 = Some 0.
Proof.
  destruct example_space as (s & A & l & Hlk & Hs & [_ Hsz] & Hz & Hlen).
  destruct (mwp_runs ∅ uvmcreate s (λ _ ms, ∃ q l', l = q :: l' ∧ space ms (empty_pt q) l' ∧ same_outside [q] (mbytes (k_mem s)) (mbytes ms)) Hlk)
    as (r & s1 & _ & k & ms & Hs1 & Hk & q & l' & -> & Hs' & Hsame).
  { eapply mwp_uvmcreate; [set_solver|apply Hs|intros ->; cbn [length] in Hlen; lia|]. eauto 10. }
  assert (Hms : k_mem s1 = ms) by (by rewrite Hs1; destruct s). rewrite <- Hms in *.
  assert (Hlk1 : lockinv ∅ (k_lk s1)) by (by rewrite Hs1; destruct s).
  destruct Hs as [[Hp _ Hd] Hok _ HU].
  assert (Hfor : foreign A (empty_pt q) l').
  { intros p Hpg. assert (p ∉ q :: l') as Hn by (destruct Hpg as [?|(n & e & He & Hn & <-)]; [by apply Hd|]; destruct (Hok _ _ He Hn) as (_ & _ & ?); done).
    rewrite elem_of_cons in Hn. intros [->%is_page_empty|[(n & e & He & _)|?]]; [tauto| |tauto]. cbn in He. by rewrite lookup_empty in He. }
  destruct (uvmcopy_copies s1 ∅ l' Hlk1 (not_elem_of_empty _) A (empty_pt q) 8192) as (r' & s2 & Hrun & A' & l2 & _ & Hres).
  - done.
  - eapply ptrep_same; [done| |done]. intros p Hp' ->%list_elem_of_singleton. apply (Hd q Hp'), elem_of_cons. by left.
  - done.
  - done.
  - intros n e He Hn. by apply Hok in He as [? _]; [|change (npages 8192) with 2%nat in Hn; rewrite utop_small; lia].
  - intros n e He _. by eapply Hsz.
  - intros n _. cbn. apply lookup_empty.
  - destruct Hres as [[-> Hx]|(_ & Hlt & _)]; [|change (npages 8192) with 2%nat in Hlt; cbn [length] in Hlen; lia].
    assert (Hu : umem (mbytes (k_mem s1)) A 5000 = Some 0).
    { destruct (Hz 1 ltac:(done)) as (p & He & Hpa & Hb). unfold umem, user_addr, user_entry. change (vpn 5000) with 1. rewrite He.
      unfold PTE_U. rewrite flag_pte_of, PTE2PA_pte_of by done. change (5000 mod PGSIZE) with 904. cbn [mbind option_bind].
      rewrite <- (Hb 904) by done. apply Hsame. rewrite page_of_offset; [|apply Hpa|done]. intros ->%list_elem_of_singleton.
      destruct (Hok 1 _ He ltac:(done)) as (_ & _ & Hnl). rewrite PTE2PA_pte_of in Hnl by done. apply Hnl, elem_of_cons. by left. }
    exists s1, s2, (root A), (root (empty_pt q)), A, A'. split_and!; [exact Hrun|done|].
    destruct (Hx 5000) as [-> _]; [done|done].
Defined.
