(* ===== verification/Printf.v ===== *)
(** * Console output, [kernel/printf.c]

    [printf] and what it prints characters with: [consputc] of
    [kernel/console.c] and [uartputc_sync] of [kernel/uart.c].  Characters and
    format strings are lists of character codes.  The only trace of a
    character is the write to the UART's transmit register. *)

From S2P Require Import Prelude Kstate Spinlock Layout.
#[local] Open Scope Z_scope.

(** ** The UART *)

Definition RHR : Z := 0.
Definition THR : Z := 0.
Definition IER : Z := 1.
Definition FCR : Z := 2.
Definition ISR : Z := 2.
Definition LCR : Z := 3.
Definition LSR : Z := 5.

Definition rd_dev {T} (f : devst → T) : KM T := gets (λ s, f (k_dev s)).
Definition wr_dev {T} (f : devst → T) `{!Setter f} (v : T) : KM unit :=
  modify (λ s, s <| k_dev ::= λ d, d <| f := v |> |>).
(** a store to a device register *)
Definition mmio_write (a v : Z) : KM unit :=
  modify (λ s, s <| k_dev ::= λ d, d <| mmio ::= cons (a, v) |> |>).
Definition WriteReg (reg v : Z) : KM unit := mmio_write (UART0 + reg) (u8 v).

(** The loop that waits for the transmitter has no effect here: the device
    becomes ready after a while. *)
Definition uartputc_sync (c : Z) : KM unit :=
  let* pk := rd_dev panicking in
  when (pk =? 0) push_off ;;
  let* pd := rd_dev panicked in
  if negb (pd =? 0) then stop_with StopFrozen else
  WriteReg THR c ;;
  let* pk := rd_dev panicking in
  when (pk =? 0) pop_off.

Definition BACKSPACE : Z := 256.
Definition consputc (c : Z) : KM unit :=
  if c =? BACKSPACE then uartputc_sync 8 ;; uartputc_sync (chr " ") ;; uartputc_sync 8
  else uartputc_sync c.

(** ** Numbers *)

Definition digits : list Z := str "0123456789abcdef".
(** [long long]: 64 bits, two's complement *)
Definition s64 (x : Z) : Z := (x + 2 ^ 63) mod 2 ^ 64 - 2 ^ 63.

(** the [do]-[while] loop of [printint]: the digits of [x], lowest first; a
    64-bit number has at most 64 digits in any base *)
Fixpoint printint_digits (fuel : nat) (x base : Z) : list Z :=
  match fuel with
  | O => []
  | S fuel =>
      default 0 (digits !! Z.to_nat (x mod base)) ::
      (if x / base =? 0 then [] else printint_digits fuel (x / base) base)
  end.
(** the buffer [buf] when the digits and the sign are in it *)
Definition printint_buf (xx base : Z) (sign : bool) : list Z :=
  let neg := sign && (xx <? 0) in
  let x := u64 (if neg then - xx else xx) in
  printint_digits 64 x base ++ (if neg then [chr "-"] else []).
(** [char buf[20]]: a longer number would overrun it *)
Definition printint (xx base : Z) (sign : bool) : KM unit :=
  let buf := printint_buf xx base sign in
  if (20 <? length buf)%nat then fault else
  for_each (reverse buf) consputc.

Fixpoint printptr_digits (n : nat) (x : Z) : list Z :=
  match n with
  | O => []
  | S n => default 0 (digits !! Z.to_nat (Z.shiftr x 60)) :: printptr_digits n (u64 (Z.shiftl x 4))
  end.
Definition printptr (x : Z) : KM unit :=
  consputc (chr "0") ;;
  consputc (chr "x") ;;
  for_each (printptr_digits 16 x) consputc.

(** ** Formats *)

(** the variable arguments: an integer or pointer, or a string *)
Inductive farg := Aint (v : Z) | Astr (s : option (list Z)).

Inductive fconv :=
| Fint (conv : Z → Z) (base : Z) (sign : bool)   (* printint *)
| Fptr | Fchar | Fstr | Fpercent | Fend | Funknown.

(** the chain of [if]s on the characters after a percent sign, with the
    number of further characters it skips *)
Definition conversion (c0 c1 c2 : Z) : fconv * nat :=
  if c0 =? chr "d" then (Fint s32 10 true, 0%nat)
  else if (c0 =? chr "l") && (c1 =? chr "d") then (Fint u64 10 true, 1%nat)
  else if (c0 =? chr "l") && (c1 =? chr "l") && (c2 =? chr "d") then (Fint u64 10 true, 2%nat)
  else if c0 =? chr "u" then (Fint u32 10 false, 0%nat)
  else if (c0 =? chr "l") && (c1 =? chr "u") then (Fint u64 10 false, 1%nat)
  else if (c0 =? chr "l") && (c1 =? chr "l") && (c2 =? chr "u") then (Fint u64 10 false, 2%nat)
  else if c0 =? chr "x" then (Fint u32 16 false, 0%nat)
  else if (c0 =? chr "l") && (c1 =? chr "x") then (Fint u64 16 false, 1%nat)
  else if (c0 =? chr "l") && (c1 =? chr "l") && (c2 =? chr "x") then (Fint u64 16 false, 2%nat)
  else if c0 =? chr "p" then (Fptr, 0%nat)
  else if c0 =? chr "c" then (Fchar, 0%nat)
  else if c0 =? chr "s" then (Fstr, 0%nat)
  else if c0 =? chr "%" then (Fpercent, 0%nat)
  else if c0 =? 0 then (Fend, 0%nat)
  else (Funknown, 0%nat).

(** [va_arg] of a number and of a string *)
Definition va_int (ap : list farg) : KM (Z * list farg) :=
  match ap with Aint v :: ap => ret (v, ap) | _ => fault end.
Definition va_str (ap : list farg) : KM (option (list Z) * list farg) :=
  match ap with Astr s :: ap => ret (s, ap) | _ => fault end.

(** one conversion; the arguments that are left, or [None] to end the loop *)
Definition printf_conv (cv : fconv) (c0 : Z) (ap : list farg) : KM (option (list farg)) :=
  match cv with
  | Fint conv base sign =>
      let* a := va_int ap in printint (s64 (conv a.1)) base sign ;; ret (Some a.2)
  | Fptr => let* a := va_int ap in printptr (u64 a.1) ;; ret (Some a.2)
  | Fchar => let* a := va_int ap in consputc (s32 a.1) ;; ret (Some a.2)
  | Fstr => let* a := va_str ap in
            for_each (default (str "(null)") a.1) consputc ;; ret (Some a.2)
  | Fpercent => consputc (chr "%") ;; ret (Some ap)
  | Fend => ret None
  | Funknown => consputc (chr "%") ;; consputc c0 ;; ret (Some ap)
  end.

(** the loop over the format: [fmt] is what follows position [i], and the
    loop takes at least a character per turn *)
Fixpoint printf_loop (fuel : nat) (fmt : list Z) (ap : list farg) : KM unit :=
  match fuel, fmt with
  | _, [] => ret tt
  | O, _ => stop_with StopFuel
  | S fuel, cx :: fmt =>
      if negb (cx =? chr "%") then consputc cx ;; printf_loop fuel fmt ap else
      let c0 := default 0 (fmt !! 0%nat) in
      let c1 := if c0 =? 0 then 0 else default 0 (fmt !! 1%nat) in
      let c2 := if c1 =? 0 then 0 else default 0 (fmt !! 2%nat) in
      let '(cv, skip) := conversion c0 c1 c2 in
      let* r := printf_conv cv c0 ap in
      match r with
      | Some ap => printf_loop fuel (drop (S skip) fmt) ap
      | None => ret tt
      end
  end.
Definition printf (fmt : list Z) (ap : list farg) : KM unit :=
  let* pk := rd_dev panicking in
  when (pk =? 0) (acquire pr_lock) ;;
  printf_loop (length fmt) fmt ap ;;
  let* pk := rd_dev panicking in
  when (pk =? 0) (release pr_lock).

Definition printfinit : KM unit := initlock pr_lock.

(** ** What is printed *)

(** the entries [mmio] gains, newest first, when the characters [l] are sent *)
Definition sent (l : list Z) : list (Z * Z) := reverse ((λ c, (UART0 + THR, u8 c)) <$> l).
Lemma sent_app l1 l2 : sent (l1 ++ l2) = sent l2 ++ sent l1.
Proof. unfold sent. by rewrite fmap_app, reverse_app. Qed.

(** [prints L m l]: unless the kernel has panicked, and with no lock of [L]
    held, [m] sends exactly the characters [l] and changes nothing else *)
Definition prints (L : gset lockid) (m : KM unit) (l : list Z) : Prop :=
  ∀ E G R H s (Q : unit → kstate → Prop),
    panicking (k_dev s) = 0 → panicked (k_dev s) = 0 → lockinv H (k_lk s) → H ## L →
    (∀ k, lockinv H k → lk_frame (k_lk s) k →
       Q tt (s <| k_lk := k |> <| k_dev ::= λ d, d <| mmio ::= app (sent l) |> |>)) →
    wp E G R (m s) Q.

Lemma prints_ret L : prints L (ret tt) [].
Proof. intros E G R H s Q _ _ Hlk _ HQ. apply wp_done. destruct s as [lk pt mem csr [] sv fs]. by apply (HQ lk). Qed.
Lemma prints_bind L m1 m2 l1 l2 :
  prints L m1 l1 → prints L m2 l2 → prints L (m1 ;; m2) (l1 ++ l2).
Proof.
  intros H1 H2 E G R H s Q Hp Hd Hlk HL HQ. apply wp_bind. apply (H1 E G R H); [done..|].
  intros k Hk Hf. apply (H2 E G R H); [done..|]. intros k2 Hk2 Hf2.
  specialize (HQ k2 Hk2 ltac:(lk_frames)). rewrite sent_app in HQ.
  replace (s <| k_lk := k |> <| k_dev ::= _ |> <| k_lk := k2 |> <| k_dev ::= _ |>)
    with (s <| k_lk := k2 |> <| k_dev ::= λ d, d <| mmio ::= app (sent l2 ++ sent l1) |> |>); [done|].
  destruct s as [lk pt mem csr [mm] sv fs]. cbv [upd set_k_dev set_k_lk set_mmio]. by rewrite <- app_assoc.
Qed.
Lemma prints_mono L L' m l : L ⊆ L' → prints L m l → prints L' m l.
Proof. intros HL Hm E G R H s Q Hp Hd Hlk HL'. apply Hm; [done|done|done|set_solver]. Qed.

Lemma prints_uartputc_sync L c : prints L (uartputc_sync c) [c].
Proof.
  intros E G R H s Q Hp Hd (b & Hlk) HL HQ. unfold uartputc_sync.
  apply wp_bind, wp_done. rewrite Hp. apply wp_bind. simpl.
  eapply wp_push_off; [done|]. intros k Hk Hf.
  apply wp_bind, wp_done. simpl. rewrite Hd. simpl. apply wp_bind, wp_done, wp_bind, wp_done.
  simpl. rewrite Hp. simpl. eapply wp_pop_off; [|exact Hk|]; [lia|]. intros k2 Hk2 Hf2.
  specialize (HQ k2 (ex_intro _ b Hk2) ltac:(lk_frames)). by destruct s as [lk pt mem csr [] sv fs].
Qed.
Lemma prints_consputc L c : c ≠ BACKSPACE → prints L (consputc c) [c].
Proof. intros Hc. unfold consputc. rewrite (proj2 (Z.eqb_neq _ _)) by done. apply prints_uartputc_sync. Qed.
Lemma prints_backspace L : prints L (consputc BACKSPACE) [8; chr " "; 8].
Proof.
  apply (prints_bind L _ _ [8] [chr " "; 8]); [apply prints_uartputc_sync|].
  apply (prints_bind L _ _ [chr " "] [8]); apply prints_uartputc_sync.
Qed.
(** characters: bytes *)
Definition char_ok (c : Z) : Prop := 0 ≤ c < 256.
Lemma prints_chars L l : Forall char_ok l → prints L (for_each l consputc) l.
Proof.
  induction 1 as [|c l Hc Hl IH]; [apply prints_ret|]. apply (prints_bind L _ _ [c] l); [|done].
  apply prints_consputc. unfold char_ok, BACKSPACE in *. lia.
Qed.

(** *** Numerals *)

(** the value of a list of digits, lowest first *)
Definition digit_val (c : Z) : Z :=
  match list_find (λ d, d = c) digits with Some (i, _) => Z.of_nat i | None => 0 end.
Fixpoint numeral_val (base : Z) (l : list Z) : Z :=
  match l with [] => 0 | c :: l => digit_val c + base * numeral_val base l end.

Lemma digit_of d : 0 ≤ d < 16 →
  digit_val (default 0 (digits !! Z.to_nat d)) = d ∧ char_ok (default 0 (digits !! Z.to_nat d)).
Proof.
  intros Hd.
  assert (Hall : Forall (λ d, digit_val (default 0 (digits !! Z.to_nat d)) = d ∧
    char_ok (default 0 (digits !! Z.to_nat d))) (seqZ 0 16)).
  { apply (bool_decide_unpack _). by vm_compute. }
  rewrite Forall_forall in Hall. apply Hall, elem_of_seqZ. lia.
Qed.

Lemma printint_digits_spec base fuel : ∀ x, 2 ≤ base ≤ 16 → 0 ≤ x < base ^ Z.of_nat fuel → (0 < fuel)%nat →
  numeral_val base (printint_digits fuel x base) = x ∧ Forall char_ok (printint_digits fuel x base) ∧
  ∀ n, (0 < n)%nat → x < base ^ Z.of_nat n → (length (printint_digits fuel x base) ≤ n)%nat.
Proof.
  induction fuel as [|fuel IH]; intros x Hb Hx Hf; [lia|].
  pose proof (Z.mod_pos_bound x base ltac:(lia)) as Hm. pose proof (Z.div_mod x base ltac:(lia)) as Hdm.
  destruct (digit_of (x mod base)) as [Hv Hc]; [lia|].
  cbn [printint_digits numeral_val]. rewrite Hv. destruct (Z.eqb_spec (x / base) 0) as [Hz|Hnz].
  - split_and!; [simpl; lia|by constructor; [|constructor]|]. intros n Hn _. simpl. lia.
  - assert (Hdiv : 0 < x / base) by (pose proof (Z.div_pos x base); lia).
    assert (Hlt : ∀ n, x < base ^ Z.of_nat (S n) → x / base < base ^ Z.of_nat n).
    { intros n Hn. apply Z.div_lt_upper_bound; [lia|].
      by rewrite Nat2Z.inj_succ, Z.pow_succ_r in Hn by lia. }
    assert (0 < fuel)%nat.
    { destruct fuel; [|lia]. specialize (Hlt 0%nat ltac:(lia)). simpl in Hlt. lia. }
    destruct (IH (x / base)) as (Hval & Hch & Hlen); [done|split; [lia|apply Hlt, Hx]|done|].
    split_and!; [lia|by constructor|]. intros n Hn Hxn. simpl. destruct n as [|n]; [lia|].
    specialize (Hlt n Hxn). assert (0 < n)%nat.
    { destruct n; [simpl in Hlt; lia|lia]. }
    specialize (Hlen n ltac:(done) Hlt). lia.
Qed.
#[global] Arguments printint_digits : simpl never.

Lemma printint_buf_ok xx base sign : - 2 ^ 63 ≤ xx < 2 ^ 64 → (sign = true → xx < 2 ^ 63) → base = 10 ∨ base = 16 →
  (length (printint_buf xx base sign) ≤ 20)%nat ∧ Forall char_ok (printint_buf xx base sign).
Proof.
  intros Hx Hs Hb. unfold printint_buf. set (neg := sign && (xx <? 0)). set (x := u64 _).
  assert (Hr : 0 ≤ x < 2 ^ 64) by apply Z.mod_pos_bound, eq_refl.
  assert (Hbase : 2 ≤ base ≤ 16) by lia.
  destruct (printint_digits_spec base 64 x) as (_ & Hch & Hlen); [done| |lia|].
  { split; [lia|]. apply (Z.lt_le_trans _ (2 ^ 64)); [lia|]. apply Z.pow_le_mono_l. lia. }
  destruct neg eqn:Hn.
  - apply andb_true_iff in Hn as [Hsign Hneg%Z.ltb_lt]. assert (Hxx : x = - xx) by (apply u64_small; lia).
    split; [|by apply Forall_app; split; [|by constructor; [|constructor]]].
    rewrite length_app. change (length [chr "-"]) with 1%nat. enough (length (printint_digits 64 x base) ≤ 19)%nat by lia.
    apply Hlen; [lia|]. rewrite Hxx. change (Z.of_nat 19) with 19. destruct Hb as [-> | ->]; lia.
  - rewrite app_nil_r. split; [|done]. apply Hlen; [lia|]. change (Z.of_nat 20) with 20.
    destruct Hb as [-> | ->]; lia.
Qed.

(** [printint] never overruns its buffer and prints the buffer backwards *)
Lemma prints_printint L xx base sign :
  - 2 ^ 63 ≤ xx < 2 ^ 63 → base = 10 ∨ base = 16 →
  prints L (printint xx base sign) (reverse (printint_buf xx base sign)).
Proof.
  intros Hx Hb. destruct (printint_buf_ok xx base sign) as [Hlen Hch]; [lia|lia|done|].
  unfold printint. rewrite (proj2 (Nat.ltb_ge _ _)) by done. apply prints_chars. by apply Forall_reverse.
Qed.

Lemma printptr_digits_ok n : ∀ x, 0 ≤ x < 2 ^ 64 → Forall char_ok (printptr_digits n x).
Proof.
  induction n as [|n IH]; intros x Hx; [constructor|]. cbn [printptr_digits]. apply Forall_cons. split.
  - apply digit_of. rewrite Z.shiftr_div_pow2 by lia. split; [apply Z.div_pos; lia|].
    apply Z.div_lt_upper_bound; lia.
  - apply IH. apply Z.mod_pos_bound, eq_refl.
Qed.
#[global] Arguments printptr_digits : simpl never.
Lemma prints_printptr L x : 0 ≤ x < 2 ^ 64 → prints L (printptr x) (str "0x" ++ printptr_digits 16 x).
Proof.
  intros Hx. apply (prints_bind L _ _ [chr "0"] (chr "x" :: _)); [by apply prints_consputc|].
  apply (prints_bind L _ _ [chr "x"]); [by apply prints_consputc|]. by apply prints_chars, printptr_digits_ok.
Qed.

(** *** Formatted output *)

(** the text of one conversion, and the arguments that are left *)
Definition conv_text (cv : fconv) (c0 : Z) (ap : list farg) : option (list Z * list farg) :=
  match cv, ap with
  | Fint conv base sign, Aint v :: ap => Some (reverse (printint_buf (s64 (conv v)) base sign), ap)
  | Fptr, Aint v :: ap => Some (str "0x" ++ printptr_digits 16 (u64 v), ap)
  | Fchar, Aint v :: ap => if decide (char_ok (s32 v)) then Some ([s32 v], ap) else None
  | Fstr, Astr s :: ap => let l := default (str "(null)") s in
                          if decide (Forall char_ok l) then Some (l, ap) else None
  | Fpercent, _ => Some ([chr "%"], ap)
  | Funknown, _ => if decide (char_ok c0) then Some ([chr "%"; c0], ap) else None
  | _, _ => None
  end.
(** the text of a format, when its arguments have the right types *)
Fixpoint format_text (fuel : nat) (fmt : list Z) (ap : list farg) : option (list Z) :=
  match fuel, fmt with
  | _, [] => Some []
  | O, _ => None
  | S fuel, cx :: fmt =>
      if negb (cx =? chr "%") then
        (if decide (char_ok cx) then cons cx <$> format_text fuel fmt ap else None)
      else
      let c0 := default 0 (fmt !! 0%nat) in
      let c1 := if c0 =? 0 then 0 else default 0 (fmt !! 1%nat) in
      let c2 := if c1 =? 0 then 0 else default 0 (fmt !! 2%nat) in
      let '(cv, skip) := conversion c0 c1 c2 in
      if c0 =? 0 then Some [] else
      '(t, ap) ← conv_text cv c0 ap; app t <$> format_text fuel (drop (S skip) fmt) ap
  end.

Lemma s64_range x : - 2 ^ 63 ≤ s64 x < 2 ^ 63.
Proof. unfold s64. pose proof (Z.mod_pos_bound (x + 2 ^ 63) (2 ^ 64)). lia. Qed.

Lemma conversion_base c0 c1 c2 conv base sign skip :
  conversion c0 c1 c2 = (Fint conv base sign, skip) → base = 10 ∨ base = 16.
Proof. unfold conversion. repeat case_match; intros; simplify_eq; auto. Qed.
Lemma conversion_end c0 c1 c2 skip : conversion c0 c1 c2 = (Fend, skip) ↔ c0 = 0 ∧ skip = 0%nat.
Proof.
  unfold conversion. split; [repeat case_match; intros; simplify_eq; split; try done; by apply Z.eqb_eq|].
  by intros [-> ->].
Qed.

(** printing one conversion and then what follows it *)
Lemma prints_conv L cv c0 ap t ap' next l :
  (∀ conv base sign, cv = Fint conv base sign → base = 10 ∨ base = 16) →
  conv_text cv c0 ap = Some (t, ap') → prints L (next ap') l →
  prints L (let* r := printf_conv cv c0 ap in match r with Some ap => next ap | None => ret tt end) (t ++ l).
Proof.
  intros Hbase Ht Hnext.
  assert (Hgo : ∀ m : KM unit, prints L m t →
    (∀ E G R s Q, wp E G R (m s) (λ _ s', Q (Some ap') s') → wp E G R (printf_conv cv c0 ap s) Q) →
    prints L (let* r := printf_conv cv c0 ap in match r with Some ap => next ap | None => ret tt end) (t ++ l)).
  { intros m Hm Heq E G R H s Q Hp Hd Hlk HL HQ.
    apply wp_bind, Heq, wp_bind_inv. by apply (prints_bind L m (next ap') t l Hm Hnext E G R H). }
  destruct cv as [conv base sign| | | | | |]; simpl in Ht.
  - destruct ap as [|[v|s] ap]; simplify_eq.
    apply (Hgo (printint (s64 (conv v)) base sign)); [|by intros; apply wp_bind, wp_done, wp_bind].
    apply prints_printint; [apply s64_range|by eapply Hbase].
  - destruct ap as [|[v|s] ap]; simplify_eq.
    apply (Hgo (printptr (u64 v))); [|by intros; apply wp_bind, wp_done, wp_bind].
    apply prints_printptr. apply Z.mod_pos_bound, eq_refl.
  - destruct ap as [|[v|s] ap]; try done. case_decide as Hc; simplify_eq.
    apply (Hgo (consputc (s32 v))); [|by intros; apply wp_bind, wp_done, wp_bind].
    apply prints_consputc. unfold char_ok, BACKSPACE in *. lia.
  - destruct ap as [|[v|s] ap]; try done. case_decide as Hc; simplify_eq.
    apply (Hgo (for_each (default (str "(null)") s) consputc));
      [by apply prints_chars|by intros; apply wp_bind, wp_done, wp_bind].
  - simplify_eq. apply (Hgo (consputc (chr "%"))); [by apply prints_consputc|by intros; apply wp_bind].
  - done.
  - case_decide as Hc; simplify_eq. eapply (Hgo (consputc (chr "%") ;; consputc c0)).
    + apply (prints_bind L _ _ [chr "%"] [c0]); apply prints_consputc; [done|].
      unfold char_ok, BACKSPACE in *. lia.
    + intros E G R s Q Hwp%wp_bind_inv. apply wp_bind. eapply wp_mono; [|exact Hwp].
      intros [] s' Hwp'. apply wp_bind. exact Hwp'.
Qed.

Lemma prints_printf_loop L fuel : ∀ fmt ap l,
  format_text fuel fmt ap = Some l → prints L (printf_loop fuel fmt ap) l.
Proof.
  induction fuel as [|fuel IH]; intros fmt ap l Hl; destruct fmt as [|cx fmt]; simpl in Hl;
    try done; try (simplify_eq; apply prints_ret).
  cbn [printf_loop]. destruct (negb (cx =? chr "%")).
  - case_decide as Hc; [|done]. destruct (format_text fuel fmt ap) as [l'|] eqn:Hl'; [|done].
    simpl in Hl. simplify_eq. apply (prints_bind L _ _ [cx] l'); [|by apply IH].
    apply prints_consputc. unfold char_ok, BACKSPACE in *. lia.
  - set (c0 := default 0 (fmt !! 0%nat)) in *. cbv zeta.
    set (c1 := if c0 =? 0 then 0 else _) in *. set (c2 := if c1 =? 0 then 0 else _) in *.
    destruct (conversion c0 c1 c2) as [cv skip] eqn:Hcv.
    destruct (Z.eqb_spec c0 0) as [Hz|Hz].
    + assert (Hend : conversion c0 c1 c2 = (Fend, 0%nat)) by (by apply conversion_end).
      rewrite Hend in Hcv. simplify_eq. intros E G R H s Q Hp Hd Hlk HL HQ. apply wp_bind, wp_done.
      by apply (prints_ret L E G R H s Q).
    + destruct (conv_text cv c0 ap) as [[t ap']|] eqn:Ht; [|done]. simpl in Hl.
      destruct (format_text fuel (drop (S skip) fmt) ap') as [l'|] eqn:Hl'; [|done]. simpl in Hl. simplify_eq.
      eapply (prints_conv L cv c0 ap t ap' (λ ap, printf_loop fuel (drop (S skip) fmt) ap));
        [|done|by apply IH].
      intros conv base sign ->. by eapply conversion_base.
Qed.

Lemma prints_printf fmt ap l :
  format_text (length fmt) fmt ap = Some l → prints {[pr_lock]} (printf fmt ap) l.
Proof.
  intros Hl E G R H s Q Hp Hd Hlk HL HQ. unfold printf. apply wp_bind, wp_done. rewrite Hp.
  apply wp_bind. eapply wp_acquire; [done|set_solver|]. intros k Hk Hf.
  apply wp_bind. eapply (prints_printf_loop ∅ _ _ _ _ Hl E G R ({[pr_lock]} ∪ H)); [done|done|done|set_solver|].
  intros k1 Hk1 Hf1. apply wp_bind, wp_done. simpl. rewrite Hp.
  eapply wp_release_add; [exact Hk1|set_solver|]. intros k2 Hk2 Hf2.
  specialize (HQ k2 Hk2 ltac:(lk_frames)). by destruct s as [lk pt mem csr [] sv fs].
Qed.

(** *** Properties *)

(** C24: [printint] prints the numeral of its argument: the digits it stores
    are those of the absolute value, in the given base, preceded in print by a
    minus sign if the number is negative and signed; the 20-byte buffer is
    never overrun, whatever the 64-bit argument. *)
Theorem printint_prints_numeral L xx base sign :
  - 2 ^ 63 ≤ xx < 2 ^ 63 → base = 10 ∨ base = 16 →
  ∃ ds, prints L (printint xx base sign)
          ((if sign && (xx <? 0) then [chr "-"] else []) ++ reverse ds) ∧
    numeral_val base ds = (if sign then Z.abs xx else u64 xx) ∧ (length ds ≤ 20)%nat.
Proof.
  intros Hx Hb. destruct (printint_buf_ok xx base sign) as [Hlen _]; [lia|lia|done|].
  pose proof (prints_printint L xx base sign Hx Hb) as Hp.
  unfold printint_buf in Hp, Hlen. cbv zeta in Hp, Hlen. set (x := u64 _) in *. set (neg := sign && _) in *.
  exists (printint_digits 64 x base). rewrite reverse_app in Hp.
  assert (Hr : 0 ≤ x < 2 ^ 64) by apply Z.mod_pos_bound, eq_refl.
  destruct (printint_digits_spec base 64 x) as (Hval & _ & _); [lia| |lia|].
  { split; [lia|]. apply (Z.lt_le_trans _ (2 ^ 64)); [lia|]. apply Z.pow_le_mono_l. lia. }
  split_and!; [by destruct neg| |rewrite length_app in Hlen; lia].
  rewrite Hval. unfold x, neg. destruct sign; simpl; [|done].
  destruct (Z.ltb_spec xx 0); rewrite u64_small by lia; lia.
Qed.
Lemma printint_prints_numeral_witness :
  ∃ ds, prints ∅ (printint (-2024) 10 true) (chr "-" :: reverse ds) ∧ numeral_val 10 ds = 2024.
Proof.
  destruct (printint_prints_numeral ∅ (-2024) 10 true) as (ds & Hp & Hv & _); [lia|by left|].
  exists ds. split; [exact Hp|exact Hv].
Defined.

