(* ===== verification/Quiet.v ===== *)
(** * Operations that leave the process table alone

    [quiet E L m]: run with locks [H] disjoint from [L] held, [m] never
    switches, stops only as [E] allows, and ends with the same locks held and
    the same process table.  The memory, console and register code is all of
    this kind; the tactic [quiet] finds the proofs. *)

From S2P Require Import Prelude Fsdata Kstate Spinlock Bytes Layout Kalloc Vm Printf.
#[local] Open Scope Z_scope.
#[local] Arguments seq : simpl never.

Definition same_procs (s s' : kstate) : Prop := k_pt s' = k_pt s ∧ k_saved s' = k_saved s.
#[export] Instance same_procs_preorder : PreOrder same_procs.
Proof. split; [done|]. intros s1 s2 s3 [??] [??]. split; congruence. Qed.

Definition quiet (E : stop → Prop) (L : gset lockid) {A} (m : KM A) : Prop :=
  ∀ G R H s (Q : A → kstate → Prop), lockinv H (k_lk s) → H ## L →
    (∀ a s', lockinv H (k_lk s') → lk_frame (k_lk s) (k_lk s') → same_procs s s' → Q a s') →
    wp E G R (m s) Q.

Create HintDb quiet.

Section rules.
Context (E : stop → Prop) (L : gset lockid).

Lemma quiet_bind {A B} (m : KM A) (k : A → KM B) :
  quiet E L m → (∀ a, quiet E L (k a)) → quiet E L (bind m k).
Proof.
  intros Hm Hk G R H s Q Hlk Hd HQ. apply wp_bind. apply (Hm G R H s); [done|done|].
  intros a s1 Hlk1 Hf1 Hp1. apply (Hk a G R H s1); [done|done|].
  intros b s2 Hlk2 Hf2 Hp2. apply HQ; [done|by etrans|by etrans].
Qed.
Lemma quiet_mono {A} L' (m : KM A) : L' ⊆ L → quiet E L' m → quiet E L m.
Proof. intros HL Hm G R H s Q Hlk Hd. apply Hm; [done|set_solver]. Qed.
Lemma quiet_ret {A} (a : A) : quiet E L (ret a).
Proof. intros G R H s Q Hlk Hd HQ. apply wp_done. by apply HQ. Qed.
Lemma quiet_stop {A} e : E e → quiet E L (stop_with (A:=A) e).
Proof. intros He G R H s Q Hlk Hd HQ. exact He. Qed.
Lemma quiet_gets {A} (f : kstate → A) : quiet E L (gets f).
Proof. intros G R H s Q Hlk Hd HQ. apply wp_done. by apply HQ. Qed.
Lemma quiet_get : quiet E L get.
Proof. apply (quiet_gets id). Qed.
Lemma quiet_modify f : (∀ s, k_lk (f s) = k_lk s) → (∀ s, same_procs s (f s)) → quiet E L (modify f).
Proof.
  intros Hl Hp G R H s Q Hlk Hd HQ. apply wp_done. apply HQ; [by rewrite Hl|by rewrite Hl|done].
Qed.
Lemma quiet_deref {A} (x : option A) : E StopFault → quiet E L (deref x).
Proof. intros HE. destruct x; [apply quiet_ret|by apply quiet_stop]. Qed.
Lemma quiet_for_each {X} (l : list X) (f : X → KM unit) :
  (∀ x, quiet E L (f x)) → quiet E L (for_each l f).
Proof.
  intros Hf. induction l as [|x l IH]; simpl; [apply quiet_ret|]. by apply quiet_bind.
Qed.
Lemma quiet_for_find {X T} (l : list X) (f : X → KM (option T)) :
  (∀ x, quiet E L (f x)) → quiet E L (for_find l f).
Proof.
  intros Hf. induction l as [|x l IH]; simpl; [apply quiet_ret|].
  apply quiet_bind; [done|]. intros [v|]; [apply quiet_ret|done].
Qed.
Lemma quiet_myproc : quiet E L myproc.
Proof.
  intros G R H s Q Hlk Hd HQ. eapply wp_myproc; [done|]. intros k Hk Hf. by apply HQ.
Qed.
Lemma quiet_cpuid : quiet E L cpuid.
Proof. apply quiet_gets. Qed.
Lemma quiet_mem_op f : E StopFault → quiet E L (mem_op f).
Proof.
  intros HE. apply quiet_bind; [apply quiet_get|]. intros s. case_match; [by apply quiet_modify|by apply quiet_stop].
Qed.
Lemma quiet_mem_rd {A} (f : gmap Z Z → option A) : E StopFault → quiet E L (mem_rd f).
Proof. intros HE. apply quiet_bind; [apply quiet_get|]. intros s. by apply quiet_deref. Qed.
Lemma quiet_rd {T} p (f : proc → T) : E StopFault → quiet E L (rd p f).
Proof.
  intros HE. apply quiet_bind; [|intros; apply quiet_ret].
  apply quiet_bind; [apply quiet_get|]. intros. by apply quiet_deref.
Qed.

(** the tables of the file system *)
Lemma quiet_ent {T} (t : fsst → list T) i : E StopFault → quiet E L (ent t i).
Proof. intros HE. apply quiet_bind; [apply quiet_get|]. intros s. by apply quiet_deref. Qed.
Lemma quiet_rdt {T U} (t : fsst → list T) i (f : T → U) : E StopFault → quiet E L (rdt t i f).
Proof. intros HE. apply quiet_bind; [by apply quiet_ent|]. intros. apply quiet_ret. Qed.
Lemma quiet_updt {T} (t : fsst → list T) `{!Setter t} i g : E StopFault → quiet E L (updt t i g).
Proof. intros HE. apply quiet_bind; [by apply quiet_ent|]. intros. by apply quiet_modify. Qed.
Lemma quiet_wrt {T U} (t : fsst → list T) `{!Setter t} i (f : T → U) `{!Setter f} v :
  E StopFault → quiet E L (wrt t i f v).
Proof. apply quiet_updt. Qed.
Lemma quiet_for_below {X} n (b : KM Z) st (f : Z → KM (option X)) : ∀ i,
  E StopFuel → quiet E L b → (∀ i, quiet E L (f i)) → quiet E L (for_below n b i st f).
Proof.
  induction n as [|n IH]; intros i HE Hb Hf; simpl; [by apply quiet_stop|].
  apply quiet_bind; [done|]. intros k. case_match; [|apply quiet_ret].
  apply quiet_bind; [done|]. intros [v|]; [apply quiet_ret|by apply IH].
Qed.

(** a critical section *)
Lemma quiet_locked {A B} (m : KM A) (k : A → KM B) l :
  l ∈ L → quiet E ∅ m → (∀ a, quiet E L (k a)) →
  quiet E L (acquire l ;; let* x := m in release l ;; k x).
Proof.
  intros Hl Hm Hk G R H s Q Hlk Hd HQ. apply wp_bind. eapply wp_acquire; [done|set_solver|].
  intros k1 Hk1 Hf1. apply wp_bind. apply (Hm G R ({[l]} ∪ H)); [done|set_solver|].
  intros a s2 Hlk2 Hf2 Hp2. apply wp_bind. eapply wp_release_add; [exact Hlk2|set_solver|].
  intros k3 Hk3 Hf3. apply (Hk a G R H); [done|done|]. intros b s4 Hlk4 Hf4 Hp4.
  apply HQ; [done|lk_frames|]. etrans; [exact Hp2|exact Hp4].
Qed.
End rules.

Lemma quiet_initlock E l : quiet E {[l]} (initlock l).
Proof.
  intros G R H s Q Hlk Hd HQ. eapply wp_initlock; [done|set_solver|]. intros k Hk Hf. by apply HQ.
Qed.
#[export] Hint Resolve quiet_ret quiet_stop quiet_gets quiet_get quiet_modify quiet_deref quiet_myproc
  quiet_cpuid quiet_mem_op quiet_mem_rd quiet_rd quiet_ent quiet_rdt quiet_updt quiet_wrt : quiet.
#[export] Hint Extern 1 (same_procs _ _) => (split; reflexivity) : quiet.
#[export] Hint Extern 1 (quiet _ _ (bind _ _)) => apply quiet_bind : quiet.
#[export] Hint Extern 1 (quiet _ _ (for_each _ _)) => apply quiet_for_each : quiet.
#[export] Hint Extern 1 (quiet _ _ (for_find _ _)) => apply quiet_for_find : quiet.

(** break a program into its operations *)
Ltac quiet :=
  repeat match goal with
    | |- quiet _ _ (bind _ _) => apply quiet_bind; [|intros ?]
    | |- quiet _ _ (for_each _ _) => apply quiet_for_each; intros ?
    | |- quiet _ _ (for_find _ _) => apply quiet_for_find; intros ?
    | |- quiet _ _ (for_below _ _ _ _ _) => apply quiet_for_below; [eauto with quiet| |intros ?]
    | |- quiet _ _ (when _ _) => unfold when
    | |- quiet _ _ (if ?b then _ else _) => destruct b
    | |- quiet _ _ (match ?x with _ => _ end) => destruct x
    | |- quiet _ _ _ => solve [eauto with quiet]
    end.

(** ** Critical sections *)

(** run with the locks [H] held, [m] ends with the locks [H'] held and the
    same process table *)
Definition qlocks (E : stop → Prop) (H H' : gset lockid) {A} (m : KM A) : Prop :=
  ∀ G R s (Q : A → kstate → Prop), lockinv H (k_lk s) →
    (∀ a s', lockinv H' (k_lk s') → lk_frame (k_lk s) (k_lk s') → same_procs s s' → Q a s') →
    wp E G R (m s) Q.
Lemma quiet_qlocks E L {A} (m : KM A) : (∀ H, H ## L → qlocks E H H m) → quiet E L m.
Proof. intros Hm G R H s Q Hlk Hd. by apply Hm. Qed.

Section qlocks.
Context (E : stop → Prop).
Lemma qlocks_bind {A B} H H1 H' (m : KM A) (k : A → KM B) :
  qlocks E H H1 m → (∀ a, qlocks E H1 H' (k a)) → qlocks E H H' (bind m k).
Proof.
  intros Hm Hk G R s Q Hlk HQ. apply wp_bind, Hm; [done|]. intros a s1 Hlk1 Hf1 Hp1.
  apply Hk; [done|]. intros b s2 Hlk2 Hf2 Hp2. apply HQ; [done|by etrans|by etrans].
Qed.
Lemma qlocks_quiet {A} L H (m : KM A) : quiet E L m → H ## L → qlocks E H H m.
Proof. intros Hm Hd G R s Q Hlk HQ. by apply (Hm G R H). Qed.
Lemma qlocks_stop {A} H H' e : E e → qlocks E H H' (stop_with (A:=A) e).
Proof. intros He G R s Q Hlk HQ. exact He. Qed.
Lemma qlocks_acquire H l : l ∉ H → qlocks E H ({[l]} ∪ H) (acquire l).
Proof. intros Hl G R s Q Hlk HQ. eapply wp_acquire; [done|done|]. intros k Hk Hf. by apply HQ. Qed.
Lemma qlocks_release H l : l ∉ H → qlocks E ({[l]} ∪ H) H (release l).
Proof. intros Hl G R s Q Hlk HQ. eapply wp_release_add; [done|done|]. intros k Hk Hf. by apply HQ. Qed.
End qlocks.

Ltac qlocks :=
  repeat match goal with
    | |- qlocks _ _ _ (bind _ _) => eapply qlocks_bind; [|intros ?]
    | |- qlocks _ _ _ (acquire _) => apply qlocks_acquire; set_solver
    | |- qlocks _ _ _ (release _) => apply qlocks_release; set_solver
    | |- qlocks _ _ _ (when _ _) => unfold when
    | |- qlocks _ _ _ (if ?b then _ else _) => destruct b
    | |- qlocks _ _ _ (match ?x with _ => _ end) => destruct x
    | |- qlocks _ _ _ (panic _) => apply qlocks_stop; solve [eauto with quiet]
    | |- qlocks _ _ _ _ => solve [apply (qlocks_quiet _ ∅); [solve [eauto with quiet]|set_solver]]
    end.

(** ** Memory *)

(** the ways in which the code of [Kalloc] and [Vm] can stop *)
Definition vm_panics : list string :=
  ["kfree"; "walk"; "mappages: va not aligned"; "mappages: size not aligned"; "mappages: size";
   "mappages: remap"; "kvmmap"; "kalloc"; "uvmunmap: not aligned"; "freewalk: leaf"; "uvmclear"].
Definition vm_stop (e : stop) : Prop :=
  match e with
  | StopFault | StopFuel => True
  | StopPanic msg => msg ∈ vm_panics
  | StopSpin | StopFrozen => False
  end.

Section memory.
Context {SY : Symbols} (E : stop → Prop) (HE : ∀ e, vm_stop e → E e).

Lemma vm_fault : E StopFault.
Proof. by apply HE. Qed.
Lemma vm_fuel : E StopFuel.
Proof. by apply HE. Qed.
Lemma vm_panic msg : bool_decide (msg ∈ vm_panics) = true → E (StopPanic msg).
Proof. intros Hm. apply HE. by apply bool_decide_eq_true_1 in Hm. Qed.
#[local] Hint Resolve vm_fault vm_fuel : quiet.
#[local] Hint Extern 1 (E (StopPanic _)) => by apply vm_panic : quiet.
#[local] Hint Extern 1 (quiet _ _ (panic _)) => apply quiet_stop : quiet.
#[local] Hint Extern 1 (quiet _ _ fault) => apply quiet_stop : quiet.

#[local] Abbreviation L := ({[kmem_lock]} : gset lockid).

Lemma quiet_kfree pa : quiet E L (kfree pa).
Proof.
  unfold kfree. destruct (_ || _); [quiet|]. apply quiet_bind; [by quiet|]. intros _.
  intros G R H s Q Hlk Hd HQ. apply wp_bind. eapply wp_acquire; [done|set_solver|]. intros k Hk Hf.
  apply wp_bind, wp_done, wp_bind. apply (quiet_mem_op E ∅ _ vm_fault G R ({[kmem_lock]} ∪ H)); [done|set_solver|].
  intros [] s1 Hk1 Hf1 Hp1. apply wp_bind, wp_done. eapply wp_release_add; [exact Hk1|set_solver|].
  intros k2 Hk2 Hf2. apply HQ; [done|lk_frames|done].
Qed.

Lemma quiet_kalloc : quiet E L kalloc.
Proof.
  intros G R H s Q Hlk Hd HQ. unfold kalloc. apply wp_bind. eapply wp_acquire; [done|set_solver|].
  intros k Hk Hf. apply wp_bind, wp_done, wp_bind. unfold when.
  set (r := freelist _). assert (Hq : quiet E ∅ (if negb (r =? 0) then
    let* next := ld64 r in modify (λ s, s <| k_mem ::= λ m, m <| freelist := next |> |>) else ret tt)) by quiet.
  apply (Hq G R ({[kmem_lock]} ∪ H)); [done|set_solver|]. intros [] s1 Hk1 Hf1 Hp1.
  apply wp_bind. eapply wp_release_add; [exact Hk1|set_solver|]. intros k2 Hk2 Hf2.
  assert (Hq2 : quiet E L ((if negb (r =? 0) then kmemset r 5 PGSIZE else ret tt) ;; ret r)) by quiet.
  apply (Hq2 G R H); [done|done|]. intros a s3 Hk3 Hf3 Hp3. apply HQ; [done|lk_frames|etrans; [exact Hp1|exact Hp3]].
Qed.
#[local] Hint Resolve quiet_kfree quiet_kalloc : quiet.

Lemma quiet_walk_levels ls alloc va : ∀ pt, quiet E L (walk_levels ls pt va alloc).
Proof. induction ls as [|l ls IH]; intros pt; simpl; quiet. Qed.
#[local] Hint Resolve quiet_walk_levels : quiet.
Lemma quiet_walk pt va alloc : quiet E L (walk pt va alloc).
Proof. unfold walk. quiet. Qed.
#[local] Hint Resolve quiet_walk : quiet.
Lemma quiet_walkaddr pt va : quiet E L (walkaddr pt va).
Proof. unfold walkaddr. quiet. Qed.
Lemma quiet_mappages_loop pt last perm n : ∀ a pa, quiet E L (mappages_loop n pt a last pa perm).
Proof. induction n as [|n IH]; intros a pa; simpl; quiet. Qed.
#[local] Hint Resolve quiet_walkaddr quiet_mappages_loop : quiet.
Lemma quiet_mappages pt va size pa perm : quiet E L (mappages pt va size pa perm).
Proof. unfold mappages. quiet. Qed.
#[local] Hint Resolve quiet_mappages : quiet.
Lemma quiet_uvmcreate : quiet E L uvmcreate.
Proof. unfold uvmcreate. quiet. Qed.
Lemma quiet_uvmunmap_page pt a f : quiet E L (uvmunmap_page pt a f).
Proof. unfold uvmunmap_page. quiet. Qed.
#[local] Hint Resolve quiet_uvmunmap_page : quiet.
Lemma quiet_uvmunmap_loop pt e f n : ∀ a, quiet E L (uvmunmap_loop n pt a e f).
Proof. induction n as [|n IH]; intros a; simpl; quiet. Qed.
#[local] Hint Resolve quiet_uvmunmap_loop : quiet.
Lemma quiet_uvmunmap pt va n f : quiet E L (uvmunmap pt va n f).
Proof. unfold uvmunmap. quiet. Qed.
#[local] Hint Resolve quiet_uvmunmap : quiet.
Lemma quiet_uvmdealloc pt o n : quiet E L (uvmdealloc pt o n).
Proof. unfold uvmdealloc. quiet. Qed.
#[local] Hint Resolve quiet_uvmdealloc : quiet.
Lemma quiet_uvmalloc_loop pt o n x f : ∀ a, quiet E L (uvmalloc_loop f pt a o n x).
Proof. induction f as [|f IH]; intros a; simpl; quiet. Qed.
#[local] Hint Resolve quiet_uvmalloc_loop : quiet.
Lemma quiet_uvmalloc pt o n x : quiet E L (uvmalloc pt o n x).
Proof. unfold uvmalloc. quiet. Qed.
Lemma quiet_freewalk_rec n : ∀ pt, quiet E L (freewalk_rec n pt).
Proof. induction n as [|n IH]; intros pt; cbn [freewalk_rec]; quiet. Qed.
#[local] Hint Resolve quiet_freewalk_rec : quiet.
Lemma quiet_uvmfree pt sz : quiet E L (uvmfree pt sz).
Proof. unfold uvmfree, freewalk. quiet. Qed.
Lemma quiet_uvmcopy_loop o n sz f : ∀ i, quiet E L (uvmcopy_loop f o n i sz).
Proof. induction f as [|f IH]; intros i; simpl; quiet. Qed.
#[local] Hint Resolve quiet_uvmcopy_loop : quiet.
Lemma quiet_uvmcopy o n sz : quiet E L (uvmcopy o n sz).
Proof. unfold uvmcopy. quiet. Qed.
Lemma quiet_uvmclear pt va : quiet E L (uvmclear pt va).
Proof. unfold uvmclear. quiet. Qed.
Lemma quiet_vmfault pt va : quiet E L (vmfault pt va).
Proof. unfold vmfault, ismapped. quiet. Qed.
#[local] Hint Resolve quiet_vmfault : quiet.
Lemma quiet_copyout_loop pt f : ∀ va src len, quiet E L (copyout_loop f pt va src len).
Proof. induction f as [|f IH]; intros va src len; simpl; quiet. Qed.
#[local] Hint Resolve quiet_copyout_loop : quiet.
Lemma quiet_copyout pt va src : quiet E L (copyout pt va src).
Proof. unfold copyout. quiet. Qed.
Lemma quiet_copyin_loop pt f : ∀ va len, quiet E L (copyin_loop f pt va len).
Proof. induction f as [|f IH]; intros va len; simpl; quiet. Qed.
#[local] Hint Resolve quiet_copyin_loop : quiet.
Lemma quiet_copyin pt va len : quiet E L (copyin pt va len).
Proof. unfold copyin. quiet. Qed.
Lemma quiet_copyinstr_page n : ∀ p, quiet E L (copyinstr_page p n).
Proof. induction n as [|n IH]; intros p; simpl; quiet. Qed.
#[local] Hint Resolve quiet_copyinstr_page : quiet.
Lemma quiet_copyinstr_loop pt f : ∀ va max, quiet E L (copyinstr_loop f pt va max).
Proof. induction f as [|f IH]; intros va max; simpl; quiet. Qed.
#[local] Hint Resolve quiet_copyinstr_loop : quiet.
Lemma quiet_copyinstr pt va max : quiet E L (copyinstr pt va max).
Proof. unfold copyinstr. quiet. Qed.
End memory.

(** ** Console output *)

Section console.
Context (E : stop → Prop) (Hfault : E StopFault) (Hfuel : E StopFuel) (Hfrozen : E StopFrozen).
#[local] Hint Resolve Hfault Hfuel Hfrozen : quiet.
#[local] Hint Extern 1 (quiet _ _ fault) => apply quiet_stop : quiet.

(** operations that also keep [panicking] *)
Definition steady (L : gset lockid) {A} (m : KM A) : Prop :=
  ∀ G R H s (Q : A → kstate → Prop), lockinv H (k_lk s) → H ## L →
    (∀ a s', lockinv H (k_lk s') → lk_frame (k_lk s) (k_lk s') → same_procs s s' →
             panicking (k_dev s') = panicking (k_dev s) → Q a s') → wp E G R (m s) Q.
Lemma steady_quiet L {A} (m : KM A) : steady L m → quiet E L m.
Proof. intros Hm G R H s Q Hlk Hd HQ. apply (Hm G R H); [done|done|]. intros. by apply HQ. Qed.
Lemma steady_bind L {A B} (m : KM A) (k : A → KM B) :
  steady L m → (∀ a, steady L (k a)) → steady L (bind m k).
Proof.
  intros Hm Hk G R H s Q Hlk Hd HQ. apply wp_bind. apply (Hm G R H s); [done|done|].
  intros a s1 Hlk1 Hf1 Hp1 Hn1. apply (Hk a G R H s1); [done|done|].
  intros b s2 Hlk2 Hf2 Hp2 Hn2. apply HQ; [done|by etrans|by etrans|congruence].
Qed.
Lemma steady_ret L {A} (a : A) : steady L (ret a).
Proof. intros G R H s Q Hlk Hd HQ. apply wp_done. by apply HQ. Qed.
Lemma steady_stop L {A} e : E e → steady L (stop_with (A:=A) e).
Proof. intros He G R H s Q Hlk Hd HQ. exact He. Qed.
Lemma steady_for_each L {X} (l : list X) (f : X → KM unit) :
  (∀ x, steady L (f x)) → steady L (for_each l f).
Proof. intros Hf. induction l as [|x l IH]; simpl; [apply steady_ret|]. by apply steady_bind. Qed.

Lemma steady_uartputc_sync L c : steady L (uartputc_sync c).
Proof.
  intros G R H s Q Hlk Hd HQ. pose proof Hlk as [b Hb]. unfold uartputc_sync, when.
  apply wp_bind, wp_done, wp_bind. destruct (panicking (k_dev s) =? 0) eqn:Hpk.
  - eapply wp_push_off; [done|]. intros k Hk Hf. apply wp_bind, wp_done. case_match; [exact Hfrozen|].
    apply wp_bind, wp_done, wp_bind, wp_done. simpl. rewrite Hpk.
    eapply wp_pop_off; [|exact Hk|]; [lia|]. intros k2 Hk2 Hf2. apply HQ; [by exists b|lk_frames|done|done].
  - apply wp_done, wp_bind, wp_done. case_match; [exact Hfrozen|].
    apply wp_bind, wp_done, wp_bind, wp_done. simpl. rewrite Hpk. apply wp_done. by apply HQ.
Qed.
Lemma steady_consputc L c : steady L (consputc c).
Proof.
  unfold consputc. case_match; [|apply steady_uartputc_sync].
  do 2 (apply steady_bind; [apply steady_uartputc_sync|intros _]). apply steady_uartputc_sync.
Qed.
Lemma steady_printint L x b sg : steady L (printint x b sg).
Proof.
  unfold printint. case_match; [by apply steady_stop|]. apply steady_for_each. intros. apply steady_consputc.
Qed.
Lemma steady_printptr L x : steady L (printptr x).
Proof.
  do 2 (apply steady_bind; [apply steady_consputc|intros _]). apply steady_for_each. intros. apply steady_consputc.
Qed.
Lemma steady_printf_conv L cv c0 ap : steady L (printf_conv cv c0 ap).
Proof.
  assert (Hi : steady L (va_int ap)) by (destruct ap as [|[]]; first [by apply steady_stop|apply steady_ret]).
  assert (Hs : steady L (va_str ap)) by (destruct ap as [|[]]; first [by apply steady_stop|apply steady_ret]).
  assert (Hc : ∀ c, steady L (consputc c)) by apply steady_consputc.
  destruct cv; cbn [printf_conv];
    repeat match goal with |- steady _ (bind _ _) => apply steady_bind; [|intros ?] end; first
    [apply Hi|apply Hs|apply Hc|apply steady_ret|apply steady_printint|apply steady_printptr
    |by apply steady_for_each].
Qed.
Lemma steady_printf_loop L fuel : ∀ fmt ap, steady L (printf_loop fuel fmt ap).
Proof.
  induction fuel as [|fuel IH]; intros [|cx fmt] ap; try apply steady_ret; [by apply steady_stop|].
  cbn [printf_loop]. case_match; [apply steady_bind; [apply steady_consputc|done]|].
  cbv zeta. case_match. apply steady_bind; [apply steady_printf_conv|].
  intros [ap'|]; [apply IH|apply steady_ret].
Qed.
Lemma steady_printf fmt ap : steady {[pr_lock]} (printf fmt ap).
Proof.
  intros G R H s Q Hlk Hd HQ. unfold printf, when.
  apply wp_bind, wp_done, wp_bind. destruct (panicking (k_dev s) =? 0) eqn:Hpk.
  - eapply wp_acquire; [done|set_solver|]. intros k Hk Hf. apply wp_bind.
    apply (steady_printf_loop ∅ _ fmt ap G R ({[pr_lock]} ∪ H)); [done|set_solver|].
    intros [] s1 Hk1 Hf1 Hp1 Hn1. apply wp_bind, wp_done. simpl in Hn1. rewrite Hn1, Hpk.
    eapply wp_release_add; [exact Hk1|set_solver|]. intros k2 Hk2 Hf2. by apply HQ; [|lk_frames|..].
  - apply wp_done, wp_bind. apply (steady_printf_loop ∅ _ fmt ap G R H); [done|set_solver|].
    intros [] s1 Hk1 Hf1 Hp1 Hn1. apply wp_bind, wp_done. rewrite Hn1, Hpk. apply wp_done. by apply HQ.
Qed.

Lemma quiet_consputc L c : quiet E L (consputc c).
Proof. apply steady_quiet, steady_consputc. Qed.
Lemma quiet_printf fmt ap : quiet E {[pr_lock]} (printf fmt ap).
Proof. apply steady_quiet, steady_printf. Qed.
End console.
