(* ===== verification/Keeps.v ===== *)
(** * Rules for programs that keep the scheduling invariant

    What the operations of the process table do to the invariant [kinv] of
    [SchedInv]: writes to entries that are in no queue ([held]), writes to
    fields the scheduler does not use ([private]), locks, and [quiet]
    operations.  [keeps E G R o H m] says that [m] takes states that satisfy
    the invariant to such states; the tactic [keeps] breaks a program into
    its operations. *)

From S2P Require Import Prelude Kstate Spinlock Runqueue Sched SchedInv Quiet.
#[local] Open Scope Z_scope.

(** ** Entries that are in no queue *)

(** the invariant, and entry [i] has no live process and satisfies [P] *)
Definition held (i : nat) (P : proc → Prop) (o : option nat) (H : gset lockid) (s : kstate) : Prop :=
  kinv o H s ∧ ∃ r, procs (k_pt s) !! i = Some r ∧ is_live (p_state r) = false ∧ P r.

Lemma wfq_upd_idle t qs o i r r' :
  wfq t qs o → procs t !! i = Some r → is_live (p_state r) = false → is_live (p_state r') = false →
  proc_ok r' → wfq (t <| procs ::= <[i := r']> |>) qs o.
Proof.
  intros Hwf Hi Hid Hid' Hok. pose proof Hwf as [Hlen Hrep Hcur Hpr].
  destruct (Hpr _ _ Hi) as (_ & Hrun & Hq).
  assert (Hnin : i ∉ concat qs) by (intros Hin%Hq; by rewrite Hin in Hid).
  assert (Ho : o ≠ Some i) by (intros Ho%Hrun; by rewrite Ho in Hid).
  split; [simpl; by rewrite length_insert| |done|].
  - destruct Hrep as (Hl & Hnd & Hch). split_and!; [done|done|]. simpl.
    rewrite Forall2_lookup in Hch |- *. intros j. specialize (Hch j).
    destruct (runqueues t !! j) eqn:Hj, (qs !! j) as [q|] eqn:Hq'; inversion Hch as [?? [Hc Ht]|]; subst;
      constructor. split; [|done]. apply chain_insert_ne; [|done].
    intros Hin. apply Hnin, elem_of_concat. eauto.
  - intros j rj. simpl. rewrite list_lookup_insert. case_decide as Hd; [|apply Hpr].
    destruct Hd as [-> _]. intros [= <-]. split_and!; [done| |done].
    split; [|done]. intros Hr. by rewrite Hr in Hid'.
Qed.

Lemma kinv_upd_idle o H s i r r' :
  kinv o H s → procs (k_pt s) !! i = Some r → is_live (p_state r) = false → is_live (p_state r') = false →
  proc_ok r' → kinv o H (s <| k_pt ::= λ t, t <| procs ::= <[i := r']> |> |>).
Proof.
  intros [Hlk Hcur (qs & Hwf) Hsv] Hi Hid Hid' Hok.
  split; [done|done|exists qs; by eapply wfq_upd_idle|].
  eapply saved_ok_upd; [done..|]. by rewrite Hid'.
Qed.

Lemma kinv_same_pt o H s s' :
  kinv o H s → lockinv H (k_lk s') → lk_frame (k_lk s) (k_lk s') → same_procs s s' → kinv o H s'.
Proof.
  intros [_ Hcur Hwf Hsv] Hlk Hf [Hp Hs].
  split; [done|by rewrite <- Hcur; apply cur_proc_frame|by rewrite Hp|by rewrite Hp, Hs].
Qed.

Lemma kinv_lt p H s : kinv (Some p) H s → (p < NPROC)%nat.
Proof. intros [_ _ (qs & Hwf) _]. by eapply wfq_cur. Qed.

(** a write to fields the scheduler does not use *)
Definition private (g : proc → proc) : Prop := ∀ r,
  p_state (g r) = p_state r ∧ p_context (g r) = p_context r ∧ p_queue_next (g r) = p_queue_next r ∧
  p_queue_level (g r) = p_queue_level r ∧ p_time_in_queue (g r) = p_time_in_queue r.
Lemma private_ok g r : private g → proc_ok r → proc_ok (g r).
Proof.
  intros Hg. destruct (Hg r) as (Hs & Hc & _ & Hl & Ht). unfold proc_ok, level_ok. by rewrite Hs, Hc, Hl, Ht.
Qed.

Section steps.
Context (E : stop → Prop) (G : kstate → Prop) (R : kstate → kstate → Prop).
#[local] Abbreviation wpk := (wp E G R).

Lemma wp_quiet_kinv {A} L (m : KM A) o H s (Q : A → kstate → Prop) :
  quiet E L m → kinv o H s → H ## L → (∀ a s', kinv o H s' → Q a s') → wpk (m s) Q.
Proof.
  intros Hm Hinv Hd HQ. apply (Hm G R H s); [apply Hinv|done|].
  intros a s' Hlk Hf Hp. apply HQ. by eapply kinv_same_pt.
Qed.

Lemma wp_quiet_held {A} L (m : KM A) i P o H s (Q : A → kstate → Prop) :
  quiet E L m → held i P o H s → H ## L → (∀ a s', held i P o H s' → Q a s') → wpk (m s) Q.
Proof.
  intros Hm [Hinv Hr] Hd HQ. apply (Hm G R H s); [apply Hinv|done|].
  intros a s' Hlk Hf Hp. apply HQ. split; [by eapply kinv_same_pt|by rewrite (proj1 Hp)].
Qed.

(** a write to an idle entry *)
Lemma wp_upd_held i g P P' o H s (Q : unit → kstate → Prop) :
  held i P o H s →
  (∀ r, P r → proc_ok r → is_live (p_state r) = false → P' (g r) ∧ proc_ok (g r) ∧ is_live (p_state (g r)) = false) →
  (∀ s', held i P' o H s' → Q tt s') → wpk (upd_proc i g s) Q.
Proof.
  intros [Hinv (r & Hr & Hid & HP)] Hg HQ. pose proof Hinv as [_ _ (qs & Hwf) _].
  destruct (wfq_proc _ _ _ Hwf _ _ Hr) as (Hok & _ & _). destruct (Hg r HP Hok Hid) as (HP' & Hok' & Hid').
  eapply wp_upd_proc; [done|]. apply HQ. split; [by eapply kinv_upd_idle|].
  exists (g r). split; [|done]. simpl. rewrite list_lookup_insert_eq; [done|]. by eapply lookup_lt_Some.
Qed.

(** two writes in a row, between which the entry need not satisfy the invariant *)
Lemma wp_upd2_held {B} i g h (k : KM B) P P' o H s (Q : B → kstate → Prop) :
  held i P o H s →
  (∀ r, P r → proc_ok r → is_live (p_state r) = false →
     P' (h (g r)) ∧ proc_ok (h (g r)) ∧ is_live (p_state (h (g r))) = false) →
  (∀ s', held i P' o H s' → wpk (k s') Q) → wpk ((upd_proc i g ;; upd_proc i h ;; k) s) Q.
Proof.
  intros [Hinv (r & Hr & Hid & HP)] Hg HQ. pose proof Hinv as [_ _ (qs & Hwf) _].
  assert (Hlt : (i < length (procs (k_pt s)))%nat) by (by eapply lookup_lt_Some).
  destruct (wfq_proc _ _ _ Hwf _ _ Hr) as (Hok & _ & _). destruct (Hg r HP Hok Hid) as (HP' & Hok' & Hid').
  apply wp_bind. eapply wp_upd_proc; [done|].
  apply wp_bind. eapply wp_upd_proc; [by simpl; rewrite list_lookup_insert_eq|]. apply HQ.
  rewrite set_proc_twice. split; [by eapply kinv_upd_idle|].
  exists (h (g r)). split; [|done]. simpl. by rewrite list_lookup_insert_eq.
Qed.

Lemma wp_rd_held {T} (f : proc → T) i P o H s (Q : T → kstate → Prop) :
  held i P o H s → (∀ r, P r → held i P o H s → Q (f r) s) → wpk (rd i f s) Q.
Proof. intros Hh HQ. pose proof Hh as [_ (r & Hr & _ & HP)]. eapply wp_rd; [done|]. by apply HQ. Qed.

Lemma wp_acquire_kinv l o H s (Q : unit → kstate → Prop) :
  kinv o H s → l ∉ H → (∀ k, kinv o ({[l]} ∪ H) (s <| k_lk := k |>) → Q tt (s <| k_lk := k |>)) →
  wpk (acquire l s) Q.
Proof.
  intros Hinv Hn HQ. eapply wp_acquire; [apply Hinv|done|]. intros k Hk Hf. apply HQ. by eapply kinv_lock.
Qed.
Lemma wp_release_kinv l o H s (Q : unit → kstate → Prop) :
  kinv o ({[l]} ∪ H) s → l ∉ H → (∀ k, kinv o H (s <| k_lk := k |>) → Q tt (s <| k_lk := k |>)) →
  wpk (release l s) Q.
Proof.
  intros Hinv Hn HQ. eapply wp_release_add; [apply Hinv|done|]. intros k Hk Hf. apply HQ. by eapply kinv_lock.
Qed.

Lemma wp_upd_private i g o H s (Q : unit → kstate → Prop) :
  kinv o H s → (i < NPROC)%nat → private g → (∀ s', kinv o H s' → Q tt s') → wpk (upd_proc i g s) Q.
Proof.
  intros [Hlk Hcur (qs & Hwf) Hsv] Hi Hg HQ. destruct (wfq_lookup _ _ _ _ Hwf Hi) as [r Hr].
  destruct (wfq_proc _ _ _ Hwf _ _ Hr) as (Hok & _ & _). pose proof (Hg r) as (Hs & Hc & Hn & _ & _).
  eapply wp_upd_proc; [done|]. apply HQ. split; [done|done|exists qs|].
  - eapply wfq_upd_same; [done..|by apply private_ok|done].
  - by eapply saved_ok_same.
Qed.
(** two writes to an entry that keep its state, its context and its link *)
Lemma wp_upd2_kinv {B} i g h (k : KM B) o H s (Q : B → kstate → Prop) :
  kinv o H s → (i < NPROC)%nat →
  (∀ r, proc_ok r → proc_ok (h (g r)) ∧ p_state (h (g r)) = p_state r ∧ p_context (h (g r)) = p_context r ∧
    p_queue_next (h (g r)) = p_queue_next r) →
  (∀ s', kinv o H s' → wpk (k s') Q) → wpk ((upd_proc i g ;; upd_proc i h ;; k) s) Q.
Proof.
  intros [Hlk Hcur (qs & Hwf) Hsv] Hi Hg HQ. destruct (wfq_lookup _ _ _ _ Hwf Hi) as [r Hr].
  destruct (wfq_proc _ _ _ Hwf _ _ Hr) as (Hok & _ & _). destruct (Hg r Hok) as (Hok' & Hs & Hc & Hn).
  assert (Hlt : (i < length (procs (k_pt s)))%nat) by (by eapply lookup_lt_Some).
  apply wp_bind. eapply wp_upd_proc; [done|].
  apply wp_bind. eapply wp_upd_proc; [by simpl; rewrite list_lookup_insert_eq|].
  rewrite set_proc_twice. apply HQ. split; [done|done|exists qs; by eapply wfq_upd_same|by eapply saved_ok_same].
Qed.
Lemma wp_rd_kinv {T} (f : proc → T) i o H s (Q : T → kstate → Prop) :
  kinv o H s → (i < NPROC)%nat → (∀ v, Q v s) → wpk (rd i f s) Q.
Proof.
  intros [_ _ (qs & Hwf) _] Hi HQ. destruct (wfq_lookup _ _ _ _ Hwf Hi) as [r Hr]. eapply wp_rd; [done|]. apply HQ.
Qed.
Lemma wp_curproc p H s (Q : nat → kstate → Prop) :
  kinv (Some p) H s → (∀ s', kinv (Some p) H s' → Q p s') → wpk ((let* x := myproc in deref x) s) Q.
Proof.
  intros Hinv HQ. apply wp_bind. eapply wp_myproc; [apply Hinv|]. intros k Hk Hf.
  rewrite (kinv_cur _ _ _ Hinv). apply wp_done, HQ. by eapply kinv_frame.
Qed.
End steps.

(** ** Programs that keep the invariant *)

(** run with the locks [H] held, [m] keeps the invariant and ends with the
    locks [H'] held *)
Definition keeps (E : stop → Prop) (G : kstate → Prop) (R : kstate → kstate → Prop)
    (o : option nat) (H H' : gset lockid) {A} (m : KM A) : Prop :=
  ∀ s (Q : A → kstate → Prop), kinv o H s → (∀ a s', kinv o H' s' → Q a s') → wp E G R (m s) Q.
(** process [p] runs [m] with no lock held *)
#[warnings="-inconsistent-scopes"]
Abbreviation pkeeps E p := (keeps E (parked p) (λ s s', live_at p s ∧ resumed p s') (Some p) ∅ ∅).

Section keeps.
Context (E : stop → Prop) (G : kstate → Prop) (R : kstate → kstate → Prop).
Context (o : option nat).
#[local] Abbreviation kp := (keeps E G R o).

Lemma keeps_bind {A B} H H1 H' (m : KM A) (k : A → KM B) :
  kp H H1 m → (∀ a, kp H1 H' (k a)) → kp H H' (bind m k).
Proof. intros Hm Hk s Q Hs HQ. apply wp_bind, Hm; [done|]. intros a s1 Hs1. by apply Hk. Qed.
Lemma keeps_quiet {A} L H (m : KM A) : quiet E L m → H ## L → kp H H m.
Proof. intros Hm Hd s Q Hs HQ. by eapply wp_quiet_kinv. Qed.
Lemma keeps_ret {A} H (a : A) : kp H H (ret a).
Proof. apply (keeps_quiet ∅); [apply quiet_ret|set_solver]. Qed.
Lemma keeps_stop {A} H H' e : E e → kp H H' (stop_with (A:=A) e).
Proof. intros He s Q Hs HQ. exact He. Qed.
Lemma keeps_for_each {X} H (l : list X) (f : X → KM unit) :
  (∀ x, x ∈ l → kp H H (f x)) → kp H H (for_each l f).
Proof.
  induction l as [|x l IH]; intros Hf; simpl; [apply keeps_ret|].
  eapply keeps_bind; [apply Hf; set_solver|]. intros _. apply IH. set_solver.
Qed.
Lemma keeps_for_find {X T} H (l : list X) (f : X → KM (option T)) :
  (∀ x, x ∈ l → kp H H (f x)) → kp H H (for_find l f).
Proof.
  induction l as [|x l IH]; intros Hf; simpl; [apply keeps_ret|].
  eapply keeps_bind; [apply Hf; set_solver|]. intros [v|]; [apply keeps_ret|]. apply IH. set_solver.
Qed.
Lemma keeps_upd H i g : (i < NPROC)%nat ∨ o = Some i → private g → kp H H (upd_proc i g).
Proof.
  intros Hi Hg s Q Hs HQ. eapply wp_upd_private; [done| |done|eauto].
  destruct Hi as [Hi| ->]; [done|by eapply kinv_lt].
Qed.
Lemma keeps_rd {T} H i (f : proc → T) : (i < NPROC)%nat ∨ o = Some i → kp H H (rd i f).
Proof.
  intros Hi s Q Hs HQ. eapply wp_rd_kinv; [done| |by intros; apply HQ].
  destruct Hi as [Hi| ->]; [done|by eapply kinv_lt].
Qed.
(** a global variable other than the queues *)
Lemma keeps_globals H f :
  (∀ s, k_lk (f s) = k_lk s) → (∀ s, k_saved (f s) = k_saved s) →
  (∀ s, procs (k_pt (f s)) = procs (k_pt s)) → (∀ s, runqueues (k_pt (f s)) = runqueues (k_pt s)) →
  kp H H (modify f).
Proof.
  intros Hl Hsv Hp Hr s Q [Hlk Hcur (qs & Hwf) Hs] HQ. apply wp_done, HQ.
  split; [by rewrite Hl|by rewrite Hl|exists qs; by eapply wfq_globals|].
  unfold saved_ok. by rewrite Hsv, Hp.
Qed.
(** the locks held at the end depend on the result *)
Definition keepsd H {A} (H' : A → gset lockid) (m : KM A) : Prop :=
  ∀ s (Q : A → kstate → Prop), kinv o H s → (∀ a s', kinv o (H' a) s' → Q a s') → wp E G R (m s) Q.
Lemma keepsd_bind {A B} H H1 (H' : B → gset lockid) (m : KM A) (k : A → KM B) :
  kp H H1 m → (∀ a, keepsd H1 H' (k a)) → keepsd H H' (bind m k).
Proof. intros Hm Hk s Q Hs HQ. apply wp_bind, Hm; [done|]. intros a s1 Hs1. by apply Hk. Qed.
Lemma keepsd_ret {A} H (H' : A → gset lockid) a : H = H' a → keepsd H H' (ret a).
Proof. intros -> s Q Hs HQ. by apply wp_done, HQ. Qed.
Lemma keepsd_stop {A} H (H' : A → gset lockid) e : E e → keepsd H H' (stop_with e).
Proof. intros He s Q Hs HQ. exact He. Qed.
Lemma keeps_bindd {A B} H H' (H1 : A → gset lockid) (m : KM A) (k : A → KM B) :
  keepsd H H1 m → (∀ a, kp (H1 a) H' (k a)) → kp H H' (bind m k).
Proof. intros Hm Hk s Q Hs HQ. apply wp_bind, Hm; [done|]. intros a s1 Hs1. by apply Hk. Qed.
(** loops *)
Lemma keeps_loop {X} H H' n (m : KM (option X)) :
  E StopFuel → keepsd H (λ a, if a is Some _ then H' else H) m → kp H H' (loop n m).
Proof.
  intros HE Hm. induction n as [|n IH]; [by apply keeps_stop|]. intros s Q Hs HQ. simpl. apply wp_bind.
  apply Hm; [done|]. intros [v|] s1 Hs1; [by apply wp_done, HQ|by apply IH].
Qed.
Lemma keeps_while H n (c : KM bool) (m : KM unit) :
  E StopFuel → kp H H c → kp H H m → kp H H (while_do n c m).
Proof.
  intros HE Hc Hm. induction n as [|n IH]; [by apply keeps_stop|]. simpl.
  eapply keeps_bind; [done|]. intros []; [|apply keeps_ret]. by eapply keeps_bind.
Qed.
Lemma keeps_for_below {X} H n (b : KM Z) st (f : Z → KM (option X)) : ∀ i,
  E StopFuel → kp H H b → (∀ i, kp H H (f i)) → kp H H (for_below n b i st f).
Proof.
  induction n as [|n IH]; intros i HE Hb Hf; simpl; [by apply keeps_stop|].
  eapply keeps_bind; [done|]. intros k. case_match; [|apply keeps_ret].
  eapply keeps_bind; [done|]. intros [v|]; [apply keeps_ret|by apply IH].
Qed.
(** the current process *)
Lemma keeps_myproc {A} H H' (k : option nat → KM A) : kp H H' (k o) → kp H H' (let* p := myproc in k p).
Proof.
  intros Hk s Q Hs HQ. apply wp_bind. eapply wp_myproc; [apply Hs|]. intros k' Hk' Hf.
  rewrite (kinv_cur _ _ _ Hs). apply Hk; [|done]. by eapply kinv_frame.
Qed.
Lemma keeps_deref {A} H H' p (k : nat → KM A) : kp H H' (k p) → kp H H' (let* p := deref (Some p) in k p).
Proof. intros Hk s Q Hs HQ. apply wp_bind, wp_done. by apply Hk. Qed.
Lemma keeps_curproc {A} H H' p (k : nat → KM A) :
  o = Some p → kp H H' (k p) → kp H H' (let* p := curproc in k p).
Proof.
  intros Ho Hk s Q Hs HQ. apply wp_bind, wp_bind. eapply wp_myproc; [apply Hs|]. intros k' Hk' Hf.
  rewrite (kinv_cur _ _ _ Hs), Ho. apply wp_done, Hk; [|done]. by eapply kinv_frame.
Qed.
(** locks *)
Lemma keeps_acquire H l : l ∉ H → kp H ({[l]} ∪ H) (acquire l).
Proof. intros Hl s Q Hs HQ. eapply wp_acquire_kinv; [done|done|]. intros k Hk. by apply HQ. Qed.
Lemma keeps_release H l : l ∉ H → kp ({[l]} ∪ H) H (release l).
Proof. intros Hl s Q Hs HQ. eapply wp_release_kinv; [done|done|]. intros k Hk. by apply HQ. Qed.
(** the interrupt flag, with no lock held *)
Lemma keeps_intr_on : kp ∅ ∅ intr_on.
Proof.
  intros s Q Hs HQ. eapply wp_intr_on_free; [apply Hs|]. intros k Hk Hf. apply HQ. by eapply kinv_frame.
Qed.
Lemma keeps_intr_off : kp ∅ ∅ intr_off.
Proof.
  intros s Q Hs HQ. eapply wp_intr_off_free; [apply Hs|]. intros k Hk Hf. apply HQ. by eapply kinv_frame.
Qed.
Lemma keeps_w_sstatus x : kp ∅ ∅ (w_sstatus x).
Proof.
  intros s Q Hs HQ. eapply wp_w_sstatus_free; [apply Hs|]. intros k Hk Hf. apply HQ. by eapply kinv_frame.
Qed.
(** process operations *)
Lemma keeps_wakeup H c : (∀ i, p_lock i ∉ H) → kp H H (wakeup c).
Proof. intros Hn s Q Hs HQ. eapply wp_wakeup_kinv; [done|done|]. intros s' Hs' _ _ _ _. by apply HQ. Qed.
Lemma keeps_kkill H pid : (∀ i, p_lock i ∉ H) → kp H H (kkill pid).
Proof. intros Hn s Q Hs HQ. by eapply wp_kkill_kinv. Qed.
Lemma keeps_killed H p : (p < NPROC)%nat ∨ o = Some p → p_lock p ∉ H → kp H H (killed p).
Proof.
  intros Hp Hn s Q Hs HQ. eapply wp_killed_kinv; [done| |done|done]. destruct Hp as [?| ->]; [done|by eapply kinv_lt].
Qed.
Lemma keeps_setkilled H p : (p < NPROC)%nat ∨ o = Some p → p_lock p ∉ H → kp H H (setkilled p).
Proof.
  intros Hp Hn s Q Hs HQ. eapply wp_setkilled_kinv; [done| |done|eauto]. destruct Hp as [?| ->]; [done|by eapply kinv_lt].
Qed.
Lemma keeps_upd_stats H g : stats_lock ∉ H → kp H H (upd_stats g).
Proof. intros Hn s Q Hs HQ. eapply wp_upd_stats_kinv; [done|done|eauto]. Qed.
Lemma keeps_priority_boost H : (∀ i, p_lock i ∉ H) → kp H H priority_boost.
Proof. intros Hn s Q Hs HQ. eapply wp_priority_boost_kinv; [done|done|eauto]. Qed.
End keeps.

Lemma keeps_yield E p : pkeeps E p yield.
Proof. intros s Q Hs HQ. apply wp_yield; [done|eauto]. Qed.
Lemma keeps_sleep E p c l :
  (∀ i, l ≠ p_lock i) →
  keeps E (parked p) (λ s s', live_at p s ∧ resumed p s') (Some p) ({[l]} ∪ ∅) ({[l]} ∪ ∅) (sleep c l).
Proof. rewrite (right_id_L ∅ (∪)). intros Hl s Q Hs HQ. apply wp_sleep; [done|done|eauto]. Qed.

(** to sleep with another lock held is a panic *)
Lemma keeps_sleep_nested E G R p c l H H' :
  E (StopPanic "sched locks") → l ∉ H → H ≠ ∅ → (∀ i, p_lock i ∉ {[l]} ∪ H) →
  keeps E G R (Some p) ({[l]} ∪ H) H' (sleep c l).
Proof.
  intros HE Hl HH Hp s Q Hs _. pose proof (kinv_lt _ _ _ Hs) as Hlt. unfold sleep.
  apply wp_bind. eapply wp_myproc; [apply Hs|]. intros k Hk Hf. rewrite (kinv_cur _ _ _ Hs).
  assert (H0 : kinv (Some p) ({[l]} ∪ H) (s <| k_lk := k |>)) by (by eapply kinv_frame).
  apply wp_bind, wp_done, wp_bind. eapply wp_acquire_kinv; [done|done|]. intros k1 H1.
  assert (Heq : {[p_lock p]} ∪ ({[l]} ∪ H) = {[l]} ∪ ({[p_lock p]} ∪ H)) by set_solver. rewrite Heq in H1.
  specialize (Hp p). apply wp_bind. eapply wp_release_kinv; [done|set_solver|]. intros k2 H2.
  apply wp_bind. eapply wp_upd_private; [done|done|by intros r|]. intros s3 H3.
  pose proof H3 as [Hk3 Hc3 (qs & Hwf) _]. destruct (wfq_lookup _ _ _ _ Hwf Hlt) as [r Hr].
  apply wp_bind. eapply wp_upd_proc; [done|]. apply wp_bind. unfold sched.
  apply wp_bind. eapply wp_myproc; [exact Hk3|]. intros k4 Hk4 Hf4. simpl. rewrite Hc3.
  apply wp_bind, wp_done. apply wp_bind. eapply wp_holding; [exact Hk4|].
  rewrite bool_decide_eq_true_2 by set_solver. simpl.
  apply wp_bind. eapply wp_mycpu; [exact Hk4|]. intros c' _ Hn _ _.
  rewrite (proj2 (Z.eqb_neq _ _)); [exact HE|]. rewrite Hn, size_union, size_singleton by set_solver.
  assert (size H ≠ 0%nat) by (by intros ?%size_empty_inv%leibniz_equiv). lia.
Qed.

Create HintDb keeps discriminated.
#[export] Hint Constants Opaque : keeps.
#[export] Hint Resolve keeps_ret keeps_upd keeps_rd keeps_intr_on keeps_intr_off keeps_w_sstatus keeps_yield
  keeps_sleep : keeps.
#[export] Hint Extern 1 (private _) => (intros ?; done) : keeps.
#[export] Hint Extern 1 (keeps _ _ _ _ _ _ (acquire _)) => (apply keeps_acquire; set_solver) : keeps.
#[export] Hint Extern 1 (keeps _ _ _ _ _ _ (release _)) => (apply keeps_release; set_solver) : keeps.
#[export] Hint Extern 1 (keeps _ _ _ _ _ _ (wakeup _)) => (apply keeps_wakeup; set_solver) : keeps.
#[export] Hint Extern 1 (keeps _ _ _ _ _ _ (kkill _)) => (apply keeps_kkill; set_solver) : keeps.
#[export] Hint Extern 1 (keeps _ _ _ _ _ _ (killed _)) => (apply keeps_killed; [auto|set_solver]) : keeps.
#[export] Hint Extern 1 (keeps _ _ _ _ _ _ (setkilled _)) => (apply keeps_setkilled; [auto|set_solver]) : keeps.
#[export] Hint Extern 1 (keeps _ _ _ _ _ _ (upd_stats _)) => (apply keeps_upd_stats; set_solver) : keeps.
#[export] Hint Extern 1 (keeps _ _ _ _ _ _ priority_boost) => (apply keeps_priority_boost; set_solver) : keeps.
#[export] Hint Extern 1 (keeps _ _ _ _ _ _ (initlock _)) =>
  (eapply keeps_quiet; [apply quiet_initlock|set_solver]) : keeps.
#[export] Hint Extern 2 (keeps _ _ _ _ _ _ (modify _)) => (apply keeps_globals; done) : keeps.
#[export] Hint Extern 2 (keeps _ _ _ _ _ _ (wr_pt _ _)) => (apply keeps_globals; done) : keeps.
#[export] Hint Extern 2 (keeps _ _ _ _ _ _ (wr _ _ _)) => (apply keeps_upd; [auto|intros ?; done]) : keeps.

(** break a program into its operations *)
Ltac keeps :=
  repeat match goal with
    | |- keepsd _ _ _ _ _ _ (bind myproc _) => fail 1
    | |- keepsd _ _ _ _ _ _ (bind _ _) => eapply keepsd_bind; [|intros ?]
    | |- keepsd _ _ _ _ _ _ (ret _) => apply keepsd_ret; reflexivity
    | |- keepsd _ _ _ _ _ _ (stop_with _) => apply keepsd_stop; solve [eauto with quiet]
    | |- keepsd _ _ _ _ _ _ (if ?b then _ else _) => destruct b
    | |- keepsd _ _ _ _ _ _ (match ?x with _ => _ end) => destruct x
    | |- keepsd _ _ _ _ _ _ _ => solve [eauto with keeps]
    | |- keeps _ _ _ _ _ _ (loop _ _) => apply keeps_loop; [eauto with quiet|]
    | |- keeps _ _ _ _ _ _ (bind myproc _) => apply keeps_myproc
    | |- keeps _ _ _ _ _ _ (bind curproc _) => eapply keeps_curproc; [reflexivity|]
    | |- keeps _ _ _ _ _ _ (bind (deref (Some _)) _) => apply keeps_deref
    | |- keeps _ _ _ _ _ _ (bind _ _) => eapply keeps_bind; [|intros ?]
    | |- keeps _ _ _ _ _ _ (for_each _ _) => apply keeps_for_each; intros ? ?
    | |- keeps _ _ _ _ _ _ (for_find _ _) => apply keeps_for_find; intros ? ?
    | |- keeps _ _ _ _ _ _ (while_do _ _ _) => apply keeps_while; [eauto with quiet| |]
    | |- keeps _ _ _ _ _ _ (for_below _ _ _ _ _) => apply keeps_for_below; [eauto with quiet| |intros ?]
    | |- keeps _ _ _ _ _ _ (when _ _) => unfold when
    | |- keeps _ _ _ _ _ _ (if ?b then _ else _) => destruct b
    | |- keeps _ _ _ _ _ _ (match ?x with _ => _ end) => destruct x
    | |- keeps _ _ _ _ _ _ _ => solve [eauto with keeps]
    | |- keeps _ _ _ _ _ _ _ => solve [apply (keeps_quiet _ _ _ _ ∅); [solve [eauto with quiet]|set_solver]]
    | |- keeps _ _ _ _ _ _ _ => solve [eapply keeps_quiet; [solve [eauto with quiet]|set_solver]]
    end.
