(* ===== verification/FsLogic.v ===== *)
(** * Reasoning about file system code

    What file system code does to the file system state: [fwp m H f Q] says
    that [m], run by process [p] with the locks [H] held on the state [f],
    does not stop and ends as [Q] says of its result, the locks then held and
    the new state, with the scheduling invariant kept.  The rules below step
    through a program.

    The fields of the disk driver belong to the driver, with the memory it
    shares with the device: the state is [f] up to [vd], and [X] is what the
    driver keeps of its own data. *)

From S2P Require Import Prelude Fsdata Kstate Spinlock Runqueue Sched SchedInv Bytes Layout Kalloc Vm Printf.
From S2P Require Import Quiet Keeps.
#[local] Open Scope Z_scope.

(** a table of the file system that is not the driver's *)
Class Table {T} (t : fsst → T) `{!Setter t} : Prop := {
  table_get_vd f d : t (f <| vd := d |>) = t f;
  table_set_vd f d g : f <| vd := d |> <| t ::= g |> = f <| t ::= g |> <| vd := d |>;
  table_get f g : t (f <| t ::= g |>) = g (t f);
  table_set f g h : f <| t ::= g |> <| t ::= h |> = f <| t ::= λ x, h (g x) |>;
  table_ext f g h : g (t f) = h (t f) → f <| t ::= g |> = f <| t ::= h |>
}.
#[local] Ltac table := split; [done..|]; intros f g h Hgh; destruct f; cbv in Hgh |- *; by rewrite Hgh.
#[export] Instance table_bufs : Table bufs. Proof. table. Qed.
#[export] Instance table_sleeplocks : Table sleeplocks. Proof. table. Qed.
#[export] Instance table_inodes : Table inodes. Proof. table. Qed.
#[export] Instance table_files : Table files. Proof. table. Qed.
Lemma table_insert_twice {T} (t : fsst → list T) `{!Setter t, !Table t} f i x y :
  f <| t ::= <[i := x]> |> <| t ::= <[i := y]> |> = f <| t ::= <[i := y]> |>.
Proof. rewrite table_set. apply table_ext. apply list_insert_insert_eq. Qed.
Lemma table_lookup {T} (t : fsst → list T) `{!Setter t, !Table t} f i x y :
  t f !! i = Some x → t (f <| t ::= <[i := y]> |>) !! i = Some y.
Proof. intros Hx. rewrite table_get. by eapply list_lookup_insert_eq, lookup_lt_Some. Qed.

Section logic.
Context (E : stop → Prop) (G : kstate → Prop) (R : kstate → kstate → Prop).
Context (X : gmap Z Z → vdisk → Prop) (p : nat) (pid : Z).

(** process [p] with id [pid] runs with the locks [H] on the file system
    state [f] *)
Record fsat (H : gset lockid) (f : fsst) (s : kstate) : Prop := {
  fsat_kinv : kinv (Some p) H s;
  fsat_pid : ∃ r, procs (k_pt s) !! p = Some r ∧ p_pid r = pid;
  fsat_fs : k_fs s = f <| vd := vd (k_fs s) |>;
  fsat_drv : X (mbytes (k_mem s)) (vd (k_fs s));
  fsat_dev : panicking (k_dev s) = 0 ∧ panicked (k_dev s) = 0
}.

Definition fwp {A} (m : KM A) (H : gset lockid) (f : fsst) (Q : A → gset lockid → fsst → Prop) : Prop :=
  ∀ s, fsat H f s → wp E G R (m s) (λ a s', ∃ H' f', fsat H' f' s' ∧ Q a H' f').

Lemma fwp_mono {A} (m : KM A) H f (Q Q' : A → gset lockid → fsst → Prop) :
  (∀ a H' f', Q a H' f' → Q' a H' f') → fwp m H f Q → fwp m H f Q'.
Proof.
  intros HQ Hm s Hs. eapply wp_mono; [|by apply Hm]. intros a s' (H' & f' & Hs' & HQ').
  exists H', f'. eauto.
Qed.
Lemma fwp_bind {A B} (m : KM A) (k : A → KM B) H f Q :
  fwp m H f (λ a H' f', fwp (k a) H' f' Q) → fwp (bind m k) H f Q.
Proof.
  intros Hm s Hs. apply wp_bind. eapply wp_mono; [|by apply Hm]. simpl.
  intros a s' (H' & f' & Hs' & Hk). by apply Hk.
Qed.
Lemma fwp_ret {A} (a : A) H f (Q : A → gset lockid → fsst → Prop) : Q a H f → fwp (ret a) H f Q.
Proof. intros HQ s Hs. apply wp_done. by exists H, f. Qed.
Lemma fwp_deref {A} (x : option A) a H f (Q : A → gset lockid → fsst → Prop) :
  x = Some a → Q a H f → fwp (deref x) H f Q.
Proof. intros -> HQ. by apply fwp_ret. Qed.

(** ** The state *)

Lemma fwp_rd_fs {T} (g : fsst → T) H f (Q : T → gset lockid → fsst → Prop) :
  (∀ d, g (f <| vd := d |>) = g f) → Q (g f) H f → fwp (rd_fs g) H f Q.
Proof. intros Hg HQ s Hs. apply wp_done. exists H, f. by rewrite (fsat_fs _ _ _ Hs), Hg. Qed.
Lemma fsat_upd H f s g :
  (∀ d, g (f <| vd := d |>) = (g f) <| vd := d |>) → fsat H f s → fsat H (g f) (s <| k_fs ::= g |>).
Proof.
  intros Hg [Hk Hp Hf Hx Hd]. specialize (Hg (vd (k_fs s))). rewrite <- Hf in Hg.
  split; [by destruct Hk|done| |simpl; by rewrite Hg|done]. simpl. by rewrite Hg.
Qed.
Lemma fwp_modify g H f (Q : unit → gset lockid → fsst → Prop) :
  (∀ d, g (f <| vd := d |>) = (g f) <| vd := d |>) → Q tt H (g f) → fwp (modify (λ s, s <| k_fs ::= g |>)) H f Q.
Proof. intros Hg HQ s Hs. apply wp_done. exists H, (g f). by split; [apply fsat_upd|]. Qed.
Lemma fwp_ent {T} (t : fsst → list T) `{!Setter t, !Table t} i x H f (Q : T → gset lockid → fsst → Prop) :
  t f !! i = Some x → Q x H f → fwp (ent t i) H f Q.
Proof.
  intros Hi HQ s Hs. unfold ent, bind, get. simpl. rewrite (fsat_fs _ _ _ Hs), table_get_vd, Hi. by exists H, f.
Qed.
Lemma fwp_rdt {T U} (t : fsst → list T) `{!Setter t, !Table t} i (g : T → U) x H f (Q : U → gset lockid → fsst → Prop) :
  t f !! i = Some x → Q (g x) H f → fwp (rdt t i g) H f Q.
Proof. intros Hi HQ. apply fwp_bind. eapply (fwp_ent t); [done|]. by apply fwp_ret. Qed.
Lemma fwp_updt {T} (t : fsst → list T) `{!Setter t, !Table t} i g x H f (Q : unit → gset lockid → fsst → Prop) :
  t f !! i = Some x → Q tt H (f <| t ::= <[i := g x]> |>) → fwp (updt t i g) H f Q.
Proof.
  intros Hi HQ. apply fwp_bind. eapply (fwp_ent t); [done|].
  apply (fwp_modify (λ f, f <| t ::= <[i := g x]> |>)); [|done]. intros d. apply table_set_vd.
Qed.

(** ** Locks and processes *)

Lemma fsat_lk H H' f s k : lockinv H' k → lk_frame (k_lk s) k → fsat H f s → fsat H' f (s <| k_lk := k |>).
Proof. intros Hk Hf [Hi Hp He Hx Hd]. split; [by eapply kinv_lock|done..]. Qed.
Lemma fwp_acquire l H f (Q : unit → gset lockid → fsst → Prop) :
  l ∉ H → Q tt ({[l]} ∪ H) f → fwp (acquire l) H f Q.
Proof.
  intros Hl HQ s Hs. eapply wp_acquire; [apply Hs|done|]. intros k Hk Hf. exists ({[l]} ∪ H), f.
  split; [by eapply fsat_lk|done].
Qed.
Lemma fwp_release l H f (Q : unit → gset lockid → fsst → Prop) :
  l ∉ H → Q tt H f → fwp (release l) ({[l]} ∪ H) f Q.
Proof.
  intros Hl HQ s Hs. eapply wp_release_add; [apply Hs|done|]. intros k Hk Hf. exists H, f.
  split; [by eapply fsat_lk|done].
Qed.
Lemma fwp_initlock l H f (Q : unit → gset lockid → fsst → Prop) :
  l ∉ H → Q tt H f → fwp (initlock l) H f Q.
Proof.
  intros Hl HQ s Hs. eapply wp_initlock; [apply Hs|done|]. intros k Hk Hf. exists H, f.
  split; [by eapply fsat_lk|done].
Qed.
Lemma fwp_curproc H f (Q : nat → gset lockid → fsst → Prop) : Q p H f → fwp curproc H f Q.
Proof.
  intros HQ s Hs. apply wp_bind. eapply wp_myproc; [apply Hs|]. intros k Hk Hf.
  rewrite (kinv_cur _ _ _ (fsat_kinv _ _ _ Hs)). apply wp_done. exists H, f. split; [by eapply fsat_lk|done].
Qed.
Lemma fwp_pid H f (Q : Z → gset lockid → fsst → Prop) : Q pid H f → fwp (rd p p_pid) H f Q.
Proof.
  intros HQ s Hs. destruct (fsat_pid _ _ _ Hs) as (r & Hr & Hpid). eapply wp_rd; [done|]. rewrite Hpid.
  by exists H, f.
Qed.
Lemma fwp_wakeup c H f (Q : unit → gset lockid → fsst → Prop) :
  (∀ i, p_lock i ∉ H) → Q tt H f → fwp (wakeup c) H f Q.
Proof.
  intros HH HQ s [Hs (r & Hr & Hpid) Hf Hx Hd]. eapply wp_wakeup_kinv; [done|done|]. intros s' Hs' _ _ Hc Heq.
  exists H, f. split; [|done]. split; [done| |by rewrite Heq..].
  specialize (Hc p eq_refl). rewrite Hr in Hc. simpl in Hc.
  destruct (procs (k_pt s') !! p) as [r'|]; [|done]. exists r'. split; [done|].
  apply (inj Some) in Hc. rewrite <- Hpid. by apply (f_equal p_pid) in Hc.
Qed.
Lemma fwp_printf fmt ap l H f (Q : unit → gset lockid → fsst → Prop) :
  format_text (length fmt) fmt ap = Some l → pr_lock ∉ H → Q tt H f → fwp (printf fmt ap) H f Q.
Proof.
  intros Hl Hn HQ s [Hs Hp Hf Hx [Hd1 Hd2]].
  eapply (prints_printf fmt ap l Hl _ _ _ H); [done|done|apply Hs|set_solver|]. intros k Hk Hfr.
  exists H, f. split; [|done]. split; [by eapply kinv_same_pt|done..].
Qed.
End logic.
