(* ===== verification/Proc.v ===== *)
(** * Creation and end of processes, [kernel/proc.c]

    [procinit], [allocpid], [allocproc], [freeproc], [proc_pagetable],
    [proc_freepagetable], [userinit], [growproc], [kfork], [kexit], [kwait],
    [forkret], [either_copyout], [either_copyin] and [procdump].

    The operations of the file system that they call are the class [FsOps];
    [prepare_return] of [kernel/trap.c] is here because [forkret] ends with
    it. *)

From stdpp Require Import list_numbers.
From S2P Require Import Prelude Kstate Spinlock Runqueue Sched Bytes Layout Kalloc Vm Printf.
#[local] Open Scope Z_scope.

(** ** What processes need of the file system *)

Class FsOps := {
  filedup : nat → KM nat;
  fileclose : nat → KM unit;
  idup : nat → KM nat;
  iput : nat → KM unit;
  begin_op : KM unit;
  end_op : KM unit;
  namei : list Z → KM (option nat);
  fsinit : Z → KM unit;
  kexec : list Z → list (list Z) → KM Z
}.
Definition ROOTDEV : Z := 1.

(** ** The trap frame: offsets of its fields in the page *)

Definition tf_kernel_satp : Z := 0.
Definition tf_kernel_sp : Z := 8.
Definition tf_kernel_trap : Z := 16.
Definition tf_epc : Z := 24.
Definition tf_kernel_hartid : Z := 32.
Definition tf_sp : Z := 48.
Definition tf_a0 : Z := 112.
Definition tf_a1 : Z := 120.
Definition tf_a2 : Z := 128.
Definition tf_a3 : Z := 136.
Definition tf_a4 : Z := 144.
Definition tf_a5 : Z := 152.
Definition tf_a7 : Z := 168.
Definition tf_size : Z := 288.
(** [p->trapframe->f] and [p->trapframe->f = v] *)
Definition rd_tf (p : nat) (off : Z) : KM Z :=
  let* tf := rd p p_trapframe in ld64 (tf + off).
Definition wr_tf (p : nat) (off v : Z) : KM unit :=
  let* tf := rd p p_trapframe in st64 (tf + off) v.

(** a control register *)
Definition rd_csr {T} (f : csrs → T) : KM T := gets (λ s, f (k_csr s)).
Definition wr_csr {T} (f : csrs → T) `{!Setter f} (v : T) : KM unit :=
  modify (λ s, s <| k_csr ::= λ c, c <| f := v |> |>).

Section code.
Context {SY : Symbols} {FS : FsOps}.

Definition procinit : KM unit :=
  initlock pid_lock ;;
  initlock wait_lock ;;
  initlock mlfq_lock ;;
  initlock stats_lock ;;
  for_each all_procs (λ p,
    initlock (p_lock p) ;;
    wr p p_state UNUSED ;;
    wr p p_kstack (KSTACK p) ;;
    wr p p_queue_level 0 ;;
    wr p p_time_in_queue 0 ;;
    wr p p_time_slices 0 ;;
    wr p p_entered_queue_tick 0).

Definition allocpid : KM Z :=
  acquire pid_lock ;;
  let* pid := rd_pt nextpid in
  wr_pt nextpid (s32 (pid + 1)) ;;
  release pid_lock ;;
  ret pid.

Definition proc_pagetable (p : nat) : KM Z :=
  let* pagetable := uvmcreate in
  if pagetable =? 0 then ret 0 else
  let* r := mappages pagetable TRAMPOLINE PGSIZE sym_trampoline (Z.lor PTE_R PTE_X) in
  if r <? 0 then uvmfree pagetable 0 ;; ret 0 else
  let* tf := rd p p_trapframe in
  let* r := mappages pagetable TRAPFRAME PGSIZE tf (Z.lor PTE_R PTE_W) in
  if r <? 0 then
    uvmunmap pagetable TRAMPOLINE 1 false ;;
    uvmfree pagetable 0 ;;
    ret 0
  else ret pagetable.

Definition proc_freepagetable (pagetable sz : Z) : KM unit :=
  uvmunmap pagetable TRAMPOLINE 1 false ;;
  uvmunmap pagetable TRAPFRAME 1 false ;;
  uvmfree pagetable sz.

Definition freeproc (p : nat) : KM unit :=
  let* tf := rd p p_trapframe in
  when (negb (tf =? 0)) (kfree tf) ;;
  wr p p_trapframe 0 ;;
  let* pt := rd p p_pagetable in
  when (negb (pt =? 0)) (let* sz := rd p p_sz in proc_freepagetable pt sz) ;;
  wr p p_pagetable 0 ;;
  wr p p_sz 0 ;;
  wr p p_pid 0 ;;
  wr p p_parent None ;;
  upd_proc p (λ r, r <| p_name ::= <[0%nat := 0]> |>) ;;
  wr p p_chan None ;;
  wr p p_killed 0 ;;
  wr p p_xstate 0 ;;
  wr p p_state UNUSED ;;
  wr p p_queue_level 0 ;;
  wr p p_time_in_queue 0 ;;
  wr p p_time_slices 0 ;;
  wr p p_entered_queue_tick 0 ;;
  wr p p_queue_next None.

(** the search of [allocproc]: an unused entry, with its lock held *)
Definition allocproc_find : KM (option nat) :=
  for_find all_procs (λ p,
    acquire (p_lock p) ;;
    let* st := rd p p_state in
    if decide (st = UNUSED) then ret (Some p)
    else release (p_lock p) ;; ret None).
(** from the label [found] on *)
Definition allocproc_found (p : nat) : KM (option nat) :=
  let* pid := allocpid in
  wr p p_pid pid ;;
  wr p p_state USED ;;
  let* tf := kalloc in
  wr p p_trapframe tf ;;
  if tf =? 0 then freeproc p ;; release (p_lock p) ;; ret None else
  let* pt := proc_pagetable p in
  wr p p_pagetable pt ;;
  if pt =? 0 then freeproc p ;; release (p_lock p) ;; ret None else
  wr p p_context (mk_context ra_zero 0) ;;
  upd_proc p (λ r, r <| p_context := mk_context ra_forkret (p_kstack r + PGSIZE) |>) ;;
  wr p p_queue_level 0 ;;
  wr p p_time_in_queue 0 ;;
  wr p p_time_slices 0 ;;
  wr p p_entered_queue_tick 0 ;;
  wr p p_queue_next None ;;
  ret (Some p).
Definition allocproc : KM (option nat) :=
  let* p := allocproc_find in
  match p with
  | None => ret None
  | Some p => allocproc_found p
  end.

Definition userinit : KM unit :=
  let* p := allocproc in
  wr_pt initproc p ;;
  let* p := deref p in
  let* cwd := namei (str "/") in
  wr p p_cwd cwd ;;
  wr p p_state RUNNABLE ;;
  release (p_lock p).

Definition growproc (n : Z) : KM Z :=
  let* p := myproc in
  let* p := deref p in
  let* sz := rd p p_sz in
  let* pt := rd p p_pagetable in
  if 0 <? n then
    if TRAPFRAME <? u64 (sz + n) then ret (-1) else
    let* sz := uvmalloc pt sz (u64 (sz + n)) PTE_W in
    if sz =? 0 then ret (-1) else
    wr p p_sz sz ;; ret 0
  else if n <? 0 then
    let* sz := uvmdealloc pt sz (u64 (sz + n)) in
    wr p p_sz sz ;; ret 0
  else wr p p_sz sz ;; ret 0.

(** the loop of [kfork] over the open files *)
Definition fork_files (p np : nat) : KM unit :=
  for_each (seq 0 NOFILE) (λ i,
    let* fs := rd p p_ofile in
    let* f := deref (fs !! i) in
    match f with
    | None => ret tt
    | Some f =>
        let* f := filedup f in
        upd_proc np (λ r, r <| p_ofile ::= <[i := Some f]> |>)
    end).

(** [kfork] from the copy of [p->sz] to that of the name *)
Definition fork_copy (p np : nat) (sz : Z) : KM unit :=
  wr np p_sz sz ;;
  (* *(np->trapframe) = *(p->trapframe) *)
  let* tf := rd p p_trapframe in
  let* ntf := rd np p_trapframe in
  kmemmove ntf tf tf_size ;;
  wr_tf np tf_a0 0 ;;
  fork_files p np ;;
  let* cwd := rd p p_cwd in
  let* cwd := deref cwd in
  let* cwd := idup cwd in
  wr np p_cwd (Some cwd) ;;
  let* name := rd p p_name in
  let* nname := rd np p_name in
  let* nname := deref (safestrcpy nname 0 name 0 16) in
  wr np p_name nname.
(** the end of [kfork], with the child's lock held *)
Definition fork_start (p np : nat) : KM Z :=
  let* pid := rd np p_pid in
  release (p_lock np) ;;
  acquire wait_lock ;;
  wr np p_parent (Some p) ;;
  release wait_lock ;;
  acquire (p_lock np) ;;
  wr np p_state RUNNABLE ;;
  enqueue np ;;
  release (p_lock np) ;;
  ret pid.

Definition kfork : KM Z :=
  let* p := myproc in
  let* p := deref p in
  let* np := allocproc in
  match np with
  | None => ret (-1)
  | Some np =>
      let* old := rd p p_pagetable in
      let* new := rd np p_pagetable in
      let* sz := rd p p_sz in
      let* r := uvmcopy old new sz in
      if r <? 0 then freeproc np ;; release (p_lock np) ;; ret (-1) else
      fork_copy p np sz ;;
      fork_start p np
  end.

(** the loop of [kexit] over the open files *)
Definition exit_files (p : nat) : KM unit :=
  for_each (seq 0 NOFILE) (λ fd,
    let* fs := rd p p_ofile in
    let* f := deref (fs !! fd) in
    match f with
    | None => ret tt
    | Some f => fileclose f ;; upd_proc p (λ r, r <| p_ofile ::= <[fd := None]> |>)
    end).

(** does not return *)
Definition kexit {A} (status : Z) : KM A :=
  let* p := myproc in
  let* ip := rd_pt initproc in
  if decide (p = ip) then panic "init exiting" else
  let* p := deref p in
  exit_files p ;;
  begin_op ;;
  let* cwd := rd p p_cwd in
  let* cwd := deref cwd in
  iput cwd ;;
  end_op ;;
  wr p p_cwd None ;;
  acquire wait_lock ;;
  reparent p ;;
  let* parent := rd p p_parent in
  wakeup (ch_proc <$> parent) ;;
  acquire (p_lock p) ;;
  wr p p_xstate status ;;
  wr p p_state ZOMBIE ;;
  release wait_lock ;;
  sched ;;
  panic "zombie exit".

(** the four bytes of an [int] *)
Definition int_bytes (x : Z) : list Z := Z_to_little_endian 4 8 x.

(** the scan of [kwait]: the value to return, or whether there are children *)
Fixpoint kwait_scan (p : nat) (addr : Z) (pps : list nat) (havekids : bool) : KM (Z + bool) :=
  match pps with
  | [] => ret (inr havekids)
  | pp :: pps =>
      let* parent := rd pp p_parent in
      if decide (parent = Some p) then
        acquire (p_lock pp) ;;
        let* st := rd pp p_state in
        if decide (st = ZOMBIE) then
          let* pid := rd pp p_pid in
          let* xstate := rd pp p_xstate in
          let* pt := rd p p_pagetable in
          let* r := if negb (addr =? 0) then copyout pt addr (int_bytes xstate) else ret 0 in
          if r <? 0 then
            release (p_lock pp) ;;
            release wait_lock ;;
            ret (inl (-1))
          else
            freeproc pp ;;
            release (p_lock pp) ;;
            release wait_lock ;;
            ret (inl pid)
        else
          release (p_lock pp) ;;
          kwait_scan p addr pps true
      else kwait_scan p addr pps havekids
  end.
(** the [for(;;)] of [kwait], [fuel] turns of it *)
Fixpoint kwait_loop (fuel : nat) (p : nat) (addr : Z) : KM Z :=
  match fuel with
  | O => stop_with StopFuel
  | S fuel =>
      let* r := kwait_scan p addr all_procs false in
      match r with
      | inl v => ret v
      | inr havekids =>
          let* k := if havekids then killed p else ret 0 in
          if negb havekids || negb (k =? 0) then release wait_lock ;; ret (-1) else
          sleep (ch_proc p) wait_lock ;;
          kwait_loop fuel p addr
      end
  end.
Definition kwait (fuel : nat) (addr : Z) : KM Z :=
  let* p := myproc in
  let* p := deref p in
  acquire wait_lock ;;
  kwait_loop fuel p addr.

(** [prepare_return] of [kernel/trap.c] *)
Definition prepare_return : KM unit :=
  let* p := myproc in
  let* p := deref p in
  intr_off ;;
  wr_csr stvec (TRAMPOLINE + (sym_uservec - sym_trampoline)) ;;
  let* sa := rd_csr satp in
  wr_tf p tf_kernel_satp sa ;;
  let* ks := rd p p_kstack in
  wr_tf p tf_kernel_sp (ks + PGSIZE) ;;
  wr_tf p tf_kernel_trap sym_usertrap ;;
  let* id := cpuid in
  wr_tf p tf_kernel_hartid (Z.of_nat id) ;;
  let* x := r_sstatus in
  let x := Z.land x (Z.lnot SSTATUS_SPP) in
  let x := Z.lor x SSTATUS_SPIE in
  w_sstatus x ;;
  let* epc := rd_tf p tf_epc in
  wr_csr sepc epc.

(** [forkret] up to its jump to [userret], with the [satp] it passes *)
Definition forkret : KM Z :=
  let* p := myproc in
  let* p := deref p in
  release (p_lock p) ;;
  let* fst := rd_pt first in
  when (negb (fst =? 0)) (
    fsinit ROOTDEV ;;
    wr_pt first 0 ;;
    let* argc := kexec (str "/init") [str "/init"] in
    wr_tf p tf_a0 (u64 argc) ;;
    let* a0 := rd_tf p tf_a0 in
    if a0 =? u64 (-1) then panic "exec" else ret tt) ;;
  prepare_return ;;
  let* pt := rd p p_pagetable in
  ret (MAKE_SATP pt).

(** [src] is the kernel's buffer *)
Definition either_copyout (user_dst : bool) (dst : Z) (src : list Z) : KM Z :=
  let* p := myproc in
  if user_dst then
    let* p := deref p in
    let* pt := rd p p_pagetable in
    copyout pt dst src
  else mem_op (λ m, store_bytes m dst src) ;; ret 0.
(** with the bytes written to the kernel's buffer *)
Definition either_copyin (user_src : bool) (src len : Z) : KM (Z * list Z) :=
  let* p := myproc in
  if user_src then
    let* p := deref p in
    let* pt := rd p p_pagetable in
    copyin pt src len
  else let* bs := mem_rd (λ m, load_bytes m src (Z.to_nat len)) in ret (0, bs).

Definition state_name (st : procstate) : list Z :=
  match st with
  | UNUSED => str "unused" | USED => str "used" | SLEEPING => str "sleep "
  | RUNNABLE => str "runble" | RUNNING => str "run   " | ZOMBIE => str "zombie"
  end.
(** the string in an array of characters *)
Fixpoint c_string (l : list Z) : list Z :=
  match l with [] => [] | c :: l => if c =? 0 then [] else c :: c_string l end.
Definition procdump : KM unit :=
  printf [10] [] ;;
  for_each all_procs (λ p,
    let* st := rd p p_state in
    if decide (st = UNUSED) then ret tt else
    let* pid := rd p p_pid in
    let* name := rd p p_name in
    printf (str "%d %s %s") [Aint pid; Astr (Some (state_name st)); Astr (Some (c_string name))] ;;
    printf [10] []).
End code.
