(* ===== verification/ProcInv.v ===== *)
(** * Processes keep the scheduling invariant

    Creation, end and waiting of processes preserve the invariant [kinv] of
    [SchedInv] and the contract with the scheduler.  What they may stop for
    is [soft_stop]: memory and console stops, and the two panics the kernel
    means to raise when the first process cannot go on; what they need of the
    file system is [FsOk]. *)

From S2P Require Import Prelude Kstate Spinlock Runqueue Sched SchedInv Bytes Layout Kalloc Vm Printf Quiet.
From S2P Require Import Keeps Proc.
#[local] Open Scope Z_scope.
#[local] Arguments seq : simpl never.

Definition soft_stop (e : stop) : Prop :=
  vm_stop e ∨ e = StopFrozen ∨ e = StopPanic "init exiting" ∨ e = StopPanic "exec".

(** locks that quiet operations take *)
Definition leaf_locks : gset lockid := {[kmem_lock; pr_lock; ftable_lock; itable_lock]}.

(** The file system's promises: it keeps the invariant and the contract with
    the scheduler, and [filedup], [idup] and [namei] of the root do not
    sleep. *)
Class FsOk (E : stop → Prop) {FS : FsOps} : Prop := {
  filedup_ok f : quiet E {[ftable_lock]} (filedup f);
  idup_ok i : quiet E {[itable_lock]} (idup i);
  namei_root_ok : quiet E {[itable_lock]} (namei (str "/"));
  fileclose_ok f p : pkeeps E p (fileclose f);
  iput_ok i p : pkeeps E p (iput i);
  begin_op_ok p : pkeeps E p begin_op;
  end_op_ok p : pkeeps E p end_op;
  fsinit_ok d p : pkeeps E p (fsinit d);
  kexec_ok path argv p : pkeeps E p (kexec path argv)
}.

(** ** Creation and destruction *)

(** one write to an idle entry, after which it satisfies [P'] *)
Ltac upd_held P' s' Hs' :=
  lazymatch goal with |- wp _ _ _ (bind _ _ _) _ => apply wp_bind | _ => idtac end;
  eapply (wp_upd_held _ _ _ _ _ _ P'); [eassumption|
    let r := fresh in let HP := fresh in let Hok := fresh in let Hid := fresh in
    intros r HP Hok Hid; split; [try done|split; [try done|try done]]|
  intros s' Hs'].

(** one quiet operation, with [held] *)
Ltac quiet_held L :=
  apply wp_bind; eapply (wp_quiet_held _ _ _ L); [quiet|eassumption|done|];
  match goal with Hh : held _ _ _ _ _ |- _ => clear Hh end; intros ? ? ?.

Section procs.
Context {SY : Symbols} {FS : FsOps} (E : stop → Prop) (HE : ∀ e, soft_stop e → E e).

Lemma soft_vm e : vm_stop e → E e.
Proof. intros He. apply HE. by left. Qed.
#[local] Hint Resolve soft_vm : quiet.
#[local] Hint Resolve quiet_kfree quiet_kalloc quiet_uvmcreate quiet_mappages quiet_uvmfree quiet_uvmunmap
  quiet_uvmcopy quiet_uvmalloc quiet_uvmdealloc quiet_copyout quiet_copyin : quiet.
Lemma soft_fault : E StopFault.
Proof. by apply soft_vm. Qed.
Lemma soft_fuel : E StopFuel.
Proof. by apply soft_vm. Qed.
Lemma soft_frozen : E StopFrozen.
Proof. apply HE. right. by left. Qed.
#[local] Hint Resolve soft_fault soft_fuel soft_frozen : quiet.
#[local] Hint Extern 1 (quiet _ _ fault) => apply quiet_stop : quiet.

Lemma quiet_proc_pagetable p : quiet E {[kmem_lock]} (proc_pagetable p).
Proof. unfold proc_pagetable. quiet. Qed.
Lemma quiet_proc_freepagetable pt sz : quiet E {[kmem_lock]} (proc_freepagetable pt sz).
Proof. unfold proc_freepagetable. quiet. Qed.
#[local] Hint Resolve quiet_proc_pagetable quiet_proc_freepagetable : quiet.

Lemma keeps_either_copyout G R p H u dst src :
  kmem_lock ∉ H → keeps E G R (Some p) H H (either_copyout u dst src).
Proof. intros Hk. unfold either_copyout. keeps. Qed.
Lemma keeps_either_copyin G R p H u src len :
  kmem_lock ∉ H → keeps E G R (Some p) H H (either_copyin u src len).
Proof. intros Hk. unfold either_copyin. keeps. Qed.

Section atomic.
Context (G : kstate → Prop) (R : kstate → kstate → Prop).
#[local] Abbreviation wpk := (wp E G R).

(** what [freeproc] leaves *)
Definition freed_proc (r : proc) : Prop :=
  p_state r = UNUSED ∧ p_pid r = 0 ∧ p_parent r = None ∧ p_killed r = 0 ∧
  p_trapframe r = 0 ∧ p_pagetable r = 0 ∧ p_sz r = 0.

Lemma wp_freeproc i P o H s (Q : unit → kstate → Prop) :
  held i P o H s → kmem_lock ∉ H → (∀ s', held i freed_proc o H s' → Q tt s') → wpk (freeproc i s) Q.
Proof.
  intros Hh Hn HQ. unfold freeproc. assert (Hd : H ## {[kmem_lock]}) by set_solver.
  apply wp_bind. eapply wp_rd_held; [exact Hh|]. intros r _ _. apply wp_bind.
  eapply (wp_quiet_held _ _ _ {[kmem_lock]}); [quiet|exact Hh|done|]. intros _ t1 Ht1.
  upd_held (λ r, p_trapframe r = 0) t2 Ht2.
  apply wp_bind. eapply wp_rd_held; [exact Ht2|]. intros r2 _ _. apply wp_bind.
  eapply (wp_quiet_held _ _ _ {[kmem_lock]}); [quiet|exact Ht2|done|]. intros _ t3 Ht3.
  upd_held (λ r, p_trapframe r = 0 ∧ p_pagetable r = 0) t4 Ht4.
  upd_held (λ r, p_trapframe r = 0 ∧ p_pagetable r = 0 ∧ p_sz r = 0) t5 Ht5; [naive_solver|].
  upd_held (λ r, p_pid r = 0 ∧ p_trapframe r = 0 ∧ p_pagetable r = 0 ∧ p_sz r = 0) t6 Ht6.
  set (P6 := λ r, p_pid r = 0 ∧ p_parent r = None ∧ p_trapframe r = 0 ∧ p_pagetable r = 0 ∧ p_sz r = 0).
  upd_held P6 t7 Ht7; [unfold P6; naive_solver|].
  upd_held P6 t8 Ht8. upd_held P6 t9 Ht9.
  set (P7 := λ r, p_killed r = 0 ∧ P6 r).
  upd_held P7 t10 Ht10. upd_held P7 t11 Ht11.
  upd_held freed_proc t12 Ht12.
  { unfold P7, P6, freed_proc in *. simpl. naive_solver. }
  { by apply proc_ok_state. }
  eapply (wp_upd2_held _ _ _ _ _ _ _ _ freed_proc); [exact Ht12|intros r3 HP3 (_ & _ & ?) ?; by split|].
  intros t13 Ht13. upd_held freed_proc t14 Ht14. upd_held freed_proc t15 Ht15.
  upd_held freed_proc t16 Ht16. by apply HQ.
Qed.

Lemma held_frame i P o H H' s k :
  held i P o H s → lockinv H' k → lk_frame (k_lk s) k → held i P o H' (s <| k_lk := k |>).
Proof. intros [Hinv Hr] Hk Hf. split; [by eapply kinv_lock|done]. Qed.
Lemma held_kinv i P o H s : held i P o H s → kinv o H s.
Proof. by intros [? _]. Qed.
Lemma held_mono i (P P' : proc → Prop) o H s : (∀ r, P r → P' r) → held i P o H s → held i P' o H s.
Proof. intros HP [Hinv (r & Hr & Hid & Hp)]. split; [done|]. exists r. eauto. Qed.

Lemma wp_allocpid i P o H s (Q : Z → kstate → Prop) :
  held i P o H s → pid_lock ∉ H → (∀ v s', held i P o H s' → Q v s') → wpk (allocpid s) Q.
Proof.
  intros Hh Hn HQ. pose proof Hh as [Hinv Hr]. unfold allocpid.
  apply wp_bind. eapply wp_acquire; [apply Hinv|done|]. intros k Hk Hf.
  apply wp_bind, wp_done, wp_bind, wp_done, wp_bind. eapply wp_release_add; [exact Hk|done|].
  intros k2 Hk2 Hf2. apply wp_done, HQ. destruct Hinv as [Hlk Hcur (qs & Hwf) Hsv]. split; [|done].
  split; [done|rewrite <- Hcur; apply cur_proc_frame; lk_frames| |done]. exists qs. by eapply wfq_globals.
Qed.

(** what [allocproc] returns *)
Definition new_proc (r : proc) : Prop :=
  p_state r = USED ∧ ctx_ra (p_context r) = ra_forkret ∧ p_queue_level r = 0 ∧ p_time_in_queue r = 0.
Definition alloc_post (o : option nat) (H : gset lockid) (v : option nat) (s : kstate) : Prop :=
  match v with
  | None => kinv o H s
  | Some p => (p < NPROC)%nat ∧ held p new_proc o ({[p_lock p]} ∪ H) s
  end.

Lemma wp_allocproc_found p o H s (Q : option nat → kstate → Prop) :
  held p (λ r, p_state r = UNUSED) o ({[p_lock p]} ∪ H) s → (p < NPROC)%nat →
  p_lock p ∉ H → H ## {[kmem_lock; pid_lock]} →
  (∀ v s', alloc_post o H v s' → Q v s') → wpk (allocproc_found p s) Q.
Proof.
  intros Hh Hp Hpl Hd HQ. unfold allocproc_found.
  assert (Hk : {[p_lock p]} ∪ H ## {[kmem_lock]}) by set_solver.
  assert (Hfail : ∀ P s', held p P o ({[p_lock p]} ∪ H) s' →
    wpk ((freeproc p ;; release (p_lock p) ;; ret None) s') Q).
  { intros P s' Hs'. apply wp_bind. eapply wp_freeproc; [exact Hs'|set_solver|]. intros s2 [Hs2 _].
    apply wp_bind. eapply wp_release_kinv; [exact Hs2|done|]. intros k Hkk. apply wp_done. by apply HQ. }
  apply wp_bind. eapply wp_allocpid; [exact Hh|set_solver|]. intros pid t1 Ht1.
  upd_held (λ r, p_state r = UNUSED) t2 Ht2. upd_held (λ r, p_state r = USED) t3 Ht3; [by apply proc_ok_state|].
  apply wp_bind. eapply (wp_quiet_held _ _ _ {[kmem_lock]}); [quiet|exact Ht3|done|]. intros tf t4 Ht4.
  upd_held (λ r, p_state r = USED) t5 Ht5. case_match; [by eapply Hfail|].
  apply wp_bind. eapply (wp_quiet_held _ _ _ {[kmem_lock]}); [quiet|exact Ht5|done|]. intros pt t6 Ht6.
  upd_held (λ r, p_state r = USED) t7 Ht7. case_match; [by eapply Hfail|].
  eapply (wp_upd2_held _ _ _ _ _ _ _ _ (λ r, p_state r = USED ∧ ctx_ra (p_context r) = ra_forkret)).
  { exact Ht7. } { intros r HP (? & ? & _) Hid. by split_and!. }
  intros t8 Ht8. eapply (wp_upd2_held _ _ _ _ _ _ _ _ new_proc); [exact Ht8| |].
  { intros r [??] (_ & _ & ?) Hid. by split_and!. }
  intros t9 Ht9. upd_held new_proc t10 Ht10. upd_held new_proc t11 Ht11. upd_held new_proc t12 Ht12.
  apply wp_done, HQ. by split.
Qed.

Lemma wp_allocproc o H s (Q : option nat → kstate → Prop) :
  kinv o H s → (∀ i, p_lock i ∉ H) → H ## {[kmem_lock; pid_lock]} →
  (∀ v s', alloc_post o H v s' → Q v s') → wpk (allocproc s) Q.
Proof.
  intros Hinv Hpl Hd HQ. unfold allocproc. apply wp_bind.
  apply (wp_for_find _ _ _ _ _ (λ _ s', kinv o H s')); [done| |].
  - intros dn p rst s' Heq Hinv'. apply seq_middle in Heq as [_ Hlt].
    pose proof Hinv' as [_ _ (qs & Hwf) _]. destruct (wfq_lookup _ _ _ _ Hwf Hlt) as [r Hr].
    apply wp_bind. eapply wp_acquire_kinv; [exact Hinv'|done|]. intros k Hk.
    apply wp_bind. eapply wp_rd; [done|]. case_decide as Hst.
    + apply wp_done. eapply (wp_allocproc_found p o H); [|done|done|done|done].
      split; [done|]. exists r. split_and!; [done|by rewrite Hst|done].
    + apply wp_bind. eapply wp_release_kinv; [exact Hk|done|]. intros k2 Hk2. by apply wp_done.
  - intros s' Hs'. apply wp_done. by apply HQ.
Qed.

(** an idle entry becomes runnable *)
Lemma wfq_ready t qs o i r :
  wfq t qs o → procs t !! i = Some r → is_live (p_state r) = false → ctx_ra (p_context r) ≠ ra_zero →
  wfq (t <| procs ::= <[i := r <| p_state := RUNNABLE |>]> |>) qs o ∧ i ∉ concat qs.
Proof.
  intros Hwf Hi Hid Hc. destruct (wfq_proc _ _ _ Hwf _ _ Hi) as ((? & ? & _) & Hrun & Hq).
  assert (Ho : o ≠ Some i) by (intros Ho%Hrun; by rewrite Ho in Hid).
  split; [|intros Hin%Hq; by rewrite Hin in Hid].
  eapply (wfq_upd _ _ o o); [done|done|done| | |done|done]; [by split; [|split]|]. by split.
Qed.

Lemma wp_ready_enqueue {B} np o H s (k : KM B) (Q : B → kstate → Prop) :
  held np new_proc o H s → (∀ s', kinv o H s' → wpk (k s') Q) →
  wpk ((wr np p_state RUNNABLE ;; enqueue np ;; k) s) Q.
Proof.
  intros [[Hlk Hcur (qs & Hwf) Hsv] (r & Hr & Hid & Hst & Hc & _)] HQ.
  assert (Hlt : (np < length (procs (k_pt s)))%nat) by (by eapply lookup_lt_Some).
  destruct (wfq_ready _ _ _ _ _ Hwf Hr Hid) as [Hwf' Hnin]; [by rewrite Hc|].
  apply wp_bind. eapply wp_upd_proc; [done|]. apply wp_bind.
  eapply wp_enqueue_wf; [exact Hwf'|by simpl; rewrite list_lookup_insert_eq|done|done|].
  intros t Ht [Hcore _]. apply HQ. split; [done|done|by eexists|].
  eapply saved_ok_core; [|exact Hcore]. eapply saved_ok_upd; [done..|]. simpl. by rewrite Hc.
Qed.

Context {FSok : FsOk E}.
#[local] Hint Resolve filedup_ok idup_ok : quiet.

Lemma wp_fork_files p np o H s (Q : unit → kstate → Prop) :
  held np new_proc o H s → ftable_lock ∉ H → (∀ s', held np new_proc o H s' → Q tt s') →
  wpk (fork_files p np s) Q.
Proof.
  intros Hh Hn HQ. eapply wp_mono; [|apply (wp_for_each _ _ _ (seq 0 NOFILE) _ (λ _ s', held np new_proc o H s'))].
  - intros [] s'. apply HQ.
  - done.
  - intros dn fd rst s' _ Hs'. assert (Hd : H ## {[ftable_lock]}) by set_solver.
    apply wp_bind. eapply (wp_quiet_held _ _ _ {[ftable_lock]}); [quiet|exact Hs'|done|]. intros fs t1 Ht1.
    apply wp_bind. eapply (wp_quiet_held _ _ _ {[ftable_lock]}); [quiet|exact Ht1|done|]. intros [f|] t2 Ht2;
      [|by apply wp_done].
    apply wp_bind. eapply (wp_quiet_held _ _ _ {[ftable_lock]}); [quiet|exact Ht2|done|]. intros f2 t3 Ht3.
    by upd_held new_proc t4 Ht4.
Qed.

Lemma wp_fork_copy p np sz o s (Q : unit → kstate → Prop) :
  held np new_proc o {[p_lock np]} s → (∀ s', held np new_proc o {[p_lock np]} s' → Q tt s') →
  wpk (fork_copy p np sz s) Q.
Proof.
  intros Hh HQ. unfold fork_copy, wr_tf. set (L := {[itable_lock]} : gset lockid).
  assert (Hd : ({[p_lock np]} : gset lockid) ## L) by set_solver.
  upd_held new_proc t1 Ht1. clear Hh. do 4 quiet_held L.
  apply wp_bind. eapply wp_fork_files; [eassumption|set_solver|]. intros t2 Ht2.
  match goal with Hh : held _ _ _ _ ?s |- _ => assert_fails (constr_eq s t2); clear Hh end.
  do 3 quiet_held L. upd_held new_proc t3 Ht3.
  match goal with Hh : held _ _ _ _ ?s |- _ => assert_fails (constr_eq s t3); clear Hh end.
  do 3 quiet_held L. upd_held new_proc t4 Ht4. by apply HQ.
Qed.

Lemma wp_fork_start p np o s (Q : Z → kstate → Prop) :
  held np new_proc o {[p_lock np]} s → (∀ v s', kinv o ∅ s' → Q v s') → wpk (fork_start p np s) Q.
Proof.
  intros Hh HQ. unfold fork_start. apply wp_bind. eapply wp_rd_held; [exact Hh|]. intros r _ _.
  apply wp_bind. eapply (wp_release_add _ _ _ _ _ ∅); [rewrite (right_id_L ∅ (∪)); apply Hh|set_solver|].
  intros k1 Hk1 Hf1. apply (held_frame _ _ _ _ ∅ _ k1) in Hh; [|done|done].
  apply wp_bind. eapply (wp_acquire _ _ _ _ _ ∅); [done|set_solver|]. intros k2 Hk2 Hf2.
  apply (held_frame _ _ _ _ ({[wait_lock]} ∪ ∅) _ k2) in Hh; [|done|done].
  upd_held new_proc t3 Ht3. clear Hh.
  apply wp_bind. eapply (wp_release_add _ _ _ _ _ ∅); [apply Ht3|set_solver|].
  intros k4 Hk4 Hf4. apply (held_frame _ _ _ _ ∅ _ k4) in Ht3; [|done|done].
  apply wp_bind. eapply (wp_acquire _ _ _ _ _ ∅); [done|set_solver|]. intros k5 Hk5 Hf5.
  apply (held_frame _ _ _ _ ({[p_lock np]} ∪ ∅) _ k5) in Ht3; [|done|done].
  eapply wp_ready_enqueue; [exact Ht3|]. intros t6 Ht6.
  apply wp_bind. eapply wp_release_kinv; [exact Ht6|set_solver|]. intros k7 Hk7. by apply wp_done, HQ.
Qed.

Lemma wp_kfork p s (Q : Z → kstate → Prop) :
  kinv (Some p) ∅ s → (∀ v s', kinv (Some p) ∅ s' → Q v s') → wpk (kfork s) Q.
Proof.
  intros Hinv HQ. unfold kfork. apply wp_bind. eapply (wp_quiet_kinv _ _ _ ∅); [quiet|done|set_solver|].
  intros p' t1 Ht1. apply wp_bind. eapply (wp_quiet_kinv _ _ _ ∅); [quiet|exact Ht1|set_solver|]. intros q t2 Ht2.
  apply wp_bind. eapply wp_allocproc; [exact Ht2|set_solver|set_solver|].
  intros [np|] t3; [|by intros; apply wp_done, HQ].
  intros [Hnp Ht3]. rewrite (right_id_L ∅ (∪)) in Ht3. set (L := {[kmem_lock]} : gset lockid).
  assert (Hd : ({[p_lock np]} : gset lockid) ## L) by set_solver.
  do 4 quiet_held L. case_match.
  - apply wp_bind. eapply wp_freeproc; [eassumption|set_solver|]. intros t5 [Ht5 _].
    apply wp_bind. eapply (wp_release_kinv _ _ _ _ _ ∅); [by rewrite (right_id_L ∅ (∪))|set_solver|].
    intros k Hk. by apply wp_done, HQ.
  - apply wp_bind. eapply wp_fork_copy; [eassumption|]. intros t5 Ht5. by eapply wp_fork_start.
Qed.

End atomic.

(** ** The end of a process *)

Section process.
Context {FSok : FsOk E} (p : nat).

#[local] Hint Resolve fileclose_ok iput_ok begin_op_ok end_op_ok fsinit_ok kexec_ok : keeps.

Lemma keeps_exit_files : pkeeps E p (exit_files p).
Proof. unfold exit_files. keeps. Qed.
#[local] Hint Resolve keeps_exit_files : keeps.

(** the state of a process that becomes a zombie *)
Lemma zombie_leaves s r status :
  kinv (Some p) ({[p_lock p]} ∪ {[wait_lock]}) s → procs (k_pt s) !! p = Some r →
  let t := (k_pt s) <| procs ::= <[p := r <| p_xstate := status |> <| p_state := ZOMBIE |>]> |> in
  ∃ qs, wfq t qs None ∧ (p ∉ concat qs) ∧ saved_ok (Some p) (k_saved s) t.
Proof.
  intros [Hlk Hcur (qs & Hwf) Hsv] Hr. exists qs.
  destruct (wfq_proc _ _ _ Hwf _ _ Hr) as (Hok & _ & _). split_and!.
  - eapply wfq_upd; [done|done|done| | |naive_solver|].
    + by apply (proc_ok_state (r <| p_xstate := status |>)).
    + by simpl; split; [|done].
    + intros Hin. by apply wfq_cur_notin in Hwf.
  - by apply wfq_cur_notin in Hwf.
  - eapply saved_ok_upd; [done..|]. by right.
Qed.

(** [kexit] never returns, and its last [swtch] is never resumed *)
Lemma wp_kexit {A} status s (Q : A → kstate → Prop) :
  kinv (Some p) ∅ s → wp_proc E p (kexit status s) Q.
Proof.
  intros Hinv. unfold kexit, wp_proc. pose proof (kinv_lt _ _ _ Hinv) as Hp.
  apply wp_bind. eapply wp_myproc; [apply Hinv|]. intros k Hk Hf.
  rewrite (kinv_cur _ _ _ Hinv). apply wp_bind, wp_done. case_decide.
  { apply HE. right. right. by left. }
  apply wp_bind, wp_done. assert (H1 : kinv (Some p) ∅ (s <| k_lk := k |>)) by (by eapply kinv_frame).
  apply wp_bind, keeps_exit_files; [done|]. intros [] t1 Ht1.
  apply wp_bind, begin_op_ok; [done|]. intros [] t2 Ht2.
  apply wp_bind. eapply wp_rd_kinv; [done|done|]. intros c.
  apply wp_bind. eapply (wp_quiet_kinv _ _ _ ∅); [quiet|done|set_solver|]. intros cwd t3 Ht3.
  apply wp_bind, iput_ok; [done|]. intros [] t4 Ht4.
  apply wp_bind, end_op_ok; [done|]. intros [] t5 Ht5.
  apply wp_bind. eapply wp_upd_private; [done|done|by intros r|]. intros t6 Ht6.
  apply wp_bind. eapply wp_acquire_kinv; [done|set_solver|]. intros k7 Ht7. rewrite (right_id_L ∅ (∪)) in Ht7.
  apply wp_bind. eapply wp_reparent_kinv; [done|set_solver|]. intros t8 Ht8.
  apply wp_bind. eapply wp_rd_kinv; [done|done|]. intros par.
  apply wp_bind. eapply wp_wakeup_kinv; [done|set_solver|]. intros t9 Ht9 _ _ _ _.
  apply wp_bind. eapply wp_acquire_kinv; [done|set_solver|]. intros k10 Ht10.
  set (s10 := t9 <| k_lk := k10 |>) in *. pose proof Ht10 as [_ _ (qs0 & Hwf0) _].
  destruct (wfq_lookup _ _ _ _ Hwf0 Hp) as [r Hr].
  assert (Hlt : (p < length (procs (k_pt s10)))%nat) by (by eapply lookup_lt_Some).
  destruct (zombie_leaves s10 r status Ht10 Hr) as (qs & Hwf & Hnin & Hsv).
  apply wp_bind. eapply wp_upd_proc; [done|].
  apply wp_bind. eapply wp_upd_proc; [by simpl; rewrite list_lookup_insert_eq|].
  apply wp_bind. eapply (wp_release_add _ _ _ _ _ {[p_lock p]});
    [rewrite (comm_L (∪)); apply Ht10|set_solver|]. intros k11 Hk11 Hf11.
  rewrite set_proc_twice. apply wp_bind. eapply (wp_sched E p _ qs); [done| |done|done|done|done|].
  - rewrite <- (kinv_cur _ _ _ Ht10). by apply cur_proc_frame.
  - intros s' (r' & Hr' & Hl) _. exfalso. simpl in Hr'. rewrite list_lookup_insert_eq in Hr' by done.
    apply (inj Some) in Hr' as <-. done.
Qed.

(** ** Waiting *)

(** what the scan of [kwait] leaves *)
Definition scan_post (r : Z + bool) : kstate → Prop :=
  match r with inl _ => kinv (Some p) ∅ | inr _ => kinv (Some p) {[wait_lock]} end.

(** the branch of the scan that finds a zombie *)
Lemma wp_kwait_reap pp addr r s (Q : Z + bool → kstate → Prop) :
  kinv (Some p) ({[p_lock pp]} ∪ {[wait_lock]}) s → (p < NPROC)%nat → (pp < NPROC)%nat →
  procs (k_pt s) !! pp = Some r → p_state r = ZOMBIE → (∀ v s', scan_post v s' → Q v s') →
  wp_proc E p ((let* pid := rd pp p_pid in
          let* xstate := rd pp p_xstate in
          let* pt := rd p p_pagetable in
          let* r := if negb (addr =? 0) then copyout pt addr (int_bytes xstate) else ret 0 in
          if r <? 0 then release (p_lock pp) ;; release wait_lock ;; ret (inl (-1))
          else freeproc pp ;; release (p_lock pp) ;; release wait_lock ;; ret (inl pid)) s) Q.
Proof.
  intros Hinv Hp Hpp Hr Hz HQ. unfold wp_proc.
  set (H := {[p_lock pp]} ∪ {[wait_lock]} : gset lockid) in *. assert (Hd : H ## {[kmem_lock]}) by set_solver.
  assert (Hh : held pp (λ _, True) (Some p) H s).
  { split; [done|]. exists r. by rewrite Hz. }
  assert (Hend : ∀ v s', kinv (Some p) H s' → wp_proc E p ((release (p_lock pp) ;; release wait_lock ;; ret (inl v)) s') Q).
  { intros v s' Hs'. apply wp_bind. eapply wp_release_kinv; [exact Hs'|set_solver|]. intros k1 H1.
    apply wp_bind. eapply (wp_release_kinv _ _ _ _ _ ∅); [by rewrite (right_id_L ∅ (∪))|set_solver|].
    intros k2 H2. apply wp_done. by apply HQ. }
  do 4 quiet_held ({[kmem_lock]} : gset lockid). case_match; [by eapply Hend, held_kinv|].
  apply wp_bind. eapply wp_freeproc; [eassumption|set_solver|]. intros t5 [Ht5 _]. by apply Hend.
Qed.

Lemma wp_kwait_scan addr pps : ∀ hk s (Q : Z + bool → kstate → Prop),
  kinv (Some p) {[wait_lock]} s → (∀ x, x ∈ pps → (x < NPROC)%nat) → (∀ v s', scan_post v s' → Q v s') →
  wp_proc E p (kwait_scan p addr pps hk s) Q.
Proof.
  induction pps as [|pp pps IH]; intros hk s Q Hs Hpps HQ; [by apply wp_done, HQ|].
  assert (Hpp : (pp < NPROC)%nat) by (apply Hpps; set_solver). pose proof (kinv_lt _ _ _ Hs) as Hp.
  assert (Htl : ∀ x, x ∈ pps → (x < NPROC)%nat) by set_solver. cbn [kwait_scan]. unfold wp_proc.
  apply wp_bind. eapply wp_rd_kinv; [done|done|]. intros par. case_decide; [|by apply IH].
  apply wp_bind. eapply wp_acquire_kinv; [done|set_solver|]. intros k Hk.
  pose proof Hk as [_ _ (qs & Hwf) _]. destruct (wfq_lookup _ _ _ _ Hwf Hpp) as [r Hr].
  apply wp_bind. eapply wp_rd; [done|]. case_decide; [by eapply wp_kwait_reap|].
  apply wp_bind. eapply wp_release_kinv; [done|set_solver|]. intros k2 Hk2. by apply IH.
Qed.

Lemma all_procs_lt x : x ∈ all_procs → (x < NPROC)%nat.
Proof. unfold all_procs. rewrite elem_of_seq. lia. Qed.
Lemma wp_kwait_loop fuel addr : ∀ s (Q : Z → kstate → Prop),
  kinv (Some p) {[wait_lock]} s → (∀ v s', kinv (Some p) ∅ s' → Q v s') →
  wp_proc E p (kwait_loop fuel p addr s) Q.
Proof.
  induction fuel as [|fuel IH]; intros s Q Hs HQ; [apply soft_fuel|]. cbn [kwait_loop].
  pose proof (kinv_lt _ _ _ Hs) as Hp.
  assert (Hend : ∀ v s', kinv (Some p) {[wait_lock]} s' → wp_proc E p ((release wait_lock ;; ret v) s') Q).
  { intros v s' Hs'. apply wp_bind. eapply (wp_release_kinv _ _ _ _ _ ∅);
      [by rewrite (right_id_L ∅ (∪))|set_solver|]. intros k Hk. by apply wp_done, HQ. }
  apply wp_proc_bind, wp_kwait_scan; [done|apply all_procs_lt|]. intros [v|hk] t Ht; [by apply wp_done, HQ|].
  apply wp_bind. apply wp_mono with (λ _ s', kinv (Some p) {[wait_lock]} s').
  - intros k s2 Hs2. case_match; [by apply Hend|]. apply wp_bind, wp_sleep; [done|done|]. intros s3 Hs3. by apply IH.
  - destruct hk; [|by apply wp_done]. eapply wp_killed_kinv; [done|done|set_solver|done].
Qed.
Lemma keeps_kwait fuel addr : pkeeps E p (kwait fuel addr).
Proof.
  unfold kwait. apply keeps_myproc, keeps_deref. eapply keeps_bind; [apply keeps_acquire; set_solver|].
  intros _ s Q Hs HQ. apply wp_kwait_loop; [|done]. by rewrite (right_id_L ∅ (∪)) in Hs.
Qed.


(** ** The rest of [proc.c] *)

Lemma keeps_growproc n : pkeeps E p (growproc n).
Proof. unfold growproc. keeps. Qed.

Lemma keeps_prepare_return : pkeeps E p prepare_return.
Proof. unfold prepare_return, wr_tf, rd_tf, r_sstatus. keeps. Qed.

(** a new process starts in [forkret] with its lock held *)
Lemma wp_forkret s (Q : Z → kstate → Prop) :
  resumed p s → (∀ v s', kinv (Some p) ∅ s' → Q v s') → wp_proc E p (forkret s) Q.
Proof.
  intros Hs HQ. unfold forkret, wp_proc. apply wp_bind. eapply wp_myproc; [apply Hs|]. intros k Hk Hf.
  rewrite (kinv_cur _ _ _ Hs). apply (kinv_frame _ _ _ k) in Hs; [|done|done].
  apply wp_bind, wp_done, wp_bind. eapply (wp_release_kinv _ _ _ _ _ ∅);
    [by rewrite (right_id_L ∅ (∪))|set_solver|]. intros k2 Hk2.
  assert (Hrest : pkeeps E p (let* fst := rd_pt first in
    when (negb (fst =? 0)) (fsinit ROOTDEV ;; wr_pt first 0 ;;
      let* argc := kexec (str "/init") [str "/init"] in
      wr_tf p tf_a0 (u64 argc) ;; let* a0 := rd_tf p tf_a0 in
      if a0 =? u64 (-1) then panic "exec" else ret tt) ;;
    prepare_return ;; let* pt := rd p p_pagetable in ret (MAKE_SATP pt))).
  { unfold wr_tf, rd_tf. pose proof keeps_prepare_return. keeps.
    apply keeps_stop, HE. by do 3 right. }
  by apply Hrest.
Qed.


End process.
End procs.
