(* ===== verification/Console.v ===== *)
(** * The console: [kernel/uart.c], [kernel/console.c] and [kernel/plic.c]

    Input arrives one character per UART interrupt and is edited in the ring
    buffer [cons]; [consoleread] takes whole lines out of it.  Output goes
    through [uartwrite], which sleeps until the transmitter is free.  The
    PLIC is a pending interrupt number and writes to its registers. *)

From S2P Require Import Prelude Kstate Spinlock Runqueue Sched Bytes Layout Kalloc Vm Printf Proc.
#[local] Open Scope Z_scope.

(** ** [kernel/uart.c] *)

Definition uartinit : KM unit :=
  WriteReg IER 0 ;;
  WriteReg LCR (Z.shiftl 1 7) ;;
  WriteReg 0 3 ;;
  WriteReg 1 0 ;;
  WriteReg LCR 3 ;;
  WriteReg FCR (Z.lor 1 (Z.shiftl 3 1)) ;;
  WriteReg IER (Z.lor 2 1) ;;
  initlock tx_lock.

(** the inner loop of [uartwrite] *)
Fixpoint uartwrite_wait (fuel : nat) : KM unit :=
  match fuel with
  | O => stop_with StopFuel
  | S fuel =>
      let* busy := rd_dev tx_busy in
      if busy =? 0 then ret tt else sleep ch_tx tx_lock ;; uartwrite_wait fuel
  end.
Definition uartwrite (fuel : nat) (buf : list Z) : KM unit :=
  acquire tx_lock ;;
  for_each buf (λ c,
    uartwrite_wait fuel ;;
    WriteReg THR c ;;
    wr_dev tx_busy 1) ;;
  release tx_lock.

Definition uartgetc : KM Z :=
  let* rx := rd_dev uart_rx in
  match rx with
  | c :: rx => wr_dev uart_rx rx ;; ret c
  | [] => ret (-1)
  end.

(** ** [kernel/console.c] *)

(** [C(x)] *)
Definition ctrl (x : string) : Z := chr x - chr "@".
Definition cons_at (i : Z) : KM Z :=
  let* b := rd_dev cons_buf in deref (b !! Z.to_nat (i mod INPUT_BUF_SIZE)).

(** kill line: at most a buffer full of characters *)
Fixpoint cons_kill_line (fuel : nat) : KM unit :=
  match fuel with
  | O => stop_with StopFuel
  | S fuel =>
      let* e := rd_dev cons_e in
      let* w := rd_dev cons_w in
      if e =? w then ret tt else
      let* c := cons_at (u32 (e - 1)) in
      if c =? 10 then ret tt else
      wr_dev cons_e (u32 (e - 1)) ;;
      consputc BACKSPACE ;;
      cons_kill_line fuel
  end.

Definition consoleintr (c : Z) : KM unit :=
  acquire cons_lock ;;
  (if c =? ctrl "P" then procdump
   else if c =? ctrl "U" then cons_kill_line (S (Z.to_nat INPUT_BUF_SIZE))
   else if (c =? ctrl "H") || (c =? 127) then
     let* e := rd_dev cons_e in
     let* w := rd_dev cons_w in
     when (negb (e =? w)) (
       wr_dev cons_e (u32 (e - 1)) ;;
       consputc BACKSPACE)
   else
     let* e := rd_dev cons_e in
     let* r := rd_dev cons_r in
     when (negb (c =? 0) && (u32 (e - r) <? INPUT_BUF_SIZE)) (
       let c := if c =? 13 then 10 else c in
       consputc c ;;
       modify (λ s, s <| k_dev ::= λ d, d <| cons_buf ::= <[Z.to_nat (e mod INPUT_BUF_SIZE) := u8 c]> |>
                                          <| cons_e := u32 (e + 1) |> |>) ;;
       let* e := rd_dev cons_e in
       let* r := rd_dev cons_r in
       when ((c =? 10) || (c =? ctrl "D") || (u32 (e - r) =? INPUT_BUF_SIZE)) (
         wr_dev cons_w e ;;
         wakeup (Some ch_cons_r)))) ;;
  release cons_lock.

Definition consoleinit : KM unit :=
  initlock cons_lock ;;
  uartinit ;;
  wr_dev devsw_console true.

(** [uartintr]: each turn takes a character out of the UART *)
Fixpoint uartintr_loop (fuel : nat) : KM unit :=
  match fuel with
  | O => stop_with StopFuel
  | S fuel =>
      let* c := uartgetc in
      if c =? -1 then ret tt else consoleintr c ;; uartintr_loop fuel
  end.
Definition uartintr : KM unit :=
  acquire tx_lock ;;
  let* idle := rd_dev uart_idle in
  when idle (
    wr_dev tx_busy 0 ;;
    wakeup (Some ch_tx)) ;;
  release tx_lock ;;
  let* rx := rd_dev uart_rx in
  uartintr_loop (S (length rx)).

Section code.
Context {SY : Symbols}.

(** [consolewrite]: batches of 32 bytes, [n] bytes from [src] *)
Fixpoint consolewrite_loop (fuel : nat) (user_src : bool) (src i n : Z) : KM Z :=
  match fuel with
  | O => stop_with StopFuel
  | S fuel' =>
      if i <? n then
        let nn := if n - i <? 32 then n - i else 32 in
        let* r := either_copyin user_src (u64 (src + i)) nn in
        if r.1 =? -1 then ret i else
        uartwrite fuel r.2 ;;
        consolewrite_loop fuel' user_src src (i + nn) n
      else ret i
  end.
Definition consolewrite (fuel : nat) (user_src : bool) (src n : Z) : KM Z :=
  consolewrite_loop fuel user_src src 0 n.

(** [consoleread]: a turn is one wait or one character; [target - n] bytes
    have been copied *)
Fixpoint consoleread_loop (fuel : nat) (user_dst : bool) (dst n target : Z) : KM Z :=
  match fuel with
  | O => stop_with StopFuel
  | S fuel =>
      if 0 <? n then
        let* r := rd_dev cons_r in
        let* w := rd_dev cons_w in
        if r =? w then
          let* p := myproc in
          let* p := deref p in
          let* k := killed p in
          if negb (k =? 0) then release cons_lock ;; ret (-1) else
          sleep ch_cons_r cons_lock ;;
          consoleread_loop fuel user_dst dst n target
        else
        let* c := cons_at r in
        wr_dev cons_r (u32 (r + 1)) ;;
        if c =? ctrl "D" then
          when (n <? target) (wr_dev cons_r r) ;;
          release cons_lock ;;
          ret (target - n)
        else
        let* x := either_copyout user_dst dst [c] in
        if x =? -1 then release cons_lock ;; ret (target - n) else
        if c =? 10 then release cons_lock ;; ret (target - (n - 1)) else
        consoleread_loop fuel user_dst (u64 (dst + 1)) (n - 1) target
      else release cons_lock ;; ret (target - n)
  end.
Definition consoleread (fuel : nat) (user_dst : bool) (dst n : Z) : KM Z :=
  acquire cons_lock ;;
  consoleread_loop fuel user_dst dst n n.
End code.

(** ** [kernel/plic.c] *)

Definition PLIC_SENABLE (hart : Z) : Z := PLIC + 0x2080 + hart * 0x100.
Definition PLIC_SPRIORITY (hart : Z) : Z := PLIC + 0x201000 + hart * 0x2000.
Definition PLIC_SCLAIM (hart : Z) : Z := PLIC + 0x201004 + hart * 0x2000.

Definition plicinit : KM unit :=
  mmio_write (PLIC + UART0_IRQ * 4) 1 ;;
  mmio_write (PLIC + VIRTIO0_IRQ * 4) 1.
Definition plicinithart : KM unit :=
  let* hart := cpuid in
  mmio_write (PLIC_SENABLE (Z.of_nat hart)) (Z.lor (Z.shiftl 1 UART0_IRQ) (Z.shiftl 1 VIRTIO0_IRQ)) ;;
  mmio_write (PLIC_SPRIORITY (Z.of_nat hart)) 0.
(** the claim register reads as the pending interrupt *)
Definition plic_claim : KM Z := rd_dev plic_irq.
Definition plic_complete (irq : Z) : KM unit :=
  let* hart := cpuid in
  mmio_write (PLIC_SCLAIM (Z.of_nat hart)) (u32 irq).
