(* ===== verification/Syscall.v ===== *)
(** * System calls: [kernel/syscall.c] and [kernel/sysproc.c]

    Arguments are read from the trap frame of the calling process, and the
    result goes to its register [a0].  The system calls of
    [kernel/sysfile.c] are the class [SysFileOps].  [fuel] bounds the number
    of times [wait] and [pause] go back to sleep. *)

From stdpp Require Import list_numbers.
From S2P Require Import Prelude Kstate Spinlock Runqueue Sched Bytes Layout Kalloc Vm Printf Proc.
#[local] Open Scope Z_scope.

Section args.
Context {SY : Symbols}.

Definition fetchaddr (addr : Z) : KM (Z * Z) :=
  let* p := curproc in
  let* sz := rd p p_sz in
  if (sz <=? addr) || (sz <? u64 (addr + 8)) then ret (-1, 0) else
  let* pt := rd p p_pagetable in
  let* r := copyin pt addr 8 in
  if negb (r.1 =? 0) then ret (-1, 0) else
  ret (0, little_endian_to_Z 8 r.2).

(** the length or -1, and the contents of [buf] *)
Definition fetchstr (addr max : Z) : KM (Z * list Z) :=
  let* p := curproc in
  let* pt := rd p p_pagetable in
  let* r := copyinstr pt addr max in
  if r.1 <? 0 then ret (-1, r.2) else
  let* n := deref (strlen r.2 0) in
  ret (n, r.2).

Definition argraw (n : Z) : KM Z :=
  let* p := curproc in
  if n =? 0 then rd_tf p tf_a0
  else if n =? 1 then rd_tf p tf_a1
  else if n =? 2 then rd_tf p tf_a2
  else if n =? 3 then rd_tf p tf_a3
  else if n =? 4 then rd_tf p tf_a4
  else if n =? 5 then rd_tf p tf_a5
  else panic "argraw".
Definition argint (n : Z) : KM Z := let* v := argraw n in ret (s32 v).
Definition argaddr (n : Z) : KM Z := argraw n.
Definition argstr (n max : Z) : KM (Z * list Z) :=
  let* addr := argaddr n in fetchstr addr max.
End args.

(** ** [kernel/sysproc.c] *)

Definition SBRK_EAGER : Z := 1.

(** the bytes of [struct procinfo] *)
Definition procinfo_bytes (r : proc) (name : list Z) : list Z :=
  Z_to_little_endian 4 8 (p_pid r) ++
  Z_to_little_endian 4 8
    (match p_state r with UNUSED => 0 | USED => 1 | SLEEPING => 2 | RUNNABLE => 3 | RUNNING => 4 | ZOMBIE => 5 end) ++
  Z_to_little_endian 4 8 (p_queue_level r) ++
  Z_to_little_endian 4 8 (p_time_in_queue r) ++
  Z_to_little_endian 8 8 (p_time_slices r) ++
  name.
(** the bytes of [struct mlfq_stats] *)
Definition stats_bytes (x : mlfq_stats) : list Z :=
  ([total_schedules x; total_boosts x; total_demotions x] ++ level_queue_count x ++ level_schedules x)
    ≫= Z_to_little_endian 8 8.

Section sysproc.
Context {SY : Symbols} {FS : FsOps} (fuel : nat).

Definition sys_exit : KM Z := let* n := argint 0 in kexit n.
Definition sys_getpid : KM Z := let* p := curproc in rd p p_pid.
Definition sys_fork : KM Z := kfork.
Definition sys_wait : KM Z := let* p := argaddr 0 in kwait fuel p.

Definition sys_sbrk : KM Z :=
  let* n := argint 0 in
  let* t := argint 1 in
  let* p := curproc in
  let* addr := rd p p_sz in
  if (t =? SBRK_EAGER) || (n <? 0) then
    let* r := growproc n in
    if r <? 0 then ret (-1) else ret addr
  else
    if u64 (addr + n) <? addr then ret (-1) else
    if TRAPFRAME <? u64 (addr + n) then ret (-1) else
    upd_proc p (λ r, r <| p_sz ::= λ sz, u64 (sz + n) |>) ;;
    ret addr.

Fixpoint pause_loop (fuel : nat) (ticks0 n : Z) : KM Z :=
  match fuel with
  | O => stop_with StopFuel
  | S fuel =>
      let* t := rd_pt ticks in
      if u32 (t - ticks0) <? u32 n then
        let* p := curproc in
        let* k := killed p in
        if negb (k =? 0) then release tickslock ;; ret (-1) else
        sleep ch_ticks tickslock ;;
        pause_loop fuel ticks0 n
      else release tickslock ;; ret 0
  end.
Definition sys_pause : KM Z :=
  let* n := argint 0 in
  let n := if n <? 0 then 0 else n in
  acquire tickslock ;;
  let* ticks0 := rd_pt ticks in
  pause_loop fuel ticks0 n.

Definition sys_kill : KM Z := let* pid := argint 0 in kkill pid.

Definition sys_uptime : KM Z :=
  acquire tickslock ;;
  let* xticks := rd_pt ticks in
  release tickslock ;;
  ret xticks.

(** [junk] is what the uninitialised array [info.name] holds *)
Definition sys_getprocinfo (junk : list Z) : KM Z :=
  let* p := curproc in
  let* addr := argaddr 0 in
  let* r := proc_at p in
  let* name := deref (safestrcpy junk 0 (p_name r) 0 16) in
  let* x := copyout (p_pagetable r) addr (procinfo_bytes r name) in
  if x <? 0 then ret (-1) else ret 0.

Definition boostproc_find (pid : Z) : KM (option unit) :=
  for_find all_procs (λ p,
    acquire (p_lock p) ;;
    let* pp := rd p p_pid in
    if pp =? pid then
      wr p p_queue_level 0 ;;
      wr p p_time_in_queue 0 ;;
      release (p_lock p) ;;
      ret (Some tt)
    else
      release (p_lock p) ;;
      ret None).
Definition sys_boostproc : KM Z :=
  let* pid := argint 0 in
  if pid =? 0 then priority_boost ;; ret 0 else
  let* r := boostproc_find pid in
  match r with Some _ => ret 0 | None => ret (-1) end.

Definition sys_getschedulerstats : KM Z :=
  let* stats_ptr := argaddr 0 in
  acquire stats_lock ;;
  let* stats := rd_pt scheduler_stats in
  release stats_lock ;;
  let* p := curproc in
  let* pt := rd p p_pagetable in
  let* x := copyout pt stats_ptr (stats_bytes stats) in
  if x <? 0 then ret (-1) else ret 0.
End sysproc.

(** ** [syscall] *)

(** the system calls of [kernel/sysfile.c] *)
Class SysFileOps := {
  sys_pipe : KM Z; sys_read : KM Z; sys_exec : KM Z; sys_fstat : KM Z; sys_chdir : KM Z;
  sys_dup : KM Z; sys_open : KM Z; sys_write : KM Z; sys_mknod : KM Z; sys_unlink : KM Z;
  sys_link : KM Z; sys_mkdir : KM Z; sys_close : KM Z
}.

Section dispatch.
Context {SY : Symbols} {FS : FsOps} {SF : SysFileOps} (fuel : nat) (junk : list Z).

(** the table [syscalls]; entry 0 is null *)
Definition syscalls : list (option (KM Z)) :=
  [None; Some sys_fork; Some sys_exit; Some (sys_wait fuel); Some sys_pipe; Some sys_read;
   Some sys_kill; Some sys_exec; Some sys_fstat; Some sys_chdir; Some sys_dup; Some sys_getpid;
   Some sys_sbrk; Some (sys_pause fuel); Some sys_uptime; Some sys_open; Some sys_write;
   Some sys_mknod; Some sys_unlink; Some sys_link; Some sys_mkdir; Some sys_close;
   Some (sys_getprocinfo junk); Some sys_boostproc; Some sys_getschedulerstats].

Definition syscall : KM unit :=
  let* p := curproc in
  let* a7 := rd_tf p tf_a7 in
  let num := s32 a7 in
  match (if (0 <? num) && (num <? Z.of_nat (length syscalls)) then mjoin (syscalls !! Z.to_nat num) else None) with
  | Some f =>
      let* v := f in
      wr_tf p tf_a0 v
  | None =>
      let* pid := rd p p_pid in
      let* name := rd p p_name in
      printf (str "%d %s: unknown sys call %d" ++ [10])
        [Aint pid; Astr (Some (c_string name)); Aint num] ;;
      wr_tf p tf_a0 (-1)
  end.
End dispatch.
