(* ===== verification/Sleeplock.v ===== *)
(** * Sleep-locks, [kernel/sleeplock.c]

    A sleep-lock is held across sleeps; a spinlock protects its two fields.
    The locks of the buffers and of the inodes are numbered by [buf_lk] and
    [inode_lk].  [fuel] bounds the number of times a process that waits for
    the lock goes back to sleep. *)

From S2P Require Import Prelude Fsdata Kstate Spinlock Runqueue Sched.
#[local] Open Scope Z_scope.

Definition initsleeplock (lk : nat) : KM unit :=
  initlock (sleep_lk lk) ;;
  wrt sleeplocks lk sl_locked 0 ;;
  wrt sleeplocks lk sl_pid 0.

Definition acquiresleep (fuel : nat) (lk : nat) : KM unit :=
  acquire (sleep_lk lk) ;;
  while_do fuel
    (let* l := rdt sleeplocks lk sl_locked in ret (negb (l =? 0)))
    (sleep (ch_sleeplock lk) (sleep_lk lk)) ;;
  wrt sleeplocks lk sl_locked 1 ;;
  let* p := curproc in
  let* pid := rd p p_pid in
  wrt sleeplocks lk sl_pid pid ;;
  release (sleep_lk lk).

Definition releasesleep (lk : nat) : KM unit :=
  acquire (sleep_lk lk) ;;
  wrt sleeplocks lk sl_locked 0 ;;
  wrt sleeplocks lk sl_pid 0 ;;
  wakeup (Some (ch_sleeplock lk)) ;;
  release (sleep_lk lk).

Definition holdingsleep (lk : nat) : KM bool :=
  acquire (sleep_lk lk) ;;
  let* l := rdt sleeplocks lk sl_locked in
  let* r := if negb (l =? 0) then
              let* holder := rdt sleeplocks lk sl_pid in
              let* p := curproc in
              let* pid := rd p p_pid in
              ret (holder =? pid)
            else ret false in
  release (sleep_lk lk) ;;
  ret r.
