(* ===== verification/Bio.v ===== *)
(** * The buffer cache, [kernel/bio.c]

    The buffers are in a doubly linked list through [bcache.head], most
    recently used first.  The transfer of a block between a buffer and the
    disk is the class [DiskRw]. *)

From S2P Require Import Prelude Fsdata Kstate Spinlock Runqueue Sched Bytes Sleeplock.
#[local] Open Scope Z_scope.

(** [virtio_disk_rw(b, write)] *)
Class DiskRw := { virtio_disk_rw : nat → bool → KM unit }.

(** [b->next], [b->prev] *)
Definition next (b : nat) : KM nat := let* n := rdt bufs b b_next in deref n.
Definition prev (b : nat) : KM nat := let* n := rdt bufs b b_prev in deref n.
(** [b] becomes the first buffer of the list *)
Definition push_front (b : nat) : KM unit :=
  let* n := next bcache_head in
  wrt bufs b b_next (Some n) ;;
  wrt bufs b b_prev (Some bcache_head) ;;
  let* n := next bcache_head in
  wrt bufs n b_prev (Some b) ;;
  wrt bufs bcache_head b_next (Some b).

Definition binit : KM unit :=
  initlock bcache_lock ;;
  wrt bufs bcache_head b_prev (Some bcache_head) ;;
  wrt bufs bcache_head b_next (Some bcache_head) ;;
  for_each (seq 0 NBUF) (λ b,
    let* n := next bcache_head in
    wrt bufs b b_next (Some n) ;;
    wrt bufs b b_prev (Some bcache_head) ;;
    initsleeplock (buf_lk b) ;;
    let* n := next bcache_head in
    wrt bufs n b_prev (Some b) ;;
    wrt bufs bcache_head b_next (Some b)).

(** the two loops of [bget] over the list; [None] is a loop that ends
    without a result.  The list has [NBUF] buffers. *)
Fixpoint bget_hit (turns : nat) (b : nat) (dev blockno : Z) : KM (option nat) :=
  match turns with
  | O => stop_with StopFuel
  | S turns =>
      if decide (b = bcache_head) then ret None else
      let* d := rdt bufs b b_dev in
      let* n := rdt bufs b b_blockno in
      if (d =? dev) && (n =? blockno) then
        updt bufs b (λ x, x <| b_refcnt ::= λ r, u32 (r + 1) |>) ;;
        ret (Some b)
      else
        let* b := next b in
        bget_hit turns b dev blockno
  end.
Fixpoint bget_recycle (turns : nat) (b : nat) (dev blockno : Z) : KM (option nat) :=
  match turns with
  | O => stop_with StopFuel
  | S turns =>
      if decide (b = bcache_head) then ret None else
      let* r := rdt bufs b b_refcnt in
      if r =? 0 then
        wrt bufs b b_dev dev ;;
        wrt bufs b b_blockno blockno ;;
        wrt bufs b b_valid 0 ;;
        wrt bufs b b_refcnt 1 ;;
        ret (Some b)
      else
        let* b := prev b in
        bget_recycle turns b dev blockno
  end.

Section code.
Context {DR : DiskRw} (fuel : nat).

Definition bget (dev blockno : Z) : KM nat :=
  acquire bcache_lock ;;
  let* b := next bcache_head in
  let* r := bget_hit (S NBUF) b dev blockno in
  match r with
  | Some b =>
      release bcache_lock ;;
      acquiresleep fuel (buf_lk b) ;;
      ret b
  | None =>
      let* b := prev bcache_head in
      let* r := bget_recycle (S NBUF) b dev blockno in
      match r with
      | Some b =>
          release bcache_lock ;;
          acquiresleep fuel (buf_lk b) ;;
          ret b
      | None => panic "bget: no buffers"
      end
  end.

Definition bread (dev blockno : Z) : KM nat :=
  let* b := bget dev blockno in
  let* v := rdt bufs b b_valid in
  when (v =? 0) (
    virtio_disk_rw b false ;;
    wrt bufs b b_valid 1) ;;
  ret b.

Definition bwrite (b : nat) : KM unit :=
  let* h := holdingsleep (buf_lk b) in
  if negb h then panic "bwrite" else
  virtio_disk_rw b true.

Definition brelse (b : nat) : KM unit :=
  let* h := holdingsleep (buf_lk b) in
  if negb h then panic "brelse" else
  releasesleep (buf_lk b) ;;
  acquire bcache_lock ;;
  updt bufs b (λ x, x <| b_refcnt ::= λ r, u32 (r - 1) |>) ;;
  let* r := rdt bufs b b_refcnt in
  when (r =? 0) (
    let* n := next b in
    let* p := prev b in
    wrt bufs n b_prev (Some p) ;;
    let* p := prev b in
    let* n := next b in
    wrt bufs p b_next (Some n) ;;
    push_front b) ;;
  release bcache_lock.
End code.

Definition bpin (b : nat) : KM unit :=
  acquire bcache_lock ;;
  updt bufs b (λ x, x <| b_refcnt ::= λ r, u32 (r + 1) |>) ;;
  release bcache_lock.
Definition bunpin (b : nat) : KM unit :=
  acquire bcache_lock ;;
  updt bufs b (λ x, x <| b_refcnt ::= λ r, u32 (r - 1) |>) ;;
  release bcache_lock.

(** ** The data of a buffer *)

(** the [n]-byte integer at offset [off] of [b->data]; its assignment *)
Definition data_le (n : nat) (b : nat) (off : Z) : KM Z :=
  let* d := rdt bufs b b_data in deref (load_le n d off).
Definition set_data_le (n : nat) (b : nat) (off v : Z) : KM unit :=
  let* d := rdt bufs b b_data in
  let* d := deref (store_le n d off v) in
  wrt bufs b b_data d.
(** [memmove(b->data + off, l, length l)] *)
Definition set_data (b : nat) (off : Z) (l : list Z) : KM unit :=
  let* d := rdt bufs b b_data in
  let* d := deref (store_bytes d off l) in
  wrt bufs b b_data d.
