(* ===== verification/Cache.v ===== *)
(** * The buffer cache as an LRU cache

    What [kernel/bio.c] and [kernel/sleeplock.c] do to the file system state,
    when no other process has a buffer: [bget] returns the buffer that has
    the block, or else takes the buffer that was used longest ago among
    those nobody refers to; [brelse] moves a buffer nobody refers to any more
    to the front of the list. *)

From S2P Require Import Prelude Fsdata Kstate Spinlock Runqueue Sched SchedInv Bytes Layout Kalloc Vm Printf.
From S2P Require Import Quiet Keeps Sleeplock Bio FsLogic Ring.
#[local] Open Scope Z_scope.

(** ** What [bget] chooses *)

Definition has_block (bs : list buf) (dev n : Z) (b : nat) : bool :=
  if bs !! b is Some x then (b_dev x =? dev) && (b_blockno x =? n) else false.
Definition unused (bs : list buf) (b : nat) : bool :=
  if bs !! b is Some x then b_refcnt x =? 0 else false.
(** the buffer for block [n] of device [dev] when the list is [l], and
    whether it has the block *)
Definition bget_choice (bs : list buf) (l : list nat) (dev n : Z) : option (bool * nat) :=
  match List.find (has_block bs dev n) l with
  | Some b => Some (true, b)
  | None => pair false <$> List.find (unused bs) (rev l)
  end.
(** what [bget] does to the buffer *)
Definition bget_buf (hit : bool) (dev n : Z) (x : buf) : buf :=
  if hit then x <| b_refcnt ::= λ r, u32 (r + 1) |>
  else x <| b_dev := dev |> <| b_blockno := n |> <| b_valid := 0 |> <| b_refcnt := 1 |>.

Section cache.
Context (E : stop → Prop) (G : kstate → Prop) (R : kstate → kstate → Prop).
Context (X : gmap Z Z → vdisk → Prop) (p : nat) (pid : Z).
#[local] Abbreviation fwp := (fwp E G R X p pid).

Lemma fwp_wrt {T U} (t : fsst → list T) `{!Setter t, !Table t} i (g : T → U) `{!Setter g} v x H f
    (Q : unit → gset lockid → fsst → Prop) :
  t f !! i = Some x → Q tt H (f <| t ::= <[i := x <| g := v |>]> |>) → fwp (wrt t i g v) H f Q.
Proof. apply (fwp_updt E G R X p pid t i (λ r, r <| g := v |>)). Qed.

#[local] Abbreviation fwp_rdt := (fwp_rdt E G R X p pid).
#[local] Abbreviation fwp_updt := (fwp_updt E G R X p pid).

(** ** Sleep-locks *)

Lemma fwp_acquiresleep fuel lk x H f (Q : unit → gset lockid → fsst → Prop) :
  sleeplocks f !! lk = Some x → sl_locked x = 0 → sleep_lk lk ∉ H →
  Q tt H (f <| sleeplocks ::= <[lk := mk_sleeplock 1 pid]> |>) → fwp (acquiresleep (S fuel) lk) H f Q.
Proof.
  intros Hx Hl HH HQ.
  apply fwp_bind, fwp_acquire; [done|]. apply fwp_bind.
  simpl. apply fwp_bind, fwp_bind. eapply (fwp_rdt sleeplocks); [done|]. apply fwp_ret. rewrite Hl.
  simpl. apply fwp_ret. apply fwp_bind. eapply (fwp_wrt sleeplocks); [done|].
  apply fwp_bind, fwp_curproc, fwp_bind, fwp_pid, fwp_bind. eapply (fwp_wrt sleeplocks).
  { by eapply (table_lookup sleeplocks). }
  apply fwp_release; [done|]. by rewrite (table_insert_twice sleeplocks).
Qed.
Lemma fwp_holdingsleep lk H f (Q : bool → gset lockid → fsst → Prop) :
  sleeplocks f !! lk = Some (mk_sleeplock 1 pid) → sleep_lk lk ∉ H → Q true H f → fwp (holdingsleep lk) H f Q.
Proof.
  intros Hx HH HQ. apply fwp_bind, fwp_acquire; [done|]. apply fwp_bind. eapply (fwp_rdt sleeplocks); [done|].
  simpl. apply fwp_bind, fwp_bind. eapply (fwp_rdt sleeplocks); [done|].
  apply fwp_bind, fwp_curproc, fwp_bind, fwp_pid, fwp_ret. simpl. rewrite Z.eqb_refl.
  apply fwp_bind, fwp_release; [done|]. by apply fwp_ret.
Qed.
Lemma fwp_releasesleep lk x H f (Q : unit → gset lockid → fsst → Prop) :
  sleeplocks f !! lk = Some x → sleep_lk lk ∉ H → (∀ i, p_lock i ∉ H) →
  Q tt H (f <| sleeplocks ::= <[lk := mk_sleeplock 0 0]> |>) → fwp (releasesleep lk) H f Q.
Proof.
  intros Hx HH Hp HQ. apply fwp_bind, fwp_acquire; [done|]. apply fwp_bind.
  eapply (fwp_wrt sleeplocks); [done|]. apply fwp_bind.
  eapply (fwp_wrt sleeplocks); [by eapply (table_lookup sleeplocks)|].
  apply fwp_bind, fwp_wakeup; [set_solver|]. apply fwp_release; [done|].
  by rewrite (table_insert_twice sleeplocks).
Qed.

(** ** The search of a buffer *)

Lemma fwp_next b n H f (Q : nat → gset lockid → fsst → Prop) :
  nxt (bufs f) b = Some n → Q n H f → fwp (next b) H f Q.
Proof.
  unfold nxt. intros Hn HQ. destruct (bufs f !! b) as [x|] eqn:Hx; [|done].
  apply fwp_bind. eapply (fwp_rdt bufs); [done|]. by eapply fwp_deref.
Qed.
Lemma fwp_prev b n H f (Q : nat → gset lockid → fsst → Prop) :
  prv (bufs f) b = Some n → Q n H f → fwp (prev b) H f Q.
Proof.
  unfold prv. intros Hn HQ. destruct (bufs f !! b) as [x|] eqn:Hx; [|done].
  apply fwp_bind. eapply (fwp_rdt bufs); [done|]. by eapply fwp_deref.
Qed.

Section search.
Context (f : fsst) (H : gset lockid) (dev n : Z) (Q : option nat → gset lockid → fsst → Prop).

Definition search_post (hit : bool) (r : option nat) : Prop :=
  match r with
  | Some b => ∀ x, bufs f !! b = Some x → Q (Some b) H (f <| bufs ::= <[b := bget_buf hit dev n x]> |>)
  | None => Q None H f
  end.

Lemma fwp_bget_hit y l2 turns :
  path (nxt (bufs f)) y l2 bcache_head → (∀ b, b ∈ l2 → (b < NBUF)%nat ∧ is_Some (bufs f !! b)) →
  (length l2 < turns)%nat → search_post true (List.find (has_block (bufs f) dev n) l2) →
  fwp (next y) H f (λ b H f, fwp (bget_hit turns b dev n) H f Q).
Proof.
  revert y turns. induction l2 as [|b l2 IH]; intros y [|turns] Hl Hb Hlen HQ; simpl in *; try lia.
  - eapply fwp_next; [done|]. rewrite decide_True by done. by apply fwp_ret.
  - destruct Hl as [Hy Hl]. destruct (Hb b) as [Hlt [x Hx]]; [set_solver|].
    eapply fwp_next; [done|]. rewrite decide_False by (unfold bcache_head; lia).
    apply fwp_bind. eapply (fwp_rdt bufs); [done|]. apply fwp_bind. eapply (fwp_rdt bufs); [done|].
    unfold has_block in HQ at 1. rewrite Hx in HQ. destruct ((b_dev x =? dev) && _).
    + apply fwp_bind. eapply (fwp_updt bufs); [done|]. apply fwp_ret. by apply HQ.
    + apply fwp_bind, IH; [done|set_solver|lia|done].
Qed.
Lemma fwp_bget_recycle y l1 turns :
  rpath (prv (bufs f)) bcache_head l1 y → (∀ b, b ∈ l1 → (b < NBUF)%nat ∧ is_Some (bufs f !! b)) →
  (length l1 < turns)%nat → search_post false (List.find (unused (bufs f)) (rev l1)) →
  fwp (prev y) H f (λ b H f, fwp (bget_recycle turns b dev n) H f Q).
Proof.
  revert y turns. induction l1 as [|b l1 IH] using rev_ind; intros y [|turns] Hl Hb Hlen HQ; simpl in *; try lia.
  - eapply fwp_prev; [done|]. rewrite decide_True by done. by apply fwp_ret.
  - apply rpath_app in Hl as [Hl Hy]. destruct (Hb b) as [Hlt [x Hx]]; [set_solver|]. rewrite length_app in Hlen.
    simpl in *. rewrite rev_app_distr in HQ. simpl in HQ.
    eapply fwp_prev; [done|]. rewrite decide_False by (unfold bcache_head; lia).
    apply fwp_bind. eapply (fwp_rdt bufs); [done|].
    unfold unused in HQ at 1. rewrite Hx in HQ. destruct (b_refcnt x =? 0).
    + apply fwp_bind. eapply (fwp_wrt bufs); [done|].
      do 3 (apply fwp_bind; eapply (fwp_wrt bufs); [repeat first [exact Hx|eapply (table_lookup bufs)]|]).
      apply fwp_ret. rewrite !(table_insert_twice bufs). by apply HQ.
    + apply fwp_bind, IH; [done|set_solver|lia|done].
Qed.
End search.

(** ** The operations *)

Section ops.
Context {DR : DiskRw} (fuel : nat).

Lemma fwp_bget dev n l hit b x k f (Q : nat → gset lockid → fsst → Prop) :
  ring (bufs f) l → bget_choice (bufs f) l dev n = Some (hit, b) →
  bufs f !! b = Some x → sleeplocks f !! b = Some k → sl_locked k = 0 →
  Q b ∅ (f <| bufs ::= <[b := bget_buf hit dev n x]> |> <| sleeplocks ::= <[b := mk_sleeplock 1 pid]> |>) →
  fwp (bget (S fuel) dev n) ∅ f Q.
Proof.
  intros Hr Hc Hx Hk Hl HQ. apply fwp_bind, fwp_acquire; [set_solver|].
  assert (Hin : ∀ b, b ∈ l → (b < NBUF)%nat ∧ is_Some (bufs f !! b)).
  { intros c Hb%(ring_elem _ _ Hr). split; [done|]. apply (ring_lookup _ _ Hr). lia. }
  pose proof (ring_length _ _ Hr) as Hlen.
  apply fwp_bind. eapply fwp_mono; [intros ??? Hm; apply fwp_bind, Hm|].
  eapply fwp_bget_hit; [apply Hr|done|lia|]. unfold bget_choice in Hc.
  assert (Hlast : fwp (release bcache_lock ;; acquiresleep (S fuel) (buf_lk b) ;; ret b) ({[bcache_lock]} ∪ ∅)
    (f <| bufs ::= <[b := bget_buf hit dev n x]> |>) Q).
  { apply fwp_bind, fwp_release; [set_solver|]. apply fwp_bind.
    eapply fwp_acquiresleep; [done|done|set_solver|]. by apply fwp_ret. }
  destruct (List.find (has_block (bufs f) dev n) l) as [b'|] eqn:Hf; cbn [search_post].
  - simplify_eq. intros x' Hx'. by simplify_eq.
  - apply fwp_bind. eapply fwp_mono; [intros ??? Hm; apply fwp_bind, Hm|].
    eapply fwp_bget_recycle; [apply Hr|done|lia|].
    destruct (List.find (unused (bufs f)) (rev l)) as [b'|]; simplify_eq/=. intros x' Hx'. by simplify_eq.
Qed.
(** no buffer is left *)
Lemma fwp_bget_full dev n l f (Q : nat → gset lockid → fsst → Prop) :
  ring (bufs f) l → bget_choice (bufs f) l dev n = None → E (StopPanic "bget: no buffers") →
  fwp (bget (S fuel) dev n) ∅ f Q.
Proof.
  intros Hr Hc HE. apply fwp_bind, fwp_acquire; [set_solver|].
  assert (Hin : ∀ b, b ∈ l → (b < NBUF)%nat ∧ is_Some (bufs f !! b)).
  { intros c Hb%(ring_elem _ _ Hr). split; [done|]. apply (ring_lookup _ _ Hr). lia. }
  pose proof (ring_length _ _ Hr) as Hlen. unfold bget_choice in Hc.
  destruct (List.find (has_block (bufs f) dev n) l) as [b'|] eqn:Hf; [done|]. apply fmap_None in Hc.
  apply fwp_bind. eapply fwp_mono; [intros ??? Hm; apply fwp_bind, Hm|].
  eapply fwp_bget_hit; [apply Hr|done|lia|]. rewrite Hf. cbn [search_post].
  apply fwp_bind. eapply fwp_mono; [intros ??? Hm; apply fwp_bind, Hm|].
  eapply fwp_bget_recycle; [apply Hr|done|lia|]. rewrite Hc. cbn [search_post]. by intros s Hs.
Qed.
End ops.

Lemma fwp_set_next b v H f (Q : unit → gset lockid → fsst → Prop) :
  (b < length (bufs f))%nat → Q tt H (f <| bufs ::= set_next b v |>) → fwp (wrt bufs b b_next (Some v)) H f Q.
Proof.
  intros [x Hx]%lookup_lt_is_Some HQ. eapply (fwp_wrt bufs); [done|].
  rewrite (table_ext (t := bufs) f (<[b := x <| b_next := Some v |>]>) (set_next b v)); [done|].
  symmetry. by apply (list_alter_insert_eq _ _ _ _ Hx).
Qed.
Lemma fwp_set_prev b v H f (Q : unit → gset lockid → fsst → Prop) :
  (b < length (bufs f))%nat → Q tt H (f <| bufs ::= set_prev b v |>) → fwp (wrt bufs b b_prev (Some v)) H f Q.
Proof.
  intros [x Hx]%lookup_lt_is_Some HQ. eapply (fwp_wrt bufs); [done|].
  rewrite (table_ext (t := bufs) f (<[b := x <| b_prev := Some v |>]>) (set_prev b v)); [done|].
  symmetry. by apply (list_alter_insert_eq _ _ _ _ Hx).
Qed.

#[local] Ltac bufs_len :=
  rewrite ?(table_get (t := bufs)); by repeat rewrite ?length_set_next, ?length_set_prev.
(** [b] leaves its place in the list and becomes the first buffer *)
Definition move_front (b : nat) : KM unit :=
  let* n := next b in
  let* p := prev b in
  wrt bufs n b_prev (Some p) ;;
  let* p := prev b in
  let* n := next b in
  wrt bufs p b_next (Some n) ;;
  push_front b.
Lemma fwp_move_front b l1 l2 H f (Q : unit → gset lockid → fsst → Prop) :
  ring (bufs f) (l1 ++ b :: l2) →
  (∀ g, ring (g (bufs f)) (b :: l1 ++ l2) → unlinked <$> g (bufs f) = unlinked <$> bufs f →
    Q tt H (f <| bufs ::= g |>)) →
  fwp (move_front b) H f Q.
Proof.
  intros Hr HQ.
  destruct (head (l2 ++ [bcache_head])) as [n|] eqn:Hn; [|by destruct l2].
  destruct (last (bcache_head :: l1)) as [q|] eqn:Hp; [|by apply last_None in Hp].
  destruct (head (l1 ++ l2 ++ [bcache_head])) as [n0|] eqn:Hn0; [|by destruct l1, l2].
  destruct (front_bounds _ _ _ _ _ _ _ Hr Hp Hn Hn0) as (Hb & Hbp & Hbn & Hbn0 & Hh).
  edestruct front_ne as (Nn & Nh & N0); [done..|].
  assert (Hnb : nxt (bufs f) b = Some n) by (by eapply front_nxt).
  assert (Hpb : prv (bufs f) b = Some q) by (by eapply front_prv).
  pose proof (front_first _ _ _ _ _ _ _ Hr Hp Hn Hn0) as Hf0.
  apply fwp_bind. eapply fwp_next; [done|]. apply fwp_bind. eapply fwp_prev; [done|].
  apply fwp_bind, fwp_set_prev; [done|]. apply fwp_bind. eapply fwp_prev.
  { rewrite (table_get (t := bufs)), prv_set_prev by done. by rewrite decide_False by done. }
  apply fwp_bind. eapply fwp_next; [by rewrite (table_get (t := bufs)), nxt_set_prev|].
  apply fwp_bind, fwp_set_next; [bufs_len|]. rewrite (table_set (t := bufs)).
  apply fwp_bind. eapply fwp_next; [by rewrite (table_get (t := bufs))|].
  apply fwp_bind, fwp_set_next; [bufs_len|]. rewrite (table_set (t := bufs)).
  apply fwp_bind, fwp_set_prev; [bufs_len|]. rewrite (table_set (t := bufs)).
  apply fwp_bind. eapply fwp_next.
  { rewrite (table_get (t := bufs)), nxt_set_prev, nxt_set_next by bufs_len. by rewrite decide_False by done. }
  apply fwp_bind, fwp_set_prev; [bufs_len|]. rewrite (table_set (t := bufs)).
  apply fwp_set_next; [bufs_len|]. rewrite (table_set (t := bufs)).
  apply (HQ (to_front b n0 q n)); [by apply ring_to_front|apply unlinked_to_front].
Qed.

Lemma ring_same_links bs l b x x' :
  ring bs l → bs !! b = Some x → b_next x' = b_next x → b_prev x' = b_prev x → ring (<[b := x']> bs) l.
Proof.
  intros Hr Hx Hn Hp. eapply ring_ext; [done|apply length_insert|..]; intros i; unfold nxt, prv;
    (destruct (decide (i = b)) as [-> |];
     [rewrite list_lookup_insert_eq by (by eapply lookup_lt_Some); by rewrite Hx
     |by rewrite list_lookup_insert_ne]).
Qed.

Lemma fwp_brelse b x l1 l2 f (Q : unit → gset lockid → fsst → Prop) :
  let x' := x <| b_refcnt ::= λ r, u32 (r - 1) |> in
  ring (bufs f) (l1 ++ b :: l2) → bufs f !! b = Some x → sleeplocks f !! b = Some (mk_sleeplock 1 pid) →
  (∀ g, ring (g (bufs f)) (if b_refcnt x' =? 0 then b :: l1 ++ l2 else l1 ++ b :: l2) →
    unlinked <$> g (bufs f) = unlinked <$> <[b := x']> (bufs f) →
    Q tt ∅ (f <| sleeplocks ::= <[b := mk_sleeplock 0 0]> |> <| bufs ::= g |>)) →
  fwp (brelse b) ∅ f Q.
Proof.
  intros x' Hr Hx Hk HQ. unfold brelse. apply fwp_bind, fwp_holdingsleep; [done|set_solver|]. simpl.
  apply fwp_bind. eapply fwp_releasesleep; [done|set_solver|set_solver|].
  apply fwp_bind, fwp_acquire; [set_solver|]. apply fwp_bind. eapply (fwp_updt bufs); [done|]. fold x'.
  apply fwp_bind. eapply (fwp_rdt bufs); [by eapply (table_lookup bufs)|]. apply fwp_bind.
  assert (Hr' : ring (<[b := x']> (bufs f)) (l1 ++ b :: l2)) by (by eapply ring_same_links).
  destruct (b_refcnt x' =? 0) eqn:Hz; simpl.
  - apply (fwp_move_front b l1 l2); [done|]. intros g Hg1 Hg2. apply fwp_release; [set_solver|].
    rewrite (table_set (t := bufs)). by apply HQ.
  - apply fwp_ret, fwp_release; [set_solver|]. by apply HQ.
Qed.
End cache.
