(* ===== verification/Block.v ===== *)
(** * The cache as a view of the disk

    The buffer cache together with the disk behaves as one array of blocks
    [bview], of which the blocks [pinned] are pinned and the blocks [bhold] are
    held in buffers.  A block that is neither is the same in the view and on
    the disk, whose history is [bhist]. *)

From S2P Require Import Prelude Fsdata Kstate Spinlock Runqueue Sched SchedInv Bytes Layout Kalloc Vm Printf.
From S2P Require Import Quiet Keeps Sleeplock Bio FsLogic Ring Cache.
#[local] Open Scope Z_scope.

Record bst := mk_bst {
  bview : Z → list Z;
  pinned : gset Z;
  bhold : gmap Z nat;
  bhist : list (Z * list Z)
}.

#[export] Instance eta_bst : Eta bst := λ r, mk_bst (bview r) (pinned r) (bhold r) (bhist r).
#[export] Instance set_bview : Setter bview. Proof. solve_setter. Defined.
#[export] Instance set_pinned : Setter pinned. Proof. solve_setter. Defined.
#[export] Instance set_bhold : Setter bhold. Proof. solve_setter. Defined.
#[export] Instance set_bhist : Setter bhist. Proof. solve_setter. Defined.

Lemma bst_eq β β' :
  bview β = bview β' → pinned β = pinned β' → bhold β = bhold β' → bhist β = bhist β' → β = β'.
Proof. destruct β, β'. simpl. congruence. Qed.

(** the references to block [n], and whether there are any *)
Definition refs (β : bst) (n : Z) : Z :=
  Z.b2z (bool_decide (n ∈ pinned β)) + Z.b2z (bool_decide (is_Some (bhold β !! n))).
Definition used (β : bst) (n : Z) : Prop := n ∈ pinned β ∨ is_Some (bhold β !! n).
#[export] Instance used_dec β n : Decision (used β n).
Proof. unfold used. apply _. Defined.
Lemma refs_used β n : refs β n ≠ 0 ↔ used β n.
Proof. unfold refs, used. repeat case_bool_decide; simpl; naive_solver lia. Qed.

(** a block number whose sector number is a 32-bit number *)
Definition block_ok (n : Z) : Prop := 0 ≤ n < 2 ^ 31.

Section rep.
Context (dev pid : Z).

(** a buffer of block [n] *)
Definition caches (x : buf) (n : Z) : Prop := b_dev x = dev ∧ b_blockno x = n.

Record buf_block (β : bst) (b : nat) (x : buf) (k : sleeplock) (n : Z) : Prop := {
  bb_refs : b_refcnt x = refs β n;
  bb_valid : used β n → b_valid x ≠ 0;
  bb_data : b_valid x ≠ 0 → b_data x = bview β n;
  bb_lock : match bhold β !! n with Some b' => b' = b ∧ k = mk_sleeplock 1 pid | None => sl_locked k = 0 end
}.
Record buf_ok (β : bst) (b : nat) (x : buf) (k : sleeplock) : Prop := {
  bo_len : length (b_data x) = Z.to_nat BSIZE;
  bo_disk : b_disk x = 0;
  bo_block : b_dev x = dev → buf_block β b x k (b_blockno x);
  bo_other : b_dev x ≠ dev → b_refcnt x = 0 ∧ sl_locked k = 0
}.

Record brep (f : fsst) (β : bst) : Prop := {
  br_ring : ∃ l, ring (bufs f) l;
  br_hist : disk_writes f = bhist β;
  br_bufs b : (b < NBUF)%nat → ∃ x k, bufs f !! b = Some x ∧ sleeplocks f !! b = Some k ∧ buf_ok β b x k;
  br_uniq b b' x x' n : (b < NBUF)%nat → (b' < NBUF)%nat → bufs f !! b = Some x → bufs f !! b' = Some x' →
    caches x n → caches x' n → b = b';
  br_used n : used β n → ∃ b x, (b < NBUF)%nat ∧ bufs f !! b = Some x ∧ caches x n;
  br_clean n : ¬ used β n → bview β n = disk_block (bhist β) n;
  br_len n : length (bview β n) = Z.to_nat BSIZE
}.

(** ** A step that changes one buffer *)

(** the links of the list play no role *)
Lemma unlinked_lookup (bs bs' : list buf) (i : nat) (y' : buf) :
  unlinked <$> bs' = unlinked <$> bs → bs' !! i = Some y' → ∃ y, bs !! i = Some y ∧ unlinked y = unlinked y'.
Proof.
  intros Heq Hy. assert (Hi : (unlinked <$> bs') !! i = Some (unlinked y')) by (by rewrite list_lookup_fmap, Hy).
  rewrite Heq, list_lookup_fmap in Hi. destruct (bs !! i) as [y|]; [|done].
  exists y. split; [done|]. by apply (inj Some) in Hi.
Qed.
Lemma caches_unlinked x y n : unlinked x = unlinked y → caches x n → caches y n.
Proof. destruct x, y. intros [=]; subst. done. Qed.
Lemma buf_ok_unlinked β b x y k : unlinked x = unlinked y → buf_ok β b x k → buf_ok β b y k.
Proof.
  destruct x, y. intros [=]; subst. intros [Hl Hd Hb Ho]. split; [done|done| |done].
  intros Hdev. destruct (Hb Hdev). by split.
Qed.

(** what a buffer's block depends on *)
Definition same_at (β β' : bst) (m : Z) : Prop :=
  bview β' m = bview β m ∧ (m ∈ pinned β' ↔ m ∈ pinned β) ∧ bhold β' !! m = bhold β !! m.
Lemma same_at_used β β' m : same_at β β' m → (used β' m ↔ used β m).
Proof. intros (_ & Hp & Hh). unfold used. by rewrite Hp, Hh. Qed.
Lemma same_at_refs β β' m : same_at β β' m → refs β' m = refs β m.
Proof. intros (_ & Hp & Hh). unfold refs. rewrite Hh. by rewrite (bool_decide_ext _ _ Hp). Qed.
Lemma same_at_block β β' b x k m : same_at β β' m → buf_block β b x k m → buf_block β' b x k m.
Proof.
  intros Hs [Hr Hv Hd Hl]. pose proof Hs as (Hw & _ & Hh). split.
  - by rewrite (same_at_refs _ _ _ Hs).
  - by rewrite (same_at_used _ _ _ Hs).
  - by rewrite Hw.
  - by rewrite Hh.
Qed.

(** the buffer [b], which is the buffer of block [n] or nobody's, becomes the
    buffer [x'] of block [n] with the lock [k'] *)
Section step.
Context (f f' : fsst) (β β' : bst) (n : Z) (b : nat) (x x' : buf) (k' : sleeplock).
Context (Hf : brep f β) (Hb : (b < NBUF)%nat) (Hx : bufs f !! b = Some x).
Context (Hold : caches x n ∨
  (b_refcnt x = 0 ∧ ∀ b' y, (b' < NBUF)%nat → bufs f !! b' = Some y → ¬ caches y n)).
Context (Hx' : caches x' n) (Hlen' : length (b_data x') = Z.to_nat BSIZE) (Hdisk' : b_disk x' = 0).
Context (Hbb : buf_block β' b x' k' n).
Context (Hring : ∃ l, ring (bufs f') l) (Hbs : unlinked <$> bufs f' = unlinked <$> <[b := x']> (bufs f)).
Context (Hsl : sleeplocks f' = <[b := k']> (sleeplocks f)) (Hh : disk_writes f' = bhist β').
Context (Hs : ∀ m, m ≠ n → same_at β β' m ∧ disk_block (bhist β') m = disk_block (bhist β) m).

Lemma step_lookup b' y' :
  bufs f' !! b' = Some y' →
  ∃ y, unlinked y = unlinked y' ∧ if decide (b' = b) then y = x' else bufs f !! b' = Some y.
Proof.
  intros Hy'. destruct (unlinked_lookup _ _ _ _ Hbs Hy') as (y & Hy & Hu). exists y. split; [done|].
  case_decide; subst; [|by rewrite list_lookup_insert_ne in Hy].
  rewrite list_lookup_insert_eq in Hy by (by eapply lookup_lt_Some). congruence.
Qed.
Lemma step_other b' y : (b' < NBUF)%nat → b' ≠ b → bufs f !! b' = Some y → ¬ caches y n.
Proof.
  intros Hb' Hne Hy Hc. destruct Hold as [Hc'|[_ Hno]]; [|by eapply Hno].
  apply Hne. by eapply (br_uniq _ _ Hf).
Qed.
Lemma step_bufs b' :
  (b' < NBUF)%nat → ∃ y k, bufs f' !! b' = Some y ∧ sleeplocks f' !! b' = Some k ∧ buf_ok β' b' y k.
Proof.
  intros Hb'. destruct Hring as [l Hr]. destruct (ring_lookup _ _ Hr b') as [y' Hy']; [lia|].
  destruct (step_lookup b' y' Hy') as (y & Hu & Hy). exists y'. rewrite Hsl.
  destruct (br_bufs _ _ Hf b' Hb') as (z & k & Hz & Hk & Hok). case_decide; subst.
  - exists k'. split_and!; [done|by eapply list_lookup_insert_eq, lookup_lt_Some|].
    apply (buf_ok_unlinked _ _ x'); [done|]. destruct Hx' as [Hd Hn].
    split; [done|done|by rewrite Hn|done].
  - exists k. rewrite list_lookup_insert_ne by done. split_and!; [done..|].
    assert (z = y) as -> by congruence. apply (buf_ok_unlinked _ _ y); [done|]. destruct Hok as [H1 H2 H3 H4]. split; [done..| |done].
    intros Hd. apply (same_at_block β); [apply Hs|by apply H3].
    intros He. by eapply (step_other b').
Qed.
Lemma step_uniq b1 b2 x1 x2 m :
  (b1 < NBUF)%nat → (b2 < NBUF)%nat → bufs f' !! b1 = Some x1 → bufs f' !! b2 = Some x2 →
  caches x1 m → caches x2 m → b1 = b2.
Proof.
  intros H1 H2 (y1 & Hu1 & Hy1)%step_lookup (y2 & Hu2 & Hy2)%step_lookup.
  intros C1%(caches_unlinked _ y1) C2%(caches_unlinked _ y2); try done.
  destruct (decide (b1 = b)) as [-> |N1], (decide (b2 = b)) as [-> |N2]; subst.
  - done.
  - assert (m = n) as -> by (destruct C1, Hx'; congruence). by edestruct step_other.
  - assert (m = n) as -> by (destruct C2, Hx'; congruence). by edestruct (step_other b1).
  - by eapply (br_uniq _ _ Hf).
Qed.
Lemma step_used m : used β' m → ∃ b' y, (b' < NBUF)%nat ∧ bufs f' !! b' = Some y ∧ caches y m.
Proof.
  intros Hu.
  assert (Hnew : ∀ b', (b' < NBUF)%nat → ∃ y', bufs f' !! b' = Some y').
  { intros b' Hb'. destruct Hring as [l Hr]. apply (ring_lookup _ _ Hr). lia. }
  destruct (decide (m = n)) as [-> |Hne].
  - destruct (Hnew b Hb) as [y' Hy']. exists b, y'. split_and!; [done..|].
    destruct (step_lookup b y' Hy') as (y & Hy & Hd). rewrite decide_True in Hd by done. subst.
    by eapply caches_unlinked.
  - destruct (Hs m Hne) as [Hsm _]. rewrite (same_at_used _ _ _ Hsm) in Hu.
    destruct (br_used _ _ Hf m Hu) as (b' & y & Hb' & Hy & Hc).
    assert (Hbb' : b' ≠ b).
    { intros ->. simplify_eq. destruct Hold as [[_ <-]|[H0 _]]; [by destruct Hc|].
      destruct (br_bufs _ _ Hf b Hb) as (z & k & Hz & _ & Hok). simplify_eq. destruct Hc as [Hd <-].
      apply refs_used in Hu. by rewrite <- (bb_refs _ _ _ _ _ (bo_block _ _ _ _ Hok Hd)) in Hu. }
    destruct (Hnew b' Hb') as [y' Hy']. exists b', y'. split_and!; [done..|].
    destruct (step_lookup b' y' Hy') as (y1 & Hy1 & Hd). rewrite decide_False in Hd by done.
    assert (y1 = y) as -> by congruence.
    by eapply caches_unlinked.
Qed.
Lemma brep_step :
  (¬ used β' n → bview β' n = disk_block (bhist β') n) → length (bview β' n) = Z.to_nat BSIZE →
  brep f' β'.
Proof.
  intros Hcl Hlen. split; [done|done|apply step_bufs|apply step_uniq|apply step_used| |].
  - intros m Hm. destruct (decide (m = n)) as [-> |Hne]; [by apply Hcl|].
    destruct (Hs m Hne) as [Hsm ->]. rewrite (proj1 Hsm). apply (br_clean _ _ Hf). by rewrite <- (same_at_used _ _ _ Hsm).
  - intros m. destruct (decide (m = n)) as [-> |Hne]; [done|]. destruct (Hs m Hne) as [[-> _] _]. apply (br_len _ _ Hf).
Qed.
End step.

(** ** The buffer for a block *)

Section choice.
Context (f : fsst) (β : bst) (l : list nat) (n : Z).
Context (Hf : brep f β) (Hr : ring (bufs f) l).

Lemma has_block_caches m b x : bufs f !! b = Some x → has_block (bufs f) dev m b = true ↔ caches x m.
Proof. intros Hx. unfold has_block, caches. rewrite Hx, andb_true_iff, !Z.eqb_eq. done. Qed.

(** when every buffer is in use, as many blocks are *)
Lemma all_used_size :
  (∀ b x, (b < NBUF)%nat → bufs f !! b = Some x → b_refcnt x ≠ 0) →
  (NBUF ≤ size (pinned β ∪ dom (bhold β)))%nat.
Proof.
  intros Hall. set (num := λ b, if bufs f !! b is Some x then b_blockno x else 0).
  assert (Hn : ∀ b, b ∈ seq 0 NBUF → ∃ x, bufs f !! b = Some x ∧ caches x (num b) ∧ used β (num b)).
  { intros b [_ Hb]%elem_of_seq. destruct (br_bufs _ _ Hf b Hb) as (x & k & Hx & _ & Hok). exists x.
    unfold num. rewrite Hx. destruct (decide (b_dev x = dev)) as [Hd|Hd].
    - split_and!; [done..|]. apply refs_used. rewrite <- (bb_refs _ _ _ _ _ (bo_block _ _ _ _ Hok Hd)). by eapply Hall.
    - destruct (Hall b x Hb Hx). apply (bo_other _ _ _ _ Hok Hd). }
  assert (Hnd : NoDup (num <$> seq 0 NBUF)).
  { apply NoDup_fmap_2_strong; [|apply NoDup_seq]. intros b1 b2 H1 H2 He.
    destruct (Hn b1 H1) as (x1 & Hx1 & C1 & _), (Hn b2 H2) as (x2 & Hx2 & C2 & _). rewrite He in C1.
    apply elem_of_seq in H1 as [_ H1], H2 as [_ H2]. by eapply (br_uniq _ _ Hf b1 b2). }
  pose proof (size_list_to_set (C := gset Z) _ Hnd) as Hsz. rewrite length_fmap, length_seq in Hsz. rewrite <- Hsz.
  apply subseteq_size. intros m (b & -> & (x & _ & _ & Hu)%Hn)%elem_of_list_to_set%list_elem_of_fmap.
  apply elem_of_union. by rewrite elem_of_dom.
Qed.

Definition chosen (hit : bool) (x : buf) : Prop :=
  if hit then caches x n
  else b_refcnt x = 0 ∧ ∀ b' y, (b' < NBUF)%nat → bufs f !! b' = Some y → ¬ caches y n.
Lemma choice_ok :
  used β n ∨ (size (pinned β ∪ dom (bhold β)) < NBUF)%nat →
  ∃ hit b x k, bget_choice (bufs f) l dev n = Some (hit, b) ∧ (b < NBUF)%nat ∧ bufs f !! b = Some x ∧
    sleeplocks f !! b = Some k ∧ buf_ok β b x k ∧ chosen hit x.
Proof.
  intros Hroom. unfold bget_choice.
  assert (Hin : ∀ b, In b l ↔ (b < NBUF)%nat) by (intros b; rewrite <- list_elem_of_In; apply (ring_elem _ _ Hr)).
  destruct (List.find (has_block (bufs f) dev n) l) as [b|] eqn:Hfind.
  - apply find_some in Hfind as [Hb%Hin Hc]. destruct (br_bufs _ _ Hf b Hb) as (x & k & Hx & Hk & Hok).
    exists true, b, x, k. split_and!; try done. by apply (has_block_caches n b).
  - assert (Hno : ∀ b y, (b < NBUF)%nat → bufs f !! b = Some y → ¬ caches y n).
    { intros b y Hb Hy Hc%(has_block_caches n b y Hy). apply Hin in Hb. by rewrite (find_none _ _ Hfind b Hb) in Hc. }
    destruct (List.find (unused (bufs f)) (rev l)) as [b|] eqn:Hun; simpl.
    + apply find_some in Hun as [Hb Hc]. apply in_rev, Hin in Hb.
      destruct (br_bufs _ _ Hf b Hb) as (x & k & Hx & Hk & Hok). exists false, b, x, k. split_and!; try done.
      unfold unused in Hc. rewrite Hx in Hc. by apply Z.eqb_eq in Hc.
    + exfalso. destruct Hroom as [Hu|Hsz].
      { destruct (br_used _ _ Hf n Hu) as (b & x & Hb & Hx & Hc). by eapply Hno. }
      enough (NBUF ≤ size (pinned β ∪ dom (bhold β)))%nat by lia. apply all_used_size. intros b x Hb Hx H0.
      apply Hin, in_rev in Hb. specialize (find_none _ _ Hun b Hb). unfold unused. rewrite Hx, H0. done.
Qed.

(** as many blocks in use as there are buffers: every buffer has one *)
Lemma used_buffer m : used β m →
  ∃ b x, List.find (has_block (bufs f) dev m) (seq 0 NBUF) = Some b ∧ (b < NBUF)%nat ∧ bufs f !! b = Some x ∧ caches x m.
Proof.
  intros Hm. destruct (br_used _ _ Hf m Hm) as (b & x & Hb & Hx & Hc).
  destruct (List.find (has_block (bufs f) dev m) (seq 0 NBUF)) as [b'|] eqn:Hfd.
  - apply find_some in Hfd as [Hb' Hc']. apply in_seq in Hb'. destruct (br_bufs _ _ Hf b') as (y & k & Hy & _); [lia|].
    exists b', y. split_and!; [done|lia|done|]. by apply (has_block_caches m b').
  - apply (has_block_caches m b x Hx) in Hc. by rewrite (find_none _ _ Hfd b) in Hc by (apply in_seq; lia).
Qed.
Lemma full_used b :
  (NBUF ≤ size (pinned β ∪ dom (bhold β)))%nat → (b < NBUF)%nat →
  ∃ m x, used β m ∧ bufs f !! b = Some x ∧ caches x m.
Proof.
  intros Hsz Hb. set (U := elements (pinned β ∪ dom (bhold β))).
  set (buf_of := λ m, default 0%nat (List.find (has_block (bufs f) dev m) (seq 0 NBUF))).
  assert (HU : ∀ m, m ∈ U → used β m ∧ ∃ x, (buf_of m < NBUF)%nat ∧ bufs f !! buf_of m = Some x ∧ caches x m).
  { intros m Hm%elem_of_elements. assert (Hu : used β m).
    { apply elem_of_union in Hm as [?|?%elem_of_dom]; [by left|by right]. }
    split; [done|]. unfold buf_of. destruct (used_buffer m Hu) as (b' & x & -> & ? & ? & ?). by exists x. }
  assert (Hsub : buf_of <$> U ⊆+ seq 0 NBUF).
  { apply NoDup_submseteq.
    - apply NoDup_fmap_2_strong; [|apply NoDup_elements]. intros m1 m2 H1 H2 He.
      destruct (HU m1 H1) as (_ & x1 & _ & Hx1 & [_ <-]), (HU m2 H2) as (_ & x2 & _ & Hx2 & [_ <-]). congruence.
    - intros b' (m & -> & Hm)%list_elem_of_fmap. apply elem_of_seq. destruct (HU m Hm) as (_ & x & ? & _). lia. }
  apply submseteq_length_Permutation in Hsub; [|rewrite length_seq, length_fmap; exact Hsz].
  assert (Hin : b ∈ buf_of <$> U) by (rewrite Hsub; apply elem_of_seq; lia).
  apply list_elem_of_fmap in Hin as (m & -> & Hm). destruct (HU m Hm) as (Hu & x & _ & Hx & Hc). by exists m, x.
Qed.
Lemma choice_full :
  ¬ used β n → (NBUF ≤ size (pinned β ∪ dom (bhold β)))%nat → bget_choice (bufs f) l dev n = None.
Proof.
  intros Hn Hsz. unfold bget_choice.
  assert (Hin : ∀ b, In b l → (b < NBUF)%nat) by (intros b; rewrite <- list_elem_of_In; apply (ring_elem _ _ Hr)).
  destruct (List.find (has_block (bufs f) dev n) l) as [b|] eqn:H1.
  { apply find_some in H1 as [Hb%Hin Hc]. destruct (full_used b Hsz Hb) as (m & x & Hu & Hx & [_ Hm]).
    apply (has_block_caches n b x Hx) in Hc as [_ Hc]. congruence. }
  destruct (List.find (unused (bufs f)) (rev l)) as [b|] eqn:H2; [|done].
  apply find_some in H2 as [Hb Hz]. apply in_rev, Hin in Hb.
  destruct (full_used b Hsz Hb) as (m & x & Hu & Hx & [Hd Hm]). unfold unused in Hz. rewrite Hx, Z.eqb_eq in Hz.
  destruct (br_bufs _ _ Hf b Hb) as (y & k & Hy & _ & Hok). simplify_eq.
  apply refs_used in Hu. by rewrite <- (bb_refs _ _ _ _ _ (bo_block _ _ _ _ Hok Hd)) in Hu.
Qed.
End choice.
End rep.

(** ** The disk

    What the cache relies on: [virtio_disk_rw] fills the buffer with the
    block, or adds the buffer's block to the history of the disk. *)

Class DiskOk (E : stop → Prop) (G : kstate → Prop) (R : kstate → kstate → Prop)
    (X : gmap Z Z → vdisk → Prop) (p : nat) (pid : Z) `{DR : DiskRw} : Prop := {
  disk_rw_read b x f (Q : unit → gset lockid → fsst → Prop) :
    (b < NBUF)%nat → bufs f !! b = Some x → b_disk x = 0 → block_ok (b_blockno x) →
    length (b_data x) = Z.to_nat BSIZE →
    Q tt ∅ (f <| bufs ::= <[b := x <| b_data := disk_block (disk_writes f) (b_blockno x) |>]> |>) →
    fwp E G R X p pid (virtio_disk_rw b false) ∅ f Q;
  disk_rw_write b x f (Q : unit → gset lockid → fsst → Prop) :
    (b < NBUF)%nat → bufs f !! b = Some x → b_disk x = 0 → block_ok (b_blockno x) →
    length (b_data x) = Z.to_nat BSIZE →
    Q tt ∅ (f <| disk_writes ::= cons (b_blockno x, b_data x) |>) →
    fwp E G R X p pid (virtio_disk_rw b true) ∅ f Q
}.

(** the file system state outside the cache *)
Record same_rest (f f' : fsst) : Prop := {
  sr_log : log f' = log f;
  sr_sb : sb f' = sb f;
  sr_inodes : inodes f' = inodes f;
  sr_files : files f' = files f;
  sr_locks : drop NBUF (sleeplocks f') = drop NBUF (sleeplocks f)
}.
Lemma drop_insert_buf {A} (l : list A) b x : (b < NBUF)%nat → drop NBUF (<[b := x]> l) = drop NBUF l.
Proof. intros Hb. by rewrite drop_insert_lt. Qed.

Section ops.
Context (E : stop → Prop) (G : kstate → Prop) (R : kstate → kstate → Prop).
Context (X : gmap Z Z → vdisk → Prop) (p : nat) (pid : Z).
Context {DR : DiskRw} {DOK : DiskOk E G R X p pid} (fuel : nat) (dev : Z).
#[local] Abbreviation fwp := (fwp E G R X p pid).
#[local] Abbreviation brep := (brep dev pid).

(** [m] runs on a cache that represents [β], with the rest of the file
    system state as in [r] *)
Definition cwp {A} (m : KM A) (H : gset lockid) (β : bst) (r : fsst)
    (Q : A → gset lockid → bst → fsst → Prop) : Prop :=
  ∀ f, brep f β → same_rest r f →
    fwp m H f (λ a H' f', ∃ β' r', brep f' β' ∧ same_rest r' f' ∧ Q a H' β' r').

Lemma cwp_mono {A} (m : KM A) H β r (Q Q' : A → gset lockid → bst → fsst → Prop) :
  (∀ a H' β' r', Q a H' β' r' → Q' a H' β' r') → cwp m H β r Q → cwp m H β r Q'.
Proof.
  intros HQ Hm f Hf Hr. eapply fwp_mono; [|by apply Hm]. intros a H' f' (β' & r' & Hf' & Hr' & HQ').
  exists β', r'. eauto.
Qed.
Lemma cwp_bind {A B} (m : KM A) (k : A → KM B) H β r Q :
  cwp m H β r (λ a H' β' r', cwp (k a) H' β' r' Q) → cwp (bind m k) H β r Q.
Proof.
  intros Hm f Hf Hr. apply fwp_bind. eapply fwp_mono; [|by apply Hm]. intros a H' f' (β' & r' & Hf' & Hr' & HQ').
  by apply HQ'.
Qed.
Lemma cwp_ret {A} (a : A) H β r (Q : A → gset lockid → bst → fsst → Prop) : Q a H β r → cwp (ret a) H β r Q.
Proof. intros HQ f Hf Hr. apply fwp_ret. eauto. Qed.
Lemma cwp_deref {A} (x : option A) a H β r (Q : A → gset lockid → bst → fsst → Prop) :
  x = Some a → Q a H β r → cwp (deref x) H β r Q.
Proof. intros -> HQ. by apply cwp_ret. Qed.

Lemma cwp_len {A} (m : KM A) H β r (Q : A → gset lockid → bst → fsst → Prop) :
  ((∀ n, length (bview β n) = Z.to_nat BSIZE) → cwp m H β r Q) → cwp m H β r Q.
Proof. intros Hm f Hf. apply Hm; [|done]. apply (br_len _ _ _ _ Hf). Qed.

Lemma cwp_clean {A} (m : KM A) H β r (Q : A → gset lockid → bst → fsst → Prop) :
  ((∀ n, ¬ used β n → bview β n = disk_block (bhist β) n) → cwp m H β r Q) → cwp m H β r Q.
Proof. intros Hm f Hf. apply Hm; [|done]. apply (br_clean _ _ _ _ Hf). Qed.

(** what a block's buffer is *)
Lemma brep_held f β n b :
  brep f β → bhold β !! n = Some b →
  ∃ x, (b < NBUF)%nat ∧ bufs f !! b = Some x ∧ sleeplocks f !! b = Some (mk_sleeplock 1 pid) ∧
    caches dev x n ∧ b_data x = bview β n ∧ b_refcnt x = refs β n ∧ b_disk x = 0 ∧ b_valid x ≠ 0.
Proof.
  intros Hf Hn. destruct (br_used _ _ _ _ Hf n) as (b' & x & Hb & Hx & Hc); [right; by exists b|].
  destruct (br_bufs _ _ _ _ Hf b' Hb) as (y & k & Hy & Hk & Hok). simplify_eq.
  destruct Hok as [_ Hd Hbk _]. destruct Hc as [Hdev Hn']. destruct (Hbk Hdev) as [Hr Hv Hdat Hl].
  rewrite Hn', Hn in *. destruct Hl as [-> ->]. assert (Hval : b_valid x ≠ 0) by (apply Hv; right; by exists b').
  exists x. split_and!; try done. by apply Hdat.
Qed.

(** ** [bread] *)

Definition hold (n : Z) (b : nat) (β : bst) : bst := β <| bhold ::= <[n := b]> |>.
Lemma refs_hold n b β : bhold β !! n = None → refs (hold n b β) n = refs β n + 1.
Proof.
  intros Hn. unfold refs, hold. simpl. rewrite Hn, lookup_insert_eq.
  rewrite (bool_decide_eq_true_2 (is_Some (Some b))), (bool_decide_eq_false_2 (is_Some None)) by (by eauto || by intros []).
  simpl. lia.
Qed.
Lemma refs_bounds β n : 0 ≤ refs β n ≤ 2.
Proof. unfold refs. repeat case_bool_decide; simpl; lia. Qed.
Lemma same_at_hold n b β m : m ≠ n → same_at β (hold n b β) m.
Proof. intros Hne. split_and!; [done..|]. simpl. by rewrite lookup_insert_ne. Qed.

Lemma brep_hold f β n b x k x1 hit :
  brep f β → bhold β !! n = None → (b < NBUF)%nat → bufs f !! b = Some x → sleeplocks f !! b = Some k →
  chosen dev f n hit x → caches dev x1 n → b_refcnt x1 = refs β n + 1 → b_valid x1 ≠ 0 →
  b_data x1 = bview β n → b_disk x1 = 0 → b_next x1 = b_next x → b_prev x1 = b_prev x →
  brep (f <| bufs ::= <[b := x1]> |> <| sleeplocks ::= <[b := mk_sleeplock 1 pid]> |>) (hold n b β).
Proof.
  intros Hf Hn Hb Hx Hk Hch Hc Hrc Hv Hdat Hd Hnx Hpv. destruct (br_ring _ _ _ _ Hf) as [l Hr].
  eapply (brep_step dev pid f _ β _ n b x x1); try done.
  - destruct hit; [by left|by right].
  - rewrite Hdat. apply (br_len _ _ _ _ Hf).
  - split; [by rewrite refs_hold|done|by intros _|simpl; by rewrite lookup_insert_eq].
  - exists l. by eapply ring_same_links.
  - apply (br_hist _ _ _ _ Hf).
  - intros m Hm. split; [by apply same_at_hold|done].
  - intros Hu. destruct Hu. right. simpl. rewrite lookup_insert_eq. eauto.
  - apply (br_len _ _ _ _ Hf).
Qed.
Lemma bufs_again f (b : nat) x1 x2 (h : list sleeplock → list sleeplock) :
  f <| bufs ::= <[b := x1]> |> <| sleeplocks ::= h |> <| bufs ::= <[b := x2]> |> =
  f <| bufs ::= <[b := x2]> |> <| sleeplocks ::= h |>.
Proof.
  change (f <| bufs ::= <[b := x1]> |> <| bufs ::= <[b := x2]> |> <| sleeplocks ::= h |> =
    f <| bufs ::= <[b := x2]> |> <| sleeplocks ::= h |>).
  by rewrite (table_insert_twice bufs).
Qed.
Lemma same_rest_buf r f b g k :
  (b < NBUF)%nat → same_rest r f → same_rest r (f <| bufs ::= g |> <| sleeplocks ::= <[b := k]> |>).
Proof. intros Hb [Hl Hs Hi Hfl Hlk]. split; try done. simpl. by rewrite drop_insert_buf. Qed.

(** there is a buffer for the block *)
Definition room (β : bst) (n : Z) : Prop := used β n ∨ (size (pinned β ∪ dom (bhold β)) < NBUF)%nat.

Lemma chosen_unlocked f β n hit b x k :
  brep f β → bhold β !! n = None → buf_ok dev pid β b x k → chosen dev f n hit x → sl_locked k = 0.
Proof.
  intros Hf Hn [_ _ Hbk Ho] Hc. destruct (decide (b_dev x = dev)) as [Hd|Hd]; [|by apply Ho].
  destruct (Hbk Hd) as [Hr _ _ Hl]. destruct hit.
  - destruct Hc as [_ Hc]. by rewrite Hc, Hn in Hl.
  - destruct Hc as [H0 _]. destruct (bhold β !! b_blockno x) eqn:Hh; [|done].
    assert (Hu : used β (b_blockno x)) by (right; eauto). apply refs_used in Hu. congruence.
Qed.
Record got (β : bst) (n : Z) (x xb : buf) : Prop := {
  got_caches : caches dev xb n;
  got_refs : b_refcnt xb = refs β n + 1;
  got_disk : b_disk xb = 0;
  got_len : length (b_data xb) = Z.to_nat BSIZE;
  got_data : b_valid xb ≠ 0 → b_data xb = bview β n;
  got_used : used β n → b_valid xb ≠ 0;
  got_links : b_next xb = b_next x ∧ b_prev xb = b_prev x
}.
Lemma chosen_got f β n hit b x k :
  brep f β → bhold β !! n = None → buf_ok dev pid β b x k → chosen dev f n hit x →
  got β n x (bget_buf hit dev n x).
Proof.
  intros Hf Hn [Hlen Hd Hbk Ho] Hc. destruct hit; simpl in *.
  - destruct Hc as [Hdev Hno]. destruct (Hbk Hdev) as [Hr Hv Hdat Hl]. rewrite Hno in *. split; try done.
    simpl. rewrite Hr. apply Z.mod_small. pose proof (refs_bounds β n). lia.
  - destruct Hc as [H0 Hno]. assert (Hu : ¬ used β n).
    { intros (b' & y & Hb' & Hy & Hcy)%(br_used _ _ _ _ Hf). by eapply Hno. }
    split; try done. rewrite <- refs_used in Hu. simpl. lia.
Qed.

Lemma cwp_bread n β r (Q : nat → gset lockid → bst → fsst → Prop) :
  bhold β !! n = None → block_ok n → room β n →
  (∀ b, Q b ∅ (hold n b β) r) → cwp (bread (S fuel) dev n) ∅ β r Q.
Proof.
  intros Hn Hok Hroom HQ f Hf Hr. destruct (br_ring _ _ _ _ Hf) as [l Hl].
  destruct (choice_ok dev pid f β l n Hf Hl Hroom) as (hit & b & x & k & Hch & Hb & Hx & Hk & Hbo & Hcs).
  pose proof (chosen_unlocked _ _ _ _ _ _ _ Hf Hn Hbo Hcs) as Hlk.
  pose proof (chosen_got _ _ _ _ _ _ _ Hf Hn Hbo Hcs) as [Gc Gr Gd Gl Gv Gu [Gn Gp]].
  assert (Hins : ∀ y, <[b := y]> (bufs f) !! b = Some y) by (intros y; by eapply list_lookup_insert_eq, lookup_lt_Some).
  apply fwp_bind. eapply fwp_bget; [done..|]. set (xb := bget_buf hit dev n x) in *.
  assert (Hend : ∀ x1, caches dev x1 n → b_refcnt x1 = refs β n + 1 → b_valid x1 ≠ 0 → b_data x1 = bview β n →
    b_disk x1 = 0 → b_next x1 = b_next x → b_prev x1 = b_prev x →
    fwp (ret b) ∅ (f <| bufs ::= <[b := x1]> |> <| sleeplocks ::= <[b := mk_sleeplock 1 pid]> |>)
      (λ a H' f', ∃ β' r', brep f' β' ∧ same_rest r' f' ∧ Q a H' β' r')).
  { intros x1 H1 H2 H3 H4 H5 H6 H7. apply fwp_ret. exists (hold n b β), r.
    split_and!; [by eapply brep_hold|by apply same_rest_buf|done]. }
  apply fwp_bind. eapply (fwp_rdt E G R X p pid bufs); [apply Hins|]. apply fwp_bind.
  destruct (Z.eqb_spec (b_valid xb) 0) as [Hv|Hv]; simpl.
  - apply fwp_bind. eapply disk_rw_read; [done|apply Hins|done|by rewrite (proj2 Gc)|done|].
    eapply (fwp_wrt E G R X p pid bufs); [eapply (table_lookup bufs), Hins|].
    rewrite !bufs_again. apply Hend; try done. simpl. rewrite (proj2 Gc), (br_hist _ _ _ _ Hf).
    symmetry. apply (br_clean _ _ _ _ Hf). naive_solver.
  - apply fwp_ret. apply Hend; try done. by apply Gv.
Qed.

Lemma cwp_bread_full n β r (Q : nat → gset lockid → bst → fsst → Prop) :
  ¬ used β n → (NBUF ≤ size (pinned β ∪ dom (bhold β)))%nat → E (StopPanic "bget: no buffers") →
  cwp (bread (S fuel) dev n) ∅ β r Q.
Proof.
  intros Hn Hsz HE f Hf Hr. destruct (br_ring _ _ _ _ Hf) as [l Hl]. apply fwp_bind.
  eapply fwp_bget_full; [done| |done]. by eapply choice_full.
Qed.

(** ** [brelse] *)

Definition unhold (n : Z) (β : bst) : bst := β <| bhold ::= delete n |>.
Lemma refs_unhold n β : is_Some (bhold β !! n) → refs (unhold n β) n = refs β n - 1.
Proof.
  intros Hn. unfold refs, unhold. simpl. rewrite lookup_delete_eq.
  rewrite (bool_decide_eq_true_2 _ Hn), (bool_decide_eq_false_2 (is_Some None)) by (by intros []).
  simpl. lia.
Qed.
Lemma same_at_unhold n β m : m ≠ n → same_at β (unhold n β) m.
Proof. intros Hne. split_and!; [done..|]. simpl. by rewrite lookup_delete_ne. Qed.

Lemma cwp_brelse n b β r (Q : unit → gset lockid → bst → fsst → Prop) :
  bhold β !! n = Some b → (n ∈ pinned β ∨ bview β n = disk_block (bhist β) n) →
  Q tt ∅ (unhold n β) r → cwp (brelse b) ∅ β r Q.
Proof.
  intros Hn Hc HQ f Hf Hr. destruct (br_ring _ _ _ _ Hf) as [l Hl].
  destruct (brep_held _ _ _ _ Hf Hn) as (x & Hb & Hx & Hk & Hcx & Hdat & Hrc & Hd & Hv).
  pose proof (proj2 (ring_elem _ _ Hl b) Hb) as (l1 & l2 & ->)%list_elem_of_split.
  eapply fwp_brelse; [done..|]. intros g Hg1 Hg2. exists (unhold n β), r.
  pose proof (refs_bounds β n) as Hbd.
  assert (Hpos : refs β n ≠ 0) by (apply refs_used; right; eauto).
  split_and!; [|by apply (same_rest_buf r f b g)|done].
  eapply (brep_step dev pid f _ β _ n b x (x <| b_refcnt ::= λ r, u32 (r - 1) |>) (mk_sleeplock 0 0)); try done.
  - by left.
  - simpl. rewrite Hdat. apply (br_len _ _ _ _ Hf).
  - split; simpl; [|done|done|by rewrite lookup_delete_eq]. rewrite refs_unhold, Hrc by eauto. apply Z.mod_small. lia.
  - eauto.
  - apply (br_hist _ _ _ _ Hf).
  - intros m Hm. split; [by apply same_at_unhold|done].
  - intros Hu. destruct Hc as [Hc|]; [|done]. destruct Hu. by left.
  - apply (br_len _ _ _ _ Hf).
Qed.

(** ** The data of a held buffer *)

(** the view with block [n] set to [d] *)
Definition setv (n : Z) (d : list Z) (v : Z → list Z) : Z → list Z := λ m, if decide (m = n) then d else v m.
Lemma setv_eq n d v : setv n d v n = d.
Proof. unfold setv. by rewrite decide_True by done. Qed.
Lemma setv_ne n d v m : m ≠ n → setv n d v m = v m.
Proof. intros Hm. unfold setv. by rewrite decide_False by done. Qed.

Lemma cwp_rd_buf {T} (g : buf → T) n b H β r (Q : T → gset lockid → bst → fsst → Prop) :
  bhold β !! n = Some b →
  (∀ x, caches dev x n → b_data x = bview β n → Q (g x) H β r) → cwp (rdt bufs b g) H β r Q.
Proof.
  intros Hn HQ f Hf Hr. destruct (brep_held _ _ _ _ Hf Hn) as (x & Hb & Hx & Hk & Hcx & Hdat & Hrc & Hd & Hv).
  eapply (fwp_rdt E G R X p pid bufs); [done|]. exists β, r. split_and!; [done..|]. by apply HQ.
Qed.
Lemma cwp_wr_data n b d H β r (Q : unit → gset lockid → bst → fsst → Prop) :
  bhold β !! n = Some b → length d = Z.to_nat BSIZE →
  Q tt H (β <| bview ::= setv n d |>) r → cwp (wrt bufs b b_data d) H β r Q.
Proof.
  intros Hn Hd HQ f Hf Hr. destruct (br_ring _ _ _ _ Hf) as [l Hl].
  destruct (brep_held _ _ _ _ Hf Hn) as (x & Hb & Hx & Hk & Hcx & Hdat & Hrc & Hdk & Hv).
  eapply (fwp_wrt E G R X p pid bufs); [done|]. exists (β <| bview ::= setv n d |>), r. split_and!; [| |done].
  - eapply (brep_step dev pid f _ β _ n b x (x <| b_data := d |>) (mk_sleeplock 1 pid)); try done.
    + by left.
    + split; simpl; [done|done|by rewrite setv_eq|by rewrite Hn].
    + exists l. by eapply ring_same_links.
    + simpl. by rewrite list_insert_id.
    + apply (br_hist _ _ _ _ Hf).
    + intros m Hm. split; [|done]. split_and!; [by apply setv_ne|done..].
    + intros Hu. destruct Hu. right. by exists b.
    + simpl. by rewrite setv_eq.
  - by destruct Hr.
Qed.

(** ** [bwrite] *)

Lemma cwp_bwrite n b β r (Q : unit → gset lockid → bst → fsst → Prop) :
  bhold β !! n = Some b → block_ok n →
  Q tt ∅ (β <| bhist ::= cons (n, bview β n) |>) r → cwp (bwrite b) ∅ β r Q.
Proof.
  intros Hn Hok HQ f Hf Hr. destruct (br_ring _ _ _ _ Hf) as [l Hl].
  destruct (brep_held _ _ _ _ Hf Hn) as (x & Hb & Hx & Hk & Hcx & Hdat & Hrc & Hdk & Hv).
  apply fwp_bind, fwp_holdingsleep; [done|set_solver|]. simpl.
  eapply disk_rw_write; [done..|by rewrite (proj2 Hcx)| |].
  { rewrite Hdat. apply (br_len _ _ _ _ Hf). }
  exists (β <| bhist ::= cons (n, bview β n) |>), r. split_and!; [| |done].
  - eapply (brep_step dev pid f _ β _ n b x x (mk_sleeplock 1 pid)); try done.
    + by left.
    + rewrite Hdat. apply (br_len _ _ _ _ Hf).
    + split; simpl; [done|done|done|by rewrite Hn].
    + exists l. done.
    + simpl. by rewrite list_insert_id.
    + simpl. by rewrite list_insert_id.
    + simpl. by rewrite (br_hist _ _ _ _ Hf), Hdat, (proj2 Hcx).
    + intros m Hm. split; [done|]. simpl. by rewrite (proj2 (Z.eqb_neq n m)) by done.
    + intros Hu. destruct Hu. right. by exists b.
    + apply (br_len _ _ _ _ Hf).
  - by destruct Hr.
Qed.

(** ** [bpin] and [bunpin] *)

Section refcnt.
Context (n : Z) (b : nat) (H : gset lockid) (β β' : bst) (r : fsst) (d : Z).
Context (Hn : bhold β !! n = Some b) (HH : bcache_lock ∉ H).
Context (Hv : bview β' = bview β) (Hh : bhold β' = bhold β) (Hi : bhist β' = bhist β).
Context (Hp : ∀ m, m ≠ n → (m ∈ pinned β' ↔ m ∈ pinned β)) (Hd : refs β' n = refs β n + d).
Lemma cwp_refcnt (Q : unit → gset lockid → bst → fsst → Prop) :
  Q tt H β' r →
  cwp (acquire bcache_lock ;; updt bufs b (λ x, x <| b_refcnt ::= λ r, u32 (r + d) |>) ;; release bcache_lock) H β r Q.
Proof.
  intros HQ f Hf Hr. destruct (br_ring _ _ _ _ Hf) as [l Hl].
  destruct (brep_held _ _ _ _ Hf Hn) as (x & Hb & Hx & Hk & Hcx & Hdat & Hrc & Hdk & Hvx).
  apply fwp_bind, fwp_acquire; [done|]. apply fwp_bind. eapply (fwp_updt E G R X p pid bufs); [done|].
  apply fwp_release; [done|]. exists β', r. split_and!; [|by destruct Hr|done].
  assert (Hu : used β' n) by (right; rewrite Hh; eauto).
  eapply (brep_step dev pid f _ β _ n b x (x <| b_refcnt ::= λ r, u32 (r + d) |>) (mk_sleeplock 1 pid)); try done.
  - by left.
  - simpl. rewrite Hdat. apply (br_len _ _ _ _ Hf).
  - split; simpl; [|done|by rewrite Hv|by rewrite Hh, Hn]. rewrite Hrc, <- Hd. apply Z.mod_small.
    pose proof (refs_bounds β' n). lia.
  - exists l. by eapply ring_same_links.
  - simpl. by rewrite list_insert_id.
  - rewrite Hi. apply (br_hist _ _ _ _ Hf).
  - intros m Hm. split; [|by rewrite Hi]. split_and!; [by rewrite Hv|by apply Hp|by rewrite Hh].
  - rewrite Hv. apply (br_len _ _ _ _ Hf).
Qed.
End refcnt.

Lemma cwp_bpin n b H β r (Q : unit → gset lockid → bst → fsst → Prop) :
  bhold β !! n = Some b → n ∉ pinned β → bcache_lock ∉ H →
  Q tt H (β <| pinned ::= λ s, {[n]} ∪ s |>) r → cwp (bpin b) H β r Q.
Proof.
  intros Hn Hp HH HQ. apply (cwp_refcnt n b H β (β <| pinned ::= λ s, {[n]} ∪ s |>) r 1); try done.
  - intros m Hm. simpl. rewrite elem_of_union, elem_of_singleton. naive_solver.
  - unfold refs. simpl. rewrite (bool_decide_eq_false_2 (n ∈ pinned β)), bool_decide_eq_true_2 by set_solver. simpl. lia.
Qed.
Lemma cwp_bunpin n b H β r (Q : unit → gset lockid → bst → fsst → Prop) :
  bhold β !! n = Some b → n ∈ pinned β → bcache_lock ∉ H →
  Q tt H (β <| pinned ::= λ s, s ∖ {[n]} |>) r → cwp (bunpin b) H β r Q.
Proof.
  intros Hn Hp HH HQ. apply (cwp_refcnt n b H β (β <| pinned ::= λ s, s ∖ {[n]} |>) r (-1)); try done.
  - intros m Hm. simpl. rewrite elem_of_difference, elem_of_singleton. naive_solver.
  - unfold refs. simpl. rewrite (bool_decide_eq_true_2 (n ∈ pinned β)) by done.
    rewrite (bool_decide_eq_false_2 (n ∈ _ ∖ _)) by set_solver. simpl. lia.
Qed.

(** ** Code outside the cache *)

Lemma cwp_frame {A} (m : KM A) H β r (Q : A → gset lockid → bst → fsst → Prop) :
  (∀ f (P : A → gset lockid → fsst → Prop), (∀ a H', Q a H' β r → P a H' f) → fwp m H f P) → cwp m H β r Q.
Proof. intros Hm f Hf Hr. apply Hm. intros a H' HQ. by exists β, r. Qed.
Lemma cwp_acquire l H β r (Q : unit → gset lockid → bst → fsst → Prop) :
  l ∉ H → Q tt ({[l]} ∪ H) β r → cwp (acquire l) H β r Q.
Proof. intros Hl HQ. apply cwp_frame. intros f P HP. apply fwp_acquire; [done|]. by apply HP. Qed.
Lemma cwp_release l H β r (Q : unit → gset lockid → bst → fsst → Prop) :
  l ∉ H → Q tt H β r → cwp (release l) ({[l]} ∪ H) β r Q.
Proof. intros Hl HQ. apply cwp_frame. intros f P HP. apply fwp_release; [done|]. by apply HP. Qed.
Lemma cwp_wakeup c H β r (Q : unit → gset lockid → bst → fsst → Prop) :
  (∀ i, p_lock i ∉ H) → Q tt H β r → cwp (wakeup c) H β r Q.
Proof. intros HH HQ. apply cwp_frame. intros f P HP. apply fwp_wakeup; [done|]. by apply HP. Qed.
Lemma cwp_printf fmt ap l H β r (Q : unit → gset lockid → bst → fsst → Prop) :
  format_text (length fmt) fmt ap = Some l → pr_lock ∉ H → Q tt H β r → cwp (printf fmt ap) H β r Q.
Proof. intros Hl HH HQ. apply cwp_frame. intros f P HP. eapply fwp_printf; [done..|]. by apply HP. Qed.
Lemma cwp_rd_fs {T} (g : fsst → T) H β r (Q : T → gset lockid → bst → fsst → Prop) :
  (∀ f, same_rest r f → g f = g r) → Q (g r) H β r → cwp (rd_fs g) H β r Q.
Proof.
  intros Hg HQ f Hf Hr. apply fwp_rd_fs.
  - intros d. rewrite (Hg f Hr). apply Hg. by destruct Hr.
  - rewrite Hg by done. by exists β, r.
Qed.
Lemma brep_ext f f' β :
  bufs f' = bufs f → take NBUF (sleeplocks f') = take NBUF (sleeplocks f) → disk_writes f' = disk_writes f →
  brep f β → brep f' β.
Proof.
  intros Hb Hs Hd [H1 H2 H3 H4 H5 H6 H7].
  split; rewrite ?Hb, ?Hd; try done. intros b Hlt. destruct (H3 b Hlt) as (x & k & Hx & Hk & Hok).
  exists x, k. split_and!; [done| |done]. rewrite <- (lookup_take_lt _ _ _ Hlt), Hs. by rewrite lookup_take_lt.
Qed.
(** a change of the rest of the state *)
Lemma cwp_modify g H β r (Q : unit → gset lockid → bst → fsst → Prop) :
  (∀ f d, g (f <| vd := d |>) = (g f) <| vd := d |>) →
  (∀ f, bufs (g f) = bufs f ∧ take NBUF (sleeplocks (g f)) = take NBUF (sleeplocks f) ∧
     disk_writes (g f) = disk_writes f) →
  (∀ f, same_rest r f → same_rest (g r) (g f)) →
  Q tt H β (g r) → cwp (modify (λ s, s <| k_fs ::= g |>)) H β r Q.
Proof.
  intros Hv Hg Hr HQ f Hf Hs. apply fwp_modify; [done|]. exists β, (g r). destruct (Hg f) as (? & ? & ?).
  split_and!; [by eapply brep_ext|by apply Hr|done].
Qed.

(** ** Words of a held block *)

Lemma cwp_data_le k n b off v H β r (Q : Z → gset lockid → bst → fsst → Prop) :
  bhold β !! n = Some b → load_le k (bview β n) off = Some v → Q v H β r → cwp (data_le k b off) H β r Q.
Proof.
  intros Hn Hv HQ. apply cwp_bind. eapply cwp_rd_buf; [done|]. intros x _ ->. by eapply cwp_deref.
Qed.
Lemma cwp_set_data_le k n b off v d H β r (Q : unit → gset lockid → bst → fsst → Prop) :
  bhold β !! n = Some b → store_le k (bview β n) off v = Some d → length d = Z.to_nat BSIZE →
  Q tt H (β <| bview ::= setv n d |>) r → cwp (set_data_le k b off v) H β r Q.
Proof.
  intros Hn Hd Hlen HQ. apply cwp_bind. eapply cwp_rd_buf; [done|]. intros x _ ->.
  apply cwp_bind. eapply cwp_deref; [done|]. by eapply cwp_wr_data.
Qed.
Lemma cwp_set_data n b off l d H β r (Q : unit → gset lockid → bst → fsst → Prop) :
  bhold β !! n = Some b → store_bytes (bview β n) off l = Some d → length d = Z.to_nat BSIZE →
  Q tt H (β <| bview ::= setv n d |>) r → cwp (set_data b off l) H β r Q.
Proof.
  intros Hn Hd Hlen HQ. apply cwp_bind. eapply cwp_rd_buf; [done|]. intros x _ ->.
  apply cwp_bind. eapply cwp_deref; [done|]. by eapply cwp_wr_data.
Qed.
End ops.
