(* ===== verification/Log.v ===== *)
(** * The log, [kernel/log.c]

    A system call brackets its writes with [begin_op] and [end_op] and calls
    [log_write] for each block it changes, which only records the block and
    pins its buffer.  When the last system call ends, [commit] writes the
    blocks to the log on disk, writes the log's header, installs the blocks
    at their places and clears the header; [recover_from_log] installs what a
    complete header describes.

    [log.lh.n] is at most [LOGBLOCKS], so that [S LOGBLOCKS] turns are enough
    for a loop over the log. *)

From S2P Require Import Prelude Fsdata Kstate Spinlock Runqueue Sched Bytes Layout Kalloc Printf Sleeplock Bio.
#[local] Open Scope Z_scope.

(** [log.f], [log.f = v] *)
Definition rd_log {T} (f : logst → T) : KM T := rd_fs (λ x, f (log x)).
Definition upd_log (g : logst → logst) : KM unit :=
  modify (λ s, s <| k_fs ::= λ x, x <| log ::= g |> |>).
Definition wr_log {T} (f : logst → T) `{!Setter f} (v : T) : KM unit := upd_log (λ l, l <| f := v |>).
(** [log.lh.block[i]], and its assignment *)
Definition block_at (i : Z) : KM Z := let* l := rd_log lh_block in deref (l !! Z.to_nat i).
Definition set_block (i v : Z) : KM unit :=
  let* l := rd_log lh_block in
  if i <? Z.of_nat (length l) then wr_log lh_block (<[Z.to_nat i := s32 v]> l) else fault.

(** [for(i = 0; i < log.lh.n; i++) body] *)
Fixpoint for_log (turns : nat) (i : Z) (body : Z → KM unit) : KM unit :=
  match turns with
  | O => stop_with StopFuel
  | S turns =>
      let* n := rd_log lh_n in
      if i <? n then body i ;; for_log turns (i + 1) body else ret tt
  end.

Section code.
Context {DR : DiskRw} (fuel : nat).

(** [bread] of a block number that is an [int] *)
Definition log_bread (n : Z) : KM nat :=
  let* dev := rd_log log_dev in bread fuel (u32 dev) (u32 n).

(** the body of the loop of [install_trans] *)
Definition install_block (recovering : bool) (tail : Z) : KM unit :=
  when recovering (
    let* dst := block_at tail in
    printf (str "recovering tail %d dst %d" ++ [10]) [Aint tail; Aint dst]) ;;
  let* start := rd_log log_start in
  let* lbuf := log_bread (start + tail + 1) in
  let* dst := block_at tail in
  let* dbuf := log_bread dst in
  let* d := rdt bufs lbuf b_data in
  set_data dbuf 0 d ;;
  bwrite dbuf ;;
  when (negb recovering) (bunpin dbuf) ;;
  brelse lbuf ;;
  brelse dbuf.
Definition install_trans (recovering : bool) : KM unit :=
  for_log (S LOGBLOCKS) 0 (install_block recovering).

Definition read_head : KM unit :=
  let* start := rd_log log_start in
  let* buf := log_bread start in
  let* n := data_le 4 buf 0 in
  wr_log lh_n (s32 n) ;;
  for_log (S LOGBLOCKS) 0 (λ i,
    let* x := data_le 4 buf (4 + 4 * i) in
    set_block i x) ;;
  brelse buf.

Definition write_head : KM unit :=
  let* start := rd_log log_start in
  let* buf := log_bread start in
  let* n := rd_log lh_n in
  set_data_le 4 buf 0 n ;;
  for_log (S LOGBLOCKS) 0 (λ i,
    let* x := block_at i in
    set_data_le 4 buf (4 + 4 * i) x) ;;
  bwrite buf ;;
  brelse buf.

Definition recover_from_log : KM unit :=
  read_head ;;
  install_trans true ;;
  wr_log lh_n 0 ;;
  write_head.

(** [sizeof(struct logheader)] *)
Definition logheader_size : Z := 4 + 4 * Z.of_nat LOGBLOCKS.
Definition initlog (dev : Z) (sb : superblock) : KM unit :=
  if BSIZE <=? logheader_size then panic "initlog: too big logheader" else
  initlock log_lock ;;
  wr_log log_start (s32 (sb_logstart sb)) ;;
  wr_log log_dev dev ;;
  recover_from_log.

Definition begin_op : KM unit :=
  acquire log_lock ;;
  loop fuel (
    let* committing := rd_log log_committing in
    if negb (committing =? 0) then sleep ch_log log_lock ;; ret None else
    let* n := rd_log lh_n in
    let* outstanding := rd_log log_outstanding in
    if Z.of_nat LOGBLOCKS <? n + (outstanding + 1) * Z.of_nat MAXOPBLOCKS then
      sleep ch_log log_lock ;; ret None
    else
      wr_log log_outstanding (s32 (outstanding + 1)) ;;
      release log_lock ;;
      ret (Some tt)).

(** the body of the loop of [write_log] *)
Definition write_log_block (tail : Z) : KM unit :=
  let* start := rd_log log_start in
  let* to := log_bread (start + tail + 1) in
  let* src := block_at tail in
  let* from := log_bread src in
  let* d := rdt bufs from b_data in
  set_data to 0 d ;;
  bwrite to ;;
  brelse from ;;
  brelse to.
Definition write_log : KM unit := for_log (S LOGBLOCKS) 0 write_log_block.

Definition commit : KM unit :=
  let* n := rd_log lh_n in
  when (0 <? n) (
    write_log ;;
    write_head ;;
    install_trans false ;;
    wr_log lh_n 0 ;;
    write_head).

Definition end_op : KM unit :=
  acquire log_lock ;;
  upd_log (λ l, l <| log_outstanding ::= λ n, s32 (n - 1) |>) ;;
  let* committing := rd_log log_committing in
  if negb (committing =? 0) then panic "log.committing" else
  let* outstanding := rd_log log_outstanding in
  (if outstanding =? 0 then wr_log log_committing 1 else wakeup (Some ch_log)) ;;
  release log_lock ;;
  when (outstanding =? 0) (
    commit ;;
    acquire log_lock ;;
    wr_log log_committing 0 ;;
    wakeup (Some ch_log) ;;
    release log_lock).
End code.

(** the search of [log_write] for a block already in the log: the first such
    index from [i] on, or [log.lh.n] *)
Fixpoint log_absorb (turns : nat) (i blockno : Z) : KM Z :=
  match turns with
  | O => stop_with StopFuel
  | S turns =>
      let* n := rd_log lh_n in
      if i <? n then
        let* x := block_at i in
        if u32 x =? blockno then ret i else log_absorb turns (i + 1) blockno
      else ret i
  end.
Definition log_write (b : nat) : KM unit :=
  acquire log_lock ;;
  let* n := rd_log lh_n in
  if Z.of_nat LOGBLOCKS <=? n then panic "too big a transaction" else
  let* outstanding := rd_log log_outstanding in
  if outstanding <? 1 then panic "log_write outside of trans" else
  let* blockno := rdt bufs b b_blockno in
  let* i := log_absorb (S LOGBLOCKS) 0 blockno in
  set_block i blockno ;;
  let* n := rd_log lh_n in
  when (i =? n) (
    bpin b ;;
    upd_log (λ l, l <| lh_n ::= λ n, s32 (n + 1) |>)) ;;
  release log_lock.
