(* ===== verification/Journal.v ===== *)
(** * The log makes a transaction atomic

    A crash leaves the disk with the writes done so far: with one of the
    histories the disk went through.  [recovered start h] is the contents of
    the disk after recovery from a disk with the history [h], whose log
    starts at block [start].  [recover_from_log] produces it, and would
    produce the same if it were interrupted and started again; at every
    moment of [commit], what would be recovered is the disk before the
    transaction, or the disk with all of its blocks written, and the write of
    the header is the moment of the change. *)

From S2P Require Import Prelude Fsdata Kstate Spinlock Runqueue Sched SchedInv Bytes Layout Kalloc Vm Printf.
From S2P Require Import Quiet Keeps Sleeplock Bio Log FsLogic Ring Cache Block.
#[local] Open Scope Z_scope.

Lemma empty_room : (size (∅ : gset Z) < NBUF)%nat.
Proof. rewrite size_empty. unfold NBUF, MAXOPBLOCKS. lia. Qed.

(** ** The log on disk *)

Lemma s32_u32 x : block_ok x → s32 (x mod 2 ^ 32) = x.
Proof. unfold block_ok. intros Hx. rewrite Z.mod_small by lia. apply s32_small. lia. Qed.

(** the fields of the header in a block *)
Definition hdr_n (d : list Z) : Z := s32 (default 0 (load_le 4 d 0)).
Definition hdr_block (d : list Z) (i : nat) : Z := s32 (default 0 (load_le 4 d (4 + 4 * Z.of_nat i))).
Definition hdr_blocks (d : list Z) : list Z := hdr_block d <$> seq 0 (Z.to_nat (hdr_n d)).

Lemma hdr_blocks_eq d bl :
  hdr_n d = Z.of_nat (length bl) → (∀ j t, bl !! j = Some t → hdr_block d j = t) → hdr_blocks d = bl.
Proof.
  intros Hn Hb. unfold hdr_blocks. rewrite Hn, Nat2Z.id. apply list_eq. intros i. rewrite list_lookup_fmap.
  destruct (bl !! i) as [t|] eqn:Ht.
  - pose proof (lookup_lt_Some _ _ _ Ht). rewrite lookup_seq_lt by done. simpl. by rewrite (Hb i t).
  - apply lookup_ge_None in Ht. by rewrite lookup_seq_ge.
Qed.

Section disk.
Context (start : Z).

Definition log_block (i : nat) : Z := start + 1 + Z.of_nat i.
Definition in_log (n : Z) : Prop := start ≤ n ≤ start + Z.of_nat LOGBLOCKS.
#[export] Instance in_log_dec n : Decision (in_log n).
Proof. unfold in_log. apply _. Defined.

(** the blocks [ts] installed from the log in the order of the log *)
Fixpoint installed (h : list (Z * list Z)) (i : nat) (ts : list Z) (v : Z → list Z) : Z → list Z :=
  match ts with
  | [] => v
  | t :: ts => installed h (S i) ts (setv t (disk_block h (log_block i)) v)
  end.
Definition recovered (h : list (Z * list Z)) : Z → list Z :=
  installed h 0 (hdr_blocks (disk_block h start)) (disk_block h).

(** equal outside the log *)
Definition same_data (v v' : Z → list Z) : Prop := ∀ n, ¬ in_log n → v' n = v n.
#[export] Instance same_data_equiv : Equivalence same_data.
Proof.
  split.
  - by intros v n.
  - intros v v' Hv n Hn. by rewrite Hv.
  - intros v v' v'' Hv Hv' n Hn. by rewrite Hv', Hv.
Qed.

(** the history [h'] continues [h] and [P] holds of every history between *)
Inductive writes (P : list (Z * list Z) → Prop) (h : list (Z * list Z)) : list (Z * list Z) → Prop :=
  | writes_refl : P h → writes P h h
  | writes_cons w h' : writes P h h' → P (w :: h') → writes P h (w :: h').
Lemma writes_trans P h h' h'' : writes P h h' → writes P h' h'' → writes P h h''.
Proof. intros Hw. induction 1; [done|by constructor]. Qed.
Lemma writes_mono (P P' : list (Z * list Z) → Prop) h h' : (∀ k, P k → P' k) → writes P h h' → writes P' h h'.
Proof. intros HP. induction 1; constructor; auto. Qed.
Lemma writes_end P h h' : writes P h h' → P h'.
Proof. by destruct 1. Qed.

Lemma installed_untouched h ts : ∀ i v n, n ∉ ts → installed h i ts v n = v n.
Proof.
  induction ts as [|t ts IH]; intros i v n Hn; simpl; [done|]. rewrite IH by set_solver. apply setv_ne. set_solver.
Qed.
Lemma installed_ext h h' ts : ∀ i v v' n,
  (∀ j, (i ≤ j < i + length ts)%nat → disk_block h' (log_block j) = disk_block h (log_block j)) →
  (n ∉ ts → v' n = v n) → installed h' i ts v' n = installed h i ts v n.
Proof.
  induction ts as [|t ts IH]; intros i v v' n Hj Hv; simpl in *; [apply Hv; set_solver|].
  apply IH; [intros j Hij; apply Hj; lia|]. intros Hn. rewrite (Hj i) by lia. unfold setv.
  case_decide; [done|]. apply Hv. set_solver.
Qed.
(** what is installed does not matter for the recovery *)
Lemma recovered_ext h h' n :
  disk_block h' start = disk_block h start →
  (∀ j, (j < length (hdr_blocks (disk_block h start)))%nat → disk_block h' (log_block j) = disk_block h (log_block j)) →
  (n ∉ hdr_blocks (disk_block h start) → disk_block h' n = disk_block h n) →
  recovered h' n = recovered h n.
Proof. intros Hs Hj Hn. unfold recovered. rewrite Hs. apply installed_ext; [|done]. intros j Hlt. apply Hj. lia. Qed.
Lemma installed_snoc h t ts : ∀ i v,
  installed h i (ts ++ [t]) v = setv t (disk_block h (log_block (i + length ts))) (installed h i ts v).
Proof.
  induction ts as [|t' ts IH]; intros i v; simpl; [by rewrite Nat.add_0_r|]. rewrite IH. do 3 f_equal. lia.
Qed.
Lemma installed_from v h ts : ∀ i w n,
  (∀ j t, ts !! j = Some t → disk_block h (log_block (i + j)) = v t) →
  installed h i ts w n = if decide (n ∈ ts) then v n else w n.
Proof.
  induction ts as [|t ts IH]; intros i w n Hj; simpl; [done|].
  rewrite IH by (intros j x Hx; rewrite <- (Hj (S j) x) by done; f_equal; f_equal; lia).
  pose proof (Hj 0%nat t eq_refl) as H0. rewrite Nat.add_0_r in H0. rewrite H0. unfold setv.
  repeat case_decide; subst; set_solver.
Qed.
Lemma recovered_empty h n : hdr_n (disk_block h start) ≤ 0 → recovered h n = disk_block h n.
Proof.
  intros Hz. unfold recovered, hdr_blocks. by replace (Z.to_nat (hdr_n (disk_block h start))) with O by lia.
Qed.
End disk.

(** ** The functions of the log *)

Section ops.
Context (E : stop → Prop) (G : kstate → Prop) (R : kstate → kstate → Prop).
Context (X : gmap Z Z → vdisk → Prop) (p : nat) (pid : Z).
Context {DR : DiskRw} {DOK : DiskOk E G R X p pid} (fuel : nat).
Context (dev start : Z) (Hdev : 0 ≤ dev < 2 ^ 32) (Hstart : 0 ≤ start < 2 ^ 31 - 31).
#[local] Abbreviation cwp := (cwp E G R X p pid dev).

(** the log is at [start] on device [dev] *)
Record log_at (r : fsst) : Prop := {
  la_dev : log_dev (log r) = dev;
  la_start : log_start (log r) = start;
  la_len : length (lh_block (log r)) = LOGBLOCKS
}.

Lemma cwp_rd_log {T} (g : logst → T) H β r (Q : T → gset lockid → bst → fsst → Prop) :
  Q (g (log r)) H β r → cwp (rd_log g) H β r Q.
Proof. apply (cwp_rd_fs E G R X p pid dev (λ f, g (log f))). intros f Hr. by rewrite (sr_log _ _ Hr). Qed.
Lemma cwp_upd_log g H β r (Q : unit → gset lockid → bst → fsst → Prop) :
  Q tt H β (r <| log ::= g |>) → cwp (upd_log g) H β r Q.
Proof.
  apply (cwp_modify E G R X p pid dev (λ x, x <| log ::= g |>)); [done|done|].
  intros f [Hl Hs Hi Hf Hk]. split; simpl; [by rewrite Hl|done..].
Qed.
Lemma cwp_block_at i x H β r (Q : Z → gset lockid → bst → fsst → Prop) :
  lh_block (log r) !! Z.to_nat i = Some x → Q x H β r → cwp (block_at i) H β r Q.
Proof. intros Hi HQ. apply cwp_bind, cwp_rd_log. by eapply cwp_deref. Qed.
Lemma cwp_log_bread n β r (Q : nat → gset lockid → bst → fsst → Prop) :
  log_at r → bhold β !! n = None → block_ok n → room β n →
  (∀ b, Q b ∅ (hold n b β) r) → cwp (log_bread (S fuel) n) ∅ β r Q.
Proof.
  intros Hl Hn Hok Hroom HQ. apply cwp_bind, cwp_rd_log. rewrite (la_dev _ Hl).
  assert (u32 dev = dev) as -> by (by apply Z.mod_small).
  assert (u32 n = n) as -> by (apply Z.mod_small; unfold block_ok in Hok; lia). by apply cwp_bread.
Qed.

(** the loop over the log, with an invariant [I] *)
Lemma cwp_for_log (I : nat → bst → fsst → Prop) k body (Q : unit → gset lockid → bst → fsst → Prop) :
  (∀ i β r, I i β r → lh_n (log r) = Z.of_nat k) →
  (∀ i β r, (i < k)%nat → I i β r → cwp (body (Z.of_nat i)) ∅ β r (λ _ H β' r', H = ∅ ∧ I (S i) β' r')) →
  (∀ β r, I k β r → Q tt ∅ β r) →
  ∀ turns i β r, (i ≤ k < i + turns)%nat → I i β r → cwp (for_log turns (Z.of_nat i) body) ∅ β r Q.
Proof.
  intros Hn Hbody HQ. induction turns as [|turns IH]; intros i β r Hi HI; [lia|].
  simpl. apply cwp_bind, cwp_rd_log. rewrite (Hn i β r HI). destruct (Z.ltb_spec (Z.of_nat i) (Z.of_nat k)).
  - apply cwp_bind. eapply cwp_mono; [|by apply Hbody; [lia|]]. simpl. intros _ H' β' r' [-> HI'].
    replace (Z.of_nat i + 1) with (Z.of_nat (S i)) by lia. apply IH; [lia|done].
  - apply cwp_ret, HQ. by replace k with i by lia.
Qed.

Lemma cwp_over_log (I : nat → bst → fsst → Prop) k body β r (Q : unit → gset lockid → bst → fsst → Prop) :
  (k ≤ LOGBLOCKS)%nat → (∀ i β r, I i β r → lh_n (log r) = Z.of_nat k) →
  (∀ i β r, (i < k)%nat → I i β r → cwp (body (Z.of_nat i)) ∅ β r (λ _ H β' r', H = ∅ ∧ I (S i) β' r')) →
  I 0%nat β r → (∀ β r, I k β r → Q tt ∅ β r) → cwp (for_log (S LOGBLOCKS) 0 body) ∅ β r Q.
Proof. intros Hk Hn Hbody HI HQ. apply (cwp_for_log I k body Q Hn Hbody HQ (S LOGBLOCKS) 0); [lia|done]. Qed.
Lemma log_block_ok i : (i < LOGBLOCKS)%nat → block_ok (log_block start i).
Proof. unfold block_ok, log_block, LOGBLOCKS, MAXOPBLOCKS. lia. Qed.
(** the buffers a loop's body holds *)
#[local] Ltac held := unfold hold, unhold; simpl; repeat first
  [rewrite lookup_insert_eq|rewrite lookup_insert_ne by done|rewrite lookup_delete_eq|rewrite lookup_delete_ne by done
  |rewrite lookup_singleton_eq]; done.

#[local] Ltac unheld := repeat first
  [rewrite delete_insert_eq|rewrite delete_insert_ne by done|rewrite delete_empty|rewrite delete_insert_id by done]; done.
(** the post-condition [HQ] holds of a state that is equal *)
#[local] Ltac bst_by HQ := lazymatch type of HQ with ?Q ?a ?H ?b ?r =>
  lazymatch goal with |- Q a H ?b' r => replace b' with b; [exact HQ|symmetry; apply bst_eq; simpl] end end.

Lemma cwp_write_log_block i t β r (Q : unit → gset lockid → bst → fsst → Prop) :
  log_at r → bhold β = ∅ → (i < LOGBLOCKS)%nat → lh_block (log r) !! i = Some t → t ∈ pinned β → block_ok t →
  log_block start i ∉ pinned β → (size (pinned β) < NBUF)%nat →
  Q tt ∅ (mk_bst (setv (log_block start i) (bview β t) (bview β)) (pinned β) ∅
            ((log_block start i, bview β t) :: bhist β)) r →
  cwp (write_log_block (S fuel) (Z.of_nat i)) ∅ β r Q.
Proof.
  intros Hl Hh Hi Ht Hpin Hok Hlb Hsz HQ. apply cwp_len. intros Hlen.
  assert (Hne : t ≠ log_block start i) by (by intros ->).
  pose proof (log_block_ok i Hi) as Hlok.
  apply cwp_bind, cwp_rd_log. rewrite (la_start _ Hl).
  replace (start + Z.of_nat i + 1) with (log_block start i) by (unfold log_block; lia).
  destruct β as [v P hm h]. simpl in *. subst hm.
  apply cwp_bind, cwp_log_bread; [done..|right; simpl; rewrite dom_empty_L; by rewrite union_empty_r_L|].
  intros to. apply cwp_bind. eapply cwp_block_at; [by rewrite Nat2Z.id|].
  apply cwp_bind, cwp_log_bread; [done|held|done|left; by left|].
  intros from. apply cwp_bind. eapply cwp_rd_buf; [held|]. intros x _ ->. simpl.
  apply cwp_bind. eapply (cwp_set_data _ _ _ _ _ _ _ (log_block start i)); [held|apply store_bytes_all; simpl; by rewrite !Hlen|done|].
  apply cwp_bind. eapply (cwp_bwrite _ _ _ _ _ _ _ (log_block start i)); [held|done|].
  apply cwp_bind. eapply (cwp_brelse _ _ _ _ _ _ _ t); [held|by left|].
  eapply (cwp_brelse _ _ _ _ _ _ _ (log_block start i)); [held|right|].
  { simpl. by rewrite Z.eqb_refl. }
  bst_by HQ; [done|done|unheld|by rewrite setv_eq].
Qed.

Lemma cwp_install_block (recovering : bool) i t β r (Q : unit → gset lockid → bst → fsst → Prop) :
  log_at r → bhold β = ∅ → (i < LOGBLOCKS)%nat → lh_block (log r) !! i = Some t → block_ok t →
  t ≠ log_block start i → log_block start i ∉ pinned β → (size (pinned β) < NBUF)%nat →
  (if recovering then pinned β = ∅ else t ∈ pinned β) →
  Q tt ∅ (mk_bst (setv t (bview β (log_block start i)) (bview β)) (pinned β ∖ {[t]}) ∅
            ((t, bview β (log_block start i)) :: bhist β)) r →
  cwp (install_block (S fuel) recovering (Z.of_nat i)) ∅ β r Q.
Proof.
  intros Hl Hh Hi Ht Hok Hne Hlb Hsz Hrec HQ. apply cwp_len. intros Hlen. apply cwp_clean. intros Hcl.
  pose proof (log_block_ok i Hi) as Hlok.
  assert (Hmsg : cwp (when recovering (let* dst := block_at (Z.of_nat i) in
      printf (str "recovering tail %d dst %d" ++ [10]) [Aint (Z.of_nat i); Aint dst])) ∅ β r
      (λ _ H' β' r', H' = ∅ ∧ β' = β ∧ r' = r)).
  { destruct recovering; [|by apply cwp_ret]. apply cwp_bind. eapply cwp_block_at; [by rewrite Nat2Z.id|].
    eapply cwp_printf; [reflexivity|set_solver|done]. }
  apply cwp_bind. eapply cwp_mono; [|exact Hmsg]. simpl. intros _ H' β' r' (-> & -> & ->).
  destruct β as [v P hm h]. simpl in *. subst hm.
  apply cwp_bind, cwp_rd_log. rewrite (la_start _ Hl).
  replace (start + Z.of_nat i + 1) with (log_block start i) by (unfold log_block; lia).
  apply cwp_bind, cwp_log_bread; [done..|right; simpl; rewrite dom_empty_L; by rewrite union_empty_r_L|].
  intros lb. apply cwp_bind. eapply cwp_block_at; [by rewrite Nat2Z.id|].
  apply cwp_bind, cwp_log_bread; [done|held|done| |].
  { destruct recovering; [|left; by left]. right. subst P. unfold hold. simpl.
    rewrite dom_insert_L, dom_empty_L, union_empty_r_L, union_empty_l_L, size_singleton. unfold NBUF, MAXOPBLOCKS. lia. }
  intros db. apply cwp_bind. eapply (cwp_rd_buf _ _ _ _ _ _ _ _ (log_block start i)); [held|]. intros x _ ->. simpl.
  apply cwp_bind. eapply (cwp_set_data _ _ _ _ _ _ _ t); [held|apply store_bytes_all; simpl; by rewrite !Hlen|done|].
  apply cwp_bind. eapply (cwp_bwrite _ _ _ _ _ _ _ t); [held|done|].
  apply cwp_bind. destruct recovering; simpl.
  - apply cwp_ret. apply cwp_bind. eapply (cwp_brelse _ _ _ _ _ _ _ (log_block start i)); [held|right|].
    { simpl. rewrite setv_ne by done. rewrite (proj2 (Z.eqb_neq _ _)) by done. apply Hcl.
      intros [?|[? ?]]; [done|set_solver]. }
    eapply (cwp_brelse _ _ _ _ _ _ _ t); [held|right; simpl; by rewrite Z.eqb_refl|].
    bst_by HQ; [done|set_solver|unheld|by rewrite setv_eq].
  - eapply (cwp_bunpin _ _ _ _ _ _ _ t); [held|done|set_solver|].
    apply cwp_bind. eapply (cwp_brelse _ _ _ _ _ _ _ (log_block start i)); [held|right|].
    { simpl. rewrite setv_ne by done. rewrite (proj2 (Z.eqb_neq _ _)) by done. apply Hcl.
      intros [?|[? ?]]; [done|set_solver]. }
    eapply (cwp_brelse _ _ _ _ _ _ _ t); [held|right; simpl; by rewrite Z.eqb_refl|].
    bst_by HQ; [done|done|unheld|by rewrite setv_eq].
Qed.

(** ** The header *)

(** the first [i] block numbers of a header are those of [bl] *)
Definition hdr_upto (d : list Z) (bl : list Z) (i : nat) : Prop :=
  ∀ j x, (j < i)%nat → bl !! j = Some x → hdr_block d j = x.

Section write_head.
Context (b : nat) (v : Z → list Z) (P : gset Z) (h : list (Z * list Z)) (r : fsst) (k : nat).
Context (Hn : lh_n (log r) = Z.of_nat k) (Hk : (k ≤ LOGBLOCKS)%nat) (Hl : log_at r).
Context (Hbl : ∀ j x, (j < k)%nat → lh_block (log r) !! j = Some x → block_ok x).

Definition head_inv (i : nat) (β : bst) (r' : fsst) : Prop :=
  r' = r ∧ ∃ v', β = mk_bst v' P {[start := b]} h ∧ (∀ m, m ≠ start → v' m = v m) ∧
    length (v' start) = Z.to_nat BSIZE ∧ hdr_n (v' start) = Z.of_nat k ∧ hdr_upto (v' start) (lh_block (log r)) i.

Lemma write_head_turn i β r' :
  (i < k)%nat → head_inv i β r' →
  cwp (let* x := block_at (Z.of_nat i) in set_data_le 4 b (4 + 4 * Z.of_nat i) x) ∅ β r'
    (λ _ H β' r', H = ∅ ∧ head_inv (S i) β' r').
Proof.
  intros Hi (-> & v' & -> & Hv & Hlen & Hhn & Hup).
  destruct (lookup_lt_is_Some_2 (lh_block (log r)) i) as [x Hx]; [rewrite (la_len _ Hl); lia|].
  apply cwp_bind. eapply cwp_block_at; [by rewrite Nat2Z.id|]. unfold LOGBLOCKS, MAXOPBLOCKS in Hk.
  destruct (array_store_le 4 (v' start) (4 + 4 * Z.of_nat i) x) as (d & Hd & Hld & Hat & Hoth).
  { lia. } { rewrite Hlen. unfold BSIZE. lia. }
  eapply (cwp_set_data_le _ _ _ _ _ _ _ _ start); [apply lookup_singleton_eq|exact Hd|by rewrite Hld|].
  split; [done|]. split; [done|]. exists (setv start d v'). split_and!.
  - done.
  - intros m Hm. rewrite setv_ne by done. by apply Hv.
  - by rewrite setv_eq, Hld.
  - rewrite setv_eq. unfold hdr_n. by rewrite Hoth by lia.
  - rewrite setv_eq. intros j y Hj Hy. unfold hdr_block. destruct (decide (j = i)) as [-> |Hne].
    + simplify_eq. rewrite Hat. apply s32_u32. by eapply Hbl.
    + rewrite Hoth by lia. apply (Hup j y); [lia|done].
Qed.
End write_head.

Lemma cwp_write_head k β r (Q : unit → gset lockid → bst → fsst → Prop) :
  log_at r → lh_n (log r) = Z.of_nat k → (k ≤ LOGBLOCKS)%nat →
  (∀ j x, (j < k)%nat → lh_block (log r) !! j = Some x → block_ok x) →
  bhold β = ∅ → (size (pinned β) < NBUF)%nat →
  (∀ v, (∀ m, m ≠ start → v m = bview β m) → hdr_n (v start) = Z.of_nat k →
    hdr_upto (v start) (lh_block (log r)) k →
    Q tt ∅ (mk_bst v (pinned β) ∅ ((start, v start) :: bhist β)) r) →
  cwp (write_head (S fuel)) ∅ β r Q.
Proof.
  intros Hl Hn Hk Hbl Hh Hsz HQ. apply cwp_len. intros Hlen. destruct β as [v P hm h]. simpl in *. subst hm.
  assert (Hok : block_ok start) by (unfold block_ok; lia).
  apply cwp_bind, cwp_rd_log. rewrite (la_start _ Hl).
  apply cwp_bind, cwp_log_bread; [done..|right; simpl; rewrite dom_empty_L; by rewrite union_empty_r_L|].
  intros b. apply cwp_bind, cwp_rd_log. rewrite Hn.
  destruct (array_store_le 4 (v start) 0 (Z.of_nat k)) as (d & Hd & Hld & Hat & _); [lia|by rewrite Hlen|].
  apply cwp_bind. eapply (cwp_set_data_le _ _ _ _ _ _ _ _ start); [held|done|by rewrite Hld|].
  apply cwp_bind. apply (cwp_over_log (head_inv b v P h r k) k).
  - done.
  - by intros i β' r' [-> _].
  - intros i β' r' Hi HI. by apply (write_head_turn b v P h r k).
  - split; [done|]. exists (setv start d v). split_and!.
    + done.
    + intros m Hm. by apply setv_ne.
    + by rewrite setv_eq, Hld.
    + rewrite setv_eq. unfold hdr_n. rewrite Hat. apply s32_u32. unfold block_ok, LOGBLOCKS, MAXOPBLOCKS in *. lia.
    + intros j x Hj. lia.
  - intros β' r' (-> & v' & -> & Hv' & Hlen' & Hhn & Hup).
    apply cwp_bind. eapply (cwp_bwrite _ _ _ _ _ _ _ start); [held|done|].
    eapply (cwp_brelse _ _ _ _ _ _ _ start); [held|right; simpl; by rewrite Z.eqb_refl|].
    specialize (HQ v' Hv' Hhn Hup). bst_by HQ; [done|done| |done]. apply delete_singleton_eq.
Qed.

(** ** Facts about the log's blocks *)

(** the data recovered from [h] is [v] *)
Definition recovers (v : Z → list Z) (h : list (Z * list Z)) : Prop := same_data start v (recovered start h).
Lemma log_block_in i : (i < LOGBLOCKS)%nat → in_log start (log_block start i).
Proof. unfold in_log, log_block. lia. Qed.
Lemma log_block_inj i j : log_block start i = log_block start j → i = j.
Proof. unfold log_block. lia. Qed.
Lemma log_block_start i : log_block start i ≠ start.
Proof. unfold log_block. lia. Qed.
Lemma recovers_empty v h : hdr_n (disk_block h start) = 0 → same_data start v (disk_block h) → recovers v h.
Proof. intros Hh Hv n Hn. rewrite recovered_empty by lia. by apply Hv. Qed.

(** ** [commit] *)

(** the transaction of the blocks [bl] is ready to be committed *)
Record transaction (bl : list Z) (β : bst) (r : fsst) : Prop := {
  tx_log : log_at r;
  tx_n : lh_n (log r) = Z.of_nat (length bl);
  tx_blocks : take (length bl) (lh_block (log r)) = bl;
  tx_nodup : NoDup bl;
  tx_ok t : t ∈ bl → block_ok t ∧ ¬ in_log start t;
  tx_pinned : pinned β = list_to_set bl;
  tx_header : hdr_n (disk_block (bhist β) start) = 0
}.

Section commit.
Context (bl : list Z) (v0 : Z → list Z) (h0 : list (Z * list Z)) (r0 : fsst).
Context (Htx : transaction bl (mk_bst v0 (list_to_set bl) ∅ h0) r0).
Context (Hroom : (length bl < NBUF)%nat) (Hcl0 : ∀ n, n ∉ bl → v0 n = disk_block h0 n).

Lemma tx_length : (length bl ≤ LOGBLOCKS)%nat.
Proof. unfold LOGBLOCKS. unfold NBUF in Hroom. lia. Qed.
Lemma tx_lookup i : (i < length bl)%nat → ∃ t, bl !! i = Some t ∧ lh_block (log r0) !! i = Some t ∧
  block_ok t ∧ ¬ in_log start t.
Proof.
  intros Hi. destruct (lookup_lt_is_Some_2 bl i Hi) as [t Ht]. exists t. split_and!; [done| |..].
  - rewrite <- (tx_blocks _ _ _ Htx), lookup_take_lt in Ht by done. done.
  - apply (tx_ok _ _ _ Htx). by eapply list_elem_of_lookup_2.
  - apply (tx_ok _ _ _ Htx). by eapply list_elem_of_lookup_2.
Qed.
Lemma tx_size ts : ts ⊆ bl → (size (list_to_set ts : gset Z) < NBUF)%nat.
Proof.
  intros Hts. eapply Nat.le_lt_trans; [|exact Hroom].
  rewrite <- (size_list_to_set (C := gset Z)) by apply (tx_nodup _ _ _ Htx). apply subseteq_size. set_solver.
Qed.
(** the blocks of the transaction are copied to the log *)
Definition write_inv (i : nat) (β : bst) (r : fsst) : Prop :=
  r = r0 ∧ ∃ v h, β = mk_bst v (list_to_set bl) ∅ h ∧ same_data start v0 v ∧
    same_data start (disk_block h0) (disk_block h) ∧ disk_block h start = disk_block h0 start ∧
    writes (recovers (disk_block h0)) h0 h ∧
    ∀ j t, (j < i)%nat → bl !! j = Some t → disk_block h (log_block start j) = v0 t.
Lemma write_log_turn i β r :
  (i < length bl)%nat → write_inv i β r →
  cwp (write_log_block (S fuel) (Z.of_nat i)) ∅ β r (λ _ H β' r', H = ∅ ∧ write_inv (S i) β' r').
Proof.
  intros Hi (-> & v & h & -> & Hv & Hd & Hs & Hw & Hj).
  destruct (tx_lookup i Hi) as (t & Ht & Htl & Hok & Hnl). pose proof tx_length as Hlen.
  assert (Hin : t ∈ bl) by (by eapply list_elem_of_lookup_2).
  pose proof (log_block_in i ltac:(lia)) as Hlb.
  eapply (cwp_write_log_block i t); [apply Htx|done|lia|done|set_solver|done| |by apply tx_size|].
  { simpl. rewrite elem_of_list_to_set. intros Hb%(tx_ok _ _ _ Htx). naive_solver. }
  simpl. assert (Hother : ∀ n, n ≠ log_block start i → disk_block ((log_block start i, v t) :: h) n = disk_block h n).
  { intros n Hn. simpl. by rewrite (proj2 (Z.eqb_neq _ _)) by done. }
  assert (Hd' : same_data start (disk_block h0) (disk_block ((log_block start i, v t) :: h))).
  { intros n Hn. rewrite Hother; [by apply Hd|]. by intros ->. }
  assert (Hs' : disk_block ((log_block start i, v t) :: h) start = disk_block h0 start).
  { rewrite Hother; [done|]. intros He. by eapply log_block_start. }
  split; [done|]. split; [done|]. eexists _, _. split; [done|]. split_and!; [|exact Hd'|exact Hs'| |].
  - intros n Hn. rewrite setv_ne by (by intros ->). by apply Hv.
  - constructor; [done|]. apply recovers_empty; [rewrite Hs'; apply (tx_header _ _ _ Htx)|done].
  - intros j t' Hij Ht'. destruct (decide (j = i)) as [-> |Hne].
    + simplify_eq. simpl. rewrite Z.eqb_refl. by apply Hv.
    + rewrite Hother by (intros ?%log_block_inj; done). apply Hj; [lia|done].
Qed.

(** the header is on the disk *)
Record committed (h : list (Z * list Z)) : Prop := {
  cm_header : hdr_blocks (disk_block h start) = bl;
  cm_log j t : bl !! j = Some t → disk_block h (log_block start j) = v0 t;
  cm_rest n : ¬ in_log start n → n ∉ bl → disk_block h n = v0 n
}.
Lemma committed_recovers h : committed h → recovers v0 h.
Proof.
  intros [Hh Hl Hr] n Hn. unfold recovered. rewrite Hh, (installed_from start v0) by apply Hl.
  case_decide; [done|by apply Hr].
Qed.
Lemma committed_install h t d : t ∈ bl → committed h → committed ((t, d) :: h).
Proof.
  intros Ht [Hh Hl Hr]. destruct (tx_ok _ _ _ Htx t Ht) as [_ Hnl]. pose proof tx_length as Hlen.
  assert (Hoth : ∀ n, n ≠ t → disk_block ((t, d) :: h) n = disk_block h n).
  { intros n Hn. simpl. by rewrite (proj2 (Z.eqb_neq _ _)) by done. }
  split.
  - rewrite Hoth; [done|]. intros <-. apply Hnl. unfold in_log. lia.
  - intros j x Hx. rewrite Hoth; [by apply Hl|]. intros <-. apply Hnl, log_block_in.
    apply lookup_lt_Some in Hx. lia.
  - intros n Hn Hnb. rewrite Hoth; [by apply Hr|]. by intros ->.
Qed.

Definition install_inv (h2 : list (Z * list Z)) (i : nat) (β : bst) (r : fsst) : Prop :=
  r = r0 ∧ ∃ v h, β = mk_bst v (list_to_set (drop i bl)) ∅ h ∧ same_data start v0 v ∧ committed h ∧
    writes (recovers v0) h2 h.
Lemma install_turn h2 i β r :
  (i < length bl)%nat → install_inv h2 i β r →
  cwp (install_block (S fuel) false (Z.of_nat i)) ∅ β r (λ _ H β' r', H = ∅ ∧ install_inv h2 (S i) β' r').
Proof.
  intros Hi (-> & v & h & -> & Hv & Hc & Hw). apply cwp_clean. simpl. intros Hcl.
  destruct (tx_lookup i Hi) as (t & Ht & Htl & Hok & Hnl). pose proof tx_length as Hlen.
  assert (Hin : t ∈ bl) by (by eapply list_elem_of_lookup_2).
  pose proof (log_block_in i ltac:(lia)) as Hlb.
  assert (Hsub : drop i bl ⊆ bl) by apply subseteq_drop.
  assert (Hnp : log_block start i ∉ (list_to_set (drop i bl) : gset Z)).
  { rewrite elem_of_list_to_set. intros Hb%Hsub%(tx_ok _ _ _ Htx). naive_solver. }
  assert (Hdrop : drop i bl = t :: drop (S i) bl) by (by apply drop_S).
  assert (Hvt : v (log_block start i) = v0 t).
  { rewrite Hcl by (intros [?|[? ?]]; [done|set_solver]). by apply (cm_log _ Hc). }
  eapply (cwp_install_block false i t); [apply Htx|done|lia|done|done| |done|by apply tx_size| |].
  { by intros ->. } { simpl. rewrite Hdrop. set_solver. }
  simpl. pose proof (committed_install h t (v (log_block start i)) Hin Hc) as Hc'.
  split; [done|]. split; [done|]. eexists _, _. split; [|split_and!; [|exact Hc'|]].
  - f_equal. rewrite Hdrop. pose proof (tx_nodup _ _ _ Htx) as Hnd. rewrite <- (take_drop i bl), Hdrop in Hnd.
    apply NoDup_app in Hnd as (_ & _ & [Hnd _]%NoDup_cons). simpl. set_solver.
  - intros n Hn. rewrite Hvt. unfold setv. case_decide; subst; [done|by apply Hv].
  - constructor; [done|]. by apply committed_recovers.
Qed.

Definition commit_post (H : gset lockid) (β : bst) (r : fsst) : Prop :=
  H = ∅ ∧ r = r0 <| log ::= λ l, l <| lh_n := 0 |> |> ∧
  pinned β = ∅ ∧ bhold β = ∅ ∧ hdr_n (disk_block (bhist β) start) = 0 ∧ same_data start v0 (bview β) ∧
  ∃ h1 d, writes (recovers (disk_block h0)) h0 h1 ∧ writes (recovers v0) ((start, d) :: h1) (bhist β).

(** the last step: the log is emptied *)
Lemma clear_log h1 d v h :
  same_data start v0 v → writes (recovers (disk_block h0)) h0 h1 → writes (recovers v0) ((start, d) :: h1) h →
  cwp (wr_log lh_n 0 ;; write_head (S fuel)) ∅ (mk_bst v ∅ ∅ h) r0 (λ _ H β r, commit_post H β r).
Proof.
  intros Hv Hw1 Hw2. apply cwp_clean. simpl. intros Hcl. apply cwp_bind, cwp_upd_log.
  assert (Hcl' : ∀ n, v n = disk_block h n) by (intros n; apply Hcl; intros [?|[? ?]]; set_solver).
  apply (cwp_write_head 0); [by destruct Htx as [[] _ _ _ _ _ _]|done|lia|lia|done|exact empty_room|].
  intros v' Hv' Hn _. cbn.
  assert (Hdat : same_data start v0 (disk_block ((start, v' start) :: h))).
  { intros n Hn'. simpl. rewrite (proj2 (Z.eqb_neq start n)).
    - rewrite <- Hcl'. by apply Hv.
    - intros <-. apply Hn'. unfold in_log. lia. }
  split_and!; try done.
  - simpl. by rewrite Z.eqb_refl.
  - intros n Hn'. rewrite Hv'; [by apply Hv|]. intros ->. apply Hn'. unfold in_log. lia.
  - exists h1, d. split; [done|]. constructor; [done|]. apply recovers_empty; [|done]. simpl. by rewrite Z.eqb_refl.
Qed.

Lemma cwp_commit_body :
  cwp (write_log (S fuel) ;; write_head (S fuel) ;; install_trans (S fuel) false ;;
       wr_log lh_n 0 ;; write_head (S fuel)) ∅ (mk_bst v0 (list_to_set bl) ∅ h0) r0 (λ _ H β r, commit_post H β r).
Proof.
  pose proof tx_length as Hlen. pose proof (tx_n _ _ _ Htx) as Hn.
  assert (Hnodup : hdr_n (disk_block h0 start) = 0) by apply (tx_header _ _ _ Htx).
  assert (Hd0 : writes (recovers (disk_block h0)) h0 h0) by (constructor; by apply recovers_empty).
  apply cwp_bind, (cwp_over_log write_inv (length bl)); [done|by intros i β r [-> _]|..].
  { intros i β r Hi HI. by apply write_log_turn. }
  { split; [done|]. exists v0, h0. split_and!; try done. intros j t Hj. lia. }
  intros β r (-> & v & h & -> & Hv & Hd & Hs & Hw & Hj).
  apply cwp_clean. simpl. intros Hcl.
  apply cwp_bind. apply (cwp_write_head (length bl)); try done; [apply Htx| |by apply tx_size|].
  { intros j x Hx Hlj. destruct (tx_lookup j Hx) as (t & _ & Htl & Hok & _). by simplify_eq. }
  intros v1 Hv1 Hhn Hup. simpl.
  assert (Hv1' : same_data start v0 v1).
  { intros n Hnl. rewrite Hv1; [by apply Hv|]. intros ->. apply Hnl. unfold in_log. lia. }
  assert (Hc : committed ((start, v1 start) :: h)).
  { split.
    - simpl. rewrite Z.eqb_refl. apply hdr_blocks_eq; [done|]. intros j t Ht. eapply Hup; [by eapply lookup_lt_Some|].
      destruct (tx_lookup j) as (t' & Ht' & Hlj & _); [by eapply lookup_lt_Some|]. congruence.
    - intros j t Ht. simpl. rewrite (proj2 (Z.eqb_neq _ _)) by (intros He; by eapply log_block_start).
      apply Hj; [by eapply lookup_lt_Some|done].
    - intros n Hnl Hnb. simpl. rewrite (proj2 (Z.eqb_neq _ _)) by (intros <-; apply Hnl; unfold in_log; lia).
      rewrite Hd by done. symmetry. by apply Hcl0. }
  apply cwp_bind, (cwp_over_log (install_inv ((start, v1 start) :: h)) (length bl)); [done|by intros i β r [-> _]|..].
  { intros i β r Hi HI. by apply install_turn. }
  { split; [done|]. exists v1, ((start, v1 start) :: h). split_and!; [done..|]. constructor. by apply committed_recovers. }
  intros β r (-> & v2 & h2 & -> & Hv2 & Hc2 & Hw2). rewrite drop_all. by eapply clear_log.
Qed.
End commit.

(** ** [recover_from_log] *)

Section recover.
Context (h0 : list (Z * list Z)) (r0 : fsst) (Hl0 : log_at r0).
#[local] Abbreviation d0 := (disk_block h0 start).
#[local] Abbreviation bl := (hdr_blocks d0).
(** the header describes blocks outside the log *)
Context (Hn0 : 0 ≤ hdr_n d0 ≤ Z.of_nat LOGBLOCKS) (Hbl : ∀ t, t ∈ bl → block_ok t ∧ ¬ in_log start t).

Lemma hdr_length : length bl = Z.to_nat (hdr_n d0).
Proof. unfold hdr_blocks. by rewrite length_fmap, length_seq. Qed.
Lemma hdr_lookup i : (i < Z.to_nat (hdr_n d0))%nat → bl !! i = Some (hdr_block d0 i).
Proof. intros Hi. unfold hdr_blocks. by rewrite list_lookup_fmap, lookup_seq_lt. Qed.

(** the log's state after [read_head] has read the first [i] block numbers *)
Definition read_log (i : nat) (r : fsst) : Prop :=
  ∃ L, r = r0 <| log ::= λ l, l <| lh_n := hdr_n d0 |> <| lh_block := L |> |> ∧ length L = LOGBLOCKS ∧
    ∀ j, (j < i)%nat → L !! j = Some (hdr_block d0 j).
Lemma read_log_at i r : read_log i r → log_at r ∧ lh_n (log r) = hdr_n d0.
Proof. intros (L & -> & HL & _). split; [|done]. by destruct Hl0. Qed.

Lemma read_head_turn b v i β r :
  v start = d0 → length d0 = Z.to_nat BSIZE → (i < Z.to_nat (hdr_n d0))%nat →
  β = mk_bst v ∅ {[start := b]} h0 → read_log i r →
  cwp (let* x := data_le 4 b (4 + 4 * Z.of_nat i) in set_block (Z.of_nat i) x) ∅ β r
    (λ _ H β' r', H = ∅ ∧ β' = mk_bst v ∅ {[start := b]} h0 ∧ read_log (S i) r').
Proof.
  intros Hv Hlen Hi -> (L & -> & HL & Hj). unfold LOGBLOCKS, MAXOPBLOCKS in *.
  destruct (array_load_le 4 d0 (4 + 4 * Z.of_nat i)) as (x & Hx); [lia|rewrite Hlen; unfold BSIZE; lia|].
  assert (Hsx : s32 x = hdr_block d0 i) by (unfold hdr_block; by rewrite Hx).
  apply cwp_bind. eapply (cwp_data_le _ _ _ _ _ _ _ _ start); [apply lookup_singleton_eq|simpl; by rewrite Hv|].
  apply cwp_bind, cwp_rd_log. simpl. rewrite HL, (proj2 (Z.ltb_lt _ _)) by lia. rewrite Nat2Z.id, Hsx.
  apply cwp_upd_log. split; [done|]. split; [done|]. exists (<[i := hdr_block d0 i]> L).
  split; [done|]. split; [by rewrite length_insert|]. intros j Hji. destruct (decide (j = i)) as [-> |Hne].
  - apply list_lookup_insert_eq. lia.
  - rewrite list_lookup_insert_ne by done. apply Hj. lia.
Qed.

Lemma cwp_read_head v (Q : unit → gset lockid → bst → fsst → Prop) :
  v start = d0 →
  (∀ r, read_log (Z.to_nat (hdr_n d0)) r → Q tt ∅ (mk_bst v ∅ ∅ h0) r) →
  cwp (read_head (S fuel)) ∅ (mk_bst v ∅ ∅ h0) r0 Q.
Proof.
  intros Hv HQ. apply cwp_len. simpl. intros Hlen. specialize (Hlen start). rewrite Hv in Hlen.
  assert (Hok : block_ok start) by (unfold block_ok; lia).
  apply cwp_bind, cwp_rd_log. rewrite (la_start _ Hl0).
  apply cwp_bind, cwp_log_bread; [done..|right; simpl; rewrite dom_empty_L, union_empty_r_L; exact empty_room|].
  intros b. destruct (array_load_le 4 d0 0) as (x & Hx); [lia|by rewrite Hlen|].
  apply cwp_bind. eapply (cwp_data_le _ _ _ _ _ _ _ _ start); [held|exact (eq_trans (f_equal (λ d, load_le 4 d 0) Hv) Hx)|].
  apply cwp_bind, cwp_upd_log.
  apply cwp_bind, (cwp_over_log (λ i β r, β = mk_bst v ∅ {[start := b]} h0 ∧ read_log i r) (Z.to_nat (hdr_n d0))).
  - lia.
  - intros i β r [_ [_ ->]%read_log_at]. lia.
  - intros i β r Hi [-> HI]. eapply cwp_mono; [|by eapply read_head_turn]. simpl. naive_solver.
  - split; [done|]. exists (lh_block (log r0)). split_and!; [|apply Hl0|lia].
    destruct r0 as [? ? [] ? ? ? ? ?]. unfold hdr_n. by rewrite Hx.
  - intros β r [-> Hr]. eapply (cwp_brelse _ _ _ _ _ _ _ start); [held|right; simpl; by rewrite Hv|].
    specialize (HQ r Hr). bst_by HQ; [done|done| |done]. apply delete_singleton_eq.
Qed.

Lemma read_log_lookup r i : read_log (Z.to_nat (hdr_n d0)) r → (i < Z.to_nat (hdr_n d0))%nat →
  lh_block (log r) !! i = Some (hdr_block d0 i).
Proof. intros (L & -> & _ & HL) Hi. by apply HL. Qed.

(** the first [i] blocks of the log are installed *)
Definition recover_inv (r1 : fsst) (i : nat) (β : bst) (r : fsst) : Prop :=
  r = r1 ∧ ∃ v h, β = mk_bst v ∅ ∅ h ∧ (∀ n, in_log start n → disk_block h n = disk_block h0 n) ∧
    (∀ n, ¬ in_log start n → disk_block h n = installed start h0 0 (take i bl) (disk_block h0) n) ∧
    writes (recovers (recovered start h0)) h0 h.
Lemma recovers_install h ts :
  (∀ n, in_log start n → disk_block h n = disk_block h0 n) → ts ⊆ bl →
  (∀ n, ¬ in_log start n → disk_block h n = installed start h0 0 ts (disk_block h0) n) →
  recovers (recovered start h0) h.
Proof.
  intros Hlog Hts Hoth n Hn. apply recovered_ext.
  - apply Hlog. unfold in_log. lia.
  - intros j Hj. rewrite hdr_length in Hj. apply Hlog, log_block_in. lia.
  - intros Hnb. rewrite Hoth by done. apply installed_untouched. set_solver.
Qed.
Lemma recover_turn r1 i β r :
  read_log (Z.to_nat (hdr_n d0)) r1 → (i < Z.to_nat (hdr_n d0))%nat → recover_inv r1 i β r →
  cwp (install_block (S fuel) true (Z.of_nat i)) ∅ β r (λ _ H β' r', H = ∅ ∧ recover_inv r1 (S i) β' r').
Proof.
  intros Hr Hi (-> & v & h & -> & Hlog & Hoth & Hw). apply cwp_clean. simpl. intros Hcl.
  pose proof (hdr_lookup i Hi) as Hti. set (t := hdr_block d0 i) in *.
  destruct (Hbl t) as [Hok Hnl]; [by eapply list_elem_of_lookup_2|].
  pose proof (log_block_in i ltac:(lia)) as Hlb.
  assert (Hv : v (log_block start i) = disk_block h0 (log_block start i)).
  { rewrite Hcl by (intros [?|[? ?]]; set_solver). by apply Hlog. }
  eapply (cwp_install_block true i t); [by eapply read_log_at|done|lia|by apply read_log_lookup|done|..].
  { by intros He; rewrite He in Hnl. } { set_solver. } { exact empty_room. } { done. }
  simpl. rewrite Hv.
  assert (Hlog' : ∀ n, in_log start n → disk_block ((t, disk_block h0 (log_block start i)) :: h) n = disk_block h0 n).
  { intros n Hn. simpl. rewrite (proj2 (Z.eqb_neq _ _)) by (by intros <-). by apply Hlog. }
  assert (Hoth' : ∀ n, ¬ in_log start n → disk_block ((t, disk_block h0 (log_block start i)) :: h) n =
    installed start h0 0 (take (S i) bl) (disk_block h0) n).
  { intros n Hn. rewrite (take_S_r _ _ _ Hti), installed_snoc, length_take_le by (rewrite hdr_length; lia).
    simpl. unfold setv. case_decide as Hd; [subst n; by rewrite Z.eqb_refl|].
    rewrite (proj2 (Z.eqb_neq _ _)) by done. by apply Hoth. }
  split; [done|]. split; [done|]. eexists _, _. split; [|split_and!; [exact Hlog'|exact Hoth'|]].
  - f_equal. set_solver.
  - constructor; [done|]. eapply recovers_install; [done|apply subseteq_take|done].
Qed.

Definition recover_post (H : gset lockid) (β : bst) (r : fsst) : Prop :=
  H = ∅ ∧ log_at r ∧ lh_n (log r) = 0 ∧ pinned β = ∅ ∧ bhold β = ∅ ∧ hdr_n (disk_block (bhist β) start) = 0 ∧
  same_data start (recovered start h0) (bview β) ∧ same_data start (recovered start h0) (disk_block (bhist β)) ∧
  writes (recovers (recovered start h0)) h0 (bhist β).
Lemma cwp_recover_from_log v :
  cwp (recover_from_log (S fuel)) ∅ (mk_bst v ∅ ∅ h0) r0 (λ _ H β r, recover_post H β r).
Proof.
  apply cwp_clean. simpl. intros Hcl0.
  assert (Hv : v start = d0) by (apply Hcl0; intros [?|[? ?]]; set_solver).
  apply cwp_bind, cwp_read_head; [done|]. intros r1 Hr1. destruct (read_log_at _ _ Hr1) as [Hat1 Hn1].
  apply cwp_bind, (cwp_over_log (recover_inv r1) (Z.to_nat (hdr_n d0))); [lia|intros i β r [-> _]; lia|..].
  { intros i β r Hi HI. by apply recover_turn. }
  { split; [done|]. exists v, h0. split_and!; try done. constructor. by apply (recovers_install h0 []); [|set_solver|]. }
  intros β r (-> & v1 & h & -> & Hlog & Hoth & Hw). apply cwp_clean. simpl. intros Hcl.
  rewrite take_ge in Hoth by (by rewrite hdr_length).
  assert (Hcl' : ∀ n, v1 n = disk_block h n) by (intros n; apply Hcl; intros [?|[? ?]]; set_solver).
  apply cwp_bind, cwp_upd_log.
  apply (cwp_write_head 0); [by destruct Hat1|done|lia|lia|done|exact empty_room|].
  intros v' Hv' Hn _.
  assert (Hst : ∀ n, ¬ in_log start n → n ≠ start) by (intros n Hnl ->; apply Hnl; unfold in_log; lia).
  assert (Hdat : same_data start (recovered start h0) (disk_block ((start, v' start) :: h))).
  { intros n Hnl. simpl. rewrite (proj2 (Z.eqb_neq start n)) by (intros <-; by eapply Hst). by apply Hoth. }
  split_and!; try done.
  - by destruct Hat1.
  - simpl. by rewrite Z.eqb_refl.
  - intros n Hnl. simpl. rewrite Hv', Hcl' by (by apply Hst). by apply Hoth.
  - constructor; [done|]. apply recovers_empty; [|done]. simpl. by rewrite Z.eqb_refl.
Qed.
End recover.
End ops.

