(* ===== verification/Transact.v ===== *)
(** * Transactions

    [begin_op], [log_write] and [end_op] of [kernel/log.c], and what a system
    call that uses them in the way the comment at the top of that file
    describes achieves: all of its blocks are written, or none. *)

From S2P Require Import Prelude Fsdata Kstate Spinlock Runqueue Sched SchedInv Bytes Layout Kalloc Vm Printf.
From S2P Require Import Quiet Keeps Sleeplock Bio Log FsLogic Ring Cache Block Journal.
#[local] Open Scope Z_scope.

Section ops.
Context (E : stop → Prop) (G : kstate → Prop) (R : kstate → kstate → Prop).
Context (X : gmap Z Z → vdisk → Prop) (p : nat) (pid : Z).
Context {DR : DiskRw} {DOK : DiskOk E G R X p pid} (fuel : nat).
Context (dev start : Z) (Hdev : 0 ≤ dev < 2 ^ 32) (Hstart : 0 ≤ start < 2 ^ 31 - 31).
#[local] Abbreviation cwp := (cwp E G R X p pid dev).
#[local] Abbreviation transaction := (transaction dev start).

(** ** [begin_op] *)

Lemma cwp_begin_op β r (Q : unit → gset lockid → bst → fsst → Prop) :
  log_committing (log r) = 0 → 0 ≤ log_outstanding (log r) →
  lh_n (log r) + (log_outstanding (log r) + 1) * Z.of_nat MAXOPBLOCKS ≤ Z.of_nat LOGBLOCKS → 0 ≤ lh_n (log r) →
  Q tt ∅ β (r <| log ::= λ l, l <| log_outstanding := log_outstanding (log r) + 1 |> |>) →
  cwp (begin_op (S fuel)) ∅ β r Q.
Proof.
  intros Hc Ho Hsp Hn HQ. apply cwp_bind, cwp_acquire; [set_solver|]. cbn [loop].
  apply cwp_bind, cwp_bind, cwp_rd_log. rewrite Hc. simpl.
  apply cwp_bind, cwp_rd_log, cwp_bind, cwp_rd_log. rewrite (proj2 (Z.ltb_ge _ _)) by done.
  apply cwp_bind, cwp_upd_log, cwp_bind, cwp_release; [set_solver|]. apply cwp_ret, cwp_ret.
  rewrite s32_small; [done|]. unfold LOGBLOCKS, MAXOPBLOCKS in Hsp. lia.
Qed.

(** ** [log_write] *)

(** the blocks of the transaction once block [n] is one of them *)
Definition absorb (n : Z) (bl : list Z) : list Z := if decide (n ∈ bl) then bl else bl ++ [n].

Section absorb.
Context (n : Z) (bl : list Z) (β : bst) (r : fsst) (Hn : block_ok n) (Htx : transaction bl β r).

Lemma cwp_log_absorb H turns : ∀ i (Q : Z → gset lockid → bst → fsst → Prop),
  (length bl < i + turns)%nat → n ∉ take i bl → (i ≤ length bl)%nat →
  (∀ j, (bl !! j = Some n ∨ (n ∉ bl) ∧ j = length bl) → Q (Z.of_nat j) H β r) →
  cwp (log_absorb turns (Z.of_nat i) n) H β r Q.
Proof.
  induction turns as [|turns IH]; intros i Q Hi Ht Hle HQ; [lia|]. simpl.
  apply cwp_bind, cwp_rd_log. rewrite (tx_n _ _ _ _ _ Htx). destruct (Z.ltb_spec (Z.of_nat i) (Z.of_nat (length bl))).
  - destruct (lookup_lt_is_Some_2 bl i ltac:(lia)) as [x Hx].
    assert (Hlx : lh_block (log r) !! i = Some x).
    { rewrite <- (tx_blocks _ _ _ _ _ Htx), lookup_take_lt in Hx by lia. done. }
    apply cwp_bind. eapply cwp_block_at; [by rewrite Nat2Z.id|].
    destruct (tx_ok _ _ _ _ _ Htx x) as [Hok _]; [by eapply list_elem_of_lookup_2|].
    rewrite u32_small by (unfold block_ok in Hok; lia). destruct (Z.eqb_spec x n) as [-> |Hne].
    + apply cwp_ret, HQ. by left.
    + replace (Z.of_nat i + 1) with (Z.of_nat (S i)) by lia. apply IH; [lia| |lia|done].
      rewrite (take_S_r _ _ _ Hx). set_solver.
  - apply cwp_ret, HQ. right. split; [|lia]. by rewrite take_ge in Ht by lia.
Qed.

(** the state of the log after [log_write] *)
Definition logged (L : list Z) (k : Z) (r : fsst) : fsst :=
  r <| log ::= λ l, l <| lh_block := L |> <| lh_n := k |> |>.
Lemma transaction_absorb j :
  (length bl < LOGBLOCKS)%nat → ¬ in_log start n →
  bl !! j = Some n ∨ (n ∉ bl) ∧ j = length bl →
  transaction (absorb n bl) (β <| pinned ::= λ s, {[n]} ∪ s |>)
    (logged (<[j := n]> (lh_block (log r))) (Z.of_nat (length (absorb n bl))) r).
Proof.
  intros Hlen Hnl Hj. destruct Htx as [[Hd Hs Hl] Hk Hb Hnd Hok Hp Hh].
  assert (Hlb : length (lh_block (log r)) = LOGBLOCKS) by done. unfold absorb. destruct Hj as [Hj|[Hj ->]].
  - rewrite decide_True by (by eapply list_elem_of_lookup_2).
    assert (<[j := n]> (lh_block (log r)) = lh_block (log r)) as ->.
    { apply list_insert_id. rewrite <- Hb, lookup_take_Some in Hj. apply Hj. }
    split; simpl; try done. rewrite Hp. apply list_elem_of_lookup_2 in Hj. set_solver.
  - rewrite decide_False by done. split; simpl; try done.
    + split; simpl; try done. by rewrite length_insert.
    + rewrite length_app, Nat.add_1_r. rewrite (take_S_r _ _ n) by (apply list_lookup_insert_eq; lia).
      by rewrite take_insert_ge, Hb.
    + apply NoDup_app. split_and!; [done| |apply NoDup_singleton]. set_solver.
    + intros t [Ht|Ht]%elem_of_app; [by apply Hok|]. apply list_elem_of_singleton in Ht as ->. done.
    + rewrite Hp. set_solver.
Qed.
End absorb.

Lemma cwp_log_write n b bl β r (Q : unit → gset lockid → bst → fsst → Prop) :
  transaction bl β r → bhold β !! n = Some b → block_ok n → ¬ in_log start n →
  (length bl < LOGBLOCKS)%nat → 1 ≤ log_outstanding (log r) →
  (∀ L k, let r' := logged L k r in let β' := β <| pinned ::= λ s, {[n]} ∪ s |> in
    transaction (absorb n bl) β' r' → Q tt ∅ β' r') →
  cwp (log_write b) ∅ β r Q.
Proof.
  intros Htx Hb Hok Hnl Hlen Ho HQ.
  apply cwp_bind, cwp_acquire; [set_solver|]. apply cwp_bind, cwp_rd_log.
  rewrite (tx_n _ _ _ _ _ Htx), (proj2 (Z.leb_gt _ _)) by lia. apply cwp_bind, cwp_rd_log.
  rewrite (proj2 (Z.ltb_ge _ _)) by lia. apply cwp_bind. eapply (cwp_rd_buf _ _ _ _ _ _ _ _ n); [done|].
  intros x [_ ->] _. apply cwp_bind.
  eapply (cwp_log_absorb n bl β r Hok Htx _ _ 0); [lia|set_solver|lia|]. intros j Hj.
  pose proof (HQ _ _ (transaction_absorb n bl β r Hok Htx j Hlen Hnl Hj)) as HQ'. clear HQ.
  assert (Hjl : (j ≤ length bl)%nat) by (destruct Hj as [Hj%lookup_lt_Some|[_ ->]]; lia).
  pose proof (la_len _ _ _ (tx_log _ _ _ _ _ Htx)) as HL.
  apply cwp_bind, cwp_bind, cwp_rd_log. rewrite HL, (proj2 (Z.ltb_lt _ _)) by lia. rewrite Nat2Z.id.
  rewrite s32_small by (unfold block_ok in Hok; lia). apply cwp_upd_log.
  apply cwp_bind, cwp_rd_log. simpl. rewrite (tx_n _ _ _ _ _ Htx). apply cwp_bind.
  unfold absorb, logged in HQ'. destruct Hj as [Hj|[Hj ->]].
  - pose proof (list_elem_of_lookup_2 _ _ _ Hj) as Hin. apply lookup_lt_Some in Hj.
    rewrite (proj2 (Z.eqb_neq _ _)) by lia. apply cwp_ret, cwp_release; [set_solver|].
    rewrite decide_True in HQ' by done.
    assert (Hp : {[n]} ∪ pinned β = pinned β) by (rewrite (tx_pinned _ _ _ _ _ Htx); set_solver).
    assert (β <| pinned ::= λ s, {[n]} ∪ s |> = β) as Hβ by (by apply bst_eq).
    rewrite Hβ in HQ'. by rewrite <- (tx_n _ _ _ _ _ Htx) in HQ'.
  - rewrite Z.eqb_refl. apply cwp_bind. eapply (cwp_bpin _ _ _ _ _ _ _ n); [done| |set_solver|].
    { rewrite (tx_pinned _ _ _ _ _ Htx). set_solver. }
    apply cwp_upd_log, cwp_release; [set_solver|]. rewrite decide_False, length_app in HQ' by done.
    simpl in HQ'.
    replace (Z.of_nat (length bl + 1)) with (s32 (lh_n (log r) + 1)) in HQ'; [done|].
    rewrite (tx_n _ _ _ _ _ Htx). unfold LOGBLOCKS, MAXOPBLOCKS in Hlen. rewrite s32_small; lia.
Qed.

(** ** [commit] and [end_op] *)

(** on the way from [h] to [h'], recovery produces [old] until one write is
    done, and [new] from then on *)
Definition atomically (old new : Z → list Z) (h h' : list (Z * list Z)) : Prop :=
  ∃ h1, writes (recovers start old) h h1 ∧
    (h' = h1 ∧ same_data start old new ∨ ∃ w, writes (recovers start new) (w :: h1) h').

(** what a commit leaves *)
Record done_commit (β0 : bst) (r0 : fsst) (H : gset lockid) (β : bst) (r : fsst) : Prop := {
  dc_locks : H = ∅;
  dc_tx : transaction [] β r;
  dc_held : bhold β = ∅;
  dc_view : same_data start (bview β0) (bview β);
  dc_atomic : atomically (disk_block (bhist β0)) (bview β0) (bhist β0) (bhist β);
  dc_log : log r = (log r0) <| lh_n := 0 |>;
  dc_rest : r = r0 <| log := log r |>
}.
Lemma cwp_commit bl β r :
  transaction bl β r → bhold β = ∅ → (length bl < NBUF)%nat →
  cwp (commit (S fuel)) ∅ β r (λ _ H β' r', done_commit β r H β' r').
Proof.
  intros Htx Hh Hroom. apply cwp_clean. intros Hcl. destruct β as [v P hm h]. simpl in Hh. subst hm.
  pose proof (tx_pinned _ _ _ _ _ Htx) as HP. simpl in HP. subst P.
  assert (Hcl' : ∀ n, n ∉ bl → v n = disk_block h n).
  { intros n Hn. apply Hcl. intros [?|[? ?]]; set_solver. }
  pose proof (tx_header _ _ _ _ _ Htx) as Hhd. simpl in Hhd.
  apply cwp_bind, cwp_rd_log. rewrite (tx_n _ _ _ _ _ Htx). destruct (Z.ltb_spec 0 (Z.of_nat (length bl))) as [|Hz].
  - eapply cwp_mono; [|by apply (cwp_commit_body E G R X p pid fuel dev start Hdev Hstart bl v h r)].
    intros _ H' β' r' (-> & -> & Hp & Hhl & Hhd' & Hv & h1 & d & Hw1 & Hw2).
    destruct Htx as [[? ? ?] ? ? ? ? ? ?]. split; try done; [|by exists h1; eauto].
    split; try done; [constructor|set_solver].
  - destruct bl; [|simpl in Hz; lia]. apply cwp_ret. pose proof (tx_n _ _ _ _ _ Htx) as Hn.
    assert (Hr : recovers start (disk_block h) h) by (by apply recovers_empty).
    split; simpl; try done.
    + exists h. split; [by constructor|]. left. split; [done|]. intros n _. apply Hcl'. set_solver.
    + destruct (log r) eqn:Hlog. simpl in Hn. by subst.
    + by destruct r.
Qed.

(** with as many blocks pinned as there are buffers, [commit] finds none *)
Lemma cwp_commit_full bl β r :
  transaction bl β r → bhold β = ∅ → length bl = LOGBLOCKS → E (StopPanic "bget: no buffers") →
  cwp (commit (S fuel)) ∅ β r (λ _ _ _ _, False).
Proof.
  intros Htx Hh Hlen HE. apply cwp_bind, cwp_rd_log. rewrite (tx_n _ _ _ _ _ Htx), Hlen. simpl.
  apply cwp_bind. unfold write_log. simpl. apply cwp_bind, cwp_rd_log. rewrite (tx_n _ _ _ _ _ Htx), Hlen. simpl.
  apply cwp_bind, cwp_bind, cwp_rd_log, cwp_bind, cwp_bind, cwp_rd_log.
  destruct (tx_log _ _ _ _ _ Htx) as [-> -> _]. assert (u32 dev = dev) as -> by (by apply u32_small).
  rewrite u32_small by lia. apply cwp_bread_full; [| |done].
  - intros [Hu|[b Hu]]; [|by rewrite Hh in Hu]. rewrite (tx_pinned _ _ _ _ _ Htx), elem_of_list_to_set in Hu.
    apply (tx_ok _ _ _ _ _ Htx) in Hu as [_ Hnl]. apply Hnl. unfold in_log. unfold LOGBLOCKS, MAXOPBLOCKS. lia.
  - rewrite Hh, dom_empty_L, union_empty_r_L, (tx_pinned _ _ _ _ _ Htx).
    rewrite size_list_to_set by apply (tx_nodup _ _ _ _ _ Htx). rewrite Hlen. done.
Qed.

(** no system call is in a transaction *)
Record idle (β : bst) (r : fsst) : Prop := {
  idle_tx : transaction [] β r;
  idle_held : bhold β = ∅;
  idle_outstanding : log_outstanding (log r) = 0;
  idle_committing : log_committing (log r) = 0
}.
(** what the end of the last system call leaves *)
Record done_op (β0 : bst) (r0 : fsst) (H : gset lockid) (β : bst) (r : fsst) : Prop := {
  do_locks : H = ∅;
  do_idle : idle β r;
  do_view : same_data start (bview β0) (bview β);
  do_atomic : atomically (disk_block (bhist β0)) (bview β0) (bhist β0) (bhist β);
  do_rest : r = r0 <| log := log r |>
}.
(** a transaction does not depend on the counters *)
Lemma transaction_counters bl β r o c :
  transaction bl β r → transaction bl β (r <| log ::= λ l, l <| log_outstanding := o |> <| log_committing := c |> |>).
Proof. intros [[] ? ? ? ? ? ?]. by split; [split|..]. Qed.

Lemma cwp_end_op bl β r :
  transaction bl β r → bhold β = ∅ → (length bl < NBUF)%nat →
  log_outstanding (log r) = 1 → log_committing (log r) = 0 →
  cwp (end_op (S fuel)) ∅ β r (λ _ H β' r', done_op β r H β' r').
Proof.
  intros Htx Hh Hroom Ho Hc. apply cwp_bind, cwp_acquire; [set_solver|]. apply cwp_bind, cwp_upd_log.
  apply cwp_bind, cwp_rd_log. simpl. rewrite Hc. simpl. apply cwp_bind, cwp_rd_log. simpl. rewrite Ho. simpl.
  apply cwp_bind, cwp_upd_log, cwp_bind, cwp_release; [set_solver|]. apply cwp_bind.
  eapply cwp_mono; [|eapply cwp_commit; [exact (transaction_counters _ _ _ _ _ Htx)|done|done]].
  simpl. intros _ H β' r' [-> Htx' Hh' Hv Hat Hlog Hrest]. apply cwp_bind, cwp_acquire; [set_solver|].
  apply cwp_bind, cwp_upd_log, cwp_bind, cwp_wakeup; [set_solver|]. apply cwp_release; [set_solver|].
  split; [done| |done|done|rewrite Hrest; by destruct r]. split; [|done| |done].
  - destruct Htx' as [[] ? ? ? ? ? ?]. by split; [split|..].
  - simpl. rewrite Hlog. simpl. by rewrite Ho.
Qed.

(** these say nothing outside the log *)
Lemma transaction_rest bl β r r' : same_rest r r' → transaction bl β r → transaction bl β r'.
Proof. intros [Hl _ _ _ _] [[] ? ? ? ? ? ?]. by split; rewrite ?Hl; [split; rewrite ?Hl|..]. Qed.
Lemma idle_rest β r r' : same_rest r r' → idle β r → idle β r'.
Proof. intros Hr [Ht Hh Ho Hc]. split; [by eapply transaction_rest|done|..]; by rewrite (sr_log _ _ Hr). Qed.

(** ** A system call that writes blocks *)

(** the use of the log its comment describes: each block is read, changed,
    logged and released *)
Fixpoint put_blocks (ws : list (Z * list Z)) : KM unit :=
  match ws with
  | [] => ret tt
  | (n, d) :: ws =>
      let* b := bread (S fuel) dev n in
      set_data b 0 d ;;
      log_write b ;;
      brelse b ;;
      put_blocks ws
  end.
Definition transact (ws : list (Z * list Z)) : KM unit :=
  begin_op (S fuel) ;;
  put_blocks ws ;;
  end_op (S fuel).
(** the array of blocks with the blocks [ws] set *)
Definition put_view (ws : list (Z * list Z)) (v : Z → list Z) : Z → list Z :=
  foldl (λ v w, setv w.1 w.2 v) v ws.

(** the blocks of the transaction once the blocks [ws] are among them *)
Definition absorbs (ws : list (Z * list Z)) (bl : list Z) : list Z := foldl (λ bl w, absorb w.1 bl) bl ws.
Lemma absorb_length n bl : (length (absorb n bl) ≤ S (length bl))%nat.
Proof. unfold absorb. case_decide; [lia|]. rewrite length_app. simpl. lia. Qed.
Lemma absorbs_length ws : ∀ bl, (length (absorbs ws bl) ≤ length bl + length ws)%nat.
Proof.
  induction ws as [|w ws IH]; intros bl; simpl; [lia|]. pose proof (absorb_length w.1 bl).
  specialize (IH (absorb w.1 bl)). unfold absorbs in *. lia.
Qed.
Definition put_ok (w : Z * list Z) : Prop := block_ok w.1 ∧ ¬ in_log start w.1 ∧ length w.2 = Z.to_nat BSIZE.

Lemma cwp_put_blocks ws : ∀ bl β r (Q : unit → gset lockid → bst → fsst → Prop),
  Forall put_ok ws → transaction bl β r → bhold β = ∅ → (length bl + length ws < NBUF)%nat →
  log_outstanding (log r) = 1 → log_committing (log r) = 0 →
  (∀ β' r', transaction (absorbs ws bl) β' r' → bhold β' = ∅ → bview β' = put_view ws (bview β) →
    bhist β' = bhist β → log_outstanding (log r') = 1 → log_committing (log r') = 0 → Q tt ∅ β' r') →
  cwp (put_blocks ws) ∅ β r Q.
Proof.
  induction ws as [|[n d] ws IH]; intros bl β r Q Hws Htx Hh Hlen Ho Hc HQ.
  { apply cwp_ret. by apply HQ. }
  apply Forall_cons in Hws as [(Hok & Hnl & Hd) Hws]. simpl in *. destruct β as [v P hm h]. simpl in Hh. subst hm.
  apply cwp_len. simpl. intros Hvl.
  apply cwp_bind, cwp_bread; [done..| |].
  { right. simpl. rewrite dom_empty_L, union_empty_r_L. change P with (pinned (mk_bst v P ∅ h)).
    rewrite (tx_pinned _ _ _ _ _ Htx).
    rewrite size_list_to_set by apply (tx_nodup _ _ _ _ _ Htx). lia. }
  intros b. apply cwp_bind.
  eapply (cwp_set_data _ _ _ _ _ _ _ n); [apply lookup_insert_eq|apply store_bytes_all; simpl; by rewrite Hvl|done|].
  apply cwp_bind. eapply (cwp_log_write n b bl); [by destruct Htx|apply lookup_insert_eq|done|done|unfold NBUF, LOGBLOCKS in *; lia|lia|].
  intros L k r' β' Htx'. apply cwp_bind.
  eapply (cwp_brelse _ _ _ _ _ _ _ n); [apply lookup_insert_eq|left; simpl; set_solver|].
  pose proof (absorb_length n bl). eapply (IH (absorb n bl)); [done| | |lia|done|done|].
  - destruct Htx'. by split.
  - simpl. by rewrite delete_insert_id.
  - intros β1 r1 H1 H2 H3 H4 H5 H6. by apply HQ.
Qed.

(** a whole transaction *)
Lemma cwp_transact ws β r :
  idle β r → Forall put_ok ws → (length ws ≤ MAXOPBLOCKS)%nat →
  cwp (transact ws) ∅ β r (λ _ H β' r', H = ∅ ∧ idle β' r' ∧ same_data start (put_view ws (bview β)) (bview β') ∧
    atomically (disk_block (bhist β)) (put_view ws (bview β)) (bhist β) (bhist β')).
Proof.
  intros [Htx Hh Ho Hc] Hws Hlen. pose proof (tx_n _ _ _ _ _ Htx) as Hn. simpl in Hn.
  apply cwp_bind, cwp_begin_op; [done|lia|rewrite Ho, Hn; unfold LOGBLOCKS, MAXOPBLOCKS; lia|lia|].
  apply cwp_bind. eapply (cwp_put_blocks ws []); [done|by destruct Htx as [[] ? ? ? ? ? ?]; split; [split|..]|done| | |done|].
  { unfold NBUF. simpl. unfold MAXOPBLOCKS in *. lia. } { simpl. lia. }
  intros β1 r1 Htx1 Hh1 Hv1 Hi1 Ho1 Hc1. eapply cwp_mono; [|eapply cwp_end_op; try done].
  - simpl. intros _ H β' r' [-> Hid Hv Hat _]. rewrite Hv1 in Hv, Hat. rewrite Hi1 in Hat. done.
  - eapply Nat.le_lt_trans; [apply (absorbs_length ws [])|]. unfold NBUF, MAXOPBLOCKS in *. simpl. lia.
Qed.
End ops.

