(* ===== verification/TxLogic.v ===== *)
(** * Code inside a transaction

    Between [begin_op] and [end_op] a system call works on the array of blocks
    [tv], of which it has logged the blocks [tl] and holds the blocks [th] in
    buffers; the blocks [td] are those it has changed and not yet logged.  It
    also works on the inode table [ti].  [twp m τ Q] says that [m] does not stop
    when run in the state [τ] of a transaction, and what it does to that state. *)

From S2P Require Import Prelude Fsdata Kstate Spinlock Runqueue Sched SchedInv Bytes Layout Kalloc Vm Printf.
From S2P Require Import Quiet Keeps Sleeplock Bio Log FsLogic Ring Cache Block Journal Transact.
#[local] Open Scope Z_scope.

Record tx := mk_tx { tv : Z → list Z; tl : list Z; th : gmap Z nat; td : gset Z; ti : list inode }.
#[export] Instance eta_tx : Eta tx := λ r, mk_tx (tv r) (tl r) (th r) (td r) (ti r).
#[export] Instance set_tv : Setter tv. Proof. solve_setter. Defined.
#[export] Instance set_tl : Setter tl. Proof. solve_setter. Defined.
#[export] Instance set_th : Setter th. Proof. solve_setter. Defined.
#[export] Instance set_td : Setter td. Proof. solve_setter. Defined.
#[export] Instance set_ti : Setter ti. Proof. solve_setter. Defined.

Lemma tx_eq τ τ' : tv τ' = tv τ → tl τ' = tl τ → th τ' = th τ → td τ' = td τ → ti τ' = ti τ → τ' = τ.
Proof. destruct τ, τ'. simpl. by intros -> -> -> -> ->. Qed.
(** a post-condition holds of an equal state *)
Lemma settle {A} (Q : A → tx → Prop) a τ τ' :
  Q a τ → tv τ' = tv τ → tl τ' = tl τ → th τ' = th τ → td τ' = td τ → ti τ' = ti τ → Q a τ'.
Proof. intros HQ H1 H2 H3 H4 H5. by rewrite (tx_eq τ τ'). Qed.
(** blocks that are held and let go, marked and logged *)
Lemma release_held (h : gmap Z nat) n b : h !! n = None → delete n (<[n := b]> h) = h.
Proof. apply delete_insert_id. Qed.
Lemma dirty_logged (s : gset Z) n : n ∉ s → ({[n]} ∪ s) ∖ {[n]} = s.
Proof. set_solver. Qed.

(** where the file system runs: the contract of the process, the disk driver and
    its promise, the device and its log *)
Class FsEnv := {
  te_E : stop → Prop; te_G : kstate → Prop; te_R : kstate → kstate → Prop;
  te_X : gmap Z Z → vdisk → Prop; te_p : nat; te_pid : Z;
  te_disk :: DiskRw;
  te_disk_ok :: DiskOk te_E te_G te_R te_X te_p te_pid;
  te_dev : Z; te_start : Z;
  te_dev_ok : 0 ≤ te_dev < 2 ^ 32;
  te_start_ok : 0 ≤ te_start < 2 ^ 31 - 31
}.
(** and the history of the disk and the rest of the state when a transaction
    starts *)
Class TxEnv := { te_fs :: FsEnv; te_hist : list (Z * list Z); te_rest : fsst }.
(** a system call has begun a transaction; code that only reads does without *)
Class InTx `{TxEnv} : Prop := te_out : 1 ≤ log_outstanding (log te_rest).

Section ops.
Context {TE : TxEnv} (fuel : nat).
#[local] Abbreviation dev := te_dev.
#[local] Abbreviation start := te_start.
#[local] Abbreviation h0 := te_hist.
#[local] Abbreviation r0 := te_rest.
#[local] Abbreviation cwp := (cwp te_E te_G te_R te_X te_p te_pid dev).

Record tin (τ : tx) (β : bst) (r : fsst) : Prop := {
  tin_tx : transaction dev start (tl τ) β r;
  tin_view n : bview β n = tv τ n;
  tin_hold : bhold β = th τ;
  tin_hist : bhist β = h0;
  tin_clean n : n ∉ tl τ → n ∉ td τ → tv τ n = disk_block h0 n;
  tin_out : log_outstanding (log r) = log_outstanding (log r0);
  tin_comm : log_committing (log r) = log_committing (log r0);
  tin_rest : r = r0 <| log := log r |> <| inodes := ti τ |>
}.
Definition twp {A} (m : KM A) (τ : tx) (Q : A → tx → Prop) : Prop :=
  ∀ β r, tin τ β r → cwp m ∅ β r (λ a H β' r', H = ∅ ∧ ∃ τ', tin τ' β' r' ∧ Q a τ').

Lemma twp_mono {A} (m : KM A) τ (Q Q' : A → tx → Prop) : (∀ a τ', Q a τ' → Q' a τ') → twp m τ Q → twp m τ Q'.
Proof.
  intros HQ Hm β r Hi. eapply cwp_mono; [|by apply Hm]. intros a H β' r' (-> & τ' & Hi' & HQ'). split; [done|]. eauto.
Qed.
(** the blocks count, not the function that gives them *)
Definition eqv (τ τ' : tx) : Prop :=
  (∀ n, tv τ' n = tv τ n) ∧ tl τ' = tl τ ∧ th τ' = th τ ∧ td τ' = td τ ∧ ti τ' = ti τ.
Lemma twp_eqv {A} (m : KM A) τ (Q : A → tx → Prop) : twp m τ (λ a τ1, ∃ τ2, eqv τ1 τ2 ∧ Q a τ2) → twp m τ Q.
Proof.
  intros Hm β r Hi. eapply cwp_mono; [|by apply Hm]. intros a H β' r' (-> & τ1 & Hi1 & τ2 & (E1 & E2 & E3 & E4 & E5) & HQ).
  split; [done|]. exists τ2. split; [|done]. destruct Hi1 as [Ht Hv Hh Hhi Hc Ho Hcm Hr].
  split; rewrite ?E2, ?E3, ?E4, ?E5; try done; intros n; rewrite E1; [apply Hv|apply Hc].
Qed.
Lemma twp_bind {A B} (m : KM A) (k : A → KM B) τ Q : twp m τ (λ a τ', twp (k a) τ' Q) → twp (bind m k) τ Q.
Proof.
  intros Hm β r Hi. apply cwp_bind. eapply cwp_mono; [|by apply Hm]. intros a H β' r' (-> & τ' & Hi' & HQ'). by apply HQ'.
Qed.
Lemma twp_ret {A} (a : A) τ (Q : A → tx → Prop) : Q a τ → twp (ret a) τ Q.
Proof. intros HQ β r Hi. apply cwp_ret. eauto. Qed.
Lemma twp_deref {A} (x : option A) a τ (Q : A → tx → Prop) : x = Some a → Q a τ → twp (deref x) τ Q.
Proof. intros -> HQ. by apply twp_ret. Qed.
Lemma twp_len {A} (m : KM A) τ (Q : A → tx → Prop) :
  ((∀ n, length (tv τ n) = Z.to_nat BSIZE) → twp m τ Q) → twp m τ Q.
Proof.
  intros Hm β r Hi. apply cwp_len. intros Hl. apply Hm; [|done]. intros n. by rewrite <- (tin_view _ _ _ Hi).
Qed.
(** code that only reads the state *)
Lemma twp_read {A} (m : KM A) a τ (Q : A → tx → Prop) :
  (∀ β r (P : A → gset lockid → bst → fsst → Prop), tin τ β r → P a ∅ β r → cwp m ∅ β r P) → Q a τ → twp m τ Q.
Proof. intros Hm HQ β r Hi. apply Hm; eauto. Qed.

(** ** Buffers *)

Lemma tin_room τ β r n : tin τ β r → (length (tl τ) + size (th τ) < NBUF)%nat → room β n.
Proof.
  intros Hi Hs. right. rewrite (tin_hold _ _ _ Hi), (tx_pinned _ _ _ _ _ (tin_tx _ _ _ Hi)).
  rewrite size_union_alt, size_list_to_set by apply (tx_nodup _ _ _ _ _ (tin_tx _ _ _ Hi)).
  assert (size (dom (th τ) ∖ list_to_set (tl τ)) ≤ size (dom (th τ)))%nat as Hle by (apply subseteq_size; set_solver).
  rewrite size_dom in Hle. lia.
Qed.
Lemma twp_bread n τ (Q : nat → tx → Prop) :
  th τ !! n = None → block_ok n → (length (tl τ) + size (th τ) < NBUF)%nat →
  (∀ b, Q b (τ <| th ::= <[n := b]> |>)) → twp (bread (S fuel) dev n) τ Q.
Proof.
  intros Hn Hok Hroom HQ β r Hi. apply cwp_bread; [apply _|by rewrite (tin_hold _ _ _ Hi)|done|by eapply tin_room|].
  intros b. split; [done|]. exists (τ <| th ::= <[n := b]> |>). split; [|done].
  destruct Hi as [[] Hv Hh Hhi Hc Ho Hcm Hr]. split; [by split|done| |done..]. simpl. by rewrite Hh.
Qed.
Lemma twp_brelse n b τ (Q : unit → tx → Prop) :
  th τ !! n = Some b → n ∉ td τ → Q tt (τ <| th ::= delete n |>) → twp (brelse b) τ Q.
Proof.
  intros Hn Hd HQ β r Hi. eapply (cwp_brelse _ _ _ _ _ _ _ n); [by rewrite (tin_hold _ _ _ Hi)|..].
  - destruct (decide (n ∈ tl τ)); [left|right].
    + rewrite (tx_pinned _ _ _ _ _ (tin_tx _ _ _ Hi)). set_solver.
    + rewrite (tin_view _ _ _ Hi n), (tin_hist _ _ _ Hi). by apply (tin_clean _ _ _ Hi).
  - split; [done|]. exists (τ <| th ::= delete n |>). split; [|done].
    destruct Hi as [[] Hv Hh Hhi Hc Ho Hcm Hr]. split; [by split|done| |done..]. simpl. by rewrite Hh.
Qed.
Lemma twp_rd_buf {T} (g : buf → T) n b τ (Q : T → tx → Prop) :
  th τ !! n = Some b → (∀ x, b_data x = tv τ n → Q (g x) τ) → twp (rdt bufs b g) τ Q.
Proof.
  intros Hn HQ β r Hi. eapply (cwp_rd_buf _ _ _ _ _ _ _ _ n); [by rewrite (tin_hold _ _ _ Hi)|].
  intros x _ Hx. split; [done|]. exists τ. split; [done|]. apply HQ. by rewrite Hx, (tin_view _ _ _ Hi).
Qed.
Lemma twp_wr_data n b d τ (Q : unit → tx → Prop) :
  th τ !! n = Some b → length d = Z.to_nat BSIZE →
  Q tt (τ <| tv ::= setv n d |> <| td ::= λ s, {[n]} ∪ s |>) → twp (wrt bufs b b_data d) τ Q.
Proof.
  intros Hn Hd HQ β r Hi. eapply (cwp_wr_data _ _ _ _ _ _ _ n); [by rewrite (tin_hold _ _ _ Hi)|done|].
  split; [done|]. eexists. split; [|exact HQ]. destruct Hi as [[] Hv Hh Hhi Hc Ho Hcm Hr].
  split; [by split|simpl; intros m; unfold setv; by rewrite Hv|done|done| |done..]. simpl. intros m Hm Hm'. rewrite setv_ne by set_solver. apply Hc; set_solver.
Qed.
Lemma twp_log_write `{!InTx} n b τ (Q : unit → tx → Prop) :
  th τ !! n = Some b → block_ok n → ¬ in_log start n → (length (tl τ) < LOGBLOCKS)%nat →
  Q tt (τ <| tl ::= absorb n |> <| td ::= λ s, s ∖ {[n]} |>) → twp (log_write b) τ Q.
Proof.
  intros Hn Hok Hnl Hlen HQ β r Hi. eapply (cwp_log_write te_E te_G te_R te_X te_p te_pid dev start te_dev_ok te_start_ok n b (tl τ));
    [apply Hi|by rewrite (tin_hold _ _ _ Hi)|done|done|done|rewrite (tin_out _ _ _ Hi); apply te_out|].
  intros L k r' β' Htx. split; [done|]. eexists. split; [|exact HQ]. destruct Hi as [_ Hv Hh Hhi Hc Ho Hcm Hr].
  split; [done|done|done|done| |done|done|].
  - simpl. intros m Hm Hm'. unfold absorb in Hm. destruct (decide (m = n)) as [-> |]; [case_decide; set_solver|].
    apply Hc; [case_decide; set_solver|set_solver].
  - unfold r', logged. simpl. rewrite Hr. by destruct te_rest.
Qed.
Lemma twp_data_le k n b off v τ (Q : Z → tx → Prop) :
  th τ !! n = Some b → load_le k (tv τ n) off = Some v → Q v τ → twp (data_le k b off) τ Q.
Proof. intros Hn Hv HQ. apply twp_bind. eapply twp_rd_buf; [done|]. intros x ->. by eapply twp_deref. Qed.
Lemma twp_set_data_le k n b off v d τ (Q : unit → tx → Prop) :
  th τ !! n = Some b → store_le k (tv τ n) off v = Some d → length d = Z.to_nat BSIZE →
  Q tt (τ <| tv ::= setv n d |> <| td ::= λ s, {[n]} ∪ s |>) → twp (set_data_le k b off v) τ Q.
Proof.
  intros Hn Hd Hlen HQ. apply twp_bind. eapply twp_rd_buf; [done|]. intros x ->.
  apply twp_bind. eapply twp_deref; [done|]. by eapply twp_wr_data.
Qed.
Lemma twp_set_data n b off l d τ (Q : unit → tx → Prop) :
  th τ !! n = Some b → store_bytes (tv τ n) off l = Some d → length d = Z.to_nat BSIZE →
  Q tt (τ <| tv ::= setv n d |> <| td ::= λ s, {[n]} ∪ s |>) → twp (set_data b off l) τ Q.
Proof.
  intros Hn Hd Hlen HQ. apply twp_bind. eapply twp_rd_buf; [done|]. intros x ->.
  apply twp_bind. eapply twp_deref; [done|]. by eapply twp_wr_data.
Qed.

(** ** The rest of the state *)

Lemma twp_sb τ (Q : superblock → tx → Prop) : Q (sb r0) τ → twp (rd_fs sb) τ Q.
Proof.
  apply twp_read. intros β r P Hi HP. apply cwp_rd_fs; [by intros f []|].
  assert (sb r = sb r0) as -> by (by rewrite (tin_rest _ _ _ Hi)). done.
Qed.
Lemma tin_inodes τ β r : tin τ β r → inodes r = ti τ.
Proof. intros Hi. by rewrite (tin_rest _ _ _ Hi). Qed.
Lemma twp_ent ip i τ (Q : inode → tx → Prop) : ti τ !! ip = Some i → Q i τ → twp (ent inodes ip) τ Q.
Proof.
  intros Hip. apply twp_read. intros β r P Hi HP f Hf Hr. eapply (fwp_ent _ _ _ _ _ _ inodes); [|by exists β, r].
  by rewrite (sr_inodes _ _ Hr), (tin_inodes _ _ _ Hi).
Qed.
Lemma twp_rdt {U} (g : inode → U) ip i τ (Q : U → tx → Prop) : ti τ !! ip = Some i → Q (g i) τ → twp (rdt inodes ip g) τ Q.
Proof. intros Hip HQ. apply twp_bind. eapply twp_ent; [done|]. by apply twp_ret. Qed.
(** code that holds spinlocks *)
Definition hwp {A} (H : gset lockid) (m : KM A) (τ : tx) (Q : A → gset lockid → tx → Prop) : Prop :=
  ∀ β r, tin τ β r → cwp m H β r (λ a H' β' r', ∃ τ', tin τ' β' r' ∧ Q a H' τ').
Lemma twp_hwp {A} (m : KM A) τ (Q : A → tx → Prop) : hwp ∅ m τ (λ a H τ', H = ∅ ∧ Q a τ') → twp m τ Q.
Proof. intros Hm β r Hi. eapply cwp_mono; [|by apply Hm]. intros a H β' r' (τ' & Hi' & -> & HQ). split; [done|]. by exists τ'. Qed.
Lemma hwp_bind {A B} (m : KM A) (k : A → KM B) H τ Q : hwp H m τ (λ a H' τ', hwp H' (k a) τ' Q) → hwp H (bind m k) τ Q.
Proof. intros Hm β r Hi. apply cwp_bind. eapply cwp_mono; [|by apply Hm]. intros a H' β' r' (τ' & Hi' & Hk). by apply Hk. Qed.
Lemma hwp_ret {A} (a : A) H τ (Q : A → gset lockid → tx → Prop) : Q a H τ → hwp H (ret a) τ Q.
Proof. intros HQ β r Hi. apply cwp_ret. by exists τ. Qed.
Lemma hwp_acquire l H τ (Q : unit → gset lockid → tx → Prop) : l ∉ H → Q tt ({[l]} ∪ H) τ → hwp H (acquire l) τ Q.
Proof. intros Hl HQ β r Hi. apply cwp_acquire; [done|]. by exists τ. Qed.
Lemma hwp_release l H τ (Q : unit → gset lockid → tx → Prop) : l ∉ H → Q tt H τ → hwp ({[l]} ∪ H) (release l) τ Q.
Proof. intros Hl HQ β r Hi. apply cwp_release; [done|]. by exists τ. Qed.
Lemma hwp_ent ip i H τ (Q : inode → gset lockid → tx → Prop) : ti τ !! ip = Some i → Q i H τ → hwp H (ent inodes ip) τ Q.
Proof.
  intros Hip HQ β r Hi f Hf Hr. eapply (fwp_ent _ _ _ _ _ _ inodes); [|exists β, r; by eauto].
  by rewrite (sr_inodes _ _ Hr), (tin_inodes _ _ _ Hi).
Qed.
Lemma hwp_updt g ip i H τ (Q : unit → gset lockid → tx → Prop) :
  ti τ !! ip = Some i → Q tt H (τ <| ti ::= <[ip := g i]> |>) → hwp H (updt inodes ip g) τ Q.
Proof.
  intros Hip HQ. apply hwp_bind. eapply hwp_ent; [done|]. intros β r Hi.
  apply (cwp_modify te_E te_G te_R te_X te_p te_pid dev (λ x, x <| inodes ::= <[ip := g i]> |>)); [done|done| |].
  - intros f []. split; simpl; congruence.
  - eexists. split; [|exact HQ]. pose proof (tin_inodes _ _ _ Hi) as Hin. destruct Hi as [[[] ? ? ? ? ? ?] Hv Hh Hhi Hc Ho Hcm Hr].
    split; [by split; [split|..]|done..|]. clear -Hr. destruct r, te_rest. cbn in *. injection Hr as -> -> -> -> -> -> ->. done.
Qed.
Lemma hwp_wrt {U} (g : inode → U) `{!Setter g} (v : U) ip i H τ (Q : unit → gset lockid → tx → Prop) :
  ti τ !! ip = Some i → Q tt H (τ <| ti ::= <[ip := i <| g := v |>]> |>) → hwp H (wrt inodes ip g v) τ Q.
Proof. apply hwp_updt. Qed.
Lemma twp_updt g ip i τ (Q : unit → tx → Prop) :
  ti τ !! ip = Some i → Q tt (τ <| ti ::= <[ip := g i]> |>) → twp (updt inodes ip g) τ Q.
Proof. intros Hip HQ. by apply twp_hwp, (hwp_updt g ip i). Qed.
Lemma twp_wrt {U} (g : inode → U) `{!Setter g} (v : U) ip i τ (Q : unit → tx → Prop) :
  ti τ !! ip = Some i → Q tt (τ <| ti ::= <[ip := i <| g := v |>]> |>) → twp (wrt inodes ip g v) τ Q.
Proof. apply twp_updt. Qed.
Lemma twp_printf fmt ap l τ (Q : unit → tx → Prop) :
  format_text (length fmt) fmt ap = Some l → Q tt τ → twp (printf fmt ap) τ Q.
Proof. intros Hl. apply twp_read. intros β r P Hi HP. eapply cwp_printf; [done|set_solver|done]. Qed.

(** ** States of the kernel *)

(** the kernel, run by the process, is in the state [τ] of the transaction *)
Definition tx_at (τ : tx) (s : kstate) : Prop :=
  ∃ f β r, fsat te_X te_p te_pid ∅ f s ∧ brep dev te_pid f β ∧ same_rest r f ∧ tin τ β r.
Lemma twp_wp {A} (m : KM A) τ s (Q : A → tx → Prop) : twp m τ Q → tx_at τ s →
  wp te_E te_G te_R (m s) (λ a s', ∃ τ', tx_at τ' s' ∧ Q a τ').
Proof.
  intros Hm (f & β & r & Hs & Hf & Hr & Hi). eapply wp_mono; [|by apply (Hm β r Hi f Hf Hr)].
  intros a s' (H & f' & Hs' & β' & r' & Hf' & Hr' & -> & τ' & Hi' & HQ). exists τ'. split; [|done]. by exists f', β', r'.
Qed.
End ops.
