(* ===== verification/CrashSafety.v ===== *)
(** * Crash safety of the file system

    The theorems about [kernel/log.c] and [kernel/bio.c] on the states of the
    kernel, for every disk driver that keeps the promise [DiskOk]; and a disk
    without queues, on which they are applied. *)

From S2P Require Import Prelude Fsdata Kstate Spinlock Runqueue Sched SchedInv Bytes Layout Kalloc Vm Printf.
From S2P Require Import Quiet Keeps Sleeplock Bio Log FsLogic Ring Cache Block Journal Transact.
#[local] Open Scope Z_scope.

(** ** A disk without queues *)

Module IdealDisk.
Definition rw (b : nat) (write : bool) : KM unit :=
  let* x := ent bufs b in
  if write then modify (λ s, s <| k_fs ::= λ f, f <| disk_writes ::= cons (b_blockno x, b_data x) |> |>)
  else let* h := rd_fs disk_writes in wrt bufs b b_data (disk_block h (b_blockno x)).
#[export] Instance disk : DiskRw := {| virtio_disk_rw := rw |}.
#[export] Instance disk_ok E G R p pid : DiskOk E G R (λ _ _, True) p pid.
Proof.
  split; intros b x f Q _ Hx _ _ _ HQ; simpl; unfold rw.
  - apply fwp_bind. eapply (fwp_ent _ _ _ _ _ _ bufs); [done|]. apply fwp_bind, fwp_rd_fs; [done|].
    by eapply (fwp_wrt _ _ _ _ _ _ bufs).
  - apply fwp_bind. eapply (fwp_ent _ _ _ _ _ _ bufs); [done|]. by apply fwp_modify.
Qed.
End IdealDisk.

(** ** A state of the kernel with an empty cache *)

Lemma brep_fresh dev pid f h l :
  ring (bufs f) l → disk_writes f = h → (∀ n, length (disk_block h n) = Z.to_nat BSIZE) →
  (∀ b, (b < NBUF)%nat → ∃ x k, bufs f !! b = Some x ∧ sleeplocks f !! b = Some k ∧
     length (b_data x) = Z.to_nat BSIZE ∧ b_disk x = 0 ∧ b_dev x ≠ dev ∧ b_refcnt x = 0 ∧ sl_locked k = 0) →
  brep dev pid f (mk_bst (disk_block h) ∅ ∅ h).
Proof.
  intros Hr Hh Hlen Hb. split.
  - by exists l.
  - done.
  - intros b Hlt. destruct (Hb b Hlt) as (x & k & Hx & Hk & H1 & H2 & H3 & H4 & H5). exists x, k. by split_and!.
  - intros b b' x x' n Hlt _ Hx _ [Hd _]. destruct (Hb b Hlt) as (y & k & Hy & _ & _ & _ & Hne & _). congruence.
  - intros n [?|[? ?]]; set_solver.
  - done.
  - done.
Qed.

(** the buffers as [binit] links them *)
Definition demo_bufs : list buf :=
  (λ b, mk_buf 0 0 0 0 0 (Some ((b + 1) mod S NBUF)%nat) (Some ((b + NBUF) mod S NBUF)%nat) zero_block) <$> seq 0 (S NBUF).
Definition demo_fs : fsst :=
  fsst0 <| bufs := demo_bufs |> <| log := mk_logst 2 0 0 1 0 (replicate LOGBLOCKS 0) |>.
Definition demo_kernel : kstate := demo_running <| k_fs := demo_fs |>.
Definition demo_cache : bst := mk_bst (disk_block []) ∅ ∅ [].

Lemma demo_ring : ring demo_bufs (rev (seq 0 NBUF)).
Proof. split; [done|by rewrite <- Permutation_rev|by repeat split|by repeat split]. Qed.
Lemma demo_fresh b : (b < NBUF)%nat → ∃ x k, demo_bufs !! b = Some x ∧ sleeplocks fsst0 !! b = Some k ∧
  length (b_data x) = Z.to_nat BSIZE ∧ b_disk x = 0 ∧ b_dev x ≠ 1 ∧ b_refcnt x = 0 ∧ sl_locked k = 0.
Proof.
  intros Hb. eexists _, _. split_and!.
  - unfold demo_bufs. by rewrite list_lookup_fmap, lookup_seq_lt by lia.
  - apply lookup_replicate_2. unfold NBUF, NINODE, MAXOPBLOCKS in *. lia.
  - done.
  - done.
  - done.
  - done.
  - done.
Qed.
Lemma demo_brep : brep 1 4 demo_fs demo_cache.
Proof.
  apply (brep_fresh 1 4 demo_fs [] _ demo_ring); [done|done|apply demo_fresh].
Qed.
Lemma demo_fsat : fsat (λ _ _, True) 4 4 ∅ demo_fs demo_kernel.
Proof. split; [by destruct demo_running_kinv|by eexists|done..]. Qed.
Lemma demo_idle : idle 1 2 demo_cache demo_fs.
Proof. by repeat split; try constructor; try set_solver. Qed.

(** ** The theorems *)

(** what a transaction of the blocks [ws] leaves: the new blocks, no buffer
    held or pinned, and on the way there only disks that recover to the old or
    to the new blocks *)
Definition atomic_outcome (X : gmap Z Z → vdisk → Prop) (p : nat) (pid dev start : Z) (ws : list (Z * list Z))
    (β : bst) (s' : kstate) : Prop :=
  ∃ f' β', fsat X p pid ∅ f' s' ∧ brep dev pid f' β' ∧ idle dev start β' f' ∧
    same_data start (put_view ws (bview β)) (bview β') ∧
    atomically start (disk_block (bhist β)) (put_view ws (bview β)) (bhist β) (bhist β').
(** what recovery from a disk with the history [h] leaves *)
Definition recovered_outcome (X : gmap Z Z → vdisk → Prop) (p : nat) (pid dev start : Z) (h : list (Z * list Z))
    (s' : kstate) : Prop :=
  ∃ f' β', fsat X p pid ∅ f' s' ∧ brep dev pid f' β' ∧ lh_n (log f') = 0 ∧ pinned β' = ∅ ∧ bhold β' = ∅ ∧
    hdr_n (disk_block (bhist β') start) = 0 ∧
    same_data start (recovered start h) (bview β') ∧ same_data start (recovered start h) (disk_block (bhist β')) ∧
    writes (recovers start (recovered start h)) h (bhist β').

Section theorems.
Context (E : stop → Prop) (G : kstate → Prop) (R : kstate → kstate → Prop).
Context (X : gmap Z Z → vdisk → Prop) (p : nat) (pid : Z) {DR : DiskRw} {DOK : DiskOk E G R X p pid}.
Context (fuel : nat) (dev start : Z).


(** C9: [recover_from_log] on a cache that has nothing pinned leaves the disk
    and the buffers with the blocks that the log's header describes installed
    and the log empty, without stopping; and a crash during the recovery does
    no harm: from every moment on the way, recovery gives the same blocks. *)
Theorem recovery_restores v h f s :
  0 ≤ dev < 2 ^ 32 → 0 ≤ start < 2 ^ 31 - 31 →
  fsat X p pid ∅ f s → brep dev pid f (mk_bst v ∅ ∅ h) → log_at dev start f →
  0 ≤ hdr_n (disk_block h start) ≤ Z.of_nat LOGBLOCKS →
  (∀ t, t ∈ hdr_blocks (disk_block h start) → block_ok t ∧ ¬ in_log start t) →
  wp E G R (recover_from_log (S fuel) s) (λ _, recovered_outcome X p pid dev start h).
Proof.
  intros Hdev Hst Hs Hf Hl Hn Hbl.
  eapply wp_mono; [|by apply (cwp_recover_from_log E G R X p pid fuel dev start Hdev Hst h f Hl Hn Hbl v f Hf)].
  simpl. intros _ s' (H' & f' & Hs' & β' & r' & Hf' & Hr' & -> & Hl' & Hn' & Hp & Hh & Hhd & Hv & Hd & Hw).
  exists f', β'. split_and!; try done. by rewrite (sr_log _ _ Hr').
Qed.
End theorems.

(** the panic of [bget] *)
Definition no_buffers (e : stop) : Prop := e = StopPanic "bget: no buffers".

(** C23: the log may record [LOGBLOCKS] blocks, which is also the number of
    buffers: with that many blocks pinned, [commit] has no buffer for the log
    and panics. *)
Theorem commit_full_panics G R X p pid {DR : DiskRw} fuel dev start bl f β s :
  0 ≤ dev < 2 ^ 32 → 0 ≤ start < 2 ^ 31 - 31 →
  fsat X p pid ∅ f s → brep dev pid f β → transaction dev start bl β f → bhold β = ∅ → length bl = LOGBLOCKS →
  wp no_buffers G R (commit (S fuel) s) (λ _ _, False).
Proof.
  intros Hdev Hst Hs Hf Htx Hh Hlen.
  eapply wp_mono; [|by apply (cwp_commit_full no_buffers G R X p pid fuel dev start Hdev Hst bl β f Htx Hh Hlen eq_refl f Hf)].
  simpl. by intros _ s' (H' & f' & _ & β' & r' & _ & _ & []).
Qed.

(** ** The theorems applied *)

Definition demo_data : list Z := replicate (Z.to_nat BSIZE) 7.
Lemma demo_put_ok : Forall (put_ok 2) [(100, demo_data)].
Proof.
  constructor; [|constructor]. unfold put_ok, block_ok, in_log, demo_data, LOGBLOCKS, MAXOPBLOCKS. cbn [fst snd].
  split_and!; [lia|lia|lia|apply length_replicate].
Qed.

(** a disk whose log has block 100 to install *)
Definition demo_header : list Z := <[0%nat := 1]> (<[4%nat := 100]> zero_block).
Definition demo_crash : list (Z * list Z) := [(2, demo_header); (3, demo_data)].
Definition demo_crashed : fsst := demo_fs <| disk_writes := demo_crash |>.
Lemma demo_crash_length n : length (disk_block demo_crash n) = Z.to_nat BSIZE.
Proof. unfold demo_crash. simpl. repeat case_match; done. Qed.
Lemma demo_crashed_brep : brep 1 4 demo_crashed (mk_bst (disk_block demo_crash) ∅ ∅ demo_crash).
Proof.
  apply (brep_fresh 1 4 demo_crashed demo_crash _ demo_ring); [done|apply demo_crash_length|apply demo_fresh].
Qed.
Lemma demo_crashed_fsat : fsat (λ _ _, True) 4 4 ∅ demo_crashed (demo_running <| k_fs := demo_crashed |>).
Proof. split; [by destruct demo_running_kinv|by eexists|done..]. Qed.
Lemma demo_header_blocks : hdr_n demo_header = 1 ∧ hdr_blocks demo_header = [100].
Proof. by vm_compute. Qed.
Lemma demo_targets t : t ∈ hdr_blocks (disk_block demo_crash 2) → block_ok t ∧ ¬ in_log 2 t.
Proof.
  change (disk_block demo_crash 2) with demo_header. rewrite (proj2 demo_header_blocks).
  intros ->%list_elem_of_singleton. unfold block_ok, in_log, LOGBLOCKS, MAXOPBLOCKS. lia.
Qed.
Lemma demo_header_n : 0 ≤ hdr_n (disk_block demo_crash 2) ≤ Z.of_nat LOGBLOCKS.
Proof.
  change (disk_block demo_crash 2) with demo_header. rewrite (proj1 demo_header_blocks).
  unfold LOGBLOCKS, MAXOPBLOCKS. lia.
Qed.
Lemma recovery_restores_witness :
  runs (recover_from_log (DR := IdealDisk.disk) 1 (demo_running <| k_fs := demo_crashed |>))
    (λ _, recovered_outcome (λ _ _, True) 4 4 1 2 demo_crash).
Proof.
  exact (runs_wp _ _ (recovery_restores (DOK := IdealDisk.disk_ok _ _ _ _ _) (λ _, False) (λ _, False) (λ _ _, False)
    (λ _ _, True) 4 4 0 1 2 (disk_block demo_crash) demo_crash demo_crashed (demo_running <| k_fs := demo_crashed |>)
    ltac:(lia) ltac:(lia) demo_crashed_fsat demo_crashed_brep ltac:(by split) demo_header_n demo_targets)).
Defined.

(** a transaction of as many blocks as there are buffers *)
Definition demo_blocks : list Z := (λ b, 100 + Z.of_nat b) <$> seq 0 NBUF.
Definition demo_pinned_buf (b : nat) : buf :=
  mk_buf 1 0 (if decide (b = bcache_head) then 0 else 1) (100 + Z.of_nat b) (if decide (b = bcache_head) then 0 else 1)
    (Some ((b + 1) mod S NBUF)%nat) (Some ((b + NBUF) mod S NBUF)%nat) zero_block.
Definition demo_full : fsst :=
  fsst0 <| bufs := demo_pinned_buf <$> seq 0 (S NBUF) |>
    <| log := mk_logst 2 0 0 1 (Z.of_nat LOGBLOCKS) demo_blocks |>.
Definition demo_full_cache : bst := mk_bst (disk_block []) (list_to_set demo_blocks) ∅ [].
Lemma demo_full_lookup b : (b < NBUF)%nat → bufs demo_full !! b = Some (demo_pinned_buf b).
Proof.
  intros Hb. change (bufs demo_full) with (demo_pinned_buf <$> seq 0 (S NBUF)).
  by rewrite list_lookup_fmap, lookup_seq_lt by lia.
Qed.
Lemma demo_full_used n : used demo_full_cache n ↔ ∃ b, (b < NBUF)%nat ∧ n = 100 + Z.of_nat b.
Proof.
  unfold used, demo_full_cache. cbn [pinned bhold]. rewrite elem_of_list_to_set. unfold demo_blocks. rewrite list_elem_of_fmap.
  split.
  - intros [(b & -> & Hb%elem_of_seq)|[? ?]]; [|done]. exists b. split; [lia|done].
  - intros (b & Hb & ->). left. exists b. split; [done|]. apply elem_of_seq. lia.
Qed.
Lemma demo_full_brep : brep 1 4 demo_full demo_full_cache.
Proof.
  split.
  - exists (rev (seq 0 NBUF)). split; [done|by rewrite <- Permutation_rev|by repeat split|by repeat split].
  - done.
  - intros b Hb. exists (demo_pinned_buf b), (mk_sleeplock 0 0). split_and!.
    + by apply demo_full_lookup.
    + apply lookup_replicate_2. unfold NBUF, NINODE, MAXOPBLOCKS in *. lia.
    + assert (Hh : b ≠ bcache_head) by (unfold bcache_head; lia).
      assert (Hu : used demo_full_cache (100 + Z.of_nat b)) by (apply demo_full_used; eauto).
      split; [done|done| |].
      * intros _. split; simpl; [|done|done|done]. rewrite decide_False by done. unfold refs.
        destruct Hu as [Hu|[? ?]]; [|done]. by rewrite bool_decide_eq_true_2.
      * simpl. by rewrite decide_False by done.
  - intros b b' x x' n Hb Hb' Hx Hx' [_ H1] [_ H2]. rewrite demo_full_lookup in Hx, Hx' by done. simplify_eq/=. lia.
  - intros n (b & Hb & ->)%demo_full_used. exists b, (demo_pinned_buf b). split_and!; [done|by apply demo_full_lookup|].
    split; [|done]. simpl. by rewrite decide_False by (unfold bcache_head; lia).
  - done.
  - done.
Qed.
Lemma demo_full_transaction : transaction 1 2 demo_blocks demo_full_cache demo_full.
Proof.
  split; [done|done|done| | |done|done].
  - apply NoDup_fmap; [|apply NoDup_seq]. intros i j. lia.
  - intros t (b & -> & Hb%elem_of_seq)%list_elem_of_fmap. unfold block_ok, in_log, LOGBLOCKS, NBUF, MAXOPBLOCKS in *. lia.
Qed.
Lemma demo_full_fsat : fsat (λ _ _, True) 4 4 ∅ demo_full (demo_running <| k_fs := demo_full |>).
Proof. split; [by destruct demo_running_kinv|by eexists|done..]. Qed.
Lemma commit_full_panics_witness :
  wp no_buffers (λ _, False) (λ _ _, False)
    (commit (DR := IdealDisk.disk) 1 (demo_running <| k_fs := demo_full |>)) (λ _ _, False).
Proof.
  exact (commit_full_panics (λ _, False) (λ _ _, False) (λ _ _, True) 4 4 0 1 2 demo_blocks demo_full demo_full_cache
    (demo_running <| k_fs := demo_full |>) ltac:(lia) ltac:(lia) demo_full_fsat demo_full_brep demo_full_transaction
    eq_refl eq_refl).
Defined.
