(* ===== verification/Fs.v ===== *)
(** * The file system, [kernel/fs.c]

    Blocks and their free map, inodes, file contents, directories and path
    names.  A pointer to an inode is its index in [itable.inode].  A string
    is the list of its bytes, and its end stands for the NUL; an array of
    characters in a directory entry or a name buffer is a list of [DIRSIZ]
    bytes.  What an uninitialised array holds is the parameter [junk].

    The destination of [readi] is a user address, a physical address or a
    local variable of the caller, whose new contents [readi] then returns;
    the source of [writei] is a user address or a local variable. *)

From stdpp Require Import list_numbers.
From S2P Require Import Prelude Fsdata Kstate Spinlock Runqueue Sched Bytes Layout Kalloc Vm Printf Proc.
From S2P Require Import Sleeplock Bio Log.
#[local] Open Scope Z_scope.

Definition ROOTINO : Z := 1.
Definition FSMAGIC : Z := 0x10203040.
Definition NINDIRECT : Z := BSIZE / 4.
Definition MAXFILE : Z := Z.of_nat NDIRECT + NINDIRECT.
Definition dinode_size : Z := 64.
Definition IPB : Z := BSIZE / dinode_size.
Definition BPB : Z := BSIZE * 8.
Definition IBLOCK (i : Z) (sb : superblock) : Z := u32 (i / IPB + sb_inodestart sb).
Definition BBLOCK (b : Z) (sb : superblock) : Z := u32 (b / BPB + sb_bmapstart sb).
Definition DIRSIZ : Z := 14.
Definition dirent_size : Z := 16.
Definition T_DIR : Z := 1.
Definition T_FILE : Z := 2.
Definition T_DEVICE : Z := 3.

Inductive rdst := DstUser (va : Z) | DstKernel (pa : Z) | DstLocal.
Inductive wsrc := SrcUser (va : Z) | SrcLocal (l : list Z).
(** the address [m] bytes on *)
Definition rdst_add (d : rdst) (m : Z) : rdst :=
  match d with
  | DstUser va => DstUser (u64 (va + m))
  | DstKernel pa => DstKernel (u64 (pa + m))
  | DstLocal => DstLocal
  end.
Definition wsrc_add (d : wsrc) (m : Z) : wsrc :=
  match d with
  | SrcUser va => SrcUser (u64 (va + m))
  | SrcLocal l => SrcLocal (drop (Z.to_nat m) l)
  end.

(** ** Directory entries and path elements *)

Definition de_inum (de : list Z) : option Z := load_le 2 de 0.
Definition de_name (de : list Z) : list Z := drop 2 de.
Definition mk_dirent (inum : Z) (name : list Z) : list Z := Z_to_little_endian 2 8 inum ++ name.

(** NULs may end the string before the array does *)
Definition namecmp (s t : list Z) : option Z := strncmp s 0 t 0 DIRSIZ.

(** the first character; the path without leading slashes; and the element
    before the next slash, with the rest *)
Definition char0 (path : list Z) : Z := default 0 (head path).
Fixpoint skip_slashes (path : list Z) : list Z :=
  match path with
  | c :: rest => if c =? chr "/" then skip_slashes rest else path
  | [] => []
  end.
Fixpoint elem (path : list Z) : list Z * list Z :=
  match path with
  | c :: rest =>
      if negb (c =? chr "/") && negb (c =? 0) then let (s, rest) := elem rest in (c :: s, rest)
      else ([], path)
  | [] => ([], [])
  end.
(** the rest of the path and the contents of [name] *)
Definition skipelem (path name : list Z) : option (list Z * list Z) :=
  let path := skip_slashes path in
  if char0 path =? 0 then None else
  let (s, path) := elem path in
  let len := Z.of_nat (length s) in
  let name :=
    if DIRSIZ <=? len then take (Z.to_nat DIRSIZ) s ++ drop (Z.to_nat DIRSIZ) name
    else s ++ [0] ++ drop (S (length s)) name in
  Some (skip_slashes path, name).

(** the superblock in the bytes of its block *)
Definition parse_sb (d : list Z) : option superblock :=
  match load_le 4 d 0, load_le 4 d 4, load_le 4 d 8, load_le 4 d 12,
        load_le 4 d 16, load_le 4 d 20, load_le 4 d 24, load_le 4 d 28 with
  | Some a, Some b, Some c, Some d, Some e, Some f, Some g, Some h => Some (mk_superblock a b c d e f g h)
  | _, _, _, _, _, _, _, _ => None
  end.

(** ** The inode table *)

Definition iinit : KM unit :=
  initlock itable_lock ;;
  for_each (seq 0 NINODE) (λ i, initsleeplock (inode_lk i)).

(** the scan of [iget]: a table entry of the inode, or the first empty one *)
Fixpoint iget_scan (ips : list nat) (empty : option nat) (dev inum : Z) : KM (nat + option nat) :=
  match ips with
  | [] => ret (inr empty)
  | ip :: ips =>
      let* i := ent inodes ip in
      if (0 <? i_ref i) && (i_dev i =? dev) && (i_inum i =? inum) then ret (inl ip)
      else
        let empty := match empty with
                     | None => if i_ref i =? 0 then Some ip else None
                     | Some e => Some e
                     end in
        iget_scan ips empty dev inum
  end.
Definition iget (dev inum : Z) : KM nat :=
  acquire itable_lock ;;
  let* r := iget_scan (seq 0 NINODE) None dev inum in
  match r with
  | inl ip =>
      updt inodes ip (λ i, i <| i_ref ::= λ n, s32 (n + 1) |>) ;;
      release itable_lock ;;
      ret ip
  | inr None => panic "iget: no inodes"
  | inr (Some ip) =>
      wrt inodes ip i_dev dev ;;
      wrt inodes ip i_inum inum ;;
      wrt inodes ip i_ref 1 ;;
      wrt inodes ip i_valid 0 ;;
      release itable_lock ;;
      ret ip
  end.

Definition idup (ip : nat) : KM nat :=
  acquire itable_lock ;;
  updt inodes ip (λ i, i <| i_ref ::= λ n, s32 (n + 1) |>) ;;
  release itable_lock ;;
  ret ip.

Section code.
Context {SY : Symbols} {DR : DiskRw} (fuel : nat).

Definition readsb (dev : Z) : KM unit :=
  let* bp := bread fuel dev 1 in
  let* d := rdt bufs bp b_data in
  let* x := deref (parse_sb d) in
  wr_fs sb x ;;
  brelse bp.

(** ** Blocks *)

Definition bzero (dev bno : Z) : KM unit :=
  let* bp := bread fuel dev bno in
  let* d := rdt bufs bp b_data in
  let* d := deref (memset d 0 0 BSIZE) in
  wrt bufs bp b_data d ;;
  log_write bp ;;
  brelse bp.

(** the bit of block [bi] in the free map, and the byte it is in *)
Definition bit_mask (bi : Z) : Z := Z.shiftl 1 (bi mod 8).
(** the inner loop of [balloc]: marks the first free block of the map's block *)
Definition balloc_scan (bp : nat) (b : Z) : KM (option Z) :=
  for_below (S (Z.to_nat BPB)) (let* sb := rd_fs sb in ret (Z.min BPB (sb_size sb - b))) 0 1 (λ bi,
    let m := bit_mask bi in
    let* x := data_le 1 bp (bi / 8) in
    if Z.land x m =? 0 then
      set_data_le 1 bp (bi / 8) (Z.lor x m) ;;
      ret (Some bi)
    else ret None).
Definition balloc (dev : Z) : KM Z :=
  let* sb0 := rd_fs sb in
  let* r := for_below (turns (sb_size sb0) BPB) (let* sb := rd_fs sb in ret (sb_size sb)) 0 BPB (λ b,
    let* sb := rd_fs sb in
    let* bp := bread fuel dev (BBLOCK b sb) in
    let* r := balloc_scan bp b in
    match r with
    | Some bi =>
        log_write bp ;;
        brelse bp ;;
        bzero dev (b + bi) ;;
        ret (Some (b + bi))
    | None => brelse bp ;; ret None
    end) in
  match r with
  | Some b => ret b
  | None => printf (str "balloc: out of blocks" ++ [10]) [] ;; ret 0
  end.

Definition bfree (dev b : Z) : KM unit :=
  let* sb := rd_fs sb in
  let* bp := bread fuel dev (BBLOCK b sb) in
  let bi := b mod BPB in
  let m := bit_mask bi in
  let* x := data_le 1 bp (bi / 8) in
  if Z.land x m =? 0 then panic "freeing free block" else
  set_data_le 1 bp (bi / 8) (Z.land x (Z.lnot m)) ;;
  log_write bp ;;
  brelse bp.

(** ** Inodes *)

(** the offset of inode [inum] in its block *)
Definition dinode_off (inum : Z) : Z := dinode_size * (inum mod IPB).

Definition ialloc (dev type : Z) : KM (option nat) :=
  let* sb0 := rd_fs sb in
  let* r := for_below (turns (sb_ninodes sb0) 1) (let* sb := rd_fs sb in ret (sb_ninodes sb)) 1 1 (λ inum,
    let* sb := rd_fs sb in
    let* bp := bread fuel dev (IBLOCK inum sb) in
    let off := dinode_off inum in
    let* t := data_le 2 bp off in
    if t =? 0 then
      let* d := rdt bufs bp b_data in
      let* d := deref (memset d off 0 dinode_size) in
      wrt bufs bp b_data d ;;
      set_data_le 2 bp off type ;;
      log_write bp ;;
      brelse bp ;;
      let* ip := iget dev inum in
      ret (Some ip)
    else brelse bp ;; ret None) in
  match r with
  | Some ip => ret (Some ip)
  | None => printf (str "ialloc: no inodes" ++ [10]) [] ;; ret None
  end.

Definition iupdate (ip : nat) : KM unit :=
  let* i := ent inodes ip in
  let* sb := rd_fs sb in
  let* bp := bread fuel (i_dev i) (IBLOCK (i_inum i) sb) in
  let* i := ent inodes ip in
  let off := dinode_off (i_inum i) in
  set_data_le 2 bp off (i_type i) ;;
  set_data_le 2 bp (off + 2) (i_major i) ;;
  set_data_le 2 bp (off + 4) (i_minor i) ;;
  set_data_le 2 bp (off + 6) (i_nlink i) ;;
  set_data_le 4 bp (off + 8) (i_size i) ;;
  set_data bp (off + 12) (i_addrs i ≫= Z_to_little_endian 4 8) ;;
  log_write bp ;;
  brelse bp.

(** the block numbers in a dinode or an indirect block *)
Definition load_addrs (d : list Z) (off : Z) (n : nat) : option (list Z) :=
  mapM (λ k, load_le 4 d (off + 4 * Z.of_nat k)) (seq 0 n).

Definition ilock (ip : option nat) : KM unit :=
  match ip with
  | None => panic "ilock"
  | Some ip =>
      let* ref := rdt inodes ip i_ref in
      if ref <? 1 then panic "ilock" else
      acquiresleep fuel (inode_lk ip) ;;
      let* valid := rdt inodes ip i_valid in
      when (valid =? 0) (
        let* i := ent inodes ip in
        let* sb := rd_fs sb in
        let* bp := bread fuel (i_dev i) (IBLOCK (i_inum i) sb) in
        let* i := ent inodes ip in
        let off := dinode_off (i_inum i) in
        let* type := data_le 2 bp off in
        let* major := data_le 2 bp (off + 2) in
        let* minor := data_le 2 bp (off + 4) in
        let* nlink := data_le 2 bp (off + 6) in
        let* size := data_le 4 bp (off + 8) in
        let* d := rdt bufs bp b_data in
        let* addrs := deref (load_addrs d (off + 12) (S NDIRECT)) in
        wrt inodes ip i_type (s16 type) ;;
        wrt inodes ip i_major (s16 major) ;;
        wrt inodes ip i_minor (s16 minor) ;;
        wrt inodes ip i_nlink (s16 nlink) ;;
        wrt inodes ip i_size size ;;
        wrt inodes ip i_addrs addrs ;;
        brelse bp ;;
        wrt inodes ip i_valid 1 ;;
        let* t := rdt inodes ip i_type in
        if t =? 0 then panic "ilock: no type" else ret tt)
  end.

Definition iunlock (ip : option nat) : KM unit :=
  match ip with
  | None => panic "iunlock"
  | Some ip =>
      let* h := holdingsleep (inode_lk ip) in
      if negb h then panic "iunlock" else
      let* ref := rdt inodes ip i_ref in
      if ref <? 1 then panic "iunlock" else
      releasesleep (inode_lk ip)
  end.

(** [ip->addrs[k]], [ip->addrs[k] = v] *)
Definition addr_at (ip : nat) (k : nat) : KM Z :=
  let* a := rdt inodes ip i_addrs in deref (a !! k).
Definition set_addr (ip : nat) (k : nat) (v : Z) : KM unit :=
  updt inodes ip (λ i, i <| i_addrs ::= <[k := v]> |>).

Definition bmap (ip : nat) (bn : Z) : KM Z :=
  if bn <? Z.of_nat NDIRECT then
    let* addr := addr_at ip (Z.to_nat bn) in
    if addr =? 0 then
      let* dev := rdt inodes ip i_dev in
      let* addr := balloc dev in
      if addr =? 0 then ret 0 else
      set_addr ip (Z.to_nat bn) addr ;;
      ret addr
    else ret addr
  else
  let bn := bn - Z.of_nat NDIRECT in
  if bn <? NINDIRECT then
    let* addr := addr_at ip NDIRECT in
    let* r := if addr =? 0 then
                let* dev := rdt inodes ip i_dev in
                let* addr := balloc dev in
                if addr =? 0 then ret None else
                set_addr ip NDIRECT addr ;;
                ret (Some addr)
              else ret (Some addr) in
    match r with
    | None => ret 0
    | Some addr =>
        let* dev := rdt inodes ip i_dev in
        let* bp := bread fuel dev addr in
        let* addr := data_le 4 bp (4 * bn) in
        let* addr := if addr =? 0 then
                       let* dev := rdt inodes ip i_dev in
                       let* addr := balloc dev in
                       when (negb (addr =? 0)) (
                         set_data_le 4 bp (4 * bn) addr ;;
                         log_write bp) ;;
                       ret addr
                     else ret addr in
        brelse bp ;;
        ret addr
    end
  else panic "bmap: out of range".

Definition itrunc (ip : nat) : KM unit :=
  for_each (seq 0 NDIRECT) (λ i,
    let* addr := addr_at ip i in
    when (negb (addr =? 0)) (
      let* dev := rdt inodes ip i_dev in
      bfree dev addr ;;
      set_addr ip i 0)) ;;
  let* addr := addr_at ip NDIRECT in
  when (negb (addr =? 0)) (
    let* dev := rdt inodes ip i_dev in
    let* bp := bread fuel dev addr in
    for_each (seq 0 (Z.to_nat NINDIRECT)) (λ j,
      let* a := data_le 4 bp (4 * Z.of_nat j) in
      when (negb (a =? 0)) (
        let* dev := rdt inodes ip i_dev in
        bfree dev a)) ;;
    brelse bp ;;
    let* dev := rdt inodes ip i_dev in
    let* addr := addr_at ip NDIRECT in
    bfree dev addr ;;
    set_addr ip NDIRECT 0) ;;
  wrt inodes ip i_size 0 ;;
  iupdate ip.

Definition iput (ip : nat) : KM unit :=
  acquire itable_lock ;;
  let* i := ent inodes ip in
  when ((i_ref i =? 1) && negb (i_valid i =? 0) && (i_nlink i =? 0)) (
    acquiresleep fuel (inode_lk ip) ;;
    release itable_lock ;;
    itrunc ip ;;
    wrt inodes ip i_type 0 ;;
    iupdate ip ;;
    wrt inodes ip i_valid 0 ;;
    releasesleep (inode_lk ip) ;;
    acquire itable_lock) ;;
  updt inodes ip (λ i, i <| i_ref ::= λ n, s32 (n - 1) |>) ;;
  release itable_lock.

Definition iunlockput (ip : nat) : KM unit :=
  iunlock (Some ip) ;;
  iput ip.

Definition ireclaim (dev : Z) : KM unit :=
  let* sb0 := rd_fs sb in
  let* _ := for_below (R:=unit) (turns (sb_ninodes sb0) 1) (let* sb := rd_fs sb in ret (sb_ninodes sb)) 1 1 (λ inum,
    let* sb := rd_fs sb in
    let* bp := bread fuel dev (IBLOCK inum sb) in
    let off := dinode_off inum in
    let* type := data_le 2 bp off in
    let* nlink := data_le 2 bp (off + 6) in
    let* ip := if negb (type =? 0) && (nlink =? 0) then
                 printf (str "ireclaim: orphaned inode %d" ++ [10]) [Aint inum] ;;
                 let* ip := iget dev inum in
                 ret (Some ip)
               else ret None in
    brelse bp ;;
    match ip with
    | Some ip =>
        begin_op fuel ;;
        ilock (Some ip) ;;
        iunlock (Some ip) ;;
        iput ip ;;
        end_op fuel ;;
        ret None
    | None => ret None
    end) in
  ret tt.

Definition fsinit (dev : Z) : KM unit :=
  readsb dev ;;
  let* x := rd_fs sb in
  if negb (sb_magic x =? FSMAGIC) then panic "invalid file system" else
  initlog fuel dev x ;;
  ireclaim dev.

(** ** File contents *)

(** the bytes of [struct stat]; [pad] is what the padding before [size] holds *)
Definition stat_bytes (i : inode) (pad : list Z) : list Z :=
  Z_to_little_endian 4 8 (i_dev i) ++ Z_to_little_endian 4 8 (i_inum i) ++
  Z_to_little_endian 2 8 (i_type i) ++ Z_to_little_endian 2 8 (i_nlink i) ++ pad ++
  Z_to_little_endian 8 8 (i_size i).
Definition stati (ip : nat) (pad : list Z) : KM (list Z) :=
  let* i := ent inodes ip in ret (stat_bytes i pad).

(** [either_copyout] to a destination; the bytes are those that go to a local
    variable *)
Definition copy_to (dst : rdst) (l : list Z) : KM (Z * list Z) :=
  match dst with
  | DstUser va => let* r := either_copyout true va l in ret (r, [])
  | DstKernel pa => let* r := either_copyout false pa l in ret (r, [])
  | DstLocal => ret (0, l)
  end.
(** the loop of [readi]: the final value of [tot] and the bytes for a local
    variable *)
Fixpoint readi_loop (turns : nat) (ip : nat) (dst : rdst) (off tot n : Z) (acc : list Z) : KM (Z * list Z) :=
  match turns with
  | O => stop_with StopFuel
  | S turns =>
      if tot <? n then
        let* addr := bmap ip (off / BSIZE) in
        if addr =? 0 then ret (tot, acc) else
        let* dev := rdt inodes ip i_dev in
        let* bp := bread fuel dev addr in
        let m := Z.min (n - tot) (BSIZE - off mod BSIZE) in
        let* d := rdt bufs bp b_data in
        let* l := deref (load_bytes d (off mod BSIZE) (Z.to_nat m)) in
        let* r := copy_to dst l in
        if r.1 =? -1 then
          brelse bp ;;
          ret (-1, acc ++ r.2)
        else
        brelse bp ;;
        readi_loop turns ip (rdst_add dst m) (off + m) (tot + m) n (acc ++ r.2)
      else ret (tot, acc)
  end.
Definition readi (ip : nat) (dst : rdst) (off n : Z) : KM (Z * list Z) :=
  let* size := rdt inodes ip i_size in
  if (size <? off) || (u32 (off + n) <? off) then ret (0, []) else
  let n := if size <? u32 (off + n) then size - off else n in
  let* r := readi_loop (S (turns n BSIZE)) ip dst off 0 n [] in
  ret (s32 r.1, r.2).

(** [either_copyin] from a source, with the bytes written *)
Definition copy_from (src : wsrc) (m : Z) : KM (Z * list Z) :=
  match src with
  | SrcUser va => either_copyin true va m
  | SrcLocal l => let* l := deref (load_bytes l 0 (Z.to_nat m)) in ret (0, l)
  end.
(** the final values of [tot] and [off] *)
Fixpoint writei_loop (turns : nat) (ip : nat) (src : wsrc) (off tot n : Z) : KM (Z * Z) :=
  match turns with
  | O => stop_with StopFuel
  | S turns =>
      if tot <? n then
        let* addr := bmap ip (off / BSIZE) in
        if addr =? 0 then ret (tot, off) else
        let* dev := rdt inodes ip i_dev in
        let* bp := bread fuel dev addr in
        let m := Z.min (n - tot) (BSIZE - off mod BSIZE) in
        let* r := copy_from src m in
        set_data bp (off mod BSIZE) r.2 ;;
        if r.1 =? -1 then
          brelse bp ;;
          ret (tot, off)
        else
        log_write bp ;;
        brelse bp ;;
        writei_loop turns ip (wsrc_add src m) (off + m) (tot + m) n
      else ret (tot, off)
  end.
Definition writei (ip : nat) (src : wsrc) (off n : Z) : KM Z :=
  let* size := rdt inodes ip i_size in
  if (size <? off) || (u32 (off + n) <? off) then ret (-1) else
  if MAXFILE * BSIZE <? u32 (off + n) then ret (-1) else
  let* r := writei_loop (S (turns n BSIZE)) ip src off 0 n in
  let* size := rdt inodes ip i_size in
  when (size <? r.2) (wrt inodes ip i_size r.2) ;;
  iupdate ip ;;
  ret (s32 r.1).

(** ** Directories *)

(** the directory entry at offset [off]; [msg] if it cannot be read *)
Definition read_dirent (msg : string) (dp : nat) (off : Z) : KM (list Z) :=
  let* r := readi dp DstLocal off dirent_size in
  if negb (r.1 =? dirent_size) then panic msg else ret r.2.

(** the inode and the offset of its entry *)
Definition dirlookup (dp : nat) (name : list Z) : KM (option (nat * Z)) :=
  let* type := rdt inodes dp i_type in
  if negb (type =? T_DIR) then panic "dirlookup not DIR" else
  let* size := rdt inodes dp i_size in
  for_below (turns size dirent_size) (rdt inodes dp i_size) 0 dirent_size (λ off,
    let* de := read_dirent "dirlookup read" dp off in
    let* inum := deref (de_inum de) in
    if inum =? 0 then ret None else
    let* c := deref (namecmp name (de_name de)) in
    if c =? 0 then
      let* dev := rdt inodes dp i_dev in
      let* ip := iget dev inum in
      ret (Some (ip, off))
    else ret None).

(** the search of [dirlink]: the offset of an empty entry, or the end *)
Fixpoint dirlink_find (turns : nat) (dp : nat) (off : Z) : KM Z :=
  match turns with
  | O => stop_with StopFuel
  | S turns =>
      let* size := rdt inodes dp i_size in
      if off <? size then
        let* de := read_dirent "dirlink read" dp off in
        let* inum := deref (de_inum de) in
        if inum =? 0 then ret off else dirlink_find turns dp (off + dirent_size)
      else ret off
  end.
Definition dirlink (dp : nat) (name : list Z) (inum : Z) : KM Z :=
  let* r := dirlookup dp name in
  match r with
  | Some (ip, _) => iput ip ;; ret (-1)
  | None =>
      let* size := rdt inodes dp i_size in
      let* off := dirlink_find (turns size dirent_size) dp 0 in
      let* name := deref (strncpy (replicate (Z.to_nat DIRSIZ) 0) 0 name 0 DIRSIZ) in
      let* r := writei dp (SrcLocal (mk_dirent (u16 inum) name)) off dirent_size in
      if negb (r =? dirent_size) then ret (-1) else ret 0
  end.

(** ** Paths *)

(** the loop of [namex], a turn per element of the path: the inode and the
    contents of [name] *)
Fixpoint namex_loop (turns : nat) (ip : nat) (path : list Z) (nameiparent : bool) (name : list Z)
    : KM (option nat * list Z) :=
  match turns with
  | O => stop_with StopFuel
  | S turns =>
      match skipelem path name with
      | None => if nameiparent then iput ip ;; ret (None, name) else ret (Some ip, name)
      | Some (path, name) =>
          ilock (Some ip) ;;
          let* type := rdt inodes ip i_type in
          if negb (type =? T_DIR) then iunlockput ip ;; ret (None, name) else
          if nameiparent && (char0 path =? 0) then iunlock (Some ip) ;; ret (Some ip, name) else
          let* next := dirlookup ip name in
          match next with
          | None => iunlockput ip ;; ret (None, name)
          | Some (next, _) =>
              iunlockput ip ;;
              namex_loop turns next path nameiparent name
          end
      end
  end.
Definition namex (path : list Z) (nameiparent : bool) (name : list Z) : KM (option nat * list Z) :=
  let* ip := if char0 path =? chr "/" then iget ROOTDEV ROOTINO
             else
               let* p := curproc in
               let* cwd := rd p p_cwd in
               let* cwd := deref cwd in
               idup cwd in
  namex_loop (S (length path)) ip path nameiparent name.

(** [junk] is what the array [name] holds at first *)
Definition namei (junk : list Z) (path : list Z) : KM (option nat) :=
  let* r := namex path false junk in ret r.1.
Definition nameiparent (path name : list Z) : KM (option nat * list Z) := namex path true name.
End code.
