(* ===== verification/FreeMap.v ===== *)
(** * The free map

    [balloc] and [bfree] of [kernel/fs.c]: the bits of the free map say which
    blocks are in use, [balloc] takes the first block that is not and fills it
    with zeros, and [bfree] gives a block back. *)

From S2P Require Import Prelude Fsdata Kstate Spinlock Runqueue Sched SchedInv Bytes Layout Kalloc Vm Printf Proc.
From S2P Require Import Quiet Keeps Sleeplock Bio Log FsLogic Ring Cache Block Journal Transact TxLogic Fs.
#[local] Open Scope Z_scope.

(** ** Bytes of a block *)

Lemma load_byte (d : list Z) off : 0 ≤ off → load_le 1 d off = d !! Z.to_nat off.
Proof.
  intros Ho. unfold load_le. cbn. rewrite (proj2 (Z.leb_le _ _)) by done.
  destruct (d !! Z.to_nat off) as [x|]; cbn; [|done]. by rewrite Z.shiftl_0_l, Z.lor_0_r.
Qed.
Lemma store_byte (d : list Z) off x : 0 ≤ off < Z.of_nat (length d) →
  store_le 1 d off x = Some (<[Z.to_nat off := x mod 256]> d).
Proof.
  intros Ho. change (store_le 1 d off x) with (store_bytes d off [Z.land x (Z.ones 8)]). rewrite Z.land_ones by lia. cbn [store_bytes].
  unfold put_byte, bytes_array. rewrite (proj2 (Z.leb_le _ _)), (proj2 (Z.ltb_lt _ _)) by lia. done.
Qed.
Lemma bit_mask_test x bi : 0 ≤ bi → (Z.land x (bit_mask bi) =? 0) = negb (Z.testbit x (bi mod 8)).
Proof.
  intros Hb. apply land_bit. by apply Z.mod_pos_bound.
Qed.
Lemma testbit_mask x bi k : 0 ≤ bi → 0 ≤ k < 8 →
  Z.testbit (Z.lor x (bit_mask bi) mod 256) k = (k =? bi mod 8) || Z.testbit x k.
Proof.
  intros Hb Hk. unfold bit_mask. pose proof (Z.mod_pos_bound bi 8 ltac:(done)). change 256 with (2 ^ 8).
  rewrite Z.mod_pow2_bits_low, Z.lor_spec, Z.shiftl_1_l, Z.pow2_bits_eqb by lia. rewrite orb_comm. f_equal. apply Z.eqb_sym.
Qed.
Lemma testbit_unmask x bi k : 0 ≤ bi → 0 ≤ k < 8 →
  Z.testbit (Z.land x (Z.lnot (bit_mask bi)) mod 256) k = negb (k =? bi mod 8) && Z.testbit x k.
Proof.
  intros Hb Hk. unfold bit_mask. pose proof (Z.mod_pos_bound bi 8 ltac:(done)). change 256 with (2 ^ 8).
  rewrite Z.mod_pow2_bits_low, Z.land_spec, Z.lnot_spec, Z.shiftl_1_l, Z.pow2_bits_eqb by lia. rewrite andb_comm. do 2 f_equal. apply Z.eqb_sym.
Qed.

(** ** The bits of the map *)

Section map.
Context (sb : superblock) (start : Z).

(** the blocks of the map, the blocks of inodes, and the blocks that hold no
    data of files *)
Definition map_block (n : Z) : Prop := ∃ b, 0 ≤ b < sb_size sb ∧ n = BBLOCK b sb.
Definition inode_block (n : Z) : Prop := ∃ inum, 0 ≤ inum < sb_ninodes sb ∧ n = IBLOCK inum sb.
Definition reserved (n : Z) : Prop := n = 0 ∨ in_log start n ∨ map_block n ∨ inode_block n.
(** the layout of the disk *)
Record layout_ok : Prop := {
  lo_size : 0 < sb_size sb < 2 ^ 31;
  lo_map : 0 ≤ sb_bmapstart sb ∧ sb_bmapstart sb + sb_size sb / BPB < 2 ^ 31;
  lo_map_log n : map_block n → ¬ in_log start n;
  lo_inodes : 0 ≤ sb_inodestart sb ∧ 0 ≤ sb_ninodes sb ∧ sb_inodestart sb + sb_ninodes sb / IPB < 2 ^ 31;
  lo_inodes_log n : inode_block n → ¬ in_log start n;
  lo_inodes_map n : inode_block n → ¬ map_block n
}.

(** whether block [b] is in use *)
Definition bit (v : Z → list Z) (b : Z) : bool :=
  Z.testbit (default 0 (v (BBLOCK b sb) !! Z.to_nat (b mod BPB / 8))) (b mod 8).
(** blocks that are not for files are in use *)
Definition map_ok (v : Z → list Z) : Prop := ∀ n, 0 ≤ n < sb_size sb → reserved n → bit v n = true.

Context (Hlo : layout_ok).
Lemma BBLOCK_eq b : 0 ≤ b < sb_size sb → BBLOCK b sb = b / BPB + sb_bmapstart sb.
Proof using Hlo.
  intros Hb. unfold BBLOCK. pose proof (lo_map Hlo). pose proof (Z.div_pos b BPB).
  assert (b / BPB ≤ sb_size sb / BPB) by (apply Z.div_le_mono; [done|lia]). apply u32_small.
  assert (0 < BPB) by done. lia.
Qed.
Lemma map_block_ok n : map_block n → block_ok n.
Proof using Hlo.
  intros (b & Hb & ->). rewrite BBLOCK_eq by done. pose proof (lo_map Hlo). pose proof (Z.div_pos b BPB).
  assert (b / BPB ≤ sb_size sb / BPB) by (apply Z.div_le_mono; [done|lia]). assert (0 < BPB) by done. unfold block_ok. lia.
Qed.
Lemma BPB_8 : BPB = 8 * BSIZE.
Proof. done. Qed.
Lemma byte_index b : 0 ≤ b mod BPB / 8 < BSIZE.
Proof.
  pose proof (Z.mod_pos_bound b BPB ltac:(done)). split; [apply Z.div_pos; lia|]. apply Z.div_lt_upper_bound; [done|].
  rewrite <- BPB_8. lia.
Qed.
(** two blocks with the same bit are the same *)
Lemma bit_inj b b' : 0 ≤ b → 0 ≤ b' → b / BPB = b' / BPB → b mod BPB / 8 = b' mod BPB / 8 → b mod 8 = b' mod 8 → b = b'.
Proof.
  intros H H' H1 H2 H3. pose proof (Z.div_mod b BPB ltac:(done)). pose proof (Z.div_mod b' BPB ltac:(done)).
  pose proof (Z.div_mod (b mod BPB) 8 ltac:(done)). pose proof (Z.div_mod (b' mod BPB) 8 ltac:(done)).
  assert (∀ x, (x mod BPB) mod 8 = x mod 8) as Hm.
  { intros x. rewrite BPB_8. rewrite Z.rem_mul_r by done. rewrite Z.mul_comm, Z_mod_plus_full. by apply Z.mod_mod. }
  rewrite !Hm in *. lia.
Qed.
(** the bits after one byte of the map is changed *)
Lemma bit_update v b y x : 0 ≤ b < sb_size sb → 0 ≤ x < sb_size sb → length (v (BBLOCK b sb)) = Z.to_nat BSIZE →
  bit (setv (BBLOCK b sb) (<[Z.to_nat (b mod BPB / 8) := y]> (v (BBLOCK b sb))) v) x =
  if decide (x / BPB = b / BPB ∧ x mod BPB / 8 = b mod BPB / 8) then Z.testbit y (x mod 8) else bit v x.
Proof using Hlo.
  intros Hb Hx Hlen. unfold bit. rewrite !BBLOCK_eq in * by done. pose proof (byte_index b). pose proof (byte_index x).
  unfold setv. destruct (decide (x / BPB + sb_bmapstart sb = b / BPB + sb_bmapstart sb)) as [He|Hne].
  - destruct (decide (x mod BPB / 8 = b mod BPB / 8)) as [He2|Hne2].
    + rewrite decide_True by lia. rewrite He2, list_lookup_insert_eq by lia. done.
    + rewrite decide_False by lia. rewrite list_lookup_insert_ne by lia. by rewrite He.
  - by rewrite decide_False by lia.
Qed.
Lemma bit_other v m d x : 0 ≤ x < sb_size sb → ¬ map_block m → bit (setv m d v) x = bit v x.
Proof.
  intros Hx Hm. unfold bit. rewrite setv_ne; [done|]. intros Heq. apply Hm. by exists x.
Qed.
(** the map with block [b] in use, and with block [b] free *)
Definition map_byte (v : Z → list Z) (b : Z) : Z := default 0 (v (BBLOCK b sb) !! Z.to_nat (b mod BPB / 8)).
Definition set_byte (b y : Z) (v : Z → list Z) : Z → list Z :=
  setv (BBLOCK b sb) (<[Z.to_nat (b mod BPB / 8) := y]> (v (BBLOCK b sb))) v.
Definition mark (b : Z) (v : Z → list Z) : Z → list Z := set_byte b (Z.lor (map_byte v b) (bit_mask b) mod 256) v.
Definition unmark (b : Z) (v : Z → list Z) : Z → list Z :=
  set_byte b (Z.land (map_byte v b) (Z.lnot (bit_mask b)) mod 256) v.
Lemma bit_mark v b x : 0 ≤ b < sb_size sb → 0 ≤ x < sb_size sb → length (v (BBLOCK b sb)) = Z.to_nat BSIZE →
  bit (mark b v) x = (x =? b) || bit v x.
Proof using Hlo.
  intros Hb Hx Hlen. unfold mark, set_byte. rewrite bit_update by done. case_decide as Hd.
  - destruct Hd as [H1 H2]. rewrite testbit_mask; [|lia|by apply Z.mod_pos_bound]. unfold bit, map_byte.
    rewrite !BBLOCK_eq, H1, H2 by done. f_equal. apply eq_true_iff_eq. rewrite !Z.eqb_eq. split; [|by intros ->].
    intros H3. apply bit_inj; lia.
  - destruct (Z.eqb_spec x b) as [-> |]; [tauto|done].
Qed.
Lemma bit_unmark v b x : 0 ≤ b < sb_size sb → 0 ≤ x < sb_size sb → length (v (BBLOCK b sb)) = Z.to_nat BSIZE →
  bit (unmark b v) x = negb (x =? b) && bit v x.
Proof using Hlo.
  intros Hb Hx Hlen. unfold unmark, set_byte. rewrite bit_update by done. case_decide as Hd.
  - destruct Hd as [H1 H2]. rewrite testbit_unmask; [|lia|by apply Z.mod_pos_bound]. unfold bit, map_byte.
    rewrite !BBLOCK_eq, H1, H2 by done. do 2 f_equal. apply eq_true_iff_eq. rewrite !Z.eqb_eq. split; [|by intros ->].
    intros H3. apply bit_inj; lia.
  - destruct (Z.eqb_spec x b) as [-> |]; [tauto|done].
Qed.
(** an index into a block of the map *)
Lemma map_index b bi : b mod BPB = 0 → 0 ≤ bi < BPB → (b + bi) / BPB = b / BPB ∧ (b + bi) mod BPB = bi ∧ (b + bi) mod 8 = bi mod 8.
Proof.
  intros Hb Hbi. pose proof (Z.div_mod b BPB ltac:(done)) as Hd. rewrite Hb, Z.add_0_r in Hd.
  set (q := b / BPB) in *. assert (b + bi = bi + q * BPB) as -> by lia.
  split; [|split].
  - rewrite Z_div_plus_full, Z.div_small by done. lia.
  - rewrite Z_mod_plus_full. by apply Z.mod_small.
  - rewrite BPB_8. replace (q * (8 * BSIZE)) with (q * BSIZE * 8) by lia. apply Z_mod_plus_full.
Qed.
Lemma bit_mask_mod b : bit_mask (b mod BPB) = bit_mask b.
Proof. unfold bit_mask. f_equal. rewrite BPB_8. rewrite Z.rem_mul_r by done. rewrite Z.mul_comm, Z_mod_plus_full. by apply Z.mod_mod. Qed.
End map.

(** ** The operations *)

(** a block filled with zeros *)
Definition zeros : list Z := replicate (Z.to_nat BSIZE) 0.
Lemma memset_block (d : list Z) : length d = Z.to_nat BSIZE → memset d 0 0 BSIZE = Some zeros.
Proof.
  intros Hlen. destruct (memset_spec d 0 0 BSIZE) as (d' & Hd & Hw); [done|apply array_mapped; [lia|by rewrite Hlen]|].
  rewrite Hd. f_equal. apply list_eq. intros i. specialize (Hw (Z.of_nat i)). cbn in Hw.
  rewrite (proj2 (Z.leb_le 0 (Z.of_nat i))), Nat2Z.id in Hw by lia. rewrite Hw. unfold zeros. case_decide.
  - rewrite lookup_replicate_2 by lia. done.
  - rewrite !lookup_ge_None_2; [done|rewrite length_replicate; lia|lia].
Qed.

Section ops.
Context {TE : TxEnv} {IT : InTx} (fuel : nat).
#[local] Abbreviation dev := te_dev.
#[local] Abbreviation start := te_start.
#[local] Abbreviation SB := (sb te_rest).
Context (Hlo : layout_ok SB start).

(** the log and the buffers have room for [k] more blocks *)
Definition has_room (k : nat) (τ : tx) : Prop := (length (tl τ) + size (th τ) + k ≤ NBUF)%nat.
(** block [n] is changed and logged *)
Definition put (n : Z) (d : list Z) (τ : tx) : tx := τ <| tv ::= setv n d |> <| tl ::= absorb n |>.

Lemma twp_bzero n τ (Q : unit → tx → Prop) :
  th τ !! n = None → n ∉ td τ → block_ok n → ¬ in_log start n → has_room 1 τ →
  Q tt (put n zeros τ) → twp (bzero (S fuel) dev n) τ Q.
Proof.
  intros Hn Hd Hok Hnl Hroom HQ. unfold has_room in *. apply twp_len. intros Hlen. apply twp_bind, twp_bread; [done|done|lia|]. intros b.
  apply twp_bind. eapply (twp_rd_buf _ n); [apply lookup_insert_eq|]. intros x Hx.
  apply twp_bind. eapply twp_deref; [rewrite Hx; apply memset_block, Hlen|].
  apply twp_bind. eapply (twp_wr_data n); [apply lookup_insert_eq|apply length_replicate|].
  apply twp_bind. eapply (twp_log_write n); [apply lookup_insert_eq|done|done|cbn; change LOGBLOCKS with NBUF; lia|].
  eapply (twp_brelse n); [apply lookup_insert_eq|cbn; set_solver|].
  eapply settle; [exact HQ|done|done|by apply release_held|by apply dirty_logged|done].
Qed.

(** the inner loop of [balloc] *)
Section scan.
Context (m : Z) (bp : nat) (b : Z) (τ : tx) (Hm : th τ !! m = Some bp) (Hmb : m = BBLOCK b SB) (Hb : 0 ≤ b < sb_size SB) (Hb0 : b mod BPB = 0).
Context (Hlen : ∀ n, length (tv τ n) = Z.to_nat BSIZE).
#[local] Abbreviation N := (Z.min BPB (sb_size SB - b)).

Lemma scan_byte bi : 0 ≤ bi < N → load_le 1 (tv τ m) (bi / 8) = Some (map_byte SB (tv τ) (b + bi)) ∧
  BBLOCK (b + bi) SB = m ∧ bit_mask bi = bit_mask (b + bi) ∧ bi / 8 = (b + bi) mod BPB / 8 ∧ 0 ≤ bi / 8 < BSIZE.
Proof using Hlo Hmb Hb Hb0 Hlen Hm.
  intros Hbi. destruct (map_index b bi Hb0) as (H1 & H2 & H3); [lia|].
  assert (HB : BBLOCK (b + bi) SB = m) by (subst m; rewrite !(BBLOCK_eq SB start Hlo), H1 by lia; done).
  pose proof (byte_index (b + bi)) as Hi. rewrite H2 in Hi. split_and!; [|done|unfold bit_mask; by rewrite H3|by rewrite H2|apply Hi..].
  unfold map_byte. rewrite HB, H2, load_byte by lia. destruct (lookup_lt_is_Some_2 (tv τ m) (Z.to_nat (bi / 8))) as [x ->]; [|done].
  rewrite Hlen. lia.
Qed.
Lemma twp_balloc_scan turns : ∀ bi (Q : option Z → tx → Prop),
  0 ≤ bi ≤ N → N - bi < Z.of_nat turns → (∀ j, 0 ≤ j < bi → bit SB (tv τ) (b + j) = true) →
  (∀ i, 0 ≤ i < N → bit SB (tv τ) (b + i) = false → (∀ j, 0 ≤ j < i → bit SB (tv τ) (b + j) = true) →
    Q (Some i) (τ <| tv ::= mark SB (b + i) |> <| td ::= λ s, {[m]} ∪ s |>)) →
  ((∀ j, 0 ≤ j < N → bit SB (tv τ) (b + j) = true) → Q None τ) →
  twp (for_below turns (let* sb := rd_fs sb in ret (Z.min BPB (sb_size sb - b))) bi 1 (λ bi,
    let m := bit_mask bi in
    let* x := data_le 1 bp (bi / 8) in
    if Z.land x m =? 0 then
      set_data_le 1 bp (bi / 8) (Z.lor x m) ;;
      ret (Some bi)
    else ret None)) τ Q.
Proof using Hlo Hmb Hb Hb0 Hlen Hm.
  induction turns as [|turns IH]; intros bi Q Hbi Ht Hlt HS HN; cbn [for_below].
  { lia. }
  apply twp_bind, twp_bind, twp_sb, twp_ret. destruct (Z.ltb_spec bi N) as [Hlt'|Hge].
  2: { apply twp_ret, HN. intros j Hj. apply Hlt. lia. }
  destruct (scan_byte bi) as (Hld & HB & Hmask & Hi & Hi'); [lia|]. apply twp_bind, twp_bind. eapply (twp_data_le 1 m); [done|exact Hld|].
  rewrite Hmask, bit_mask_test by lia. change (Z.testbit (map_byte SB (tv τ) (b + bi)) ((b + bi) mod 8)) with (bit SB (tv τ) (b + bi)).
  destruct (bit SB (tv τ) (b + bi)) eqn:Hbit; cbn [negb].
  - apply twp_ret, IH; [lia|lia| |done|done]. intros j Hj. destruct (decide (j = bi)) as [-> |]; [done|]. apply Hlt. lia.
  - apply twp_bind. eapply (twp_set_data_le 1 m); [done|apply store_byte; rewrite Hlen; unfold BSIZE in *; lia|rewrite length_insert; apply Hlen|].
    apply twp_ret, twp_ret. eapply settle; [apply (HS bi); [lia|done|done]| |done..]. cbn. unfold mark, set_byte. by rewrite HB, <- Hi.
Qed.
End scan.

(** no block of the map and no free block is held or changed *)
Definition map_idle (τ : tx) : Prop :=
  ∀ n, map_block SB n ∨ 0 ≤ n < sb_size SB ∧ bit SB (tv τ) n = false → th τ !! n = None ∧ n ∉ td τ.
Definition first_free (v : Z → list Z) (b : Z) : Prop :=
  0 ≤ b < sb_size SB ∧ bit SB v b = false ∧ ∀ b', 0 ≤ b' < b → bit SB v b' = true.
Definition no_free (v : Z → list Z) : Prop := ∀ b, 0 ≤ b < sb_size SB → bit SB v b = true.
(** block [b] is taken *)
Definition balloced (b : Z) (τ : tx) : tx :=
  put b zeros (τ <| tv ::= mark SB b |> <| tl ::= absorb (BBLOCK b SB) |>).
Lemma free_not_reserved v b : map_ok SB start v → 0 ≤ b < sb_size SB → bit SB v b = false → ¬ reserved SB start b.
Proof. intros Hm Hb Hf Hr. by rewrite (Hm b Hb Hr) in Hf. Qed.

Lemma twp_balloc_loop τ (Q : option Z → tx → Prop) k : ∀ b,
  map_ok SB start (tv τ) → map_idle τ → has_room 2 τ →
  0 ≤ b → b mod BPB = 0 → sb_size SB - b < Z.of_nat k * BPB → (∀ x, 0 ≤ x < b → x < sb_size SB → bit SB (tv τ) x = true) →
  (∀ x, first_free (tv τ) x → Q (Some x) (balloced x τ)) → (no_free (tv τ) → Q None τ) →
  twp (for_below (S k) (let* sb := rd_fs sb in ret (sb_size sb)) b BPB (λ b,
    let* sb := rd_fs sb in
    let* bp := bread (S fuel) dev (BBLOCK b sb) in
    let* r := balloc_scan bp b in
    match r with
    | Some bi =>
        log_write bp ;;
        brelse bp ;;
        bzero (S fuel) dev (b + bi) ;;
        ret (Some (b + bi))
    | None => brelse bp ;; ret None
    end)) τ Q.
Proof using Hlo IT.
  induction k as [|k IH]; intros b Hmap Hidle Hroom Hb Hb0 Hk Hlt HS HN; cbn [for_below].
  all: apply twp_bind, twp_bind, twp_sb, twp_ret; destruct (Z.ltb_spec b (sb_size SB)) as [Hlt'|Hge].
  all: try (apply twp_ret, HN; intros x Hx; apply Hlt; lia). { lia. }
  apply twp_len. intros Hlen. apply twp_bind, twp_bind, twp_sb, twp_bind.
  assert (HM : map_block SB (BBLOCK b SB)) by (by exists b). destruct (Hidle _ (or_introl HM)) as [Hnh Hnd].
  unfold has_room in *. assert (HBPB : 0 < BPB) by done.
  apply twp_bread; [done|by apply (map_block_ok SB start Hlo)|lia|]. intros bp. apply twp_bind.
  apply (twp_balloc_scan (BBLOCK b SB) bp b _ (lookup_insert_eq _ _ _)); [done|lia|done|done|lia|lia|lia|..].
  - intros i Hi Hbit Hall. destruct (map_index b i Hb0) as (H1 & H2 & H3); [lia|].
    assert (HB : BBLOCK (b + i) SB = BBLOCK b SB) by (rewrite !(BBLOCK_eq SB start Hlo), H1 by lia; done).
    assert (Hres : ¬ reserved SB start (b + i)) by (eapply free_not_reserved; [done|lia|done]).
    apply twp_bind. eapply (twp_log_write (BBLOCK b SB)); [apply lookup_insert_eq|by apply (map_block_ok SB start Hlo)|by apply (lo_map_log _ _ Hlo)|..].
    { cbn. change LOGBLOCKS with NBUF. lia. }
    apply twp_bind. eapply (twp_brelse (BBLOCK b SB)); [apply lookup_insert_eq|cbn; set_solver|].
    destruct (Hidle (b + i)) as [Hnh' Hnd']; [right; split; [lia|done]|].
    pose proof (absorb_length (BBLOCK b SB) (tl τ)) as Habs.
    assert (Hff : first_free (tv τ) (b + i)).
    { split_and!; [lia|lia|done|]. intros x Hx. destruct (decide (x < b)); [apply Hlt; lia|].
      replace x with (b + (x - b)) by lia. apply Hall. lia. }
    apply twp_bind, twp_bzero.
    + cbn. by rewrite release_held.
    + cbn. by rewrite dirty_logged.
    + pose proof (lo_size _ _ Hlo). unfold block_ok. lia.
    + intros Hl. apply Hres. right. by left.
    + unfold has_room. cbn. rewrite release_held by done. lia.
    + apply twp_ret, twp_ret. eapply settle; [exact (HS _ Hff)|done|cbn; by rewrite HB|cbn; by rewrite release_held|cbn; by rewrite dirty_logged|done].
  - intros Hall. apply twp_bind. eapply (twp_brelse (BBLOCK b SB)); [apply lookup_insert_eq|done|]. apply twp_ret.
    assert (Hτ : τ <| th ::= <[BBLOCK b SB := bp]> |> <| th ::= delete (BBLOCK b SB) |> = τ).
    { apply tx_eq; [done|done|by apply release_held|done|done]. }
    rewrite Hτ. apply IH; [done|done|done|lia| |lia| |done|done].
    + rewrite <- Zplus_mod_idemp_l, Hb0. by rewrite Z.mod_same.
    + intros x Hx Hxs. destruct (decide (x < b)); [apply Hlt; lia|]. replace x with (b + (x - b)) by lia. apply Hall. lia.
Qed.
Lemma twp_balloc τ (Q : Z → tx → Prop) :
  map_ok SB start (tv τ) → map_idle τ → has_room 2 τ →
  (∀ b, first_free (tv τ) b → Q b (balloced b τ)) → (no_free (tv τ) → Q 0 τ) → twp (balloc (S fuel) dev) τ Q.
Proof using Hlo IT.
  intros Hmap Hidle Hroom HS HN. apply twp_bind, twp_sb, twp_bind.
  apply (twp_balloc_loop _ _ (S (Z.to_nat (sb_size SB / BPB)))); [done..| | | | |].
  - done.
  - pose proof (lo_size _ _ Hlo). pose proof (Z.div_pos (sb_size SB) BPB). pose proof (Z.div_mod (sb_size SB) BPB ltac:(done)).
    pose proof (Z.mod_pos_bound (sb_size SB) BPB ltac:(done)). assert (0 < BPB) by done. nia.
  - intros x Hx. lia.
  - intros x Hx. by apply twp_ret, HS.
  - intros Hno. apply twp_bind. eapply twp_printf; [reflexivity|]. by apply twp_ret, HN.
Qed.
Lemma twp_bfree b τ (Q : unit → tx → Prop) :
  0 ≤ b < sb_size SB → bit SB (tv τ) b = true → th τ !! BBLOCK b SB = None → BBLOCK b SB ∉ td τ → has_room 1 τ →
  Q tt (τ <| tv ::= unmark SB b |> <| tl ::= absorb (BBLOCK b SB) |>) → twp (bfree (S fuel) dev b) τ Q.
Proof using Hlo IT.
  intros Hb Hbit Hnh Hnd Hroom HQ. unfold has_room in *. apply twp_len. intros Hlen. apply twp_bind, twp_sb, twp_bind.
  assert (HM : map_block SB (BBLOCK b SB)) by (by exists b). pose proof (byte_index b) as Hi.
  apply twp_bread; [done|by apply (map_block_ok SB start Hlo)|lia|]. intros bp.
  apply twp_bind. eapply (twp_data_le 1 (BBLOCK b SB) _ _ (map_byte SB (tv τ) b)); [apply lookup_insert_eq|..].
  { rewrite load_byte by lia. unfold map_byte. cbn. destruct (lookup_lt_is_Some_2 (tv τ (BBLOCK b SB)) (Z.to_nat (b mod BPB / 8))) as [x ->]; [|done].
    rewrite Hlen. lia. }
  rewrite bit_mask_mod, bit_mask_test by lia. change (Z.testbit (map_byte SB (tv τ) b) (b mod 8)) with (bit SB (tv τ) b). rewrite Hbit. cbn [negb].
  apply twp_bind. eapply (twp_set_data_le 1 (BBLOCK b SB)); [apply lookup_insert_eq|apply store_byte; cbn; rewrite Hlen; unfold BSIZE in *; lia|rewrite length_insert; apply Hlen|].
  apply twp_bind. eapply (twp_log_write (BBLOCK b SB)); [apply lookup_insert_eq|by apply (map_block_ok SB start Hlo)|by apply (lo_map_log _ _ Hlo)|..].
  { cbn. change LOGBLOCKS with NBUF. lia. }
  eapply (twp_brelse (BBLOCK b SB)); [apply lookup_insert_eq|cbn; set_solver|].
  eapply settle; [exact HQ|done|done|cbn; by rewrite release_held|cbn; by rewrite dirty_logged|done].
Qed.

(** *** Sequences of operations *)

Inductive mop := Balloc | Bfree (b : Z).
Fixpoint do_mops (ops : list mop) : KM (list Z) :=
  match ops with
  | [] => ret []
  | o :: ops =>
      let* r := match o with Balloc => balloc (S fuel) dev | Bfree b => bfree (S fuel) dev b ;; ret 0 end in
      let* rs := do_mops ops in
      ret (r :: rs)
  end.
(** the free blocks as a set *)
Definition free_is (v : Z → list Z) (F : gset Z) : Prop := ∀ b, b ∈ F ↔ 0 ≤ b < sb_size SB ∧ bit SB v b = false.
Definition mop_ok (o : mop) : Prop :=
  match o with Balloc => True | Bfree b => 0 ≤ b < sb_size SB ∧ ¬ reserved SB start b end.
End ops.

(** the least element of a set *)
Definition least (F : gset Z) : option Z :=
  foldr (λ b m, Some (match m with Some m => Z.min b m | None => b end)) None (elements F).
Lemma least_spec F : match least F with Some b => b ∈ F ∧ ∀ x, x ∈ F → b ≤ x | None => F = ∅ end.
Proof.
  assert (Hel : match least F with Some b => b ∈ elements F ∧ ∀ x, x ∈ elements F → b ≤ x | None => elements F = [] end).
  { unfold least. induction (elements F) as [|y l IH]; [done|]. cbn. destruct (foldr _ _ l) as [m|].
    - destruct IH as [Hm Hl]. split; [destruct (Z.min_spec y m) as [[_ ->]|[_ ->]]; set_solver|].
      intros x [-> |Hx]%elem_of_cons; [lia|]. specialize (Hl x Hx). lia.
    - subst l. split; [set_solver|]. intros x [-> |[]%not_elem_of_nil]%elem_of_cons. lia. }
  destruct (least F); [|by apply elements_empty_inv, leibniz_equiv in Hel]. set_solver.
Qed.
(** the results on a set of free blocks; freeing a free block is an error *)
Definition set_op (o : mop) (F : gset Z) : option (Z * gset Z) :=
  match o with
  | Balloc => Some (match least F with Some b => (b, F ∖ {[b]}) | None => (0, F) end)
  | Bfree b => if decide (b ∈ F) then None else Some (0, {[b]} ∪ F)
  end.
Fixpoint set_ops (ops : list mop) (F : gset Z) : option (list Z * gset Z) :=
  match ops with
  | [] => Some ([], F)
  | o :: ops => '(r, F) ← set_op o F; '(rs, F) ← set_ops ops F; Some (r :: rs, F)
  end.

Section theorems.
Context {TE : TxEnv} {IT : InTx} (fuel : nat).
#[local] Abbreviation SB := (sb te_rest).
Context (Hlo : layout_ok SB te_start).

(** what a sequence of operations with the results [rs] leaves *)
Record mops_post (τ : tx) (rs : list Z) (F' : gset Z) (τ' : tx) : Prop := {
  mp_map : map_ok SB te_start (tv τ');
  mp_free : free_is (tv τ') F';
  mp_new b : b ∈ rs → b ≠ 0 → tv τ' b = zeros;
  mp_same n : ¬ map_block SB n → n ∉ rs → tv τ' n = tv τ n
}.
Lemma free_idle τ : th τ = ∅ → td τ = ∅ → map_idle τ.
Proof. intros Hh Hd n _. by rewrite Hh, Hd. Qed.
Section lengths.
Context (v : Z → list Z) (Hlen : ∀ n, length (v n) = Z.to_nat BSIZE).
Lemma balloced_bit b x : ¬ map_block SB b → 0 ≤ b < sb_size SB → 0 ≤ x < sb_size SB →
  bit SB (setv b zeros (mark SB b v)) x = (x =? b) || bit SB v x.
Proof using Hlo Hlen. intros Hm Hb Hx. rewrite bit_other by done. by apply (bit_mark SB te_start Hlo). Qed.
Lemma map_ok_balloced b : map_ok SB te_start v → ¬ map_block SB b → 0 ≤ b < sb_size SB →
  map_ok SB te_start (setv b zeros (mark SB b v)).
Proof using Hlo Hlen. intros Hm Hnb Hb n Hn Hr. rewrite balloced_bit by done. rewrite (Hm n Hn Hr). apply orb_true_r. Qed.
Lemma map_ok_unmark b : map_ok SB te_start v → 0 ≤ b < sb_size SB → ¬ reserved SB te_start b → map_ok SB te_start (unmark SB b v).
Proof using Hlo Hlen.
  intros Hm Hb Hnr n Hn Hr. rewrite (bit_unmark SB te_start Hlo) by done. rewrite (Hm n Hn Hr).
  destruct (Z.eqb_spec n b) as [-> |]; [done|done].
Qed.
Lemma free_is_balloced F b : free_is v F → ¬ map_block SB b → 0 ≤ b < sb_size SB → free_is (setv b zeros (mark SB b v)) (F ∖ {[b]}).
Proof using Hlo Hlen.
  intros HF Hnb Hb x. rewrite elem_of_difference, elem_of_singleton, (HF x). split.
  - intros [[Hx Hbit] Hne]. split; [done|]. rewrite balloced_bit, Hbit by done. by rewrite (proj2 (Z.eqb_neq x b)).
  - intros [Hx Hbit]. rewrite balloced_bit in Hbit by done. apply orb_false_iff in Hbit as [?%Z.eqb_neq ?]. done.
Qed.
Lemma free_is_unmark F b : free_is v F → 0 ≤ b < sb_size SB → free_is (unmark SB b v) ({[b]} ∪ F).
Proof using Hlo Hlen.
  intros HF Hb x. rewrite elem_of_union, elem_of_singleton, (HF x). split.
  - intros [-> |[Hx Hbit]]; (split; [done|]); rewrite (bit_unmark SB te_start Hlo) by done; [by rewrite Z.eqb_refl|].
    rewrite Hbit. apply andb_false_r.
  - intros [Hx Hbit]. rewrite (bit_unmark SB te_start Hlo) in Hbit by done. apply andb_false_iff in Hbit as [H|H]; [|by right].
    left. by apply negb_false_iff, Z.eqb_eq in H.
Qed.
End lengths.
Lemma map_block_setv n b v d : ¬ map_block SB n → 0 ≤ b < sb_size SB → setv (BBLOCK b SB) d v n = v n.
Proof. intros Hn Hb. apply setv_ne. intros ->. apply Hn. by exists b. Qed.
Lemma free_first τ F : free_is (tv τ) F →
  (∀ b, first_free (tv τ) b → least F = Some b) ∧ (no_free (tv τ) → least F = None).
Proof.
  intros HF. pose proof (least_spec F) as Hl. split.
  - intros b (Hb & Hbit & Hlt). destruct (least F) as [c|].
    + destruct Hl as [Hc Hmin]. pose proof (proj1 (HF c) Hc) as [Hc0 Hcb]. specialize (Hmin b (proj2 (HF b) (conj Hb Hbit))).
      destruct (decide (c = b)) as [-> |]; [done|]. rewrite Hlt in Hcb by lia. done.
    + subst F. pose proof (proj2 (HF b) (conj Hb Hbit)). set_solver.
  - intros Hno. destruct (least F) as [c|]; [|done]. destruct Hl as [Hc _]. apply HF in Hc as [Hc0 Hcb]. by rewrite Hno in Hcb.
Qed.
(** what one operation leaves *)
Record mop_post (τ : tx) (r : Z) (F' : gset Z) (τ' : tx) : Prop := {
  mo_map : map_ok SB te_start (tv τ');
  mo_free : free_is (tv τ') F';
  mo_idle : th τ' = ∅ ∧ td τ' = ∅;
  mo_log : (length (tl τ') ≤ length (tl τ) + 2)%nat;
  mo_new : r ≠ 0 → tv τ' r = zeros ∧ ¬ map_block SB r;
  mo_same n : ¬ map_block SB n → n ≠ r → tv τ' n = tv τ n
}.
Lemma twp_mop o F r F' τ (Q : Z → tx → Prop) : mop_ok o → map_ok SB te_start (tv τ) → free_is (tv τ) F →
  th τ = ∅ → td τ = ∅ → has_room 2 τ → set_op o F = Some (r, F') → (∀ τ', mop_post τ r F' τ' → Q r τ') →
  twp match o with Balloc => balloc (S fuel) te_dev | Bfree b => bfree (S fuel) te_dev b ;; ret 0 end τ Q.
Proof using Hlo IT.
  intros Ho Hm HF Hh Hd Hroom Hop HQ. apply twp_len. intros Hlen. destruct o as [|b]; cbn [set_op] in Hop.
  - destruct (free_first τ F HF) as [Hsome Hnone]. apply (twp_balloc fuel Hlo); [done|by apply free_idle|done|..].
    + intros b Hff. rewrite (Hsome b Hff) in Hop. injection Hop as <- <-. destruct Hff as (Hb & Hbit & _).
      assert (Hnr : ¬ reserved SB te_start b) by (by eapply free_not_reserved).
      assert (Hnm : ¬ map_block SB b) by (unfold reserved in Hnr; tauto). apply HQ. split; cbn.
      * by apply map_ok_balloced.
      * by apply free_is_balloced.
      * done.
      * pose proof (absorb_length b (absorb (BBLOCK b SB) (tl τ))). pose proof (absorb_length (BBLOCK b SB) (tl τ)). lia.
      * intros _. by rewrite setv_eq.
      * intros n Hn Hne. rewrite setv_ne by done. by apply map_block_setv.
    + intros Hno. rewrite (Hnone Hno) in Hop. injection Hop as <- <-. apply HQ. split; [done|done|done|lia|done|done].
  - destruct Ho as [Hb Hnr]. case_decide as Hin; [done|]. injection Hop as <- <-.
    assert (Hbit : bit SB (tv τ) b = true).
    { destruct (bit SB (tv τ) b) eqn:Hbit; [done|]. destruct Hin. by apply HF. }
    unfold has_room in *. apply twp_bind, (twp_bfree fuel Hlo); [done|done|by rewrite Hh|by rewrite Hd|unfold has_room; lia|].
    apply twp_ret, HQ. split; cbn.
    * by apply map_ok_unmark.
    * by apply free_is_unmark.
    * done.
    * pose proof (absorb_length (BBLOCK b SB) (tl τ)). lia.
    * done.
    * intros n Hn Hne. by apply map_block_setv.
Qed.
Lemma twp_mops ops : ∀ F rs F' τ (Q : list Z → tx → Prop), Forall mop_ok ops → map_ok SB te_start (tv τ) → free_is (tv τ) F →
  th τ = ∅ → td τ = ∅ → has_room (2 * length ops) τ → set_ops ops F = Some (rs, F') →
  (∀ τ', mops_post τ rs F' τ' → Q rs τ') → twp (do_mops fuel ops) τ Q.
Proof using Hlo IT.
  induction ops as [|o ops IH]; intros F rs F' τ Q Hops Hm HF Hh Hd Hroom Hst HQ; cbn [do_mops set_ops] in *.
  { simplify_eq. apply twp_ret, HQ. split; [done|done|by intros b ?%not_elem_of_nil|done]. }
  apply Forall_cons in Hops as [Ho Hops]. destruct (set_op o F) as [[r F1]|] eqn:Hop; [|done]. cbn [mbind option_bind] in Hst.
  destruct (set_ops ops F1) as [[rs1 F2]|] eqn:Hops1; [|done]. cbn [mbind option_bind] in Hst. simplify_eq.
  unfold has_room in *. cbn [length] in Hroom. apply twp_bind. eapply twp_mop; [done|done|done|done|done|unfold has_room; lia|done|].
  intros τ1 [M1 F1' [I1 D1] L1 N1 S1]. apply twp_bind. eapply (IH F1); [done|done|done|done|done|rewrite I1; rewrite Hh in Hroom; lia|done|].
  intros τ2 [M2 F2 N2 S2]. apply twp_ret, HQ. split; [done|done|..].
  - intros b [-> |Hb]%elem_of_cons Hb0; [|by apply N2]. destruct (N1 Hb0) as [Hz Hnm].
    destruct (decide (r ∈ rs1)); [by apply N2|]. by rewrite S2.
  - intros n Hn [Hne Hnin]%not_elem_of_cons. rewrite S2 by done. by apply S1.
Qed.

(** C36: the free map is a set of free blocks.  In a transaction with room in
    the log, a sequence of [balloc] and [bfree] never panics, unless it frees
    a free block, and does what the same operations do on a set: [balloc] takes
    the least free block, or returns 0 when there is none, and [bfree] gives a
    block back.  The blocks that [balloc] returns are filled with zeros, no
    other block outside of the map is changed, and the blocks of the log, the
    map and the inodes are never given out. *)
Theorem free_map_refines_set ops F rs F' τ s : Forall mop_ok ops → map_ok SB te_start (tv τ) → free_is (tv τ) F →
  th τ = ∅ → td τ = ∅ → has_room (2 * length ops) τ → set_ops ops F = Some (rs, F') → tx_at τ s →
  wp te_E te_G te_R (do_mops fuel ops s) (λ rs' s', ∃ τ', tx_at τ' s' ∧ rs' = rs ∧ mops_post τ rs F' τ').
Proof using Hlo IT.
  intros Hops Hm HF Hh Hd Hroom Hst Hs.
  exact (twp_wp _ _ _ _ (twp_mops ops F rs F' τ (λ rs' τ', rs' = rs ∧ mops_post τ rs F' τ') Hops Hm HF Hh Hd Hroom Hst (λ τ' H, conj eq_refl H)) Hs).
Qed.
End theorems.
