(* ===== verification/DiskExample.v ===== *)
(** * An example disk

    A small disk as [mkfs] lays it out: the log from block 2 on, one block of
    inodes, one block of the free map and five data blocks; and a transaction
    on it, begun by a process of the example kernel. *)

From S2P Require Import Prelude Fsdata Kstate Spinlock Runqueue Sched SchedInv Bytes Layout Kalloc Vm Printf Proc.
From S2P Require Import Quiet Keeps Sleeplock Bio Log FsLogic Ring Cache Block Journal Transact TxLogic CrashSafety Fs FreeMap.
#[local] Open Scope Z_scope.

Module ExampleDisk.
Definition sb0 : superblock := mk_superblock FSMAGIC 40 5 16 31 2 33 34.
Definition map0 : list Z := [255; 255; 255; 255; 7] ++ replicate (Z.to_nat BSIZE - 5) 0.
Definition hist0 : list (Z * list Z) := [(34, map0)].
(** an empty directory, whose inode is locked *)
Definition dir0 : inode := mk_inode 1 5 1 1 T_DIR 0 0 1 0 (replicate (S NDIRECT) 0).
Definition fs0 : fsst :=
  demo_fs <| disk_writes := hist0 |> <| sb := sb0 |> <| log := mk_logst 2 1 0 1 0 (replicate LOGBLOCKS 0) |>
    <| inodes ::= <[0%nat := dir0]> |>.
#[export] Instance fs_env : FsEnv := {|
  te_E := λ _, False; te_G := λ _, False; te_R := λ _ _, False; te_X := λ _ _, True; te_p := 4%nat; te_pid := 4;
  te_disk := IdealDisk.disk; te_disk_ok := IdealDisk.disk_ok _ _ _ _ _;
  te_dev := 1; te_start := 2; te_dev_ok := ltac:(lia); te_start_ok := ltac:(lia) |}.
#[export] Instance env : TxEnv := {| te_hist := hist0; te_rest := fs0 |}.
#[export] Instance env_tx : InTx.
Proof. by unfold InTx. Qed.
Definition tx0 : tx := mk_tx (disk_block hist0) [] ∅ ∅ (inodes fs0).
Definition kernel0 : kstate := demo_running <| k_fs := fs0 |>.

Lemma length0 n : length (disk_block hist0 n) = Z.to_nat BSIZE.
Proof. unfold hist0. simpl. case_match; done. Qed.
Lemma tx_at0 : tx_at tx0 kernel0.
Proof.
  exists fs0, (mk_bst (disk_block hist0) ∅ ∅ hist0), fs0. split_and!.
  - split; [by destruct demo_running_kinv|by eexists|done..].
  - apply (brep_fresh 1 4 fs0 hist0 _ demo_ring); [done|apply length0|apply demo_fresh].
  - done.
  - split; [|done..]. by repeat split; try constructor; try set_solver.
Qed.

(** ** The layout *)

Lemma map_block0 n : map_block sb0 n → n = 34.
Proof.
  intros (b & Hb & ->). change (sb_size sb0) with 40 in Hb. unfold BBLOCK. change (sb_bmapstart sb0) with 34.
  rewrite Z.div_small by (unfold BPB, BSIZE; lia). done.
Qed.
Lemma inode_block0 n : inode_block sb0 n → n = 33.
Proof.
  intros (i & Hi & ->). change (sb_ninodes sb0) with 16 in Hi. unfold IBLOCK. change (sb_inodestart sb0) with 33.
  rewrite Z.div_small by (change IPB with 16; lia). done.
Qed.
Lemma layout0 : layout_ok sb0 2.
Proof.
  split; [by compute|by compute|..].
  - intros n ->%map_block0. unfold in_log, LOGBLOCKS, MAXOPBLOCKS. lia.
  - by compute.
  - intros n ->%inode_block0. unfold in_log, LOGBLOCKS, MAXOPBLOCKS. lia.
  - intros n ->%inode_block0 ?%map_block0. done.
Qed.
Lemma bit0 n : 0 ≤ n < 40 → bit sb0 (disk_block hist0) n = (n <? 35).
Proof.
  intros Hn. assert (Hall : forallb (λ k, eqb (bit sb0 (disk_block hist0) (Z.of_nat k)) (Z.of_nat k <? 35)) (seq 0 40) = true) by (by vm_compute).
  rewrite forallb_forall in Hall. replace n with (Z.of_nat (Z.to_nat n)) by lia. apply eqb_prop, Hall, in_seq. lia.
Qed.
Lemma map_ok0 : map_ok sb0 2 (disk_block hist0).
Proof.
  intros n Hn Hr. change (sb_size sb0) with 40 in Hn. rewrite bit0 by done. apply Z.ltb_lt.
  destruct Hr as [-> | [Hl|[->%map_block0| ->%inode_block0]]]; [done| |done|done]. unfold in_log, LOGBLOCKS, MAXOPBLOCKS in Hl. lia.
Qed.
Definition free0 : gset Z := list_to_set [35; 36; 37; 38; 39].
Lemma free_is0 : free_is (disk_block hist0) free0.
Proof.
  intros b. unfold free0. rewrite elem_of_list_to_set. change (sb_size (sb te_rest)) with 40. split.
  - intros Hb. assert (35 ≤ b < 40) by (rewrite !elem_of_cons, elem_of_nil in Hb; lia). split; [lia|].
    change (sb te_rest) with sb0. rewrite bit0 by lia. apply Z.ltb_ge. lia.
  - intros [Hb Hbit]. change (sb te_rest) with sb0 in Hbit. rewrite bit0 in Hbit by lia. apply Z.ltb_ge in Hbit.
    rewrite !elem_of_cons, elem_of_nil. lia.
Qed.
End ExampleDisk.

(** ** The free map *)

Section map.
Import ExampleDisk.
Lemma free_map_refines_set_witness :
  runs (do_mops 0 [Balloc; Balloc; Bfree 35; Balloc] kernel0) (λ rs s', rs = [35; 36; 0; 35] ∧
    ∃ τ', tx_at τ' s' ∧ mops_post tx0 rs {[37; 38; 39]} τ').
Proof.
  assert (Hset : set_ops [Balloc; Balloc; Bfree 35; Balloc] free0 = Some ([35; 36; 0; 35], {[37; 38; 39]})) by (by vm_compute).
  assert (H35 : mop_ok (Bfree 35)).
  { split; [change (sb_size (sb te_rest)) with 40; lia|].
    intros [?|[Hl|[?%map_block0|?%inode_block0]]]; [done| |done|done]. change te_start with 2 in Hl. unfold in_log, LOGBLOCKS, MAXOPBLOCKS in Hl. lia. }
  assert (Hok : Forall mop_ok [Balloc; Balloc; Bfree 35; Balloc]).
  { apply Forall_cons_2, Forall_cons_2, Forall_cons_2, Forall_cons_2, Forall_nil_2; done. }
  assert (Hroom : has_room (2 * length [Balloc; Balloc; Bfree 35; Balloc]) tx0) by (unfold has_room; apply (bool_decide_unpack _); by vm_compute).
  pose proof (free_map_refines_set 0 layout0 _ _ _ _ tx0 kernel0 Hok map_ok0 free_is0 eq_refl eq_refl Hroom Hset tx_at0) as H.
  revert H. generalize (do_mops 0 [Balloc; Balloc; Bfree 35; Balloc] kernel0). intros m H. apply runs_wp.
  eapply wp_mono; [|exact H]. intros rs s' (τ' & Hs' & -> & HP). split; [done|]. by exists τ'.
Defined.
End map.
