(* ===== verification/FileData.v ===== *)
(** * File contents

    The blocks of a file are found through its inode, [bmap] of [kernel/fs.c]:
    the first [NDIRECT] directly, the others through the indirect block.  A
    file is then a list of bytes, which [readi] reads and [writei] changes. *)

From S2P Require Import Prelude Fsdata Kstate Spinlock Runqueue Sched SchedInv Bytes Layout Kalloc Vm Printf Proc.
From S2P Require Import Quiet Keeps Sleeplock Bio Log FsLogic Ring Cache Block Journal Transact TxLogic CrashSafety Fs FreeMap DiskExample.
#[local] Open Scope Z_scope.

(** ** The blocks of a file *)

(** the indirect block; block number [k] of the file; 0 if there is none *)
Definition ind (a : list Z) : Z := default 0 (a !! NDIRECT).
Definition entry (d : list Z) (j : Z) : Z := default 0 (load_le 4 d (4 * j)).
Definition fblock (v : Z → list Z) (a : list Z) (k : Z) : Z :=
  if k <? Z.of_nat NDIRECT then default 0 (a !! Z.to_nat k)
  else if ind a =? 0 then 0 else entry (v (ind a)) (k - Z.of_nat NDIRECT).
Definition index_ok (k : Z) : Prop := 0 ≤ k < MAXFILE.

(** block [n] is one of the file *)
Definition of_file (v : Z → list Z) (a : list Z) (n : Z) : Prop :=
  n ≠ 0 ∧ (n = ind a ∨ ∃ k, index_ok k ∧ n = fblock v a k).

(** a block in use for data *)
Definition data_block (sb : superblock) (start : Z) (v : Z → list Z) (n : Z) : Prop :=
  0 ≤ n < sb_size sb ∧ bit sb v n = true ∧ ¬ reserved sb start n.
(** the blocks of a file are among the blocks [D], and distinct *)
Record file_ok (D : (Z → list Z) → Z → Prop) (v : Z → list Z) (a : list Z) : Prop := {
  fo_len : length a = S NDIRECT;
  fo_data n : of_file v a n → D v n;
  fo_inj k k' : index_ok k → index_ok k' → fblock v a k ≠ 0 → fblock v a k = fblock v a k' → k = k';
  fo_not_ind k : index_ok k → fblock v a k ≠ 0 → fblock v a k ≠ ind a
}.
Section file.
Context (D D' : (Z → list Z) → Z → Prop).
(** a block [b] is added to a file, as its block number [k] or its indirect block *)
Lemma file_ok_add v a v' a' k b : file_ok D v a → length a' = S NDIRECT → ind a' = ind a →
  (∀ k', index_ok k' → fblock v' a' k' = if decide (k' = k) then b else fblock v a k') →
  ¬ of_file v a b → (∀ n, D v n → D' v' n) → D' v' b → file_ok D' v' a'.
Proof.
  intros [Hl Hd Hi Hn] Hl' Hind Hf Hb Hmono Hdb. split; [done|..].
  - intros n [Hn0 [-> |(k' & Hk' & ->)]].
    + apply Hmono, Hd. rewrite Hind in Hn0 |- *. split; [done|by left].
    + rewrite Hf in Hn0 |- * by done. case_decide; [done|]. apply Hmono, Hd. split; [done|]. right. by exists k'.
  - intros k1 k2 H1 H2. rewrite !Hf by done. intros Hne. repeat case_decide; subst; try done.
    + intros ->. destruct Hb. split; [done|]. right. by exists k2.
    + intros <-. destruct Hb. split; [done|]. right. by exists k1.
    + by apply Hi.
  - intros k1 H1. rewrite Hind, Hf by done. intros Hne. case_decide; [|by apply Hn]. intros ->. apply Hb. split; [done|by left].
Qed.
Lemma file_ok_ind v a v' a' b : file_ok D v a → length a' = S NDIRECT → ind a = 0 → ind a' = b →
  (∀ k', index_ok k' → fblock v' a' k' = fblock v a k') →
  ¬ of_file v a b → (∀ n, D v n → D' v' n) → D' v' b → file_ok D' v' a'.
Proof.
  intros [Hl Hd Hi Hn] Hl' H0 Hind Hf Hb Hmono Hdb. split; [done|..].
  - intros n [Hn0 [-> |(k' & Hk' & ->)]]; [by rewrite Hind|]. rewrite Hf in Hn0 |- * by done. apply Hmono, Hd. split; [done|]. right. by exists k'.
  - intros k1 k2 H1 H2. rewrite !Hf by done. by apply Hi.
  - intros k1 H1. rewrite Hf, Hind by done. intros Hne <-. apply Hb. split; [done|]. right. by exists k1.
Qed.
Lemma file_ok_same v a v' : (ind a ≠ 0 → v' (ind a) = v (ind a)) → (∀ n, D v n → D' v' n) →
  file_ok D v a → file_ok D' v' a ∧ ∀ k, fblock v' a k = fblock v a k.
Proof.
  intros Hv Hmono [Hl Hd Hi Hn].
  assert (Hf : ∀ k, fblock v' a k = fblock v a k).
  { intros k. unfold fblock. destruct (k <? _); [done|]. destruct (Z.eqb_spec (ind a) 0); [done|]. by rewrite Hv. }
  split; [|done]. split; [done|..].
  - intros n [Hn0 Hof]. apply Hmono, Hd. split; [done|]. destruct Hof as [?|(k & Hk & ->)]; [by left|]. right. exists k. by rewrite <- Hf.
  - intros k k'. rewrite !Hf. apply Hi.
  - intros k. rewrite Hf. apply Hn.
Qed.
End file.

(** *** Entries of the addresses and of the indirect block *)

Lemma fblock_direct v a k b k' : length a = S NDIRECT → 0 ≤ k < Z.of_nat NDIRECT → 0 ≤ k' →
  fblock v (<[Z.to_nat k := b]> a) k' = (if decide (k' = k) then b else fblock v a k') ∧ ind (<[Z.to_nat k := b]> a) = ind a.
Proof.
  intros Hl Hk Hk'. assert (Hi : ind (<[Z.to_nat k := b]> a) = ind a) by (unfold ind; rewrite list_lookup_insert_ne by lia; done).
  split; [|done]. unfold fblock. rewrite Hi. destruct (Z.ltb_spec k' (Z.of_nat NDIRECT)).
  - case_decide; [subst k'; rewrite list_lookup_insert_eq by lia; done|]. rewrite list_lookup_insert_ne by lia. done.
  - by rewrite decide_False by lia.
Qed.
Lemma fblock_entry v a d j b k' : ind a ≠ 0 → 0 ≤ j < NINDIRECT → length (v (ind a)) = Z.to_nat BSIZE → 0 ≤ b < 2 ^ 32 →
  store_le 4 (v (ind a)) (4 * j) b = Some d → index_ok k' →
  fblock (setv (ind a) d v) a k' = if decide (k' = j + Z.of_nat NDIRECT) then b else fblock v a k'.
Proof.
  intros Hi Hj Hlen Hb Hst Hk'. unfold fblock. destruct (Z.ltb_spec k' (Z.of_nat NDIRECT)).
  - by rewrite decide_False by lia.
  - rewrite (proj2 (Z.eqb_neq _ _)), setv_eq by done.
    destruct (array_store_le 4 (v (ind a)) (4 * j) b) as (d' & Hd' & _ & Hld & Hoth); [lia|rewrite Hlen; change NINDIRECT with 256 in Hj; change BSIZE with 1024; lia|].
    rewrite Hst in Hd'. injection Hd' as <-. unfold entry. case_decide as Hd.
    + subst k'. replace (j + Z.of_nat NDIRECT - Z.of_nat NDIRECT) with j by lia. rewrite Hld. cbn. by apply Z.mod_small.
    + by rewrite Hoth by lia.
Qed.
Lemma entry_zeros j : 0 ≤ j < NINDIRECT → entry zeros j = 0.
Proof.
  intros Hj. change NINDIRECT with 256 in Hj. unfold entry, load_le.
  assert (Hb : bytes_at zeros (4 * j) [0; 0; 0; 0]).
  { intros i x Hi. assert (i < 4)%nat by (by apply lookup_lt_Some in Hi). cbn. rewrite (proj2 (Z.leb_le _ _)) by lia.
    unfold zeros. rewrite lookup_replicate_2 by (change BSIZE with 1024; lia). by do 4 (destruct i as [|i]; [done|]). }
  pose proof (load_bytes_at zeros [0; 0; 0; 0] (4 * j) Hb) as H. cbn [length] in H. rewrite H. done.
Qed.
Lemma fblock_new_ind v v' a b k' : length a = S NDIRECT → ind a = 0 → b ≠ 0 → v' b = zeros → index_ok k' →
  fblock v' (<[NDIRECT := b]> a) k' = fblock v a k' ∧ ind (<[NDIRECT := b]> a) = b.
Proof.
  intros Hl H0 Hb Hz Hk'. assert (Hi : ind (<[NDIRECT := b]> a) = b) by (unfold ind; rewrite list_lookup_insert_eq by lia; done).
  split; [|done]. unfold index_ok, MAXFILE in Hk'. unfold fblock. rewrite Hi, H0. destruct (Z.ltb_spec k' (Z.of_nat NDIRECT)); [rewrite list_lookup_insert_ne by lia; done|].
  rewrite (proj2 (Z.eqb_neq _ _)), Hz by done. rewrite Z.eqb_refl. apply entry_zeros. lia.
Qed.

(** *** Inodes on the disk *)

(** the bytes of consecutive words *)
Lemma words_at (d : list Z) ws k x : ∀ a, bytes_at d a (ws ≫= Z_to_little_endian 4 8) → ws !! k = Some x →
  load_le 4 d (a + 4 * Z.of_nat k) = Some (x mod 2 ^ 32).
Proof.
  revert k. induction ws as [|w ws IH]; intros k a Hb Hk; [done|]. cbn [mbind list_bind] in Hb.
  assert (Hl : length (Z_to_little_endian 4 8 w) = 4%nat) by done.
  destruct k as [|k]; cbn in Hk.
  - injection Hk as ->. rewrite Z.add_0_r. unfold load_le.
    assert (Hb4 : bytes_at d a (Z_to_little_endian 4 8 x)) by (intros j y Hj; apply Hb; rewrite lookup_app_l; [done|by eapply lookup_lt_Some]).
    pose proof (load_bytes_at d _ _ Hb4) as Hld. rewrite Hl in Hld. rewrite Hld. cbn [fmap option_fmap option_map].
    rewrite little_endian_to_Z_to_little_endian by lia. done.
  - replace (a + 4 * Z.of_nat (S k)) with (a + 4 + 4 * Z.of_nat k) by lia. apply IH; [|done].
    intros j y Hj. rewrite <- (Hb (4 + j)%nat y); [f_equal; lia|]. rewrite lookup_app_r by (rewrite Hl; lia). rewrite Hl. by replace (4 + j - 4)%nat with j by lia.
Qed.
(** the inode [i] in the bytes of its block *)
Record dinode_is (d : list Z) (i : inode) : Prop := {
  di_type : load_le 2 d (dinode_off (i_inum i)) = Some (u16 (i_type i));
  di_major : load_le 2 d (dinode_off (i_inum i) + 2) = Some (u16 (i_major i));
  di_minor : load_le 2 d (dinode_off (i_inum i) + 4) = Some (u16 (i_minor i));
  di_nlink : load_le 2 d (dinode_off (i_inum i) + 6) = Some (u16 (i_nlink i));
  di_size : load_le 4 d (dinode_off (i_inum i) + 8) = Some (u32 (i_size i));
  di_addrs k x : i_addrs i !! k = Some x → load_le 4 d (dinode_off (i_inum i) + 12 + 4 * Z.of_nat k) = Some (u32 x)
}.

Lemma dinode_range inum : 0 ≤ dinode_off inum ∧ dinode_off inum + 64 ≤ BSIZE.
Proof. unfold dinode_off, dinode_size. pose proof (Z.mod_pos_bound inum IPB ltac:(done)). change IPB with 16 in *. change BSIZE with 1024. lia. Qed.
(** the stores of [iupdate] *)
Lemma dinode_stored d0 i : length d0 = Z.to_nat BSIZE → length (i_addrs i) = S NDIRECT → let off := dinode_off (i_inum i) in
  ∃ d1 d2 d3 d4 d5 d6,
    store_le 2 d0 off (i_type i) = Some d1 ∧ store_le 2 d1 (off + 2) (i_major i) = Some d2 ∧
    store_le 2 d2 (off + 4) (i_minor i) = Some d3 ∧ store_le 2 d3 (off + 6) (i_nlink i) = Some d4 ∧
    store_le 4 d4 (off + 8) (i_size i) = Some d5 ∧
    store_bytes d5 (off + 12) (i_addrs i ≫= Z_to_little_endian 4 8) = Some d6 ∧
    length d1 = Z.to_nat BSIZE ∧ length d2 = Z.to_nat BSIZE ∧ length d3 = Z.to_nat BSIZE ∧ length d4 = Z.to_nat BSIZE ∧
    length d5 = Z.to_nat BSIZE ∧ length d6 = Z.to_nat BSIZE ∧
    dinode_is d6 i ∧ ∀ j, ¬ off ≤ j < off + 64 → 0 ≤ j → d6 !! Z.to_nat j = d0 !! Z.to_nat j.
Proof.
  intros Hlen Ha off. pose proof (dinode_range (i_inum i)) as [Ho1 Ho2]. fold off in Ho1, Ho2.
  destruct (array_store_le 2 d0 off (i_type i)) as (d1 & S1 & L1 & V1 & O1); [lia|rewrite Hlen; lia|].
  destruct (array_store_le 2 d1 (off + 2) (i_major i)) as (d2 & S2 & L2 & V2 & O2); [lia|rewrite L1, Hlen; lia|].
  destruct (array_store_le 2 d2 (off + 4) (i_minor i)) as (d3 & S3 & L3 & V3 & O3); [lia|rewrite L2, L1, Hlen; lia|].
  destruct (array_store_le 2 d3 (off + 6) (i_nlink i)) as (d4 & S4 & L4 & V4 & O4); [lia|rewrite L3, L2, L1, Hlen; lia|].
  destruct (array_store_le 4 d4 (off + 8) (i_size i)) as (d5 & S5 & L5 & V5 & O5); [lia|rewrite L4, L3, L2, L1, Hlen; lia|].
  assert (Hwl : Z.of_nat (length (i_addrs i ≫= Z_to_little_endian 4 8)) = 52).
  { assert (H : ∀ l : list Z, length (l ≫= Z_to_little_endian 4 8) = (4 * length l)%nat).
    { induction l as [|x l IH]; [done|]. cbn [mbind list_bind]. rewrite length_app, IH. change (length (Z_to_little_endian 4 8 x)) with 4%nat. cbn. lia. }
    rewrite H, Ha. done. }
  destruct (store_bytes_spec (i_addrs i ≫= Z_to_little_endian 4 8) d5 (off + 12)) as (d6 & S6 & W6); [apply array_mapped; [lia|]; rewrite Hwl, L5, L4, L3, L2, L1, Hlen; lia|].
  pose proof (store_bytes_length _ _ _ _ S6) as L6. rewrite Hwl in W6.
  assert (O6 : ∀ j x, x + Z.of_nat j ≤ off + 12 ∨ off + 64 ≤ x → load_le j d6 x = load_le j d5 x) by (intros j x Hx; eapply load_le_other; [exact W6|lia]).
  exists d1, d2, d3, d4, d5, d6. split_and!; try done; try congruence.
  - split; fold off; rewrite ?O6 by lia; [| | | |done|].
    + rewrite O5, O4, O3, O2 by lia. done.
    + rewrite O5, O4, O3 by lia. done.
    + rewrite O5, O4 by lia. done.
    + rewrite O5 by lia. done.
    + intros k x Hk. unfold u32. eapply words_at; [|done]. apply written_bytes_at with d5. by rewrite Hwl.
  - intros j Hj H0. rewrite <- !load_byte by done. rewrite O6, O5, O4, O3, O2, O1 by lia. done.
Qed.

(** *** Overwriting a part of a list *)

Definition splice (l : list Z) (o : nat) (bs : list Z) : list Z := take o l ++ bs ++ drop (o + length bs) l.
Lemma splice_lookup l o bs k : (o ≤ length l)%nat →
  splice l o bs !! k = if decide (o ≤ k < o + length bs)%nat then bs !! (k - o)%nat else l !! k.
Proof.
  intros Ho. unfold splice. assert (Hl : length (take o l) = o) by (rewrite length_take; lia).
  destruct (decide (k < o)%nat) as [Hk|Hk].
  { rewrite lookup_app_l, lookup_take_lt by lia. by rewrite decide_False by lia. }
  rewrite lookup_app_r, Hl by lia. case_decide as Hd; [by rewrite lookup_app_l by lia|].
  rewrite lookup_app_r, lookup_drop by lia. f_equal. lia.
Qed.
Lemma splice_length l o bs : (o ≤ length l)%nat → length (splice l o bs) = Nat.max (length l) (o + length bs).
Proof. intros Ho. unfold splice. rewrite !length_app, length_take, length_drop. lia. Qed.
Lemma splice_app l o b1 b2 : (o ≤ length l)%nat → splice (splice l o b1) (o + length b1) b2 = splice l o (b1 ++ b2).
Proof.
  intros Ho. apply list_eq. intros k. rewrite !splice_lookup by (rewrite ?splice_length; lia). rewrite length_app.
  repeat case_decide; try lia; try done.
  - rewrite lookup_app_r by lia. f_equal. lia.
  - by rewrite lookup_app_l by lia.
Qed.
Lemma splice_nil l o : (o ≤ length l)%nat → splice l o [] = l.
Proof. intros Ho. apply list_eq. intros k. rewrite splice_lookup by done. by rewrite decide_False by (cbn; lia). Qed.

(** ** The room a system call needs in the log *)

Definition miss (n : Z) (l : list Z) : nat := if decide (n ∈ l) then 0 else 1.
Lemma absorb_miss n l : length (absorb n l) = (length l + miss n l)%nat.
Proof. unfold absorb, miss. case_decide; [lia|]. rewrite length_app. cbn. lia. Qed.
Lemma miss_absorb m n l : (miss m (absorb n l) ≤ miss m l)%nat.
Proof. unfold absorb, miss. repeat case_decide; try lia; set_solver. Qed.
Lemma miss_absorb_eq n l : miss n (absorb n l) = 0%nat.
Proof. unfold absorb, miss. repeat case_decide; try done; set_solver. Qed.
Lemma miss_le n l : (miss n l ≤ 1)%nat.
Proof. unfold miss. case_decide; lia. Qed.

(** ** Contents *)

Definition fbyte (v : Z → list Z) (a : list Z) (off : Z) : option Z :=
  let b := fblock v a (off / BSIZE) in if b =? 0 then None else v b !! Z.to_nat (off mod BSIZE).
(** the file with inode [i] has the contents [l] *)
Lemma fbyte_block v a off x : fbyte v a off = Some x → fblock v a (off / BSIZE) ≠ 0 ∧ v (fblock v a (off / BSIZE)) !! Z.to_nat (off mod BSIZE) = Some x.
Proof. unfold fbyte. by destruct (Z.eqb_spec (fblock v a (off / BSIZE)) 0). Qed.
(** positions in the same block *)
Lemma same_block off j : 0 ≤ j → off mod BSIZE + j < BSIZE → (off + j) / BSIZE = off / BSIZE ∧ (off + j) mod BSIZE = off mod BSIZE + j.
Proof.
  intros Hj Hlt. pose proof (Z.mod_pos_bound off BSIZE ltac:(done)) as Hm. pose proof (Z.div_mod off BSIZE ltac:(done)) as Hd.
  assert (off + j = (off mod BSIZE + j) + off / BSIZE * BSIZE) as -> by lia.
  rewrite Z_div_plus_full, Z_mod_plus_full, Z.div_small, Z.mod_small by (done || lia). split; [lia|done].
Qed.
(** the contents of a file, as far as [l] goes *)
Definition fbytes (v : Z → list Z) (a l : list Z) : Prop := ∀ k x, l !! k = Some x → fbyte v a (Z.of_nat k) = Some x.
(** the bytes of a block after a write *)
Lemma stored_byte (d0 d bs : list Z) o j : store_bytes d0 o bs = Some d → 0 ≤ o → o + Z.of_nat (length bs) ≤ Z.of_nat (length d0) → 0 ≤ j →
  d !! Z.to_nat j = if decide (o ≤ j < o + Z.of_nat (length bs)) then bs !! Z.to_nat (j - o) else d0 !! Z.to_nat j.
Proof.
  intros Hst Ho Hfit Hj. destruct (store_bytes_spec bs d0 o) as (d' & Hd' & Hw); [by apply array_mapped|].
  rewrite Hst in Hd'. injection Hd' as <-. specialize (Hw j). cbn in Hw. by rewrite (proj2 (Z.leb_le 0 j)) in Hw by lia.
Qed.
(** the bytes [bs] are written at [off], in one block *)
Section write.
Context (D : (Z → list Z) → Z → Prop) (v : Z → list Z) (a l : list Z) (off : Z) (bs d : list Z).
Context (Hf : file_ok D v a) (Hl : fbytes v a l) (Ho : 0 ≤ off ≤ Z.of_nat (length l)) (Hmax : Z.of_nat (length l) ≤ MAXFILE * BSIZE).
Context (Hidx : index_ok (off / BSIZE)) (Hb : fblock v a (off / BSIZE) ≠ 0).
Context (Hlen : length (v (fblock v a (off / BSIZE))) = Z.to_nat BSIZE) (Hfit : off mod BSIZE + Z.of_nat (length bs) ≤ BSIZE).
Context (Hst : store_bytes (v (fblock v a (off / BSIZE))) (off mod BSIZE) bs = Some d).
#[local] Abbreviation b := (fblock v a (off / BSIZE)).

Lemma write_not_ind : b ≠ ind a.
Proof using Hf Hidx Hb. by apply (fo_not_ind _ _ _ Hf). Qed.
Lemma write_same k : fblock (setv b d v) a k = fblock v a k.
Proof using Hf Hidx Hb.
  unfold fblock at 1 3. destruct (k <? _); [done|]. destruct (Z.eqb_spec (ind a) 0); [done|]. rewrite setv_ne; [done|]. intros Heq. by apply write_not_ind.
Qed.
Lemma write_bytes : fbytes (setv b d v) a (splice l (Z.to_nat off) bs).
Proof using All.
  intros k x Hk. rewrite splice_lookup in Hk by lia. pose proof (Z.mod_pos_bound off BSIZE ltac:(done)) as Hmo.
  pose proof (Z.mod_pos_bound (Z.of_nat k) BSIZE ltac:(done)) as Hmk.
  assert (Hsb : ∀ j, 0 ≤ j → d !! Z.to_nat j = if decide (off mod BSIZE ≤ j < off mod BSIZE + Z.of_nat (length bs)) then bs !! Z.to_nat (j - off mod BSIZE) else v b !! Z.to_nat j)
    by (intros j Hj; apply stored_byte; [done|lia|rewrite Hlen; lia|done]).
  assert (Hin : Z.of_nat k / BSIZE = off / BSIZE → d !! Z.to_nat (Z.of_nat k mod BSIZE) = Some x → fbyte (setv b d v) a (Z.of_nat k) = Some x).
  { intros He Hx. unfold fbyte. rewrite write_same, He, (proj2 (Z.eqb_neq _ _)), setv_eq by done. done. }
  case_decide as Hd.
  - destruct (same_block off (Z.of_nat k - off)) as [H1 H2]; [lia|lia|]. replace (off + (Z.of_nat k - off)) with (Z.of_nat k) in * by lia.
    apply Hin; [done|]. rewrite H2, Hsb, decide_True by lia. rewrite <- Hk. f_equal. lia.
  - pose proof (lookup_lt_Some _ _ _ Hk) as Hkl. pose proof (Hl k x Hk) as [Hne Hx]%fbyte_block.
    assert (Hik : index_ok (Z.of_nat k / BSIZE)) by (split; [apply Z.div_pos; [lia|done]|apply Z.div_lt_upper_bound; [done|lia]]).
    destruct (decide (Z.of_nat k / BSIZE = off / BSIZE)) as [He|Hnk].
    + apply Hin; [done|]. rewrite He in Hx. rewrite Hsb, decide_False; [done| |lia]. intros Hr.
      pose proof (Z.div_mod (Z.of_nat k) BSIZE ltac:(done)). pose proof (Z.div_mod off BSIZE ltac:(done)). lia.
    + unfold fbyte. rewrite write_same, (proj2 (Z.eqb_neq _ _)), setv_ne; [done| |done].
      intros Heq. apply Hnk. by apply (fo_inj _ _ _ Hf).
Qed.
End write.

Section ops.
Context {TE : TxEnv} {IT : InTx} (fuel : nat).
#[local] Abbreviation dev := te_dev.
#[local] Abbreviation start := te_start.
#[local] Abbreviation SB := (sb te_rest).
Context (Hlo : layout_ok SB start) (Hone : sb_size SB ≤ BPB).

(** the blocks in the log, counting the block of the map, the indirect block
    and the inode's block [ib] even before they are there *)
Definition cost (ib : Z) (a : list Z) (l : list Z) : nat :=
  (length l + miss (sb_bmapstart SB) l + (if decide (ind a = 0%Z) then 1 else miss (ind a) l) + miss ib l)%nat.
#[local] Arguments cost : simpl never.
Lemma cost_length ib a l : (length l ≤ cost ib a l)%nat.
Proof. unfold cost. lia. Qed.
Lemma cost_absorb ib a l n : (cost ib a (absorb n l) ≤ cost ib a l + miss n l)%nat.
Proof.
  unfold cost. rewrite absorb_miss. pose proof (miss_absorb (sb_bmapstart SB) n l). pose proof (miss_absorb (ind a) n l).
  pose proof (miss_absorb ib n l). case_decide; lia.
Qed.
Lemma cost_absorb_counted ib a l n : n = sb_bmapstart SB ∨ n = ib ∨ n = ind a ∧ n ≠ 0 → (cost ib a (absorb n l) ≤ cost ib a l)%nat.
Proof.
  unfold cost. rewrite absorb_miss. pose proof (miss_absorb (sb_bmapstart SB) n l). pose proof (miss_absorb (ind a) n l).
  pose proof (miss_absorb ib n l). pose proof (miss_absorb_eq n l).
  intros [-> |[-> |[-> Hn]]]; [| |rewrite decide_False by done]; try case_decide; lia.
Qed.
(** the new indirect block is already in the log *)
Lemma cost_new_ind ib a a' l n : ind a = 0 → ind a' = n → n ≠ 0 → (cost ib a' (absorb n l) ≤ cost ib a l)%nat.
Proof.
  intros H0 Hn Hn0. unfold cost. rewrite absorb_miss, H0, Hn. destruct (decide (0 = 0)); [|done].
  pose proof (miss_absorb (sb_bmapstart SB) n l). pose proof (miss_absorb ib n l). pose proof (miss_absorb_eq n l). pose proof (miss_le n l).
  rewrite decide_False by done. lia.
Qed.
Lemma cost_ext ib a a' l : ind a' = ind a → cost ib a' l = cost ib a l.
Proof. intros Hi. unfold cost. by rewrite Hi. Qed.

(** ** Allocating a block *)

Lemma BBLOCK_one b : 0 ≤ b < sb_size SB → BBLOCK b SB = sb_bmapstart SB.
Proof using Hlo Hone. intros Hb. rewrite (BBLOCK_eq SB start Hlo) by done. rewrite Z.div_small by lia. done. Qed.
Lemma map_block_one n : map_block SB n → n = sb_bmapstart SB.
Proof using Hlo Hone. intros (b & Hb & ->). by apply BBLOCK_one. Qed.

(** the block [b] was free in [v] and is a new data block in [v'] *)
Record new_block (v v' : Z → list Z) (b : Z) : Prop := {
  nb_pos : b ≠ 0;
  nb_free : 0 ≤ b < sb_size SB ∧ bit SB v b = false;
  nb_data : data_block SB start v' b;
  nb_zero : v' b = zeros;
  nb_same n : n ≠ sb_bmapstart SB → n ≠ b → v' n = v n;
  nb_bits n : 0 ≤ n < sb_size SB → bit SB v' n = (n =? b) || bit SB v n
}.
Lemma new_block_mono v v' b n : new_block v v' b → data_block SB start v n → data_block SB start v' n.
Proof. intros Hb (Hn & Hbit & Hr). split_and!; [lia|lia| |done]. rewrite (nb_bits _ _ _ Hb) by done. by rewrite Hbit, orb_true_r. Qed.
Lemma new_block_map v v' b : new_block v v' b → map_ok SB start v → map_ok SB start v'.
Proof. intros Hb Hm n Hn Hr. rewrite (nb_bits _ _ _ Hb) by done. by rewrite (Hm n Hn Hr), orb_true_r. Qed.
Lemma new_block_file v v' b a : new_block v v' b → file_ok (data_block SB start) v a → ¬ of_file v a b.
Proof. intros Hb Hf Hof. destruct (fo_data _ _ _ Hf b Hof) as (_ & Hbit & _). by rewrite (proj2 (nb_free _ _ _ Hb)) in Hbit. Qed.

(** a data block that is held does not disturb the map *)
Definition data_held (τ : tx) : Prop := td τ = ∅ ∧ ∀ n, is_Some (th τ !! n) → data_block SB start (tv τ) n.
Lemma data_held_idle τ : data_held τ → map_idle τ.
Proof.
  intros [Hd Hh] n Hn. split; [|by rewrite Hd]. apply eq_None_not_Some. intros Hs. destruct (Hh n Hs) as (Hr & Hbit & Hnr).
  destruct Hn as [Hm|[_ Hf]]; [|by rewrite Hf in Hbit]. apply Hnr. right. right. by left.
Qed.
Lemma twp_new_block τ (Q : Z → tx → Prop) : map_ok SB start (tv τ) → data_held τ → has_room 2 τ →
  (∀ b v', new_block (tv τ) v' b → Q b (τ <| tv := v' |> <| tl ::= λ l, absorb b (absorb (sb_bmapstart SB) l) |>)) →
  (no_free (tv τ) → Q 0 τ) → twp (balloc (S fuel) dev) τ Q.
Proof using Hlo Hone IT.
  intros Hm Hh Hroom HS HN. apply twp_len. intros Hlen. apply (twp_balloc fuel Hlo); [done|by apply data_held_idle|done| |done].
  intros b (Hb & Hbit & _). assert (Hnr : ¬ reserved SB start b) by (by eapply free_not_reserved).
  assert (Hnm : ¬ map_block SB b) by (unfold reserved in Hnr; tauto).
  eapply settle; [apply (HS b (tv (balloced b τ)))|done|cbn; by rewrite BBLOCK_one|done..]. cbn.
  assert (Hbits : ∀ n, 0 ≤ n < sb_size SB → bit SB (setv b zeros (mark SB b (tv τ))) n = (n =? b) || bit SB (tv τ) n).
  { intros n Hn. by apply balloced_bit. }
  split; [intros ->; apply Hnr; by left|done| |by rewrite setv_eq| |done].
  - split_and!; [lia|lia| |done]. rewrite Hbits by done. by rewrite Z.eqb_refl.
  - intros n Hn Hne. rewrite setv_ne by done. unfold mark, set_byte. rewrite setv_ne; [done|]. by rewrite BBLOCK_one.
Qed.

(** ** [bmap] *)

(** the block is free *)
Definition free_in (v : Z → list Z) (n : Z) : Prop := 0 ≤ n < sb_size SB ∧ bit SB v n = false.
(** a file with the addresses [a] in the state [τ] becomes one with the
    addresses [a'] in [τ']: blocks that were in use stay so and, apart from the
    block of the map and the indirect block, keep their contents *)
Record grows (τ : tx) (ip : nat) (i : inode) (a' : list Z) (τ' : tx) : Prop := {
  gr_inodes : ti τ' = <[ip := i <| i_addrs := a' |>]> (ti τ);
  gr_clean : th τ' = ∅ ∧ td τ' = ∅;
  gr_map : map_ok SB start (tv τ');
  gr_file : file_ok (data_block SB start) (tv τ') a';
  gr_data n : data_block SB start (tv τ) n → data_block SB start (tv τ') n;
  gr_same n : n ≠ sb_bmapstart SB → (n = ind (i_addrs i) → n = 0) → ¬ free_in (tv τ) n → tv τ' n = tv τ n;
  gr_ind : ind a' = ind (i_addrs i) ∨ free_in (tv τ) (ind a')
}.
Record bmapped (ib : Z) (τ : tx) (ip : nat) (i : inode) (k b : Z) (a' : list Z) (τ' : tx) : Prop := {
  bm_grows : grows τ ip i a' τ';
  bm_block : fblock (tv τ') a' k = b;
  bm_other k' : index_ok k' → k' ≠ k → fblock (tv τ') a' k' = fblock (tv τ) (i_addrs i) k';
  bm_old : fblock (tv τ) (i_addrs i) k ≠ 0 → b = fblock (tv τ) (i_addrs i) k ∧ τ' = τ ∧ a' = i_addrs i;
  bm_new : fblock (tv τ) (i_addrs i) k = 0 → b ≠ 0 → tv τ' b = zeros ∧ free_in (tv τ) b;
  bm_cost : (cost ib a' (tl τ') + (if decide (b = 0%Z) then 0 else miss b (tl τ')) ≤ cost ib (i_addrs i) (tl τ) + 1)%nat;
  bm_fail : b = 0 → no_free (tv τ')
}.
(** a file that [bmap] can work on *)
Record file_at (τ : tx) (ip : nat) (i : inode) : Prop := {
  fa_inode : ti τ !! ip = Some i;
  fa_dev : i_dev i = dev;
  fa_clean : th τ = ∅ ∧ td τ = ∅;
  fa_map : map_ok SB start (tv τ);
  fa_file : file_ok (data_block SB start) (tv τ) (i_addrs i)
}.
Lemma grows_at τ ip i a' τ' : file_at τ ip i → grows τ ip i a' τ' → file_at τ' ip (i <| i_addrs := a' |>).
Proof.
  intros [Hi Hd Hc Hm Hf] [G1 G2 G3 G4 G5 G6 _]. split; [|done..]. rewrite G1. apply list_lookup_insert_eq. by eapply lookup_lt_Some.
Qed.
Lemma grows_refl τ ip i : file_at τ ip i → grows τ ip i (i_addrs i) τ.
Proof.
  intros [Hi Hd Hc Hm Hf]. split; [|done..|by left]. rewrite list_insert_id; [done|]. by destruct i.
Qed.
Lemma new_block_same v v' b n : new_block v v' b → n ≠ sb_bmapstart SB → ¬ free_in v n → v' n = v n.
Proof. intros Hb Hn Hnf. apply (nb_same _ _ _ Hb); [done|]. intros ->. apply Hnf. apply (nb_free _ _ _ Hb). Qed.
Lemma data_not_map v n : data_block SB start v n → n ≠ sb_bmapstart SB.
Proof using Hlo Hone.
  intros (Hn & _ & Hr) ->. apply Hr. right. right. left. exists 0. pose proof (lo_size _ _ Hlo).
  rewrite BBLOCK_one by lia. split; [lia|done].
Qed.
Lemma data_not_free v n : data_block SB start v n → ¬ free_in v n.
Proof. intros (_ & Hb & _) [_ Hf]. congruence. Qed.
Lemma new_block_ind v v' b a : new_block v v' b → file_ok (data_block SB start) v a → ind a ≠ 0 → v' (ind a) = v (ind a).
Proof using Hlo Hone.
  intros Hb Hf Hi. assert (Hd : data_block SB start v (ind a)) by (apply (fo_data _ _ _ Hf); split; [done|by left]).
  eapply new_block_same; [done|by eapply data_not_map|by eapply data_not_free].
Qed.

Lemma data_held_clean τ : th τ = ∅ → td τ = ∅ → data_held τ.
Proof. intros Hh Hd. split; [done|]. rewrite Hh. intros n [x Hx]. by rewrite lookup_empty in Hx. Qed.

(** a direct block *)
Lemma bmapped_direct ib τ ip i k b v' : file_at τ ip i → 0 ≤ k < Z.of_nat NDIRECT → fblock (tv τ) (i_addrs i) k = 0 → new_block (tv τ) v' b →
  bmapped ib τ ip i k b (<[Z.to_nat k := b]> (i_addrs i))
    (τ <| tv := v' |> <| tl ::= λ l, absorb b (absorb (sb_bmapstart SB) l) |> <| ti ::= <[ip := i <| i_addrs ::= <[Z.to_nat k := b]> |>]> |>).
Proof using Hlo Hone.
  intros [Hi Hd [Hc1 Hc2] Hm Hf] Hk H0 Hb. set (a := i_addrs i) in *. pose proof (fo_len _ _ _ Hf) as Hl.
  destruct (file_ok_same (data_block SB start) (data_block SB start) (tv τ) a v') as [_ Hsame]; [by eapply new_block_ind|by intros n; eapply new_block_mono|done|].
  pose proof (λ k', fblock_direct v' a k b k' Hl Hk) as Hfb.
  split; cbn.
  - split; cbn; [done|done|by eapply new_block_map| |by intros n; eapply new_block_mono|by intros n ? _ ?; eapply new_block_same|left; apply (Hfb 0); lia].
    eapply (file_ok_add (data_block SB start) (data_block SB start) (tv τ) a _ _ k b); [done|by rewrite length_insert|by apply (Hfb 0)| |by eapply new_block_file|by intros n; eapply new_block_mono|apply Hb].
    intros k' [Hk' _]. rewrite (proj1 (Hfb k' Hk')). by rewrite Hsame.
  - rewrite (proj1 (Hfb k ltac:(lia))). by rewrite decide_True.
  - intros k' [Hk' _] Hne. rewrite (proj1 (Hfb k' Hk')). by rewrite decide_False, Hsame.
  - done.
  - intros _ _. split; [apply Hb|]. apply (nb_free _ _ _ Hb).
  - rewrite decide_False by apply (nb_pos _ _ _ Hb). rewrite miss_absorb_eq.
    fold a. rewrite (cost_ext _ a) by (apply (Hfb 0); lia). pose proof (cost_absorb ib a (absorb (sb_bmapstart SB) (tl τ)) b).
    pose proof (cost_absorb_counted ib a (tl τ) (sb_bmapstart SB) ltac:(by left)). pose proof (miss_le b (absorb (sb_bmapstart SB) (tl τ))). lia.
  - intros ->. by destruct (nb_pos _ _ _ Hb).
Qed.

(** a new indirect block *)
Record new_ind (ib : Z) (τ : tx) (ip : nat) (i : inode) (a' : list Z) (τ' : tx) : Prop := {
  ni_grows : grows τ ip i a' τ';
  ni_pos : ind a' ≠ 0;
  ni_blocks k : index_ok k → fblock (tv τ') a' k = fblock (tv τ) (i_addrs i) k;
  ni_cost : (cost ib a' (tl τ') ≤ cost ib (i_addrs i) (tl τ))%nat;
  ni_old : ind (i_addrs i) ≠ 0 → τ' = τ ∧ a' = i_addrs i;
  ni_new : ind (i_addrs i) = 0 → free_in (tv τ) (ind a') ∧ tv τ' (ind a') = zeros
}.
Lemma new_ind_at ib τ ip i b v' : file_at τ ip i → ind (i_addrs i) = 0 → new_block (tv τ) v' b →
  new_ind ib τ ip i (<[NDIRECT := b]> (i_addrs i))
    (τ <| tv := v' |> <| tl ::= λ l, absorb b (absorb (sb_bmapstart SB) l) |> <| ti ::= <[ip := i <| i_addrs ::= <[NDIRECT := b]> |>]> |>).
Proof using Hlo Hone.
  intros [Hi Hd [Hc1 Hc2] Hm Hf] H0 Hb. set (a := i_addrs i) in *. pose proof (fo_len _ _ _ Hf) as Hl. pose proof (nb_pos _ _ _ Hb) as Hb0.
  pose proof (λ k', fblock_new_ind (tv τ) v' a b k' Hl H0 Hb0 (nb_zero _ _ _ Hb)) as Hfb.
  assert (Hind : ind (<[NDIRECT := b]> a) = b) by (apply (Hfb 0); by split).
  split; cbn.
  - split; cbn; [done|done|by eapply new_block_map| |by intros n; eapply new_block_mono|by intros n ? _ ?; eapply new_block_same|right; fold a; rewrite Hind; apply (nb_free _ _ _ Hb)].
    eapply (file_ok_ind (data_block SB start) (data_block SB start) (tv τ) a _ _ b); [done|by rewrite length_insert|done|done|by intros k' Hk'; apply Hfb|by eapply new_block_file|by intros n; eapply new_block_mono|apply Hb].
  - by fold a; rewrite Hind.
  - intros k Hk. by apply Hfb.
  - fold a. pose proof (cost_new_ind ib a (<[NDIRECT := b]> a) (absorb (sb_bmapstart SB) (tl τ)) b H0 Hind Hb0).
    pose proof (cost_absorb_counted ib a (tl τ) (sb_bmapstart SB) ltac:(by left)). lia.
  - done.
  - intros _. fold a. rewrite Hind. split; [apply (nb_free _ _ _ Hb)|apply Hb].
Qed.

(** an entry of the indirect block *)
Lemma bmapped_entry ib τ ip i j b v' d : file_at τ ip i → ind (i_addrs i) ≠ 0 → 0 ≤ j < NINDIRECT →
  fblock (tv τ) (i_addrs i) (j + Z.of_nat NDIRECT) = 0 → new_block (tv τ) v' b →
  store_le 4 (v' (ind (i_addrs i))) (4 * j) b = Some d → length (v' (ind (i_addrs i))) = Z.to_nat BSIZE →
  bmapped ib τ ip i (j + Z.of_nat NDIRECT) b (i_addrs i)
    (τ <| tv := setv (ind (i_addrs i)) d v' |> <| tl ::= λ l, absorb (ind (i_addrs i)) (absorb b (absorb (sb_bmapstart SB) l)) |>).
Proof using Hlo Hone.
  intros Hat Hi0 Hj H0 Hb Hst Hlen. pose proof Hat as [Hi Hd [Hc1 Hc2] Hm Hf]. set (a := i_addrs i) in *. pose proof (nb_pos _ _ _ Hb) as Hb0.
  assert (Hib : data_block SB start (tv τ) (ind a)) by (apply (fo_data _ _ _ Hf); split; [done|by left]).
  assert (Hne : ind a ≠ b) by (intros Heq; destruct (new_block_file _ _ _ a Hb Hf); rewrite <- Heq; split; [done|by left]).
  assert (Hnm : ¬ map_block SB (ind a)) by (intros Hx%map_block_one; by eapply data_not_map).
  destruct (file_ok_same (data_block SB start) (data_block SB start) (tv τ) a v') as [_ Hsame]; [by eapply new_block_ind|by intros n; eapply new_block_mono|done|].
  assert (Hb32 : 0 ≤ b < 2 ^ 32) by (pose proof (lo_size _ _ Hlo); pose proof (nb_free _ _ _ Hb); lia).
  pose proof (λ k', fblock_entry v' a d j b k' Hi0 Hj Hlen Hb32 Hst) as Hfb.
  assert (Hmono : ∀ n, data_block SB start v' n → data_block SB start (setv (ind a) d v') n).
  { intros n (Hn & Hbit & Hr). split_and!; [lia|lia| |done]. by rewrite bit_other. }
  assert (Hidx : index_ok (j + Z.of_nat NDIRECT)) by (unfold index_ok, MAXFILE; lia).
  split; cbn.
  - split; cbn.
    + rewrite list_insert_id; [done|]. rewrite Hi. by destruct i.
    + done.
    + intros n Hn Hr. rewrite bit_other by done. by apply (new_block_map _ _ _ Hb Hm).
    + eapply (file_ok_add (data_block SB start) (data_block SB start) (tv τ) a _ _ (j + Z.of_nat NDIRECT) b); [done|apply Hf|done| |by eapply new_block_file| |].
      * intros k' Hk'. rewrite Hfb by done. by rewrite Hsame.
      * intros n Hn. by eapply Hmono, new_block_mono.
      * apply Hmono, Hb.
    + intros n Hn. by eapply Hmono, new_block_mono.
    + intros n Hn Hni Hnf. rewrite setv_ne by (intros ->; by apply Hi0, Hni). by eapply new_block_same.
    + by left.
  - rewrite Hfb by done. by rewrite decide_True.
  - intros k' Hk' Hne'. rewrite Hfb by done. by rewrite decide_False, Hsame.
  - done.
  - intros _ _. rewrite setv_ne by done. split; [apply Hb|]. apply (nb_free _ _ _ Hb).
  - fold a. rewrite decide_False by done. 
    pose proof (miss_absorb b (ind a) (absorb b (absorb (sb_bmapstart SB) (tl τ)))) as H1. rewrite miss_absorb_eq in H1.
    pose proof (cost_absorb_counted ib a (absorb b (absorb (sb_bmapstart SB) (tl τ))) (ind a) ltac:(right; right; done)).
    pose proof (cost_absorb ib a (absorb (sb_bmapstart SB) (tl τ)) b). pose proof (miss_le b (absorb (sb_bmapstart SB) (tl τ))).
    pose proof (cost_absorb_counted ib a (tl τ) (sb_bmapstart SB) ltac:(by left)). lia.
  - done.
Qed.

Lemma grows_used τ ip i a' τ' n : map_ok SB start (tv τ) → grows τ ip i a' τ' → ¬ free_in (tv τ) n → ¬ free_in (tv τ') n.
Proof.
  intros Hm Hg Hn [Hr Hf]. apply Hn. split; [done|]. destruct (bit SB (tv τ) n) eqn:Hbit; [|done]. exfalso.
  assert (Hres : ¬ reserved SB start n) by (intros Hres; by rewrite (gr_map _ _ _ _ _ Hg n Hr Hres) in Hf).
  destruct (gr_data _ _ _ _ _ Hg n) as (_ & Hb & _); [by split; [exact Hr|split]|congruence].
Qed.
Lemma bmapped_after_ind ib τ ip i a1 τ1 k b a2 τ2 : file_at τ ip i → index_ok k → Z.of_nat NDIRECT ≤ k →
  new_ind ib τ ip i a1 τ1 → bmapped ib τ1 ip (i <| i_addrs := a1 |>) k b a2 τ2 → bmapped ib τ ip i k b a2 τ2.
Proof.
  intros Hat Hk Hk12 [G1 Hpos Hfb Hc1 Hold Hnew] [G2 Hb Hoth Hold2 Hnew2 Hc2 Hfail]. cbn [i_addrs] in *. change (i_addrs (i <| i_addrs := a1 |>)) with a1 in *.
  pose proof (λ n, grows_used _ _ _ _ _ n (fa_map _ _ _ Hat) G1) as Hused.
  split; [|done|..|done].
  - destruct G2 as [I2 C2 M2 F2 D2 S2 N2]. split; [|done|done|done|..].
    + rewrite I2, (gr_inodes _ _ _ _ _ G1). by rewrite list_insert_insert_eq.
    + intros n Hn. by apply D2, (gr_data _ _ _ _ _ G1).
    + intros n Hn Hni Hnf. rewrite S2; [by apply (gr_same _ _ _ _ _ G1)|done| |by apply Hused]. change (i_addrs (i <| i_addrs := a1 |>)) with a1.
      destruct (decide (ind (i_addrs i) = 0)) as [H0|H0]; [|by destruct (Hold H0) as [_ ->]].
      intros ->. destruct Hnf. apply (Hnew H0).
    + change (i_addrs (i <| i_addrs := a1 |>)) with a1 in N2. destruct N2 as [-> |Hf2]; [apply (gr_ind _ _ _ _ _ G1)|]. right.
      destruct (decide (0 ≤ ind a2 < sb_size SB ∧ bit SB (tv τ) (ind a2) = false)); [done|]. by destruct (Hused (ind a2)).
  - intros k' Hk' Hne. rewrite Hoth by done. by apply Hfb.
  - intros Hne. rewrite <- Hfb in Hne by done. destruct (Hold2 Hne) as (-> & -> & ->). rewrite Hfb in Hne by done.
    assert (Hi0 : ind (i_addrs i) ≠ 0).
    { unfold fblock in Hne. rewrite (proj2 (Z.ltb_ge _ _)) in Hne by done. by destruct (Z.eqb_spec (ind (i_addrs i)) 0). }
    destruct (Hold Hi0) as [-> ->]. done.
  - intros H0 Hb0. rewrite <- Hfb in H0 by done. destruct (Hnew2 H0 Hb0) as [Hz Hf]. split; [done|].
    destruct (decide (0 ≤ b < sb_size SB ∧ bit SB (tv τ) b = false)); [done|]. by destruct (Hused b).
  - lia.
Qed.

Lemma twp_addr_at τ ip i k x (Q : Z → tx → Prop) : ti τ !! ip = Some i → i_addrs i !! k = Some x → Q x τ → twp (addr_at ip k) τ Q.
Proof. intros Hi Hx HQ. apply twp_bind. eapply twp_rdt; [done|]. by eapply twp_deref. Qed.
(** there is room for what [bmap] needs *)
Definition bmap_room (ib : Z) (i : inode) (τ : tx) : Prop := (cost ib (i_addrs i) (tl τ) + 4 ≤ NBUF)%nat.
Lemma clean_room ib i τ k : th τ = ∅ → bmap_room ib i τ → (k ≤ 4)%nat → has_room k τ.
Proof.
  intros Hh Hr Hk. unfold bmap_room, has_room in *. rewrite Hh, map_size_empty. pose proof (cost_length ib (i_addrs i) (tl τ)). lia.
Qed.

Lemma twp_bmap_direct ib τ ip i k (Q : Z → tx → Prop) : file_at τ ip i → 0 ≤ k < Z.of_nat NDIRECT → bmap_room ib i τ →
  (∀ b a' τ', bmapped ib τ ip i k b a' τ' → Q b τ') → twp (bmap (S fuel) ip k) τ Q.
Proof using Hlo Hone IT.
  intros Hat Hk Hroom HQ. pose proof Hat as [Hi Hd [Hc1 Hc2] Hm Hf]. unfold bmap. rewrite (proj2 (Z.ltb_lt _ _)) by lia.
  destruct (lookup_lt_is_Some_2 (i_addrs i) (Z.to_nat k)) as [x Hx]; [rewrite (fo_len _ _ _ Hf); lia|].
  assert (Hfb : fblock (tv τ) (i_addrs i) k = x) by (unfold fblock; rewrite (proj2 (Z.ltb_lt _ _)) by lia; by rewrite Hx).
  assert (Hrefl : ∀ b, b = x → (b = 0 → no_free (tv τ)) → bmapped ib τ ip i k b (i_addrs i) τ).
  { intros b -> Hno. split; [by apply grows_refl|done|done|by intros _|congruence| |done]. pose proof (miss_le x (tl τ)). case_decide; lia. }
  apply twp_bind. eapply twp_addr_at; [done|done|]. destruct (Z.eqb_spec x 0) as [H0|H0].
  2: { by apply twp_ret, (HQ _ (i_addrs i)), Hrefl. }
  apply twp_bind. eapply twp_rdt; [done|]. rewrite Hd. apply twp_bind, twp_new_block; [done|by apply data_held_clean|by eapply clean_room; [done|done|lia]|..].
  - intros b v' Hb. rewrite (proj2 (Z.eqb_neq _ _)) by apply Hb. apply twp_bind. eapply twp_updt; [done|]. apply twp_ret.
    eapply HQ, bmapped_direct; [done|done|congruence|done].
  - intros Hno. cbn. apply twp_ret, (HQ _ (i_addrs i)), Hrefl; [congruence|done].
Qed.

(** the indirect block, allocated if there is none *)
Lemma twp_get_ind {B} ib τ ip i (k : option Z → KM B) (Q : B → tx → Prop) : file_at τ ip i → bmap_room ib i τ →
  (∀ a' τ', new_ind ib τ ip i a' τ' → twp (k (Some (ind a'))) τ' Q) → (ind (i_addrs i) = 0 → no_free (tv τ) → twp (k None) τ Q) →
  twp (let* addr := addr_at ip NDIRECT in
       let* r := if addr =? 0 then
                   let* dev := rdt inodes ip i_dev in
                   let* addr := balloc (S fuel) dev in
                   if addr =? 0 then ret None else
                   set_addr ip NDIRECT addr ;;
                   ret (Some addr)
                 else ret (Some addr) in
       k r) τ Q.
Proof using Hlo Hone IT.
  intros Hat Hroom HQ HN. pose proof Hat as [Hi Hd [Hc1 Hc2] Hm Hf].
  destruct (lookup_lt_is_Some_2 (i_addrs i) NDIRECT) as [x Hx]; [rewrite (fo_len _ _ _ Hf); lia|].
  assert (Hind : ind (i_addrs i) = x) by (unfold ind; by rewrite Hx).
  apply twp_bind. eapply twp_addr_at; [done|done|]. apply twp_bind. destruct (Z.eqb_spec x 0) as [H0|H0].
  2: { apply twp_ret. rewrite <- Hind. apply HQ. split; [by apply grows_refl|congruence|done|lia|done|congruence]. }
  apply twp_bind. eapply twp_rdt; [done|]. rewrite Hd. apply twp_bind, twp_new_block; [done|by apply data_held_clean|by eapply clean_room; [done|done|lia]|..].
  - intros b v' Hb. rewrite (proj2 (Z.eqb_neq _ _)) by apply Hb. apply twp_bind. eapply twp_updt; [done|]. apply twp_ret.
    pose proof (new_ind_at ib τ ip i b v' Hat ltac:(congruence) Hb) as Hni.
    assert (Hb' : ind (<[NDIRECT := b]> (i_addrs i)) = b) by (unfold ind; rewrite list_lookup_insert_eq; [done|rewrite (fo_len _ _ _ Hf); lia]).
    rewrite <- Hb' at 1. by apply HQ.
  - intros Hno. cbn. apply twp_ret, HN; [congruence|done].
Qed.
(** the entry of the indirect block, allocated if there is none *)
Lemma twp_get_entry ib τ ip i n j (Q : Z → tx → Prop) : file_at τ ip i → bmap_room ib i τ → n = ind (i_addrs i) → n ≠ 0 → 0 ≤ j < NINDIRECT →
  (∀ b a' τ', bmapped ib τ ip i (j + Z.of_nat NDIRECT) b a' τ' → Q b τ') →
  twp (let* dev := rdt inodes ip i_dev in
       let* bp := bread (S fuel) dev n in
       let* addr := data_le 4 bp (4 * j) in
       let* addr := if addr =? 0 then
                      let* dev := rdt inodes ip i_dev in
                      let* addr := balloc (S fuel) dev in
                      when (negb (addr =? 0)) (
                        set_data_le 4 bp (4 * j) addr ;;
                        log_write bp) ;;
                      ret addr
                    else ret addr in
       brelse bp ;;
       ret addr) τ Q.
Proof using Hlo Hone IT.
  intros Hat Hroom -> Hi0 Hj HQ. pose proof Hat as [Hi Hd [Hc1 Hc2] Hm Hf]. apply twp_len. intros Hlen. set (a := i_addrs i) in *.
  assert (Hib : data_block SB start (tv τ) (ind a)) by (apply (fo_data _ _ _ Hf); split; [done|by left]).
  pose proof (lo_size _ _ Hlo) as Hsz. pose proof Hib as ([Hib1 Hib2] & Hbit & Hnr).
  assert (Hok : block_ok (ind a)) by (unfold block_ok; lia).
  assert (Hnl : ¬ in_log start (ind a)) by (intros Hl; apply Hnr; right; by left).
  pose proof (cost_length ib a (tl τ)) as Hcl. unfold bmap_room in Hroom. fold a in Hroom.
  apply twp_bind. eapply twp_rdt; [done|]. rewrite Hd. apply twp_bind, twp_bread; [by rewrite Hc1|done|rewrite Hc1, map_size_empty; lia|]. intros bp.
  destruct (array_load_le 4 (tv τ (ind a)) (4 * j)) as [x Hx]; [lia|rewrite Hlen; change NINDIRECT with 256 in Hj; change BSIZE with 1024; lia|].
  assert (Hfb : fblock (tv τ) a (j + Z.of_nat NDIRECT) = x).
  { unfold fblock. rewrite (proj2 (Z.ltb_ge _ _)), (proj2 (Z.eqb_neq _ _)) by (done || lia). unfold entry.
    replace (j + Z.of_nat NDIRECT - Z.of_nat NDIRECT) with j by lia. by rewrite Hx. }
  assert (Hrefl : ∀ b, b = x → (b = 0 → no_free (tv τ)) → bmapped ib τ ip i (j + Z.of_nat NDIRECT) b a τ).
  { intros b -> Hno. split; [by apply grows_refl|done|done|by intros _|by fold a; congruence| |done]. fold a. pose proof (miss_le x (tl τ)). case_decide; lia. }
  assert (Hτ : τ <| th ::= <[ind a := bp]> |> <| th ::= delete (ind a) |> = τ).
  { apply tx_eq; [done|done|cbn; apply release_held; by rewrite Hc1|done|done]. }
  apply twp_bind. eapply (twp_data_le 4 (ind a)); [apply lookup_insert_eq|exact Hx|]. apply twp_bind. destruct (Z.eqb_spec x 0) as [H0|H0].
  2: { apply twp_ret, twp_bind. eapply (twp_brelse (ind a)); [apply lookup_insert_eq|cbn; by rewrite Hc2|]. rewrite Hτ. by apply twp_ret, (HQ _ a), Hrefl. }
  apply twp_bind. eapply twp_rdt; [done|]. rewrite Hd. apply twp_bind, twp_new_block; [done| | |..].
  { split; [done|]. intros n [y Hy]. cbn in Hy. apply lookup_insert_Some in Hy as [[<- _]|[_ Hy]]; [done|]. by rewrite Hc1, lookup_empty in Hy. }
  { unfold has_room. cbn. rewrite Hc1, map_size_insert_None, map_size_empty by done. lia. }
  - intros b v' Hb. rewrite (proj2 (Z.eqb_neq _ _)) by apply Hb. cbn [negb when]. cbn [tv] in Hb.
    assert (Hv' : v' (ind a) = tv τ (ind a)) by (by eapply new_block_ind).
    destruct (array_store_le 4 (v' (ind a)) (4 * j) b) as (d & Hst & Hdl & _); [lia|rewrite Hv', Hlen; change NINDIRECT with 256 in Hj; change BSIZE with 1024; lia|].
    assert (Hl1 : (length (absorb b (absorb (sb_bmapstart SB) (tl τ))) < LOGBLOCKS)%nat).
    { pose proof (cost_absorb ib a (absorb (sb_bmapstart SB) (tl τ)) b). pose proof (miss_le b (absorb (sb_bmapstart SB) (tl τ))).
      pose proof (cost_absorb_counted ib a (tl τ) (sb_bmapstart SB) ltac:(by left)).
      pose proof (cost_length ib a (absorb b (absorb (sb_bmapstart SB) (tl τ)))). change LOGBLOCKS with NBUF. lia. }
    apply twp_bind, twp_bind. eapply (twp_set_data_le 4 (ind a)); [apply lookup_insert_eq|exact Hst|by rewrite Hdl, Hv'|].
    eapply (twp_log_write (ind a)); [apply lookup_insert_eq|done|done|done|]. apply twp_ret, twp_bind.
    eapply (twp_brelse (ind a)); [apply lookup_insert_eq|cbn; set_solver|]. apply twp_ret.
    eapply settle; [eapply (HQ b a), (bmapped_entry ib τ ip i j b v' d); [done|done|done|exact (eq_trans Hfb H0)|done|exact Hst|exact (eq_trans (f_equal length Hv') (Hlen _))]|done|done|..|done].
    + cbn. rewrite release_held by (by rewrite Hc1). done.
    + cbn. rewrite Hc2. set_solver.
  - intros Hno. cbn [negb when Z.eqb]. apply twp_bind, twp_ret, twp_ret, twp_bind. eapply (twp_brelse (ind a)); [apply lookup_insert_eq|cbn; by rewrite Hc2|].
    rewrite Hτ. apply twp_ret, (HQ _ a), Hrefl; [congruence|done].
Qed.

Lemma twp_bmap ib τ ip i k (Q : Z → tx → Prop) : file_at τ ip i → index_ok k → bmap_room ib i τ →
  (∀ b a' τ', bmapped ib τ ip i k b a' τ' → Q b τ') → twp (bmap (S fuel) ip k) τ Q.
Proof using Hlo Hone IT.
  intros Hat Hk Hroom HQ. destruct (decide (k < Z.of_nat NDIRECT)) as [Hlt|Hge].
  { eapply twp_bmap_direct; [done|split; [apply Hk|done]|done|done]. }
  unfold bmap. rewrite (proj2 (Z.ltb_ge _ _)) by lia. unfold index_ok, MAXFILE in Hk. rewrite (proj2 (Z.ltb_lt _ _)) by lia.
  eapply twp_get_ind; [done|done|..].
  - intros a1 τ1 Hni. pose proof (grows_at _ _ _ _ _ Hat (ni_grows _ _ _ _ _ _ Hni)) as Hat1.
    eapply (twp_get_entry ib τ1 ip (i <| i_addrs := a1 |>) (ind a1)); [done| |done|apply Hni|lia|].
    + unfold bmap_room in *. pose proof (ni_cost _ _ _ _ _ _ Hni). cbn. lia.
    + intros b a2 τ2 Hb. replace (k - Z.of_nat NDIRECT + Z.of_nat NDIRECT) with k in Hb by lia.
      eapply HQ, bmapped_after_ind; [done|split; [lia|unfold MAXFILE; lia]|lia|done|done].
  - intros H0 Hno. apply twp_ret, (HQ 0 (i_addrs i)).
    assert (Hfb : fblock (tv τ) (i_addrs i) k = 0) by (unfold fblock; rewrite (proj2 (Z.ltb_ge _ _)) by lia; by rewrite H0).
    split; [by apply grows_refl|done|done|done|done| |done]. rewrite decide_True by done. lia.
Qed.

(** ** Files as lists of bytes *)

Record file_rep (v : Z → list Z) (i : inode) (l : list Z) : Prop := {
  fr_size : i_size i = Z.of_nat (length l);
  fr_max : Z.of_nat (length l) ≤ MAXFILE * BSIZE;
  fr_bytes k x : l !! k = Some x → fbyte v (i_addrs i) (Z.of_nat k) = Some x
}.
Lemma index_of off v i l : file_rep v i l → 0 ≤ off < Z.of_nat (length l) → index_ok (off / BSIZE).
Proof.
  intros Hr Ho. pose proof (fr_max _ _ _ Hr). split; [apply Z.div_pos; [lia|done]|]. apply Z.div_lt_upper_bound; [done|]. lia.
Qed.

(** a block that is there *)
Lemma twp_bmap_old τ ip i k (Q : Z → tx → Prop) : file_at τ ip i → index_ok k → has_room 1 τ →
  fblock (tv τ) (i_addrs i) k ≠ 0 → Q (fblock (tv τ) (i_addrs i) k) τ → twp (bmap (S fuel) ip k) τ Q.
Proof using Hlo.
  intros [Hi Hd [Hc1 Hc2] Hm Hf] [Hk1 Hk2] Hroom Hne HQ. unfold bmap. unfold fblock in *. destruct (Z.ltb_spec k (Z.of_nat NDIRECT)) as [Hlt|Hge].
  - destruct (lookup_lt_is_Some_2 (i_addrs i) (Z.to_nat k)) as [x Hx]; [rewrite (fo_len _ _ _ Hf); lia|]. rewrite Hx in *.
    apply twp_bind. eapply twp_addr_at; [done|done|]. cbn in Hne, HQ. rewrite (proj2 (Z.eqb_neq _ _)) by done. by apply twp_ret.
  - unfold MAXFILE in Hk2. rewrite (proj2 (Z.ltb_lt _ _)) by lia.
    destruct (lookup_lt_is_Some_2 (i_addrs i) NDIRECT) as [x Hx]; [rewrite (fo_len _ _ _ Hf); lia|].
    assert (Hind : ind (i_addrs i) = x) by (unfold ind; by rewrite Hx). rewrite Hind in *. destruct (Z.eqb_spec x 0) as [|Hx0]; [done|].
    assert (Hib : data_block SB start (tv τ) x) by (rewrite <- Hind; apply (fo_data _ _ _ Hf); rewrite Hind; split; [done|by left]).
    pose proof (lo_size _ _ Hlo). destruct Hib as ([? ?] & _ & _).
    apply twp_bind. eapply twp_addr_at; [done|done|]. apply twp_bind. rewrite (proj2 (Z.eqb_neq _ _)) by done. apply twp_ret.
    apply twp_len. intros Hlen. apply twp_bind. eapply twp_rdt; [done|]. rewrite Hd. unfold has_room in Hroom.
    apply twp_bind, twp_bread; [by rewrite Hc1|unfold block_ok; lia|lia|]. intros bp.
    unfold entry in *. destruct (array_load_le 4 (tv τ x) (4 * (k - Z.of_nat NDIRECT))) as [y Hy];
      [lia|rewrite Hlen; change NINDIRECT with 256 in Hk2; change BSIZE with 1024; lia|]. rewrite Hy in *. cbn in Hne, HQ.
    apply twp_bind. eapply (twp_data_le 4 x); [apply lookup_insert_eq|exact Hy|]. apply twp_bind. rewrite (proj2 (Z.eqb_neq y 0)) by done.
    apply twp_ret, twp_bind. eapply (twp_brelse x); [apply lookup_insert_eq|cbn; by rewrite Hc2|]. apply twp_ret.
    eapply settle; [exact HQ|done|done|cbn; apply release_held; by rewrite Hc1|done|done].
Qed.

(** *** [readi] *)

(** the bytes of a file in one of its blocks *)
Lemma file_slice v i l off m : file_rep v i l → 0 ≤ off → 0 < m → off + m ≤ Z.of_nat (length l) → off mod BSIZE + m ≤ BSIZE →
  let b := fblock v (i_addrs i) (off / BSIZE) in
  b ≠ 0 ∧ load_bytes (v b) (off mod BSIZE) (Z.to_nat m) = Some (take (Z.to_nat m) (drop (Z.to_nat off) l)).
Proof.
  intros Hr Ho Hm Hend Hfit b.
  assert (Hat : ∀ j, 0 ≤ j < m → ∃ x, l !! Z.to_nat (off + j) = Some x ∧ b ≠ 0 ∧ v b !! Z.to_nat (off mod BSIZE + j) = Some x).
  { intros j Hj. destruct (lookup_lt_is_Some_2 l (Z.to_nat (off + j))) as [x Hx]; [lia|]. exists x. split; [done|].
    pose proof (fr_bytes _ _ _ Hr _ _ Hx) as Hb. rewrite Z2Nat.id in Hb by lia. destruct (same_block off j) as [H1 H2]; [lia|lia|].
    apply fbyte_block in Hb. rewrite H1, H2 in Hb. done. }
  split; [by destruct (Hat 0) as (? & _ & ? & _); [lia|]|].
  assert (Hlen : length (take (Z.to_nat m) (drop (Z.to_nat off) l)) = Z.to_nat m) by (rewrite length_take, length_drop; lia).
  rewrite <- Hlen at 1. apply load_bytes_at. intros j x Hx. pose proof (lookup_lt_Some _ _ _ Hx) as Hj. rewrite Hlen in Hj.
  rewrite lookup_take_lt, lookup_drop in Hx by done. destruct (Hat (Z.of_nat j)) as (y & Hy & _ & Hvy); [lia|].
  replace (Z.to_nat (off + Z.of_nat j)) with (Z.to_nat off + j)%nat in Hy by lia. simplify_eq.
  pose proof (Z.mod_pos_bound off BSIZE ltac:(done)). cbn. rewrite (proj2 (Z.leb_le _ _)) by lia. by rewrite Hvy.
Qed.
Lemma take_drop_app (l : list Z) (a m n : nat) : (m ≤ n)%nat → take m (drop a l) ++ take (n - m) (drop (a + m) l) = take n (drop a l).
Proof. intros Hm. rewrite <- drop_drop, take_take_drop. f_equal. lia. Qed.
Lemma readi_bounds off rem : 0 < rem → let m := Z.min rem (BSIZE - off mod BSIZE) in
  0 < m ≤ rem ∧ off mod BSIZE + m ≤ BSIZE ∧
  (m = rem ∨ (off + m) mod BSIZE + (rem - m) = off mod BSIZE + rem - BSIZE).
Proof.
  intros Hrem m. pose proof (Z.mod_pos_bound off BSIZE ltac:(done)) as Hb. split_and!; [lia|lia|lia|].
  destruct (decide (m = rem)); [by left|]. right. assert (Hm : m = BSIZE - off mod BSIZE) by lia. rewrite Hm.
  pose proof (Z.div_mod off BSIZE ltac:(done)). replace (off + (BSIZE - off mod BSIZE)) with ((off / BSIZE + 1) * BSIZE) by lia.
  rewrite Z_mod_mult. lia.
Qed.
Lemma readi_stops off rem : let m := Z.min rem (BSIZE - off mod BSIZE) in m < rem → (off + m) mod BSIZE = 0.
Proof.
  intros m Hm. pose proof (Z.div_mod off BSIZE ltac:(done)). replace (off + m) with (0 + (off / BSIZE + 1) * BSIZE) by lia.
  by rewrite Z_mod_plus_full.
Qed.
Context {SY : Symbols}.
Lemma twp_readi_loop τ ip i l n turns : file_at τ ip i → file_rep (tv τ) i l → has_room 1 τ → ∀ off tot acc (Q : Z * list Z → tx → Prop),
  0 ≤ off → 0 ≤ tot ≤ n → off + (n - tot) ≤ Z.of_nat (length l) →
  (tot < n → off mod BSIZE + (n - tot) ≤ Z.of_nat turns * BSIZE) →
  Q (n, acc ++ take (Z.to_nat (n - tot)) (drop (Z.to_nat off) l)) τ →
  twp (readi_loop (S fuel) (S turns) ip DstLocal off tot n acc) τ Q.
Proof using Hlo.
  intros Hat Hr Hroom. pose proof Hat as [Hi Hd [Hc1 Hc2] Hm Hf].
  induction turns as [|turns IH]; intros off tot acc Q Ho Ht Hend Hturns HQ; cbn [readi_loop].
  all: destruct (Z.ltb_spec tot n) as [Hlt|Hge];
    [|apply twp_ret; replace tot with n in * by lia; rewrite Z.sub_diag, app_nil_r in HQ; exact HQ].
  { specialize (Hturns Hlt). pose proof (Z.mod_pos_bound off BSIZE ltac:(done)). lia. }
  destruct (readi_bounds off (n - tot)) as (Hm1 & Hm2 & Hm3); [lia|]. set (m := Z.min (n - tot) (BSIZE - off mod BSIZE)) in *.
  destruct (file_slice _ _ _ off m Hr Ho) as [Hb Hld]; [lia|lia|done|]. set (b := fblock (tv τ) (i_addrs i) (off / BSIZE)) in *.
  pose proof (index_of off _ _ _ Hr ltac:(lia)) as Hidx.
  assert (Hdb : data_block SB start (tv τ) b) by (apply (fo_data _ _ _ Hf); split; [done|right; by exists (off / BSIZE)]).
  apply twp_bind, (twp_bmap_old τ ip i); [done|done|done|done|]. fold b. rewrite (proj2 (Z.eqb_neq _ _)) by done.
  apply twp_bind. eapply twp_rdt; [done|]. rewrite Hd. unfold has_room in Hroom. pose proof (lo_size _ _ Hlo). destruct Hdb as ([? ?] & _ & _).
  apply twp_bind, twp_bread; [by rewrite Hc1|unfold block_ok; lia|lia|]. intros bp.
  apply twp_bind. eapply (twp_rd_buf _ b); [apply lookup_insert_eq|]. intros x Hx. cbn in Hx.
  apply twp_bind. eapply twp_deref; [rewrite Hx; exact Hld|]. apply twp_bind, twp_ret. cbn [fst snd]. change (0 =? -1) with false. cbn iota.
  apply twp_bind. eapply (twp_brelse b); [apply lookup_insert_eq|cbn; by rewrite Hc2|].
  assert (Hτ : τ <| th ::= <[b := bp]> |> <| th ::= delete b |> = τ).
  { apply tx_eq; [done|done|cbn; apply release_held; by rewrite Hc1|done|done]. }
  rewrite Hτ. apply IH; [lia|lia|lia|intros; specialize (Hturns Hlt); lia|].
  rewrite <- app_assoc. replace (Z.to_nat (n - (tot + m))) with (Z.to_nat (n - tot) - Z.to_nat m)%nat by lia.
  rewrite Z2Nat.inj_add, take_drop_app by lia. done.
Qed.
(** what [readi] reads *)
Definition file_read (l : list Z) (off n : Z) : list Z := take (Z.to_nat n) (drop (Z.to_nat off) l).
Lemma twp_readi τ ip i l off n (Q : Z * list Z → tx → Prop) : file_at τ ip i → file_rep (tv τ) i l → has_room 1 τ →
  0 ≤ off → 0 ≤ n → off + n < 2 ^ 31 →
  Q (Z.of_nat (length (file_read l off n)), file_read l off n) τ → twp (readi (S fuel) ip DstLocal off n) τ Q.
Proof using Hlo.
  intros Hat Hr Hroom Ho Hn Hov HQ. pose proof Hat as [Hi Hd [Hc1 Hc2] Hm Hf]. apply twp_bind. eapply twp_rdt; [done|].
  rewrite (fr_size _ _ _ Hr), u32_small by lia. rewrite (proj2 (Z.ltb_ge (off + n) off)), orb_false_r by lia. unfold file_read in HQ.
  destruct (Z.ltb_spec (Z.of_nat (length l)) off) as [Hlt|Hge].
  { apply twp_ret. rewrite drop_ge, take_nil in HQ by lia. exact HQ. }
  assert (Hend : ∀ n', 0 ≤ n' → off + n' ≤ Z.of_nat (length l) → n' ≤ n → take (Z.to_nat n) (drop (Z.to_nat off) l) = take (Z.to_nat n') (drop (Z.to_nat off) l) →
    twp (let* r := readi_loop (S fuel) (S (turns n' BSIZE)) ip DstLocal off 0 n' [] in ret (s32 r.1, r.2)) τ Q).
  { intros n' Hn' Hle Hnn Heq. apply twp_bind, (twp_readi_loop τ ip i l n'); [done..|lia|lia| |].
    - intros _. pose proof (Z.mod_pos_bound off BSIZE ltac:(done)). pose proof (Z.div_mod n' BSIZE ltac:(done)). pose proof (Z.mod_pos_bound n' BSIZE ltac:(done)).
      pose proof (Z.div_pos n' BSIZE Hn' ltac:(done)). unfold turns. rewrite !Nat2Z.inj_succ, Z2Nat.id by done. lia.
    - apply twp_ret. rewrite Z.sub_0_r. cbn [fst snd app]. rewrite Heq, length_take, length_drop in HQ.
      rewrite s32_small by lia. replace (Z.of_nat (Z.to_nat n' `min` (length l - Z.to_nat off))) with n' in HQ by lia. exact HQ. }
  destruct (Z.ltb_spec (Z.of_nat (length l)) (off + n)).
  - apply Hend; [lia|lia|lia|]. rewrite !(take_ge (drop _ _)); [done|rewrite length_drop; lia..].
  - apply Hend; [lia|lia|lia|done].
Qed.

(** *** [writei] *)

(** the bytes [bs] have been written at [o] to the file with contents [l], with
    [c] more blocks in the log *)
Record wrote (ib : Z) (τ : tx) (ip : nat) (i : inode) (l : list Z) (o : nat) (bs : list Z) (c : nat) (a' : list Z) (τ' : tx) : Prop := {
  wr_at : file_at τ' ip (i <| i_addrs := a' |>);
  wr_inodes : ti τ' = <[ip := i <| i_addrs := a' |>]> (ti τ);
  wr_bytes : fbytes (tv τ') a' (splice l o bs);
  wr_data n : data_block SB start (tv τ) n → data_block SB start (tv τ') n;
  wr_same n : n ≠ sb_bmapstart SB → ¬ of_file (tv τ) (i_addrs i) n → ¬ free_in (tv τ) n → tv τ' n = tv τ n;
  wr_of n : of_file (tv τ') a' n → of_file (tv τ) (i_addrs i) n ∨ free_in (tv τ) n;
  wr_cost : (cost ib a' (tl τ') ≤ cost ib (i_addrs i) (tl τ) + c)%nat
}.
Lemma wrote_nil ib τ ip i l o : file_at τ ip i → (o ≤ length l)%nat → fbytes (tv τ) (i_addrs i) l → wrote ib τ ip i l o [] 0 (i_addrs i) τ.
Proof.
  intros Hat Ho Hl. assert (Hi : i <| i_addrs := i_addrs i |> = i) by (by destruct i).
  split; [by rewrite Hi|rewrite Hi; symmetry; apply list_insert_id, Hat|by rewrite splice_nil|done|done|by left|lia].
Qed.
Lemma wrote_used ib τ ip i l o bs c a' τ' n : map_ok SB start (tv τ) → wrote ib τ ip i l o bs c a' τ' → ¬ free_in (tv τ) n → ¬ free_in (tv τ') n.
Proof.
  intros Hm Hw Hn [Hr Hf]. apply Hn. split; [done|]. destruct (bit SB (tv τ) n) eqn:Hbit; [|done]. exfalso.
  assert (Hres : ¬ reserved SB start n) by (intros Hres; by rewrite (fa_map _ _ _ (wr_at _ _ _ _ _ _ _ _ _ _ Hw) n Hr Hres) in Hf).
  destruct (wr_data _ _ _ _ _ _ _ _ _ _ Hw n) as (_ & Hb & _); [by split; [exact Hr|split]|congruence].
Qed.
Lemma wrote_app ib τ ip i l o b1 c1 a1 τ1 b2 c2 a2 τ2 : file_at τ ip i → (o ≤ length l)%nat →
  wrote ib τ ip i l o b1 c1 a1 τ1 → wrote ib τ1 ip (i <| i_addrs := a1 |>) (splice l o b1) (o + length b1) b2 c2 a2 τ2 →
  wrote ib τ ip i l o (b1 ++ b2) (c1 + c2) a2 τ2.
Proof.
  intros Hat Ho W1 [A2 I2 B2 D2 S2 O2 C2]. pose proof (λ n, wrote_used _ _ _ _ _ _ _ _ _ _ n (fa_map _ _ _ Hat) W1) as Hused.
  destruct W1 as [A1 I1 B1 D1 S1 O1 C1]. change (i_addrs (i <| i_addrs := a1 |>)) with a1 in *.
  split; [exact A2|rewrite I2, I1; by rewrite list_insert_insert_eq|by rewrite <- splice_app|by eauto| | |lia].
  - intros n Hn Hof Hf. rewrite S2; [by apply S1|done| |by apply Hused]. intros [?|?]%O1; done.
  - intros n [H|H]%O2; [by apply O1|]. right. destruct (decide (0 ≤ n < sb_size SB ∧ bit SB (tv τ) n = false)); [done|]. by destruct (Hused n).
Qed.

(** the bytes of a file are still there when [bmap] has added a block *)
Lemma bmapped_bytes ib τ ip i l k b a1 τ1 : file_at τ ip i → fbytes (tv τ) (i_addrs i) l → Z.of_nat (length l) ≤ MAXFILE * BSIZE →
  bmapped ib τ ip i k b a1 τ1 → fbytes (tv τ1) a1 l.
Proof using Hlo Hone.
  intros Hat Hl Hmax Hbm j x Hj. pose proof (bm_grows _ _ _ _ _ _ _ _ Hbm) as G. pose proof (fa_file _ _ _ Hat) as Hf.
  pose proof (lookup_lt_Some _ _ _ Hj) as Hjl. pose proof (Hl j x Hj) as Hjx. apply fbyte_block in Hjx as [Hne Hx].
  assert (Hik : index_ok (Z.of_nat j / BSIZE)) by (split; [apply Z.div_pos; [lia|done]|apply Z.div_lt_upper_bound; [done|lia]]).
  assert (Hof : of_file (tv τ) (i_addrs i) (fblock (tv τ) (i_addrs i) (Z.of_nat j / BSIZE))) by (split; [done|right; by eexists]).
  destruct (decide (Z.of_nat j / BSIZE = k)) as [Hk|Hk].
  { rewrite Hk in Hne. destruct (bm_old _ _ _ _ _ _ _ _ Hbm Hne) as (_ & -> & ->). by apply Hl. }
  unfold fbyte. rewrite (bm_other _ _ _ _ _ _ _ _ Hbm _ Hik Hk), (proj2 (Z.eqb_neq _ _)) by done.
  rewrite (gr_same _ _ _ _ _ G); [done|..].
  - by eapply data_not_map, (fo_data _ _ _ Hf).
  - intros Heq. by destruct (fo_not_ind _ _ _ Hf _ Hik Hne).
  - by eapply data_not_free, (fo_data _ _ _ Hf).
Qed.
(** one block is written *)
Section block.
Context (ib : Z) (τ : tx) (ip : nat) (i : inode) (l : list Z) (off : Z) (bs : list Z) (b : Z) (a1 : list Z) (τ1 : tx) (d : list Z).
Context (Hat : file_at τ ip i) (Hl : fbytes (tv τ) (i_addrs i) l) (Ho : 0 ≤ off ≤ Z.of_nat (length l)).
Context (Hfit : off mod BSIZE + Z.of_nat (length bs) ≤ BSIZE).
Context (Hmax : Z.of_nat (length l) ≤ MAXFILE * BSIZE) (Hidx : index_ok (off / BSIZE)).
Context (Hbm : bmapped ib τ ip i (off / BSIZE) b a1 τ1) (Hb0 : b ≠ 0).
Context (Hst : store_bytes (tv τ1 b) (off mod BSIZE) bs = Some d) (Hlen : length (tv τ1 b) = Z.to_nat BSIZE).

Lemma block_file1 : file_ok (data_block SB start) (tv τ1) a1.
Proof using All. apply (gr_file _ _ _ _ _ (bm_grows _ _ _ _ _ _ _ _ Hbm)). Qed.
Lemma block_of1 : of_file (tv τ1) a1 b.
Proof using All. split; [done|]. right. exists (off / BSIZE). split; [done|]. symmetry. apply (bm_block _ _ _ _ _ _ _ _ Hbm). Qed.
Lemma block_not_ind : b ≠ ind a1.
Proof using All.
  pose proof (bm_block _ _ _ _ _ _ _ _ Hbm) as Hb. rewrite <- Hb. apply (fo_not_ind _ _ _ block_file1); [done|]. by rewrite Hb.
Qed.
Lemma block_not_map : ¬ map_block SB b.
Proof using All. intros Hm%map_block_one. eapply data_not_map; [apply (fo_data _ _ _ block_file1), block_of1|done]. Qed.
Lemma block_same k : fblock (setv b d (tv τ1)) a1 k = fblock (tv τ1) a1 k.
Proof using All.
  pose proof (bm_block _ _ _ _ _ _ _ _ Hbm) as Hb.
  pose proof (write_same _ _ _ off d block_file1 Hidx) as H. rewrite Hb in H. by apply H.
Qed.
Lemma block_bytes : fbytes (setv b d (tv τ1)) a1 (splice l (Z.to_nat off) bs).
Proof using All.
  pose proof (bm_block _ _ _ _ _ _ _ _ Hbm) as Hb. pose proof (bmapped_bytes _ _ _ _ _ _ _ _ _ Hat Hl Hmax Hbm) as Hl1.
  pose proof (write_bytes _ _ _ l off bs d block_file1 Hl1 Ho Hmax Hidx) as H. rewrite Hb in H. by apply H.
Qed.
Lemma wrote_block : wrote ib τ ip i l (Z.to_nat off) bs 1 a1 (put b d τ1).
Proof using All.
  pose proof (bm_grows _ _ _ _ _ _ _ _ Hbm) as G. pose proof (grows_at _ _ _ _ _ Hat G) as [Ai Ad Ac Am Af]. pose proof block_file1 as Hf1.
  assert (Hmono : ∀ n, data_block SB start (tv τ1) n → data_block SB start (setv b d (tv τ1)) n).
  { intros n (Hn & Hbit & Hr). split; [done|split; [|done]]. rewrite bit_other; [done|done|apply block_not_map]. }
  split; cbn.
  - split; [done|done|done| |].
    + intros n Hn Hr. cbn. rewrite bit_other by (done || apply block_not_map). by apply Am.
    + cbn. apply (file_ok_same (data_block SB start) (data_block SB start) (tv τ1)); [|done|done]. intros Hi. apply setv_ne. intros Heq. by apply block_not_ind.
  - apply (gr_inodes _ _ _ _ _ G).
  - apply block_bytes.
  - intros n Hn. by apply Hmono, (gr_data _ _ _ _ _ G).
  - intros n Hn Hof Hnf. rewrite setv_ne.
    + apply (gr_same _ _ _ _ _ G); [done| |done]. intros ->. destruct (decide (ind (i_addrs i) = 0)) as [H0|H0]; [done|]. destruct Hof. split; [done|by left].
    + intros ->. destruct (decide (fblock (tv τ) (i_addrs i) (off / BSIZE) = 0)) as [H0|H0].
      * apply Hnf, (bm_new _ _ _ _ _ _ _ _ Hbm H0 Hb0).
      * apply Hof. destruct (bm_old _ _ _ _ _ _ _ _ Hbm H0) as [-> _]. split; [done|]. right. by exists (off / BSIZE).
  - intros n [Hn0 Hn]. assert (Hof : n = ind a1 ∨ ∃ k, index_ok k ∧ n = fblock (tv τ1) a1 k).
    { destruct Hn as [?|(k & Hk & ->)]; [by left|]. right. exists k. by rewrite block_same. }
    destruct Hof as [-> |(k & Hk & ->)].
    + destruct (gr_ind _ _ _ _ _ G) as [Heq|Hfr]; [|by right]. left. rewrite Heq in *. split; [done|by left].
    + destruct (decide (k = off / BSIZE)) as [-> |Hne].
      * rewrite (bm_block _ _ _ _ _ _ _ _ Hbm) in *. destruct (decide (fblock (tv τ) (i_addrs i) (off / BSIZE) = 0)) as [H0|H0].
        -- right. apply (bm_new _ _ _ _ _ _ _ _ Hbm H0 Hb0).
        -- left. destruct (bm_old _ _ _ _ _ _ _ _ Hbm H0) as [-> _]. split; [done|]. right. by exists (off / BSIZE).
      * rewrite (bm_other _ _ _ _ _ _ _ _ Hbm k Hk Hne) in *. left. split; [done|]. right. by exists k.
  - pose proof (bm_cost _ _ _ _ _ _ _ _ Hbm) as Hc. rewrite decide_False in Hc by done. pose proof (cost_absorb ib a1 (tl τ1) b). lia.
Qed.
End block.

(** no block is found: nothing is written *)
Lemma wrote_failed ib τ ip i l o k a1 τ1 : file_at τ ip i → fbytes (tv τ) (i_addrs i) l → (o ≤ length l)%nat → Z.of_nat (length l) ≤ MAXFILE * BSIZE →
  bmapped ib τ ip i k 0 a1 τ1 → wrote ib τ ip i l o [] 1 a1 τ1.
Proof using Hlo Hone.
  intros Hat Hl Ho Hmax Hbm. pose proof (bm_grows _ _ _ _ _ _ _ _ Hbm) as G. pose proof (fa_file _ _ _ Hat) as Hf.
  split; [by eapply grows_at|apply G| |apply G| | |pose proof (bm_cost _ _ _ _ _ _ _ _ Hbm); lia].
  - rewrite splice_nil by done. by eapply bmapped_bytes.
  - intros n Hn Hof Hnf. apply (gr_same _ _ _ _ _ G); [done| |done]. intros ->.
    destruct (decide (ind (i_addrs i) = 0)) as [H0|H0]; [done|]. destruct Hof. split; [done|by left].
  - intros n [Hn0 [-> |(k' & Hk' & ->)]].
    + destruct (gr_ind _ _ _ _ _ G) as [Heq|Hfr]; [|by right]. left. rewrite Heq in *. split; [done|by left].
    + destruct (decide (k' = k)) as [-> |Hne]; [by rewrite (bm_block _ _ _ _ _ _ _ _ Hbm) in Hn0|].
      rewrite (bm_other _ _ _ _ _ _ _ _ Hbm _ Hk' Hne) in *. left. split; [done|]. right. by exists k'.
Qed.
(** what the loop of [writei] does with the [rem] bytes that are left: it
    writes them all, or stops when there is no free block *)
Record written_part (ib : Z) (τ : tx) (ip : nat) (i : inode) (l : list Z) (off : Z) (src : list Z) (rem : Z) (c : nat)
    (w : Z) (a' : list Z) (τ' : tx) : Prop := {
  wp_range : 0 ≤ w ≤ rem;
  wp_wrote : wrote ib τ ip i l (Z.to_nat off) (take (Z.to_nat w) src) c a' τ';
  wp_full : w < rem → no_free (tv τ');
  wp_stop : w < rem → w = 0 ∨ (off + w) mod BSIZE = 0
}.
Lemma twp_writei_loop ib ip n c : ∀ turns τ i l src off tot (Q : Z * Z → tx → Prop),
  file_at τ ip i → fbytes (tv τ) (i_addrs i) l → 0 ≤ off ≤ Z.of_nat (length l) → Z.of_nat (length l) ≤ MAXFILE * BSIZE →
  off + (n - tot) ≤ MAXFILE * BSIZE → 0 ≤ tot ≤ n → n - tot ≤ Z.of_nat (length src) →
  (tot < n → off mod BSIZE + (n - tot) ≤ Z.of_nat c * BSIZE) → (c ≤ turns)%nat →
  (cost ib (i_addrs i) (tl τ) + c + 4 ≤ NBUF)%nat →
  (∀ w a' τ', written_part ib τ ip i l off src (n - tot) c w a' τ' → Q (tot + w, off + w) τ') →
  twp (writei_loop (S fuel) (S turns) ip (SrcLocal src) off tot n) τ Q.
Proof using Hlo Hone IT.
  induction c as [|c IH]; intros turns τ i l src off tot Q Hat Hl Ho Hmax Hend Ht Hsrc Hc Hturns Hroom HQ; cbn [writei_loop].
  all: assert (Hdone : ∀ c', (tot < n → no_free (tv τ)) → written_part ib τ ip i l off src (n - tot) c' 0 (i_addrs i) τ)
    by (intros c' Hno; split; [lia| |intros; apply Hno; lia|by left]; pose proof (wrote_nil ib τ ip i l (Z.to_nat off) Hat ltac:(lia) Hl) as [? ? ? ? ? ? ?]; split; try done; lia).
  all: destruct (Z.ltb_spec tot n) as [Hlt|Hge]; [|apply twp_ret; rewrite <- (Z.add_0_r tot), <- (Z.add_0_r off); eapply HQ, Hdone; lia].
  { specialize (Hc Hlt). pose proof (Z.mod_pos_bound off BSIZE ltac:(done)). lia. }
  destruct turns as [|turns]; [lia|]. destruct (readi_bounds off (n - tot)) as (Hm1 & Hm2 & Hm3); [lia|].
  set (m := Z.min (n - tot) (BSIZE - off mod BSIZE)) in *.
  assert (Hidx : index_ok (off / BSIZE)) by (split; [apply Z.div_pos; [lia|done]|apply Z.div_lt_upper_bound; [done|lia]]).
  apply twp_bind. eapply (twp_bmap ib τ ip i); [done|done|unfold bmap_room; lia|]. intros b a1 τ1 Hbm.
  pose proof (bm_grows _ _ _ _ _ _ _ _ Hbm) as G. pose proof (grows_at _ _ _ _ _ Hat G) as Hat1. pose proof Hat1 as [Hi1 Hd1 [Hc11 Hc12] Hm1' Hf1].
  destruct (Z.eqb_spec b 0) as [-> |Hb0].
  { apply twp_ret. rewrite <- (Z.add_0_r tot), <- (Z.add_0_r off). apply (HQ 0 a1). split; [lia| |intros _; by apply (bm_fail _ _ _ _ _ _ _ _ Hbm)|by left].
    pose proof (wrote_failed ib τ ip i l (Z.to_nat off) _ a1 τ1 Hat Hl ltac:(lia) Hmax Hbm) as [? ? ? ? ? ? ?]. split; try done. lia. }
  assert (Hdb : data_block SB start (tv τ1) b) by (apply (fo_data _ _ _ Hf1); split; [done|right; exists (off / BSIZE); split; [done|symmetry; apply (bm_block _ _ _ _ _ _ _ _ Hbm)]]).
  pose proof Hdb as ([? ?] & _ & Hnr). pose proof (lo_size _ _ Hlo) as Hsz.
  assert (Hnl : ¬ in_log start b) by (intros Hlg; apply Hnr; right; by left).
  pose proof (bm_cost _ _ _ _ _ _ _ _ Hbm) as Hcost. rewrite decide_False in Hcost by done. pose proof (cost_length ib a1 (tl τ1)) as Hcl.
  apply twp_len. intros Hlen. apply twp_bind. eapply twp_rdt; [done|]. rewrite Hd1.
  apply twp_bind, twp_bread; [by rewrite Hc11|unfold block_ok; lia|rewrite Hc11, map_size_empty; lia|]. intros bp.
  assert (Hchunk : load_bytes src 0 (Z.to_nat m) = Some (take (Z.to_nat m) src)).
  { assert (Htl : length (take (Z.to_nat m) src) = Z.to_nat m) by (rewrite length_take; lia). rewrite <- Htl at 1. apply load_bytes_at.
    intros j x Hj. pose proof (lookup_lt_Some _ _ _ Hj). rewrite lookup_take_lt in Hj by lia.
    unfold byte_at, bytes_array. rewrite Z.add_0_l, (proj2 (Z.leb_le _ _)), Nat2Z.id by lia. done. }
  apply twp_bind, twp_bind. eapply twp_deref; [exact Hchunk|]. apply twp_ret. cbn [fst snd].
  assert (Htl : Z.of_nat (length (take (Z.to_nat m) src)) = m) by (rewrite length_take; lia).
  pose proof (Z.mod_pos_bound off BSIZE ltac:(done)) as Hmo.
  destruct (store_bytes_spec (take (Z.to_nat m) src) (tv τ1 b) (off mod BSIZE)) as (d & Hst & _); [apply array_mapped; [lia|]; rewrite Hlen; lia|].
  assert (Hdl : length d = Z.to_nat BSIZE) by (rewrite (store_bytes_length _ _ _ _ Hst); apply Hlen).
  apply twp_bind. eapply (twp_set_data b); [apply lookup_insert_eq|exact Hst|done|]. change (0 =? -1) with false. cbn iota.
  apply twp_bind. eapply (twp_log_write b); [apply lookup_insert_eq|unfold block_ok; lia|done|cbn; change LOGBLOCKS with NBUF; lia|].
  apply twp_bind. eapply (twp_brelse b); [apply lookup_insert_eq|cbn; set_solver|].
  match goal with |- twp _ ?t _ => assert (Hτ : t = put b d τ1) end.
  { apply tx_eq; [done|done|cbn; apply release_held; by rewrite Hc11|cbn; rewrite Hc12; set_solver|done]. }
  rewrite Hτ. pose proof (wrote_block ib τ ip i l off (take (Z.to_nat m) src) b a1 τ1 d Hat Hl Ho ltac:(lia) Hmax Hidx Hbm Hb0 Hst (Hlen b)) as W1.
  cbn [wsrc_add]. eapply (IH turns (put b d τ1) (i <| i_addrs := a1 |>) (splice l (Z.to_nat off) (take (Z.to_nat m) src)));
    [apply W1|apply W1|rewrite splice_length; lia|rewrite splice_length; lia|lia|lia|rewrite length_drop; lia|intros; specialize (Hc Hlt); lia|lia|
     pose proof (wr_cost _ _ _ _ _ _ _ _ _ _ W1); change (i_addrs (i <| i_addrs := a1 |>)) with a1; lia|].
  intros w a2 τ2 [Hw1 Hw2 Hw3 Hw4]. rewrite <- !Z.add_assoc. apply (HQ (m + w) a2). split; [lia| |intros; apply Hw3; lia|].
  2:{ intros Hlt'. right. rewrite Z.add_assoc. destruct Hw4 as [-> |]; [lia| |done]. rewrite Z.add_0_r. apply (readi_stops _ (n - tot)); lia. }
  rewrite Z2Nat.inj_add by lia. rewrite <- take_take_drop. change (S c) with (1 + c)%nat. eapply wrote_app; [done|lia|exact W1|].
  replace (Z.to_nat off + length (take (Z.to_nat m) src))%nat with (Z.to_nat (off + m)) by lia. exact Hw2.
Qed.

(** *** [iupdate] *)

Lemma IBLOCK_ok inum : 0 ≤ inum < sb_ninodes SB → inode_block SB (IBLOCK inum SB) ∧ block_ok (IBLOCK inum SB).
Proof using Hlo.
  intros Hn. split; [by exists inum|]. pose proof (lo_inodes _ _ Hlo) as (H1 & H2 & H3). pose proof (Z.div_pos inum IPB ltac:(lia) ltac:(done)).
  assert (inum / IPB ≤ sb_ninodes SB / IPB) by (apply Z.div_le_mono; [done|lia]). unfold IBLOCK, block_ok. rewrite u32_small; lia.
Qed.
Lemma twp_iupdate τ ip i (Q : unit → tx → Prop) : ti τ !! ip = Some i → i_dev i = dev → th τ = ∅ → td τ = ∅ → has_room 1 τ →
  0 ≤ i_inum i < sb_ninodes SB → length (i_addrs i) = S NDIRECT →
  (∀ d, length d = Z.to_nat BSIZE → dinode_is d i →
    (∀ j, ¬ dinode_off (i_inum i) ≤ j < dinode_off (i_inum i) + 64 → 0 ≤ j → d !! Z.to_nat j = tv τ (IBLOCK (i_inum i) SB) !! Z.to_nat j) →
    Q tt (put (IBLOCK (i_inum i) SB) d τ)) →
  twp (iupdate (S fuel) ip) τ Q.
Proof using Hlo Hone IT.
  intros Hi Hd Hh Htd Hroom Hn Ha HQ. destruct (IBLOCK_ok _ Hn) as [HI Hok]. set (ib := IBLOCK (i_inum i) SB) in *.
  destruct (dinode_range (i_inum i)) as [Ho1 Ho2]. set (off := dinode_off (i_inum i)) in *. unfold has_room in Hroom.
  apply twp_len. intros Hlen. apply twp_bind. eapply twp_ent; [done|]. apply twp_bind, twp_sb, twp_bind. rewrite Hd.
  apply twp_bread; [by rewrite Hh|done|lia|]. intros bp. apply twp_bind. eapply twp_ent; [done|]. fold off.
  destruct (dinode_stored (tv τ ib) i) as (d1 & d2 & d3 & d4 & d5 & d6 & S1 & S2 & S3 & S4 & S5 & S6 & L1 & L2 & L3 & L4 & L5 & L6 & HI6 & Hout);
    [by rewrite Hlen|done|]. fold off in S1, S2, S3, S4, S5, S6.
  apply twp_bind. eapply (twp_set_data_le 2 ib); [apply lookup_insert_eq|exact S1|done|].
  apply twp_bind. eapply (twp_set_data_le 2 ib); [apply lookup_insert_eq|cbn; rewrite setv_eq; exact S2|done|].
  apply twp_bind. eapply (twp_set_data_le 2 ib); [apply lookup_insert_eq|cbn; rewrite setv_eq; exact S3|done|].
  apply twp_bind. eapply (twp_set_data_le 2 ib); [apply lookup_insert_eq|cbn; rewrite setv_eq; exact S4|done|].
  apply twp_bind. eapply (twp_set_data_le 4 ib); [apply lookup_insert_eq|cbn; rewrite setv_eq; exact S5|done|].
  apply twp_bind. eapply (twp_set_data ib); [apply lookup_insert_eq|cbn; rewrite setv_eq; exact S6|done|].
  apply twp_bind. eapply (twp_log_write ib); [apply lookup_insert_eq|done|by apply (lo_inodes_log _ _ Hlo)|cbn; change LOGBLOCKS with NBUF; lia|].
  apply twp_eqv. eapply (twp_brelse ib); [apply lookup_insert_eq|cbn; set_solver|]. exists (put ib d6 τ). split; [|by apply HQ].
  split; [|split; [done|split; [|split; [|done]]]].
  - intros n. cbn. unfold setv. repeat case_decide; done.
  - cbn. symmetry. apply release_held. by rewrite Hh.
  - cbn. rewrite Htd. set_solver.
Qed.

(** *** [writei] as a whole *)

(** an inode that is in use and on the disk *)
Definition inode_ok (i : inode) : Prop := 0 ≤ i_inum i < sb_ninodes SB.
(** [writei] has written [bs] at [o], with [c] more blocks in the log *)
Record writei_post (τ : tx) (ip : nat) (i : inode) (l : list Z) (o : nat) (bs : list Z) (c : nat) (i' : inode) (τ' : tx) : Prop := {
  wi_same : i' = i <| i_size := i_size i' |> <| i_addrs := i_addrs i' |>;
  wi_inodes : ti τ' = <[ip := i']> (ti τ);
  wi_at : file_at τ' ip i';
  wi_rep : file_rep (tv τ') i' (splice l o bs);
  wi_disk : dinode_is (tv τ' (IBLOCK (i_inum i) SB)) i';
  wi_data n : data_block SB start (tv τ) n → data_block SB start (tv τ') n;
  wi_frame n : n ≠ sb_bmapstart SB → n ≠ IBLOCK (i_inum i) SB → ¬ of_file (tv τ) (i_addrs i) n → ¬ free_in (tv τ) n → tv τ' n = tv τ n;
  wi_of n : of_file (tv τ') (i_addrs i') n → of_file (tv τ) (i_addrs i) n ∨ free_in (tv τ) n;
  wi_dinodes j : 0 ≤ j → ¬ dinode_off (i_inum i) ≤ j < dinode_off (i_inum i) + 64 →
    tv τ' (IBLOCK (i_inum i) SB) !! Z.to_nat j = tv τ (IBLOCK (i_inum i) SB) !! Z.to_nat j;
  wi_log : (cost (IBLOCK (i_inum i) SB) (i_addrs i') (tl τ') ≤ cost (IBLOCK (i_inum i) SB) (i_addrs i) (tl τ) + c)%nat
}.
Lemma inode_block_data v inum n : 0 ≤ inum < sb_ninodes SB → data_block SB start v n → n ≠ IBLOCK inum SB.
Proof. intros Hi (_ & _ & Hr) ->. apply Hr. right. right. right. by exists inum. Qed.
Lemma inode_block_map inum : 0 ≤ inum < sb_ninodes SB → ¬ map_block SB (IBLOCK inum SB).
Proof using Hlo. intros Hi. apply (lo_inodes_map _ _ Hlo). by exists inum. Qed.
(** writing the block of an inode leaves the files alone *)
Lemma file_at_inode_block τ ip i inum d : 0 ≤ inum < sb_ninodes SB → file_at τ ip i → file_at (put (IBLOCK inum SB) d τ) ip i ∧
  (∀ n, of_file (setv (IBLOCK inum SB) d (tv τ)) (i_addrs i) n → of_file (tv τ) (i_addrs i) n) ∧
  ∀ l, fbytes (tv τ) (i_addrs i) l → Z.of_nat (length l) ≤ MAXFILE * BSIZE → fbytes (setv (IBLOCK inum SB) d (tv τ)) (i_addrs i) l.
Proof using Hlo.
  intros Hn [Hi Hd Hc Hm Hf].
  assert (Hdata : ∀ n, data_block SB start (tv τ) n → data_block SB start (setv (IBLOCK inum SB) d (tv τ)) n).
  { intros n (Hr & Hb & Hnr). split; [done|split; [|done]]. rewrite bit_other; [done|done|by apply inode_block_map]. }
  destruct (file_ok_same (data_block SB start) (data_block SB start) (tv τ) (i_addrs i) (setv (IBLOCK inum SB) d (tv τ))) as [Hf' Hfb]; [|done|done|].
  { intros H0. apply setv_ne. eapply inode_block_data; [done|]. apply (fo_data _ _ _ Hf). split; [done|by left]. }
  split; [|split].
  - split; [done|done|done| |done]. intros n Hr Hres. cbn. rewrite bit_other; [by apply Hm|done|by apply inode_block_map].
  - intros n [H0 Hof]. split; [done|]. destruct Hof as [?|(k & Hk & ->)]; [by left|]. right. exists k. by rewrite Hfb.
  - intros l Hl Hmax k x Hk. pose proof (lookup_lt_Some _ _ _ Hk). apply Hl, fbyte_block in Hk as [Hne Hx]. unfold fbyte. rewrite Hfb, (proj2 (Z.eqb_neq _ _)) by done.
    rewrite setv_ne; [done|]. eapply inode_block_data; [done|]. apply (fo_data _ _ _ Hf). split; [done|]. right. eexists. split; [|done].
    split; [apply Z.div_pos; [lia|done]|apply Z.div_lt_upper_bound; [done|lia]].
Qed.
Lemma twp_writei τ ip i l src off n c (Q : Z → tx → Prop) : file_at τ ip i → file_rep (tv τ) i l → inode_ok i →
  0 ≤ off ≤ Z.of_nat (length l) → 0 ≤ n ≤ Z.of_nat (length src) → off + n ≤ MAXFILE * BSIZE →
  off mod BSIZE + n ≤ Z.of_nat c * BSIZE → Z.of_nat c ≤ n / BSIZE + 2 →
  (cost (IBLOCK (i_inum i) SB) (i_addrs i) (tl τ) + c + 4 ≤ NBUF)%nat →
  (∀ w i' τ', 0 ≤ w ≤ n → (w < n → no_free (tv τ') ∧ (w = 0 ∨ (off + w) mod BSIZE = 0)) → writei_post τ ip i l (Z.to_nat off) (take (Z.to_nat w) src) c i' τ' → Q w τ') →
  twp (writei (S fuel) ip (SrcLocal src) off n) τ Q.
Proof using Hlo Hone IT.
  intros Hat Hr Hin Ho Hn Hend Hc Hc2 Hroom HQ. pose proof Hat as [Hi Hd [Hc1 Hc2'] Hm Hf].
  assert (Hbig : MAXFILE * BSIZE < 2 ^ 31) by done.
  apply twp_bind. eapply twp_rdt; [done|]. rewrite (fr_size _ _ _ Hr), u32_small by lia.
  rewrite (proj2 (Z.ltb_ge _ _)), (proj2 (Z.ltb_ge _ _)) by lia. cbn [orb]. rewrite (proj2 (Z.ltb_ge _ _)) by lia.
  apply twp_bind. eapply (twp_writei_loop (IBLOCK (i_inum i) SB) ip n c _ τ i l src off 0);
    [done|exact (fr_bytes _ _ _ Hr)|done|exact (fr_max _ _ _ Hr)|lia|lia|lia|intros; lia|unfold turns; lia|lia|].
  intros w a' τ1 [Hw1 W Hw3 Hw4]. rewrite Z.sub_0_r in *. rewrite Z.add_0_l. destruct W as [A1 I1 B1 D1 S1 O1 C1]. pose proof A1 as [Ai Ad [Ah At] Am Af].
  set (i1 := i <| i_addrs := a' |>) in *. apply twp_bind. eapply twp_rdt; [exact Ai|]. cbn [fst snd]. change (i_size i1) with (i_size i). rewrite (fr_size _ _ _ Hr).
  set (i2 := i1 <| i_size := Z.max (i_size i) (off + w) |>). set (τ2 := τ1 <| ti ::= <[ip := i2]> |>).
  assert (Hlt : (ip < length (ti τ1))%nat) by (by eapply lookup_lt_Some).
  assert (Hnext : twp (iupdate (S fuel) ip ;; ret (s32 w)) τ2 Q).
  { assert (A2 : file_at τ2 ip i2) by (split; [apply list_lookup_insert_eq; done|done..]).
    pose proof (cost_length (IBLOCK (i_inum i) SB) a' (tl τ1)) as Hcl.
    apply twp_bind, (twp_iupdate τ2 ip i2); [apply A2|done|done|done|unfold has_room; cbn; rewrite Ah, map_size_empty; change (i_addrs i2) with a' in *; lia|done|apply Af|].
    intros d Hdl Hdi Hout. apply twp_ret. rewrite s32_small by lia. change (i_inum i2) with (i_inum i) in *.
    destruct (file_at_inode_block τ2 ip i2 (i_inum i) d Hin A2) as (A3 & O3 & B3).
    assert (Hsl : Z.of_nat (length (splice l (Z.to_nat off) (take (Z.to_nat w) src))) = Z.max (i_size i) (off + w)).
    { rewrite splice_length, length_take, (fr_size _ _ _ Hr) by lia. lia. }
    apply (HQ w i2); [lia|intros Hwn|].
    - split; [|by apply Hw4]. intros b Hb. cbn. rewrite bit_other by (done || by apply inode_block_map). by apply Hw3.
    - pose proof (fr_max _ _ _ Hr). pose proof (fr_size _ _ _ Hr) as Hfs. split; cbn.
      + done.
      + rewrite I1. by rewrite list_insert_insert_eq.
      + exact A3.
      + split; [by rewrite Hsl|lia|]. apply (B3 _ B1). lia.
      + by rewrite setv_eq.
      + intros m Hm'. destruct (D1 m Hm') as (Hr1 & Hb1 & Hn1). split; [done|split; [|done]]. rewrite bit_other; [done|done|by apply inode_block_map].
      + intros m H1 H2 H3 H4. rewrite setv_ne by done. by apply S1.
      + intros m Hof. by apply O1, O3.
      + intros j H0 Hj. rewrite setv_eq, Hout by done. cbn. rewrite S1; [done|..].
        * intros Heq. apply (inode_block_map (i_inum i) Hin). exists 0. pose proof (lo_size _ _ Hlo). rewrite BBLOCK_one by lia. split; [lia|done].
        * intros Hof. by destruct (inode_block_data (tv τ) (i_inum i) _ Hin (fo_data _ _ _ Hf _ Hof)).
        * intros [Hr1 Hb1]. rewrite (Hm _ Hr1) in Hb1; [done|]. right. right. right. by exists (i_inum i).
      + pose proof (cost_absorb_counted (IBLOCK (i_inum i) SB) a' (tl τ1) (IBLOCK (i_inum i) SB) ltac:(right; by left)). lia. }
  apply twp_bind. destruct (Z.ltb_spec (Z.of_nat (length l)) (off + w)) as [Hs|Hs]; cbn [when].
  - eapply twp_wrt; [exact Ai|]. rewrite <- (fr_size _ _ _ Hr) in Hs. unfold τ2, i2 in Hnext. by rewrite Z.max_r in Hnext by lia.
  - apply twp_ret. assert (Hτ : τ2 = τ1); [|by rewrite <- Hτ]. apply tx_eq; [done|done|done|done|]. cbn. apply list_insert_id.
    unfold i2. rewrite <- (fr_size _ _ _ Hr) in Hs. rewrite Z.max_l by lia. rewrite Ai. unfold i1. by destruct i.
Qed.

(** *** Writes that are refused *)

Lemma twp_writei_bad τ ip i l src off n (Q : Z → tx → Prop) : file_at τ ip i → file_rep (tv τ) i l → 0 ≤ off → 0 ≤ n → off + n < 2 ^ 32 →
  Z.of_nat (length l) < off ∨ MAXFILE * BSIZE < off + n → Q (-1) τ → twp (writei (S fuel) ip src off n) τ Q.
Proof.
  intros Hat Hr Ho Hn Hov Hbad HQ. apply twp_bind. eapply twp_rdt; [apply Hat|]. rewrite (fr_size _ _ _ Hr), u32_small by lia.
  rewrite (proj2 (Z.ltb_ge (off + n) off)), orb_false_r by lia. destruct (Z.ltb_spec (Z.of_nat (length l)) off); [by apply twp_ret|].
  rewrite (proj2 (Z.ltb_lt _ _)) by lia. by apply twp_ret.
Qed.

(** *** Sequences of reads and writes *)

Inductive fop := Read (off n : Z) | Write (off : Z) (src : list Z).
Definition do_fop (ip : nat) (o : fop) : KM (Z * list Z) :=
  match o with
  | Read off n => readi (S fuel) ip DstLocal off n
  | Write off src => let* r := writei (S fuel) ip (SrcLocal src) off (Z.of_nat (length src)) in ret (r, [])
  end.
Fixpoint do_fops (ip : nat) (ops : list fop) : KM (list (Z * list Z)) :=
  match ops with
  | [] => ret []
  | o :: ops => let* r := do_fop ip o in let* rs := do_fops ip ops in ret (r :: rs)
  end.
Definition fop_ok (o : fop) : Prop :=
  match o with
  | Read off n => 0 ≤ off ∧ 0 ≤ n ∧ off + n < 2 ^ 31
  | Write off src => 0 ≤ off ∧ off + Z.of_nat (length src) < 2 ^ 31
  end.
(** the blocks of the file a write touches *)
Definition fop_blocks (o : fop) : nat :=
  match o with
  | Read _ _ => 0
  | Write off src => Z.to_nat ((off mod BSIZE + Z.of_nat (length src) + BSIZE - 1) / BSIZE)
  end.
(** the same operations on a list of bytes; [full] says that a write may be
    cut short *)
Definition list_op (full : Prop) (o : fop) (l : list Z) (r : Z * list Z) (l' : list Z) : Prop :=
  match o with
  | Read off n => r = (Z.of_nat (length (file_read l off n)), file_read l off n) ∧ l' = l
  | Write off src =>
      if decide (Z.of_nat (length l) < off ∨ MAXFILE * BSIZE < off + Z.of_nat (length src)) then r = (-1, []) ∧ l' = l
      else ∃ w : nat, (w ≤ length src)%nat ∧ (w < length src → full)%nat ∧ r = (Z.of_nat w, []) ∧ l' = splice l (Z.to_nat off) (take w src)
  end.
Fixpoint list_ops (full : Prop) (ops : list fop) (l : list Z) (rs : list (Z * list Z)) (l' : list Z) : Prop :=
  match ops, rs with
  | [], [] => l' = l
  | o :: ops, r :: rs => ∃ l1, list_op full o l r l1 ∧ list_ops full ops l1 rs l'
  | _, _ => False
  end.
(** what changes on the disk, with the file of inode [i] turned into that of
    [i'] and [c] more blocks in the log: only the free map, the inode's block and
    blocks that belonged to the file or were free *)
Record fchange (τ : tx) (i : inode) (c : nat) (i' : inode) (τ' : tx) : Prop := {
  fc_inum : i_inum i' = i_inum i;
  fc_map : map_ok SB start (tv τ');
  fc_data n : data_block SB start (tv τ) n → data_block SB start (tv τ') n;
  fc_frame n : n ≠ sb_bmapstart SB → n ≠ IBLOCK (i_inum i) SB → ¬ of_file (tv τ) (i_addrs i) n → ¬ free_in (tv τ) n → tv τ' n = tv τ n;
  fc_of n : of_file (tv τ') (i_addrs i') n → of_file (tv τ) (i_addrs i) n ∨ free_in (tv τ) n;
  fc_disk : dinode_is (tv τ (IBLOCK (i_inum i) SB)) i → dinode_is (tv τ' (IBLOCK (i_inum i) SB)) i';
  fc_log : (cost (IBLOCK (i_inum i) SB) (i_addrs i') (tl τ') ≤ cost (IBLOCK (i_inum i) SB) (i_addrs i) (tl τ) + c)%nat
}.
Lemma fchange_refl τ i c : map_ok SB start (tv τ) → fchange τ i c i τ.
Proof. intros Hm. split; [done..|by left|done|lia]. Qed.
Lemma fchange_used τ i c i' τ' n : fchange τ i c i' τ' → ¬ free_in (tv τ) n → ¬ free_in (tv τ') n.
Proof.
  intros Hp Hn [Hr Hf]. apply Hn. split; [done|]. destruct (bit SB (tv τ) n) eqn:Hbit; [|done]. exfalso.
  assert (Hres : ¬ reserved SB start n) by (intros Hres; by rewrite (fc_map _ _ _ _ _ Hp n Hr Hres) in Hf).
  destruct (fc_data _ _ _ _ _ Hp n) as (_ & Hb & _); [by split; [exact Hr|split]|congruence].
Qed.
Lemma fchange_full τ i c i' τ' : fchange τ i c i' τ' → no_free (tv τ) → no_free (tv τ').
Proof.
  intros Hp Hf n Hn. destruct (bit SB (tv τ') n) eqn:Hb; [done|]. destruct (fchange_used _ _ _ _ _ n Hp); [|by split].
  intros [_ H]. by rewrite Hf in H.
Qed.
Lemma fchange_trans τ i c1 i1 τ1 c2 i2 τ2 : fchange τ i c1 i1 τ1 → fchange τ1 i1 c2 i2 τ2 → fchange τ i (c1 + c2) i2 τ2.
Proof.
  intros P1 P2. pose proof (λ n, fchange_used _ _ _ _ _ n P1) as Hused.
  destruct P1 as [E1 A1 D1 F1 O1 K1 L1], P2 as [E2 A2 D2 F2 O2 K2 L2]. rewrite E1 in *.
  split; [done|done|by eauto| | |by auto|lia].
  - intros n H1 H2 H3 H4. rewrite F2; [by apply F1|done|done|intros [?|?]%O1; done|by apply Hused].
  - intros n [H|H]%O2; [by apply O1|]. right. destruct (decide (0 ≤ n < sb_size SB ∧ bit SB (tv τ) n = false)); [done|]. by destruct (Hused n).
Qed.
Lemma writei_change τ ip i l o bs c i' τ' : writei_post τ ip i l o bs c i' τ' → fchange τ i c i' τ'.
Proof. intros [W1 W2 W3 W4 W5 W6 W7 W8 W9 W10]. split; [by rewrite W1|by apply W3|done..]. Qed.
(** what the operations leave *)
Record fops_post (τ : tx) (ip : nat) (i : inode) (c : nat) (i' : inode) (τ' : tx) : Prop := {
  fp_same : i' = i <| i_size := i_size i' |> <| i_addrs := i_addrs i' |>;
  fp_inodes : ti τ' = <[ip := i']> (ti τ);
  fp_at : file_at τ' ip i';
  fp_change : fchange τ i c i' τ'
}.
Lemma fops_refl τ ip i c : file_at τ ip i → fops_post τ ip i c i τ.
Proof. intros Hat. split; [by destruct i|symmetry; apply list_insert_id, Hat|done|apply fchange_refl, Hat]. Qed.
Lemma fops_trans τ ip i c1 i1 τ1 c2 i2 τ2 : fops_post τ ip i c1 i1 τ1 → fops_post τ1 ip i1 c2 i2 τ2 → fops_post τ ip i (c1 + c2) i2 τ2.
Proof.
  intros [E1 I1 A1 C1] [E2 I2 A2 C2].
  split; [rewrite E2, E1; by destruct i|rewrite I2, I1; by rewrite list_insert_insert_eq|done|by eapply fchange_trans].
Qed.

Lemma twp_do_fop τ ip i l o (Q : Z * list Z → tx → Prop) : file_at τ ip i → file_rep (tv τ) i l → inode_ok i → fop_ok o →
  (cost (IBLOCK (i_inum i) SB) (i_addrs i) (tl τ) + fop_blocks o + 4 ≤ NBUF)%nat →
  (∀ r l' i' τ', list_op (no_free (tv τ')) o l r l' → file_rep (tv τ') i' l' → fops_post τ ip i (fop_blocks o) i' τ' → Q r τ') →
  twp (do_fop ip o) τ Q.
Proof using Hlo Hone IT.
  intros Hat Hr Hin Hok Hroom HQ. pose proof (fr_max _ _ _ Hr) as Hmax. destruct o as [off n|off src]; cbn [do_fop].
  - destruct Hok as (H1 & H2 & H3). pose proof (cost_length (IBLOCK (i_inum i) SB) (i_addrs i) (tl τ)) as Hl. apply (twp_readi τ ip i l); [done..| |done|done|done|].
    + unfold has_room. rewrite (proj1 (fa_clean _ _ _ Hat)), map_size_empty. lia.
    + eapply (HQ _ l i); [by split|done|by apply fops_refl].
  - destruct Hok as [H1 H2]. apply twp_bind. set (n := Z.of_nat (length src)) in *.
    destruct (decide (Z.of_nat (length l) < off ∨ MAXFILE * BSIZE < off + n)) as [Hbad|Hgood].
    + eapply twp_writei_bad; [done..|lia|lia|done|]. apply twp_ret. apply (HQ _ l i); [cbn; by rewrite decide_True|done|by apply fops_refl].
    + pose proof (Z.mod_pos_bound off BSIZE ltac:(done)) as Hb. set (x := off mod BSIZE) in *. cbn [fop_blocks] in *. fold n x in Hroom, HQ.
      pose proof (Z.div_mod (x + n + BSIZE - 1) BSIZE ltac:(done)) as Hd. pose proof (Z.mod_pos_bound (x + n + BSIZE - 1) BSIZE ltac:(done)) as Hb2.
      pose proof (Z.div_mod n BSIZE ltac:(done)) as Hd3. pose proof (Z.mod_pos_bound n BSIZE ltac:(done)) as Hb3.
      assert (Hc0 : 0 ≤ (x + n + BSIZE - 1) / BSIZE) by (apply Z.div_pos; [lia|done]).
      set (c := Z.to_nat ((x + n + BSIZE - 1) / BSIZE)) in *. assert (Hc : Z.of_nat c = (x + n + BSIZE - 1) / BSIZE) by (by apply Z2Nat.id).
      change BSIZE with 1024 in *.
      apply (twp_writei τ ip i l src off n c); [done..|lia|lia|change BSIZE with 1024; lia|change BSIZE with 1024; fold x; lia|change BSIZE with 1024; lia|done|].
      intros w i' τ' Hw Hfull HP. apply twp_ret. eapply (HQ _ _ i'); [|exact (wi_rep _ _ _ _ _ _ _ _ _ HP)|pose proof (writei_change _ _ _ _ _ _ _ _ _ HP); by destruct HP].
      cbn. rewrite decide_False by done. exists (Z.to_nat w). split; [lia|split; [intros; apply Hfull; lia|split; [f_equal; lia|done]]].
Qed.
Lemma list_op_mono (P P' : Prop) o l r l' : (P → P') → list_op P o l r l' → list_op P' o l r l'.
Proof. intros HP. destruct o; cbn; [done|]. case_decide; [done|]. intros (w & H1 & H2 & H3). exists w. by eauto. Qed.
Definition blocks_of (ops : list fop) : nat := sum_list (fop_blocks <$> ops).
Lemma twp_do_fops ip ops : ∀ τ i l (Q : list (Z * list Z) → tx → Prop), file_at τ ip i → file_rep (tv τ) i l → inode_ok i → Forall fop_ok ops →
  (cost (IBLOCK (i_inum i) SB) (i_addrs i) (tl τ) + blocks_of ops + 4 ≤ NBUF)%nat →
  (∀ rs l' i' τ', list_ops (no_free (tv τ')) ops l rs l' → file_rep (tv τ') i' l' → fops_post τ ip i (blocks_of ops) i' τ' → Q rs τ') →
  twp (do_fops ip ops) τ Q.
Proof using Hlo Hone IT.
  induction ops as [|o ops IH]; intros τ i l Q Hat Hr Hin Hops Hroom HQ; cbn [do_fops].
  { apply twp_ret. by apply (HQ _ l i); [|done|apply fops_refl]. }
  apply Forall_cons in Hops as [Ho Hops]. change (blocks_of (o :: ops)) with (fop_blocks o + blocks_of ops)%nat in *.
  apply twp_bind, (twp_do_fop τ ip i l); [done..|lia|]. intros r l1 i1 τ1 Hop Hr1 P1.
  assert (Hn : i_inum i1 = i_inum i) by (by rewrite (fp_same _ _ _ _ _ _ P1)). pose proof (fc_log _ _ _ _ _ (fp_change _ _ _ _ _ _ P1)) as Hlog.
  apply twp_bind, (IH τ1 i1 l1); [by apply P1|done|unfold inode_ok; by rewrite Hn|done|rewrite Hn; lia|].
  intros rs l2 i2 τ2 Hops2 Hr2 P2. apply twp_ret. apply (HQ _ l2 i2); [|done|by eapply fops_trans].
  exists l1. split; [|done]. eapply list_op_mono; [|exact Hop]. eapply fchange_full, (fp_change _ _ _ _ _ _ P2).
Qed.

End ops.

(** ** An example *)

Section example.
#[local] Existing Instance two_pages.
Import ExampleDisk.
Lemma file_at0 : file_at tx0 0 dir0.
Proof.
  split; [done|done|done|exact map_ok0|]. assert (Hz : ∀ k, index_ok k → fblock (tv tx0) (i_addrs dir0) k = 0).
  { intros k [Hk _]. unfold fblock. change (ind (i_addrs dir0) =? 0) with true. cbn iota. destruct (k <? Z.of_nat NDIRECT); [|done].
    change (i_addrs dir0) with (replicate (S NDIRECT) 0). destruct (replicate (S NDIRECT) 0 !! Z.to_nat k) eqn:Hl; [|done].
    apply lookup_replicate in Hl as [-> _]. done. }
  split; [done|..].
  - intros n [H0 [-> |(k & Hk & ->)]]; [done|]. by rewrite Hz in H0.
  - intros k k' Hk _ H. by rewrite Hz in H.
  - intros k Hk H. by rewrite Hz in H.
Qed.
Lemma file_rep0 : file_rep (tv tx0) dir0 [].
Proof. split; [done|by compute|done]. Qed.
Definition ops0 : list fop := [Write 0 [104; 105]; Write 2 [33]; Read 0 10; Write 9 [1]; Read 1 1].
End example.
