(* ===== verification/Truncate.v ===== *)
(** * Truncating a file

    [itrunc] of [kernel/fs.c] gives the blocks of a file back to the free map:
    the direct blocks, those the indirect block lists and the indirect block
    itself.  The file is then empty, on the disk too. *)

From S2P Require Import Prelude Fsdata Kstate Spinlock Runqueue Sched SchedInv Bytes Layout Kalloc Vm Printf Proc.
From S2P Require Import Quiet Keeps Sleeplock Bio Log FsLogic Ring Cache Block Journal Transact TxLogic CrashSafety Fs FreeMap DiskExample FileData.
#[local] Open Scope Z_scope.

Lemma absorb_again n l : absorb n (absorb n l) = absorb n l.
Proof. unfold absorb at 1. rewrite decide_True; [done|]. unfold absorb. case_decide; set_solver. Qed.

(** ** The blocks of a file, in the order in which they are freed *)

Section blocks.
Context (v : Z → list Z) (a : list Z).
Definition blocks (k : nat) : list Z := filter (λ b, b ≠ 0) ((λ j, fblock v a (Z.of_nat j)) <$> seq 0 k).
Lemma blocks_S k : blocks (S k) = blocks k ++ (if decide (fblock v a (Z.of_nat k) = 0) then [] else [fblock v a (Z.of_nat k)]).
Proof.
  unfold blocks. rewrite seq_S, fmap_app, filter_app. f_equal. cbn [fmap list_fmap]. rewrite filter_cons, filter_nil.
  repeat case_decide; done.
Qed.
Lemma elem_of_blocks k b : b ∈ blocks k ↔ b ≠ 0 ∧ ∃ j, 0 ≤ j < Z.of_nat k ∧ b = fblock v a j.
Proof.
  unfold blocks. rewrite list_elem_of_filter, list_elem_of_fmap. apply and_iff_compat_l. split.
  - intros (j & -> & Hj%elem_of_seq). exists (Z.of_nat j). split; [lia|done].
  - intros (j & Hj & ->). exists (Z.to_nat j). rewrite Z2Nat.id by lia. split; [done|]. apply elem_of_seq. lia.
Qed.
(** without an indirect block there are only direct ones *)
Lemma blocks_direct k : ind a = 0 → (NDIRECT ≤ k)%nat → blocks k = blocks NDIRECT.
Proof.
  intros H0 Hk. induction Hk as [|k Hk IH]; [done|]. rewrite blocks_S, IH. rewrite decide_True; [apply app_nil_r|].
  unfold fblock. rewrite (proj2 (Z.ltb_ge _ _)) by lia. by rewrite H0.
Qed.
Definition all_blocks : list Z := blocks (Z.to_nat MAXFILE) ++ (if decide (ind a = 0) then [] else [ind a]).
Lemma elem_of_all_blocks b : b ∈ all_blocks ↔ of_file v a b.
Proof.
  unfold all_blocks, of_file. rewrite elem_of_app, elem_of_blocks. change (Z.of_nat (Z.to_nat MAXFILE)) with MAXFILE. unfold index_ok.
  case_decide; set_solver.
Qed.
End blocks.

Section ops.
Context {TE : TxEnv} {IT : InTx} (fuel : nat).
#[local] Abbreviation dev := te_dev.
#[local] Abbreviation start := te_start.
#[local] Abbreviation SB := (sb te_rest).
#[local] Abbreviation bm := (sb_bmapstart SB).
Context (Hlo : layout_ok SB start) (Hone : sb_size SB ≤ BPB).

Lemma twp_for_each {X} (l : list X) (body : X → KM unit) (Inv : list X → tx → Prop) τ (Q : unit → tx → Prop) : Inv [] τ →
  (∀ dn x rest τ', l = dn ++ x :: rest → Inv dn τ' → twp (body x) τ' (λ _, Inv (dn ++ [x]))) →
  (∀ τ', Inv l τ' → Q tt τ') → twp (for_each l body) τ Q.
Proof.
  intros H0 Hb HQ. assert (Hgen : ∀ rest dn τ', l = dn ++ rest → Inv dn τ' → twp (for_each rest body) τ' Q); [|by apply (Hgen l [])].
  induction rest as [|x rest IH]; intros dn τ' Hl HI; cbn [for_each].
  { apply twp_ret, HQ. by rewrite app_nil_r in Hl; subst l. }
  apply twp_bind. eapply twp_mono; [|by apply (Hb dn x rest)]. intros [] τ1 H1. apply (IH (dn ++ [x])); [|done]. by rewrite <- app_assoc.
Qed.

(** ** Freeing blocks *)

(** the blocks [fs] of [v] are free in [v'] *)
Record frees (v : Z → list Z) (fs : list Z) (v' : Z → list Z) : Prop := {
  fs_bits n : 0 ≤ n < sb_size SB → bit SB v' n = negb (bool_decide (n ∈ fs)) && bit SB v n;
  fs_same n : n ≠ bm → v' n = v n
}.
Lemma frees_nil v : frees v [] v.
Proof. split; [|done]. intros n _. by rewrite bool_decide_false by apply not_elem_of_nil. Qed.
Lemma frees_snoc v fs v' b : (∀ n, length (v' n) = Z.to_nat BSIZE) → 0 ≤ b < sb_size SB →
  frees v fs v' → frees v (fs ++ [b]) (unmark SB b v').
Proof using Hlo Hone IT.
  intros Hlen Hb [Hbits Hsame]. split.
  - intros n Hn. rewrite (bit_unmark SB start Hlo) by done. rewrite Hbits, andb_assoc by done. f_equal. rewrite <- negb_orb. f_equal.
    apply eq_true_iff_eq. rewrite orb_true_iff, Z.eqb_eq, !bool_decide_eq_true. set_solver.
  - intros n Hn. unfold unmark, set_byte. rewrite setv_ne; [by apply Hsame|]. by rewrite BBLOCK_one.
Qed.
(** the log has at most the block of the map in addition *)
Definition map_logged (l l' : list Z) : Prop := l' = l ∨ l' = absorb bm l.
Lemma map_logged_absorb l l' : map_logged l l' → map_logged l (absorb bm l').
Proof. intros [-> | ->]; [by right|]. right. apply absorb_again. Qed.
Lemma map_logged_length l l' : map_logged l l' → (length l' ≤ length l + 1)%nat.
Proof. intros [-> | ->]; [lia|]. pose proof (absorb_length bm l). lia. Qed.

(** a block of [v] that is not among [fs] yet is freed *)
Lemma twp_bfree_next v fs l b τ (Q : unit → tx → Prop) : data_block SB start v b → b ∉ fs → frees v fs (tv τ) → map_logged l (tl τ) →
  th τ !! bm = None → td τ = ∅ → has_room 1 τ →
  (∀ v' l', frees v (fs ++ [b]) v' → map_logged l l' → Q tt (τ <| tv := v' |> <| tl := l' |>)) → twp (bfree (S fuel) dev b) τ Q.
Proof using Hlo Hone IT.
  intros (Hb & Hbit & _) Hnew HF Hl Hh Hd Hroom HQ. apply twp_len. intros Hlen.
  apply (twp_bfree fuel Hlo); [done| |by rewrite BBLOCK_one|by rewrite Hd|done|].
  { rewrite (fs_bits _ _ _ HF) by done. by rewrite bool_decide_false. }
  rewrite BBLOCK_one by done. eapply settle; [apply HQ; [by apply frees_snoc|by apply map_logged_absorb]|done..].
Qed.

Section file.
Context (v : Z → list Z) (a : list Z) (Hf : file_ok (data_block SB start) v a).
Lemma block_data k : index_ok k → fblock v a k ≠ 0 → data_block SB start v (fblock v a k).
Proof using Hf. intros Hk H0. apply (fo_data _ _ _ Hf). split; [done|]. right. by exists k. Qed.
Lemma block_new k : (k < Z.to_nat MAXFILE)%nat → fblock v a (Z.of_nat k) ≠ 0 → fblock v a (Z.of_nat k) ∉ blocks v a k.
Proof using Hf.
  intros Hk H0 (_ & j & Hj & Heq)%elem_of_blocks. apply (fo_inj _ _ _ Hf) in Heq; [lia|unfold index_ok; lia|unfold index_ok; lia|done].
Qed.
Lemma ind_new k : (k ≤ Z.to_nat MAXFILE)%nat → ind a ∉ blocks v a k.
Proof using Hf.
  intros Hk (H0 & j & Hj & Heq)%elem_of_blocks. apply (fo_not_ind _ _ _ Hf j); [unfold index_ok; lia|congruence|done].
Qed.
End file.

(** ** [itrunc] *)

(** the first [k] blocks of the file of inode [i] are freed *)
Record truncating (τ : tx) (ip : nat) (i : inode) (k : nat) (τ' : tx) : Prop := {
  tr_inodes : ti τ' = <[ip := i <| i_addrs := replicate (k `min` NDIRECT) 0 ++ drop (k `min` NDIRECT) (i_addrs i) |>]> (ti τ);
  tr_frees : frees (tv τ) (blocks (tv τ) (i_addrs i) k) (tv τ');
  tr_log : map_logged (tl τ) (tl τ');
  tr_held : th τ' = th τ ∧ td τ' = td τ
}.
Lemma truncating_inode τ ip i k τ' : ti τ !! ip = Some i → truncating τ ip i k τ' →
  ti τ' !! ip = Some (i <| i_addrs := replicate (k `min` NDIRECT) 0 ++ drop (k `min` NDIRECT) (i_addrs i) |>).
Proof. intros Hi Ht. rewrite (tr_inodes _ _ _ _ _ Ht). apply list_lookup_insert_eq. by eapply lookup_lt_Some. Qed.
Lemma clear_next (a : list Z) k x : a !! k = Some x → <[k := 0]> (replicate k 0 ++ drop k a) = replicate (S k) 0 ++ drop (S k) a.
Proof.
  intros Hk. rewrite (drop_S _ _ _ Hk), insert_app_r_alt, length_replicate, Nat.sub_diag by (by rewrite length_replicate).
  cbn [insert list_insert]. by rewrite replicate_S_end, <- app_assoc.
Qed.
Lemma cleared_next (a : list Z) k : (replicate k 0 ++ drop k a) !! k = a !! k.
Proof. rewrite lookup_app_r, length_replicate, Nat.sub_diag, lookup_drop, Nat.add_0_r by (by rewrite length_replicate). done. Qed.

(** the direct blocks *)
Lemma twp_itrunc_direct τ ip i k : file_at τ ip i → has_room 2 τ → (k < NDIRECT)%nat → ∀ τ', truncating τ ip i k τ' →
  twp (let* addr := addr_at ip k in
       when (negb (addr =? 0)) (
         let* dev := rdt inodes ip i_dev in
         bfree (S fuel) dev addr ;;
         set_addr ip k 0)) τ' (λ _, truncating τ ip i (S k)).
Proof using Hlo Hone IT.
  intros Hat Hroom Hk τ' Ht. pose proof Hat as [Hi Hd [Hc1 Hc2] Hm Hf]. pose proof (truncating_inode _ _ _ _ _ Hi Ht) as Hi'.
  destruct Ht as [T1 T2 T3 [T4 T5]]. rewrite Nat.min_l in * by lia.
  destruct (lookup_lt_is_Some_2 (i_addrs i) k) as [x Hx]; [rewrite (fo_len _ _ _ Hf); lia|].
  assert (Hfb : fblock (tv τ) (i_addrs i) (Z.of_nat k) = x) by (unfold fblock; rewrite (proj2 (Z.ltb_lt _ _)) by lia; by rewrite Nat2Z.id, Hx).
  pose proof (clear_next _ _ _ Hx) as Hclr.
  assert (Hkm : (k < Z.to_nat MAXFILE)%nat) by (change (Z.to_nat MAXFILE) with 268%nat; change NDIRECT with 12%nat in Hk; lia).
  apply twp_bind. eapply (twp_addr_at _ _ _ _ x); [exact Hi'| |].
  { cbn. by rewrite cleared_next. }
  pose proof (blocks_S (tv τ) (i_addrs i) k) as Hbs. rewrite Hfb in Hbs. destruct (Z.eqb_spec x 0) as [H0|H0]; cbn [negb when].
  - apply twp_ret. split; [|by rewrite Hbs, decide_True, app_nil_r|done|done]. rewrite Nat.min_l, <- Hclr, T1 by lia.
    rewrite (list_insert_id (replicate k 0 ++ drop k (i_addrs i)) k 0); [done|]. by rewrite cleared_next, Hx, H0.
  - rewrite decide_False in Hbs by done. apply twp_bind. eapply twp_rdt; [exact Hi'|]. change (i_dev _) with (i_dev i). rewrite Hd. apply twp_bind.
    apply (twp_bfree_next (tv τ) (blocks (tv τ) (i_addrs i) k) (tl τ)); [..|done|done|by rewrite T4, Hc1|by rewrite T5| |].
    + rewrite <- Hfb. apply block_data; [done|unfold index_ok; lia|by rewrite Hfb].
    + rewrite <- Hfb. apply block_new; [done|done|by rewrite Hfb].
    + unfold has_room in *. rewrite T4. pose proof (map_logged_length _ _ T3). lia.
    + intros v' l' HF Hl. eapply twp_updt; [exact Hi'|]. split; [|rewrite Hbs; exact HF|exact Hl|done].
      rewrite Nat.min_l, <- Hclr by lia. cbn. rewrite T1, list_insert_insert_eq. done.
Qed.
(** the blocks the indirect block lists *)
Lemma twp_itrunc_entry τ0 τ ip i j bp a' : file_at τ0 ip i → ind (i_addrs i) ≠ 0 → (j < Z.to_nat NINDIRECT)%nat →
  ti τ !! ip = Some (i <| i_addrs := a' |>) → th τ = {[ind (i_addrs i) := bp]} → td τ = ∅ → has_room 1 τ →
  frees (tv τ0) (blocks (tv τ0) (i_addrs i) (NDIRECT + j)) (tv τ) → map_logged (tl τ0) (tl τ) →
  twp (let* a := data_le 4 bp (4 * Z.of_nat j) in
       when (negb (a =? 0)) (
         let* dev := rdt inodes ip i_dev in
         bfree (S fuel) dev a)) τ (λ _ τ', ti τ' = ti τ ∧ th τ' = th τ ∧ td τ' = td τ ∧
    frees (tv τ0) (blocks (tv τ0) (i_addrs i) (NDIRECT + S j)) (tv τ') ∧ map_logged (tl τ0) (tl τ')).
Proof using Hlo Hone IT.
  intros Hat Hi0 Hj Hi' Hh Htd Hroom HF Hl. pose proof Hat as [Hi Hd [Hc1 Hc2] Hm Hf]. set (a := i_addrs i) in *.
  assert (Hib : data_block SB start (tv τ0) (ind a)) by (apply (fo_data _ _ _ Hf); split; [done|by left]).
  assert (Hne : ind a ≠ bm) by (by eapply data_not_map). apply twp_len. intros Hlen.
  change (Z.to_nat NINDIRECT) with 256%nat in Hj.
  destruct (array_load_le 4 (tv τ (ind a)) (4 * Z.of_nat j)) as [x Hx]; [lia|rewrite Hlen; change BSIZE with 1024; lia|].
  assert (Hfb : fblock (tv τ0) a (Z.of_nat (NDIRECT + j)) = x).
  { unfold fblock. rewrite (proj2 (Z.ltb_ge _ _)), (proj2 (Z.eqb_neq _ _)) by (done || lia). unfold entry.
    replace (Z.of_nat (NDIRECT + j) - Z.of_nat NDIRECT) with (Z.of_nat j) by lia. rewrite <- (fs_same _ _ _ HF) by done. by rewrite Hx. }
  assert (Hkm : (NDIRECT + j < Z.to_nat MAXFILE)%nat) by (change (Z.to_nat MAXFILE) with 268%nat; change NDIRECT with 12%nat; lia).
  apply twp_bind. eapply (twp_data_le 4 (ind a)); [rewrite Hh; apply lookup_singleton_eq|exact Hx|].
  pose proof (blocks_S (tv τ0) a (NDIRECT + j)) as Hbs. rewrite Hfb, <- Nat.add_succ_r in Hbs. destruct (Z.eqb_spec x 0) as [H0|H0]; cbn [negb when].
  { apply twp_ret. rewrite Hbs, decide_True, app_nil_r by done. done. }
  rewrite decide_False in Hbs by done. apply twp_bind. eapply twp_rdt; [exact Hi'|]. change (i_dev _) with (i_dev i). rewrite Hd.
  apply (twp_bfree_next (tv τ0) (blocks (tv τ0) a (NDIRECT + j)) (tl τ0)); [..|done|done| |done|done|].
  - rewrite <- Hfb. apply block_data; [done|unfold index_ok; lia|by rewrite Hfb].
  - rewrite <- Hfb. apply block_new; [done|done|by rewrite Hfb].
  - rewrite Hh. by apply lookup_singleton_ne.
  - intros v' l' HF' Hl'. rewrite Hbs. done.
Qed.

Lemma seq_split n dn x rest : seq 0 n = dn ++ x :: rest → x = length dn ∧ (x < n)%nat.
Proof.
  intros Hs. assert (Hx : seq 0 n !! length dn = Some x) by (by rewrite Hs, list_lookup_middle).
  apply lookup_seq in Hx as [-> Hx]. cbn. lia.
Qed.
Lemma twp_itrunc_directs τ ip i (Q : unit → tx → Prop) : file_at τ ip i → has_room 2 τ → (∀ τ', truncating τ ip i NDIRECT τ' → Q tt τ') →
  twp (for_each (seq 0 NDIRECT) (λ k,
    let* addr := addr_at ip k in
    when (negb (addr =? 0)) (
      let* dev := rdt inodes ip i_dev in
      bfree (S fuel) dev addr ;;
      set_addr ip k 0))) τ Q.
Proof using Hlo Hone IT.
  intros Hat Hroom HQ. apply (twp_for_each _ _ (λ dn, truncating τ ip i (length dn))).
  - split; [|apply frees_nil|by left|done]. cbn. rewrite drop_0. symmetry. apply list_insert_id. rewrite (fa_inode _ _ _ Hat). by destruct i.
  - intros dn x rest τ' [-> Hx]%seq_split Ht. rewrite length_app, Nat.add_1_r. by apply twp_itrunc_direct.
  - intros τ' Ht. rewrite length_seq in Ht. by apply HQ.
Qed.
(** [a'] are the addresses once the direct ones are cleared *)
Lemma twp_itrunc_entries τ0 τ ip i bp a' (Q : unit → tx → Prop) : file_at τ0 ip i → ind (i_addrs i) ≠ 0 →
  ti τ !! ip = Some (i <| i_addrs := a' |>) → th τ = {[ind (i_addrs i) := bp]} → td τ = ∅ → (length (tl τ0) + 3 ≤ NBUF)%nat →
  frees (tv τ0) (blocks (tv τ0) (i_addrs i) NDIRECT) (tv τ) → map_logged (tl τ0) (tl τ) →
  (∀ v l, frees (tv τ0) (blocks (tv τ0) (i_addrs i) (Z.to_nat MAXFILE)) v → map_logged (tl τ0) l → Q tt (τ <| tv := v |> <| tl := l |>)) →
  twp (for_each (seq 0 (Z.to_nat NINDIRECT)) (λ j,
    let* a := data_le 4 bp (4 * Z.of_nat j) in
    when (negb (a =? 0)) (
      let* dev := rdt inodes ip i_dev in
      bfree (S fuel) dev a))) τ Q.
Proof using Hlo Hone IT.
  intros Hat H0 Hi Hh Hd Hroom HF Hl HQ.
  apply (twp_for_each _ _ (λ dn τ', ti τ' = ti τ ∧ th τ' = th τ ∧ td τ' = td τ ∧
    frees (tv τ0) (blocks (tv τ0) (i_addrs i) (NDIRECT + length dn)) (tv τ') ∧ map_logged (tl τ0) (tl τ'))).
  - by rewrite Nat.add_0_r.
  - intros dn x rest τ' [-> Hx]%seq_split (I & H & D & F & L). rewrite length_app, Nat.add_1_r, <- I, <- H, <- D.
    eapply twp_itrunc_entry; [done|done|done|by rewrite I|by rewrite H|by rewrite D| |done|done].
    unfold has_room. rewrite H, Hh, map_size_singleton. pose proof (map_logged_length _ _ L). lia.
  - intros τ' (I & H & D & F & L). rewrite length_seq in F. change (NDIRECT + Z.to_nat NINDIRECT)%nat with (Z.to_nat MAXFILE) in F.
    eapply settle; [by apply (HQ (tv τ') (tl τ'))|done..].
Qed.
(** the indirect block *)
Lemma twp_itrunc_ind {B} τ0 τ ip i (k : KM B) (Q : B → tx → Prop) : file_at τ0 ip i → truncating τ0 ip i NDIRECT τ → (length (tl τ0) + 3 ≤ NBUF)%nat →
  (∀ v l, frees (tv τ0) (all_blocks (tv τ0) (i_addrs i)) v → map_logged (tl τ0) l →
    twp k (τ <| tv := v |> <| tl := l |> <| ti := <[ip := i <| i_addrs := replicate (S NDIRECT) 0 |>]> (ti τ0) |>) Q) →
  twp (let* addr := addr_at ip NDIRECT in
       when (negb (addr =? 0)) (
         let* dev := rdt inodes ip i_dev in
         let* bp := bread (S fuel) dev addr in
         for_each (seq 0 (Z.to_nat NINDIRECT)) (λ j,
           let* a := data_le 4 bp (4 * Z.of_nat j) in
           when (negb (a =? 0)) (
             let* dev := rdt inodes ip i_dev in
             bfree (S fuel) dev a)) ;;
         brelse bp ;;
         let* dev := rdt inodes ip i_dev in
         let* addr := addr_at ip NDIRECT in
         bfree (S fuel) dev addr ;;
         set_addr ip NDIRECT 0) ;;
       k) τ Q.
Proof using Hlo Hone IT.
  intros Hat Ht Hroom HQ. pose proof Hat as [Hi Hd [Hc1 Hc2] Hm Hf]. pose proof (truncating_inode _ _ _ _ _ Hi Ht) as Hi'.
  destruct Ht as [T1 T2 T3 [T4 T5]]. rewrite Nat.min_id in *. set (a := i_addrs i) in *. rewrite Hc1 in T4. rewrite Hc2 in T5.
  destruct (lookup_lt_is_Some_2 a NDIRECT) as [x Hx]; [rewrite (fo_len _ _ _ Hf); lia|].
  assert (Hind : ind a = x) by (unfold ind; by rewrite Hx). pose proof (cleared_next a NDIRECT) as Hn. rewrite Hx in Hn.
  pose proof (clear_next _ _ _ Hx) as Hclr. rewrite (drop_ge a (S NDIRECT)), app_nil_r in Hclr by (rewrite (fo_len _ _ _ Hf); lia).
  pose proof (map_logged_length _ _ T3) as Hl. set (a' := replicate NDIRECT 0 ++ drop NDIRECT a) in *.
  apply twp_bind. eapply (twp_addr_at _ _ _ _ x); [exact Hi'|done|]. apply twp_bind.
  destruct (Z.eqb_spec x 0) as [H0|H0]; cbn [negb when].
  { apply twp_ret. eapply (settle (λ _ τ, twp k τ Q) tt); [apply (HQ (tv τ) (tl τ)); [|done]|done|done|done|done|].
    - unfold all_blocks. rewrite decide_True, app_nil_r by congruence. rewrite blocks_direct; [done|congruence|by apply (bool_decide_unpack _)].
    - rewrite T1. cbn [ti]. rewrite <- Hclr, (list_insert_id a' NDIRECT 0) by congruence. done. }
  rewrite <- Hind in *. assert (Hib : data_block SB start (tv τ0) (ind a)) by (apply (fo_data _ _ _ Hf); split; [done|by left]).
  pose proof Hib as ([Hib1 Hib2] & Hbit & Hnr). pose proof (lo_size _ _ Hlo) as Hsz.
  apply twp_bind. eapply twp_rdt; [exact Hi'|]. change (i_dev _) with (i_dev i). rewrite Hd.
  apply twp_bind, twp_bread; [by rewrite T4|unfold block_ok; lia|rewrite T4, map_size_empty; lia|]. intros bp.
  apply twp_bind. eapply (twp_itrunc_entries τ0 _ ip i bp a'); [done|done|done|by cbn; rewrite T4|done|lia|done|done|]. intros v1 l1 F1 L1.
  apply twp_bind. eapply (twp_brelse (ind a)); [apply lookup_insert_eq|cbn; by rewrite T5|].
  apply twp_bind. eapply twp_rdt; [exact Hi'|]. change (i_dev _) with (i_dev i). rewrite Hd.
  apply twp_bind. eapply (twp_addr_at _ _ _ _ (ind a)); [exact Hi'|done|].
  apply twp_bind, (twp_bfree_next (tv τ0) (blocks (tv τ0) a (Z.to_nat MAXFILE)) (tl τ0)); [done|by apply ind_new|done|done|..].
  - cbn. by rewrite T4, release_held.
  - done.
  - unfold has_room. cbn. rewrite T4, release_held, map_size_empty by done. pose proof (map_logged_length _ _ L1). lia.
  - intros v l F L. eapply twp_updt; [exact Hi'|].
    eapply (settle (λ _ τ, twp k τ Q) tt); [apply (HQ v l); [|done]|done|done|cbn; by rewrite T4, release_held|done|].
    + unfold all_blocks. by rewrite decide_False.
    + cbn [ti]. rewrite <- Hclr. cbn. rewrite T1, list_insert_insert_eq. done.
Qed.

(** the inode without its blocks *)
Definition emptied (i : inode) : inode := i <| i_addrs := replicate (S NDIRECT) 0 |> <| i_size := 0 |>.
Lemma empty_file_ok D v : file_ok D v (replicate (S NDIRECT) 0).
Proof.
  assert (Hz : ∀ k, fblock v (replicate (S NDIRECT) 0) k = 0).
  { intros k. unfold fblock. change (ind (replicate (S NDIRECT) 0) =? 0) with true. cbn iota. destruct (k <? Z.of_nat NDIRECT); [|done].
    destruct (replicate (S NDIRECT) 0 !! Z.to_nat k) eqn:Hl; [|done]. apply lookup_replicate in Hl as [-> _]. done. }
  split; [apply length_replicate|..].
  - intros n [H0 [-> |(k & Hk & ->)]]; [done|]. by rewrite Hz in H0.
  - intros k k' Hk _ H. by rewrite Hz in H.
  - intros k Hk H. by rewrite Hz in H.
Qed.

(** what [itrunc] leaves of the file of inode [i]: the file is empty, in memory
    and on the disk, its blocks and no others are free again, and other files
    and other inodes are as they were *)
Record itrunc_post (τ : tx) (ip : nat) (i : inode) (τ' : tx) : Prop := {
  it_inodes : ti τ' = <[ip := emptied i]> (ti τ);
  it_at : file_at τ' ip (emptied i);
  it_rep : file_rep (tv τ') (emptied i) [];
  it_disk : dinode_is (tv τ' (IBLOCK (i_inum i) SB)) (emptied i);
  it_bits n : 0 ≤ n < sb_size SB → bit SB (tv τ') n = true ↔ bit SB (tv τ) n = true ∧ ¬ of_file (tv τ) (i_addrs i) n;
  it_frame n : n ≠ bm → n ≠ IBLOCK (i_inum i) SB → tv τ' n = tv τ n;
  it_dinodes j : 0 ≤ j → ¬ dinode_off (i_inum i) ≤ j < dinode_off (i_inum i) + 64 →
    tv τ' (IBLOCK (i_inum i) SB) !! Z.to_nat j = tv τ (IBLOCK (i_inum i) SB) !! Z.to_nat j;
  it_others a l : file_ok (data_block SB start) (tv τ) a → (∀ n, of_file (tv τ) a n → ¬ of_file (tv τ) (i_addrs i) n) →
    fbytes (tv τ) a l → Z.of_nat (length l) ≤ MAXFILE * BSIZE → file_ok (data_block SB start) (tv τ') a ∧ fbytes (tv τ') a l;
  it_log : (length (tl τ') ≤ length (tl τ) + 2)%nat
}.
(** a file none of whose blocks is changed or freed *)
Lemma file_kept v v' a l : file_ok (data_block SB start) v a → (∀ n, of_file v a n → v' n = v n ∧ data_block SB start v' n) →
  fbytes v a l → Z.of_nat (length l) ≤ MAXFILE * BSIZE → file_ok (data_block SB start) v' a ∧ fbytes v' a l.
Proof.
  intros Hf Hk Hl Hmax.
  destruct (file_ok_same (λ _, of_file v a) (data_block SB start) v a v') as [Hf' Hfb].
  - intros H0. apply Hk. split; [done|by left].
  - intros n Hn. by apply Hk.
  - by destruct Hf.
  - split; [done|]. intros k x Hx. pose proof (lookup_lt_Some _ _ _ Hx). apply Hl, fbyte_block in Hx as [Hne Hx]. unfold fbyte.
    rewrite Hfb, (proj2 (Z.eqb_neq _ _)) by done. destruct (Hk (fblock v a (Z.of_nat k / BSIZE))) as [-> _]; [|done].
    split; [done|]. right. eexists. split; [|done]. split; [apply Z.div_pos; [lia|done]|apply Z.div_lt_upper_bound; [done|lia]].
Qed.
Lemma itrunc_post_intro τ ip i v l d : file_at τ ip i → inode_ok i → frees (tv τ) (all_blocks (tv τ) (i_addrs i)) v → map_logged (tl τ) l →
  dinode_is d (emptied i) → (∀ j, ¬ dinode_off (i_inum i) ≤ j < dinode_off (i_inum i) + 64 → 0 ≤ j → d !! Z.to_nat j = v (IBLOCK (i_inum i) SB) !! Z.to_nat j) →
  itrunc_post τ ip i (put (IBLOCK (i_inum i) SB) d (τ <| tv := v |> <| tl := l |> <| ti := <[ip := emptied i]> (ti τ) |>)).
Proof using Hlo Hone IT.
  intros [Hi Hd Hc Hm Hf] Hin [Hbits Hsame] Hl Hdi Hout. set (ib := IBLOCK (i_inum i) SB) in *.
  assert (Hnm : ¬ map_block SB ib) by (by apply inode_block_map).
  assert (Hnb : ib ≠ bm) by (intros Heq; apply Hnm; exists 0; pose proof (lo_size _ _ Hlo); rewrite (BBLOCK_one Hlo Hone) by lia; split; [lia|done]).
  assert (Hb : ∀ n, 0 ≤ n < sb_size SB → bit SB (setv ib d v) n = true ↔ bit SB (tv τ) n = true ∧ ¬ of_file (tv τ) (i_addrs i) n).
  { intros n Hn. rewrite bit_other, Hbits by done. rewrite andb_true_iff, negb_true_iff, bool_decide_eq_false, elem_of_all_blocks. tauto. }
  assert (Hfr : ∀ n, n ≠ bm → n ≠ ib → setv ib d v n = tv τ n) by (intros n H1 H2; rewrite setv_ne by done; by apply Hsame).
  split; cbn [put tv tl ti].
  - done.
  - split; [apply list_lookup_insert_eq; by eapply lookup_lt_Some|done|done| |apply empty_file_ok].
    intros n Hn Hr. apply Hb; [done|]. split; [by apply Hm|]. intros Hof. by apply (fo_data _ _ _ Hf) in Hof as (_ & _ & ?).
  - split; [done|by compute|done].
  - cbn. by rewrite setv_eq.
  - exact Hb.
  - exact Hfr.
  - intros j H0 Hj. cbn. rewrite setv_eq, Hout by done. by rewrite Hsame.
  - intros a bs Ha Hdis. apply file_kept; [done|]. intros n Hn. pose proof (fo_data _ _ _ Ha _ Hn) as Hdb. split.
    + apply Hfr; [by eapply data_not_map|by eapply inode_block_data].
    + destruct Hdb as (H1 & H2 & H3). split; [done|split; [|done]]. apply Hb; [done|]. by split; [|apply Hdis].
  - cbn. pose proof (absorb_length ib l). pose proof (map_logged_length _ _ Hl). lia.
Qed.
Lemma twp_itrunc τ ip i (Q : unit → tx → Prop) : file_at τ ip i → inode_ok i → has_room 3 τ →
  (∀ τ', itrunc_post τ ip i τ' → Q tt τ') → twp (itrunc (S fuel) ip) τ Q.
Proof using Hlo Hone IT.
  intros Hat Hin Hroom HQ. pose proof (fa_clean _ _ _ Hat) as [Hc1 Hc2]. unfold has_room in Hroom. rewrite Hc1, map_size_empty, Nat.add_0_r in Hroom.
  apply twp_bind, (twp_itrunc_directs τ ip i); [done|unfold has_room; rewrite Hc1, map_size_empty; lia|]. intros τ1 T1.
  pose proof (tr_held _ _ _ _ _ T1) as [T4 T5].
  eapply twp_itrunc_ind; [done|done|done|]. intros v l F L.
  assert (Hlt : (ip < length (ti τ))%nat) by (eapply lookup_lt_Some, Hat).
  apply twp_bind. eapply twp_wrt; [by apply list_lookup_insert_eq|].
  eapply (settle (λ _ τ, twp (iupdate (S fuel) ip) τ Q) tt (τ1 <| tv := v |> <| tl := l |> <| ti := <[ip := emptied i]> (ti τ) |>));
    [|done|done|done|done|by cbn; rewrite list_insert_insert_eq].
  eapply (twp_iupdate fuel Hlo Hone _ ip (emptied i)); [by apply list_lookup_insert_eq|apply Hat|by rewrite <- Hc1|by rewrite <- Hc2| |done|done|].
  { unfold has_room. cbn. rewrite T4, Hc1, map_size_empty. pose proof (map_logged_length _ _ L). lia. }
  intros d _ Hdi Hout. eapply settle; [eapply HQ, (itrunc_post_intro τ ip i v l d); done|done..].
Qed.

(** C31: [itrunc] empties a file and loses no block.  For a locked inode whose
    file is well formed, in a transaction whose log has room for the block of
    the free map and the block of the inode, [itrunc] runs without panic.  The file is
    then empty, in the inode and in its copy on the disk; a block of the disk
    is in use exactly if it was and is not one of the file, whether direct,
    listed in the indirect block, or the indirect block itself.  No other
    block than that of the map and that of the inode is changed, the other inodes of that
    block are as they were, and a file that shares no block with it keeps its
    bytes. *)
Theorem itrunc_frees_file ip τ i s : file_at τ ip i → inode_ok i → has_room 3 τ → tx_at τ s →
  wp te_E te_G te_R (itrunc (S fuel) ip s) (λ _ s', ∃ τ', tx_at τ' s' ∧ itrunc_post τ ip i τ').
Proof using Hlo Hone IT.
  intros Hat Hin Hroom Hs. eapply (twp_wp _ τ s (λ _, itrunc_post τ ip i)); [|exact Hs]. by eapply twp_itrunc.
Qed.
End ops.

(** ** An example *)

Section example.
#[local] Existing Instance two_pages.
Import ExampleDisk.
Definition hello : list fop := [Write 0 [104; 105]].
(** two bytes are written to an empty file, which is then truncated *)
Lemma itrunc_frees_file_witness : runs ((do_fops 0 0 hello ;; itrunc 1 0) kernel0) (λ _ s', ∃ τ i τ', (file_rep (tv τ) i [104; 105] ∨ no_free (tv τ)) ∧
  tx_at τ' s' ∧ itrunc_post τ 0 i τ').
Proof.
  assert (Hok : Forall fop_ok hello) by (unfold hello; rewrite !Forall_cons, Forall_nil; cbn; lia).
  assert (Hroom : (cost (IBLOCK (i_inum dir0) sb0) (i_addrs dir0) (tl tx0) + blocks_of hello + 4 ≤ NBUF)%nat) by (apply (bool_decide_unpack _); by vm_compute).
  assert (Hone : sb_size sb0 ≤ BPB) by (by compute). assert (Hin : inode_ok dir0) by (by compute).
  pose proof (twp_do_fops 0 layout0 Hone 0 hello tx0 dir0 [] (λ _ τ, ∃ i, (file_rep (tv τ) i [104; 105] ∨ no_free (tv τ)) ∧ file_at τ 0 i ∧ inode_ok i ∧ has_room 3 τ)
    file_at0 file_rep0 Hin Hok Hroom) as H.
  assert (Hpost : twp (do_fops 0 0 hello) tx0 (λ _ τ, ∃ i, (file_rep (tv τ) i [104; 105] ∨ no_free (tv τ)) ∧ file_at τ 0 i ∧ inode_ok i ∧ has_room 3 τ)).
  { apply H. intros rs l' i' τ' Hops Hrep [E I A C]. exists i'. split; [|split; [done|split]].
    - destruct rs as [|r [|]]; cbn [list_ops] in Hops; [done| |by destruct Hops as (? & _ & ?)]. destruct Hops as (l1 & Hop & ->). cbn in Hop.
      rewrite decide_False in Hop by (intros [Hx|Hx]; vm_compute in Hx; done). destruct Hop as (w & Hw & Hfull & _ & ->).
      destruct (decide (w < 2)%nat); [right; auto|left]. by assert (w = 2%nat) as -> by (cbn in Hw; lia).
    - unfold inode_ok. by rewrite (fc_inum _ _ _ _ _ C).
    - unfold has_room. rewrite (proj1 (fa_clean _ _ _ A)), map_size_empty. pose proof (fc_log _ _ _ _ _ C) as Hl.
      pose proof (Nat.le_trans _ _ _ (cost_length (IBLOCK (i_inum dir0) sb0) (i_addrs i') (tl τ')) Hl) as Hl2.
      assert (Hg : ∀ x c b n : nat, (x ≤ c + b → c + b + 4 ≤ n → x + 0 + 3 ≤ n)%nat) by lia. exact (Hg _ _ _ _ Hl2 Hroom). }
  pose proof (twp_wp _ tx0 kernel0 _ Hpost tx_at0) as Hw. clear H Hpost.
  assert (Hall : wp te_E te_G te_R ((do_fops 0 0 hello ;; itrunc 1 0) kernel0)
    (λ _ s', ∃ τ i τ', (file_rep (tv τ) i [104; 105] ∨ no_free (tv τ)) ∧ tx_at τ' s' ∧ itrunc_post τ 0 i τ')).
  { apply wp_bind. eapply wp_mono; [|exact Hw]. intros rs s1 (τ & Hs & i & Hrep & Hat & Hini & Hrm).
    eapply wp_mono; [|exact (itrunc_frees_file 0 layout0 Hone 0 τ i s1 Hat Hini Hrm Hs)]. intros [] s2 (τ' & Ht & HP). exists τ, i, τ'. exact (conj Hrep (conj Ht HP)). }
  revert Hall. generalize ((do_fops 0 0 hello ;; itrunc 1 0) kernel0). intros m Hall. apply runs_wp. exact Hall.
Defined.
End example.
