(* ===== verification/Dirs.v ===== *)
(** * Directories

    A directory is a file of entries of 16 bytes, an inode number and a name.
    Seen from [dirlookup] and [dirlink] of [kernel/fs.c] it is a finite map from
    names to inode numbers. *)

From S2P Require Import Prelude Fsdata Kstate Spinlock Runqueue Sched SchedInv Bytes Layout Kalloc Vm Printf Proc.
From S2P Require Import Quiet Keeps Sleeplock Bio Log FsLogic Ring Cache Block Journal Transact TxLogic CrashSafety Fs FreeMap DiskExample FileData.
#[local] Open Scope Z_scope.

(** ** Names *)

(** the name that a buffer holds *)
Definition key (name : list Z) : list Z := take (Z.to_nat DIRSIZ) (c_string name).
(** comparing at most [n] bytes stays in the buffer *)
Definition readable (n : nat) (name : list Z) : Prop := 0 ∈ name ∨ (n ≤ length name)%nat.

Lemma readable_cons n name : readable (S n) name → ∃ c rest, name = c :: rest ∧ (c = 0 ∨ readable n rest).
Proof.
  destruct name as [|c rest]; [intros [?%elem_of_nil|?]; [done|simpl in *; lia]|].
  intros Hr. exists c, rest. split; [done|]. destruct Hr as [[->|?]%elem_of_cons|Hr]; [by left|right; by left|right; right; simpl in Hr; lia].
Qed.
Lemma byte_at_drop (l : list Z) p c rest : 0 ≤ p → drop (Z.to_nat p) l = c :: rest →
  byte_at l p = Some c ∧ drop (Z.to_nat (p + 1)) l = rest.
Proof.
  intros Hp Hd. unfold byte_at, bytes_array. rewrite (proj2 (Z.leb_le _ _)) by done. split.
  - rewrite <- (Nat.add_0_r (Z.to_nat p)), <- lookup_drop, Hd. done.
  - rewrite Z2Nat.inj_add, <- drop_drop, Hd by lia. done.
Qed.
Lemma strncmp_names n : ∀ (s t : list Z) p q, 0 ≤ p → 0 ≤ q → readable n (drop (Z.to_nat p) s) → readable n (drop (Z.to_nat q) t) →
  ∃ c, strncmp_loop s t p q n = Some c ∧ (c = 0 ↔ take n (c_string (drop (Z.to_nat p) s)) = take n (c_string (drop (Z.to_nat q) t))).
Proof.
  induction n as [|n IH]; intros s t p q Hp Hq Hs Ht; [by exists 0|]. cbn [strncmp_loop].
  apply readable_cons in Hs as (x & xs & Hx & Hs), Ht as (y & ys & Hy & Ht). rewrite Hx, Hy.
  apply byte_at_drop in Hx as [-> Hxs], Hy as [-> Hys]; [|done..]. cbn -[strncmp_loop]. destruct (Z.eqb_spec x 0) as [->|Hx0].
  { exists (0 - y). split; [done|]. destruct (Z.eqb_spec y 0) as [->|]; [done|]. split; [lia|done]. }
  destruct (Z.eqb_spec x y) as [->|Hne].
  - destruct Hs as [|Hs], Ht as [|Ht]; try done. rewrite (proj2 (Z.eqb_neq _ _)) by done. subst xs ys.
    destruct (IH s t (p + 1) (q + 1)) as (c & Hc & Heq); [lia|lia|done|done|]. exists c. split; [done|]. rewrite Heq. cbn. split; [by intros ->|congruence].
  - exists (x - y). split; [done|]. split; [lia|]. destruct (Z.eqb_spec y 0); [done|]. cbn. congruence.
Qed.
Lemma namecmp_key s t : readable (Z.to_nat DIRSIZ) s → readable (Z.to_nat DIRSIZ) t → ∃ c, namecmp s t = Some c ∧ (c = 0 ↔ key s = key t).
Proof. intros Hs Ht. apply (strncmp_names _ s t 0 0); done. Qed.

(** [strncpy] pads a name with zeros *)
Definition padded (n : nat) (name : list Z) : list Z := take n (c_string name) ++ replicate (n - length (c_string name)) 0.
Lemma c_string_nonzero l : Forall (λ c, c ≠ 0) (c_string l).
Proof. induction l as [|c l IH]; cbn; [done|]. destruct (Z.eqb_spec c 0); [done|by constructor]. Qed.
Lemma padded_length n name : length (padded n name) = n.
Proof. unfold padded. rewrite length_app, length_take, length_replicate. lia. Qed.
Lemma put_byte_split (pre : list Z) x suf v : put_byte (pre ++ x :: suf) (Z.of_nat (length pre)) v = Some (pre ++ v :: suf).
Proof.
  cbn [put_byte bytes_array]. rewrite Nat2Z.id, (proj2 (Z.leb_le _ _)), (proj2 (Z.ltb_lt _ _)) by (rewrite ?length_app; cbn; lia). cbn.
  f_equal. by rewrite insert_app_r_alt, Nat.sub_diag.
Qed.
Lemma strncpy_pad_list n : ∀ pre mid : list Z, length mid = n → strncpy_pad (pre ++ mid) (Z.of_nat (length pre)) n = Some (pre ++ replicate n 0).
Proof.
  induction n as [|n IH]; intros pre mid Hl; destruct mid as [|x mid]; [done|done|done|]. injection Hl as Hl. cbn [strncpy_pad]. rewrite put_byte_split. cbn [mbind option_bind].
  specialize (IH (pre ++ [0]) mid Hl). rewrite length_app, <- !app_assoc in IH. cbn in IH.
  by replace (Z.of_nat (length pre) + 1) with (Z.of_nat (length pre + 1)) by lia.
Qed.
Lemma strncpy_loop_list n : ∀ (pre mid name : list Z) t, length mid = n → 0 ≤ t → readable n (drop (Z.to_nat t) name) →
  strncpy_loop (pre ++ mid) (Z.of_nat (length pre)) name t n = Some (pre ++ padded n (drop (Z.to_nat t) name)).
Proof.
  induction n as [|n IH]; intros pre mid name t Hl Ht Hr; [by destruct mid|]. destruct mid as [|x mid]; [done|]. injection Hl as Hl.
  cbn [strncpy_loop]. apply readable_cons in Hr as (c & rest & Hc & Hr). rewrite Hc. apply byte_at_drop in Hc as [-> Hrest]; [|done]. cbn [mbind option_bind].
  rewrite put_byte_split. cbn [mbind option_bind]. replace (Z.of_nat (length pre) + 1) with (Z.of_nat (length (pre ++ [c]))) by (rewrite length_app; cbn; lia).
  unfold padded. cbn [c_string]. destruct (Z.eqb_spec c 0) as [->|Hc0]; cbn [negb].
  - pose proof (strncpy_pad_list n (pre ++ [0]) mid Hl) as H. rewrite <- !app_assoc in H. exact H.
  - destruct Hr as [|Hr]; [done|]. subst rest. pose proof (IH (pre ++ [c]) mid name (t + 1) Hl ltac:(lia) Hr) as H. rewrite <- !app_assoc in H. exact H.
Qed.
Lemma strncpy_name name : readable (Z.to_nat DIRSIZ) name →
  strncpy (replicate (Z.to_nat DIRSIZ) 0) 0 name 0 DIRSIZ = Some (padded (Z.to_nat DIRSIZ) name).
Proof. intros Hr. by apply (strncpy_loop_list (Z.to_nat DIRSIZ) [] (replicate (Z.to_nat DIRSIZ) 0) name 0). Qed.
Lemma c_string_padded l k : Forall (λ c, c ≠ 0) l → c_string (l ++ replicate k 0) = l.
Proof. induction 1 as [|c l Hc Hl IH]; cbn; [by destruct k|]. rewrite (proj2 (Z.eqb_neq _ _)) by done. by rewrite IH. Qed.
Lemma key_padded name : key (padded (Z.to_nat DIRSIZ) name) = key name.
Proof.
  unfold key, padded. rewrite c_string_padded by (apply Forall_take, c_string_nonzero). by rewrite take_take, Nat.min_id.
Qed.
Lemma readable_slot name : length name = Z.to_nat DIRSIZ → readable (Z.to_nat DIRSIZ) name.
Proof. right. lia. Qed.

(** ** Entries *)

(** the entries of a directory: inode numbers, 0 for an unused entry, and names *)
#[local] Abbreviation slot := (Z * list Z)%type.
Definition slot_ok (e : slot) : Prop := 0 ≤ e.1 < 2 ^ 16 ∧ length e.2 = Z.to_nat DIRSIZ.
Definition entries (es : list slot) : list Z := es ≫= λ e, mk_dirent e.1 e.2.
(** the directory as a map; of two entries with the same name the first counts *)
Fixpoint dmap (es : list slot) : gmap (list Z) Z :=
  match es with
  | [] => ∅
  | e :: es => if e.1 =? 0 then dmap es else <[key e.2 := e.1]> (dmap es)
  end.
(** the first entry for a name, and the first unused entry *)
Definition slot_for (x : list Z) (e : slot) : bool := negb (e.1 =? 0) && bool_decide (x = key e.2).
Definition slot_unused (e : slot) : bool := e.1 =? 0.
Fixpoint first_slot (f : slot → bool) (es : list slot) : nat :=
  match es with
  | [] => 0
  | e :: es => if f e then 0 else S (first_slot f es)
  end.
Definition put_slot (k : nat) (e : slot) (es : list slot) : list slot := take k es ++ e :: drop (S k) es.

Lemma mk_dirent_length e : slot_ok e → length (mk_dirent e.1 e.2) = 16%nat.
Proof. intros [_ Hl]. unfold mk_dirent. rewrite length_app, Hl. done. Qed.
Lemma entries_length es : Forall slot_ok es → length (entries es) = (16 * length es)%nat.
Proof. induction 1 as [|e es He Hes IH]; [done|]. cbn. rewrite length_app, mk_dirent_length by done. fold (entries es). lia. Qed.
Lemma entries_app es1 es2 : entries (es1 ++ es2) = entries es1 ++ entries es2.
Proof. apply bind_app. Qed.
Lemma entries_drop es k : Forall slot_ok es → drop (16 * k) (entries es) = entries (drop k es).
Proof.
  intros He. destruct (decide (k ≤ length es)%nat).
  - rewrite <- (take_drop k es) at 1. rewrite entries_app, drop_app_length'; [done|].
    rewrite entries_length, length_take by (by apply Forall_take). lia.
  - rewrite !drop_ge; [done|lia|rewrite entries_length by done; lia].
Qed.
Lemma entries_take es k : Forall slot_ok es → take (16 * k) (entries es) = entries (take k es).
Proof.
  intros He. destruct (decide (k ≤ length es)%nat).
  - rewrite <- (take_drop k es) at 1. rewrite entries_app, take_app_length'; [done|].
    rewrite entries_length, length_take by (by apply Forall_take). lia.
  - rewrite !take_ge; [done|lia|rewrite entries_length by done; lia].
Qed.
Lemma read_slot es k e : Forall slot_ok es → es !! k = Some e → file_read (entries es) (16 * Z.of_nat k) 16 = mk_dirent e.1 e.2.
Proof.
  intros He Hk. unfold file_read. replace (Z.to_nat (16 * Z.of_nat k)) with (16 * k)%nat by lia.
  rewrite entries_drop by done. rewrite (drop_S es e k Hk). cbn. rewrite take_app_length'; [done|].
  symmetry. apply mk_dirent_length. by eapply Forall_lookup_1.
Qed.
Lemma splice_slot es k e : Forall slot_ok es → slot_ok e → (k ≤ length es)%nat →
  splice (entries es) (16 * k) (mk_dirent e.1 e.2) = entries (put_slot k e es).
Proof.
  intros Hes He Hk. unfold splice, put_slot. rewrite mk_dirent_length by done. replace (16 * k + 16)%nat with (16 * S k)%nat by lia.
  by rewrite entries_take, entries_drop, entries_app.
Qed.

Lemma de_inum_mk a b : 0 ≤ a < 2 ^ 16 → de_inum (mk_dirent a b) = Some a.
Proof.
  intros Ha. unfold de_inum, mk_dirent, load_le. assert (Hb : bytes_at (Z_to_little_endian 2 8 a ++ b) 0 (Z_to_little_endian 2 8 a)).
  { intros j y Hj. pose proof (lookup_lt_Some _ _ _ Hj). cbn [byte_at bytes_array]. rewrite (proj2 (Z.leb_le _ _)), Z.add_0_l, Nat2Z.id by lia. by rewrite lookup_app_l. }
  apply load_bytes_at in Hb. change (length (Z_to_little_endian 2 8 a)) with 2%nat in Hb. rewrite Hb. cbn [fmap option_fmap option_map].
  rewrite little_endian_to_Z_to_little_endian by lia. f_equal. apply Z.mod_small. done.
Qed.
(** *** The map *)

Lemma first_slot_le f es : (first_slot f es ≤ length es)%nat.
Proof. induction es as [|e es IH]; cbn; [done|]. destruct (f e); lia. Qed.
Lemma first_slot_found f es e : es !! first_slot f es = Some e → f e = true.
Proof. induction es as [|e' es IH]; cbn; [done|]. destruct (f e') eqn:Hf; cbn; [by intros [= ->]|done]. Qed.
Lemma first_slot_before f es k e : (k < first_slot f es)%nat → es !! k = Some e → f e = false.
Proof.
  revert k. induction es as [|e' es IH]; intros k; cbn; [lia|]. destruct (f e') eqn:Hf; [lia|].
  destruct k as [|k]; cbn; [by intros _ [= <-]|]. intros Hk. apply IH. lia.
Qed.
Lemma dmap_first x es : dmap es !! x = (es !! first_slot (slot_for x) es) ≫= λ e, Some e.1.
Proof.
  induction es as [|e es IH]; cbn; [done|]. unfold slot_for at 1. destruct (Z.eqb_spec e.1 0) as [H0|H0]; cbn; [exact IH|].
  case_bool_decide as Hx; cbn; [subst x; by rewrite lookup_insert_eq|]. by rewrite lookup_insert_ne by done.
Qed.
Lemma dmap_none x es e : dmap es !! x = None → e ∈ es → e.1 ≠ 0 → x ≠ key e.2.
Proof.
  intros Hx He H0 ->. induction es as [|e' es IH]; [by apply elem_of_nil in He|]. cbn in Hx.
  apply elem_of_cons in He as [<-|He].
  - rewrite (proj2 (Z.eqb_neq _ _)), lookup_insert_eq in Hx by done. done.
  - apply IH; [|done]. destruct (_ =? 0); [done|]. by apply lookup_insert_None in Hx as [? _].
Qed.
Lemma dmap_put n name es : n ≠ 0 → dmap es !! key name = None →
  dmap (put_slot (first_slot slot_unused es) (n, name) es) = <[key name := n]> (dmap es).
Proof.
  intros Hn. induction es as [|e es IH]; intros Hx; cbn.
  { by rewrite (proj2 (Z.eqb_neq _ _)) by done. }
  cbn in Hx. fold (slot_unused e) in *. destruct (slot_unused e) eqn:H0.
  - cbn. by rewrite (proj2 (Z.eqb_neq n 0)), drop_0 by done.
  - apply lookup_insert_None in Hx as [Hx Hne]. cbn. fold (slot_unused e). rewrite H0. fold (put_slot (first_slot slot_unused es) (n, name) es). rewrite IH by done.
    by apply insert_insert_ne.
Qed.

(** ** The table of inodes *)

Definition has_inode (t : list inode) (ip : nat) (dev inum : Z) : Prop :=
  ∃ j, t !! ip = Some j ∧ 0 < i_ref j ∧ i_dev j = dev ∧ i_inum j = inum.
Definition unused (t : list inode) : nat := length (filter (λ j, i_ref j = 0) t).
(** there is room for [k] more references *)
Record table_ok (k : nat) (t : list inode) : Prop := {
  tb_len : length t = NINODE;
  tb_unused : (k ≤ unused t)%nat;
  tb_refs ip j : t !! ip = Some j → 0 ≤ i_ref j ∧ i_ref j + Z.of_nat k < 2 ^ 31
}.
(** [iget] returns the entry of the inode, or turns an unused one into it *)
Inductive igot (t : list inode) (dev inum : Z) : nat → list inode → Prop :=
| igot_old ip j : t !! ip = Some j → 0 < i_ref j → i_dev j = dev → i_inum j = inum →
    igot t dev inum ip (<[ip := j <| i_ref := i_ref j + 1 |>]> t)
| igot_new ip j : (∀ ip', ¬ has_inode t ip' dev inum) → t !! ip = Some j → i_ref j = 0 →
    igot t dev inum ip (<[ip := j <| i_dev := dev |> <| i_inum := inum |> <| i_ref := 1 |> <| i_valid := 0 |>]> t).

Lemma unused_insert t ip j j' : t !! ip = Some j →
  (unused (<[ip := j']> t) + (if decide (i_ref j = 0%Z) then 1 else 0) = unused t + (if decide (i_ref j' = 0%Z) then 1 else 0))%nat.
Proof.
  intros Hj. rewrite <- (take_drop_middle _ _ _ Hj) at 2. rewrite insert_take_drop by (by eapply lookup_lt_Some). unfold unused.
  rewrite !filter_app, !length_app, !filter_cons. repeat case_decide; cbn; lia.
Qed.
Lemma unused_some t : (0 < unused t)%nat → ∃ ip j, t !! ip = Some j ∧ i_ref j = 0.
Proof.
  unfold unused. intros H. destruct (filter (λ j, i_ref j = 0) t) as [|j l] eqn:Hf; [cbn in H; lia|].
  assert (Hj : j ∈ filter (λ j, i_ref j = 0) t) by (rewrite Hf; left). apply list_elem_of_filter in Hj as [H0 [ip Hip]%list_elem_of_lookup]. eauto.
Qed.
Lemma igot_has t dev inum ip t' : igot t dev inum ip t' → has_inode t' ip dev inum.
Proof.
  destruct 1 as [ip j Hj Hr Hd Hn|ip j Hno Hj Hr]; eexists; (split; [apply list_lookup_insert_eq; by eapply lookup_lt_Some|]); cbn; split_and!; try done; lia.
Qed.
Lemma igot_ok k t dev inum ip t' : table_ok (S k) t → igot t dev inum ip t' → table_ok k t'.
Proof.
  intros [Hl Hu Hr] Hg. assert (∃ j j', t !! ip = Some j ∧ t' = <[ip := j']> t ∧ 0 ≤ i_ref j' ≤ i_ref j + 1) as (j & j' & Hj & -> & Hj').
  { destruct Hg as [ip j Hj H0 Hd Hn|ip j Hno Hj H0]; eexists _, _; (split; [exact Hj|split; [reflexivity|cbn; lia]]). }
  pose proof (unused_insert _ _ _ j' Hj). split; [by rewrite length_insert|repeat case_decide; lia|].
  intros ip' x Hx. destruct (decide (ip' = ip)) as [->|Hne].
  - rewrite list_lookup_insert_eq in Hx by (by eapply lookup_lt_Some). injection Hx as <-. destruct (Hr _ _ Hj). lia.
  - rewrite list_lookup_insert_ne in Hx by done. destruct (Hr _ _ Hx). lia.
Qed.
(** an entry in use stays the entry of its inode *)
Lemma igot_kept t dev inum ip t' ip0 j : igot t dev inum ip t' → t !! ip0 = Some j → 0 < i_ref j →
  ∃ r, t' !! ip0 = Some (j <| i_ref := r |>) ∧ i_ref j ≤ r.
Proof.
  intros Hg Hj H0. destruct Hg as [ip x Hx Hr Hd Hn|ip x Hno Hx Hr]; (destruct (decide (ip = ip0)) as [->|Hne]; simplify_eq;
    [|rewrite list_lookup_insert_ne by done; exists (i_ref j); split; [rewrite Hj; by destruct j|lia]]).
  - exists (i_ref x + 1). rewrite list_lookup_insert_eq by (by eapply lookup_lt_Some). split; [done|lia].
  - lia.
Qed.

Section ops.
Context {TE : TxEnv} (fuel : nat).
#[local] Abbreviation dev := te_dev.
#[local] Abbreviation start := te_start.
#[local] Abbreviation r0 := te_rest.
#[local] Abbreviation SB := (sb r0).

(** the scan of [iget], from entry [k] on *)
Lemma hwp_iget_scan inum H τ : ∀ n k empty (Q : nat + option nat → gset lockid → tx → Prop),
  (k + n = length (ti τ))%nat → (∀ ip', (ip' < k)%nat → ¬ has_inode (ti τ) ip' dev inum) →
  (∀ ip, empty = Some ip → ∃ j, ti τ !! ip = Some j ∧ i_ref j = 0) →
  (empty = None → ∀ ip j, (ip < k)%nat → ti τ !! ip = Some j → i_ref j ≠ 0) →
  (∀ ip j, ti τ !! ip = Some j → 0 < i_ref j → i_dev j = dev → i_inum j = inum → Q (inl ip) H τ) →
  ((∀ ip, ¬ has_inode (ti τ) ip dev inum) → (∀ ip j, ti τ !! ip = Some j → i_ref j ≠ 0) → Q (inr None) H τ) →
  ((∀ ip, ¬ has_inode (ti τ) ip dev inum) → ∀ ip j, ti τ !! ip = Some j → i_ref j = 0 → Q (inr (Some ip)) H τ) →
  hwp H (iget_scan (seq k n) empty dev inum) τ Q.
Proof using TE.
  induction n as [|n IH]; intros k empty Q Hk Hno Hsome Hnone HQ1 HQ2 HQ3; cbn [seq iget_scan].
  - assert (Hno' : ∀ ip, ¬ has_inode (ti τ) ip dev inum).
    { intros ip Hip. apply (Hno ip); [|done]. destruct Hip as (j & Hj & _). apply lookup_lt_Some in Hj. lia. }
    apply hwp_ret. destruct empty as [ip|]; [destruct (Hsome ip eq_refl) as (j & ? & ?); by eapply HQ3|].
    apply HQ2; [done|]. intros ip j Hj. apply (Hnone eq_refl ip j); [|done]. apply lookup_lt_Some in Hj. lia.
  - destruct (lookup_lt_is_Some_2 (ti τ) k ltac:(lia)) as [j Hj]. apply hwp_bind. eapply hwp_ent; [exact Hj|].
    destruct ((0 <? i_ref j) && (i_dev j =? dev) && (i_inum j =? inum)) eqn:Hc.
    { apply andb_prop in Hc as [[H1 H2]%andb_prop H3]. apply hwp_ret. eapply HQ1; [exact Hj|lia..]. }
    apply IH; [lia| | |
      |done..].
    + intros ip' Hlt (x & Hx & Hr & Hd & Hn). destruct (decide (ip' = k)) as [->|]; [|apply (Hno ip'); [lia|by exists x]].
      simplify_eq. by rewrite (proj2 (Z.ltb_lt _ _)), Hd, !Z.eqb_refl in Hc by done.
    + intros ip Hip. destruct empty as [e|]; [by apply Hsome|]. destruct (Z.eqb_spec (i_ref j) 0); [|done]. injection Hip as <-. eauto.
    + intros Hip ip x Hlt Hx. destruct empty as [e|]; [done|]. destruct (Z.eqb_spec (i_ref j) 0); [done|].
      destruct (decide (ip = k)) as [->|]; [by simplify_eq|]. apply (Hnone eq_refl ip); [lia|done].
Qed.
Lemma twp_iget inum k τ (Q : nat → tx → Prop) : table_ok (S k) (ti τ) →
  (∀ ip t', igot (ti τ) dev inum ip t' → Q ip (τ <| ti := t' |>)) → twp (iget dev inum) τ Q.
Proof using TE.
  intros [Hl Hu Hr] HQ. apply twp_hwp, hwp_bind, hwp_acquire; [set_solver|]. apply hwp_bind, hwp_iget_scan; [by rewrite Hl|lia|done|lia|..].
  - intros ip j Hj H0 Hd Hn. apply hwp_bind. eapply hwp_updt; [exact Hj|]. apply hwp_bind, hwp_release; [set_solver|]. apply hwp_ret. split; [done|].
    assert (Hs : s32 (i_ref j + 1) = i_ref j + 1) by (destruct (Hr _ _ Hj); apply s32_small; lia).
    pose proof (HQ _ _ (igot_old _ _ _ _ _ Hj H0 Hd Hn)) as HQ'. rewrite <- Hs in HQ'. by destruct j.
  - intros _ Hno. destruct (unused_some (ti τ)) as (ip & j & Hj & H0); [lia|]. by destruct (Hno _ _ Hj).
  - intros Hno ip j Hj H0. pose proof (HQ _ _ (igot_new _ _ _ _ _ Hno Hj H0)) as HQ'. pose proof (lookup_lt_Some _ _ _ Hj).
    apply hwp_bind. eapply hwp_wrt; [exact Hj|]. do 3 (apply hwp_bind; eapply hwp_wrt; [cbn; apply list_lookup_insert_eq; by rewrite ?length_insert|]).
    apply hwp_bind, hwp_release; [set_solver|]. apply hwp_ret. split; [done|].
    match type of HQ' with Q _ ?t' => match goal with |- Q _ ?t => assert (t = t') as -> end end; [|done].
    apply tx_eq; [done..|]. cbn. by rewrite !list_insert_insert_eq.
Qed.

(** ** The operations *)

Context {IT : InTx} {SY : Symbols} (Hlo : layout_ok SB start) (Hone : sb_size SB ≤ BPB).
(** a locked directory with the entries [es], and room for [k] operations *)
Record dir_at (k : nat) (τ : tx) (dp : nat) (i : inode) (es : list slot) : Prop := {
  da_file : file_at τ dp i;
  da_rep : file_rep (tv τ) i (entries es);
  da_slots : Forall slot_ok es;
  da_type : i_type i = T_DIR;
  da_inode : inode_ok i;
  da_ref : 0 < i_ref i;
  da_room : (cost (IBLOCK (i_inum i) SB) (i_addrs i) (tl τ) + k + 4 ≤ NBUF)%nat;
  da_table : table_ok k (ti τ)
}.
Lemma da_size k τ dp i es : dir_at k τ dp i es → i_size i = 16 * Z.of_nat (length es) ∧ i_size i ≤ MAXFILE * BSIZE.
Proof using TE. intros Hd. rewrite (fr_size _ _ _ (da_rep _ _ _ _ _ Hd)), entries_length by apply Hd. pose proof (fr_max _ _ _ (da_rep _ _ _ _ _ Hd)). rewrite entries_length in * by apply Hd. lia. Qed.
Lemma da_has_room k τ dp i es : dir_at k τ dp i es → has_room 1 τ.
Proof using TE.
  intros Hd. pose proof (da_room _ _ _ _ _ Hd). pose proof (cost_length (IBLOCK (i_inum i) SB) (i_addrs i) (tl τ)).
  unfold has_room. rewrite (proj1 (fa_clean _ _ _ (da_file _ _ _ _ _ Hd))), map_size_empty. lia.
Qed.
Lemma turns_slots i (es : list slot) : i_size i = 16 * Z.of_nat (length es) → turns (i_size i) dirent_size = S (S (length es)).
Proof using TE. intros ->. unfold turns, dirent_size. rewrite Z.mul_comm, Z.div_mul by done. by rewrite Nat2Z.id. Qed.

Lemma twp_read_dirent msg k τ dp i es n e (Q : list Z → tx → Prop) : dir_at k τ dp i es → es !! n = Some e →
  Q (mk_dirent e.1 e.2) τ → twp (read_dirent (S fuel) msg dp (16 * Z.of_nat n)) τ Q.
Proof using Hlo.
  intros Hd He HQ. pose proof (lookup_lt_Some _ _ _ He). destruct (da_size _ _ _ _ _ Hd) as [Hs Hmax]. assert (MAXFILE * BSIZE < 2 ^ 31 - 16) by done.
  apply twp_bind, (twp_readi _ Hlo τ dp i (entries es)); [apply Hd|apply Hd|by eapply da_has_room|lia|done|unfold dirent_size; lia|].
  unfold dirent_size. rewrite (read_slot _ _ e), mk_dirent_length; [|by eapply Forall_lookup_1; [apply Hd|]|apply Hd|done]. by apply twp_ret.
Qed.

(** a loop over the entries, up to the first one with [f] *)
Lemma twp_for_slots {R} (body : Z → KM (option R)) f τ dp i es (Q : option R → tx → Prop) :
  ti τ !! dp = Some i → i_size i = 16 * Z.of_nat (length es) →
  (∀ n e, es !! n = Some e → (n ≤ first_slot f es)%nat →
    twp (body (16 * Z.of_nat n)) τ (λ r τ', match r with Some _ => Q r τ' | None => f e = false ∧ τ' = τ end)) →
  (first_slot f es = length es → Q None τ) →
  twp (for_below (turns (i_size i) dirent_size) (rdt inodes dp i_size) 0 dirent_size body) τ Q.
Proof using TE.
  intros Hi Hs Hbody HN. rewrite (turns_slots i es Hs).
  assert (Hgo : ∀ m n, (length es ≤ m + n)%nat → (n ≤ first_slot f es)%nat →
    twp (for_below (S m) (rdt inodes dp i_size) (16 * Z.of_nat n) dirent_size body) τ Q); [|by apply (Hgo _ 0%nat); cbn; lia].
  pose proof (first_slot_le f es) as Hle.
  induction m as [|m IH]; intros n Hmn Hn; (cbn [for_below]; apply twp_bind; eapply twp_rdt; [exact Hi|]).
  all: rewrite Hs; destruct (Z.ltb_spec (16 * Z.of_nat n) (16 * Z.of_nat (length es))); [|apply twp_ret, HN; lia].
  { lia. }
  destruct (lookup_lt_is_Some_2 es n ltac:(lia)) as [e He].
  apply twp_bind. eapply twp_mono; [|by apply (Hbody n e)]. intros [v|] τ'; [intros HQ; by apply twp_ret|]. intros [Hf ->].
  replace (16 * Z.of_nat n + dirent_size) with (16 * Z.of_nat (S n)) by (unfold dirent_size; lia). refine (IH (S n) _ _); [lia|].
  destruct (decide (n = first_slot f es)) as [Heq|]; [|lia]. rewrite Heq in He. by rewrite (first_slot_found _ _ _ He) in Hf.
Qed.
Lemma first_slot_is f es n e : es !! n = Some e → (n ≤ first_slot f es)%nat → f e = true → first_slot f es = n.
Proof using TE.
  intros He Hn Hf. destruct (decide (n = first_slot f es)) as [|]; [done|].
  by rewrite (first_slot_before f es n e ltac:(lia) He) in Hf.
Qed.

Lemma twp_dirlookup k τ dp i es name (Q : option (nat * Z) → tx → Prop) : dir_at (S k) τ dp i es → readable (Z.to_nat DIRSIZ) name →
  (dmap es !! key name = None → Q None τ) →
  (∀ n nm ip t', es !! n = Some nm → key nm.2 = key name → dmap es !! key name = Some nm.1 → igot (ti τ) dev nm.1 ip t' →
    Q (Some (ip, 16 * Z.of_nat n)) (τ <| ti := t' |>)) →
  twp (dirlookup (S fuel) dp name) τ Q.
Proof using Hlo.
  intros Hd Hname HN HS. pose proof (fa_inode _ _ _ (da_file _ _ _ _ _ Hd)) as Hi. destruct (da_size _ _ _ _ _ Hd) as [Hs Hmax].
  unfold dirlookup. apply twp_bind. eapply twp_rdt; [exact Hi|]. rewrite (da_type _ _ _ _ _ Hd).
  change (T_DIR =? T_DIR) with true. cbn [negb]. apply twp_bind. eapply twp_rdt; [exact Hi|].
  rewrite dmap_first in HN. apply (twp_for_slots _ (slot_for (key name)) τ dp i es); [done|done| |intros Hf; apply HN; by rewrite Hf, lookup_ge_None_2].
  intros n e He Hn. assert (Hok : slot_ok e) by (by eapply Forall_lookup_1; [apply Hd|]). destruct Hok as [Hin Hlen].
  apply twp_bind. eapply twp_read_dirent; [exact Hd|exact He|]. apply twp_bind. eapply twp_deref; [by apply de_inum_mk|].
  destruct (Z.eqb_spec e.1 0) as [H0|H0]; [apply twp_ret; split; [unfold slot_for; by rewrite H0|done]|].
  change (de_name (mk_dirent e.1 e.2)) with e.2. destruct (namecmp_key name e.2 Hname (readable_slot _ Hlen)) as (c & Hc & Hcz).
  assert (Hfor : slot_for (key name) e = bool_decide (key name = key e.2)) by (unfold slot_for; by rewrite (proj2 (Z.eqb_neq _ _))).
  apply twp_bind. eapply twp_deref; [exact Hc|]. destruct (Z.eqb_spec c 0) as [->|Hne].
  - apply proj1 in Hcz. specialize (Hcz eq_refl). rewrite bool_decide_true in Hfor by done.
    apply twp_bind. eapply twp_rdt; [exact Hi|]. rewrite (fa_dev _ _ _ (da_file _ _ _ _ _ Hd)).
    apply twp_bind. eapply twp_iget; [apply Hd|]. intros ip t' Hg. apply twp_ret. eapply HS; [exact He|done| |done].
    by rewrite dmap_first, (first_slot_is _ _ _ _ He Hn Hfor), He.
  - apply twp_ret. split; [|done]. rewrite Hfor. apply bool_decide_false. intros Heq. by apply Hne, Hcz.
Qed.

(** *** [dirlink] *)

(** a table with the same references, and the same inodes in the entries in use *)
Definition same_refs (t t' : list inode) : Prop :=
  length t' = length t ∧ ∀ ip j, t !! ip = Some j → ∃ j', t' !! ip = Some j' ∧ i_ref j' = i_ref j ∧ (0 < i_ref j → j' = j).
Lemma same_refs_unused t t' : same_refs t t' → unused t' = unused t.
Proof using TE.
  revert t'. induction t as [|j t IH]; intros [|j' t'] [Hl Hr]; [done..|]. destruct (Hr 0%nat j eq_refl) as (x & [= <-] & Hx & _).
  assert (Hsame : same_refs t t') by (split; [by injection Hl|intros ip; apply (Hr (S ip))]). apply IH in Hsame.
  unfold unused in *. rewrite !filter_cons. destruct (decide (i_ref j = 0)); [rewrite decide_True|rewrite decide_False]; cbn; lia || congruence.
Qed.
Lemma same_refs_ok k t t' : table_ok k t → same_refs t t' → table_ok k t'.
Proof using TE.
  intros [Hl Hu Hr] Hs. pose proof (same_refs_unused _ _ Hs) as Hun. destruct Hs as [Hl' Hs]. split; [congruence|lia|].
  intros ip j' Hj'. destruct (lookup_lt_is_Some_2 t ip) as [j Hj]; [rewrite <- Hl'; by eapply lookup_lt_Some|].
  destruct (Hs _ _ Hj) as (x & Hx & Href & _). rewrite Hj' in Hx. injection Hx as <-. rewrite Href. by eapply Hr.
Qed.
(** [iput] gives back what [iget] took; the inode is not the last reference to
    a valid one, so that nothing is freed *)
Lemma twp_iput_igot inum ip t' k τ (Q : unit → tx → Prop) : table_ok (S k) (ti τ) → igot (ti τ) dev inum ip t' →
  (∀ t2, same_refs (ti τ) t2 → Q tt (τ <| ti := t2 |>)) → twp (iput (S fuel) ip) (τ <| ti := t' |>) Q.
Proof using IT Hone Hlo.
  intros [Hl Hu Hr] Hg HQ. assert (∃ j j', ti τ !! ip = Some j ∧ t' = <[ip := j']> (ti τ) ∧
    i_ref j' = i_ref j + 1 ∧ 0 ≤ i_ref j ∧ (i_ref j = 0 → i_valid j' = 0) ∧ (0 < i_ref j → j = j' <| i_ref := i_ref j |>)) as (j & j' & Hj & -> & Hj' & H0 & Hv & Hold).
  { destruct Hg as [ip j Hj H0 Hd Hn|ip j Hno Hj H0]; eexists _, _; (split; [exact Hj|split; [reflexivity|cbn]]).
    - split_and!; [lia..|by destruct j].
    - split_and!; [lia..|done|lia]. }
  pose proof (lookup_lt_Some _ _ _ Hj) as Hlt. assert (Hlk : <[ip := j']> (ti τ) !! ip = Some j') by (by apply list_lookup_insert_eq).
  unfold iput. apply twp_hwp, hwp_bind, hwp_acquire; [set_solver|]. apply hwp_bind. eapply hwp_ent; [exact Hlk|].
  assert ((i_ref j' =? 1) && negb (i_valid j' =? 0) && (i_nlink j' =? 0) = false) as ->.
  { destruct (Z.eqb_spec (i_ref j') 1); [|done]. rewrite Hv by lia. done. }
  cbn [when]. apply hwp_bind, hwp_ret, hwp_bind. eapply hwp_updt; [exact Hlk|]. apply hwp_release; [set_solver|]. split; [done|].
  match goal with |- Q _ ?t => assert (t = τ <| ti := <[ip := j' <| i_ref := i_ref j |>]> (ti τ) |>) as -> end.
  { apply tx_eq; [done..|]. cbn. rewrite list_insert_insert_eq. assert (Hs : s32 (i_ref j' - 1) = i_ref j) by (destruct (Hr _ _ Hj); rewrite s32_small; lia).
    rewrite <- Hs. by destruct j'. }
  apply HQ. split; [by rewrite length_insert|]. intros ip0 x Hx. destruct (decide (ip = ip0)) as [->|Hne].
  - rewrite list_lookup_insert_eq by done. simplify_eq. eexists. split; [done|]. split; [done|]. intros Hpos. symmetry. by apply Hold.
  - rewrite list_lookup_insert_ne by done. by exists x.
Qed.

Lemma twp_dirlink_find k τ dp i es (Q : Z → tx → Prop) : dir_at k τ dp i es →
  Q (16 * Z.of_nat (first_slot slot_unused es)) τ → twp (dirlink_find (S fuel) (turns (i_size i) dirent_size) dp 0) τ Q.
Proof using Hlo.
  intros Hd HQ. pose proof (fa_inode _ _ _ (da_file _ _ _ _ _ Hd)) as Hi. destruct (da_size _ _ _ _ _ Hd) as [Hs Hmax].
  rewrite (turns_slots i es Hs). pose proof (first_slot_le slot_unused es) as Hle.
  assert (Hgo : ∀ m n, (length es ≤ m + n)%nat → (n ≤ first_slot slot_unused es)%nat →
    twp (dirlink_find (S fuel) (S m) dp (16 * Z.of_nat n)) τ Q); [|by apply (Hgo _ 0%nat); cbn; lia].
  induction m as [|m IH]; intros n Hmn Hn; (cbn [dirlink_find]; apply twp_bind; eapply twp_rdt; [exact Hi|]).
  all: rewrite Hs; destruct (Z.ltb_spec (16 * Z.of_nat n) (16 * Z.of_nat (length es)));
    [|apply twp_ret; by replace n with (first_slot slot_unused es) by lia].
  { lia. }
  destruct (lookup_lt_is_Some_2 es n ltac:(lia)) as [e He]. assert (Hok : slot_ok e) by (by eapply Forall_lookup_1; [apply Hd|]).
  apply twp_bind. eapply twp_read_dirent; [exact Hd|exact He|]. apply twp_bind. eapply twp_deref; [by apply de_inum_mk, Hok|].
  destruct (e.1 =? 0) eqn:H0.
  - apply twp_ret. by rewrite (first_slot_is _ _ _ _ He Hn H0) in HQ.
  - replace (16 * Z.of_nat n + dirent_size) with (16 * Z.of_nat (S n)) by (unfold dirent_size; lia). refine (IH (S n) _ _); [lia|].
    destruct (decide (n = first_slot slot_unused es)) as [Heq|]; [|lia]. rewrite Heq in He. apply first_slot_found in He. unfold slot_unused in He. congruence.
Qed.

(** *** Sequences of operations *)

Inductive dop := Lookup (name : list Z) | Link (name : list Z) (inum : Z).
Inductive dres := Found (r : option (nat * Z)) | Linked (r : Z).
Definition do_dop (dp : nat) (o : dop) : KM dres :=
  match o with
  | Lookup name => let* r := dirlookup (S fuel) dp name in ret (Found r)
  | Link name inum => let* r := dirlink (S fuel) dp name inum in ret (Linked r)
  end.
Fixpoint do_dops (dp : nat) (ops : list dop) : KM (list dres) :=
  match ops with
  | [] => ret []
  | o :: ops => let* r := do_dop dp o in let* rs := do_dops dp ops in ret (r :: rs)
  end.
Definition dop_ok (o : dop) : Prop :=
  match o with
  | Lookup name => readable (Z.to_nat DIRSIZ) name
  | Link name inum => readable (Z.to_nat DIRSIZ) name ∧ 0 < inum < 2 ^ 16
  end.
(** the operations on the map; [t] is a table of inodes, and [full] says that
    the disk is full *)
Definition map_op (full : Prop) (t : list inode) (o : dop) (es : list slot) (r : dres) (es' : list slot) : Prop :=
  match o, r with
  | Lookup name, Found None => dmap es !! key name = None ∧ es' = es
  | Lookup name, Found (Some (ip, off)) =>
      ∃ k nm, off = 16 * Z.of_nat k ∧ es !! k = Some nm ∧ key nm.2 = key name ∧ dmap es !! key name = Some nm.1 ∧ has_inode t ip dev nm.1 ∧ es' = es
  | Link name inum, Linked r =>
      r = 0 ∧ dmap es !! key name = None ∧ dmap es' = <[key name := inum]> (dmap es) ∨
      r = -1 ∧ es' = es ∧ (is_Some (dmap es !! key name) ∨ full ∨ Z.of_nat (length (entries es)) = MAXFILE * BSIZE)
  | _, _ => False
  end.
Fixpoint map_ops (full : Prop) (t : list inode) (ops : list dop) (es : list slot) (rs : list dres) (es' : list slot) : Prop :=
  match ops, rs with
  | [], [] => es' = es
  | o :: ops, r :: rs => ∃ es1, map_op full t o es r es1 ∧ map_ops full t ops es1 rs es'
  | _, _ => False
  end.
Definition kept (t t' : list inode) : Prop := ∀ ip d n, has_inode t ip d n → has_inode t' ip d n.
Lemma igot_keeps t inum ip t' : igot t dev inum ip t' → kept t t'.
Proof using TE.
  intros Hg ip0 d n (j & Hj & H0 & Hd & Hn). destruct (igot_kept _ _ _ _ _ _ _ Hg Hj H0) as (r & Hr & Hle).
  eexists. split; [exact Hr|]. cbn. split; [lia|done].
Qed.
Lemma same_refs_kept t t' : same_refs t t' → kept t t'.
Proof using TE. intros [_ Hs] ip d n (j & Hj & H0 & Hd & Hn). destruct (Hs _ _ Hj) as (x & Hx & _ & Heq). rewrite Heq in Hx by done. by exists j. Qed.
Lemma dir_at_table k τ dp i es t' r : dir_at (S k) τ dp i es → table_ok k t' → t' !! dp = Some (i <| i_ref := r |>) → 0 < r →
  dir_at k (τ <| ti := t' |>) dp (i <| i_ref := r |>) es ∧ fchange τ i 1 (i <| i_ref := r |>) (τ <| ti := t' |>).
Proof using TE.
  intros [[F1 F2 F3 F4 F5] R S T I P O U] Ht Hi Hr. split.
  - split; [split; try done|by destruct R|done..| |done].
    refine (Nat.le_trans _ _ _ _ O). apply Nat.add_le_mono_r, Nat.add_le_mono_l. lia.
  - destruct (fchange_refl τ i 1 F4). split; try done. intros []. by split.
Qed.
(** what [dirlink] writes *)
Lemma dir_at_written k τ dp i es w name inum i' τ' : dir_at (S k) τ dp i es → readable (Z.to_nat DIRSIZ) name → 0 < inum < 2 ^ 16 →
  (w = 0 ∨ w = 16) → dmap es !! key name = None → let m := first_slot slot_unused es in
  writei_post τ dp i (entries es) (16 * m) (take (Z.to_nat w) (mk_dirent inum (padded (Z.to_nat DIRSIZ) name))) 1 i' τ' →
  ∃ es', dir_at k τ' dp i' es' ∧ fchange τ i 1 i' τ' ∧ kept (ti τ) (ti τ') ∧
    if decide (w = 0) then es' = es else dmap es' = <[key name := inum]> (dmap es).
Proof using Hone Hlo.
  intros Hd Hname Hin Hw Hno m HP. pose proof (writei_change _ _ _ _ _ _ _ _ _ HP) as HC. destruct HP as [W1 W2 W3 W4 W5 W6 W7 W8 W9 W10].
  pose proof (first_slot_le slot_unused es) as Hle. fold m in Hle. pose proof (da_slots _ _ _ _ _ Hd) as Hes.
  set (e := (inum, padded (Z.to_nat DIRSIZ) name)). assert (He : slot_ok e) by (split; [cbn; lia|apply padded_length]).
  set (es' := if decide (w = 0) then es else put_slot m e es). exists es'.
  assert (Hrep : file_rep (tv τ') i' (entries es')).
  { unfold es'. destruct Hw as [-> | ->].
    - rewrite splice_nil in W4 by (rewrite entries_length by done; lia). done.
    - rewrite take_ge in W4 by (change (length (mk_dirent e.1 e.2) ≤ 16)%nat; by rewrite mk_dirent_length). rewrite decide_False, <- (splice_slot es m e) by done. exact W4. }
  assert (Hi : ti τ !! dp = Some i) by apply Hd. assert (Href : i_ref i' = i_ref i) by (by rewrite W1).
  split; [|split; [done|split]].
  - split; [done|done| |rewrite W1; exact (da_type _ _ _ _ _ Hd)|unfold inode_ok; rewrite W1; exact (da_inode _ _ _ _ _ Hd)|rewrite Href; apply Hd| |].
    + unfold es'. case_decide; [done|]. apply Forall_app. split; [by apply Forall_take|]. constructor; [done|by apply Forall_drop].
    + pose proof (fc_log _ _ _ _ _ HC). pose proof (da_room _ _ _ _ _ Hd). rewrite (fc_inum _ _ _ _ _ HC). lia.
    + destruct (da_table _ _ _ _ _ Hd) as [T1 T2 T3]. rewrite W2. pose proof (unused_insert _ _ _ i' Hi) as Hun. rewrite Href in Hun.
      split; [by rewrite length_insert|case_decide; lia|]. intros ip j Hj. destruct (decide (ip = dp)) as [->|Hne].
      * rewrite list_lookup_insert_eq in Hj by (by eapply lookup_lt_Some). injection Hj as <-. destruct (T3 _ _ Hi). lia.
      * rewrite list_lookup_insert_ne in Hj by done. destruct (T3 _ _ Hj). lia.
  - rewrite W2. intros ip d n (j & Hj & H0 & Hdv & Hn). destruct (decide (ip = dp)) as [->|Hne].
    + exists i'. rewrite list_lookup_insert_eq by (by eapply lookup_lt_Some). simplify_eq. rewrite W1. done.
    + exists j. by rewrite list_lookup_insert_ne.
  - unfold es'. case_decide; [done|]. unfold m, e. rewrite dmap_put; [by rewrite key_padded|lia|by rewrite key_padded].
Qed.
Lemma twp_do_dop k τ dp i es o (Q : dres → tx → Prop) : dir_at (S k) τ dp i es → dop_ok o →
  (∀ r es' i' τ', map_op (no_free (tv τ')) (ti τ') o es r es' → dir_at k τ' dp i' es' → fchange τ i 1 i' τ' → kept (ti τ) (ti τ') → Q r τ') →
  twp (do_dop dp o) τ Q.
Proof using Hone Hlo IT.
  intros Hd Ho HQ. pose proof (fa_inode _ _ _ (da_file _ _ _ _ _ Hd)) as Hi.
  assert (Hsame : ∀ t2, same_refs (ti τ) t2 → dir_at k (τ <| ti := t2 |>) dp i es ∧ fchange τ i 1 i (τ <| ti := t2 |>)).
  { intros t2 Hs. destruct (proj2 Hs _ _ Hi) as (x & Hx & _ & Heq). rewrite Heq in Hx by apply Hd.
    assert (Hid : i <| i_ref := i_ref i |> = i) by (by destruct i). pose proof (dir_at_table k τ dp i es t2 (i_ref i) Hd) as H. rewrite Hid in H. apply H; [|done|apply Hd].
    eapply same_refs_ok; [|exact Hs]. destruct (da_table _ _ _ _ _ Hd) as [T1 T2 T3]. split; [done|lia|]. intros ip j Hj. destruct (T3 _ _ Hj). lia. }
  assert (Hrefl : same_refs (ti τ) (ti τ)) by (split; [done|]; intros ip j Hj; by exists j).
  assert (Hτ : τ <| ti := ti τ |> = τ) by (by destruct τ). pose proof (Hsame _ Hrefl) as [Hd0 Hc0]. rewrite Hτ in Hd0, Hc0.
  destruct o as [name|name inum]; cbn [do_dop].
  - apply twp_bind. eapply twp_dirlookup; [exact Hd|done| |].
    + intros Hno. apply twp_ret. apply (HQ _ es i); [by split|done|done|by apply same_refs_kept].
    + intros n nm ip t' Hn Hk Hm Hg. apply twp_ret. destruct (igot_kept _ _ _ _ _ _ _ Hg Hi (da_ref _ _ _ _ _ Hd)) as (r & Hr & Hle).
      destruct (dir_at_table k τ dp i es t' r) as [Hd' Hc']; [done|by eapply igot_ok; [apply Hd|]|done|pose proof (da_ref _ _ _ _ _ Hd); lia|].
      eapply (HQ _ es); [|exact Hd'|exact Hc'|by eapply igot_keeps]. exists n, nm. split_and!; try done. by eapply igot_has.
  - destruct Ho as [Hname Hin]. apply twp_bind. unfold dirlink. apply twp_bind. eapply twp_dirlookup; [exact Hd|done| |].
    2:{ intros n nm ip t' Hn Hk Hm Hg. apply twp_bind. eapply twp_iput_igot; [apply Hd|exact Hg|]. intros t2 Hs. apply twp_ret, twp_ret.
        destruct (Hsame _ Hs) as [Hd2 Hc2]. eapply (HQ _ es); [|exact Hd2|exact Hc2|by apply same_refs_kept]. right. split; [done|split; [done|left; by eexists]]. }
    intros Hno. apply twp_bind. eapply twp_rdt; [exact Hi|]. apply twp_bind. eapply twp_dirlink_find; [exact Hd|].
    apply twp_bind. eapply twp_deref; [by apply strncpy_name|]. assert (u16 inum = inum) as -> by (by apply Z.mod_small; lia).
    set (m := first_slot slot_unused es). pose proof (first_slot_le slot_unused es) as Hle. fold m in Hle.
    destruct (da_size _ _ _ _ _ Hd) as [Hs Hmax]. pose proof (da_slots _ _ _ _ _ Hd) as Hes. pose proof (entries_length es Hes) as Hlen.
    assert (HM : MAXFILE * BSIZE = 17152 * 16) by done. change dirent_size with 16. apply twp_bind.
    destruct (decide (MAXFILE * BSIZE < 16 * Z.of_nat m + 16)) as [Hbad|Hgood].
    { eapply twp_writei_bad; [apply Hd|apply Hd|lia|done|lia|right; exact Hbad|]. apply twp_ret, twp_ret.
      apply (HQ _ es i); [|done|done|by apply same_refs_kept]. right. split; [done|split; [done|right; right]]. lia. }
    eapply (twp_writei _ Hlo Hone τ dp i (entries es) _ _ 16 1); [apply Hd|apply Hd|apply Hd|rewrite Hlen; lia| |lia|..].
    + pose proof (mk_dirent_length (inum, padded (Z.to_nat DIRSIZ) name)) as H. cbn [fst snd] in H. rewrite H; [done|]. split; [cbn; lia|apply padded_length].
    + change (Z.of_nat 1 * BSIZE) with (16 * 64). change BSIZE with (16 * 64). rewrite Z.mul_mod_distr_l by done. pose proof (Z.mod_pos_bound (Z.of_nat m) 64 ltac:(done)). lia.
    + done.
    + pose proof (da_room _ _ _ _ _ Hd). lia.
    + intros w i' τ' Hw Hstop HP. replace (Z.to_nat (16 * Z.of_nat m)) with (16 * m)%nat in HP by lia.
      assert (Hw' : w = 0 ∨ w = 16).
      { destruct (decide (w = 16)); [by right|left]. destruct Hstop as [_ [|Hmod]]; [lia|done|]. change BSIZE with (16 * 64) in Hmod.
        apply Z.mod_divide in Hmod; [|done]. destruct Hmod as [q Hq]. lia. }
      destruct (dir_at_written k τ dp i es w name inum i' τ' Hd Hname Hin Hw' Hno HP) as (es' & Hd' & Hc' & Hk' & Hes').
      assert (Hop : map_op (no_free (tv τ')) (ti τ') (Link name inum) es (Linked (if w =? 16 then 0 else -1)) es').
      { destruct Hw' as [-> | ->]; [right|by left]. split; [done|split; [done|]]. right. left. by apply Hstop. }
      destruct (w =? 16); cbn [negb]; (apply twp_ret, twp_ret; by eapply (HQ _ es' i')).
Qed.
Lemma map_op_mono (P P' : Prop) t t' o es r es' : (P → P') → kept t t' → map_op P t o es r es' → map_op P' t' o es r es'.
Proof using TE.
  intros HP Ht. destruct o, r; cbn; [|done|done|naive_solver]. destruct r as [[ip off]|]; [|done].
  intros (k & nm & H1 & H2 & H3 & H4 & H5 & H6). exists k, nm. split_and!; try done. by apply Ht.
Qed.
Lemma twp_do_dops dp ops : ∀ τ i es (Q : list dres → tx → Prop), dir_at (length ops) τ dp i es → Forall dop_ok ops →
  (∀ rs es' i' τ', map_ops (no_free (tv τ')) (ti τ') ops es rs es' → dir_at 0 τ' dp i' es' → fchange τ i (length ops) i' τ' →
    kept (ti τ) (ti τ') → Q rs τ') →
  twp (do_dops dp ops) τ Q.
Proof using Hone Hlo IT.
  induction ops as [|o ops IH]; intros τ i es Q Hd Hops HQ; cbn [do_dops].
  { apply twp_ret. apply (HQ _ es i); [done|done|apply fchange_refl, Hd|by intros ip d n]. }
  apply Forall_cons in Hops as [Ho Hops]. apply twp_bind. eapply twp_do_dop; [exact Hd|done|]. intros r es1 i1 τ1 Hop Hd1 Hc1 Hk1.
  apply twp_bind. eapply IH; [exact Hd1|done|]. intros rs es2 i2 τ2 Hops2 Hd2 Hc2 Hk2. apply twp_ret.
  apply (HQ _ es2 i2); [|done|by apply (fchange_trans _ _ 1 i1 τ1)|by intros ip d n H; apply Hk2, Hk1].
  exists es1. split; [|done]. eapply map_op_mono; [by eapply fchange_full|done|exact Hop].
Qed.

(** C32: a directory is a finite map from names to inode numbers.  For a locked
    directory, in a transaction with room in the log and in the table of inodes,
    any sequence of [dirlookup] and [dirlink] runs without panic.  Names are
    compared by their first [DIRSIZ] characters.  A lookup finds a name exactly
    when it is in the map, and then returns the offset of its entry and a table
    entry that refers to its inode; a link adds the name, or returns -1 and
    changes no entry when the name is there, the disk is full or the directory has its
    largest size.  The inode stays on the disk as it is in memory, no block of
    another file is changed, an operation adds at most one block to the log beside those of
    the map, the inode and the indirect block, and inodes in use stay where they
    are in the table. *)
Theorem directory_refines_map dp ops τ i es s : dir_at (length ops) τ dp i es → Forall dop_ok ops → tx_at τ s →
  wp te_E te_G te_R (do_dops dp ops s) (λ rs s', ∃ τ' es' i', tx_at τ' s' ∧ map_ops (no_free (tv τ')) (ti τ') ops es rs es' ∧
    dir_at 0 τ' dp i' es' ∧ fchange τ i (length ops) i' τ' ∧ kept (ti τ) (ti τ')).
Proof using Hone Hlo IT.
  intros Hd Hops Hs. eapply wp_mono; [|eapply (twp_wp _ τ s (λ rs τ', ∃ es' i', map_ops (no_free (tv τ')) (ti τ') ops es rs es' ∧
    dir_at 0 τ' dp i' es' ∧ fchange τ i (length ops) i' τ' ∧ kept (ti τ) (ti τ'))); [|exact Hs]].
  - intros rs s' (τ' & Ht & es' & i' & H). by exists τ', es', i'.
  - eapply twp_do_dops; [done..|]. intros rs es' i' τ' H1 H2 H3 H4. by exists es', i'.
Qed.
End ops.

(** ** An example *)

Section example.
Import ExampleDisk.
#[local] Existing Instance two_pages.
Definition link_ops : list dop := [Link [99; 97; 116; 0] 7; Lookup [99; 97; 116; 0]; Link [99; 97; 116; 0] 8; Lookup [46; 0]].
Lemma directory_refines_map_witness : runs (do_dops 0 0 link_ops kernel0) (λ rs s', ∃ τ' es',
  tx_at τ' s' ∧ map_ops (no_free (tv τ')) (ti τ') link_ops [] rs es').
Proof.
  assert (Hok : Forall dop_ok link_ops).
  { assert (H : ∀ l, 0 ∈ l → readable (Z.to_nat DIRSIZ) l) by (intros; by left).
    unfold link_ops. rewrite !Forall_cons, Forall_nil. cbn [dop_ok]. split_and!; (done || lia || (apply H; set_solver)). }
  assert (Hd : dir_at (length link_ops) tx0 0 dir0 []).
  { split; [exact file_at0|exact file_rep0|done|done|by compute|done| |].
    - apply (bool_decide_unpack _). by vm_compute.
    - split; [done|apply (bool_decide_unpack _); by vm_compute|]. assert (Hall : Forall (λ j, 0 ≤ i_ref j ≤ 1) (ti tx0)) by (apply (bool_decide_unpack _); by vm_compute).
      intros ip j Hj. apply (Forall_lookup_1 _ _ _ _ Hall) in Hj. cbn. lia. }
  assert (Hone : sb_size sb0 ≤ BPB) by (by compute).
  pose proof (directory_refines_map 0 layout0 Hone 0 link_ops tx0 dir0 [] kernel0 Hd Hok tx_at0) as H.
  revert H. generalize (do_dops 0 0 link_ops kernel0). intros m H. apply runs_wp.
  eapply wp_mono; [|exact H]. intros rs s' (τ' & es' & i' & H1 & H2 & _). by exists τ', es'.
Defined.
End example.
