(* ===== verification/Mkfs.v ===== *)
(** * Building the image of a file system, [mkfs/mkfs.c]

    [mkfs] runs on the build machine and writes the disk the kernel boots from.
    Its output file is the array of its blocks and its length in blocks; the
    files it copies are what [read] returns for them, piece by piece.  A [die]
    or a failed [assert] ends the run.  The byte order of the build machine is
    taken to be that of RISC-V, so that [xint] and [xshort] only cut to size.

    The theorem says that the image is one the kernel code of [FreeMap],
    [FileData] and [Dirs] works on, and what it contains. *)

From S2P Require Import Prelude Fsdata Kstate Bytes Layout Proc Block Journal TxLogic Fs FreeMap FileData Dirs.
#[local] Open Scope Z_scope.

(** ** The program *)

Definition FSSIZE : Z := 2000.
Definition NINODES : Z := 200.
Definition nbitmap : Z := FSSIZE / BPB + 1.
Definition ninodeblocks : Z := NINODES / IPB + 1.
Definition nlog : Z := Z.of_nat LOGBLOCKS + 1.
Definition nmeta : Z := 2 + nlog + ninodeblocks + nbitmap.
Definition nblocks : Z := FSSIZE - nmeta.

Definition xshort (x : Z) : Z := u16 x.
Definition xint (x : Z) : Z := u32 x.

(** the superblock, a variable that [main] sets once *)
Definition the_sb : superblock :=
  mk_superblock FSMAGIC (xint FSSIZE) (xint nblocks) (xint NINODES) (xint nlog) (xint 2) (xint (2 + nlog))
    (xint (2 + nlog + ninodeblocks)).

Record dinode := mk_dinode {
  d_type : Z; d_major : Z; d_minor : Z; d_nlink : Z; d_size : Z; d_addrs : list Z
}.
#[export] Instance eta_dinode : Eta dinode := λ r,
  mk_dinode (d_type r) (d_major r) (d_minor r) (d_nlink r) (d_size r) (d_addrs r).
#[export] Instance set_d_size : Setter d_size. Proof. solve_setter. Defined.
#[export] Instance set_d_addrs : Setter d_addrs. Proof. solve_setter. Defined.

(** the output file and the variables [freeinode] and [freeblock] *)
Record mkst := mk_mkst { img : Z → list Z; img_len : Z; freeinode : Z; freeblock : Z }.
#[export] Instance eta_mkst : Eta mkst := λ r, mk_mkst (img r) (img_len r) (freeinode r) (freeblock r).
#[export] Instance set_img : Setter img. Proof. solve_setter. Defined.
#[export] Instance set_img_len : Setter img_len. Proof. solve_setter. Defined.
#[export] Instance set_freeinode : Setter freeinode. Proof. solve_setter. Defined.
#[export] Instance set_freeblock : Setter freeblock. Proof. solve_setter. Defined.
#[local] Abbreviation M := (K mkst).

Definition die {A} (s : string) : M A := panic s.
Definition assert_ (b : bool) : M unit := if b then ret tt else panic "assert".

(** writing past the end extends the file, and a hole reads as zeros *)
Definition wsect (sec : Z) (buf : list Z) : M unit :=
  modify (λ s, s <| img ::= setv sec buf |> <| img_len ::= Z.max (sec + 1) |>).
Definition rsect (sec : Z) : M (list Z) :=
  let* s := get in
  if sec <? img_len s then ret (img s sec) else die "read".

(** a [struct dinode] in the bytes of a block *)
Definition put_dinode (buf : list Z) (off : Z) (d : dinode) : option (list Z) :=
  b ← store_le 2 buf off (d_type d);
  b ← store_le 2 b (off + 2) (d_major d);
  b ← store_le 2 b (off + 4) (d_minor d);
  b ← store_le 2 b (off + 6) (d_nlink d);
  b ← store_le 4 b (off + 8) (d_size d);
  store_bytes b (off + 12) (d_addrs d ≫= Z_to_little_endian 4 8).
Definition get_dinode (buf : list Z) (off : Z) : option dinode :=
  t ← load_le 2 buf off;
  ma ← load_le 2 buf (off + 2);
  mi ← load_le 2 buf (off + 4);
  nl ← load_le 2 buf (off + 6);
  sz ← load_le 4 buf (off + 8);
  a ← load_addrs buf (off + 12) (S NDIRECT);
  Some (mk_dinode t ma mi nl sz a).

Definition winode (inum : Z) (ip : dinode) : M unit :=
  let bn := IBLOCK inum the_sb in
  let* buf := rsect bn in
  let* buf := deref (put_dinode buf (dinode_off inum) ip) in
  wsect bn buf.
Definition rinode (inum : Z) : M dinode :=
  let bn := IBLOCK inum the_sb in
  let* buf := rsect bn in
  deref (get_dinode buf (dinode_off inum)).

Definition ialloc (type : Z) : M Z :=
  let* s := get in
  let inum := freeinode s in
  modify (λ s, s <| freeinode := u32 (inum + 1) |>) ;;
  winode inum (mk_dinode (xshort type) 0 0 (xshort 1) (xint 0) (replicate (S NDIRECT) 0)) ;;
  ret inum.

(** [for(i = 0; i < used; i++) buf[i/8] |= 0x1 << (i%8)] *)
Fixpoint set_bits (i : nat) (buf : list Z) : list Z :=
  match i with
  | O => buf
  | S i =>
      let buf := set_bits i buf in
      let k := Z.of_nat i in
      <[Z.to_nat (k / 8) := Z.lor (default 0 (buf !! Z.to_nat (k / 8))) (Z.shiftl 1 (k mod 8)) mod 256]> buf
  end.
Definition balloc (used : Z) : M unit :=
  assert_ (used <? BPB) ;;
  wsect (sb_bmapstart the_sb) (set_bits (Z.to_nat used) (replicate (Z.to_nat BSIZE) 0)).

(** [freeblock++] *)
Definition next_block : M Z :=
  let* s := get in
  modify (λ s, s <| freeblock ::= λ b, u32 (b + 1) |>) ;;
  ret (freeblock s).

(** the block with number [fbn] of the file, which is taken if there is none *)
Definition direct_block (din : dinode) (fbn : Z) : M (dinode * Z) :=
  let* x := deref (d_addrs din !! Z.to_nat fbn) in
  let* din := (if xint x =? 0 then
      let* b := next_block in
      ret (din <| d_addrs ::= <[Z.to_nat fbn := xint b]> |>)
    else ret din) in
  let* x := deref (d_addrs din !! Z.to_nat fbn) in
  ret (din, xint x).
Definition indirect_block (din : dinode) (fbn : Z) : M (dinode * Z) :=
  let* x := deref (d_addrs din !! NDIRECT) in
  let* din := (if xint x =? 0 then
      let* b := next_block in
      ret (din <| d_addrs ::= <[NDIRECT := xint b]> |>)
    else ret din) in
  let* ind := deref (d_addrs din !! NDIRECT) in
  let* indirect := rsect (xint ind) in
  let off := 4 * (fbn - Z.of_nat NDIRECT) in
  let* x := deref (load_le 4 indirect off) in
  let* indirect := (if x =? 0 then
      let* b := next_block in
      let* indirect := deref (store_le 4 indirect off (xint b)) in
      wsect (xint ind) indirect ;;
      ret indirect
    else ret indirect) in
  let* x := deref (load_le 4 indirect off) in
  ret (din, xint x).
(** [while(n > 0)], where [p] are the [n] bytes that are left *)
Fixpoint iappend_loop (turns : nat) (din : dinode) (off : Z) (p : list Z) : M (dinode * Z) :=
  match turns with
  | O => stop_with StopFuel
  | S turns =>
      let n := Z.of_nat (length p) in
      if 0 <? n then
        let fbn := off / BSIZE in
        assert_ (fbn <? MAXFILE) ;;
        let* r := (if fbn <? Z.of_nat NDIRECT then direct_block din fbn else indirect_block din fbn) in
        let n1 := Z.min n (u32 ((fbn + 1) * BSIZE - off)) in
        let* buf := rsect r.2 in
        let* buf := deref (store_bytes buf (off - fbn * BSIZE) (take (Z.to_nat n1) p)) in
        wsect r.2 buf ;;
        iappend_loop turns r.1 (u32 (off + n1)) (drop (Z.to_nat n1) p)
      else ret (din, off)
  end.
Definition iappend (inum : Z) (p : list Z) : M unit :=
  let* din := rinode inum in
  let off := xint (d_size din) in
  let* r := iappend_loop (S (turns (Z.of_nat (length p)) BSIZE)) din off p in
  winode inum (r.1 <| d_size := xint r.2 |>).

(** a [struct dirent], the name padded with zeros *)
Definition dirent (inum : Z) (name : list Z) : list Z :=
  mk_dirent (xshort inum) (name ++ replicate (Z.to_nat DIRSIZ - length name) 0).

(** [argv[i]] without [user/] and without the leading underscore *)
Definition user_dir : list Z := str "user/".
Definition shortname (arg : list Z) : list Z :=
  if bool_decide (take 5 arg = user_dir) then drop 5 arg else arg.
Definition without_underscore (name : list Z) : list Z :=
  match name with
  | c :: rest => if c =? 95 then rest else name
  | [] => []
  end.
(** the loop over the arguments; [host] says what [read] returns for a file,
    piece by piece, or that it cannot be opened *)
Definition add_file (host : list Z → option (list (list Z))) (rootino : Z) (arg : list Z) : M unit :=
  let name := shortname arg in
  assert_ (bool_decide (chr "/" ∉ name)) ;;
  match host arg with
  | None => die "open"
  | Some pieces =>
      let name := without_underscore name in
      assert_ (Z.of_nat (length name) <=? DIRSIZ) ;;
      let* inum := ialloc T_FILE in
      iappend rootino (dirent inum name) ;;
      for_each pieces (λ buf, iappend inum buf)
  end.

(** [main], after the output file has been opened and emptied *)
Definition sb_bytes (sb : superblock) : list Z :=
  [sb_magic sb; sb_size sb; sb_nblocks sb; sb_ninodes sb; sb_nlog sb; sb_logstart sb; sb_inodestart sb; sb_bmapstart sb]
    ≫= Z_to_little_endian 4 8.
Definition main (host : list Z → option (list (list Z))) (args : list (list Z)) : M unit :=
  modify (λ s, s <| freeblock := nmeta |>) ;;
  for_each (seq 0 (Z.to_nat FSSIZE)) (λ i, wsect (Z.of_nat i) (replicate (Z.to_nat BSIZE) 0)) ;;
  wsect 1 (sb_bytes the_sb ++ replicate (Z.to_nat BSIZE - 32) 0) ;;
  let* rootino := ialloc T_DIR in
  assert_ (rootino =? ROOTINO) ;;
  iappend rootino (dirent rootino (str ".")) ;;
  iappend rootino (dirent rootino (str "..")) ;;
  for_each args (add_file host rootino) ;;
  let* din := rinode rootino in
  let off := xint (d_size din) in
  let off := u32 ((off / BSIZE + 1) * BSIZE) in
  winode rootino (din <| d_size := xint off |>) ;;
  let* s := get in
  balloc (freeblock s).

(** ** Inodes in their blocks *)

#[local] Abbreviation mwp := (wp (λ _, False) (λ _, False) (λ _ _, False)).
(** the kernel's view of an inode of the disk *)
Definition as_inode (inum : Z) (d : dinode) : inode :=
  mk_inode ROOTDEV inum 1 1 (d_type d) (d_major d) (d_minor d) (d_nlink d) (d_size d) (d_addrs d).
Record din_ok (d : dinode) : Prop := {
  dk_type : 0 ≤ d_type d < 2 ^ 16; dk_major : 0 ≤ d_major d < 2 ^ 16; dk_minor : 0 ≤ d_minor d < 2 ^ 16;
  dk_nlink : 0 ≤ d_nlink d < 2 ^ 16; dk_size : 0 ≤ d_size d < 2 ^ 32;
  dk_len : length (d_addrs d) = S NDIRECT; dk_addrs : Forall (λ x, 0 ≤ x < 2 ^ 32) (d_addrs d)
}.
Lemma load_addrs_spec (b : list Z) n off a : length a = n → (∀ k x, a !! k = Some x → load_le 4 b (off + 4 * Z.of_nat k) = Some x) →
  load_addrs b off n = Some a.
Proof.
  intros Hl Ha. apply mapM_Some, Forall2_same_length_lookup_2; [by rewrite length_seq|].
  intros i k x [-> _]%lookup_seq Hx. by apply Ha.
Qed.
Lemma get_dinode_is b inum d : din_ok d → dinode_is b (as_inode inum d) → get_dinode b (dinode_off inum) = Some d.
Proof.
  intros [H1 H2 H3 H4 H5 H6 H7] [I1 I2 I3 I4 I5 I6]. cbn [as_inode i_inum i_type i_major i_minor i_nlink i_size i_addrs] in *. unfold get_dinode. rewrite I1, I2, I3, I4, I5. cbn [mbind option_bind].
  rewrite (load_addrs_spec b _ _ (d_addrs d)); [|done|].
  - cbn. unfold u16, u32. rewrite !Z.mod_small by done. by destruct d.
  - intros k x Hk. rewrite (I6 k x Hk). f_equal. apply Z.mod_small. by apply (Forall_lookup_1 _ _ _ _ H7 Hk).
Qed.

(** other slots of the block *)
Lemma dinode_off_other inum inum' : inum mod IPB ≠ inum' mod IPB →
  dinode_off inum' + 64 ≤ dinode_off inum ∨ dinode_off inum + 64 ≤ dinode_off inum'.
Proof. intros H. unfold dinode_off, dinode_size. lia. Qed.
Lemma get_dinode_ext b b' off : (∀ j, off ≤ j < off + 64 → byte_at b' j = byte_at b j) → get_dinode b' off = get_dinode b off.
Proof.
  intros Hb. assert (Hl : ∀ n o, off ≤ o → o + Z.of_nat n ≤ off + 64 → load_le n b' o = load_le n b o).
  { intros n o H1 H2. unfold load_le. rewrite (load_bytes_ext b b'); [done|]. intros i Hi. apply Hb. lia. }
  unfold get_dinode. rewrite !Hl by lia. do 5 (apply option_bind_ext; [|done]; intros ?).
  assert (load_addrs b' (off + 12) (S NDIRECT) = load_addrs b (off + 12) (S NDIRECT)) as ->; [|done].
  assert (Hm : ∀ ks, (∀ k, k ∈ ks → (k < 13)%nat) → mapM (λ k, load_le 4 b' (off + 12 + 4 * Z.of_nat k)) ks = mapM (λ k, load_le 4 b (off + 12 + 4 * Z.of_nat k)) ks).
  { induction ks as [|k ks IH]; intros Hks; [done|]. cbn [mapM]. pose proof (Hks k ltac:(by left)). rewrite Hl by lia. rewrite IH by (intros y Hy; apply Hks; by right). done. }
  apply Hm. intros k Hk%elem_of_seq. change (S NDIRECT) with 13%nat in Hk. lia.
Qed.
Lemma put_get_dinode b inum d : length b = Z.to_nat BSIZE → din_ok d → ∃ b', put_dinode b (dinode_off inum) d = Some b' ∧
  length b' = Z.to_nat BSIZE ∧ get_dinode b' (dinode_off inum) = Some d ∧
  ∀ inum', inum mod IPB ≠ inum' mod IPB → get_dinode b' (dinode_off inum') = get_dinode b (dinode_off inum').
Proof.
  intros Hl Hd. destruct (dinode_stored b (as_inode inum d)) as (d1 & d2 & d3 & d4 & d5 & d6 & S1 & S2 & S3 & S4 & S5 & S6 & _ & _ & _ & _ & _ & L6 & HI & Hout);
    [done|apply Hd|]. cbn [as_inode i_inum i_type i_major i_minor i_nlink i_size i_addrs] in *. exists d6. unfold put_dinode. rewrite S1. cbn [mbind option_bind]. rewrite S2. cbn [mbind option_bind]. rewrite S3. cbn [mbind option_bind].
  rewrite S4. cbn [mbind option_bind]. rewrite S5. cbn [mbind option_bind].
  split; [done|split; [done|split; [by apply get_dinode_is|]]]. intros inum' Hne. pose proof (dinode_off_other _ _ Hne). pose proof (dinode_range inum').
  apply get_dinode_ext. intros j Hj. cbn. rewrite (proj2 (Z.leb_le _ _)) by lia. apply Hout; lia.
Qed.

(** ** The data of a file *)

(** [nb] blocks of data need this many blocks, with the indirect block *)
Definition blocks_for (nb : Z) : Z := nb + (if Z.of_nat NDIRECT <? nb then 1 else 0).
(** the addresses [a] are those of a file with the bytes [l], which has [nb]
    blocks, all of them below [fb]; the rest of the last block holds zeros *)
Definition padded_to (nb : Z) (l : list Z) : list Z := l ++ replicate (Z.to_nat (nb * BSIZE) - length l) 0.
Record mdata (fb nb : Z) (v : Z → list Z) (a l : list Z) : Prop := {
  md_file : file_ok (λ _ n, nmeta ≤ n < fb) v a;
  md_bytes : fbytes v a (padded_to nb l);
  md_nb : 0 ≤ nb ≤ MAXFILE;
  md_fits : Z.of_nat (length l) ≤ nb * BSIZE;
  md_block k : index_ok k → (fblock v a k ≠ 0 ↔ k < nb);
  md_ind : ind a ≠ 0 ↔ Z.of_nat NDIRECT < nb;
  md_words : Forall (λ x, 0 ≤ x < 2 ^ 32) a
}.
(** from [v] to [v'] only blocks of the file and fresh blocks are changed *)
Record mchange (fb : Z) (v : Z → list Z) (a : list Z) (fb' : Z) (v' : Z → list Z) (a' : list Z) : Prop := {
  mc_same n : n < fb → ¬ of_file v a n → v' n = v n;
  mc_of n : of_file v' a' n → of_file v a n ∨ fb ≤ n < fb';
  mc_fresh n : fb' ≤ n → v' n = v n;
  mc_le : fb ≤ fb'
}.
Lemma mchange_refl fb v a : mchange fb v a fb v a.
Proof. split; [done|by left|done|lia]. Qed.
Lemma mchange_trans fb v a fb1 v1 a1 fb2 v2 a2 : mchange fb v a fb1 v1 a1 → mchange fb1 v1 a1 fb2 v2 a2 → mchange fb v a fb2 v2 a2.
Proof.
  intros [S1 O1 F1 L1] [S2 O2 F2 L2]. split; [| | |lia].
  - intros n Hn Hof. rewrite S2; [by apply S1|lia|]. intros [?|?]%O1; [done|lia].
  - intros n [H|H]%O2; [|right; lia]. apply O1 in H as [?|?]; [by left|right; lia].
  - intros n Hn. rewrite F2, F1 by lia. done.
Qed.
(** a block is not one of the file when it is not yet taken *)
Lemma fresh_block fb nb v a l : mdata fb nb v a l → ¬ of_file v a fb.
Proof. intros Hm Hof. pose proof (fo_data _ _ _ (md_file _ _ _ _ _ Hm) _ Hof) as H. cbn in H. lia. Qed.
(** the bytes are still there when blocks have been added *)
Lemma bytes_kept nb v a l v' a' : fbytes v a l → Z.of_nat (length l) ≤ nb * BSIZE → nb ≤ MAXFILE →
  (∀ k, index_ok k → k < nb → fblock v' a' k = fblock v a k) →
  (∀ k, index_ok k → k < nb → fblock v a k ≠ 0 → v' (fblock v a k) = v (fblock v a k)) → fbytes v' a' l.
Proof.
  intros Hl Hfit Hnb Hf Hv j x Hj. pose proof (lookup_lt_Some _ _ _ Hj).
  assert (Hk : Z.of_nat j / BSIZE < nb) by (apply Z.div_lt_upper_bound; [done|lia]).
  assert (Hik : index_ok (Z.of_nat j / BSIZE)) by (split; [apply Z.div_pos; [lia|done]|lia]).
  pose proof (Hl j x Hj) as [Hne Hx]%fbyte_block. unfold fbyte. by rewrite Hf, (proj2 (Z.eqb_neq _ _)), Hv.
Qed.

Lemma padded_to_length nb l : 0 ≤ nb → Z.of_nat (length l) ≤ nb * BSIZE → Z.of_nat (length (padded_to nb l)) = nb * BSIZE.
Proof. intros Hnb Hl. unfold padded_to. rewrite length_app, length_replicate. change BSIZE with 1024 in *. lia. Qed.
Lemma padded_grow nb l : 0 ≤ nb → Z.of_nat (length l) ≤ nb * BSIZE → padded_to (nb + 1) l = padded_to nb l ++ zeros.
Proof.
  intros Hnb Hl. unfold padded_to, zeros. rewrite <- app_assoc, <- replicate_add. f_equal. f_equal. change BSIZE with 1024 in *. lia.
Qed.
(** a block of zeros is added at the end *)
Lemma bytes_grow nb v a l : 0 ≤ nb → Z.of_nat (length l) ≤ nb * BSIZE → fbytes v a (padded_to nb l) → fblock v a nb ≠ 0 → v (fblock v a nb) = zeros →
  fbytes v a (padded_to (nb + 1) l).
Proof.
  intros Hnb Hl Hb H0 Hz j x Hj. rewrite padded_grow in Hj by done. apply lookup_app_Some in Hj as [Hj|[Hge Hj]]; [by apply Hb|].
  pose proof (padded_to_length nb l Hnb Hl) as Hpl. pose proof (lookup_lt_Some _ _ _ Hj) as Hlt. change (length zeros) with 1024%nat in Hlt. change BSIZE with 1024 in *.
  set (i := (j - length (padded_to nb l))%nat) in *. assert (Z.of_nat j = nb * 1024 + Z.of_nat i) as -> by lia.
  unfold fbyte. change BSIZE with 1024. rewrite Z.add_comm, Z_div_plus_full, Z_mod_plus_full, Z.div_small, Z.mod_small, Z.add_0_l by lia.
  rewrite (proj2 (Z.eqb_neq _ _)), Hz, Nat2Z.id by done. done.
Qed.
(** block [fb] becomes a direct block *)
Lemma mdata_direct fb nb v a l : mdata fb nb v a l → nmeta ≤ fb < 2 ^ 32 → nb < Z.of_nat NDIRECT → v fb = zeros →
  let a' := <[Z.to_nat nb := fb]> a in
  mdata (fb + 1) (nb + 1) v a' l ∧ mchange fb v a (fb + 1) v a' ∧ fblock v a' nb = fb.
Proof.
  intros Hm Hfb Hlt Hz a'. pose proof (fresh_block _ _ _ _ _ Hm) as Hfresh. pose proof Hm as [Hf Hby Hnb Hfit Hbl Hind Hw].
  pose proof (fo_len _ _ _ Hf) as Hl. assert (Hnm : 0 < nmeta) by done.
  assert (Hfb' : ∀ k, 0 ≤ k → fblock v a' k = (if decide (k = nb) then fb else fblock v a k) ∧ ind a' = ind a) by (intros k Hk; apply fblock_direct; [done|lia|done]).
  assert (Hi : ind a' = ind a) by (apply (Hfb' 0); lia). split_and!.
  - split.
    + eapply (file_ok_add (λ _ n, nmeta ≤ n < fb) _ v a _ _ nb fb); [done|by unfold a'; rewrite length_insert|done|by intros k [Hk _]; apply Hfb'|done|intros; lia|lia].
    + pose proof (proj1 (Hfb' nb ltac:(lia))) as Hnew. rewrite decide_True in Hnew by done.
      apply bytes_grow; [lia|done| |rewrite Hnew; lia|by rewrite Hnew]. eapply (bytes_kept nb _ _ _ _ _ Hby); [rewrite padded_to_length; lia|lia| |done].
      intros k [Hk _] Hlt'. rewrite (proj1 (Hfb' k Hk)), decide_False by lia. done.
    + unfold MAXFILE. change NINDIRECT with 256. lia.
    + change BSIZE with 1024 in *. lia.
    + intros k Hk. rewrite (proj1 (Hfb' k (proj1 Hk))). case_decide; [split; lia|]. rewrite Hbl by done. lia.
    + rewrite Hi, Hind. split; lia.
    + apply Forall_insert; [done|lia].
  - split; [done| |done|lia]. intros n [H0 Hof]. rewrite Hi in Hof. destruct Hof as [->|(k & Hk & ->)]; [left; split; [done|by left]|].
    rewrite (proj1 (Hfb' k (proj1 Hk))) in *. case_decide; [right; lia|]. left. split; [done|]. right. by exists k.
  - by rewrite (proj1 (Hfb' nb ltac:(lia))), decide_True.
Qed.
(** block [fb], which holds zeros, becomes the indirect block *)
Lemma mdata_new_ind fb nb v a l : mdata fb nb v a l → nmeta ≤ fb < 2 ^ 32 → nb = Z.of_nat NDIRECT → v fb = zeros →
  let a' := <[NDIRECT := fb]> a in
  file_ok (λ _ n, nmeta ≤ n < fb + 1) v a' ∧ fbytes v a' (padded_to nb l) ∧ Forall (λ x, 0 ≤ x < 2 ^ 32) a' ∧ ind a' = fb ∧
  (∀ k, index_ok k → fblock v a' k = fblock v a k) ∧ mchange fb v a (fb + 1) v a'.
Proof.
  intros Hm Hfb Hnbe Hz a'. pose proof (fresh_block _ _ _ _ _ Hm) as Hfresh. pose proof Hm as [Hf Hby Hnb Hfit Hbl Hind Hw].
  pose proof (fo_len _ _ _ Hf) as Hl. assert (Hnm : 0 < nmeta) by done.
  assert (Hi0 : ind a = 0) by (destruct (decide (ind a = 0)) as [|Hne]; [done|]; apply Hind in Hne; lia).
  assert (Hfb' : ∀ k, index_ok k → fblock v a' k = fblock v a k ∧ ind a' = fb) by (intros k Hk; apply fblock_new_ind; [done|done|lia|done|done]).
  assert (Hi : ind a' = fb) by (apply (Hfb' 0); by split). split_and!.
  - eapply (file_ok_ind (λ _ n, nmeta ≤ n < fb) _ v a _ _ fb); [done|by unfold a'; rewrite length_insert|done|done|by intros k Hk; apply Hfb'|done|intros; lia|lia].
  - eapply (bytes_kept nb _ _ _ _ _ Hby); [rewrite padded_to_length; lia|lia| |done]. intros k Hk _. by apply Hfb'.
  - apply Forall_insert; [done|lia].
  - done.
  - intros k Hk. by apply Hfb'.
  - split; [done| |done|lia]. intros n [H0 Hof]. rewrite Hi in Hof. destruct Hof as [->|(k & Hk & ->)]; [right; lia|].
    rewrite (proj1 (Hfb' k Hk)) in *. left. split; [done|]. right. by exists k.
Qed.
(** block [fb] becomes an entry of the indirect block *)
Lemma mdata_entry fb nb v a l d : file_ok (λ _ n, nmeta ≤ n < fb) v a → fbytes v a (padded_to nb l) → Z.of_nat NDIRECT ≤ nb < MAXFILE → Z.of_nat (length l) ≤ nb * BSIZE →
  (∀ k, index_ok k → (fblock v a k ≠ 0 ↔ k < nb)) → ind a ≠ 0 → Forall (λ x, 0 ≤ x < 2 ^ 32) a → length (v (ind a)) = Z.to_nat BSIZE →
  store_le 4 (v (ind a)) (4 * (nb - Z.of_nat NDIRECT)) fb = Some d → nmeta ≤ fb < 2 ^ 32 → v fb = zeros →
  let v' := setv (ind a) d v in
  mdata (fb + 1) (nb + 1) v' a l ∧ mchange fb v a (fb + 1) v' a ∧ fblock v' a nb = fb.
Proof.
  intros Hf Hby Hnb Hfit Hbl Hi Hw Hlen Hst Hfb Hz v'. assert (Hnm : 0 < nmeta) by done.
  assert (Hiof : of_file v a (ind a)) by (split; [done|by left]). pose proof (fo_data _ _ _ Hf _ Hiof) as Hir. cbn in Hir.
  assert (Hfresh : ¬ of_file v a fb) by (intros Hof; pose proof (fo_data _ _ _ Hf _ Hof) as H; cbn in H; lia).
  assert (Hfb' : ∀ k, index_ok k → fblock v' a k = if decide (k = nb) then fb else fblock v a k).
  { intros k Hk. unfold v'. rewrite (fblock_entry v a d (nb - Z.of_nat NDIRECT) fb k); [|done|unfold MAXFILE in Hnb; lia|done|lia|done|done].
    by replace (nb - Z.of_nat NDIRECT + Z.of_nat NDIRECT) with nb by lia. }
  split_and!.
  - split.
    + eapply (file_ok_add (λ _ n, nmeta ≤ n < fb) _ v a _ _ nb fb); [done|apply Hf|done|done|done|intros; lia|lia].
    + assert (Hnew : fblock v' a nb = fb) by (rewrite Hfb', decide_True; [done|done|split; lia]).
      apply bytes_grow; [lia|done| |rewrite Hnew; lia|rewrite Hnew; unfold v'; by rewrite setv_ne by lia].
      eapply (bytes_kept nb _ _ _ _ _ Hby); [rewrite padded_to_length; lia|lia|intros k Hk Hlt; rewrite Hfb' by done; by rewrite decide_False by lia|].
      intros k Hk Hlt Hne. apply setv_ne. by apply (fo_not_ind _ _ _ Hf).
    + lia.
    + change BSIZE with 1024 in *. lia.
    + intros k Hk. rewrite Hfb' by done. case_decide; [split; lia|]. rewrite Hbl by done. lia.
    + split; [lia|done].
    + done.
  - split; [| | |lia].
    + intros n Hn Hof. apply setv_ne. by intros ->.
    + intros n [H0 [->|(k & Hk & ->)]]; [by left|]. rewrite Hfb' in * by done. case_decide; [right; lia|]. left. split; [done|]. right. by exists k.
    + intros n Hn. apply setv_ne. lia.
  - rewrite Hfb', decide_True; [done|done|]. split; lia.
Qed.
(** bytes are appended in the last block *)
Lemma mdata_append fb nb v a l bs d : mdata fb nb v a l → Z.of_nat (length l) < nb * BSIZE →
  let b := fblock v a (Z.of_nat (length l) / BSIZE) in
  length (v b) = Z.to_nat BSIZE → Z.of_nat (length l) mod BSIZE + Z.of_nat (length bs) ≤ BSIZE →
  store_bytes (v b) (Z.of_nat (length l) mod BSIZE) bs = Some d →
  mdata fb nb (setv b d v) a (l ++ bs) ∧ mchange fb v a fb (setv b d v) a.
Proof.
  intros [Hf Hby Hnb Hfit Hbl Hind Hw] Hlt b Hlen Hfb Hst. set (k := Z.of_nat (length l) / BSIZE) in *.
  assert (Hk : k < nb) by (apply Z.div_lt_upper_bound; [done|lia]).
  assert (Hik : index_ok k) by (split; [apply Z.div_pos; [lia|done]|lia]). assert (Hb0 : b ≠ 0) by (by apply Hbl).
  assert (Hof : of_file v a b) by (split; [done|right; by exists k]).
  assert (Hsame : ∀ j, fblock (setv b d v) a j = fblock v a j) by (intros j; by apply (write_same _ _ _ (Z.of_nat (length l)) _ Hf)).
  pose proof (fo_data _ _ _ Hf _ Hof) as Hr. cbn in Hr.
  split.
  - split; [|..].
    + apply (file_ok_same (λ _ n, nmeta ≤ n < fb) _ v a); [|done|done]. intros _. apply setv_ne. by apply not_eq_sym, (fo_not_ind _ _ _ Hf).
    + pose proof (padded_to_length nb l ltac:(lia) Hfit) as Hpl.
      pose proof (write_bytes _ _ _ (padded_to nb l) (Z.of_nat (length l)) bs d Hf Hby ltac:(lia) ltac:(change BSIZE with 1024 in *; lia) Hik Hb0 Hlen Hfb Hst) as Hwb.
      unfold splice, padded_to in Hwb. rewrite Nat2Z.id, take_app_length, drop_app_ge, drop_replicate in Hwb by lia. unfold padded_to. rewrite <- app_assoc, length_app.
      by replace (Z.to_nat (nb * BSIZE) - (length l + length bs))%nat with (Z.to_nat (nb * BSIZE) - length l - (length l + length bs - length l))%nat by lia.
    + done.
    + rewrite length_app. pose proof (Z.div_mod (Z.of_nat (length l)) BSIZE ltac:(done)). fold k in H. change BSIZE with 1024 in *. lia.
    + intros j Hj. rewrite Hsame. by apply Hbl.
    + done.
    + done.
  - split; [| | |lia].
    + intros n Hn' Hno. apply setv_ne. by intros ->.
    + intros n [H0 [->|(j & Hj & ->)]]; left; [split; [done|by left]|]. rewrite Hsame in *. split; [done|]. right. by exists j.
    + intros n Hn'. apply setv_ne. lia.
Qed.

(** ** The functions *)

Record img_ok (s : mkst) : Prop := {
  im_len : img_len s = FSSIZE;
  im_block n : length (img s n) = Z.to_nat BSIZE;
  im_fresh n : freeblock s ≤ n → img s n = zeros;
  im_free : nmeta ≤ freeblock s ≤ FSSIZE
}.
Lemma mwp_rsect sec s Q : img_ok s → sec < FSSIZE → Q (img s sec) s → mwp (rsect sec s) Q.
Proof. intros Hs Hsec HQ. unfold rsect. apply wp_bind, wp_done. rewrite (im_len _ Hs), (proj2 (Z.ltb_lt _ _)) by done. by apply wp_done. Qed.
Lemma mwp_wsect sec buf s (Q : unit → mkst → Prop) : img_ok s → sec < freeblock s → length buf = Z.to_nat BSIZE →
  (∀ s', img_ok s' → img s' = setv sec buf (img s) → freeblock s' = freeblock s → freeinode s' = freeinode s → Q tt s') → mwp (wsect sec buf s) Q.
Proof.
  intros [H1 H2 H3 H4] Hsec Hb HQ. apply wp_done, HQ; try done. split; cbn.
  - rewrite H1. lia.
  - intros n. unfold setv. by case_decide.
  - intros n Hn. rewrite setv_ne by lia. by apply H3.
  - done.
Qed.
Lemma mwp_next_block s (Q : Z → mkst → Prop) : img_ok s → freeblock s < FSSIZE →
  (∀ s', img_ok s' → img s' = img s → freeblock s' = freeblock s + 1 → freeinode s' = freeinode s → Q (freeblock s) s') → mwp (next_block s) Q.
Proof.
  intros [H1 H2 H3 H4] Hlt HQ. unfold next_block. apply wp_bind, wp_done, wp_bind, wp_done, wp_done.
  assert (Hu : u32 (freeblock s + 1) = freeblock s + 1) by (apply u32_small; change nmeta with 47 in *; change FSSIZE with 2000 in *; lia).
  change nmeta with 47 in *. change FSSIZE with 2000 in *. apply HQ; cbn; rewrite ?Hu; try done. split; cbn; rewrite ?Hu; try done.
  - intros n Hn. apply H3. lia.
  - change nmeta with 47. change FSSIZE with 2000. lia.
Qed.

(** taking a block *)
Definition got_block (din : dinode) (l : list Z) (nb fbn : Z) (s : mkst) (r : dinode * Z) (s' : mkst) : Prop :=
  ∃ a', r = (din <| d_addrs := a' |>, fblock (img s') a' fbn) ∧ img_ok s' ∧ freeinode s' = freeinode s ∧
    mdata (freeblock s') (Z.max nb (fbn + 1)) (img s') a' l ∧ mchange (freeblock s) (img s) (d_addrs din) (freeblock s') (img s') a' ∧
    freeblock s' = freeblock s + blocks_for (Z.max nb (fbn + 1)) - blocks_for nb.
Lemma mwp_direct_block din s nb l fbn Q : img_ok s → mdata (freeblock s) nb (img s) (d_addrs din) l → 0 ≤ fbn ≤ nb → fbn < Z.of_nat NDIRECT →
  freeblock s + blocks_for (Z.max nb (fbn + 1)) - blocks_for nb ≤ FSSIZE →
  (∀ r s', got_block din l nb fbn s r s' → Q r s') → mwp (direct_block din fbn s) Q.
Proof.
  intros Hs Hm Hfbn Hd Hroom HQ. pose proof Hm as [Hf Hby Hnb Hfit Hbl Hind Hw]. pose proof (fo_len _ _ _ Hf) as Hl. pose proof (im_free _ Hs) as Hfree.
  change nmeta with 47 in Hfree. change FSSIZE with 2000 in *. unfold direct_block. destruct (lookup_lt_is_Some_2 (d_addrs din) (Z.to_nat fbn)) as [x Hx]; [lia|].
  assert (Hik : index_ok fbn) by (split; [lia|unfold MAXFILE; change NINDIRECT with 256; lia]).
  assert (Hfx : fblock (img s) (d_addrs din) fbn = x) by (unfold fblock; by rewrite (proj2 (Z.ltb_lt _ _)), Hx by done).
  assert (Hxr : xint x = x) by (apply u32_small; exact (Forall_lookup_1 _ _ _ _ Hw Hx)).
  apply wp_bind. rewrite Hx. apply wp_done. rewrite Hxr. apply wp_bind. destruct (Z.eqb_spec x 0) as [->|Hne].
  - assert (Heq : fbn = nb) by (destruct (decide (fbn < nb)) as [Hlt|]; [by apply Hbl in Hlt|lia]). subst fbn. rewrite Z.max_r in * by lia.
    assert (Hb1 : blocks_for (nb + 1) - blocks_for nb = 1) by (unfold blocks_for; repeat case_match; lia).
    apply wp_bind, mwp_next_block; [done|change FSSIZE with 2000; lia|]. intros s' Hs' Hi Hfb Hfi. apply wp_done.
    assert (Hxb : xint (freeblock s) = freeblock s) by (apply u32_small; lia). rewrite Hxb. apply wp_bind. cbn. rewrite list_lookup_insert_eq by lia. apply wp_done, wp_done. rewrite Hxb.
    destruct (mdata_direct _ _ _ _ _ Hm) as (Hm' & Hc & Hfbk); [change nmeta with 47; lia|done|by apply (im_fresh _ Hs)|].
    apply HQ. exists (<[Z.to_nat nb := freeblock s]> (d_addrs din)). rewrite Hi, Hfb, Z.max_r, Hfbk by lia. split_and!; [by destruct din|done|done|done|done|lia].
  - assert (Hlt : fbn < nb) by (apply Hbl; [done|congruence]). rewrite Z.max_l in * by lia. apply wp_done, wp_bind. rewrite Hx. apply wp_done, wp_done. rewrite Hxr.
    apply HQ. exists (d_addrs din). rewrite Z.max_l, Hfx by lia. split_and!; [by destruct din|done|done|done|apply mchange_refl|lia].
Qed.
(** the file with an indirect block, which may still be empty *)
Record mdata_ind (fb nb : Z) (v : Z → list Z) (a l : list Z) : Prop := {
  mi_file : file_ok (λ _ n, nmeta ≤ n < fb) v a;
  mi_bytes : fbytes v a (padded_to nb l);
  mi_block k : index_ok k → (fblock v a k ≠ 0 ↔ k < nb);
  mi_ind : ind a ≠ 0;
  mi_words : Forall (λ x, 0 ≤ x < 2 ^ 32) a
}.
Lemma mwp_get_ind {B} din s nb l (k : dinode → M B) (Q : B → mkst → Prop) : img_ok s → mdata (freeblock s) nb (img s) (d_addrs din) l → Z.of_nat NDIRECT ≤ nb →
  freeblock s + (if nb =? Z.of_nat NDIRECT then 1 else 0) ≤ FSSIZE →
  (∀ a' s', img_ok s' → freeinode s' = freeinode s → mdata_ind (freeblock s') nb (img s') a' l →
    mchange (freeblock s) (img s) (d_addrs din) (freeblock s') (img s') a' → freeblock s' = freeblock s + (if nb =? Z.of_nat NDIRECT then 1 else 0) →
    mwp (k (din <| d_addrs := a' |>) s') Q) →
  mwp ((let* x := deref (d_addrs din !! NDIRECT) in
        let* din := (if xint x =? 0 then
            let* b := next_block in
            ret (din <| d_addrs ::= <[NDIRECT := xint b]> |>)
          else ret din) in k din) s) Q.
Proof.
  intros Hs Hm Hnd Hroom HQ. pose proof Hm as [Hf Hby Hnb Hfit Hbl Hind Hw]. pose proof (fo_len _ _ _ Hf) as Hl. pose proof (im_free _ Hs) as Hfree.
  change nmeta with 47 in Hfree. change FSSIZE with 2000 in *. destruct (lookup_lt_is_Some_2 (d_addrs din) NDIRECT) as [x Hx]; [lia|].
  assert (Hix : ind (d_addrs din) = x) by (unfold ind; by rewrite Hx). assert (Hxr : xint x = x) by (apply u32_small; exact (Forall_lookup_1 _ _ _ _ Hw Hx)).
  apply wp_bind. rewrite Hx. apply wp_done. rewrite Hxr, <- Hix. apply wp_bind. destruct (Z.eqb_spec (ind (d_addrs din)) 0) as [H0|H0].
  - assert (Heq : nb = Z.of_nat NDIRECT) by (destruct (decide (Z.of_nat NDIRECT < nb)) as [Hlt|]; [by apply Hind in Hlt|lia]).
    rewrite Heq, Z.eqb_refl in Hroom, HQ. apply wp_bind, mwp_next_block; [done|change FSSIZE with 2000; lia|]. intros s' Hs' Hi Hfb Hfi. apply wp_done.
    assert (Hxb : xint (freeblock s) = freeblock s) by (apply u32_small; lia). rewrite Hxb.
    destruct (mdata_new_ind _ _ _ _ _ Hm) as (M1 & M2 & M3 & M4 & M5 & M6); [change nmeta with 47; lia|done|by apply (im_fresh _ Hs)|].
    apply (HQ (<[NDIRECT := freeblock s]> (d_addrs din)) s'); [done|done| |by rewrite Hi, Hfb|done]. rewrite Hi, Hfb.
    split; [done|by rewrite <- Heq| |change nmeta with 47 in *; lia|done]. intros j Hj. rewrite M5, <- Heq by done. by apply Hbl.
  - assert (Hlt : Z.of_nat NDIRECT < nb) by (by apply Hind). rewrite (proj2 (Z.eqb_neq _ _)) in Hroom, HQ by lia. apply wp_done.
    assert (Hdin : din <| d_addrs := d_addrs din |> = din) by (by destruct din). rewrite <- Hdin. apply HQ; [done|done|by split|apply mchange_refl|lia].
Qed.
Lemma mwp_indirect_block din s nb l fbn Q : img_ok s → mdata (freeblock s) nb (img s) (d_addrs din) l → 0 ≤ fbn ≤ nb → Z.of_nat NDIRECT ≤ fbn < MAXFILE →
  freeblock s + blocks_for (Z.max nb (fbn + 1)) - blocks_for nb ≤ FSSIZE →
  (∀ r s', got_block din l nb fbn s r s' → Q r s') → mwp (indirect_block din fbn s) Q.
Proof.
  intros Hs Hm Hfbn Hd Hroom HQ. pose proof (md_nb _ _ _ _ _ Hm) as Hnb. pose proof (md_fits _ _ _ _ _ Hm) as Hfit. unfold indirect_block.
  assert (Hbf : blocks_for (Z.max nb (fbn + 1)) - blocks_for nb = (if nb =? Z.of_nat NDIRECT then 1 else 0) + (if fbn =? nb then 1 else 0)).
  { unfold blocks_for. destruct (Z.eqb_spec nb (Z.of_nat NDIRECT)), (Z.eqb_spec fbn nb); repeat case_match; lia. }
  eapply (mwp_get_ind din s nb l); [done|done|lia|repeat case_match; lia|]. intros a1 s1 Hs1 Hi1 [Hf Hby Hbl Hi0 Hw] Hc1 Hfb1.
  pose proof (im_free _ Hs1) as Hfree. change nmeta with 47 in Hfree. change FSSIZE with 2000 in *.
  assert (Hil : a1 !! NDIRECT = Some (ind a1)) by (unfold ind; destruct (lookup_lt_is_Some_2 a1 NDIRECT) as [x Hx]; [rewrite (fo_len _ _ _ Hf); lia|by rewrite Hx]).
  assert (Hir : 47 ≤ ind a1 < freeblock s1) by (apply (fo_data _ _ _ Hf); split; [done|by left]).
  assert (Hxi : xint (ind a1) = ind a1) by (apply u32_small; lia). set (j := fbn - Z.of_nat NDIRECT). change NINDIRECT with 256 in *. assert (Hj : 0 ≤ j < 256) by (unfold MAXFILE in Hd; change NINDIRECT with 256 in Hd; lia).
  assert (Hik : index_ok fbn) by (split; lia). assert (Hlen : length (img s1 (ind a1)) = Z.to_nat BSIZE) by apply Hs1.
  destruct (array_load_le 4 (img s1 (ind a1)) (4 * j)) as [x Hx]; [lia|rewrite Hlen; change BSIZE with 1024; lia|].
  assert (Hfx : fblock (img s1) a1 fbn = x) by (unfold fblock, entry; rewrite (proj2 (Z.ltb_ge _ _)), (proj2 (Z.eqb_neq _ _)) by lia; fold j; by rewrite Hx).
  apply wp_bind. change (d_addrs (din <| d_addrs := a1 |>)) with a1. rewrite Hil. apply wp_done, wp_bind. rewrite Hxi. apply mwp_rsect; [done|change FSSIZE with 2000; lia|].
  fold j. apply wp_bind. rewrite Hx. apply wp_done, wp_bind. destruct (Z.eqb_spec x 0) as [->|Hne].
  - assert (Heq : fbn = nb) by (destruct (decide (fbn < nb)) as [Hlt|]; [by apply Hbl in Hlt|lia]). rewrite Heq, Z.eqb_refl in Hbf. rewrite Heq, Z.max_r in Hroom by lia.
    rewrite Z.max_r in Hbf by lia.
    apply wp_bind, mwp_next_block; [done|change FSSIZE with 2000; lia|]. intros s2 Hs2 Hi2 Hfb2 Hfi2. assert (Hxb : xint (freeblock s1) = freeblock s1) by (apply u32_small; lia). rewrite Hxb.
    destruct (array_store_le 4 (img s1 (ind a1)) (4 * j) (freeblock s1)) as (d & Hst & Hdl & Hld & _); [lia|rewrite Hlen; change BSIZE with 1024; lia|].
    apply wp_bind. rewrite Hst. apply wp_done, wp_bind, mwp_wsect; [done|lia|congruence|]. intros s3 Hs3 Hi3 Hfb3 Hfi3. apply wp_done.
    assert (Hld' : load_le 4 d (4 * j) = Some (freeblock s1)) by (rewrite Hld; f_equal; apply Z.mod_small; lia).
    apply wp_bind. rewrite Hld'. apply wp_done, wp_done. rewrite Hxb. unfold j in Hst. rewrite Heq in Hst.
    destruct (mdata_entry _ nb _ _ l _ Hf Hby ltac:(lia) Hfit Hbl Hi0 Hw Hlen Hst) as (Hm' & Hc & Hfbk); [change nmeta with 47; lia|by apply (im_fresh _ Hs1)|]. rewrite <- Hi2, <- Hi3 in *.
    apply HQ. exists a1. rewrite Heq, Hfbk, Z.max_r by lia. assert (Hfb : freeblock s3 = freeblock s1 + 1) by lia. rewrite Hfb. rewrite Hi2 in *.
    split_and!; [done|done|congruence|done|by eapply mchange_trans|lia].
  - assert (Hlt : fbn < nb) by (apply Hbl; [done|congruence]). rewrite Z.max_l in * by lia. rewrite (proj2 (Z.eqb_neq fbn nb)) in Hbf by lia.
    assert (Hxr : xint x = x). { apply u32_small. rewrite <- Hfx. assert (47 ≤ fblock (img s1) a1 fbn < freeblock s1) by (apply (fo_data _ _ _ Hf); split; [congruence|right; by exists fbn]). lia. }
    apply wp_done, wp_bind. rewrite Hx. apply wp_done, wp_done. rewrite Hxr. apply HQ. exists a1. rewrite Z.max_l, Hfx by lia.
    split_and!; [done|done|done| |done|lia]. split; [done|done|lia|done|done| |done]. split; [lia|done].
Qed.

(** *** [iappend] *)

Definition full_blocks (n : Z) : Z := (n + BSIZE - 1) / BSIZE.
Lemma blocks_for_mono n m : n ≤ m → blocks_for n ≤ blocks_for m.
Proof. unfold blocks_for. intros. repeat case_match; lia. Qed.
Lemma full_blocks_mono n m : n ≤ m → full_blocks n ≤ full_blocks m.
Proof. intros. apply Z.div_le_mono; [done|lia]. Qed.
(** a chunk of [n1] bytes at [off], up to the end of the block or of the data *)
Lemma chunk_block off n : 0 ≤ off → 0 < n → let fbn := off / BSIZE in let n1 := Z.min n ((fbn + 1) * BSIZE - off) in
  0 < n1 ≤ n ∧ off mod BSIZE + n1 ≤ BSIZE ∧ off - fbn * BSIZE = off mod BSIZE ∧ 0 ≤ fbn ≤ full_blocks off ∧
  full_blocks off ≤ fbn + 1 ∧ full_blocks (off + n1) = fbn + 1 ∧ off < (fbn + 1) * BSIZE ∧
  (n1 < n → (off + n1) mod BSIZE = 0).
Proof.
  intros Ho Hn fbn n1. unfold full_blocks. pose proof (Z.div_mod off BSIZE ltac:(done)) as Hd. pose proof (Z.mod_pos_bound off BSIZE ltac:(done)) as Hm.
  fold fbn in Hd. assert (0 ≤ fbn) by (by apply Z.div_pos). change BSIZE with 1024 in *.
  assert (H1 : fbn ≤ (off + 1024 - 1) / 1024) by (apply Z.div_le_lower_bound; lia).
  assert (H2 : (off + 1024 - 1) / 1024 ≤ fbn + 1) by (apply Z.lt_succ_r, Z.div_lt_upper_bound; lia).
  assert (H3 : (off + n1 + 1024 - 1) / 1024 = fbn + 1) by (symmetry; apply (Z.div_unique _ _ _ (off + n1 - 1 - fbn * 1024)); lia).
  split_and!; try lia. intros Hlt. replace (off + n1) with ((fbn + 1) * 1024) by lia. apply Z_mod_mult.
Qed.
Definition appended (din : dinode) (l p : list Z) (s : mkst) (r : dinode * Z) (s' : mkst) : Prop :=
  ∃ a', r = (din <| d_addrs := a' |>, Z.of_nat (length (l ++ p))) ∧ img_ok s' ∧ freeinode s' = freeinode s ∧
    mdata (freeblock s') (full_blocks (Z.of_nat (length (l ++ p)))) (img s') a' (l ++ p) ∧ mchange (freeblock s) (img s) (d_addrs din) (freeblock s') (img s') a' ∧
    freeblock s' = freeblock s + blocks_for (full_blocks (Z.of_nat (length (l ++ p)))) - blocks_for (full_blocks (Z.of_nat (length l))).
Lemma mwp_iappend_loop turns : ∀ p din s l (Q : dinode * Z → mkst → Prop), img_ok s →
  mdata (freeblock s) (full_blocks (Z.of_nat (length l))) (img s) (d_addrs din) l →
  Z.of_nat (length (l ++ p)) ≤ MAXFILE * BSIZE →
  freeblock s + blocks_for (full_blocks (Z.of_nat (length (l ++ p)))) - blocks_for (full_blocks (Z.of_nat (length l))) ≤ FSSIZE →
  (p ≠ [] → Z.of_nat (length l) mod BSIZE + Z.of_nat (length p) ≤ Z.of_nat turns * BSIZE) →
  (∀ r s', appended din l p s r s' → Q r s') → mwp (iappend_loop (S turns) din (Z.of_nat (length l)) p s) Q.
Proof.
  induction turns as [|turns IH]; intros p din s l Q Hs Hm Hmax Hroom Hturns HQ; cbn [iappend_loop].
  all: destruct (decide (p = [])) as [->|Hp]; [cbn [length]; apply wp_done, HQ; exists (d_addrs din); rewrite app_nil_r in *;
    split_and!; [by destruct din|done|done|done|apply mchange_refl|lia]|].
  { specialize (Hturns Hp). pose proof (Z.mod_pos_bound (Z.of_nat (length l)) BSIZE ltac:(done)). destruct p; [done|cbn in Hturns; lia]. }
  specialize (Hturns Hp). set (off := Z.of_nat (length l)) in *. set (n := Z.of_nat (length p)) in *. assert (Hn : 0 < n) by (destruct p; [done|cbn in *; lia]).
  assert (Htot : Z.of_nat (length (l ++ p)) = off + n) by (rewrite length_app; lia). rewrite Htot in *. rewrite (proj2 (Z.ltb_lt _ _)) by done.
  destruct (chunk_block off n ltac:(lia) Hn) as (C1 & C2 & C3 & C4 & C5 & C6 & C7 & C8). set (fbn := off / BSIZE) in *. set (n1 := Z.min n ((fbn + 1) * BSIZE - off)) in *.
  assert (Hfm : fbn < MAXFILE) by (apply Z.div_lt_upper_bound; [done|lia]). apply wp_bind. rewrite (proj2 (Z.ltb_lt _ _)) by done. apply wp_done, wp_bind.
  assert (Hmx : Z.max (full_blocks off) (fbn + 1) = full_blocks (off + n1)) by lia.
  pose proof (blocks_for_mono _ _ (full_blocks_mono (off + n1) (off + n) ltac:(lia))) as Hbm.
  assert (Hgot : ∀ r s1, got_block din l (full_blocks off) fbn s r s1 → mwp ((let n1' := Z.min n (u32 ((fbn + 1) * BSIZE - off)) in
    let* buf := rsect r.2 in let* buf := deref (store_bytes buf (off - fbn * BSIZE) (take (Z.to_nat n1') p)) in
    wsect r.2 buf ;; iappend_loop (S turns) r.1 (u32 (off + n1')) (drop (Z.to_nat n1') p)) s1) Q).
  2:{ destruct (Z.ltb_spec fbn (Z.of_nat NDIRECT)); [eapply mwp_direct_block|eapply mwp_indirect_block]; [done|exact Hm|lia|lia|rewrite Hmx; lia|exact Hgot|done|exact Hm|lia|lia|rewrite Hmx; lia|exact Hgot]. }
  intros r s1 (a1 & -> & Hs1 & Hi1 & Hm1 & Hc1 & Hfb1). assert (MAXFILE * BSIZE = 274432) by done.
  rewrite Hmx, C6 in Hm1. rewrite Hmx in Hfb1. rewrite !(u32_small ((fbn + 1) * BSIZE - off)) by (change BSIZE with 1024 in *; lia). cbv zeta. fold n1. rewrite u32_small by lia. cbn [fst snd].
  assert (Hik : index_ok fbn) by (split; lia). assert (Hb0 : fblock (img s1) a1 fbn ≠ 0) by (apply (md_block _ _ _ _ _ Hm1); [done|lia]).
  assert (Hbr : nmeta ≤ fblock (img s1) a1 fbn < freeblock s1) by (apply (fo_data _ _ _ (md_file _ _ _ _ _ Hm1)); split; [done|right; by exists fbn]).
  pose proof (im_free _ Hs1) as Hfree. assert (Hlen : length (img s1 (fblock (img s1) a1 fbn)) = Z.to_nat BSIZE) by apply Hs1.
  set (bs := take (Z.to_nat n1) p). assert (Hbs : Z.of_nat (length bs) = n1) by (unfold bs; rewrite length_take; lia).
  apply wp_bind, mwp_rsect; [done|lia|]. rewrite C3. pose proof (Z.mod_pos_bound off BSIZE ltac:(done)) as Hmo.
  destruct (store_bytes_spec bs (img s1 (fblock (img s1) a1 fbn)) (off mod BSIZE)) as (d & Hst & _); [apply array_mapped; [lia|]; rewrite Hlen; lia|].
  apply wp_bind. rewrite Hst. apply wp_done, wp_bind, mwp_wsect; [done|lia|rewrite (store_bytes_length _ _ _ _ Hst); done|]. intros s2 Hs2 Hi2 Hfb2 Hfi2.
  destruct (mdata_append _ _ _ _ _ bs d Hm1) as [Hm2 Hc2]; [done|done|fold off; lia|done|]. fold off fbn in Hm2, Hc2. rewrite <- Hi2, <- Hfb2, <- C6 in *.
  assert (Hl2 : Z.of_nat (length (l ++ bs)) = off + n1) by (rewrite length_app; lia).
  assert (Hpq : (l ++ bs) ++ drop (Z.to_nat n1) p = l ++ p) by (unfold bs; by rewrite <- app_assoc, take_drop). rewrite <- Hl2.
  eapply (IH _ (din <| d_addrs := a1 |>) s2 (l ++ bs)); [done|by rewrite Hl2|by rewrite Hpq, Htot|rewrite Hpq, Htot, Hl2; lia| |].
  - intros Hdrop. rewrite Hl2, length_drop. assert (n1 < n) by (destruct (decide (n1 < n)); [done|]; rewrite drop_ge in Hdrop by lia; done).
    rewrite C8 by done. change BSIZE with 1024 in *. lia.
  - intros r s3 (a3 & -> & Hs3 & Hi3 & Hm3 & Hc3 & Hfb3). apply HQ. exists a3. rewrite Hpq, Hl2, Htot in *.
    split_and!; [by destruct din|done|congruence|done|by do 2 (eapply mchange_trans; [done|])|fold off; lia].
Qed.

(** ** The image as a whole *)

Definition inode_at (v : Z → list Z) (inum : Z) : option dinode := get_dinode (v (IBLOCK inum the_sb)) (dinode_off inum).
Definition empty_dinode (type nlink : Z) : dinode := mk_dinode type 0 0 nlink 0 (replicate (S NDIRECT) 0).
(** the blocks a list of files takes *)
Definition file_blocks (f : Z * list Z) : Z := blocks_for (full_blocks (Z.of_nat (length f.2))).
Fixpoint used (fs : list (Z * list Z)) : Z := match fs with [] => 0 | f :: fs => file_blocks f + used fs end.
(** file [i] of [fs], a type and the bytes, has inode [i + 1], which is the
    [i]th of [ds] *)
Record file_in (s : mkst) (inum : Z) (f : Z * list Z) (d : dinode) : Prop := {
  fi_inode : inode_at (img s) inum = Some d;
  fi_fields : d = mk_dinode f.1 0 0 1 (Z.of_nat (length f.2)) (d_addrs d);
  fi_type : 0 ≤ f.1 < 2 ^ 16;
  fi_data : mdata (freeblock s) (full_blocks (Z.of_nat (length f.2))) (img s) (d_addrs d) f.2
}.
Record built (s : mkst) (fs : list (Z * list Z)) (ds : list dinode) : Prop := {
  bu_img : img_ok s;
  bu_len : length ds = length fs;
  bu_inodes : freeinode s = 1 + Z.of_nat (length fs) ∧ freeinode s ≤ NINODES;
  bu_used : freeblock s = nmeta + used fs;
  bu_file i f d : fs !! i = Some f → ds !! i = Some d → file_in s (Z.of_nat i + 1) f d;
  bu_apart i j di dj n : i ≠ j → ds !! i = Some di → ds !! j = Some dj → of_file (img s) (d_addrs di) n → ¬ of_file (img s) (d_addrs dj) n;
  bu_free inum : freeinode s ≤ inum < NINODES → inode_at (img s) inum = Some (empty_dinode 0 0);
  bu_sb : img s 1 = sb_bytes the_sb ++ replicate (Z.to_nat BSIZE - 32) 0;
  bu_log n : in_log 2 n → img s n = zeros
}.

Lemma IBLOCK_range inum : 0 ≤ inum < NINODES → IBLOCK inum the_sb = inum / 16 + 33 ∧ 33 ≤ IBLOCK inum the_sb < 46.
Proof.
  intros Hi. change NINODES with 200 in Hi. unfold IBLOCK. change IPB with 16. change (sb_inodestart the_sb) with 33.
  pose proof (Z.div_pos inum 16 ltac:(lia) ltac:(done)). assert (inum / 16 < 13) by (apply Z.div_lt_upper_bound; lia). rewrite u32_small by lia. lia.
Qed.
Lemma IBLOCK_slot inum inum' : 0 ≤ inum < NINODES → 0 ≤ inum' < NINODES → inum ≠ inum' → IBLOCK inum the_sb = IBLOCK inum' the_sb → inum mod IPB ≠ inum' mod IPB.
Proof.
  intros H H' Hne. rewrite (proj1 (IBLOCK_range _ H)), (proj1 (IBLOCK_range _ H')). change IPB with 16.
  pose proof (Z.div_mod inum 16 ltac:(done)). pose proof (Z.div_mod inum' 16 ltac:(done)). lia.
Qed.
Lemma mwp_rinode inum d s Q : img_ok s → 0 ≤ inum < NINODES → inode_at (img s) inum = Some d → Q d s → mwp (rinode inum s) Q.
Proof.
  intros Hs Hi Hd HQ. destruct (IBLOCK_range _ Hi) as [_ Hr]. unfold rinode. apply wp_bind, mwp_rsect; [done|change FSSIZE with 2000; lia|].
  unfold inode_at in Hd. rewrite Hd. by apply wp_done.
Qed.
Lemma mwp_winode inum d s (Q : unit → mkst → Prop) : img_ok s → 0 ≤ inum < NINODES → din_ok d →
  (∀ s', img_ok s' → freeblock s' = freeblock s → freeinode s' = freeinode s → (∀ n, n ≠ IBLOCK inum the_sb → img s' n = img s n) →
    inode_at (img s') inum = Some d → (∀ inum', 0 ≤ inum' < NINODES → inum' ≠ inum → inode_at (img s') inum' = inode_at (img s) inum') → Q tt s') →
  mwp (winode inum d s) Q.
Proof.
  intros Hs Hi Hd HQ. destruct (IBLOCK_range _ Hi) as [_ Hr]. pose proof (im_free _ Hs) as Hfree. change nmeta with 47 in Hfree. change FSSIZE with 2000 in Hfree.
  unfold winode. apply wp_bind, mwp_rsect; [done|change FSSIZE with 2000; lia|].
  destruct (put_get_dinode (img s (IBLOCK inum the_sb)) inum d) as (b' & Hput & Hlen & Hget & Hoth); [apply Hs|done|]. rewrite Hput. apply wp_bind, wp_done.
  apply mwp_wsect; [done|lia|done|]. intros s' Hs' Himg Hfb Hfi. apply HQ; [exact Hs'|exact Hfb|exact Hfi|..].
  - intros n Hn. rewrite Himg. by apply setv_ne.
  - unfold inode_at. by rewrite Himg, setv_eq.
  - intros inum' Hi' Hne. unfold inode_at. rewrite Himg. destruct (decide (IBLOCK inum' the_sb = IBLOCK inum the_sb)) as [Heq|Heq].
    + rewrite Heq, setv_eq. apply Hoth. by apply IBLOCK_slot.
    + by rewrite setv_ne.
Qed.

(** what a file needs of the image *)
Lemma of_file_same v v' a n : (ind a ≠ 0 → v' (ind a) = v (ind a)) → of_file v' a n ↔ of_file v a n.
Proof.
  intros Hv. assert (Hf : ∀ k, fblock v' a k = fblock v a k).
  { intros k. unfold fblock. destruct (k <? _); [done|]. destruct (Z.eqb_spec (ind a) 0); [done|]. by rewrite Hv. }
  unfold of_file. split; intros [H0 [?|(k & Hk & ->)]]; (split; [done|]); [by left|right; exists k; by rewrite Hf|by left|right; exists k; by rewrite Hf].
Qed.
Lemma mdata_stable fb nb v a l fb' v' : mdata fb nb v a l → fb ≤ fb' → (∀ n, of_file v a n → v' n = v n) →
  mdata fb' nb v' a l ∧ ∀ n, of_file v' a n ↔ of_file v a n.
Proof.
  intros [Hf Hby Hnb Hfit Hbl Hind Hw] Hle Hv. assert (Hi : ind a ≠ 0 → v' (ind a) = v (ind a)) by (intros H0; apply Hv; split; [done|by left]).
  destruct (file_ok_same (λ _ n, nmeta ≤ n < fb) (λ _ n, nmeta ≤ n < fb') v a v' Hi) as [Hf' Hfb]; [intros; lia|done|].
  split; [|intros n; by apply of_file_same]. split; [done| |done|done| |done|done].
  - eapply (bytes_kept nb _ _ _ _ _ Hby); [rewrite padded_to_length; lia|lia|by intros k _ _; apply Hfb|]. intros k Hk _ Hne. apply Hv. split; [done|]. right. by exists k.
  - intros k Hk. rewrite Hfb. by apply Hbl.
Qed.
Lemma used_insert fs i f f' : fs !! i = Some f → used (<[i := f']> fs) = used fs - file_blocks f + file_blocks f'.
Proof.
  revert i. induction fs as [|g fs IH]; intros [|i] Hi; [done|done|injection Hi as ->; change (<[0%nat:=f']> (f :: fs)) with (f' :: fs); cbn [used]; lia|].
  change (<[S i:=f']> (g :: fs)) with (g :: <[i:=f']> fs). cbn [used]. rewrite (IH i Hi). lia.
Qed.
Lemma used_app fs f : used (fs ++ [f]) = used fs + file_blocks f.
Proof. induction fs as [|g fs IH]; cbn [used app]; lia. Qed.
Lemma file_blocks_pos f : 0 ≤ file_blocks f.
Proof. unfold file_blocks, blocks_for. assert (0 ≤ full_blocks (Z.of_nat (length f.2))) by (apply Z.div_pos; [change BSIZE with 1024; lia|done]). case_match; lia. Qed.
(** a file of a built image lies in the data blocks *)
Lemma file_in_data s inum f d n : file_in s inum f d → of_file (img s) (d_addrs d) n → nmeta ≤ n < freeblock s.
Proof. intros Hf Hof. exact (fo_data _ _ _ (md_file _ _ _ _ _ (fi_data _ _ _ _ Hf)) _ Hof). Qed.

(** the image after one file has changed, with its inode written *)
Lemma built_change s fs ds i f d p s1 s2 a' : built s fs ds → fs !! i = Some f → ds !! i = Some d →
  img_ok s1 → freeinode s1 = freeinode s → mdata (freeblock s1) (full_blocks (Z.of_nat (length (f.2 ++ p)))) (img s1) a' (f.2 ++ p) →
  mchange (freeblock s) (img s) (d_addrs d) (freeblock s1) (img s1) a' →
  freeblock s1 = freeblock s + file_blocks (f.1, f.2 ++ p) - file_blocks f →
  let inum := Z.of_nat i + 1 in let d' := mk_dinode f.1 0 0 1 (Z.of_nat (length (f.2 ++ p))) a' in
  img_ok s2 → freeblock s2 = freeblock s1 → freeinode s2 = freeinode s1 → (∀ n, n ≠ IBLOCK inum the_sb → img s2 n = img s1 n) →
  inode_at (img s2) inum = Some d' → (∀ inum', 0 ≤ inum' < NINODES → inum' ≠ inum → inode_at (img s2) inum' = inode_at (img s1) inum') →
  built s2 (<[i := (f.1, f.2 ++ p)]> fs) (<[i := d']> ds).
Proof.
  intros [B1 B2 [B3 B3'] B4 B5 B6 B7 B8 B9] Hi Hdi Hs1 Hfi1 Hm1 Hc1 Hfb1 inum d' Hs2 Hfb2 Hfi2 Hoth Hat Hat'.
  pose proof (lookup_lt_Some _ _ _ Hi) as Hlt. assert (Hnum : 0 ≤ inum < NINODES) by (unfold inum; lia). destruct (IBLOCK_range _ Hnum) as [_ Hib].
  assert (Hdata : ∀ n, nmeta ≤ n → img s2 n = img s1 n) by (intros n Hn; apply Hoth; change nmeta with 47 in Hn; lia).
  assert (Hlow : ∀ n, n < nmeta → img s1 n = img s n).
  { intros n Hn. apply (mc_same _ _ _ _ _ _ Hc1); [rewrite B4; pose proof (im_free _ B1); lia|]. intros Hof. pose proof (file_in_data _ _ _ _ _ (B5 _ _ _ Hi Hdi) Hof). lia. }
  assert (Hino : ∀ inum', 0 ≤ inum' < NINODES → inum' ≠ inum → inode_at (img s2) inum' = inode_at (img s) inum').
  { intros inum' H1 H2. rewrite Hat' by done. destruct (IBLOCK_range _ H1) as [_ Hr]. unfold inode_at. by rewrite Hlow by (change nmeta with 47; lia). }
  (* other files *)
  assert (Hkeep : ∀ j fj dj, j ≠ i → fs !! j = Some fj → ds !! j = Some dj →
    mdata (freeblock s2) (full_blocks (Z.of_nat (length fj.2))) (img s2) (d_addrs dj) fj.2 ∧ ∀ n, of_file (img s2) (d_addrs dj) n ↔ of_file (img s) (d_addrs dj) n).
  { intros j fj dj Hj Hfj Hdj. pose proof (B5 _ _ _ Hfj Hdj) as Hfin. apply (mdata_stable (freeblock s)); [apply Hfin|rewrite Hfb2; apply Hc1|].
    intros n Hof. pose proof (file_in_data _ _ _ _ _ Hfin Hof). rewrite Hdata by lia. apply (mc_same _ _ _ _ _ _ Hc1); [lia|]. intros Hof'. by apply (B6 i j d dj n (not_eq_sym Hj) Hdi Hdj). }
  assert (Hnew : mdata (freeblock s2) (full_blocks (Z.of_nat (length (f.2 ++ p)))) (img s2) a' (f.2 ++ p) ∧ ∀ n, of_file (img s2) a' n ↔ of_file (img s1) a' n).
  { apply (mdata_stable (freeblock s1)); [done|lia|]. intros n Hof. apply Hdata. apply (fo_data _ _ _ (md_file _ _ _ _ _ Hm1) _ Hof). }
  assert (Hnof : ∀ n, of_file (img s2) a' n → of_file (img s) (d_addrs d) n ∨ freeblock s ≤ n) by (intros n Hn; apply Hnew, (mc_of _ _ _ _ _ _ Hc1) in Hn as [?|?]; [by left|right; lia]).
  split; [done|by rewrite !length_insert|rewrite length_insert; lia|rewrite (used_insert _ _ f) by done; lia|..].
  - intros j fj dj Hfj Hdj. destruct (decide (j = i)) as [->|Hne].
    + rewrite list_lookup_insert_eq in Hfj by lia. rewrite list_lookup_insert_eq in Hdj by lia. injection Hfj as <-. injection Hdj as <-. split; [done|done|apply (B5 _ _ _ Hi Hdi)|apply Hnew].
    + rewrite list_lookup_insert_ne in Hfj by done. rewrite list_lookup_insert_ne in Hdj by done. pose proof (B5 _ _ _ Hfj Hdj) as [F1 F2 F3 F4]. pose proof (lookup_lt_Some _ _ _ Hfj).
      split; [rewrite Hino; [done|lia|unfold inum; lia]|done|done|by eapply Hkeep].
  - assert (Hcase : ∀ j dj, <[i:=d']> ds !! j = Some dj → j = i ∧ dj = d' ∨ j ≠ i ∧ ds !! j = Some dj ∧ ∃ fj, fs !! j = Some fj).
    { intros j dj Hdj. destruct (decide (j = i)) as [->|Hne]; [rewrite list_lookup_insert_eq in Hdj by lia; injection Hdj as <-; by left|].
      rewrite list_lookup_insert_ne in Hdj by done. right. split; [done|split; [done|]]. apply lookup_lt_is_Some_2. rewrite <- B2. by eapply lookup_lt_Some. }
    intros j k dj dk n Hjk [[-> ->]|(Hj & Hdj & fj & Hfj)]%Hcase [[-> ->]|(Hk & Hdk & fk & Hfk)]%Hcase Hof; [done|..].
    + rewrite (proj2 (Hkeep k fk dk Hk Hfk Hdk)). intros Hofk. apply Hnof in Hof as [Hof|Hof]; [by apply (B6 i k d dk n)|].
      pose proof (file_in_data _ _ _ _ _ (B5 _ _ _ Hfk Hdk) Hofk). lia.
    + apply (Hkeep j fj dj Hj Hfj Hdj) in Hof. intros Hofn. apply Hnof in Hofn as [Hofn|Hofn]; [by apply (B6 j i dj d n)|].
      pose proof (file_in_data _ _ _ _ _ (B5 _ _ _ Hfj Hdj) Hof). lia.
    + rewrite (proj2 (Hkeep k fk dk Hk Hfk Hdk)). apply (Hkeep j fj dj Hj Hfj Hdj) in Hof. by apply (B6 j k dj dk n).
  - intros inum' Hr. rewrite Hino; [apply B7; lia|lia|unfold inum; lia].
  - rewrite Hoth, Hlow by (change nmeta with 47; lia). done.
  - intros n Hn. pose proof Hn as Hn'. unfold in_log in Hn'. change (Z.of_nat LOGBLOCKS) with 30 in *. rewrite Hoth, Hlow by (change nmeta with 47; lia). by apply B9.
Qed.
Lemma mwp_iappend s fs ds i f p (Q : unit → mkst → Prop) : built s fs ds → fs !! i = Some f →
  Z.of_nat (length (f.2 ++ p)) ≤ MAXFILE * BSIZE → nmeta + used (<[i := (f.1, f.2 ++ p)]> fs) ≤ FSSIZE →
  (∀ s' ds', built s' (<[i := (f.1, f.2 ++ p)]> fs) ds' → Q tt s') → mwp (iappend (Z.of_nat i + 1) p s) Q.
Proof.
  intros Hb Hi Hmax Hroom HQ. pose proof Hb as [B1 B2 [B3 B3'] B4 B5 _ _ _ _]. pose proof (lookup_lt_Some _ _ _ Hi) as Hlt.
  destruct (lookup_lt_is_Some_2 ds i ltac:(lia)) as [d Hd]. pose proof (B5 _ _ _ Hi Hd) as [F1 F2 F3 F4]. assert (Hnum : 0 ≤ Z.of_nat i + 1 < NINODES) by lia.
  assert (HMB : MAXFILE * BSIZE = 274432) by done. rewrite HMB in *.
  assert (Hsz : xint (d_size d) = Z.of_nat (length f.2)) by (rewrite F2; apply u32_small; rewrite length_app in Hmax; lia).
  unfold iappend. apply wp_bind. eapply mwp_rinode; [done|done|exact F1|]. rewrite Hsz. apply wp_bind. rewrite (used_insert _ _ f) in Hroom by done.
  unfold file_blocks in Hroom. cbn [fst snd] in Hroom. eapply mwp_iappend_loop; [done|done|by rewrite HMB|lia| |].
  - intros Hp. pose proof (Z.mod_pos_bound (Z.of_nat (length f.2)) BSIZE ltac:(done)). pose proof (Z.div_mod (Z.of_nat (length p)) BSIZE ltac:(done)).
    pose proof (Z.mod_pos_bound (Z.of_nat (length p)) BSIZE ltac:(done)). pose proof (Z.div_pos (Z.of_nat (length p)) BSIZE ltac:(lia) ltac:(done)). change BSIZE with 1024 in *. unfold turns. lia.
  - intros r s1 (a1 & -> & Hs1 & Hi1 & Hm1 & Hc1 & Hfb1). cbn [fst snd].
    assert (Hxl : xint (Z.of_nat (length (f.2 ++ p))) = Z.of_nat (length (f.2 ++ p))) by (apply u32_small; lia). rewrite Hxl.
    set (d' := mk_dinode f.1 0 0 1 (Z.of_nat (length (f.2 ++ p))) a1).
    assert (Hd' : d <| d_addrs := a1 |> <| d_size := Z.of_nat (length (f.2 ++ p)) |> = d') by (rewrite F2; done). rewrite Hd'.
    apply mwp_winode; [done|done|split; cbn; try lia; [apply (md_file _ _ _ _ _ Hm1)|apply (md_words _ _ _ _ _ Hm1)]|].
    intros s2 Hs2 Hfb2 Hfi2 Hoth Hat Hat'. apply (HQ s2 (<[i := d']> ds)). eapply (built_change s fs ds i f d p s1 s2 a1); try done.
Qed.
Lemma mdata_empty fb v : mdata fb 0 v (replicate (S NDIRECT) 0) [].
Proof.
  assert (Hi : ind (replicate (S NDIRECT) 0) = 0) by done. assert (Hz : ∀ k, fblock v (replicate (S NDIRECT) 0) k = 0).
  { intros k. unfold fblock. rewrite Hi. cbn [Z.eqb]. case_match; [|done]. destruct (replicate (S NDIRECT) 0 !! Z.to_nat k) eqn:Hl; [|done]. by apply lookup_replicate in Hl as [-> _]. }
  split; [|done|done|done| |done|by apply Forall_replicate].
  - split; [done|..].
    + intros n [H0 [->|(k & _ & ->)]]; [done|by rewrite Hz in H0].
    + intros k k' _ _ H. by rewrite Hz in H.
    + intros k _ H. by rewrite Hz in H.
  - intros k [Hk _]. rewrite Hz. split; [done|lia].
Qed.
Lemma mwp_ialloc s fs ds type (Q : Z → mkst → Prop) : built s fs ds → 2 + Z.of_nat (length fs) ≤ NINODES → 0 ≤ type < 2 ^ 16 →
  (∀ s' ds', built s' (fs ++ [(type, [])]) ds' → Q (Z.of_nat (length fs) + 1) s') → mwp (ialloc type s) Q.
Proof.
  intros [B1 B2 [B3 B3'] B4 B5 B6 B7 B8 B9] Hroom Ht HQ. change NINODES with 200 in *. unfold ialloc. apply wp_bind, wp_done. rewrite B3.
  assert (Hu : u32 (1 + Z.of_nat (length fs) + 1) = Z.of_nat (length fs) + 2) by (rewrite u32_small; lia). apply wp_bind, wp_done. rewrite Hu.
  set (s1 := s <| freeinode := Z.of_nat (length fs) + 2 |>). assert (Hs1 : img_ok s1) by (by destruct B1). replace (1 + Z.of_nat (length fs)) with (Z.of_nat (length fs) + 1) in * by lia.
  set (inum := Z.of_nat (length fs) + 1) in *. assert (Hnum : 0 ≤ inum < NINODES) by (change NINODES with 200; lia). destruct (IBLOCK_range _ Hnum) as [_ Hib].
  assert (Htype : xshort type = type) by (by apply Z.mod_small). rewrite Htype. change (mk_dinode type 0 0 (xshort 1) (xint 0) (replicate (S NDIRECT) 0)) with (empty_dinode type 1).
  apply wp_bind, mwp_winode; [done|done|split; [exact Ht|done|done|done|done|done|by apply Forall_replicate]|]. intros s2 Hs2 Hfb2 Hfi2 Hoth Hat Hat'. apply wp_done. apply (HQ s2 (ds ++ [empty_dinode type 1])).
  assert (Hdata : ∀ n, nmeta ≤ n → img s2 n = img s n) by (intros n Hn; apply Hoth; change nmeta with 47 in Hn; lia).
  assert (Hkeep : ∀ j fj dj, fs !! j = Some fj → ds !! j = Some dj →
    mdata (freeblock s2) (full_blocks (Z.of_nat (length fj.2))) (img s2) (d_addrs dj) fj.2 ∧ ∀ n, of_file (img s2) (d_addrs dj) n ↔ of_file (img s) (d_addrs dj) n).
  { intros j fj dj Hfj Hdj. pose proof (B5 _ _ _ Hfj Hdj) as Hfin. apply (mdata_stable (freeblock s)); [apply Hfin|by rewrite Hfb2|].
    intros n Hof. apply Hdata, (file_in_data _ _ _ _ _ Hfin Hof). }
  assert (Hnone : ∀ n, ¬ of_file (img s2) (d_addrs (empty_dinode type 1)) n).
  { intros n Hof. pose proof (fo_data _ _ _ (md_file _ _ _ _ _ (mdata_empty 0 (img s2))) _ Hof) as H. cbn in H. change nmeta with 47 in H. lia. }
  assert (Hfd : ∀ j dj, (ds ++ [empty_dinode type 1]) !! j = Some dj → (ds !! j = Some dj ∧ ∃ fj, fs !! j = Some fj) ∨ j = length fs ∧ dj = empty_dinode type 1).
  { intros j dj [Hj|[Hj Hj']]%lookup_app_Some; [left; split; [done|apply lookup_lt_is_Some_2; rewrite <- B2; by eapply lookup_lt_Some]|right].
    apply list_lookup_singleton_Some in Hj' as [? <-]. split; [lia|done]. }
  split; [done|rewrite !length_app, B2; done|rewrite length_app; cbn; rewrite Hfi2; cbn; change NINODES with 200; lia| |..].
  - rewrite Hfb2, used_app. cbn. rewrite B4. change (file_blocks (type, [])) with 0. lia.
  - intros j fj dj Hfj Hdj. apply Hfd in Hdj as [[Hdj _]|[-> ->]].
    + rewrite lookup_app_l in Hfj by (rewrite <- B2; by eapply lookup_lt_Some). pose proof (B5 _ _ _ Hfj Hdj) as [F1 F2 F3 F4]. pose proof (lookup_lt_Some _ _ _ Hfj).
      split; [rewrite Hat'; [done|change NINODES with 200; lia|unfold inum; lia]|done|done|by eapply Hkeep].
    + rewrite lookup_app_r, Nat.sub_diag in Hfj by lia. injection Hfj as <-. split; [done|done|done|]. apply mdata_empty.
  - intros j k dj dk n Hjk [[Hdj [fj Hfj]]|[-> ->]]%Hfd [[Hdk [fk Hfk]]|[-> ->]]%Hfd Hof; [|by apply Hnone|by destruct (Hnone n)|by destruct (Hnone n)].
    rewrite (proj2 (Hkeep _ _ _ Hfk Hdk)). apply (Hkeep _ _ _ Hfj Hdj) in Hof. by eapply B6.
  - intros inum' Hr. rewrite Hfi2 in Hr. cbn in Hr. change NINODES with 200 in *. rewrite Hat'; [apply B7; lia|lia|unfold inum; lia].
  - by rewrite Hoth by lia.
  - intros n Hn. pose proof Hn as Hn'. unfold in_log in Hn'. change (Z.of_nat LOGBLOCKS) with 30 in *. rewrite Hoth by lia. by apply B9.
Qed.

(** ** The files *)

Lemma used_mono fs fs' : length fs = length fs' → (∀ i f f', fs !! i = Some f → fs' !! i = Some f' → (length f.2 ≤ length f'.2)%nat) → used fs ≤ used fs'.
Proof.
  revert fs'. induction fs as [|f fs IH]; intros [|f' fs'] Hl Hle; try done. cbn [used]. injection Hl as Hl.
  pose proof (Hle 0%nat f f' eq_refl eq_refl). assert (used fs ≤ used fs') by (apply IH; [done|]; intros i; apply (Hle (S i))).
  assert (file_blocks f ≤ file_blocks f') by (apply blocks_for_mono, full_blocks_mono; lia). lia.
Qed.
Lemma used_insert_mono fs i f l : fs !! i = Some f → (length f.2 ≤ length l)%nat → used fs ≤ used (<[i := (f.1, l)]> fs).
Proof.
  intros Hi Hl. rewrite (used_insert _ _ f) by done. assert (file_blocks f ≤ file_blocks (f.1, l)) by (apply blocks_for_mono, full_blocks_mono; cbn; lia). lia.
Qed.
Lemma mwp_pieces i pieces : ∀ s fs ds f (Q : unit → mkst → Prop), built s fs ds → fs !! i = Some f →
  Z.of_nat (length (f.2 ++ concat pieces)) ≤ MAXFILE * BSIZE → nmeta + used (<[i := (f.1, f.2 ++ concat pieces)]> fs) ≤ FSSIZE →
  (∀ s' ds', built s' (<[i := (f.1, f.2 ++ concat pieces)]> fs) ds' → Q tt s') → mwp (for_each pieces (iappend (Z.of_nat i + 1)) s) Q.
Proof.
  induction pieces as [|p pieces IH]; intros s fs ds f Q Hb Hi Hmax Hroom HQ; cbn [for_each concat] in *.
  { apply wp_done. rewrite app_nil_r in HQ. apply (HQ s ds). rewrite list_insert_id; [done|]. rewrite Hi. by destruct f. }
  pose proof (lookup_lt_Some _ _ _ Hi) as Hlt. assert (Hf1 : <[i:=(f.1, f.2 ++ p)]> fs !! i = Some (f.1, f.2 ++ p)) by (by apply list_lookup_insert_eq).
  assert (Heq : <[i:=(f.1, (f.2 ++ p) ++ concat pieces)]> (<[i:=(f.1, f.2 ++ p)]> fs) = <[i:=(f.1, f.2 ++ p ++ concat pieces)]> fs) by (by rewrite list_insert_insert_eq, app_assoc).
  apply wp_bind. eapply mwp_iappend; [done|done|rewrite !length_app in *; lia| |].
  - pose proof (used_insert_mono _ _ _ ((f.2 ++ p) ++ concat pieces) Hf1 ltac:(cbn; rewrite !length_app; lia)) as Hu. cbn [fst] in Hu. rewrite Heq in Hu. lia.
  - intros s1 ds1 Hb1. eapply (IH s1 _ ds1 (f.1, f.2 ++ p)); [done|done|cbn [fst snd]; by rewrite <- app_assoc|cbn [fst snd]; by rewrite Heq|].
    cbn [fst snd]. intros s2 ds2 Hb2. rewrite Heq in Hb2. by apply (HQ s2 ds2).
Qed.

(** an argument, with the name and the contents of its file *)
Definition arg_name (arg : list Z) : list Z := without_underscore (shortname arg).
Record arg_ok (host : list Z → option (list (list Z))) (arg content : list Z) : Prop := {
  ar_file : ∃ pieces, host arg = Some pieces ∧ concat pieces = content;
  ar_slash : chr "/" ∉ shortname arg;
  ar_name : Z.of_nat (length (arg_name arg)) ≤ DIRSIZ;
  ar_size : Z.of_nat (length content) ≤ MAXFILE * BSIZE
}.
(** the entries of the root directory, and the files of the image *)
Definition pad_name (name : list Z) : list Z := name ++ replicate (Z.to_nat DIRSIZ - length name) 0.
Definition root_slots (names : list (list Z)) : list (Z * list Z) :=
  (ROOTINO, pad_name (str ".")) :: (ROOTINO, pad_name (str "..")) :: imap (λ i name, (Z.of_nat i + 2, pad_name name)) names.
Definition image_files (names contents : list (list Z)) : list (Z * list Z) :=
  (T_DIR, entries (root_slots names)) :: (pair T_FILE <$> contents).
Lemma root_slots_app names name : root_slots (names ++ [name]) = root_slots names ++ [(Z.of_nat (length names) + 2, pad_name name)].
Proof. unfold root_slots. rewrite imap_app. cbn [imap app]. by rewrite Nat.add_0_r. Qed.
Lemma pad_name_length name : Z.of_nat (length name) ≤ DIRSIZ → length (pad_name name) = Z.to_nat DIRSIZ.
Proof. intros Hl. unfold pad_name. rewrite length_app, length_replicate. change DIRSIZ with 14 in *. lia. Qed.
Lemma root_slots_ok names : Forall (λ name, Z.of_nat (length name) ≤ DIRSIZ) names → Z.of_nat (length names) < 2 ^ 15 → Forall slot_ok (root_slots names).
Proof.
  intros Hn Hl. assert (Hdot : ∀ name, Z.of_nat (length name) ≤ DIRSIZ → slot_ok (ROOTINO, pad_name name)) by (intros; split; [done|by apply pad_name_length]).
  repeat (constructor; [by apply Hdot|]). apply Forall_lookup. intros i e Hi. rewrite list_lookup_imap in Hi. destruct (names !! i) as [name|] eqn:Hname; [|done].
  injection Hi as <-. pose proof (lookup_lt_Some _ _ _ Hname). split; [cbn; lia|]. apply pad_name_length. by eapply (Forall_lookup_1 _ _ _ _ Hn).
Qed.
Lemma root_slots_length names : length (root_slots names) = S (S (length names)).
Proof. unfold root_slots. cbn [length]. by rewrite length_imap. Qed.
Lemma dirent_entry inum name : 0 ≤ inum < 2 ^ 16 → dirent inum name = entries [(inum, pad_name name)].
Proof. intros Hi. unfold entries. cbn [mbind list_bind fst snd]. rewrite app_nil_r. unfold dirent, xshort, u16. by rewrite Z.mod_small. Qed.

Section args.
Context (host : list Z → option (list (list Z))).
Lemma mwp_add_file s ds names contents arg content (Q : unit → mkst → Prop) : built s (image_files names contents) ds →
  length names = length contents → Forall (λ name, Z.of_nat (length name) ≤ DIRSIZ) names → arg_ok host arg content → Z.of_nat (length names) + 3 ≤ NINODES →
  nmeta + used (image_files (names ++ [arg_name arg]) (contents ++ [content])) ≤ FSSIZE →
  (∀ s' ds', built s' (image_files (names ++ [arg_name arg]) (contents ++ [content])) ds' → Q tt s') → mwp (add_file host ROOTINO arg s) Q.
Proof.
  intros Hb Hlen Hnames [(pieces & Hh & <-) Hs Hn Hsz] Hin Hroom HQ. change NINODES with 200 in Hin. unfold add_file. apply wp_bind. rewrite bool_decide_true by done. apply wp_done.
  rewrite Hh. fold (arg_name arg). apply wp_bind. rewrite (proj2 (Z.leb_le _ _)) by done. apply wp_done, wp_bind. set (name := arg_name arg) in *.
  assert (Hlf : length (image_files names contents) = S (length names)) by (unfold image_files; cbn [length]; by rewrite length_fmap, Hlen).
  eapply mwp_ialloc; [done|rewrite Hlf; change NINODES with 200; lia|done|]. intros s1 ds1 Hb1. rewrite Hlf in *.
  set (fs1 := image_files names contents ++ [(T_FILE, [])]) in *. set (root := entries (root_slots names)). set (inum := Z.of_nat (S (length names)) + 1) in *.
  assert (Hi16 : 0 ≤ inum < 2 ^ 16) by lia.
  assert (Hslots : Forall slot_ok (root_slots (names ++ [name]))) by (apply root_slots_ok; [by apply Forall_app; split; [|apply Forall_singleton]|rewrite length_app; cbn; lia]).
  assert (Hroot : root ++ dirent inum name = entries (root_slots (names ++ [name]))).
  { rewrite dirent_entry by done. unfold root. rewrite root_slots_app, entries_app. do 3 f_equal. unfold inum. f_equal. lia. }
  assert (Hf0 : fs1 !! 0%nat = Some (T_DIR, root)) by done. set (fs2 := image_files (names ++ [name]) contents ++ [(T_FILE, [])]).
  assert (Hfs2 : <[0%nat := (T_DIR, root ++ dirent inum name)]> fs1 = fs2) by (unfold fs1, fs2, image_files; by rewrite Hroot).
  assert (Hf2 : fs2 !! S (length names) = Some (T_FILE, [])).
  { unfold fs2. rewrite lookup_app_r; unfold image_files; cbn [length]; rewrite length_fmap, <- Hlen; [by rewrite Nat.sub_diag|lia]. }
  assert (Hfs3 : <[S (length names) := (T_FILE, [] ++ concat pieces)]> fs2 = image_files (names ++ [name]) (contents ++ [concat pieces])).
  { unfold fs2. rewrite insert_app_r_alt; unfold image_files; cbn [length]; rewrite length_fmap, <- Hlen; [|lia]. by rewrite Nat.sub_diag, fmap_app. }
  apply wp_bind. change ROOTINO with (Z.of_nat 0 + 1). eapply mwp_iappend; [exact Hb1|exact Hf0| | |].
  - cbn [snd]. rewrite Hroot, entries_length, root_slots_length, length_app by done. cbn [length]. assert (MAXFILE * BSIZE = 274432) by done. lia.
  - cbn [fst snd]. rewrite Hfs2. pose proof (used_insert_mono _ _ _ ([] ++ concat pieces) Hf2 ltac:(cbn; lia)) as Hu. cbn [fst] in Hu. rewrite Hfs3 in Hu. lia.
  - cbn [fst snd]. rewrite Hfs2. intros s2 ds2 Hb2. eapply (mwp_pieces (S (length names)) pieces s2 fs2 ds2 (T_FILE, [])); [done|done|done|cbn [fst snd]; by rewrite Hfs3|].
    cbn [fst snd]. rewrite Hfs3. exact HQ.
Qed.
End args.

(** ** The empty image *)

Definition disk0 : mkst := mk_mkst (λ _, zeros) 0 1 0.
Lemma load_zeros n o : 0 ≤ o → o + Z.of_nat n ≤ BSIZE → load_le n zeros o = Some (little_endian_to_Z 8 (replicate n 0)).
Proof.
  intros Ho Hn. unfold load_le. rewrite <- (length_replicate n 0) at 1. rewrite load_bytes_at; [done|]. intros i x Hi.
  apply lookup_replicate in Hi as [-> Hi]. cbn. rewrite (proj2 (Z.leb_le _ _)) by lia. unfold zeros. apply lookup_replicate_2. change BSIZE with 1024 in *. lia.
Qed.
Lemma inode_zeros inum : get_dinode zeros (dinode_off inum) = Some (empty_dinode 0 0).
Proof.
  pose proof (dinode_range inum). unfold get_dinode. rewrite !load_zeros by (change BSIZE with 1024 in *; lia). cbn [mbind option_bind].
  rewrite (load_addrs_spec _ _ _ (replicate (S NDIRECT) 0)); [done|done|]. intros k x Hk. pose proof (lookup_lt_Some _ _ _ Hk) as Hlt. apply lookup_replicate in Hk as [-> _].
  rewrite length_replicate in Hlt. change (S NDIRECT) with 13%nat in Hlt. rewrite load_zeros by (change BSIZE with 1024 in *; lia). done.
Qed.
Lemma mwp_zero_image (Q : unit → mkst → Prop) s : img_len s = 0 → (∀ n, img s n = zeros) → 
  (∀ s', (∀ n, img s' n = zeros) → img_len s' = FSSIZE → freeinode s' = freeinode s → freeblock s' = freeblock s → Q tt s') →
  mwp (for_each (seq 0 (Z.to_nat FSSIZE)) (λ i, wsect (Z.of_nat i) (replicate (Z.to_nat BSIZE) 0)) s) Q.
Proof.
  intros Hl Hz HQ. fold zeros. eapply wp_mono; [|apply (wp_for_each _ _ _ _ _ (λ dn s', (∀ n, img s' n = zeros) ∧ img_len s' = Z.of_nat (length dn) ∧ freeinode s' = freeinode s ∧ freeblock s' = freeblock s))].
  - intros [] s' (H1 & H2 & H3 & H4). rewrite length_seq in H2. by apply HQ.
  - done.
  - intros dn x rest s1 Hseq (H1 & H2 & H3 & H4). assert (Hx : x = length dn).
    { assert (seq 0 (Z.to_nat FSSIZE) !! length dn = Some x) as [Hx _]%lookup_seq by (by rewrite Hseq, list_lookup_middle). lia. }
    apply wp_done. cbn. split; [|split; [rewrite H2, length_app; cbn; lia|done]]. intros n. unfold setv. by case_decide.
Qed.
Lemma built_empty s : img_ok s → freeblock s = nmeta → freeinode s = 1 → img s 1 = sb_bytes the_sb ++ replicate (Z.to_nat BSIZE - 32) 0 →
  (∀ n, n ≠ 1 → img s n = zeros) → built s [] [].
Proof.
  intros Hs Hb Hi Hsb Hz. split; [done|done|by rewrite Hi|by rewrite Hb|done|done| |done|].
  - intros inum Hr. assert (0 ≤ inum < NINODES) as Hn by lia. destruct (IBLOCK_range _ Hn) as [_ Hib]. unfold inode_at. rewrite Hz by lia. apply inode_zeros.
  - intros n [Hn _]. apply Hz. lia.
Qed.

(** ** The arguments *)

Lemma used_image_prefix names names' contents contents' : used (image_files names contents) ≤ used (image_files (names ++ names') (contents ++ contents')).
Proof.
  unfold image_files. cbn [used]. rewrite fmap_app. assert (Happ : ∀ fs fs', used fs ≤ used (fs ++ fs')).
  { intros fs fs'. induction fs as [|f fs IH]; cbn [used app]; [|lia]. induction fs' as [|f fs' IH]; cbn [used]; [lia|]. pose proof (file_blocks_pos f). lia. }
  pose proof (Happ (pair T_FILE <$> contents) (pair T_FILE <$> contents')). unfold root_slots. rewrite imap_app.
  match goal with |- file_blocks (_, entries ?a) + _ ≤ file_blocks (_, entries (_ :: _ :: _ ++ ?b)) + _ => assert (file_blocks (T_DIR, entries a) ≤ file_blocks (T_DIR, entries (a ++ b))) end; [|cbn [app] in *; lia].
  apply blocks_for_mono, full_blocks_mono. cbn [snd]. rewrite entries_app, length_app. lia.
Qed.
Section args_loop.
Context (host : list Z → option (list (list Z))).
Lemma mwp_args args cs : Forall2 (arg_ok host) args cs → ∀ s ds names contents (Q : unit → mkst → Prop), built s (image_files names contents) ds →
  length names = length contents → Forall (λ name, Z.of_nat (length name) ≤ DIRSIZ) names → Z.of_nat (length names + length args) + 2 ≤ NINODES →
  nmeta + used (image_files (names ++ (arg_name <$> args)) (contents ++ cs)) ≤ FSSIZE →
  (∀ s' ds', built s' (image_files (names ++ (arg_name <$> args)) (contents ++ cs)) ds' → Q tt s') → mwp (for_each args (add_file host ROOTINO) s) Q.
Proof.
  induction 1 as [|arg c args cs Hac Hr IH]; intros s ds names contents Q Hb Hlen Hn Hin Hroom HQ; cbn [for_each fmap list_fmap length] in *.
  { rewrite !app_nil_r in HQ. apply wp_done. by apply (HQ s ds). }
  assert (Hnm : names ++ arg_name arg :: (arg_name <$> args) = (names ++ [arg_name arg]) ++ (arg_name <$> args)) by (by rewrite <- app_assoc).
  assert (Hct : contents ++ c :: cs = (contents ++ [c]) ++ cs) by (by rewrite <- app_assoc). rewrite Hnm, Hct in *.
  apply wp_bind. eapply (mwp_add_file host); [done|done|done|done|lia| |].
  - pose proof (used_image_prefix (names ++ [arg_name arg]) (arg_name <$> args) (contents ++ [c]) cs). lia.
  - intros s1 ds1 Hb1. eapply IH; [done|rewrite !length_app; cbn; lia| |rewrite length_app; cbn; lia|done|done].
    apply Forall_app. split; [done|]. apply Forall_singleton. apply Hac.
Qed.
End args_loop.

(** ** The map of the blocks in use *)

Lemma set_bits_length n buf : length (set_bits n buf) = length buf.
Proof. induction n as [|n IH]; [done|]. cbn [set_bits]. by rewrite length_insert. Qed.
Lemma set_bits_spec n k : 0 ≤ k < BPB → (Z.of_nat n ≤ BPB) → Z.testbit (default 0 (set_bits n zeros !! Z.to_nat (k / 8))) (k mod 8) = (k <? Z.of_nat n).
Proof.
  intros Hk. change BPB with 8192 in *. pose proof (Z.mod_pos_bound k 8 ltac:(done)) as Hm. pose proof (Z.div_mod k 8 ltac:(done)) as Hdm.
  induction n as [|n IH]; intros Hn.
  { cbn [set_bits]. unfold zeros. rewrite lookup_replicate_2 by (change BSIZE with 1024; lia). cbn [from_option]; unfold id in *. rewrite Z.bits_0. symmetry. apply Z.ltb_ge. lia. }
  cbn [set_bits]. specialize (IH ltac:(lia)). pose proof (Z.div_mod (Z.of_nat n) 8 ltac:(done)) as Hdn. pose proof (Z.mod_pos_bound (Z.of_nat n) 8 ltac:(done)).
  destruct (decide (k / 8 = Z.of_nat n / 8)) as [He|Hne].
  - rewrite <- He, list_lookup_insert_eq by (rewrite set_bits_length; change (length zeros) with 1024%nat; lia). cbn [from_option]; unfold id in *.
    change (Z.shiftl 1 (Z.of_nat n mod 8)) with (bit_mask (Z.of_nat n)). rewrite testbit_mask, IH by lia.
    apply eq_true_iff_eq. rewrite orb_true_iff, Z.eqb_eq, !Z.ltb_lt. lia.
  - rewrite list_lookup_insert_ne by lia. rewrite IH. apply eq_true_iff_eq. rewrite !Z.ltb_lt. split; [lia|]. intros. assert (k ≠ Z.of_nat n) by congruence. lia.
Qed.

(** ** The finished image *)

(** the root directory is filled up with unused entries *)
Definition unused_slots (n : nat) : nat := 64 - (n + 2) mod 64.
Definition disk_files (names contents : list (list Z)) : list (Z * list Z) :=
  (T_DIR, entries (root_slots names ++ replicate (unused_slots (length names)) (0, replicate (Z.to_nat DIRSIZ) 0))) :: (pair T_FILE <$> contents).
(** the inode of a file, as the kernel has it in memory *)
Definition file_inode (inum : Z) (f : Z * list Z) (a : list Z) : inode :=
  mk_inode ROOTDEV inum 1 1 f.1 0 0 1 (Z.of_nat (length f.2)) a.
(** a file on the disk: its inode, its blocks, and its bytes in them *)
Record on_disk (v : Z → list Z) (inum : Z) (f : Z * list Z) (a : list Z) : Prop := {
  od_inode : dinode_is (v (IBLOCK inum the_sb)) (file_inode inum f a);
  od_blocks : file_ok (data_block the_sb 2) v a;
  od_bytes : file_rep v (file_inode inum f a) f.2
}.
(** a disk with the files [fs], the first of them with inode 1 *)
Record good_image (s : mkst) (fs : list (Z * list Z)) (addrs : list (list Z)) : Prop := {
  gi_size : img_len s = FSSIZE ∧ ∀ n, length (img s n) = Z.to_nat BSIZE;
  gi_sb : parse_sb (img s 1) = Some the_sb;
  gi_log n : in_log 2 n → img s n = zeros;
  gi_bits b : 0 ≤ b < FSSIZE → bit the_sb (img s) b = (b <? nmeta + used fs);
  gi_map : map_ok the_sb 2 (img s);
  gi_len : length addrs = length fs;
  gi_file i f a : fs !! i = Some f → addrs !! i = Some a → on_disk (img s) (Z.of_nat i + 1) f a;
  gi_apart i j a a' n : i ≠ j → addrs !! i = Some a → addrs !! j = Some a' → of_file (img s) a n → ¬ of_file (img s) a' n;
  gi_free inum : Z.of_nat (length fs) < inum < NINODES → inode_at (img s) inum = Some (empty_dinode 0 0)
}.

Lemma map_block_46 n : map_block the_sb n ↔ n = 46.
Proof.
  assert (Hb : ∀ b, 0 ≤ b < 2000 → BBLOCK b the_sb = 46).
  { intros b Hb. unfold BBLOCK. change BPB with 8192. rewrite Z.div_small by lia. done. }
  split; [intros (b & Hr & ->); by apply Hb|intros ->; exists 0; split; [done|by rewrite Hb]].
Qed.
Lemma inode_block_range n : inode_block the_sb n → 33 ≤ n < 46.
Proof. intros (inum & Hr & ->). by apply IBLOCK_range. Qed.
Lemma layout_the_sb : layout_ok the_sb 2.
Proof.
  split; [done|done|intros n ->%map_block_46; unfold in_log; change (Z.of_nat LOGBLOCKS) with 30; lia|done| |].
  - intros n Hn%inode_block_range. unfold in_log. change (Z.of_nat LOGBLOCKS) with 30. lia.
  - intros n Hn%inode_block_range ->%map_block_46. lia.
Qed.
Lemma reserved_low n : reserved the_sb 2 n → n < nmeta.
Proof.
  change nmeta with 47. intros [-> |[H|[-> %map_block_46|H%inode_block_range]]]; [lia| |lia|lia]. unfold in_log in H. change (Z.of_nat LOGBLOCKS) with 30 in H. lia.
Qed.
(** the bits in the block that [balloc] writes *)
Lemma bits_of v n b : v 46 = set_bits n zeros → Z.of_nat n ≤ BPB → 0 ≤ b < FSSIZE → bit the_sb v b = (b <? Z.of_nat n).
Proof.
  intros Hv Hn Hb. change FSSIZE with 2000 in Hb. unfold bit. assert (BBLOCK b the_sb = 46) as -> by (apply map_block_46; exists b; done).
  rewrite Hv. change BPB with 8192 in *. rewrite (Z.mod_small b 8192) by lia. apply set_bits_spec; [change BPB with 8192; lia|done].
Qed.
Lemma dinode_is_of b inum f a : get_dinode b (dinode_off inum) = Some (mk_dinode f.1 0 0 1 (Z.of_nat (length f.2)) a) →
  0 ≤ f.1 < 2 ^ 16 → Z.of_nat (length f.2) < 2 ^ 32 → Forall (λ x, 0 ≤ x < 2 ^ 32) a → dinode_is b (file_inode inum f a).
Proof.
  intros Hg Ht Hs Ha. unfold get_dinode in Hg. repeat (apply bind_Some in Hg as (? & ? & Hg)). injection Hg as -> -> -> -> -> ->.
  split; cbn [file_inode i_inum i_type i_major i_minor i_nlink i_size i_addrs]; [rewrite (Z.mod_small f.1 _ Ht : u16 f.1 = _); done|done|done|done|rewrite u32_small by lia; done|].
  intros k x Hk. match goal with H : load_addrs _ _ _ = Some _ |- _ => apply mapM_Some in H; rename H into Hm end. eapply Forall2_lookup_r in Hm as (k' & [-> _]%lookup_seq & Hm); [|exact Hk]. cbn [Nat.add] in Hm.
  rewrite Hm. f_equal. symmetry. apply u32_small. exact (Forall_lookup_1 _ _ _ _ Ha Hk).
Qed.

(** unused entries are zeros *)
Lemma entries_unused k : entries (replicate k (0, replicate (Z.to_nat DIRSIZ) 0)) = replicate (16 * k) 0.
Proof.
  induction k as [|k IH]; [done|]. change (replicate (S k) (0, replicate (Z.to_nat DIRSIZ) 0)) with ([(0, replicate (Z.to_nat DIRSIZ) 0)] ++ replicate k (0, replicate (Z.to_nat DIRSIZ) 0)).
  rewrite entries_app, IH. replace (16 * S k)%nat with (16 + 16 * k)%nat by lia. by rewrite replicate_add.
Qed.
(** the rounded size of the root directory *)
Lemma root_padded names : Forall (λ name, Z.of_nat (length name) ≤ DIRSIZ) names → Z.of_nat (length names) < 2 ^ 15 → ((length names + 2) mod 64 ≠ 0)%nat →
  let l := entries (root_slots names) in
  entries (root_slots names ++ replicate (unused_slots (length names)) (0, replicate (Z.to_nat DIRSIZ) 0)) = padded_to (full_blocks (Z.of_nat (length l))) l ∧
  (Z.of_nat (length l) / BSIZE + 1) * BSIZE = full_blocks (Z.of_nat (length l)) * BSIZE.
Proof.
  intros Hn Hl Hm l. assert (Hlen : length l = (16 * (length names + 2))%nat) by (unfold l; rewrite entries_length, root_slots_length by (by apply root_slots_ok); lia).
  pose proof (Nat.div_mod (length names + 2) 64 ltac:(done)) as Hdm. pose proof (Nat.mod_upper_bound (length names + 2) 64 ltac:(done)).
  set (q := ((length names + 2) / 64)%nat) in *. set (r := ((length names + 2) mod 64)%nat) in *.
  assert (Hz : Z.of_nat (length l) = Z.of_nat q * 1024 + 16 * Z.of_nat r) by lia.
  assert (Hf : full_blocks (Z.of_nat (length l)) = Z.of_nat q + 1) by (unfold full_blocks; change BSIZE with 1024; symmetry; apply (Z.div_unique_pos _ _ _ (16 * Z.of_nat r - 1)); lia).
  split.
  - rewrite entries_app, entries_unused. unfold padded_to. f_equal. f_equal. rewrite Hf. unfold unused_slots. fold r. change BSIZE with 1024. lia.
  - rewrite Hf. f_equal. f_equal. change BSIZE with 1024. symmetry. apply (Z.div_unique_pos _ _ _ (16 * Z.of_nat r)); lia.
Qed.

(** the files when only the root inode and the map are written *)
Section finish.
Context (s s' : mkst) (fs : list (Z * list Z)) (ds : list dinode) (Hb : built s fs ds).
Context (Hdata : ∀ n, nmeta ≤ n → img s' n = img s n) (Hmap : img s' 46 = set_bits (Z.to_nat (freeblock s)) zeros).
Lemma finish_bits b : 0 ≤ b < FSSIZE → bit the_sb (img s') b = (b <? freeblock s).
Proof using Hb Hmap.
  pose proof (im_free _ (bu_img _ _ _ Hb)) as Hf. change FSSIZE with 2000 in Hf. change nmeta with 47 in Hf. intros Hr.
  rewrite (bits_of _ _ _ Hmap) by (change BPB with 8192 in *; lia). f_equal. lia.
Qed.
Lemma finish_file i f d : fs !! i = Some f → ds !! i = Some d → file_ok (data_block the_sb 2) (img s') (d_addrs d) ∧
  fbytes (img s') (d_addrs d) (padded_to (full_blocks (Z.of_nat (length f.2))) f.2) ∧ ∀ n, of_file (img s') (d_addrs d) n ↔ of_file (img s) (d_addrs d) n.
Proof using Hb Hdata Hmap.
  intros Hf Hd. pose proof (bu_file _ _ _ Hb _ _ _ Hf Hd) as Hfin. pose proof (im_free _ (bu_img _ _ _ Hb)) as Hfree.
  destruct (mdata_stable _ _ _ _ _ (freeblock s) (img s') (fi_data _ _ _ _ Hfin)) as [Hm Hof]; [done|intros n Hn; apply Hdata, (file_in_data _ _ _ _ _ Hfin Hn)|].
  split; [|split; [apply Hm|done]]. eapply file_ok_same; [done| |apply Hm]. intros n Hn. cbn beta in Hn. change FSSIZE with 2000 in Hfree. pose proof Hn as Hn'. change nmeta with 47 in Hn', Hfree.
  split; [change (sb_size the_sb) with 2000; lia|]. split; [|intros Hr%reserved_low; lia]. rewrite finish_bits by (change FSSIZE with 2000; lia). apply Z.ltb_lt. lia.
Qed.
Lemma finish_map : map_ok the_sb 2 (img s').
Proof using Hb Hmap.
  intros n Hn Hr%reserved_low. pose proof (im_free _ (bu_img _ _ _ Hb)). rewrite finish_bits by done. apply Z.ltb_lt. lia.
Qed.
(** a file with its inode *)
Lemma finish_on_disk i f d l : fs !! i = Some f → ds !! i = Some d → l `prefix_of` padded_to (full_blocks (Z.of_nat (length f.2))) f.2 →
  inode_at (img s') (Z.of_nat i + 1) = Some (mk_dinode f.1 0 0 1 (Z.of_nat (length l)) (d_addrs d)) → on_disk (img s') (Z.of_nat i + 1) (f.1, l) (d_addrs d).
Proof using Hb Hdata Hmap.
  intros Hf Hd [k Hl] Hin. destruct (finish_file i f d Hf Hd) as (Hok & Hby & _). pose proof (bu_file _ _ _ Hb _ _ _ Hf Hd) as [_ _ Ht Hm].
  pose proof (md_nb _ _ _ _ _ Hm) as Hnb. pose proof (padded_to_length _ _ (proj1 Hnb) (md_fits _ _ _ _ _ Hm)) as Hpl. rewrite Hl, length_app in Hpl.
  assert (Hmax : Z.of_nat (length l) ≤ MAXFILE * BSIZE) by (change BSIZE with 1024 in *; lia).
  split; [|done|split; [done|done|]].
  - apply dinode_is_of; [done|done|cbn [snd]; change (MAXFILE * BSIZE) with 274432 in Hmax; lia|apply Hm].
  - cbn [snd]. intros j x Hj. apply Hby. rewrite Hl. by apply lookup_app_l_Some.
Qed.
End finish.

Lemma parse_sb_bytes : parse_sb (sb_bytes the_sb ++ replicate (Z.to_nat BSIZE - 32) 0) = Some the_sb.
Proof. vm_compute. done. Qed.
(** the image with the rounded size of the root directory *)
Lemma finished s s' names contents d0 ds : let root := entries (root_slots names) in let nb := full_blocks (Z.of_nat (length root)) in
  let padded := entries (root_slots names ++ replicate (unused_slots (length names)) (0, replicate (Z.to_nat DIRSIZ) 0)) in
  built s (image_files names contents) (d0 :: ds) → padded = padded_to nb root → img_ok s' → (∀ n, n ≠ 33 → n ≠ 46 → img s' n = img s n) →
  img s' 46 = set_bits (Z.to_nat (freeblock s)) zeros → inode_at (img s') ROOTINO = Some (d0 <| d_size := nb * BSIZE |>) →
  (∀ inum, 0 ≤ inum < NINODES → inum ≠ ROOTINO → inode_at (img s') inum = inode_at (img s) inum) →
  good_image s' (disk_files names contents) (d_addrs <$> (d0 :: ds)).
Proof.
  intros root nb padded Hb Hpad Hs' Hkeep Hmap Hat0 Hat. pose proof (bu_inodes _ _ _ Hb) as [Hfi Hni]. pose proof (bu_len _ _ _ Hb) as Hld. change NINODES with 200 in Hni.
  assert (Hl : length (image_files names contents) = S (length contents)) by (unfold image_files; cbn [length]; by rewrite length_fmap). rewrite Hl in Hld, Hfi.
  assert (Hf0 : image_files names contents !! 0%nat = Some (T_DIR, root)) by done. assert (Hd0 : (d0 :: ds) !! 0%nat = Some d0) by done.
  pose proof (bu_file _ _ _ Hb _ _ _ Hf0 Hd0) as [_ F2 _ F4]. cbn [fst snd] in F2, F4.
  pose proof (padded_to_length _ _ (proj1 (md_nb _ _ _ _ _ F4)) (md_fits _ _ _ _ _ F4)) as Hpl. fold nb in Hpl. rewrite <- Hpad in Hpl.
  assert (Hdata : ∀ n, nmeta ≤ n → img s' n = img s n) by (change nmeta with 47; intros n Hn; apply Hkeep; lia).
  assert (Hds : ∀ i a, (d_addrs <$> (d0 :: ds)) !! i = Some a → ∃ d f, (d0 :: ds) !! i = Some d ∧ image_files names contents !! i = Some f ∧ a = d_addrs d).
  { intros i a Ha. apply list_lookup_fmap_Some in Ha as (d & -> & Hd). destruct (lookup_lt_is_Some_2 (image_files names contents) i) as [f Hf]; [|by exists d, f].
    rewrite Hl, <- Hld. by eapply lookup_lt_Some. }
  split; [split; apply Hs'|..].
  - rewrite Hkeep by done. rewrite (bu_sb _ _ _ Hb). apply parse_sb_bytes.
  - intros n Hn. rewrite Hkeep; [by apply (bu_log _ _ _ Hb)|..]; unfold in_log in Hn; change (Z.of_nat LOGBLOCKS) with 30 in Hn; lia.
  - intros b Hbr. rewrite (finish_bits s s' _ _ Hb Hmap) by done. f_equal. rewrite (bu_used _ _ _ Hb). unfold disk_files, image_files. cbn [used]. fold root padded. do 2 f_equal.
    unfold file_blocks. cbn [snd]. fold nb. rewrite Hpl. unfold full_blocks. change BSIZE with 1024. f_equal. apply (Z.div_unique_pos _ _ _ 1023); lia.
  - exact (finish_map s s' _ _ Hb Hmap).
  - unfold disk_files. cbn [length]. rewrite length_fmap. cbn [length] in *. rewrite length_fmap. lia.
  - intros i f a Hf Ha. destruct (Hds _ _ Ha) as (d & f' & Hd & Hf' & ->). destruct i as [|i].
    + assert (f = (T_DIR, padded)) as -> by (by simplify_eq/=). assert (d = d0) as -> by (by simplify_eq/=).
      apply (finish_on_disk s s' _ _ Hb Hdata Hmap 0%nat (T_DIR, root) d0); [done|done|cbn [snd]; fold nb; by rewrite Hpad|].
      change (Z.of_nat 0 + 1) with ROOTINO. rewrite Hat0, Hpl. f_equal. by rewrite F2.
    + assert (f' = f) as -> by (unfold disk_files, image_files in *; cbn [lookup list_lookup] in *; congruence). pose proof (bu_file _ _ _ Hb _ _ _ Hf' Hd) as [G1 G2 _ _].
      pose proof (lookup_lt_Some _ _ _ Hf') as Hlt. rewrite Hl in Hlt. replace f with (f.1, f.2) by (by destruct f).
      apply (finish_on_disk s s' _ _ Hb Hdata Hmap (S i) f d); [done|done|by eexists|]. rewrite Hat by (change ROOTINO with 1; change NINODES with 200; lia). rewrite G1. by f_equal.
  - intros i j a a' n Hij Ha Ha'. destruct (Hds _ _ Ha) as (d & f & Hd & Hf & ->). destruct (Hds _ _ Ha') as (d' & f' & Hd' & Hf' & ->).
    rewrite (proj2 (proj2 (finish_file s s' _ _ Hb Hdata Hmap _ _ _ Hf Hd))), (proj2 (proj2 (finish_file s s' _ _ Hb Hdata Hmap _ _ _ Hf' Hd'))). by apply (bu_apart _ _ _ Hb i j).
  - intros inum Hi. unfold disk_files in Hi. cbn [length] in Hi. rewrite length_fmap in Hi. rewrite Hat by (change ROOTINO with 1; lia). apply (bu_free _ _ _ Hb). lia.
Qed.
(** the end of [main] *)
Lemma mwp_finish s ds names contents : built s (image_files names contents) ds →
  Forall (λ name, Z.of_nat (length name) ≤ DIRSIZ) names → length names = length contents → ((length names + 2) mod 64 ≠ 0)%nat →
  mwp ((let* din := rinode ROOTINO in
        let off := xint (d_size din) in
        let off := u32 ((off / BSIZE + 1) * BSIZE) in
        winode ROOTINO (din <| d_size := xint off |>) ;;
        let* s := get in
        balloc (freeblock s)) s) (λ _ s', ∃ addrs, good_image s' (disk_files names contents) addrs).
Proof.
  intros Hb Hnames Hlen Hmod. pose proof (bu_inodes _ _ _ Hb) as [Hfi Hni]. pose proof (bu_img _ _ _ Hb) as Himg. pose proof (im_free _ Himg) as Hfree.
  assert (Hl : length (image_files names contents) = S (length contents)) by (unfold image_files; cbn [length]; by rewrite length_fmap).
  pose proof (bu_len _ _ _ Hb) as Hld. rewrite Hl in Hld, Hfi. destruct ds as [|d0 ds]; [done|]. change NINODES with 200 in Hni.
  destruct (root_padded names Hnames ltac:(lia) Hmod) as [Hpad Hsz]. set (root := entries (root_slots names)) in *.
  assert (Hf0 : image_files names contents !! 0%nat = Some (T_DIR, root)) by done. assert (Hd0 : (d0 :: ds) !! 0%nat = Some d0) by done.
  pose proof (bu_file _ _ _ Hb _ _ _ Hf0 Hd0) as [F1 F2 F3 F4]. change (Z.of_nat 0 + 1) with ROOTINO in F1. cbn [fst snd] in F2, F4.
  pose proof (md_nb _ _ _ _ _ F4) as Hnb. pose proof (md_fits _ _ _ _ _ F4) as Hfits. set (nb := full_blocks (Z.of_nat (length root))) in *.
  assert (Hmax : nb * 1024 ≤ 274432) by (change MAXFILE with 268 in Hnb; lia).
  apply wp_bind, (mwp_rinode _ d0); [done|done|done|]. assert (Hsize : d_size d0 = Z.of_nat (length root)) by (by rewrite F2).
  change BSIZE with 1024 in Hsz, Hfits |- *. unfold xint. rewrite Hsize, (u32_small (Z.of_nat _)) by lia. rewrite Hsz, !u32_small by (rewrite ?u32_small; lia).
  apply wp_bind. apply mwp_winode; [done|done|rewrite F2; split; [exact F3|done|done|done|cbn; lia|apply F4|apply F4]|].
  intros s1 Hs1 Hfb1 Hfi1 Hoth1 Hat1 Hat1'. change (IBLOCK ROOTINO the_sb) with 33 in Hoth1. apply wp_bind, wp_done. unfold balloc. change FSSIZE with 2000 in Hfree. change nmeta with 47 in Hfree.
  apply wp_bind. rewrite Hfb1, (proj2 (Z.ltb_lt _ _)) by (change BPB with 8192; lia). apply wp_done. fold zeros. change (sb_bmapstart the_sb) with 46.
  apply mwp_wsect; [done|lia|by rewrite set_bits_length|]. intros s2 Hs2 Himg2 Hfb2 Hfi2. exists (d_addrs <$> (d0 :: ds)).
  assert (Hat : ∀ inum, 0 ≤ inum < NINODES → inode_at (img s2) inum = inode_at (img s1) inum).
  { intros inum Hi. destruct (IBLOCK_range _ Hi) as [_ Hr]. unfold inode_at. by rewrite Himg2, setv_ne by lia. }
  apply (finished s); [done|done|done| |by rewrite Himg2, setv_eq|by rewrite Hat|by intros inum Hi Hne; rewrite Hat, Hat1'].
  intros n H1 H2. rewrite Himg2, setv_ne by done. by apply Hoth1.
Qed.

(** ** The program *)

(** the start of [main]: zeros, the superblock, and the root directory *)
Lemma mwp_start s (Q : unit → mkst → Prop) (m : Z → M unit) : s = disk0 →
  (∀ s' ds, built s' (image_files [] []) ds → mwp (m ROOTINO s') Q) →
  mwp ((modify (λ s, s <| freeblock := nmeta |>) ;;
        for_each (seq 0 (Z.to_nat FSSIZE)) (λ i, wsect (Z.of_nat i) (replicate (Z.to_nat BSIZE) 0)) ;;
        wsect 1 (sb_bytes the_sb ++ replicate (Z.to_nat BSIZE - 32) 0) ;;
        let* rootino := ialloc T_DIR in
        assert_ (rootino =? ROOTINO) ;;
        iappend rootino (dirent rootino (str ".")) ;;
        iappend rootino (dirent rootino (str "..")) ;;
        m rootino) s) Q.
Proof.
  intros -> Hm. apply wp_bind, wp_done. apply wp_bind, mwp_zero_image; [done|done|]. intros s1 Hz Hlen Hfi Hfb.
  assert (Hs1 : img_ok s1) by (split; [done|by intros n; rewrite Hz|done|by rewrite Hfb]).
  apply wp_bind, mwp_wsect; [done|by rewrite Hfb|done|]. intros s2 Hs2 Himg2 Hfb2 Hfi2.
  assert (Hb2 : built s2 [] []).
  { apply built_empty; [done|by rewrite Hfb2|by rewrite Hfi2|by rewrite Himg2, setv_eq|]. intros n Hn. by rewrite Himg2, setv_ne. }
  apply wp_bind. eapply mwp_ialloc; [done|done|done|]. intros s3 ds3 Hb3. change (Z.of_nat (length []) + 1) with ROOTINO.
  apply wp_bind, wp_done, wp_bind.
  change ROOTINO with (Z.of_nat 0 + 1) at 1. eapply mwp_iappend; [exact Hb3|reflexivity|vm_compute; done|vm_compute; done|]. intros s4 ds4 Hb4.
  apply wp_bind. change ROOTINO with (Z.of_nat 0 + 1) at 1. eapply mwp_iappend; [exact Hb4|reflexivity|vm_compute; done|vm_compute; done|]. intros s5 ds5 Hb5.
  exact (Hm s5 ds5 Hb5).
Qed.

(** C34: [mkfs], given files that fit (names of at most 14 characters without a
    slash, no file larger than an inode can hold, no more files than inodes,
    no more blocks than the disk has, and the last block of the root directory
    not exactly full), finishes, and the image is well formed: the superblock
    that the kernel reads back is the one of the layout; the log is empty; the
    map marks exactly the blocks that are taken, those of the log, the inodes
    and the map among them; file [i] of the root directory and the arguments
    has inode [i + 1], which holds its type, one link, its size and addresses
    of data blocks that are in use, distinct, and hold its bytes, and no two
    files share a block; all other inodes are free; and the root directory has
    the entries [.] and [..] and one for each argument, with the directory
    prefix and the leading underscore removed, in that order. *)
Theorem mkfs_builds_image host args contents : Forall2 (arg_ok host) args contents → Z.of_nat (length args) + 2 ≤ NINODES →
  nmeta + used (image_files (arg_name <$> args) contents) ≤ FSSIZE → ((length args + 2) mod 64 ≠ 0)%nat →
  layout_ok the_sb 2 ∧ sb_size the_sb ≤ BPB ∧
  runs (main host args disk0) (λ _ s, ∃ addrs, good_image s (disk_files (arg_name <$> args) contents) addrs).
Proof.
  intros Hargs Hin Hroom Hmod. split; [exact layout_the_sb|]. split; [done|]. apply runs_wp. unfold main. apply mwp_start; [done|]. intros s ds Hb.
  pose proof (Forall2_length _ _ _ Hargs). apply wp_bind. eapply (mwp_args host args contents Hargs s ds [] []); [done|done|constructor|done|done|]. intros s1 ds1 Hb1.
  eapply mwp_finish; [done| |by rewrite length_fmap|by rewrite length_fmap]. apply Forall_fmap. clear -Hargs. induction Hargs as [|arg c args cs Ha _ IH]; constructor; [apply Ha|done].
Qed.
(** a program, read in two pieces, and a text *)
Definition host0 (arg : list Z) : option (list (list Z)) :=
  if bool_decide (arg = str "user/_cat") then Some [[127; 69]; [76; 70]] else if bool_decide (arg = str "README") then Some [str "xv6"] else None.
Lemma mkfs_builds_image_witness :
  runs (main host0 [str "user/_cat"; str "README"] disk0) (λ _ s, ∃ addrs, good_image s (disk_files [str "cat"; str "README"] [[127; 69; 76; 70]; str "xv6"]) addrs).
Proof.
  apply (mkfs_builds_image host0 [str "user/_cat"; str "README"] [[127; 69; 76; 70]; str "xv6"]); [|vm_compute; done|vm_compute; done|vm_compute; done].
  constructor; [|constructor; [|constructor]].
  - split; [by eexists|apply (bool_decide_unpack _); vm_compute; done|vm_compute; done|vm_compute; done].
  - split; [by eexists|apply (bool_decide_unpack _); vm_compute; done|vm_compute; done|vm_compute; done].
Defined.
