(* ===== verification/Paths.v ===== *)
(** * Path names

    [skipelem] takes a path apart one element at a time.  Here its results
    are compared with the elements of the path as a list: the nonempty pieces
    between slashes, each cut to [DIRSIZ] characters. *)

From S2P Require Import Prelude Fsdata Kstate Bytes Printf Proc Fs.
#[local] Open Scope Z_scope.

Definition slash : Z := chr "/".

(** the reference: split at the slashes, drop the empty pieces *)
Fixpoint split_slash (path : list Z) : list (list Z) :=
  match path with
  | [] => [[]]
  | c :: path =>
      if c =? slash then [] :: split_slash path
      else match split_slash path with
           | e :: es => (c :: e) :: es
           | [] => [[c]]
           end
  end.
Definition path_elems (path : list Z) : list (list Z) :=
  filter (λ e, e ≠ []) (split_slash path).

(** the successive names that [namex] gets from [skipelem] *)
Fixpoint path_names (turns : nat) (path name : list Z) : option (list (list Z)) :=
  match turns with
  | O => None
  | S turns =>
      match skipelem path name with
      | None => Some []
      | Some (path, name) => cons (c_string name) <$> path_names turns path name
      end
  end.

(** ** Lemmas *)

Lemma split_slash_nonempty path : split_slash path ≠ [].
Proof. destruct path as [|c path]; simpl; [done|]. repeat case_match; done. Qed.

Lemma path_elems_slash path : path_elems (slash :: path) = path_elems path.
Proof. unfold path_elems. simpl. by rewrite filter_cons_False by naive_solver. Qed.
Lemma path_elems_skip path : path_elems (skip_slashes path) = path_elems path.
Proof.
  induction path as [|c path IH]; [done|]. simpl. case_match eqn:Hc; [|done].
  apply Z.eqb_eq in Hc as ->. by rewrite path_elems_slash.
Qed.
Lemma skip_slashes_length path : (length (skip_slashes path) ≤ length path)%nat.
Proof. induction path as [|c path IH]; simpl; [done|]. case_match; simpl; lia. Qed.
Lemma skip_slashes_head path c rest : skip_slashes path = c :: rest → c ≠ slash.
Proof.
  induction path as [|d path IH]; simpl; [done|]. case_match eqn:Hd; [done|].
  intros [= -> ->]. by apply Z.eqb_neq.
Qed.
Lemma skip_slashes_Forall P path : Forall P path → Forall P (skip_slashes path).
Proof. induction 1; simpl; [done|]. case_match; [done|by constructor]. Qed.

(** [elem] cuts the first piece off *)
Lemma elem_split path : Forall (λ c, c ≠ 0) path →
  split_slash path = (elem path).1 ::
    match (elem path).2 with [] => [] | _ :: rest => split_slash rest end ∧
  path = (elem path).1 ++ (elem path).2 ∧ Forall (λ c, c ≠ 0) (elem path).1 ∧
  match (elem path).2 with [] => True | c :: _ => c = slash end.
Proof.
  induction 1 as [|c path Hc Hp IH]; simpl; [done|]. unfold slash.
  destruct (Z.eqb_spec c (chr "/")) as [->|Hs]; simpl; [done|].
  rewrite (proj2 (Z.eqb_neq c 0)) by done. simpl.
  destruct (elem path) as [s rest]. simpl in *. destruct IH as (-> & Hp' & Hf & Hr).
  split_and!; [done|by rewrite Hp' at 1|by constructor|done].
Qed.

Lemma c_string_app e l : Forall (λ c, c ≠ 0) e → c_string (e ++ 0 :: l) = e.
Proof.
  induction 1 as [|c e Hc He IH]; [done|]. simpl. rewrite (proj2 (Z.eqb_neq c 0)) by done. by rewrite IH.
Qed.
Lemma c_string_all e : Forall (λ c, c ≠ 0) e → c_string e = e.
Proof. induction 1 as [|c e Hc He IH]; [done|]. simpl. rewrite (proj2 (Z.eqb_neq c 0)) by done. by rewrite IH. Qed.

(** one call of [skipelem] *)
Lemma skipelem_step path name :
  Forall (λ c, c ≠ 0) path → length name = Z.to_nat DIRSIZ →
  match skipelem path name with
  | None => path_elems path = []
  | Some (rest, name') => ∃ e, path_elems path = e :: path_elems rest ∧ c_string name' = take (Z.to_nat DIRSIZ) e ∧
      length name' = Z.to_nat DIRSIZ ∧ Forall (λ c, c ≠ 0) rest ∧ (length rest < length path)%nat
  end.
Proof.
  intros Hp Hn. unfold skipelem. rewrite <- (path_elems_skip path).
  pose proof (skip_slashes_Forall _ _ Hp) as Hq. pose proof (skip_slashes_length path) as Hle.
  destruct (skip_slashes path) as [|c q] eqn:Hsk; [done|].
  assert (Hc : c ≠ 0) by (by inversion Hq). pose proof (skip_slashes_head _ _ _ Hsk) as Hcs.
  change (char0 (c :: q)) with c. rewrite (proj2 (Z.eqb_neq c 0)) by done.
  destruct (elem_split (c :: q) Hq) as (Hsplit & Happ & He & Hr). simpl in *.
  rewrite (proj2 (Z.eqb_neq c (chr "/"))), (proj2 (Z.eqb_neq c 0)) in * by done. simpl in *.
  destruct (elem q) as [s rest]. simpl in *.
  assert (Hlen : length q = (length s + length rest)%nat) by (injection Happ as ->; apply length_app).
  exists (c :: s). split_and!.
  - unfold path_elems at 1. simpl. rewrite (proj2 (Z.eqb_neq c slash)) by done.
    rewrite (proj2 (Z.eqb_neq c slash)) in Hsplit by done. rewrite Hsplit.
    rewrite filter_cons_True by done. f_equal. destruct rest as [|d rest]; [done|].
    simpl in Hr. subst d. by rewrite path_elems_skip, path_elems_slash.
  - destruct (DIRSIZ <=? _) eqn:Hd.
    + apply Z.leb_le in Hd. rewrite (drop_ge name) by lia. rewrite app_nil_r.
      apply c_string_all. by apply Forall_take.
    + apply Z.leb_gt in Hd. rewrite take_ge by (simpl; lia). apply (c_string_app (c :: s)). done.
  - unfold DIRSIZ in *. destruct (14 <=? _) eqn:Hd.
    + apply Z.leb_le in Hd. simpl in *. rewrite length_app, length_take, length_drop. lia.
    + apply Z.leb_gt in Hd. simpl in *. rewrite length_app. simpl. rewrite length_drop. lia.
  - apply skip_slashes_Forall. injection Happ as ->. apply Forall_cons in Hq as [_ [_ Hq]%Forall_app]. done.
  - pose proof (skip_slashes_length rest). simpl in Hle. lia.
Qed.

(** C22: the names [namex] looks up are the elements of the path: iterating
    [skipelem] gives exactly the nonempty pieces between slashes, in order,
    each cut to [DIRSIZ] characters, and ends after at most one turn per
    character of the path. *)
Theorem skipelem_splits path name :
  Forall (λ c, c ≠ 0) path → length name = Z.to_nat DIRSIZ →
  path_names (S (length path)) path name = Some (take (Z.to_nat DIRSIZ) <$> path_elems path).
Proof.
  remember (S (length path)) as k eqn:Hk. assert (Hlt : (length path < k)%nat) by lia. clear Hk.
  revert path name Hlt. induction k as [|k IH]; intros path name Hlt Hp Hn; [lia|]. cbn [path_names].
  pose proof (skipelem_step path name Hp Hn) as Hstep.
  destruct (skipelem path name) as [[rest name']|]; [|by rewrite Hstep].
  destruct Hstep as (e & -> & Hc & Hn' & Hr & Hl). rewrite IH; [|lia|done|done]. simpl. by rewrite Hc.
Qed.
Lemma skipelem_splits_witness :
  path_names 10 (str "//usr/a//") (replicate 14 7) = Some [str "usr"; str "a"].
Proof.
  refine (skipelem_splits (str "//usr/a//") (replicate 14 7) _ _); [|reflexivity].
  repeat (apply Forall_cons; split; [discriminate|]). apply Forall_nil. exact I.
Defined.
