(* ===== verification/Pipe.v ===== *)
(** * Pipes, [kernel/pipe.c]

    A pipe lives in a page of memory: its lock, the ring buffer [data], the
    counts of bytes read and written, and whether each end is open. *)

From S2P Require Import Prelude Fsdata Kstate Spinlock Runqueue Sched Bytes Layout Kalloc Vm Printf Proc.
#[local] Open Scope Z_scope.

Definition PIPESIZE : Z := 512.
(** the offsets of the fields *)
Definition pi_data : Z := 24.
Definition pi_nread : Z := 536.
Definition pi_nwrite : Z := 540.
Definition pi_readopen : Z := 544.
Definition pi_writeopen : Z := 548.

(** a field of type [uint] or [int]; a byte of [data] *)
Definition ld32 (a : Z) : KM Z := mem_rd (λ m, load_le 4 m a).
Definition st32 (a v : Z) : KM unit := mem_op (λ m, store_le 4 m a v).
Definition pipe_byte (pi i : Z) : KM Z := mem_rd (λ m, byte_at m (pi + pi_data + i mod PIPESIZE)).
Definition set_pipe_byte (pi i c : Z) : KM unit :=
  mem_op (λ m, put_byte m (pi + pi_data + i mod PIPESIZE) c).

Section code.
Context {SY : Symbols} (fuel : nat).

(** [pipealloc] from the allocation of the page on, up to the assignments to
    the two files *)
Definition pipe_init (pi : Z) : KM unit :=
  st32 (pi + pi_readopen) 1 ;;
  st32 (pi + pi_writeopen) 1 ;;
  st32 (pi + pi_nwrite) 0 ;;
  st32 (pi + pi_nread) 0 ;;
  initlock (pipe_lock pi).

Definition pipeclose (pi : Z) (writable : bool) : KM unit :=
  acquire (pipe_lock pi) ;;
  (if writable then
     st32 (pi + pi_writeopen) 0 ;;
     wakeup (Some (ch_nread pi))
   else
     st32 (pi + pi_readopen) 0 ;;
     wakeup (Some (ch_nwrite pi))) ;;
  let* ro := ld32 (pi + pi_readopen) in
  let* wo := ld32 (pi + pi_writeopen) in
  if (ro =? 0) && (wo =? 0) then
    release (pipe_lock pi) ;;
    kfree pi
  else release (pipe_lock pi).

(** the loop of [pipewrite]: a turn is one wait or one byte; [inl] is a
    return from inside the loop *)
Fixpoint pipewrite_loop (fuel : nat) (pr : nat) (pi addr i n : Z) : KM (Z + Z) :=
  match fuel with
  | O => stop_with StopFuel
  | S fuel =>
      if i <? n then
        let* ro := ld32 (pi + pi_readopen) in
        let* k := if ro =? 0 then ret 1 else killed pr in
        if negb (k =? 0) then release (pipe_lock pi) ;; ret (inl (-1)) else
        let* nw := ld32 (pi + pi_nwrite) in
        let* nr := ld32 (pi + pi_nread) in
        if nw =? u32 (nr + PIPESIZE) then
          wakeup (Some (ch_nread pi)) ;;
          sleep (ch_nwrite pi) (pipe_lock pi) ;;
          pipewrite_loop fuel pr pi addr i n
        else
        let* pt := rd pr p_pagetable in
        let* r := copyin pt (u64 (addr + i)) 1 in
        if r.1 =? -1 then ret (inr i) else
        let* ch := deref (head r.2) in
        let* nw := ld32 (pi + pi_nwrite) in
        st32 (pi + pi_nwrite) (u32 (nw + 1)) ;;
        set_pipe_byte pi nw ch ;;
        pipewrite_loop fuel pr pi addr (i + 1) n
      else ret (inr i)
  end.
Definition pipewrite (pi addr n : Z) : KM Z :=
  let* pr := curproc in
  acquire (pipe_lock pi) ;;
  let* r := pipewrite_loop fuel pr pi addr 0 n in
  match r with
  | inl v => ret v
  | inr i =>
      wakeup (Some (ch_nread pi)) ;;
      release (pipe_lock pi) ;;
      ret i
  end.

(** [piperead] while the pipe is empty: [true] if it returns -1 *)
Fixpoint piperead_wait (fuel : nat) (pr : nat) (pi : Z) : KM bool :=
  match fuel with
  | O => stop_with StopFuel
  | S fuel =>
      let* nr := ld32 (pi + pi_nread) in
      let* nw := ld32 (pi + pi_nwrite) in
      let* wo := ld32 (pi + pi_writeopen) in
      if (nr =? nw) && negb (wo =? 0) then
        let* k := killed pr in
        if negb (k =? 0) then release (pipe_lock pi) ;; ret true else
        sleep (ch_nread pi) (pipe_lock pi) ;;
        piperead_wait fuel pr pi
      else ret false
  end.
(** the loop that copies: the final value of [i] *)
Fixpoint piperead_copy (turns : nat) (pr : nat) (pi addr i : Z) : KM Z :=
  match turns with
  | O => ret i
  | S turns =>
      let* nr := ld32 (pi + pi_nread) in
      let* nw := ld32 (pi + pi_nwrite) in
      if nr =? nw then ret i else
      let* ch := pipe_byte pi nr in
      let* pt := rd pr p_pagetable in
      let* r := copyout pt (u64 (addr + i)) [ch] in
      if r =? -1 then (if i =? 0 then ret (-1) else ret i) else
      let* nr := ld32 (pi + pi_nread) in
      st32 (pi + pi_nread) (u32 (nr + 1)) ;;
      piperead_copy turns pr pi addr (i + 1)
  end.
Definition piperead (pi addr n : Z) : KM Z :=
  let* pr := curproc in
  acquire (pipe_lock pi) ;;
  let* dead := piperead_wait fuel pr pi in
  if dead then ret (-1) else
  let* i := piperead_copy (Z.to_nat n) pr pi addr 0 in
  wakeup (Some (ch_nwrite pi)) ;;
  release (pipe_lock pi) ;;
  ret i.
End code.
