(* ===== verification/PipeQueue.v ===== *)
(** * Pipes as queues

    A pipe is a queue of at most [PIPESIZE] bytes, kept in a ring buffer with
    two counters that wrap around at [2 ^ 32].  The theorem says that reads
    and writes that need not wait refine the operations of a queue between
    the user memories of the processes at its ends. *)

From S2P Require Import Prelude Fsdata Kstate Spinlock Runqueue Sched SchedInv Bytes Layout Kalloc Vm PageTable UserMem.
From S2P Require Import Printf Quiet Keeps Proc Pipe.
#[local] Open Scope Z_scope.

(** ** The ring buffer *)

Definition b2z (b : bool) : Z := if b then 1 else 0.
(** the bytes [q] are in the pipe at [pi], of which [nr] have been read before;
    [ro] and [wo] tell which ends are open *)
Record pipe_rep (m : gmap Z Z) (pi : Z) (nr : Z) (q : list Z) (ro wo : bool) : Prop := {
  pq_nread : load_le 4 m (pi + pi_nread) = Some (u32 nr);
  pq_nwrite : load_le 4 m (pi + pi_nwrite) = Some (u32 (nr + Z.of_nat (length q)));
  pq_ropen : load_le 4 m (pi + pi_readopen) = Some (b2z ro);
  pq_wopen : load_le 4 m (pi + pi_writeopen) = Some (b2z wo);
  pq_fit : Z.of_nat (length q) ≤ PIPESIZE;
  pq_data i x : q !! i = Some x → m !! (pi + pi_data + (nr + Z.of_nat i) mod PIPESIZE) = Some x
}.

(** the counters wrap around, the index into the buffer does not notice *)
Lemma u32_mod_PIPESIZE x : u32 x mod PIPESIZE = x mod PIPESIZE.
Proof. unfold u32. change (2 ^ 32) with (PIPESIZE * 8388608). rewrite Z.rem_mul_r by done. rewrite Z.mul_comm, Z_mod_plus_full. by rewrite Z.mod_mod. Qed.
Lemma u32_add x y : u32 (u32 x + y) = u32 (x + y).
Proof. unfold u32. by rewrite Zplus_mod_idemp_l. Qed.
Lemma u32_idemp x : u32 (u32 x) = u32 x.
Proof. unfold u32. by rewrite Z.mod_mod. Qed.
Lemma u32_eq x y : Z.abs (x - y) < 2 ^ 32 → u32 x = u32 y → x = y.
Proof.
  unfold u32. intros Hd Heq. pose proof (Z.div_mod x (2 ^ 32) ltac:(done)). pose proof (Z.div_mod y (2 ^ 32) ltac:(done)).
  assert (x - y = 2 ^ 32 * (x / 2 ^ 32 - y / 2 ^ 32)) by lia. assert (x / 2 ^ 32 - y / 2 ^ 32 = 0); lia.
Qed.
Lemma pipe_full nr n : 0 ≤ n ≤ PIPESIZE → (u32 (nr + n) =? u32 (u32 nr + PIPESIZE)) = (n =? PIPESIZE).
Proof.
  intros Hn. rewrite u32_add. unfold PIPESIZE in *. destruct (Z.eqb_spec n 512) as [-> |Hne]; [by rewrite Z.eqb_refl|].
  apply Z.eqb_neq. intros Heq%u32_eq; lia.
Qed.
Lemma pipe_empty nr n : 0 ≤ n ≤ PIPESIZE → (u32 nr =? u32 (nr + n)) = (n =? 0).
Proof.
  intros Hn. unfold PIPESIZE in *. destruct (Z.eqb_spec n 0) as [-> |Hne]; [by rewrite Z.add_0_r, Z.eqb_refl|].
  apply Z.eqb_neq. intros Heq%u32_eq; lia.
Qed.

(** *** What the code writes *)

Section ring.
Context {SY : Symbols} {SYok : SymbolsOk} (pi : Z) (Hpi : page_ok pi).

(** the memory is changed in the page of the pipe only *)
Definition in_pipe (m m' : gmap Z Z) : Prop := ram m' ∧ same_outside [pi] m m'.
Lemma in_pipe_trans m m1 m2 : in_pipe m m1 → in_pipe m1 m2 → in_pipe m m2.
Proof. intros [_ H1] [H2 H3]. split; [done|]. by transitivity m1. Qed.

Lemma field_written m off v : ram m → 0 ≤ off → off + 4 ≤ PGSIZE →
  ∃ m' f, store_le 4 m (pi + off) v = Some m' ∧ load_le 4 m' (pi + off) = Some (u32 v) ∧
    written m m' (pi + off) 4 f ∧ in_pipe m m'.
Proof using SYok Hpi.
  intros Hram H0 H4. destruct (store_le_spec 4 m (pi + off) v) as (m' & Hst & Hld & f & Hw & Hf).
  { eapply mapped_sub; [by apply ram_page|lia|lia]. }
  exists m', f. split_and!; [done|done|done|]. split; [by eapply ram_written|]. by eapply written_outside; [done|apply Hpi|lia|lia].
Qed.
Lemma byte_written m i c : ram m → let a := pi + pi_data + i mod PIPESIZE in
  put_byte m a c = Some (<[a := c]> m) ∧ in_pipe m (<[a := c]> m).
Proof using SYok Hpi.
  intros Hram a. pose proof (Z.mod_pos_bound i PIPESIZE ltac:(done)) as Hb. unfold PIPESIZE, pi_data in *.
  assert (Ha : a = pi + (24 + i mod 512)) by lia.
  destruct (ram_page m pi Hram Hpi (24 + i mod 512)) as [x Hx]; [unfold PGSIZE; lia|]. split.
  - cbn. rewrite Ha. cbn in Hx. by rewrite Hx.
  - split.
    + intros b Hb'. rewrite lookup_insert. case_decide; [done|by apply Hram].
    + intros b Hb'. rewrite lookup_insert_ne; [done|]. rewrite list_elem_of_singleton in Hb'. intros <-. apply Hb'.
      rewrite Ha. apply page_of_offset; [apply Hpi|unfold PGSIZE; lia].
Qed.

(** a field is written: the other fields and the data are as before *)
Lemma field_other (m m' : gmap Z Z) off f off' : written m m' (pi + off) 4 f → off' + 4 ≤ off ∨ off + 4 ≤ off' →
  load_le 4 m' (pi + off') = load_le 4 m (pi + off').
Proof. intros Hw Ho. eapply load_le_other; [exact Hw|]. lia. Qed.
Lemma field_data (m m' : gmap Z Z) off f i : written m m' (pi + off) 4 f → pi_nread ≤ off →
  m' !! (pi + pi_data + i mod PIPESIZE) = m !! (pi + pi_data + i mod PIPESIZE).
Proof.
  intros Hw Ho. pose proof (Hw (pi + pi_data + i mod PIPESIZE)) as H. cbn in H. rewrite H, decide_False; [done|].
  pose proof (Z.mod_pos_bound i PIPESIZE ltac:(done)). unfold pi_nread, pi_data, PIPESIZE in *. lia.
Qed.
Lemma data_field (m : gmap Z Z) i c off : pi_nread ≤ off →
  load_le 4 (<[pi + pi_data + i mod PIPESIZE := c]> m) (pi + off) = load_le 4 m (pi + off).
Proof.
  intros Ho. unfold load_le. rewrite (load_bytes_ext m); [done|]. intros j Hj. cbn. apply lookup_insert_ne.
  pose proof (Z.mod_pos_bound i PIPESIZE ltac:(done)). unfold pi_nread, pi_data, PIPESIZE in *. lia.
Qed.
(** distinct positions of the queue have distinct places in the buffer *)
Lemma slot_inj i j : i mod PIPESIZE = j mod PIPESIZE → Z.abs (i - j) < PIPESIZE → i = j.
Proof.
  intros Heq Hd. pose proof (Z.div_mod i PIPESIZE ltac:(done)). pose proof (Z.div_mod j PIPESIZE ltac:(done)).
  assert (i - j = PIPESIZE * (i / PIPESIZE - j / PIPESIZE)) by lia. unfold PIPESIZE in *. lia.
Qed.

#[local] Ltac offsets := unfold pi_nread, pi_nwrite, pi_readopen, pi_writeopen, PGSIZE in *; lia.
#[local] Ltac other Hw := rewrite (field_other _ _ _ _ _ Hw) by offsets.
Lemma put_rep m nr q ro wo c : ram m → pipe_rep m pi nr q ro wo → Z.of_nat (length q) < PIPESIZE →
  ∃ m1, store_le 4 m (pi + pi_nwrite) (u32 (u32 (nr + Z.of_nat (length q)) + 1)) = Some m1 ∧
    let m2 := <[pi + pi_data + u32 (nr + Z.of_nat (length q)) mod PIPESIZE := c]> m1 in
    put_byte m1 (pi + pi_data + u32 (nr + Z.of_nat (length q)) mod PIPESIZE) c = Some m2 ∧
    in_pipe m m2 ∧ pipe_rep m2 pi nr (q ++ [c]) ro wo.
Proof using SYok Hpi.
  intros Hram [H1 H2 H3 H4 H5 H6] Hlt. set (n := u32 (nr + Z.of_nat (length q))) in *.
  destruct (field_written m pi_nwrite (u32 (n + 1)) Hram) as (m1 & f & Hst & Hld & Hw & Hp1); [offsets..|].
  destruct (byte_written m1 n c (proj1 Hp1)) as [Hput Hp2].
  exists m1. split; [done|]. intros m2. split_and!; [done|by eapply in_pipe_trans|].
  split; unfold m2; rewrite ?data_field by offsets.
  - by other Hw.
  - rewrite Hld. unfold n. rewrite !u32_idemp, u32_add, length_app. f_equal. f_equal. cbn [length]. lia.
  - by other Hw.
  - by other Hw.
  - rewrite length_app. cbn [length]. lia.
  - intros i x Hi. unfold n. rewrite u32_mod_PIPESIZE. apply lookup_app_Some in Hi as [Hi|[Hge Hi]].
    + pose proof (lookup_lt_Some _ _ _ Hi). rewrite lookup_insert_ne.
      * rewrite (field_data _ _ _ _ _ Hw) by offsets. by apply H6.
      * intros Heq. assert (nr + Z.of_nat (length q) = nr + Z.of_nat i); [|lia]. apply slot_inj; lia.
    + destruct (i - length q)%nat as [|k] eqn:Hk; [|done]. injection Hi as ->. replace i with (length q) by lia. apply lookup_insert_eq.
Qed.
Lemma get_rep m nr c q ro wo : ram m → pipe_rep m pi nr (c :: q) ro wo →
  ∃ m1, store_le 4 m (pi + pi_nread) (u32 (u32 nr + 1)) = Some m1 ∧ in_pipe m m1 ∧ pipe_rep m1 pi (nr + 1) q ro wo.
Proof using SYok Hpi.
  intros Hram [H1 H2 H3 H4 H5 H6]. cbn [length] in *.
  destruct (field_written m pi_nread (u32 (u32 nr + 1)) Hram) as (m1 & f & Hst & Hld & Hw & Hp1); [offsets..|].
  exists m1. split_and!; [done|done|]. split.
  - by rewrite Hld, u32_idemp, u32_add.
  - other Hw. rewrite H2. f_equal. f_equal. lia.
  - by other Hw.
  - by other Hw.
  - lia.
  - intros i x Hi. rewrite (field_data _ _ _ _ _ Hw) by offsets. replace (nr + 1 + Z.of_nat i) with (nr + Z.of_nat (S i)) by lia. by apply H6.
Qed.
Lemma close_rep m nr q ro wo (w : bool) : ram m → pipe_rep m pi nr q ro wo →
  ∃ m1, store_le 4 m (pi + if w then pi_writeopen else pi_readopen) 0 = Some m1 ∧ in_pipe m m1 ∧
    pipe_rep m1 pi nr q (ro && w) (wo && negb w).
Proof using SYok Hpi.
  intros Hram [H1 H2 H3 H4 H5 H6]. set (off := if w then pi_writeopen else pi_readopen).
  destruct (field_written m off 0 Hram) as (m1 & f & Hst & Hld & Hw & Hp1); [destruct w; unfold off; offsets..|].
  exists m1. split_and!; [done|done|]. split; [| | | |done|intros i x Hi; rewrite (field_data _ _ _ _ _ Hw) by (destruct w; unfold off; offsets); by apply H6];
    destruct w; unfold off in *; rewrite ?andb_true_r, ?andb_false_r; by (other Hw || rewrite Hld).
Qed.
(** a new pipe is empty and open *)
Lemma pipe_init_rep H E G R ms : pipe_lock pi ∉ H → ram (mbytes ms) →
  mwp E G R H (pipe_init pi) ms (λ _ ms', in_pipe (mbytes ms) (mbytes ms') ∧ ms' = ms <| mbytes := mbytes ms' |> ∧
    pipe_rep (mbytes ms') pi 0 [] true true).
Proof using SYok Hpi.
  intros HH Hram. unfold pipe_init, st32.
  destruct (field_written _ pi_readopen 1 Hram) as (m1 & f1 & S1 & L1 & W1 & P1); [offsets..|].
  apply mwp_bind. eapply mwp_mem_op; [exact S1|]. cbn.
  destruct (field_written m1 pi_writeopen 1 (proj1 P1)) as (m2 & f2 & S2 & L2 & W2 & P2); [offsets..|].
  apply mwp_bind. eapply mwp_mem_op; [exact S2|]. cbn.
  destruct (field_written m2 pi_nwrite 0 (proj1 P2)) as (m3 & f3 & S3 & L3 & W3 & P3); [offsets..|].
  apply mwp_bind. eapply mwp_mem_op; [exact S3|]. cbn.
  destruct (field_written m3 pi_nread 0 (proj1 P3)) as (m4 & f4 & S4 & L4 & W4 & P4); [offsets..|].
  apply mwp_bind. eapply mwp_mem_op; [exact S4|]. intros s Hs Hm. eapply wp_initlock; [done|done|]. intros k Hk Hf.
  exists k, (k_mem s). split_and!; [by destruct s|done|done|..]; rewrite Hm; [by do 3 (eapply in_pipe_trans; [done|])|by destruct ms|].
  cbn. split; [done|other W4; by rewrite L3|other W4; other W3; by other W2|other W4; by other W3|done|done].
Qed.
(** what is outside of the page does not matter *)
Lemma pipe_rep_same m m' nr q ro wo : (∀ off, 0 ≤ off < PGSIZE → m' !! (pi + off) = m !! (pi + off)) →
  pipe_rep m pi nr q ro wo → pipe_rep m' pi nr q ro wo.
Proof.
  intros Hs [H1 H2 H3 H4 H5 H6].
  assert (Hld : ∀ off, 0 ≤ off → off + 4 ≤ PGSIZE → load_le 4 m' (pi + off) = load_le 4 m (pi + off)).
  { intros off Ho H. unfold load_le. rewrite (load_bytes_ext m m'); [done|]. intros i Hi. cbn. rewrite <- Z.add_assoc. apply Hs. lia. }
  split; [rewrite Hld by offsets; done..|done|]. intros i x Hi. rewrite <- Z.add_assoc. rewrite Hs; [rewrite Z.add_assoc; by apply H6|].
  pose proof (Z.mod_pos_bound (nr + Z.of_nat i) PIPESIZE ltac:(done)). unfold pi_data, PIPESIZE, PGSIZE in *. lia.
Qed.
End ring.

(** ** Code run by a process *)

Section logic.
Context {SY : Symbols} {SYok : SymbolsOk} (E : stop → Prop) (G : kstate → Prop) (R : kstate → kstate → Prop).
Context (p : nat) (T : pt).

(** process [p], which has the page table [T] and is not killed, runs with the
    locks [H] held on the memory [ms] *)
Record psat (H : gset lockid) (ms : memst) (s : kstate) : Prop := {
  ps_kinv : kinv (Some p) H s;
  ps_proc : ∃ r, procs (k_pt s) !! p = Some r ∧ p_pagetable r = root T ∧ p_killed r = 0;
  ps_mem : k_mem s = ms
}.
Definition pwp {A} (m : KM A) (H : gset lockid) (ms : memst) (Q : A → gset lockid → memst → Prop) : Prop :=
  ∀ s, psat H ms s → wp E G R (m s) (λ a s', ∃ H' ms', psat H' ms' s' ∧ Q a H' ms').

Lemma pwp_mono {A} (m : KM A) H ms (Q Q' : A → gset lockid → memst → Prop) :
  (∀ a H' ms', Q a H' ms' → Q' a H' ms') → pwp m H ms Q → pwp m H ms Q'.
Proof.
  intros HQ Hm s Hs. eapply wp_mono; [|by apply Hm]. intros a s' (H' & ms' & Hs' & HQ').
  exists H', ms'. eauto.
Qed.
Lemma pwp_bind {A B} (m : KM A) (k : A → KM B) H ms Q :
  pwp m H ms (λ a H' ms', pwp (k a) H' ms' Q) → pwp (bind m k) H ms Q.
Proof.
  intros Hm s Hs. apply wp_bind. eapply wp_mono; [|by apply Hm]. simpl.
  intros a s' (H' & ms' & Hs' & Hk). by apply Hk.
Qed.
Lemma pwp_ret {A} (a : A) H ms (Q : A → gset lockid → memst → Prop) : Q a H ms → pwp (ret a) H ms Q.
Proof. intros HQ s Hs. apply wp_done. by exists H, ms. Qed.

Lemma psat_lk H H' ms s k : lockinv H' k → lk_frame (k_lk s) k → psat H ms s → psat H' ms (s <| k_lk := k |>).
Proof. intros Hk Hf [Hi Hp Hm]. split; [by eapply kinv_lock|done..]. Qed.
Lemma pwp_acquire l H ms (Q : unit → gset lockid → memst → Prop) : l ∉ H → Q tt ({[l]} ∪ H) ms → pwp (acquire l) H ms Q.
Proof.
  intros Hl HQ s Hs. eapply wp_acquire; [apply Hs|done|]. intros k Hk Hf. exists ({[l]} ∪ H), ms.
  split; [by eapply psat_lk|done].
Qed.
Lemma pwp_release l H ms (Q : unit → gset lockid → memst → Prop) : l ∉ H → Q tt H ms → pwp (release l) ({[l]} ∪ H) ms Q.
Proof.
  intros Hl HQ s Hs. eapply wp_release_add; [apply Hs|done|]. intros k Hk Hf. exists H, ms.
  split; [by eapply psat_lk|done].
Qed.
Lemma pwp_curproc H ms (Q : nat → gset lockid → memst → Prop) : Q p H ms → pwp curproc H ms Q.
Proof.
  intros HQ s Hs. apply wp_bind. eapply wp_myproc; [apply Hs|]. intros k Hk Hf.
  rewrite (kinv_cur _ _ _ (ps_kinv _ _ _ Hs)). apply wp_done. exists H, ms. split; [by eapply psat_lk|done].
Qed.
Lemma pwp_killed H ms (Q : Z → gset lockid → memst → Prop) : p_lock p ∉ H → Q 0 H ms → pwp (killed p) H ms Q.
Proof.
  intros Hl HQ s Hs. destruct (ps_proc _ _ _ Hs) as (r & Hr & _ & Hk).
  eapply wp_killed; [done|apply Hs|done|]. intros k Hlk Hf. rewrite Hk. exists H, ms. split; [by eapply psat_lk|done].
Qed.
Lemma pwp_pagetable H ms (Q : Z → gset lockid → memst → Prop) : Q (root T) H ms → pwp (rd p p_pagetable) H ms Q.
Proof.
  intros HQ s Hs. destruct (ps_proc _ _ _ Hs) as (r & Hr & Hpt & _). eapply wp_rd; [done|]. rewrite Hpt. by exists H, ms.
Qed.
Lemma pwp_wakeup c H ms (Q : unit → gset lockid → memst → Prop) :
  (∀ i, p_lock i ∉ H) → Q tt H ms → pwp (wakeup c) H ms Q.
Proof.
  intros HH HQ s [Hs (r & Hr & Hpt & Hkd) Hm]. eapply wp_wakeup_kinv; [done|done|]. intros s' Hs' _ _ Hc Heq.
  exists H, ms. split; [|done]. split; [done| |by rewrite Heq].
  specialize (Hc p eq_refl). rewrite Hr in Hc. simpl in Hc.
  destruct (procs (k_pt s') !! p) as [r'|]; [|done]. exists r'. apply (inj Some) in Hc.
  split_and!; [done| |].
  - rewrite <- Hpt. by apply (f_equal p_pagetable) in Hc.
  - rewrite <- Hkd. by apply (f_equal p_killed) in Hc.
Qed.
(** code that only works on the memory *)
Lemma pwp_mem {A} (m : KM A) H ms (Q : A → gset lockid → memst → Prop) :
  mwp E G R H m ms (λ a ms', Q a H ms') → pwp m H ms Q.
Proof.
  intros Hm s Hs. eapply wp_mono; [|by apply Hm; [apply Hs|apply Hs]].
  intros a s' (k & ms' & -> & Hk & Hf & HQ). exists H, ms'. split; [|done]. destruct Hs as [Hi Hp _].
  split; [|by destruct s..]. eapply (kinv_lock _ _ _ _ k) in Hi; [|done|done]. by destruct Hi.
Qed.
Lemma pwp_mem_rd {A} (f : gmap Z Z → option A) v H ms (Q : A → gset lockid → memst → Prop) :
  f (mbytes ms) = Some v → Q v H ms → pwp (mem_rd f) H ms Q.
Proof. intros Hf HQ. by eapply pwp_mem, mwp_mem_rd. Qed.
Lemma pwp_mem_op f m H ms (Q : unit → gset lockid → memst → Prop) :
  f (mbytes ms) = Some m → Q tt H (ms <| mbytes := m |>) → pwp (mem_op f) H ms Q.
Proof. intros Hf HQ. by eapply pwp_mem, mwp_mem_op. Qed.
End logic.

(** ** The queue *)

(** the bytes in the queue, its open ends, and the user memory of each process *)
Record qst := mk_qst { q_bytes : list Z; q_ropen : bool; q_wopen : bool; q_user : nat → Z → option Z }.
(** process [i] writes [n] bytes from [va] on, reads at most [n] bytes to [va],
    closes an end *)
Inductive pop := Put (i : nat) (va : Z) (n : nat) | Get (i : nat) (va : Z) (n : nat) | Close (i : nat) (w : bool).

Fixpoint user_bytes (u : Z → option Z) (va : Z) (n : nat) : list Z :=
  match n with O => [] | S n => default 0 (u va) :: user_bytes u (va + 1) n end.
Definition user_put (u : nat → Z → option Z) (i : nat) (va : Z) (bs : list Z) (j : nat) (x : Z) : option Z :=
  if decide (j = i ∧ va ≤ x < va + Z.of_nat (length bs)) then bs !! Z.to_nat (x - va) else u j x.
Lemma user_put_cons u i va c bs j x : user_put (user_put u i va [c]) i (va + 1) bs j x = user_put u i va (c :: bs) j x.
Proof.
  unfold user_put. cbn [length]. destruct (decide (j = i)) as [-> |]; [|by rewrite !decide_False by tauto].
  destruct (decide (x = va)) as [-> |].
  - rewrite decide_False, !decide_True by lia. by rewrite Z.sub_diag.
  - destruct (decide (va + 1 ≤ x < va + 1 + Z.of_nat (length bs))).
    + rewrite !decide_True by lia. by replace (Z.to_nat (x - va)) with (S (Z.to_nat (x - (va + 1)))) by lia.
    + by rewrite !decide_False by lia.
Qed.
(** the result of an operation; [None] if it waits, or ends the pipe *)
Definition q_step (o : pop) (σ : qst) : option (Z * qst) :=
  let 'mk_qst q ro wo u := σ in
  match o with
  | Put i va n =>
      if negb ro then Some (if decide (n = 0%nat) then 0 else -1, σ) else
      if decide (Z.of_nat (length q + n) ≤ PIPESIZE)
      then Some (Z.of_nat n, mk_qst (q ++ user_bytes (u i) va n) ro wo u) else None
  | Get i va n =>
      if decide (q = [] ∧ wo = true) then None else
      Some (Z.of_nat (length (take n q)), mk_qst (drop n q) ro wo (user_put u i va (take n q)))
  | Close i w =>
      if (ro && w) || (wo && negb w) then Some (0, mk_qst q (ro && w) (wo && negb w) u) else None
  end.

Section refines.
Context {SY : Symbols} {SYok : SymbolsOk} (fuel : nat) (pi : Z) (T : gmap nat pt).

(** the page of the pipe, the page tables and the user pages of the processes
    are apart *)
Record apart : Prop := {
  ap_pipe : page_ok pi;
  ap_user i A : T !! i = Some A → user_pages A;
  ap_pipe_table i A : T !! i = Some A → ¬ is_page A pi;
  ap_pipe_user i A n e : T !! i = Some A → leaf A !! n = Some e → flag e PTE_U = true → PTE2PA e ≠ pi;
  ap_table i j A B n e : T !! i = Some A → T !! j = Some B → leaf A !! n = Some e → flag e PTE_U = true →
    ¬ is_page B (PTE2PA e);
  ap_pages i j A B n n' e e' : T !! i = Some A → T !! j = Some B → leaf A !! n = Some e → leaf B !! n' = Some e' →
    flag e PTE_U = true → flag e' PTE_U = true → PTE2PA e = PTE2PA e' → i = j
}.
Context (Hap : apart).

(** the memory [m] holds the queue and the users [σ] *)
Record q_rep (m : gmap Z Z) (σ : qst) : Prop := {
  qr_ram : ram m;
  qr_pipe : ∃ nr, pipe_rep m pi nr (q_bytes σ) (q_ropen σ) (q_wopen σ);
  qr_table i A : T !! i = Some A → ptrep m A;
  qr_user i A x : T !! i = Some A → umem m A x = q_user σ i x
}.

(** *** The representation *)

(** writing in the page of the pipe leaves the processes alone *)
Lemma q_rep_pipe m m' q ro wo q' ro' wo' nr u : in_pipe pi m m' → pipe_rep m' pi nr q' ro' wo' →
  q_rep m (mk_qst q ro wo u) → q_rep m' (mk_qst q' ro' wo' u).
Proof using Hap.
  intros [Hram Hs] Hp [_ _ Ht Hu]. split; [done|by exists nr|..].
  - intros i A HA. eapply ptrep_same; [done| |by eapply Ht]. intros r Hr ->%list_elem_of_singleton.
    by apply (ap_pipe_table Hap _ _ HA).
  - intros i A x HA. cbn [q_user] in *. rewrite <- (Hu _ _ x HA). unfold umem. destruct (user_addr A x) as [a|] eqn:Ha; [|done]. cbn [mbind option_bind].
    apply Hs. apply user_addr_Some in Ha as (e & He & HU & ->). destruct (up_ok _ (ap_user Hap _ _ HA) _ _ He HU) as [[Hal _] _].
    rewrite page_of_offset; [|done|by apply Z.mod_pos_bound]. intros Hin%list_elem_of_singleton. by eapply (ap_pipe_user Hap).
Qed.
(** writing user memory leaves the pipe and the other processes alone *)
Lemma q_rep_user m m' i A va bs q ro wo u : T !! i = Some A → ram m' → user_written A va bs m m' →
  q_rep m (mk_qst q ro wo u) → q_rep m' (mk_qst q ro wo (user_put u i va bs)).
Proof using Hap.
  intros HA Hram Hw [_ (nr & Hp) Ht Hu]. pose proof (ap_user Hap _ _ HA) as Hup.
  assert (Hout : ∀ a, (∀ n e, leaf A !! n = Some e → flag e PTE_U = true → PGROUNDDOWN a ≠ PTE2PA e) → m' !! a = m !! a).
  { intros a Ha. apply (uw_out _ _ _ _ _ Hw). intros k _ Hk. apply user_addr_Some in Hk as (e & He & HU & ->).
    destruct (up_ok _ Hup _ _ He HU) as [[Hal _] _]. eapply Ha; [done|done|]. apply page_of_offset; [done|by apply Z.mod_pos_bound]. }
  split; [done|exists nr|..].
  - eapply pipe_rep_same; [|done]. intros off Ho. apply Hout. intros n e He HU. rewrite page_of_offset; [|apply Hap|done].
    intros Heq. by eapply (ap_pipe_user Hap).
  - intros j B HB. eapply ptrep_bytes; [|by eapply Ht]. intros a Ha. apply Hout. intros n e He HU Heq. rewrite Heq in Ha.
    by apply (ap_table Hap _ _ _ _ _ _ HA HB He HU).
  - intros j B x HB. cbn [q_user] in *. unfold user_put. case_decide as Hd.
    + destruct Hd as [-> Hx]. simplify_eq. destruct (lookup_lt_is_Some_2 bs (Z.to_nat (x - va))) as [c Hc]; [lia|].
      rewrite Hc. rewrite <- (uw_in _ _ _ _ _ Hw _ _ Hc). f_equal. lia.
    + destruct (decide (j = i)) as [-> |Hne].
      * simplify_eq. rewrite <- (Hu i A x HA). eapply umem_other; [done|done|]. tauto.
      * rewrite <- (Hu j B x HB). unfold umem. destruct (user_addr B x) as [a|] eqn:Ha; [|done]. cbn [mbind option_bind].
        apply Hout. intros n e He HU Heq. apply user_addr_Some in Ha as (e' & He' & HU' & ->).
        destruct (up_ok _ (ap_user Hap _ _ HB) _ _ He' HU') as [[Hal _] _].
        rewrite page_of_offset in Heq; [|done|by apply Z.mod_pos_bound]. by apply Hne, (ap_pages Hap j i B A (vpn x) n e' e).
Qed.
Lemma q_rep_ext m q ro wo u u' : (∀ i x, u i x = u' i x) → q_rep m (mk_qst q ro wo u) → q_rep m (mk_qst q ro wo u').
Proof. intros Hx [H1 H2 H3 H4]. split; [done..|]. intros i A x HA. cbn. rewrite <- Hx. by apply H4. Qed.

(** *** The operations *)

Section op.
Context (E : stop → Prop) (G : kstate → Prop) (R : kstate → kstate → Prop) (i : nat) (A : pt) (HA : T !! i = Some A).
#[local] Abbreviation pwp := (pwp E G R i A).
#[local] Abbreviation L := ({[pipe_lock pi]} ∪ ∅ : gset lockid).

Lemma user_range_at va n w k : user_range A va n w → 0 ≤ k < n → user_range A (va + k) 1 w ∧ u64 (va + k) = va + k.
Proof.
  intros (H1 & H2 & H3) Hk. split.
  - split_and!; [lia|lia|]. intros j Hj. replace (va + k + j) with (va + k) by lia. by apply H3.
  - apply Z.mod_small. assert (MAXVA < 2 ^ 64) by done. lia.
Qed.
Lemma pwp_copyin1 H ms σ va (Q : Z * list Z → gset lockid → memst → Prop) : q_rep (mbytes ms) σ → user_range A va 1 false →
  (∀ x, q_user σ i va = Some x → Q (0, [x]) H ms) → pwp (copyin (root A) va 1) H ms Q.
Proof using Hap HA SYok.
  intros Hq Hr HQ. apply pwp_mem. eapply mwp_mono; [|apply (mwp_copyin_loop _ _ _ H ms A);
    [by eapply qr_table|by eapply ap_user|by eapply qr_ram|by apply copy_turns_enough|done]].
  intros [r bs] ms' (-> & Hr0 & Hlen & Hbs). cbn [fst snd] in *. subst r. destruct bs as [|x [|y bs]]; cbn [length] in Hlen; try lia.
  apply HQ. rewrite <- (qr_user _ _ Hq _ _ _ HA). rewrite <- (Hbs 0%nat x eq_refl). f_equal. lia.
Qed.
Lemma pwp_copyout1 H ms q ro wo u va c (Q : Z → gset lockid → memst → Prop) :
  q_rep (mbytes ms) (mk_qst q ro wo u) → user_range A va 1 true →
  (∀ m, q_rep m (mk_qst q ro wo (user_put u i va [c])) → Q 0 H (ms <| mbytes := m |>)) → pwp (copyout (root A) va [c]) H ms Q.
Proof using Hap HA SYok.
  intros Hq Hr HQ. apply pwp_mem. eapply mwp_mono; [|apply (mwp_copyout_loop _ _ _ H A (ap_user Hap _ _ HA) _ ms va [c]);
    [by eapply qr_table|by eapply qr_ram|by apply copy_turns_enough|done]].
  intros r ms' (-> & m' & -> & _ & Hram & Hw). apply HQ. by eapply q_rep_user.
Qed.

(** the loop of [pipewrite] when all bytes fit *)
Lemma pwp_pipewrite_loop addr n k : ∀ fuel j q wo u ms (Q : Z + Z → gset lockid → memst → Prop),
  (k < fuel)%nat → 0 ≤ j → j + Z.of_nat k = n → user_range A addr n false → Z.of_nat (length q + k) ≤ PIPESIZE →
  q_rep (mbytes ms) (mk_qst q true wo u) →
  (∀ m, q_rep m (mk_qst (q ++ user_bytes (u i) (addr + j) k) true wo u) → Q (inr n) L (ms <| mbytes := m |>)) →
  pwp (pipewrite_loop fuel i pi addr j n) L ms Q.
Proof using Hap HA SYok.
  induction k as [|k IH]; intros [|fuel'] j q wo u ms Q Hf Hj Hn Hr Hfit Hq HQ; try lia; cbn [pipewrite_loop].
  { rewrite (proj2 (Z.ltb_ge _ _)) by lia. apply pwp_ret. replace j with n by lia. replace ms with (ms <| mbytes := mbytes ms |>) by (by destruct ms).
    apply HQ. cbn [user_bytes]. by rewrite app_nil_r. }
  rewrite (proj2 (Z.ltb_lt _ _)) by lia. pose proof Hq as [Hram (nr & Hrep) _ _]. cbn [q_bytes q_ropen q_wopen] in Hrep.
  pose proof Hrep as [Hnr Hnw Hro _ _ _]. apply pwp_bind. eapply pwp_mem_rd; [exact Hro|]. cbn [b2z Z.eqb].
  apply pwp_bind, pwp_killed; [set_solver|]. cbn [negb Z.eqb].
  apply pwp_bind. eapply pwp_mem_rd; [exact Hnw|]. apply pwp_bind. eapply pwp_mem_rd; [exact Hnr|].
  rewrite pipe_full, (proj2 (Z.eqb_neq _ _)) by lia. apply pwp_bind, pwp_pagetable, pwp_bind.
  destruct (user_range_at addr n false j Hr) as [Hr1 ->]; [lia|]. eapply pwp_copyin1; [done|done|]. intros x Hx. cbn [q_user] in Hx.
  cbn [fst snd head]. change (0 =? -1) with false. cbn iota. apply pwp_bind, pwp_ret.
  apply pwp_bind. eapply pwp_mem_rd; [exact Hnw|].
  destruct (put_rep pi (ap_pipe Hap) _ nr q true wo x Hram Hrep) as (m1 & Hst & Hput & Hin & Hrep'); [lia|].
  apply pwp_bind. eapply pwp_mem_op; [exact Hst|]. apply pwp_bind. eapply pwp_mem_op; [exact Hput|].
  eapply (IH _ (j + 1) (q ++ [x]) wo u); [lia|lia|lia|done|rewrite length_app; cbn [length]; lia|by eapply q_rep_pipe|].
  intros m Hm. apply HQ. cbn [user_bytes]. rewrite Hx. rewrite <- app_assoc in Hm. by rewrite <- Z.add_assoc.
Qed.
Lemma pwp_pipewrite addr n q ro wo u ms r σ (Q : Z → gset lockid → memst → Prop) :
  (n < fuel)%nat → user_range A addr (Z.of_nat n) false → q_rep (mbytes ms) (mk_qst q ro wo u) →
  q_step (Put i addr n) (mk_qst q ro wo u) = Some (r, σ) →
  (∀ m, q_rep m σ → Q r ∅ (ms <| mbytes := m |>)) → pwp (pipewrite fuel pi addr (Z.of_nat n)) ∅ ms Q.
Proof using Hap HA SYok.
  intros Hf Hr Hq Hstep HQ. apply pwp_bind, pwp_curproc, pwp_bind, pwp_acquire; [set_solver|]. apply pwp_bind. cbn [q_step] in Hstep.
  destruct ro; cbn [negb] in Hstep.
  - case_decide as Hfit; [|done]. injection Hstep as <- <-.
    eapply (pwp_pipewrite_loop addr (Z.of_nat n) n); [done|done|done|done|done|done|]. intros m Hm. rewrite Z.add_0_r in Hm.
    apply pwp_bind, pwp_wakeup; [set_solver|]. apply pwp_bind, pwp_release; [set_solver|]. by apply pwp_ret, HQ.
  - injection Hstep as <- <-. assert (Hms : ms = ms <| mbytes := mbytes ms |>) by (by destruct ms).
    destruct fuel as [|fuel']; [lia|]. cbn [pipewrite_loop]. case_decide as Hn.
    + subst n. cbn. apply pwp_ret, pwp_bind, pwp_wakeup; [set_solver|]. apply pwp_bind, pwp_release; [set_solver|].
      apply pwp_ret. rewrite Hms. by apply HQ.
    + rewrite (proj2 (Z.ltb_lt _ _)) by lia. pose proof Hq as [_ (nr & [_ _ Hro _ _ _]) _ _]. apply pwp_bind.
      eapply pwp_mem_rd; [exact Hro|]. cbn [b2z q_ropen Z.eqb]. apply pwp_bind, pwp_ret. cbn [negb Z.eqb].
      apply pwp_bind, pwp_release; [set_solver|]. apply pwp_ret, pwp_ret. rewrite Hms. by apply HQ.
Qed.

Lemma pwp_piperead_copy addr n k : ∀ j q ro wo u ms (Q : Z → gset lockid → memst → Prop),
  0 ≤ j → j + Z.of_nat k = n → user_range A addr n true → q_rep (mbytes ms) (mk_qst q ro wo u) →
  (∀ m, q_rep m (mk_qst (drop k q) ro wo (user_put u i (addr + j) (take k q))) →
    Q (j + Z.of_nat (length (take k q))) L (ms <| mbytes := m |>)) →
  pwp (piperead_copy k i pi addr j) L ms Q.
Proof using Hap HA SYok.
  assert (Hnil : ∀ u va j x, user_put u i va [] j x = u j x) by (intros; unfold user_put; rewrite decide_False by (cbn; lia); done).
  induction k as [|k IH]; intros j q ro wo u ms Q Hj Hn Hr Hq HQ; cbn [piperead_copy].
  all: assert (Hms : ms = ms <| mbytes := mbytes ms |>) by (by destruct ms).
  { apply pwp_ret. rewrite <- (Z.add_0_r j), Hms. apply HQ. by eapply q_rep_ext, Hq. }
  pose proof Hq as [Hram (nr & Hrep) _ _]. cbn [q_bytes q_ropen q_wopen] in Hrep. pose proof Hrep as [Hnr Hnw _ _ Hfit Hdata].
  apply pwp_bind. eapply pwp_mem_rd; [exact Hnr|]. apply pwp_bind. eapply pwp_mem_rd; [exact Hnw|]. rewrite pipe_empty by lia.
  destruct q as [|c q].
  { cbn. apply pwp_ret. rewrite <- (Z.add_0_r j), Hms. apply HQ. by eapply q_rep_ext, Hq. }
  rewrite (proj2 (Z.eqb_neq _ _)) by (cbn [length]; lia). apply pwp_bind.
  eapply (pwp_mem_rd _ _ _ _ _ _ c); [unfold byte_at; cbn; rewrite u32_mod_PIPESIZE, <- (Hdata 0%nat c eq_refl); do 3 f_equal; lia|].
  apply pwp_bind, pwp_pagetable, pwp_bind. destruct (user_range_at addr n true j Hr) as [Hr1 ->]; [lia|].
  eapply pwp_copyout1; [done|done|]. intros m Hm. change (0 =? -1) with false. cbn iota.
  pose proof Hm as [Hram' (nr' & Hrep') _ _]. cbn [q_bytes q_ropen q_wopen] in Hrep'. pose proof Hrep' as [Hnr' _ _ _ _ _].
  apply pwp_bind. eapply pwp_mem_rd; [exact Hnr'|].
  destruct (get_rep pi (ap_pipe Hap) _ _ _ _ _ _ Hram' Hrep') as (m1 & Hst & Hin & Hrep1).
  apply pwp_bind. eapply pwp_mem_op; [exact Hst|].
  eapply (IH (j + 1)); [lia|lia|done|by eapply (q_rep_pipe m)|]. intros m2 Hm2. cbn [take drop length] in HQ.
  replace (j + 1 + Z.of_nat (length (take k q))) with (j + Z.of_nat (S (length (take k q)))) by lia.
  apply (HQ m2). rewrite Z.add_assoc in Hm2. eapply q_rep_ext, Hm2. intros. apply user_put_cons.
Qed.
Lemma pwp_piperead addr n q ro wo u ms r σ (Q : Z → gset lockid → memst → Prop) :
  (0 < fuel)%nat → user_range A addr (Z.of_nat n) true → q_rep (mbytes ms) (mk_qst q ro wo u) →
  q_step (Get i addr n) (mk_qst q ro wo u) = Some (r, σ) →
  (∀ m, q_rep m σ → Q r ∅ (ms <| mbytes := m |>)) → pwp (piperead fuel pi addr (Z.of_nat n)) ∅ ms Q.
Proof using Hap HA SYok.
  intros Hf Hr Hq Hstep HQ. apply pwp_bind, pwp_curproc, pwp_bind, pwp_acquire; [set_solver|]. apply pwp_bind. cbn [q_step] in Hstep.
  case_decide as Hd; [done|]. injection Hstep as <- <-. destruct fuel as [|fuel']; [lia|]. cbn [piperead_wait].
  pose proof Hq as [_ (nr & Hrep) _ _]. cbn [q_bytes q_ropen q_wopen] in Hrep. pose proof Hrep as [Hnr Hnw _ Hwo Hfit _].
  apply pwp_bind. eapply pwp_mem_rd; [exact Hnr|]. apply pwp_bind. eapply pwp_mem_rd; [exact Hnw|].
  apply pwp_bind. eapply pwp_mem_rd; [exact Hwo|]. rewrite pipe_empty by lia.
  replace ((Z.of_nat (length q) =? 0) && negb (b2z wo =? 0)) with false
    by (destruct q, wo; try done; by exfalso; apply Hd).
  apply pwp_ret, pwp_bind. rewrite Nat2Z.id. eapply (pwp_piperead_copy addr (Z.of_nat n)); [done|lia|done|done|].
  intros m Hm. rewrite Z.add_0_r in Hm. apply pwp_bind, pwp_wakeup; [set_solver|]. apply pwp_bind, pwp_release; [set_solver|].
  by apply pwp_ret, HQ.
Qed.
Lemma pwp_pipeclose w q ro wo u ms r σ (Q : unit → gset lockid → memst → Prop) :
  q_rep (mbytes ms) (mk_qst q ro wo u) → q_step (Close i w) (mk_qst q ro wo u) = Some (r, σ) →
  (∀ m, q_rep m σ → Q tt ∅ (ms <| mbytes := m |>)) → pwp (pipeclose pi w) ∅ ms Q.
Proof using Hap HA SYok.
  intros Hq Hstep HQ. cbn [q_step] in Hstep. destruct ((ro && w) || (wo && negb w)) eqn:Hopen; [|done]. injection Hstep as <- <-.
  pose proof Hq as [Hram (nr & Hrep) _ _]. cbn [q_bytes q_ropen q_wopen] in Hrep.
  destruct (close_rep pi (ap_pipe Hap) _ _ _ _ _ w Hram Hrep) as (m1 & Hst & Hin & Hrep').
  apply pwp_bind, pwp_acquire; [set_solver|]. apply pwp_bind.
  eapply (pwp_mono _ _ _ _ _ _ _ _ (λ _ H' ms', H' = L ∧ ms' = ms <| mbytes := m1 |>)).
  2: { destruct w; apply pwp_bind; (eapply pwp_mem_op; [exact Hst|]); (apply pwp_wakeup; [set_solver|done]). }
  intros _ H' ms' [-> ->]. pose proof Hrep' as [_ _ Hro Hwo _ _]. apply pwp_bind. eapply pwp_mem_rd; [exact Hro|].
  apply pwp_bind. eapply pwp_mem_rd; [exact Hwo|].
  replace ((b2z (ro && w) =? 0) && (b2z (wo && negb w) =? 0)) with false by (by destruct ro, wo, w).
  apply pwp_release; [set_solver|]. apply HQ. by eapply q_rep_pipe.
Qed.
End op.

(** *** Sequences of operations *)

Definition op_proc (o : pop) : nat := match o with Put i _ _ | Get i _ _ | Close i _ => i end.
Definition do_op (o : pop) : KM Z :=
  match o with
  | Put _ va n => pipewrite fuel pi va (Z.of_nat n)
  | Get _ va n => piperead fuel pi va (Z.of_nat n)
  | Close _ w => pipeclose pi w ;; ret 0
  end.
(** the range of addresses is user memory of the process *)
Definition op_ok (o : pop) : Prop :=
  ∃ A, T !! op_proc o = Some A ∧
    match o with
    | Put _ va n => (n < fuel)%nat ∧ user_range A va (Z.of_nat n) false
    | Get _ va n => (0 < fuel)%nat ∧ user_range A va (Z.of_nat n) true
    | Close _ _ => True
    end.
(** process [i] runs, with its page table, and is not killed *)
Definition running (i : nat) (s : kstate) : Prop := ∃ A, T !! i = Some A ∧ psat i A ∅ (k_mem s) s.
Lemma do_op_spec o σ r σ' s : op_ok o → running (op_proc o) s → q_rep (mbytes (k_mem s)) σ → q_step o σ = Some (r, σ') →
  runs (do_op o s) (λ r' s', r' = r ∧ running (op_proc o) s' ∧ q_rep (mbytes (k_mem s')) σ').
Proof using Hap SYok.
  intros (A & HA & Hok) (A' & HA' & Hs) Hq Hstep. simplify_eq. destruct σ as [q ro wo u]. apply runs_wp.
  eapply wp_mono; [|eapply (λ H : pwp (λ _, False) (λ _, False) (λ _ _, False) (op_proc o) A (do_op o) ∅ (k_mem s)
    (λ r' H' ms', r' = r ∧ H' = ∅ ∧ q_rep (mbytes ms') σ'), H s Hs)].
  - intros r' s' (H' & ms' & Hs' & -> & -> & Hq'). pose proof (ps_mem _ _ _ _ _ Hs') as <-. split_and!; [done| |done]. by exists A.
  - destruct o as [i va n|i va n|i w]; cbn [op_proc do_op] in *.
    + destruct Hok as [Hf Hr]. by eapply pwp_pipewrite.
    + destruct Hok as [Hf Hr]. by eapply pwp_piperead.
    + apply pwp_bind. eapply pwp_pipeclose; [done|done|done|]. intros m Hm. apply pwp_ret. split_and!; [|done|done].
      cbn [q_step] in Hstep. destruct ((ro && w) || (wo && negb w)); by simplify_eq.
Qed.

Fixpoint q_steps (ops : list pop) (σ : qst) : option (list Z * qst) :=
  match ops with
  | [] => Some ([], σ)
  | o :: ops => '(r, σ) ← q_step o σ; '(rs, σ) ← q_steps ops σ; Some (r :: rs, σ)
  end.
(** every run of the operations, each by its process and from a state with the
    memory the one before has left, ends, with results and memory as [Q] says *)
Fixpoint all_runs (ops : list pop) (m : gmap Z Z) (Q : list Z → gmap Z Z → Prop) : Prop :=
  match ops with
  | [] => Q [] m
  | o :: ops => ∀ s, running (op_proc o) s → mbytes (k_mem s) = m →
      runs (do_op o s) (λ r s', running (op_proc o) s' ∧ all_runs ops (mbytes (k_mem s')) (λ rs, Q (r :: rs)))
  end.
Lemma all_runs_queue ops : ∀ σ rs σ' m (Q : list Z → gmap Z Z → Prop), Forall op_ok ops → q_rep m σ → q_steps ops σ = Some (rs, σ') →
  (∀ m', q_rep m' σ' → Q rs m') → all_runs ops m Q.
Proof using Hap SYok.
  induction ops as [|o ops IH]; intros σ rs σ' m Q Hok Hq Hst HQ; cbn [q_steps all_runs] in *.
  { simplify_eq. by apply HQ. }
  apply Forall_cons in Hok as [Ho Hok]. destruct (q_step o σ) as [[r σ1]|] eqn:Hstep; [|done]. cbn [mbind option_bind] in Hst.
  destruct (q_steps ops σ1) as [[rs1 σ2]|] eqn:Hsteps; [|done]. cbn [mbind option_bind] in Hst. simplify_eq.
  intros s Hs <-. destruct (do_op_spec _ _ _ _ _ Ho Hs Hq Hstep) as (r' & s' & Hrun & -> & Hs' & Hq').
  exists r, s'. split_and!; [done|done|]. by eapply IH.
Qed.

(** C29: a pipe is a queue.  Processes write to a pipe, read from it and close
    its ends; as long as no operation has to wait, each ends without a panic,
    with the result the queue gives: a write appends its bytes, or fails if the
    read end is closed; a read takes the first bytes of the queue, as many as it
    asked for if there are so many, and puts them in the memory of the reader;
    at the end of a queue with no writer it returns 0.  The page tables and the
    rest of the memories of the processes are left alone.  The counters of the
    bytes read and written may wrap around. *)
Theorem pipe_refines_queue ops σ rs σ' m : Forall op_ok ops → q_rep m σ → q_steps ops σ = Some (rs, σ') →
  all_runs ops m (λ rs' m', rs' = rs ∧ q_rep m' σ').
Proof using Hap SYok. intros Hok Hq Hst. by eapply all_runs_queue. Qed.
End refines.

(** ** An example *)

Definition example_proc : proc := nth 4%nat (procs (k_pt demo_running)) proc0.
Definition example_pt (ms : memst) (r : Z) : kstate :=
  demo_running <| k_mem := ms |> <| k_pt ::= λ t, t <| procs ::= <[4%nat := example_proc <| p_pagetable := r |>]> |> |>.
Lemma example_pt_kinv ms r : kinv (Some 4%nat) ∅ (example_pt ms r).
Proof.
  destruct demo_running_kinv as [H1 H2 (qs & H3) H4]. split; [done|done|exists qs|].
  - eapply (wfq_upd_same _ _ _ 4%nat example_proc); [exact H3|done|done| |done]. by apply (wfq_proc _ _ _ H3 4%nat example_proc).
  - eapply (saved_ok_upd _ _ _ 4%nat example_proc); [exact H4|done|]. by right.
Qed.
#[local] Existing Instance sixteen_pages.
#[local] Existing Instance sixteen_pages_ok.
Lemma example_pipe : ∃ A pi m, apart pi {[4%nat := A]} ∧ user_range A 4094 4 true ∧
  q_rep pi {[4%nat := A]} m (mk_qst [] true true (λ _ x, umem m A x)).
Proof.
  destruct example_space as (s & A & [|pi l] & Hlk & Hs & _ & Hz & Hlen); [cbn [length] in Hlen; lia|].
  pose proof (space_user_pages _ _ _ Hs) as Hup. pose proof Hs as [[Hp [_ _ Hok Hram] Hd] Hsok _ HU].
  apply Forall_cons in Hok as [Hpi _].
  assert (Hap : apart pi {[4%nat := A]}).
  { split; [done|..].
    - by intros i B [<- <-]%lookup_singleton_Some.
    - intros i B [<- <-]%lookup_singleton_Some Hn. apply (Hd _ Hn). by left.
    - intros i B n e [<- <-]%lookup_singleton_Some He Hu Heq. destruct (Hsok _ _ He (HU _ _ He Hu)) as (_ & _ & Hn). apply Hn. rewrite Heq. by left.
    - intros i j B C n e [<- <-]%lookup_singleton_Some [<- <-]%lookup_singleton_Some He Hu. by eapply up_ok.
    - by intros i j B C n n' e e' [<- <-]%lookup_singleton_Some [<- <-]%lookup_singleton_Some. }
  destruct (mwp_runs ∅ (pipe_init pi) s _ Hlk (pipe_init_rep pi Hpi _ _ _ _ _ (not_elem_of_empty _) Hram))
    as (_ & s' & _ & k & ms & _ & _ & [Hram' Hsame] & _ & Hrep).
  exists A, pi, (mbytes ms). split_and!; [done|by eapply example_range|]. split; [done|by exists 0|..].
  - intros i B [<- <-]%lookup_singleton_Some. eapply ptrep_same; [done| |done]. intros r Hr ->%list_elem_of_singleton.
    by eapply ap_pipe_table; [|apply lookup_singleton_eq|].
  - by intros i B x [<- <-]%lookup_singleton_Some.
Qed.
Lemma user_range_part A va n w va' n' w' : user_range A va n w → va ≤ va' → va' + n' ≤ va + n → (w' = true → w = true) →
  user_range A va' n' w'.
Proof.
  intros (H1 & H2 & H3) Hva Hn Hw. split_and!; [lia|lia|]. intros i Hi. destruct (H3 (va' - va + i)) as (e & He & Hu & Hf); [lia|].
  replace (va + (va' - va + i)) with (va' + i) in He by lia. exists e. auto.
Qed.
Lemma pipe_refines_queue_witness : ∃ pi s s1 s2 s3, pipewrite 10 pi 4094 3 s = Done 3 s1 ∧
  piperead 10 pi 4094 2 s1 = Done 2 s2 ∧ piperead 10 pi 4095 3 s2 = Done 1 s3.
Proof.
  destruct example_pipe as (A & pi & m & Hap & Hr & Hq). set (T := {[4%nat := A]} : gmap nat pt) in *.
  assert (HT : T !! 4%nat = Some A) by apply lookup_singleton_eq.
  assert (∃ s, running T 4 s ∧ mbytes (k_mem s) = m) as (s & Hrun & Hm).
  { exists (example_pt (mk_memst m 0 0) (root A)). split; [|done]. exists A. split; [done|]. split; [apply example_pt_kinv| |done]. by eexists. }
  set (ops := [Put 4 4094 3; Get 4 4094 2; Get 4 4095 3]).
  assert (∃ σ', q_steps ops (mk_qst [] true true (λ _ x, umem m A x)) = Some ([3; 2; 1], σ')) as [σ' Hst] by (eexists; reflexivity).
  assert (Hok : Forall (op_ok 10 T) ops).
  { unfold ops. rewrite !Forall_cons. split_and!; [..|done]; exists A; (split; [done|]); (split; [lia|]); (eapply user_range_part; [exact Hr|lia..|done]). }
  destruct (pipe_refines_queue 10 pi T Hap ops _ _ _ m Hok Hq Hst s Hrun Hm)
    as (r1 & s1 & H1 & Hrun1 & Hall1).
  destruct (Hall1 s1 Hrun1 eq_refl) as (r2 & s2 & H2 & Hrun2 & Hall2).
  destruct (Hall2 s2 Hrun2 eq_refl) as (r3 & s3 & H3 & _ & Hres & _). injection Hres as -> -> ->.
  exists pi, s, s1, s2, s3. split_and!; [exact H1|exact H2|exact H3].
Defined.
