(* ===== verification/File.v ===== *)
(** * Open files, [kernel/file.c], and [pipealloc] of [kernel/pipe.c]

    The device switch [devsw] has one entry that is ever set, the console's;
    [pipealloc] is here because it allocates files. *)

From S2P Require Import Prelude Fsdata Kstate Spinlock Runqueue Sched Bytes Layout Kalloc Vm Printf Proc.
From S2P Require Import Console Sleeplock Bio Log Fs Pipe.
#[local] Open Scope Z_scope.

Definition CONSOLE : Z := 1.
(** [major >= 0 && major < NDEV && devsw[major].read], and the same for
    [write] *)
Definition has_device (major : Z) : KM bool :=
  let* con := rd_dev devsw_console in
  ret (negb ((major <? 0) || (Z.of_nat NDEV <=? major)) && (major =? CONSOLE) && con).

Definition fileinit : KM unit := initlock ftable_lock.

(** the lock is released whether a free entry is found or not *)
Definition filealloc : KM (option nat) :=
  acquire ftable_lock ;;
  let* r := for_find (seq 0 NFILE) (λ f,
    let* ref := rdt files f f_ref in
    if ref =? 0 then
      wrt files f f_ref 1 ;;
      ret (Some f)
    else ret None) in
  release ftable_lock ;;
  ret r.

Definition filedup (f : nat) : KM nat :=
  acquire ftable_lock ;;
  let* ref := rdt files f f_ref in
  if ref <? 1 then panic "filedup" else
  updt files f (λ x, x <| f_ref ::= λ n, s32 (n + 1) |>) ;;
  release ftable_lock ;;
  ret f.

Section code.
Context {SY : Symbols} {DR : DiskRw} (fuel : nat).

Definition fileclose (f : nat) : KM unit :=
  acquire ftable_lock ;;
  let* ref := rdt files f f_ref in
  if ref <? 1 then panic "fileclose" else
  updt files f (λ x, x <| f_ref ::= λ n, s32 (n - 1) |>) ;;
  let* ref := rdt files f f_ref in
  if 0 <? ref then release ftable_lock else
  let* ff := ent files f in
  wrt files f f_ref 0 ;;
  wrt files f f_type FD_NONE ;;
  release ftable_lock ;;
  if decide (f_type ff = FD_PIPE) then
    pipeclose (f_pipe ff) (negb (f_writable ff =? 0))
  else if decide (f_type ff = FD_INODE ∨ f_type ff = FD_DEVICE) then
    begin_op fuel ;;
    let* ip := deref (f_ip ff) in
    iput fuel ip ;;
    end_op fuel
  else ret tt.

Definition filestat (pad : list Z) (f : nat) (addr : Z) : KM Z :=
  let* p := curproc in
  let* x := ent files f in
  if decide (f_type x = FD_INODE ∨ f_type x = FD_DEVICE) then
    ilock fuel (f_ip x) ;;
    let* ip := deref (f_ip x) in
    let* st := stati ip pad in
    iunlock (f_ip x) ;;
    let* pt := rd p p_pagetable in
    let* r := copyout pt addr st in
    if r <? 0 then ret (-1) else ret 0
  else ret (-1).

Definition fileread (f : nat) (addr n : Z) : KM Z :=
  let* x := ent files f in
  if f_readable x =? 0 then ret (-1) else
  match f_type x with
  | FD_PIPE => piperead fuel (f_pipe x) addr n
  | FD_DEVICE =>
      let* ok := has_device (f_major x) in
      if negb ok then ret (-1) else consoleread fuel true addr n
  | FD_INODE =>
      ilock fuel (f_ip x) ;;
      let* ip := deref (f_ip x) in
      let* off := rdt files f f_off in
      let* r := readi fuel ip (DstUser addr) off (u32 n) in
      when (0 <? r.1) (updt files f (λ x, x <| f_off ::= λ o, u32 (o + r.1) |>)) ;;
      iunlock (f_ip x) ;;
      ret r.1
  | FD_NONE => panic "fileread"
  end.

(** the bytes one transaction can write *)
Definition filewrite_max : Z := ((Z.of_nat MAXOPBLOCKS - 1 - 1 - 2) / 2) * BSIZE.
(** the loop of [filewrite] over the parts of the data: the final value of [i] *)
Fixpoint filewrite_loop (turns : nat) (f : nat) (addr i n : Z) : KM Z :=
  match turns with
  | O => stop_with StopFuel
  | S turns =>
      if i <? n then
        let n1 := Z.min (n - i) filewrite_max in
        begin_op fuel ;;
        let* ip := rdt files f f_ip in
        ilock fuel ip ;;
        let* ip := deref ip in
        let* off := rdt files f f_off in
        let* r := writei fuel ip (SrcUser (u64 (addr + i))) off n1 in
        when (0 <? r) (updt files f (λ x, x <| f_off ::= λ o, u32 (o + r) |>)) ;;
        iunlock (Some ip) ;;
        end_op fuel ;;
        if negb (r =? n1) then ret i else filewrite_loop turns f addr (i + r) n
      else ret i
  end.
Definition filewrite (f : nat) (addr n : Z) : KM Z :=
  let* x := ent files f in
  if f_writable x =? 0 then ret (-1) else
  match f_type x with
  | FD_PIPE => pipewrite fuel (f_pipe x) addr n
  | FD_DEVICE =>
      let* ok := has_device (f_major x) in
      if negb ok then ret (-1) else consolewrite fuel true addr n
  | FD_INODE =>
      let* i := filewrite_loop (turns n filewrite_max) f addr 0 n in
      ret (if i =? n then n else -1)
  | FD_NONE => panic "filewrite"
  end.

(** [pipealloc]: the label [bad], and the function *)
Definition pipealloc_bad (f0 f1 : option nat) : KM (option (nat * nat)) :=
  match f0 with Some f => fileclose f | None => ret tt end ;;
  match f1 with Some f => fileclose f | None => ret tt end ;;
  ret None.
Definition pipealloc : KM (option (nat * nat)) :=
  let* f0 := filealloc in
  match f0 with
  | None => pipealloc_bad None None
  | Some f0 =>
      let* f1 := filealloc in
      match f1 with
      | None => pipealloc_bad (Some f0) None
      | Some f1 =>
          let* pi := kalloc in
          if pi =? 0 then pipealloc_bad (Some f0) (Some f1) else
          pipe_init pi ;;
          wrt files f0 f_type FD_PIPE ;;
          wrt files f0 f_readable 1 ;;
          wrt files f0 f_writable 0 ;;
          wrt files f0 f_pipe pi ;;
          wrt files f1 f_type FD_PIPE ;;
          wrt files f1 f_readable 0 ;;
          wrt files f1 f_writable 1 ;;
          wrt files f1 f_pipe pi ;;
          ret (Some (f0, f1))
      end
  end.
End code.
