(* ===== verification/Exec.v ===== *)
(** * Loading programs, [kernel/exec.c]

    [kexec] reads the ELF file into a new page table, puts the arguments on
    the new stack, and only then replaces the process's image.  The argument
    strings are lists of bytes without their NUL. *)

From stdpp Require Import list_numbers.
From S2P Require Import Prelude Fsdata Kstate Spinlock Runqueue Sched Bytes Layout Kalloc Vm Printf Proc.
From S2P Require Import Sleeplock Bio Log Fs.
#[local] Open Scope Z_scope.

Definition MAXARG : nat := 32.
Definition USERSTACK : Z := 1.
Definition ELF_MAGIC : Z := 0x464C457F.
Definition ELF_PROG_LOAD : Z := 1.
Definition elfhdr_size : Z := 64.
Definition proghdr_size : Z := 56.

(** map ELF permissions to page permissions *)
Definition flags2perm (flags : Z) : Z :=
  let perm := if negb (Z.land flags 1 =? 0) then PTE_X else 0 in
  if negb (Z.land flags 2 =? 0) then Z.lor perm PTE_W else perm.

(** the fields of [struct elfhdr] and [struct proghdr] that are used *)
Record elfhdr := mk_elfhdr { elf_magic : Z; elf_entry : Z; elf_phoff : Z; elf_phnum : Z }.
Definition parse_elfhdr (d : list Z) : option elfhdr :=
  match load_le 4 d 0, load_le 8 d 24, load_le 8 d 32, load_le 2 d 56 with
  | Some m, Some e, Some o, Some n => Some (mk_elfhdr m e o n)
  | _, _, _, _ => None
  end.
Record proghdr := mk_proghdr {
  ph_type : Z; ph_flags : Z; ph_off : Z; ph_vaddr : Z; ph_filesz : Z; ph_memsz : Z
}.
Definition parse_proghdr (d : list Z) : option proghdr :=
  match load_le 4 d 0, load_le 4 d 4, load_le 8 d 8, load_le 8 d 16, load_le 8 d 32, load_le 8 d 40 with
  | Some t, Some f, Some o, Some v, Some fs, Some ms => Some (mk_proghdr t f o v fs ms)
  | _, _, _, _, _, _ => None
  end.
(** the checks [kexec] makes on a segment *)
Definition ph_bad (ph : proghdr) : bool :=
  (ph_memsz ph <? ph_filesz ph) || (u64 (ph_vaddr ph + ph_memsz ph) <? ph_vaddr ph) ||
  negb (ph_vaddr ph mod PGSIZE =? 0).

(** the part of a path after its last slash *)
Fixpoint last_elem (path last : list Z) : list Z :=
  match path with
  | [] => last
  | c :: path =>
      if c =? 0 then last
      else if c =? chr "/" then last_elem path path else last_elem path last
  end.

Section code.
Context {SY : Symbols} {DR : DiskRw} (fuel : nat) (junk : list Z).

Fixpoint loadseg_loop (turns : nat) (pagetable va : Z) (ip : nat) (offset i sz : Z) : KM Z :=
  match turns with
  | O => stop_with StopFuel
  | S turns =>
      if i <? sz then
        let* pa := walkaddr pagetable (u64 (va + i)) in
        if pa =? 0 then panic "loadseg: address should exist" else
        let n := if sz - i <? PGSIZE then sz - i else PGSIZE in
        let* r := readi fuel ip (DstKernel pa) (u32 (offset + i)) n in
        if negb (r.1 =? n) then ret (-1) else
        loadseg_loop turns pagetable va ip offset (i + PGSIZE) sz
      else ret 0
  end.
Definition loadseg (pagetable va : Z) (ip : nat) (offset sz : Z) : KM Z :=
  loadseg_loop (turns sz PGSIZE) pagetable va ip offset 0 sz.

(** the loop of [kexec] over the [i]th and later program headers; [inl sz]
    goes to the label [bad] with that value of [sz], [inr sz] is the end of
    the loop *)
Fixpoint exec_segments (n : nat) (pagetable : Z) (ip : nat) (off sz : Z) : KM (Z + Z) :=
  match n with
  | O => ret (inr sz)
  | S n =>
      let* r := readi fuel ip DstLocal (u32 off) proghdr_size in
      if negb (r.1 =? proghdr_size) then ret (inl sz) else
      let* ph := deref (parse_proghdr r.2) in
      let off' := s32 (off + proghdr_size) in
      if negb (ph_type ph =? ELF_PROG_LOAD) then exec_segments n pagetable ip off' sz else
      if ph_bad ph then ret (inl sz) else
      let* sz1 := uvmalloc pagetable sz (u64 (ph_vaddr ph + ph_memsz ph)) (flags2perm (s32 (ph_flags ph))) in
      if sz1 =? 0 then ret (inl sz) else
      let* r := loadseg pagetable (ph_vaddr ph) ip (u32 (ph_off ph)) (u32 (ph_filesz ph)) in
      if r <? 0 then ret (inl sz1) else
      exec_segments n pagetable ip off' sz1
  end.

(** the loop of [kexec] over the arguments: the stack pointer and the
    addresses of the strings, or [None] for [bad] *)
Fixpoint exec_args (argv : list (list Z)) (argc : nat) (pagetable sp stackbase : Z) (ustack : list Z)
    : KM (option (Z * list Z)) :=
  match argv with
  | [] => ret (Some (sp, ustack))
  | a :: argv =>
      if (MAXARG <=? argc)%nat then ret None else
      let a := c_string a in
      let sp := u64 (sp - (Z.of_nat (length a) + 1)) in
      let sp := sp - sp mod 16 in
      if sp <? stackbase then ret None else
      let* r := copyout pagetable sp (a ++ [0]) in
      if r <? 0 then ret None else
      exec_args argv (S argc) pagetable sp stackbase (ustack ++ [sp])
  end.

(** the label [bad], with the values of [pagetable], [sz] and [ip] *)
Definition exec_bad (pagetable sz : Z) (ip : option nat) : KM Z :=
  when (negb (pagetable =? 0)) (proc_freepagetable pagetable sz) ;;
  match ip with
  | Some ip => iunlockput fuel ip ;; end_op fuel
  | None => ret tt
  end ;;
  ret (-1).

(** the end of [kexec]: the new image becomes the process's *)
Definition exec_commit (p : nat) (path : list Z) (pagetable sz sp entry oldsz : Z) (argc : nat) : KM Z :=
  wr_tf p tf_a1 sp ;;
  let* name := rd p p_name in
  let* name := deref (safestrcpy name 0 (c_string (last_elem path path) ++ [0]) 0 16) in
  wr p p_name name ;;
  let* oldpagetable := rd p p_pagetable in
  wr p p_pagetable pagetable ;;
  wr p p_sz sz ;;
  wr_tf p tf_epc entry ;;
  wr_tf p tf_sp sp ;;
  proc_freepagetable oldpagetable oldsz ;;
  ret (Z.of_nat argc).

(** [kexec] from the allocation of the user stack on *)
Definition exec_stack (path : list Z) (argv : list (list Z)) (pagetable sz entry : Z) : KM Z :=
  let* p := curproc in
  let* oldsz := rd p p_sz in
  let sz := PGROUNDUP sz in
  let* sz1 := uvmalloc pagetable sz (u64 (sz + (USERSTACK + 1) * PGSIZE)) PTE_W in
  if sz1 =? 0 then exec_bad pagetable sz None else
  let sz := sz1 in
  uvmclear pagetable (u64 (sz - (USERSTACK + 1) * PGSIZE)) ;;
  let sp := sz in
  let stackbase := u64 (sp - USERSTACK * PGSIZE) in
  let* r := exec_args argv 0 pagetable sp stackbase [] in
  match r with
  | None => exec_bad pagetable sz None
  | Some (sp, ustack) =>
      let argc := length ustack in
      if (MAXARG <=? argc)%nat then fault else
      let ustack := ustack ++ [0] in
      let sp := u64 (sp - (Z.of_nat argc + 1) * 8) in
      let sp := sp - sp mod 16 in
      if sp <? stackbase then exec_bad pagetable sz None else
      let* r := copyout pagetable sp (ustack ≫= Z_to_little_endian 8 8) in
      if r <? 0 then exec_bad pagetable sz None else
      exec_commit p path pagetable sz sp entry oldsz argc
  end.

Definition kexec (path : list Z) (argv : list (list Z)) : KM Z :=
  let* p := curproc in
  begin_op fuel ;;
  let* ip := namei fuel junk path in
  match ip with
  | None => end_op fuel ;; ret (-1)
  | Some ip =>
      ilock fuel (Some ip) ;;
      let* r := readi fuel ip DstLocal 0 elfhdr_size in
      if negb (r.1 =? elfhdr_size) then exec_bad 0 0 (Some ip) else
      let* elf := deref (parse_elfhdr r.2) in
      if negb (elf_magic elf =? ELF_MAGIC) then exec_bad 0 0 (Some ip) else
      let* pagetable := proc_pagetable p in
      if pagetable =? 0 then exec_bad 0 0 (Some ip) else
      let* r := exec_segments (Z.to_nat (elf_phnum elf)) pagetable ip (s32 (elf_phoff elf)) 0 in
      match r with
      | inl sz => exec_bad pagetable sz (Some ip)
      | inr sz =>
          iunlockput fuel ip ;;
          end_op fuel ;;
          exec_stack path argv pagetable sz (elf_entry elf)
      end
  end.
End code.
