(* ===== verification/Sysfile.v ===== *)
(** * System calls on files, [kernel/sysfile.c]

    A path is the string [argstr] fetches.  A [None] of [argfd] or [create]
    is the failure of the C function. *)

From stdpp Require Import list_numbers.
From S2P Require Import Prelude Fsdata Kstate Spinlock Runqueue Sched Bytes Layout Kalloc Vm Printf Proc.
From S2P Require Import Console Sleeplock Bio Log Fs Pipe File Exec Syscall.
#[local] Open Scope Z_scope.

Definition MAXPATH : Z := 128.

(** the names of the entries every directory has *)
Definition dot : list Z := str "." ++ [0].
Definition dotdot : list Z := str ".." ++ [0].

Definition set_ofile (p fd : nat) (f : option nat) : KM unit :=
  upd_proc p (λ r, r <| p_ofile ::= <[fd := f]> |>).

Section code.
Context {SY : Symbols} {DR : DiskRw} (fuel : nat) (junk : list Z).

(** the descriptor and the file *)
Definition argfd (n : Z) : KM (option (nat * nat)) :=
  let* fd := argint n in
  if (fd <? 0) || (Z.of_nat NOFILE <=? fd) then ret None else
  let* p := curproc in
  let* fs := rd p p_ofile in
  let* f := deref (fs !! Z.to_nat fd) in
  match f with
  | None => ret None
  | Some f => ret (Some (Z.to_nat fd, f))
  end.

Definition fdalloc (f : nat) : KM (option nat) :=
  let* p := curproc in
  for_find (seq 0 NOFILE) (λ fd,
    let* fs := rd p p_ofile in
    let* x := deref (fs !! fd) in
    match x with
    | None => set_ofile p fd (Some f) ;; ret (Some fd)
    | Some _ => ret None
    end).

Definition sys_dup : KM Z :=
  let* r := argfd 0 in
  match r with
  | None => ret (-1)
  | Some (_, f) =>
      let* fd := fdalloc f in
      match fd with
      | None => ret (-1)
      | Some fd =>
          let* _ := filedup f in
          ret (Z.of_nat fd)
      end
  end.

Definition sys_read : KM Z :=
  let* p := argaddr 1 in
  let* n := argint 2 in
  let* r := argfd 0 in
  match r with
  | None => ret (-1)
  | Some (_, f) => fileread fuel f p n
  end.

Definition sys_write : KM Z :=
  let* p := argaddr 1 in
  let* n := argint 2 in
  let* r := argfd 0 in
  match r with
  | None => ret (-1)
  | Some (_, f) => filewrite fuel f p n
  end.

Definition sys_close : KM Z :=
  let* r := argfd 0 in
  match r with
  | None => ret (-1)
  | Some (fd, f) =>
      let* p := curproc in
      set_ofile p fd None ;;
      fileclose fuel f ;;
      ret 0
  end.

Definition sys_fstat : KM Z :=
  let* st := argaddr 1 in
  let* r := argfd 0 in
  match r with
  | None => ret (-1)
  | Some (_, f) => filestat fuel (take 4 junk) f st
  end.

(** the label [bad] of [sys_link] *)
Definition sys_link_bad (ip : nat) : KM Z :=
  ilock fuel (Some ip) ;;
  updt inodes ip (λ i, i <| i_nlink ::= λ n, s16 (n - 1) |>) ;;
  iupdate fuel ip ;;
  iunlockput fuel ip ;;
  end_op fuel ;;
  ret (-1).
Definition sys_link : KM Z :=
  let* old := argstr 0 MAXPATH in
  if old.1 <? 0 then ret (-1) else
  let* new := argstr 1 MAXPATH in
  if new.1 <? 0 then ret (-1) else
  begin_op fuel ;;
  let* ip := namei fuel junk old.2 in
  match ip with
  | None => end_op fuel ;; ret (-1)
  | Some ip =>
      ilock fuel (Some ip) ;;
      let* type := rdt inodes ip i_type in
      if type =? T_DIR then iunlockput fuel ip ;; end_op fuel ;; ret (-1) else
      updt inodes ip (λ i, i <| i_nlink ::= λ n, s16 (n + 1) |>) ;;
      iupdate fuel ip ;;
      iunlock (Some ip) ;;
      let* r := nameiparent fuel new.2 junk in
      match r with
      | (None, _) => sys_link_bad ip
      | (Some dp, name) =>
          ilock fuel (Some dp) ;;
          let* ddev := rdt inodes dp i_dev in
          let* idev := rdt inodes ip i_dev in
          let* x := if negb (ddev =? idev) then ret (-1)
                    else let* inum := rdt inodes ip i_inum in dirlink fuel dp name inum in
          if x <? 0 then iunlockput fuel dp ;; sys_link_bad ip else
          iunlockput fuel dp ;;
          iput fuel ip ;;
          end_op fuel ;;
          ret 0
      end
  end.

Definition isdirempty (dp : nat) : KM bool :=
  let* size := rdt inodes dp i_size in
  let* r := for_below (turns size dirent_size) (rdt inodes dp i_size) (2 * dirent_size) dirent_size (λ off,
    let* de := read_dirent fuel "isdirempty: readi" dp off in
    let* inum := deref (de_inum de) in
    if negb (inum =? 0) then ret (Some tt) else ret None) in
  ret (match r with Some _ => false | None => true end).

(** [sys_unlink] from the check of the entry's inode on *)
Definition unlink_entry (dp ip : nat) (off : Z) : KM Z :=
  ilock fuel (Some ip) ;;
  let* nlink := rdt inodes ip i_nlink in
  if nlink <? 1 then panic "unlink: nlink < 1" else
  let* type := rdt inodes ip i_type in
  let* empty := if type =? T_DIR then isdirempty ip else ret true in
  if negb empty then
    iunlockput fuel ip ;;
    iunlockput fuel dp ;;
    end_op fuel ;;
    ret (-1)
  else
  let* r := writei fuel dp (SrcLocal (replicate (Z.to_nat dirent_size) 0)) off dirent_size in
  if negb (r =? dirent_size) then panic "unlink: writei" else
  let* type := rdt inodes ip i_type in
  when (type =? T_DIR) (
    updt inodes dp (λ i, i <| i_nlink ::= λ n, s16 (n - 1) |>) ;;
    iupdate fuel dp) ;;
  iunlockput fuel dp ;;
  updt inodes ip (λ i, i <| i_nlink ::= λ n, s16 (n - 1) |>) ;;
  iupdate fuel ip ;;
  iunlockput fuel ip ;;
  end_op fuel ;;
  ret 0.
Definition sys_unlink : KM Z :=
  let* path := argstr 0 MAXPATH in
  if path.1 <? 0 then ret (-1) else
  begin_op fuel ;;
  let* r := nameiparent fuel path.2 junk in
  match r with
  | (None, _) => end_op fuel ;; ret (-1)
  | (Some dp, name) =>
      ilock fuel (Some dp) ;;
      let bad := iunlockput fuel dp ;; end_op fuel ;; ret (-1) in
      let* c1 := deref (namecmp name dot) in
      if c1 =? 0 then bad else
      let* c2 := deref (namecmp name dotdot) in
      if c2 =? 0 then bad else
      let* r := dirlookup fuel dp name in
      match r with
      | None => bad
      | Some (ip, off) => unlink_entry dp ip off
      end
  end.

(** [create] once the new inode is allocated, and its label [fail] *)
Definition create_fail (dp ip : nat) : KM (option nat) :=
  wrt inodes ip i_nlink 0 ;;
  iupdate fuel ip ;;
  iunlockput fuel ip ;;
  iunlockput fuel dp ;;
  ret None.
Definition create_new (dp ip : nat) (name : list Z) (type major minor : Z) : KM (option nat) :=
  ilock fuel (Some ip) ;;
  wrt inodes ip i_major major ;;
  wrt inodes ip i_minor minor ;;
  wrt inodes ip i_nlink 1 ;;
  iupdate fuel ip ;;
  let* inum := rdt inodes ip i_inum in
  let* r1 := if type =? T_DIR then dirlink fuel ip dot inum else ret 0 in
  if r1 <? 0 then create_fail dp ip else
  let* r2 := if type =? T_DIR then let* dinum := rdt inodes dp i_inum in dirlink fuel ip dotdot dinum
             else ret 0 in
  if r2 <? 0 then create_fail dp ip else
  let* inum := rdt inodes ip i_inum in
  let* r3 := dirlink fuel dp name inum in
  if r3 <? 0 then create_fail dp ip else
  when (type =? T_DIR) (
    updt inodes dp (λ i, i <| i_nlink ::= λ n, s16 (n + 1) |>) ;;
    iupdate fuel dp) ;;
  iunlockput fuel dp ;;
  ret (Some ip).
(** the inode is returned locked *)
Definition create (path : list Z) (type major minor : Z) : KM (option nat) :=
  let* r := nameiparent fuel path junk in
  match r with
  | (None, _) => ret None
  | (Some dp, name) =>
      ilock fuel (Some dp) ;;
      let* r := dirlookup fuel dp name in
      match r with
      | Some (ip, _) =>
          iunlockput fuel dp ;;
          ilock fuel (Some ip) ;;
          let* t := rdt inodes ip i_type in
          if (type =? T_FILE) && ((t =? T_FILE) || (t =? T_DEVICE)) then ret (Some ip) else
          iunlockput fuel ip ;;
          ret None
      | None =>
          let* dev := rdt inodes dp i_dev in
          let* ip := ialloc fuel dev type in
          match ip with
          | None => iunlockput fuel dp ;; ret None
          | Some ip => create_new dp ip name type major minor
          end
      end
  end.

(** [sys_open] once it has a locked inode: the file and its descriptor *)
Definition open_inode (ip : nat) (omode : Z) : KM Z :=
  let bad := iunlockput fuel ip ;; end_op fuel ;; ret (-1) in
  let* i := ent inodes ip in
  if (i_type i =? T_DEVICE) && ((i_major i <? 0) || (Z.of_nat NDEV <=? i_major i)) then bad else
  let* f := filealloc in
  match f with
  | None => bad
  | Some f =>
      let* fd := fdalloc f in
      match fd with
      | None => fileclose fuel f ;; bad
      | Some fd =>
          let* i := ent inodes ip in
          (if i_type i =? T_DEVICE then
             wrt files f f_type FD_DEVICE ;;
             wrt files f f_major (i_major i)
           else
             wrt files f f_type FD_INODE ;;
             wrt files f f_off 0) ;;
          wrt files f f_ip (Some ip) ;;
          wrt files f f_readable (if Z.land omode O_WRONLY =? 0 then 1 else 0) ;;
          wrt files f f_writable (if negb (Z.land omode O_WRONLY =? 0) || negb (Z.land omode O_RDWR =? 0)
                                  then 1 else 0) ;;
          when (negb (Z.land omode O_TRUNC =? 0) && (i_type i =? T_FILE)) (itrunc fuel ip) ;;
          iunlock (Some ip) ;;
          end_op fuel ;;
          ret (Z.of_nat fd)
      end
  end.
Definition sys_open : KM Z :=
  let* omode := argint 1 in
  let* path := argstr 0 MAXPATH in
  if path.1 <? 0 then ret (-1) else
  begin_op fuel ;;
  if negb (Z.land omode O_CREATE =? 0) then
    let* ip := create path.2 T_FILE 0 0 in
    match ip with
    | None => end_op fuel ;; ret (-1)
    | Some ip => open_inode ip omode
    end
  else
    let* ip := namei fuel junk path.2 in
    match ip with
    | None => end_op fuel ;; ret (-1)
    | Some ip =>
        ilock fuel (Some ip) ;;
        let* type := rdt inodes ip i_type in
        if (type =? T_DIR) && negb (omode =? O_RDONLY) then
          iunlockput fuel ip ;; end_op fuel ;; ret (-1)
        else open_inode ip omode
    end.

Definition sys_mkdir : KM Z :=
  begin_op fuel ;;
  let* path := argstr 0 MAXPATH in
  let* ip := if path.1 <? 0 then ret None else create path.2 T_DIR 0 0 in
  match ip with
  | None => end_op fuel ;; ret (-1)
  | Some ip => iunlockput fuel ip ;; end_op fuel ;; ret 0
  end.

Definition sys_mknod : KM Z :=
  begin_op fuel ;;
  let* major := argint 1 in
  let* minor := argint 2 in
  let* path := argstr 0 MAXPATH in
  let* ip := if path.1 <? 0 then ret None else create path.2 T_DEVICE (s16 major) (s16 minor) in
  match ip with
  | None => end_op fuel ;; ret (-1)
  | Some ip => iunlockput fuel ip ;; end_op fuel ;; ret 0
  end.

Definition sys_chdir : KM Z :=
  let* p := curproc in
  begin_op fuel ;;
  let* path := argstr 0 MAXPATH in
  let* ip := if path.1 <? 0 then ret None else namei fuel junk path.2 in
  match ip with
  | None => end_op fuel ;; ret (-1)
  | Some ip =>
      ilock fuel (Some ip) ;;
      let* type := rdt inodes ip i_type in
      if negb (type =? T_DIR) then iunlockput fuel ip ;; end_op fuel ;; ret (-1) else
      iunlock (Some ip) ;;
      let* cwd := rd p p_cwd in
      let* cwd := deref cwd in
      iput fuel cwd ;;
      end_op fuel ;;
      wr p p_cwd (Some ip) ;;
      ret 0
  end.

(** the loop of [sys_exec] over the user's [argv] from index [i] on: the
    pages allocated and the strings in them; [None] for the strings goes to
    the label [bad] *)
Fixpoint exec_fetch (n : nat) (uargv i : Z) (pages : list Z) (strs : list (list Z))
    : KM (list Z * option (list (list Z))) :=
  match n with
  | O => ret (pages, None)
  | S n =>
      let* r := fetchaddr (u64 (uargv + 8 * i)) in
      if r.1 <? 0 then ret (pages, None) else
      if r.2 =? 0 then ret (pages, Some strs) else
      let* page := kalloc in
      if page =? 0 then ret (pages, None) else
      let* x := fetchstr r.2 PGSIZE in
      mem_op (λ m, store_bytes m page x.2) ;;
      if x.1 <? 0 then ret (pages ++ [page], None) else
      exec_fetch n uargv (i + 1) (pages ++ [page]) (strs ++ [x.2])
  end.
Definition sys_exec : KM Z :=
  let* uargv := argaddr 1 in
  let* path := argstr 0 MAXPATH in
  if path.1 <? 0 then ret (-1) else
  let* r := exec_fetch MAXARG uargv 0 [] [] in
  match r with
  | (pages, None) => for_each pages kfree ;; ret (-1)
  | (pages, Some argv) =>
      let* v := kexec fuel junk path.2 argv in
      for_each pages kfree ;;
      ret v
  end.

Definition sys_pipe : KM Z :=
  let* p := curproc in
  let* fdarray := argaddr 0 in
  let* r := pipealloc fuel in
  match r with
  | None => ret (-1)
  | Some (rf, wf) =>
      let* fd0 := fdalloc rf in
      match fd0 with
      | None => fileclose fuel rf ;; fileclose fuel wf ;; ret (-1)
      | Some fd0 =>
          let* fd1 := fdalloc wf in
          match fd1 with
          | None => set_ofile p fd0 None ;; fileclose fuel rf ;; fileclose fuel wf ;; ret (-1)
          | Some fd1 =>
              let* pt := rd p p_pagetable in
              let* x := copyout pt fdarray (int_bytes (Z.of_nat fd0)) in
              let* y := if x <? 0 then ret (-1) else copyout pt (u64 (fdarray + 4)) (int_bytes (Z.of_nat fd1)) in
              if y <? 0 then
                set_ofile p fd0 None ;;
                set_ofile p fd1 None ;;
                fileclose fuel rf ;;
                fileclose fuel wf ;;
                ret (-1)
              else ret 0
          end
      end
  end.
End code.
