(* ===== verification/Virtio.v ===== *)
(** * The disk driver, [kernel/virtio_disk.c]

    The descriptor table and the two rings are in three pages of memory that
    driver and device share.  What the device's registers read as is
    [vio_regs]; writes to registers are recorded in [mmio].  The device
    itself acts between the steps of the driver: it is not part of the code.

    [fuel] bounds the number of times a request goes back to sleep. *)

From S2P Require Import Prelude Fsdata Kstate Spinlock Runqueue Sched Bytes Layout Kalloc Vm Printf.
From S2P Require Import Sleeplock Bio.
#[local] Open Scope Z_scope.

(** ** Registers, [kernel/virtio.h] *)

Definition VIRTIO_MMIO_MAGIC_VALUE : Z := 0x000.
Definition VIRTIO_MMIO_VERSION : Z := 0x004.
Definition VIRTIO_MMIO_DEVICE_ID : Z := 0x008.
Definition VIRTIO_MMIO_VENDOR_ID : Z := 0x00c.
Definition VIRTIO_MMIO_DEVICE_FEATURES : Z := 0x010.
Definition VIRTIO_MMIO_DRIVER_FEATURES : Z := 0x020.
Definition VIRTIO_MMIO_QUEUE_SEL : Z := 0x030.
Definition VIRTIO_MMIO_QUEUE_NUM_MAX : Z := 0x034.
Definition VIRTIO_MMIO_QUEUE_NUM : Z := 0x038.
Definition VIRTIO_MMIO_QUEUE_READY : Z := 0x044.
Definition VIRTIO_MMIO_QUEUE_NOTIFY : Z := 0x050.
Definition VIRTIO_MMIO_INTERRUPT_STATUS : Z := 0x060.
Definition VIRTIO_MMIO_INTERRUPT_ACK : Z := 0x064.
Definition VIRTIO_MMIO_STATUS : Z := 0x070.
Definition VIRTIO_MMIO_QUEUE_DESC_LOW : Z := 0x080.
Definition VIRTIO_MMIO_QUEUE_DESC_HIGH : Z := 0x084.
Definition VIRTIO_MMIO_DRIVER_DESC_LOW : Z := 0x090.
Definition VIRTIO_MMIO_DRIVER_DESC_HIGH : Z := 0x094.
Definition VIRTIO_MMIO_DEVICE_DESC_LOW : Z := 0x0a0.
Definition VIRTIO_MMIO_DEVICE_DESC_HIGH : Z := 0x0a4.

Definition VIRTIO_CONFIG_S_ACKNOWLEDGE : Z := 1.
Definition VIRTIO_CONFIG_S_DRIVER : Z := 2.
Definition VIRTIO_CONFIG_S_DRIVER_OK : Z := 4.
Definition VIRTIO_CONFIG_S_FEATURES_OK : Z := 8.

(** VIRTIO_BLK_F_RO, _SCSI, _CONFIG_WCE, _MQ, VIRTIO_F_ANY_LAYOUT,
    VIRTIO_RING_F_EVENT_IDX, _INDIRECT_DESC: the features the driver refuses *)
Definition refused_features : list Z := [5; 7; 11; 12; 27; 29; 28].

Definition VRING_DESC_F_NEXT : Z := 1.
Definition VRING_DESC_F_WRITE : Z := 2.
Definition VIRTIO_BLK_T_IN : Z := 0.
Definition VIRTIO_BLK_T_OUT : Z := 1.

(** reading and writing the register [R(r)] *)
Definition vio_read (r : Z) : KM Z := let* m := rd_dev vio_regs in ret (default 0 (m !! r)).
Definition vio_write (r v : Z) : KM unit := mmio_write (VIRTIO0 + r) (u32 v).

(** ** The queue *)

Definition rd_vd {T} (f : vdisk → T) : KM T := rd_fs (λ x, f (vd x)).
Definition upd_vd (g : vdisk → vdisk) : KM unit := modify (λ s, s <| k_fs ::= λ x, x <| vd ::= g |> |>).

Definition ld_n (n : nat) (a : Z) : KM Z := mem_rd (λ m, load_le n m a).
Definition st_n (n : nat) (a v : Z) : KM unit := mem_op (λ m, store_le n m a v).
(** the address of [disk.desc[i]], and the offsets of its fields *)
Definition desc_at (i : nat) : KM Z := let* d := rd_vd vd_desc in ret (d + 16 * Z.of_nat i).
Definition d_addr : Z := 0.
Definition d_len : Z := 8.
Definition d_flags : Z := 12.
Definition d_next : Z := 14.
Definition set_desc (i : nat) (addr len flags nxt : Z) : KM unit :=
  let* d := desc_at i in
  st_n 8 (d + d_addr) addr ;;
  st_n 4 (d + d_len) len ;;
  st_n 2 (d + d_flags) flags ;;
  st_n 2 (d + d_next) nxt.
(** [disk.avail->idx], [disk.avail->ring[k]]; [disk.used->idx],
    [disk.used->ring[k].id] *)
Definition avail_idx : KM Z := let* a := rd_vd vd_avail in ret (a + 2).
Definition avail_ring (k : Z) : KM Z := let* a := rd_vd vd_avail in ret (a + 4 + 2 * k).
Definition used_idx_addr : KM Z := let* a := rd_vd vd_used in ret (a + 2).
Definition used_ring (k : Z) : KM Z := let* a := rd_vd vd_used in ret (a + 4 + 8 * k).

(** the addresses of [disk.ops[i]], [bcache.buf[b].data] and
    [disk.info[i].status] *)
Class DiskSymbols := { sym_op : nat → Z; sym_data : nat → Z; sym_status : nat → Z }.

Section init.
Context {SY : Symbols}.

(** the negotiation at the start of [virtio_disk_init]: the device status *)
Definition virtio_negotiate : KM Z :=
  let status := 0 in
  vio_write VIRTIO_MMIO_STATUS status ;;
  let status := Z.lor status VIRTIO_CONFIG_S_ACKNOWLEDGE in
  vio_write VIRTIO_MMIO_STATUS status ;;
  let status := Z.lor status VIRTIO_CONFIG_S_DRIVER in
  vio_write VIRTIO_MMIO_STATUS status ;;
  let* features := vio_read VIRTIO_MMIO_DEVICE_FEATURES in
  let features := foldl (λ f k, Z.land f (Z.lnot (Z.shiftl 1 k))) features refused_features in
  vio_write VIRTIO_MMIO_DRIVER_FEATURES features ;;
  let status := Z.lor status VIRTIO_CONFIG_S_FEATURES_OK in
  vio_write VIRTIO_MMIO_STATUS status ;;
  let* status := vio_read VIRTIO_MMIO_STATUS in
  if Z.land status VIRTIO_CONFIG_S_FEATURES_OK =? 0 then panic "virtio disk FEATURES_OK unset" else
  ret status.
(** the set-up of queue 0 *)
Definition virtio_queue_init : KM unit :=
  vio_write VIRTIO_MMIO_QUEUE_SEL 0 ;;
  let* ready := vio_read VIRTIO_MMIO_QUEUE_READY in
  if negb (ready =? 0) then panic "virtio disk should not be ready" else
  let* max := vio_read VIRTIO_MMIO_QUEUE_NUM_MAX in
  if max =? 0 then panic "virtio disk has no queue 0" else
  if max <? Z.of_nat NUM then panic "virtio disk max queue too short" else
  let* desc := kalloc in
  upd_vd (λ d, d <| vd_desc := desc |>) ;;
  let* avail := kalloc in
  upd_vd (λ d, d <| vd_avail := avail |>) ;;
  let* used := kalloc in
  upd_vd (λ d, d <| vd_used := used |>) ;;
  if (desc =? 0) || (avail =? 0) || (used =? 0) then panic "virtio disk kalloc" else
  kmemset desc 0 PGSIZE ;;
  kmemset avail 0 PGSIZE ;;
  kmemset used 0 PGSIZE ;;
  vio_write VIRTIO_MMIO_QUEUE_NUM (Z.of_nat NUM) ;;
  vio_write VIRTIO_MMIO_QUEUE_DESC_LOW desc ;;
  vio_write VIRTIO_MMIO_QUEUE_DESC_HIGH (Z.shiftr desc 32) ;;
  vio_write VIRTIO_MMIO_DRIVER_DESC_LOW avail ;;
  vio_write VIRTIO_MMIO_DRIVER_DESC_HIGH (Z.shiftr avail 32) ;;
  vio_write VIRTIO_MMIO_DEVICE_DESC_LOW used ;;
  vio_write VIRTIO_MMIO_DEVICE_DESC_HIGH (Z.shiftr used 32) ;;
  vio_write VIRTIO_MMIO_QUEUE_READY 1.

Definition virtio_disk_init : KM unit :=
  initlock vdisk_lock ;;
  let* magic := vio_read VIRTIO_MMIO_MAGIC_VALUE in
  let* version := vio_read VIRTIO_MMIO_VERSION in
  let* device := vio_read VIRTIO_MMIO_DEVICE_ID in
  let* vendor := vio_read VIRTIO_MMIO_VENDOR_ID in
  if negb (magic =? 0x74726976) || negb (version =? 2) || negb (device =? 2) || negb (vendor =? 0x554d4551)
  then panic "could not find virtio disk" else
  let* status := virtio_negotiate in
  virtio_queue_init ;;
  for_each (seq 0 NUM) (λ i, upd_vd (λ d, d <| vd_free ::= <[i := 1]> |>)) ;;
  vio_write VIRTIO_MMIO_STATUS (Z.lor status VIRTIO_CONFIG_S_DRIVER_OK).
End init.

(** ** Descriptors *)

Definition alloc_desc : KM (option nat) :=
  for_find (seq 0 NUM) (λ i,
    let* fr := rd_vd vd_free in
    let* x := deref (fr !! i) in
    if negb (x =? 0) then
      upd_vd (λ d, d <| vd_free ::= <[i := 0]> |>) ;;
      ret (Some i)
    else ret None).

Definition free_desc (i : nat) : KM unit :=
  if (NUM <=? i)%nat then panic "free_desc 1" else
  let* fr := rd_vd vd_free in
  let* x := deref (fr !! i) in
  if negb (x =? 0) then panic "free_desc 2" else
  set_desc i 0 0 0 0 ;;
  upd_vd (λ d, d <| vd_free ::= <[i := 1]> |>) ;;
  wakeup (Some ch_free).

(** a chain has at most [NUM] descriptors: a longer one meets a free one *)
Fixpoint free_chain_loop (turns : nat) (i : nat) : KM unit :=
  match turns with
  | O => stop_with StopFuel
  | S turns =>
      let* d := desc_at i in
      let* flag := ld_n 2 (d + d_flags) in
      let* nxt := ld_n 2 (d + d_next) in
      free_desc i ;;
      if negb (Z.land flag VRING_DESC_F_NEXT =? 0) then free_chain_loop turns (Z.to_nat nxt) else ret tt
  end.
Definition free_chain (i : nat) : KM unit := free_chain_loop (S NUM) i.

(** [alloc3_desc]: [n] descriptors are left to allocate, [idx] is what it
    has; [None] for -1 *)
Fixpoint alloc_descs (n : nat) (idx : list nat) : KM (option (list nat)) :=
  match n with
  | O => ret (Some idx)
  | S n =>
      let* r := alloc_desc in
      match r with
      | Some i => alloc_descs n (idx ++ [i])
      | None => for_each idx free_desc ;; ret None
      end
  end.
Definition alloc3_desc : KM (option (list nat)) := alloc_descs 3 [].

(** ** Requests *)

Section rw.
Context {DS : DiskSymbols} (fuel : nat).

(** the three descriptors of a request, and its entry in the ring *)
Definition virtio_submit (b : nat) (write : bool) (sector : Z) (i0 i1 i2 : nat) : KM unit :=
  upd_vd (λ d, d <| vd_ops ::= <[i0 := mk_blk_req (if write then VIRTIO_BLK_T_OUT else VIRTIO_BLK_T_IN) 0 sector]> |>) ;;
  set_desc i0 (sym_op i0) 16 VRING_DESC_F_NEXT (Z.of_nat i1) ;;
  set_desc i1 (sym_data b) BSIZE
    (Z.lor (if write then 0 else VRING_DESC_F_WRITE) VRING_DESC_F_NEXT) (Z.of_nat i2) ;;
  upd_vd (λ d, d <| vd_info_status ::= <[i0 := 0xff]> |>) ;;
  set_desc i2 (sym_status i0) 1 VRING_DESC_F_WRITE 0 ;;
  wrt bufs b b_disk 1 ;;
  upd_vd (λ d, d <| vd_info_b ::= <[i0 := Some b]> |>) ;;
  let* ia := avail_idx in
  let* k := ld_n 2 ia in
  let* ra := avail_ring (k mod Z.of_nat NUM) in
  st_n 2 ra (Z.of_nat i0) ;;
  st_n 2 ia (u16 (k + 1)) ;;
  vio_write VIRTIO_MMIO_QUEUE_NOTIFY 0.

Definition virtio_disk_rw (b : nat) (write : bool) : KM unit :=
  let* blockno := rdt bufs b b_blockno in
  let sector := u32 (blockno * (BSIZE / 512)) in
  acquire vdisk_lock ;;
  let* idx := loop fuel (
    let* r := alloc3_desc in
    match r with
    | Some idx => ret (Some idx)
    | None => sleep ch_free vdisk_lock ;; ret None
    end) in
  match idx with
  | [i0; i1; i2] =>
      virtio_submit b write sector i0 i1 i2 ;;
      while_do fuel
        (let* d := rdt bufs b b_disk in ret (d =? 1))
        (sleep (ch_buf b) vdisk_lock) ;;
      upd_vd (λ d, d <| vd_info_b ::= <[i0 := None]> |>) ;;
      free_chain i0 ;;
      release vdisk_lock
  | _ => fault
  end.
End rw.

(** the loop of [virtio_disk_intr]: [disk.used_idx] takes [2 ^ 16] values *)
Definition virtio_disk_intr : KM unit :=
  acquire vdisk_lock ;;
  let* st := vio_read VIRTIO_MMIO_INTERRUPT_STATUS in
  vio_write VIRTIO_MMIO_INTERRUPT_ACK (Z.land st 3) ;;
  while_do (S (Z.to_nat (2 ^ 16)))
    (let* ui := rd_vd vd_used_idx in
     let* ua := used_idx_addr in
     let* u := ld_n 2 ua in
     ret (negb (ui =? u)))
    (let* ui := rd_vd vd_used_idx in
     let* ra := used_ring (ui mod Z.of_nat NUM) in
     let* id := ld_n 4 ra in
     let* sts := rd_vd vd_info_status in
     let* st := deref (sts !! Z.to_nat id) in
     if negb (st =? 0) then panic "virtio_disk_intr status" else
     let* bs := rd_vd vd_info_b in
     let* b := deref (mjoin (bs !! Z.to_nat id)) in
     wrt bufs b b_disk 0 ;;
     wakeup (Some (ch_buf b)) ;;
     upd_vd (λ d, d <| vd_used_idx ::= λ u, u16 (u + 1) |>)) ;;
  release vdisk_lock.
