(* ===== verification/Trap.v ===== *)
(** * Traps, [kernel/trap.c]

    [trapinit], [trapinithart], [usertrap], [kerneltrap], [clockintr] and
    [devintr].  The disk interrupt handler is the class [DiskOps];
    [prepare_return] is in [Proc]. *)

From S2P Require Import Prelude Kstate Spinlock Runqueue Sched Bytes Layout Kalloc Vm Printf Proc Console.
From S2P Require Import Syscall.
#[local] Open Scope Z_scope.

Class DiskOps := { virtio_disk_intr : KM unit }.

Definition trapinit : KM unit := initlock tickslock.

(** [clockintr] on hart 0: the clock *)
Definition clock_tick : KM unit :=
  acquire tickslock ;;
  let* t := rd_pt ticks in
  wr_pt ticks (u32 (t + 1)) ;;
  let* tb := rd_pt ticks_since_boost in
  wr_pt ticks_since_boost (u32 (tb + 1)) ;;
  wakeup (Some ch_ticks) ;;
  release tickslock.
(** [clockintr] on a hart that runs [p]: the time quantum *)
Definition clock_charge (p : nat) : KM unit :=
  let* st := rd p p_state in
  when (bool_decide (st = RUNNING)) (
    upd_proc p (λ r, r <| p_time_in_queue ::= λ n, s32 (n + 1) |>) ;;
    let* lvl := rd p p_queue_level in
    let quantum := get_quantum lvl in
    let* n := rd p p_time_in_queue in
    when (quantum <=? n) (
      wr p p_time_in_queue 0 ;;
      let* lvl := rd p p_queue_level in
      when (lvl <? Z.of_nat MLFQ_LEVELS - 1) (
        upd_proc p (λ r, r <| p_queue_level ::= λ l, s32 (l + 1) |>) ;;
        upd_stats (λ st, st <| total_demotions ::= λ n, u64 (n + 1) |>)) ;;
      yield)).
Definition clockintr : KM unit :=
  let* id := cpuid in
  when (bool_decide (id = 0%nat)) clock_tick ;;
  let* p := myproc in
  match p with
  | None => ret tt
  | Some p => clock_charge p
  end ;;
  let* t := rd_csr time in
  wr_csr stimecmp (u64 (t + 1000000)).

Section code.
Context {SY : Symbols} {FS : FsOps} {SF : SysFileOps} {DO : DiskOps} (fuel : nat) (junk : list Z).

Definition trapinithart : KM unit := wr_csr stvec sym_kernelvec.

(** 2 for a timer interrupt, 1 for another device, 0 if not recognized *)
Definition devintr : KM Z :=
  let* cause := rd_csr scause in
  if cause =? 0x8000000000000009 then
    let* irq := plic_claim in
    (if irq =? UART0_IRQ then uartintr
     else if irq =? VIRTIO0_IRQ then virtio_disk_intr
     else when (negb (irq =? 0)) (printf (str "unexpected interrupt irq=%d" ++ [10]) [Aint irq])) ;;
    when (negb (irq =? 0)) (plic_complete irq) ;;
    ret 1
  else if cause =? 0x8000000000000005 then
    clockintr ;;
    ret 2
  else ret 0.

(** what [usertrap] does before it looks for a pending kill: the value of
    [which_dev] *)
Definition usertrap_dispatch (p : nat) : KM Z :=
  let* cause := rd_csr scause in
  if cause =? 8 then
    let* k := killed p in
    (if negb (k =? 0) then kexit (-1) else ret tt) ;;
    let* epc := rd_tf p tf_epc in
    wr_tf p tf_epc (u64 (epc + 4)) ;;
    intr_on ;;
    syscall fuel junk ;;
    ret 0
  else
  let* which_dev := devintr in
  if negb (which_dev =? 0) then ret which_dev else
  let* cause := rd_csr scause in
  let* va := rd_csr stval in
  let* pt := rd p p_pagetable in
  let* f := if (cause =? 15) || (cause =? 13) then vmfault pt va else ret 0 in
  if negb (f =? 0) then ret 0 else
  let* pid := rd p p_pid in
  printf (str "usertrap(): unexpected scause 0x%lx pid=%d" ++ [10]) [Aint cause; Aint pid] ;;
  let* pc := rd_csr sepc in
  printf (str "            sepc=0x%lx stval=0x%lx" ++ [10]) [Aint pc; Aint va] ;;
  setkilled p ;;
  ret 0.

Definition usertrap : KM Z :=
  let* ss := r_sstatus in
  if negb (Z.land ss SSTATUS_SPP =? 0) then panic "usertrap: not from user mode" else
  wr_csr stvec sym_kernelvec ;;
  let* p := curproc in
  let* pc := rd_csr sepc in
  wr_tf p tf_epc pc ;;
  let* which_dev := usertrap_dispatch p in
  let* k := killed p in
  (if negb (k =? 0) then kexit (-1) else ret tt) ;;
  when (which_dev =? 2) yield ;;
  prepare_return ;;
  let* pt := rd p p_pagetable in
  ret (MAKE_SATP pt).

Definition kerneltrap : KM unit :=
  let* pc := rd_csr sepc in
  let* ss := r_sstatus in
  let* cause := rd_csr scause in
  if Z.land ss SSTATUS_SPP =? 0 then panic "kerneltrap: not from supervisor mode" else
  let* on := intr_get in
  if on then panic "kerneltrap: interrupts enabled" else
  let* which_dev := devintr in
  if which_dev =? 0 then
    let* pc := rd_csr sepc in
    let* va := rd_csr stval in
    printf (str "scause=0x%lx sepc=0x%lx stval=0x%lx" ++ [10]) [Aint cause; Aint pc; Aint va] ;;
    panic "kerneltrap"
  else
  (if which_dev =? 2 then
     let* p := myproc in
     match p with Some _ => yield | None => ret tt end
   else ret tt) ;;
  wr_csr sepc pc ;;
  w_sstatus ss.
End code.
