(* ===== verification/TrapInv.v ===== *)
(** * Traps and system calls keep the scheduling invariant

    The console, the clock, the system calls and the trap handlers preserve
    the invariant [kinv] of [SchedInv] and the contract with the scheduler.
    What they need of the file system's system calls and of the disk driver
    are the classes [SysFileOk] and [DiskOk]. *)

From S2P Require Import Prelude Kstate Spinlock Runqueue Sched SchedInv Bytes Layout Kalloc Vm Printf Quiet.
From S2P Require Import Keeps Proc ProcInv Console Syscall Trap.
#[local] Open Scope Z_scope.
#[local] Arguments seq : simpl never.
#[local] Arguments s32 : simpl never.

(** The system calls on files keep the invariant and the contract. *)
Class SysFileOk (E : stop → Prop) {SF : SysFileOps} : Prop := {
  sys_pipe_ok p : pkeeps E p sys_pipe; sys_read_ok p : pkeeps E p sys_read;
  sys_exec_ok p : pkeeps E p sys_exec; sys_fstat_ok p : pkeeps E p sys_fstat;
  sys_chdir_ok p : pkeeps E p sys_chdir; sys_dup_ok p : pkeeps E p sys_dup;
  sys_open_ok p : pkeeps E p sys_open; sys_write_ok p : pkeeps E p sys_write;
  sys_mknod_ok p : pkeeps E p sys_mknod; sys_unlink_ok p : pkeeps E p sys_unlink;
  sys_link_ok p : pkeeps E p sys_link; sys_mkdir_ok p : pkeeps E p sys_mkdir;
  sys_close_ok p : pkeeps E p sys_close
}.
(** The disk interrupt handler does not sleep. *)
Class DiskOk (E : stop → Prop) {DO : DiskOps} : Prop := {
  virtio_disk_intr_ok G R o : keeps E G R o ∅ ∅ virtio_disk_intr
}.

(** ** The clock *)

(** the effect of a tick on the running process *)
Definition quantum_used (r : proc) : bool :=
  get_quantum (p_queue_level r) <=? p_time_in_queue r + 1.
Definition tick_proc (r : proc) : proc :=
  if quantum_used r
  then r <| p_time_in_queue := 0 |> <| p_queue_level := Z.min (p_queue_level r + 1) 3 |>
  else r <| p_time_in_queue := p_time_in_queue r + 1 |>.
Definition tick_demotes (r : proc) : bool := quantum_used r && (p_queue_level r <? 3).
Lemma get_quantum_range l : 0 ≤ l < 4 → 2 ≤ get_quantum l ≤ 16.
Proof.
  intros Hl. assert (l = 0 ∨ l = 1 ∨ l = 2 ∨ l = 3) as [->|[->|[->| ->]]] by lia;
    unfold get_quantum, QUANTUM_L0, QUANTUM_L1, QUANTUM_L2, QUANTUM_L3; lia.
Qed.
Lemma tick_proc_ok r : proc_ok r → proc_ok (tick_proc r).
Proof.
  intros (Hl & Ht & Hc). unfold level_ok in Hl. change (Z.of_nat MLFQ_LEVELS) with 4 in Hl. pose proof (get_quantum_range (p_queue_level r)) as Hq.
  unfold tick_proc, quantum_used. destruct (Z.leb_spec (get_quantum (p_queue_level r)) (p_time_in_queue r + 1)).
  - pose proof (get_quantum_range (Z.min (p_queue_level r + 1) 3)).
    split; [unfold level_ok; change (Z.of_nat MLFQ_LEVELS) with 4; simpl; lia|]. split; [simpl; lia|done].
  - split; [done|]. split; [simpl; lia|done].
Qed.
Lemma tick_proc_frame r :
  p_state (tick_proc r) = p_state r ∧ p_context (tick_proc r) = p_context r ∧
  p_queue_next (tick_proc r) = p_queue_next r.
Proof. unfold tick_proc. by case_match. Qed.

(** what [clockintr] does to the clock *)
Definition ticked (p : nat) (r : proc) (s s' : kstate) : Prop :=
  kinv (Some p) ∅ s' ∧ core <$> procs (k_pt s') !! p = Some (core r) ∧
  scheduler_stats (k_pt s') = scheduler_stats (k_pt s) ∧
  ticks (k_pt s') = (if decide (lk_tp (k_lk s) = 0%nat) then u32 (ticks (k_pt s) + 1) else ticks (k_pt s)).

Section clock.
Context (E : stop → Prop) (G : kstate → Prop) (R : kstate → kstate → Prop).
#[local] Abbreviation wpk := (wp E G R).

Lemma keeps_clock_tick o : keeps E G R o ∅ ∅ clock_tick.
Proof. unfold clock_tick. keeps. Qed.
Lemma wp_clock_tick p r s (Q : unit → kstate → Prop) :
  kinv (Some p) ∅ s → procs (k_pt s) !! p = Some r → (∀ s', ticked p r s s' → Q tt s') →
  wpk (when (bool_decide (lk_tp (k_lk s) = 0%nat)) clock_tick s) Q.
Proof.
  intros Hs Hr HQ. unfold clock_tick, when, ticked in *.
  destruct (decide (lk_tp (k_lk s) = 0%nat)) as [H0|H0].
  2:{ rewrite bool_decide_eq_false_2 by done. apply wp_done, HQ. split_and!; [done|by rewrite Hr|done|done]. }
  rewrite bool_decide_eq_true_2 by done.
  apply wp_bind. eapply wp_acquire_kinv; [done|set_solver|]. intros k [Hk Hcur (qs & Hwf) Hsv].
  apply wp_bind, wp_done, wp_bind, wp_done, wp_bind, wp_done, wp_bind, wp_done, wp_bind.
  eapply (wp_wakeup_kinv _ _ _ (Some p) ({[tickslock]} ∪ ∅)); [|set_solver|].
  { split; [done|done|exists qs; by eapply wfq_globals|done]. }
  intros s2 Hs2 Hrest Hf Hcore _. eapply wp_release_kinv; [done|set_solver|]. intros k3 Hk3. apply HQ. split; [done|].
  specialize (Hcore p eq_refl). simpl in Hcore |- *. rewrite Hcore, Hr.
  unfold same_rest, rest in Hrest. destruct (k_pt s2). injection Hrest as Hi Hn Ht Htb Hst Hcc Hfi.
  simpl in Ht, Hst |- *. by rewrite Ht, Hst.
Qed.

(** the entry of the running process changes by a tick *)
Lemma kinv_tick p r s :
  kinv (Some p) ∅ s → procs (k_pt s) !! p = Some r →
  kinv (Some p) ∅ (s <| k_pt ::= λ t, t <| procs ::= <[p := tick_proc r]> |> |>).
Proof.
  intros [Hlk Hcur (qs & Hwf) Hsv] Hr. destruct (wfq_proc _ _ _ Hwf _ _ Hr) as (Hok & _ & _).
  destruct (tick_proc_frame r) as (Hs & Hc & Hn). split; [done|done|exists qs|].
  - eapply wfq_upd_same; [done..|by apply tick_proc_ok|done].
  - by eapply saved_ok_same.
Qed.

(** what the accounting of a tick leaves, for a process whose entry was [r] *)
Definition charged (p : nat) (r : proc) (s s' : kstate) : Prop :=
  kinv (Some p) ∅ s' ∧ procs (k_pt s') !! p = Some (tick_proc r) ∧ ticks (k_pt s') = ticks (k_pt s) ∧
  total_demotions (scheduler_stats (k_pt s')) =
    (if tick_demotes r then u64 (total_demotions (scheduler_stats (k_pt s)) + 1)
     else total_demotions (scheduler_stats (k_pt s))).

Lemma wp_clock_charge p r s (Q : unit → kstate → Prop) :
  kinv (Some p) ∅ s → procs (k_pt s) !! p = Some r →
  (∀ s', charged p r s s' → if quantum_used r then wpk (yield s') Q else Q tt s') →
  wpk (clock_charge p s) Q.
Proof.
  intros Hs Hr HQ. pose proof Hs as [Hlk Hcur (qs & Hwf) Hsv].
  assert (Hlt : (p < length (procs (k_pt s)))%nat) by (by eapply lookup_lt_Some).
  destruct (wfq_proc _ _ _ Hwf _ _ Hr) as ((Hl & Ht & _) & Hrun & _). unfold level_ok in Hl.
  change (Z.of_nat MLFQ_LEVELS) with 4 in Hl. pose proof (get_quantum_range _ Hl) as Hq.
  pose proof (kinv_tick p r s Hs Hr) as Htick.
  assert (Hl1 : ∀ r', procs (k_pt (s <| k_pt ::= λ t, t <| procs ::= <[p := r']> |> |>)) !! p = Some r').
  { intros r'. simpl. by apply list_lookup_insert_eq. }
  unfold clock_charge, when. apply wp_bind. eapply wp_rd; [done|]. rewrite bool_decide_eq_true_2 by naive_solver.
  apply wp_bind. eapply wp_upd_proc; [done|].
  replace (r <| p_time_in_queue ::= λ n, s32 (n + 1) |>) with (r <| p_time_in_queue := p_time_in_queue r + 1 |>)
    by (destruct r; cbv [upd set_p_time_in_queue set_p_queue_level]; simpl in *; by rewrite s32_small by lia).
  apply wp_bind. eapply wp_rd; [apply Hl1|]. apply wp_bind. eapply wp_rd; [apply Hl1|]. cbn [p_time_in_queue p_queue_level].
  unfold charged, quantum_used, tick_demotes, tick_proc in *. unfold quantum_used in *.
  change (get_quantum (p_queue_level (r <| p_time_in_queue := p_time_in_queue r + 1 |>)) <=?
    p_time_in_queue (r <| p_time_in_queue := p_time_in_queue r + 1 |>))
    with (get_quantum (p_queue_level r) <=? p_time_in_queue r + 1).
  destruct (get_quantum (p_queue_level r) <=? p_time_in_queue r + 1) eqn:Hu.
  2:{ apply wp_done, HQ. split; [done|]. by split; [apply Hl1|]. }
  apply wp_bind. eapply wp_upd_proc; [apply Hl1|]. rewrite set_proc_twice. apply wp_bind.
  eapply wp_rd; [apply Hl1|]. change (Z.of_nat MLFQ_LEVELS - 1) with 3. simpl (p_queue_level _).
  destruct (Z.ltb_spec (p_queue_level r) 3) as [H3|H3].
  - apply wp_bind, wp_bind. eapply wp_upd_proc; [apply Hl1|]. rewrite set_proc_twice.
    match goal with |- context [<[p := ?x]>] => replace x with
      (r <| p_time_in_queue := 0 |> <| p_queue_level := p_queue_level r + 1 |>) by (destruct r; cbv [upd set_p_time_in_queue set_p_queue_level]; simpl in *; by rewrite s32_small by lia) end.
    rewrite Z.min_l in * by lia.
    eapply (wp_upd_stats _ _ _ _ _ ∅); [done|set_solver|]. intros k Hk Hf. apply HQ.
    split; [|split; [by apply Hl1|done]]. destruct Htick as [? ? (qs' & Hwf') ?].
    split; [done|by rewrite <- Hcur; apply (cur_proc_frame (k_lk s))| |done]. exists qs'. by eapply wfq_globals.
  - apply wp_bind, wp_done. rewrite Z.min_r in * by lia. assert (H4 : p_queue_level r = 3) by lia.
    apply HQ. rewrite <- H4 in Htick |- *. split; [|split; [|done]]; destruct r; [exact Htick|by apply Hl1].
Qed.

Lemma keeps_clockintr_idle : keeps E G R None ∅ ∅ clockintr.
Proof. pose proof (keeps_clock_tick None). unfold clockintr. keeps. Qed.

(** the end of [clockintr]: the next timer interrupt *)
Lemma keeps_clock_rearm o :
  keeps E G R o ∅ ∅ (let* t := rd_csr time in wr_csr stimecmp (u64 (t + 1000000))).
Proof. keeps. Qed.
End clock.

(** [clockintr] on a hart that runs a process *)
Lemma core_tick r : core (tick_proc r) = tick_proc (core r).
Proof.
  unfold tick_proc. change (quantum_used (core r)) with (quantum_used r). by destruct (quantum_used r).
Qed.

(** the state after the accounting of a tick, up to queue links *)
Definition accounted (p : nat) (r : proc) (s s' : kstate) : Prop :=
  kinv (Some p) ∅ s' ∧ core <$> procs (k_pt s') !! p = Some (core (tick_proc r)) ∧
  ticks (k_pt s') = (if decide (lk_tp (k_lk s) = 0%nat) then u32 (ticks (k_pt s) + 1) else ticks (k_pt s)) ∧
  total_demotions (scheduler_stats (k_pt s')) =
    (if tick_demotes r then u64 (total_demotions (scheduler_stats (k_pt s)) + 1)
     else total_demotions (scheduler_stats (k_pt s))).
Lemma ticked_charged p r r1 s s1 s2 :
  ticked p r s s1 → core r1 = core r → charged p r1 s1 s2 → accounted p r s s2.
Proof.
  intros (_ & _ & Hst & Ht) Hc (Hk & Hp & Ht2 & Hd).
  assert (Hdem : tick_demotes r1 = tick_demotes r).
  { change (tick_demotes (core r1) = tick_demotes (core r)). by rewrite Hc. }
  rewrite Hdem, Hst in Hd. split; [done|]. rewrite Hp, Ht2. simpl. by rewrite !core_tick, Hc.
Qed.

Lemma wp_clockintr E G R p r s (Q : unit → kstate → Prop) :
  kinv (Some p) ∅ s → procs (k_pt s) !! p = Some r →
  (∀ s', accounted p r s s' → quantum_used r = true → wp E G R (yield s') (λ _, kinv (Some p) ∅)) →
  (∀ s', kinv (Some p) ∅ s' → (quantum_used r = false → accounted p r s s') → Q tt s') →
  wp E G R (clockintr s) Q.
Proof.
  intros Hs Hr Hy HQ. unfold clockintr. apply wp_bind, wp_done, wp_bind.
  eapply wp_clock_tick; [done|done|]. intros s1 Ht. pose proof Ht as (Hs1 & Hr1 & _).
  destruct (procs (k_pt s1) !! p) as [r1|] eqn:Hp1; [|done]. apply (inj Some) in Hr1.
  apply wp_bind. eapply wp_myproc; [apply Hs1|]. intros k Hk Hf.
  rewrite (kinv_cur _ _ _ Hs1). assert (Hs1' : kinv (Some p) ∅ (s1 <| k_lk := k |>)) by (by eapply kinv_frame).
  assert (Hu : quantum_used r1 = quantum_used r).
  { change (quantum_used (core r1) = quantum_used (core r)). by rewrite Hr1. }
  apply wp_bind. eapply wp_clock_charge; [exact Hs1'|exact Hp1|]. intros s2 Hc. rewrite Hu.
  assert (Ha : accounted p r s s2) by (eapply ticked_charged; [done|exact Hr1|exact Hc]).
  assert (Hend : ∀ s', kinv (Some p) ∅ s' → (quantum_used r = false → accounted p r s s') →
    wp E G R ((let* t := rd_csr time in wr_csr stimecmp (u64 (t + 1000000))) s') Q).
  { intros s' Hs' Hn. apply wp_bind, wp_done, wp_done, HQ; [by destruct Hs'|].
    intros Hx. destruct (Hn Hx) as ([] & ?). by split. }
  destruct (quantum_used r) eqn:Hq; [|by apply Hend; [apply Ha|]].
  eapply wp_mono; [|by apply Hy]. intros [] s3 Hs3. apply Hend; [done|congruence].
Qed.
Lemma keeps_clockintr E p : pkeeps E p clockintr.
Proof.
  intros s Q Hs HQ. pose proof Hs as [_ _ (qs & Hwf) _]. pose proof (kinv_lt _ _ _ Hs) as Hp.
  destruct (wfq_lookup _ _ _ _ Hwf Hp) as [r Hr]. eapply wp_clockintr; [done|done| |eauto].
  intros s' Hs' _. apply wp_yield; [apply Hs'|done].
Qed.

Section traps.
Context {SY : Symbols} {FS : FsOps} (E : stop → Prop) (HE : ∀ e, soft_stop e → E e).
Lemma trap_vm e : vm_stop e → E e.
Proof. by apply soft_vm. Qed.
Lemma trap_fault : E StopFault.
Proof. by apply soft_fault. Qed.
Lemma trap_fuel : E StopFuel.
Proof. by apply soft_fuel. Qed.
Lemma trap_frozen : E StopFrozen.
Proof. by apply soft_frozen. Qed.
#[local] Hint Resolve trap_vm trap_fault trap_fuel trap_frozen : quiet.
#[local] Hint Resolve quiet_kfree quiet_kalloc quiet_uvmcreate quiet_mappages quiet_uvmfree quiet_uvmunmap
  quiet_uvmcopy quiet_uvmalloc quiet_uvmdealloc quiet_copyout quiet_copyin quiet_copyinstr quiet_vmfault
  quiet_consputc quiet_printf : quiet.
#[local] Hint Extern 1 (quiet _ _ fault) => apply quiet_stop : quiet.

Lemma quiet_procdump : quiet E {[pr_lock]} procdump.
Proof. unfold procdump. quiet. Qed.
Lemma quiet_cons_at i : quiet E ∅ (cons_at i).
Proof. unfold cons_at. quiet. Qed.
#[local] Hint Resolve quiet_procdump quiet_cons_at : quiet.
Lemma quiet_cons_kill_line fuel : quiet E ∅ (cons_kill_line fuel).
Proof. induction fuel as [|fuel IH]; cbn [cons_kill_line]; quiet. Qed.
#[local] Hint Resolve quiet_cons_kill_line : quiet.

Section atomic.
Context (G : kstate → Prop) (R : kstate → kstate → Prop) (o : option nat).

Lemma keeps_consoleintr c : keeps E G R o ∅ ∅ (consoleintr c).
Proof. unfold consoleintr. keeps. Qed.
#[local] Hint Resolve keeps_consoleintr : keeps.
Lemma keeps_uartintr_loop fuel : keeps E G R o ∅ ∅ (uartintr_loop fuel).
Proof.
  induction fuel as [|fuel IH]; cbn [uartintr_loop]; [by apply keeps_stop, soft_fuel|]. unfold uartgetc. keeps.
Qed.
#[local] Hint Resolve keeps_uartintr_loop : keeps.
Lemma keeps_uartintr : keeps E G R o ∅ ∅ uartintr.
Proof. unfold uartintr. keeps. Qed.
Lemma keeps_plic_complete irq : keeps E G R o ∅ ∅ (plic_complete irq).
Proof. unfold plic_complete. keeps. Qed.
End atomic.

(** ** System calls *)

Lemma keeps_argraw G R p H n : 0 ≤ n ≤ 5 → keeps E G R (Some p) H H (argraw n).
Proof.
  intros Hn. assert (n = 0 ∨ n = 1 ∨ n = 2 ∨ n = 3 ∨ n = 4 ∨ n = 5) as Hc by lia.
  destruct Hc as [->|[->|[->|[->|[->| ->]]]]]; unfold argraw, rd_tf; simpl; keeps.
Qed.

Section process.
Context {FSok : FsOk E} (p : nat).
#[local] Abbreviation pk := (keeps E (parked p) (λ s s', live_at p s ∧ resumed p s') (Some p)).

Lemma keeps_kfork : pkeeps E p kfork.
Proof. intros s Q Hs HQ. by eapply wp_kfork. Qed.
Lemma keeps_kexit {A} n : pkeeps E p (kexit (A:=A) n).
Proof. intros s Q Hs _. by eapply wp_kexit. Qed.
#[local] Hint Resolve keeps_kfork keeps_kexit keeps_kwait keeps_growproc keeps_clockintr keeps_prepare_return : keeps.
#[local] Hint Extern 1 (keeps _ _ _ _ _ _ (argraw _)) => (apply keeps_argraw; lia) : keeps.
#[local] Hint Extern 1 (keeps _ _ _ _ _ _ (argint _)) => (unfold argint; keeps) : keeps.
#[local] Hint Extern 1 (keeps _ _ _ _ _ _ (argaddr _)) => (apply keeps_argraw; lia) : keeps.

Lemma keeps_sys_exit : pkeeps E p sys_exit.
Proof. unfold sys_exit. keeps. Qed.
Lemma keeps_sys_getpid : pkeeps E p sys_getpid.
Proof. unfold sys_getpid. keeps. Qed.
Lemma keeps_sys_wait fuel : pkeeps E p (sys_wait fuel).
Proof. unfold sys_wait. keeps. Qed.
Lemma keeps_sys_sbrk : pkeeps E p sys_sbrk.
Proof. unfold sys_sbrk. keeps. Qed.
Lemma keeps_pause_loop fuel t n : pk ({[tickslock]} ∪ ∅) ∅ (pause_loop fuel t n).
Proof.
  induction fuel as [|fuel IH]; cbn [pause_loop]; [by apply keeps_stop, trap_fuel|]. keeps.
Qed.
#[local] Hint Resolve keeps_pause_loop : keeps.
Lemma keeps_sys_pause fuel : pkeeps E p (sys_pause fuel).
Proof. unfold sys_pause. keeps. Qed.
Lemma keeps_sys_kill : pkeeps E p sys_kill.
Proof. unfold sys_kill. keeps. Qed.
Lemma keeps_sys_uptime : pkeeps E p sys_uptime.
Proof. unfold sys_uptime. keeps. Qed.
Lemma keeps_sys_getprocinfo junk : pkeeps E p (sys_getprocinfo junk).
Proof. unfold sys_getprocinfo, proc_at. keeps. Qed.
Lemma keeps_boostproc_find pid : pkeeps E p (boostproc_find pid).
Proof.
  unfold boostproc_find. apply keeps_for_find. intros i Hi%all_procs_lt.
  eapply keeps_bind; [by auto with keeps|]. intros _. eapply keeps_bind; [by auto with keeps|]. intros pp.
  case_match; [|keeps]. intros s Q Hs HQ. eapply wp_upd2_kinv; [exact Hs|done|by intros r (? & ? & ?)|].
  intros s' Hs'. assert (Hk : pk ({[p_lock i]} ∪ ∅) ∅ (release (p_lock i) ;; ret (Some tt))) by keeps. by apply Hk.
Qed.
#[local] Hint Resolve keeps_boostproc_find : keeps.
Lemma keeps_sys_boostproc : pkeeps E p sys_boostproc.
Proof. unfold sys_boostproc. keeps. Qed.
Lemma keeps_sys_getschedulerstats : pkeeps E p sys_getschedulerstats.
Proof. unfold sys_getschedulerstats. keeps. Qed.

(** ** Dispatch *)

Context {SF : SysFileOps} {SFok : SysFileOk E} {DO : DiskOps} {DOok : DiskOk E} (fuel : nat) (junk : list Z).
#[local] Hint Resolve keeps_sys_exit keeps_sys_getpid keeps_sys_wait keeps_sys_sbrk keeps_sys_pause keeps_sys_kill
  keeps_sys_uptime keeps_sys_getprocinfo keeps_sys_boostproc keeps_sys_getschedulerstats
  sys_pipe_ok sys_read_ok sys_exec_ok sys_fstat_ok sys_chdir_ok sys_dup_ok sys_open_ok sys_write_ok sys_mknod_ok
  sys_unlink_ok sys_link_ok sys_mkdir_ok sys_close_ok : keeps.
Lemma keeps_syscalls n (f : KM Z) : mjoin (syscalls fuel junk !! n) = Some f → pkeeps E p f.
Proof.
  assert (Hall : Forall (λ o : option (KM Z), ∀ f, o = Some f → pkeeps E p f) (syscalls fuel junk)).
  { unfold syscalls. repeat constructor; intros g [= <-]; unfold sys_fork; eauto with keeps. }
  rewrite Forall_lookup in Hall. destruct (syscalls fuel junk !! n) as [o|] eqn:Hn; simpl; [|done].
  intros ->. by eapply Hall.
Qed.
Lemma keeps_syscall : pkeeps E p (syscall fuel junk).
Proof.
  unfold syscall, rd_tf, wr_tf. eapply keeps_curproc; [done|]. eapply keeps_bind; [keeps|]. intros a7.
  match goal with |- context [if ?b then mjoin ?x else None] =>
    destruct (if b then mjoin x else None) as [f|] eqn:Hf end; [|keeps].
  eapply keeps_bind; [|intros; keeps]. case_match; [|done]. by eapply keeps_syscalls.
Qed.
Lemma keeps_devintr : pkeeps E p devintr.
Proof.
  unfold devintr. pose proof (keeps_uartintr (parked p) (λ s s', live_at p s ∧ resumed p s') (Some p)).
  pose proof keeps_plic_complete. pose proof virtio_disk_intr_ok. keeps.
Qed.
#[local] Hint Resolve keeps_syscall keeps_devintr : keeps.
Lemma keeps_usertrap_dispatch : pkeeps E p (usertrap_dispatch fuel junk p).
Proof. unfold usertrap_dispatch, rd_tf, wr_tf. keeps. Qed.
#[local] Hint Resolve keeps_usertrap_dispatch : keeps.

(** the hart's status register has no previous privilege recorded *)
Definition from_user (s : kstate) : Prop :=
  ∃ x, lk_sstatus (k_lk s) !! lk_tp (k_lk s) = Some x ∧ Z.land x SSTATUS_SPP = 0.
Lemma wp_usertrap s (Q : Z → kstate → Prop) :
  kinv (Some p) ∅ s → from_user s → (∀ v s', kinv (Some p) ∅ s' → Q v s') →
  wp_proc E p (usertrap fuel junk s) Q.
Proof.
  intros Hs (x & Hx & H0) HQ. unfold usertrap, wp_proc. apply wp_bind. unfold r_sstatus.
  apply wp_bind, wp_done. rewrite Hx. apply wp_done. rewrite H0. simpl (negb _). 
  match goal with |- wp _ _ _ (?m s) _ => assert (Hk : pkeeps E p m) by (unfold wr_tf; keeps) end.
  by apply Hk.
Qed.
End process.

(** ** An idle hart *)

Context {DO : DiskOps} {DOok : DiskOk E}.
(** an interrupt of the timer or of a device *)
Definition is_interrupt (s : kstate) : Prop :=
  scause (k_csr s) = 0x8000000000000005 ∨ scause (k_csr s) = 0x8000000000000009.
Lemma wp_devintr_idle G R s (Q : Z → kstate → Prop) :
  kinv None ∅ s → is_interrupt s → (∀ v s', v ≠ 0 → kinv None ∅ s' → Q v s') → wp E G R (devintr s) Q.
Proof.
  intros Hs Hc HQ. unfold devintr. apply wp_bind, wp_done. destruct Hc as [-> | ->]; simpl.
  - apply wp_bind, keeps_clockintr_idle; [done|]. intros _ s' Hs'. by apply wp_done, HQ.
  - apply wp_bind, wp_done, wp_bind.
    match goal with |- wp _ _ _ (?m s) _ => assert (Hk : keeps E G R None ∅ ∅ m) end.
    { pose proof (keeps_uartintr G R None). pose proof virtio_disk_intr_ok. keeps. }
    apply Hk; [done|]. intros _ s1 Hs1. apply wp_bind. unfold when.
    match goal with |- wp _ _ _ (?m s1) _ => assert (Hk1 : keeps E G R None ∅ ∅ m) end.
    { pose proof (keeps_plic_complete G R None). keeps. }
    apply Hk1; [done|]. intros _ s2 Hs2. by apply wp_done, HQ.
Qed.

(** the state on entry to [kerneltrap] *)
Definition from_kernel (s : kstate) : Prop :=
  ∃ x, lk_sstatus (k_lk s) !! lk_tp (k_lk s) = Some x ∧ Z.land x SSTATUS_SPP ≠ 0 ∧ sie_bit x = false.
Lemma wp_kerneltrap_idle G R s (Q : unit → kstate → Prop) :
  kinv None ∅ s → from_kernel s → is_interrupt s → (∀ s', kinv None ∅ s' → Q tt s') →
  wp E G R (kerneltrap s) Q.
Proof.
  intros Hs (x & Hx & H1 & H0) Hc HQ. unfold kerneltrap, intr_get, r_sstatus.
  apply wp_bind, wp_done, wp_bind, wp_bind, wp_done. rewrite Hx. apply wp_done, wp_bind, wp_done.
  apply Z.eqb_neq in H1. rewrite H1. apply wp_bind, wp_bind, wp_bind, wp_done. rewrite Hx.
  apply wp_done, wp_done. rewrite H0. apply wp_bind, wp_devintr_idle; [done|done|].
  intros v s1 Hv Hs1. apply Z.eqb_neq in Hv. rewrite Hv.
  match goal with |- wp _ _ _ (?m s1) _ => assert (Hk : keeps E G R None ∅ ∅ m) by keeps end.
  apply Hk; [done|]. intros [] s2. apply HQ.
Qed.
End traps.

(** ** Properties *)

