(* ===== verification/FsInv.v ===== *)
(** * The file system keeps the scheduling invariant

    Every operation of the file system, of pipes, of [exec] and of the disk
    driver preserves the invariant [kinv] of [SchedInv] and the contract with
    the scheduler.  [fs_stop] are the panics these files raise themselves,
    and the panic [sched locks]: [iput] takes a sleep-lock while it holds
    [itable.lock], so it would cause that panic if it ever had to wait. *)

From S2P Require Import Prelude Fsdata Kstate Spinlock Runqueue Sched SchedInv Bytes Layout Kalloc Vm Printf.
From S2P Require Import Quiet Keeps Proc ProcInv Console Syscall Trap TrapInv Sleeplock Bio Log Fs Pipe File.
From S2P Require Import Exec Sysfile Virtio.
#[local] Open Scope Z_scope.
#[local] Arguments seq : simpl never.
#[local] Opaque s16 s32 u16 u32 u64.

Definition fs_panics : list string :=
  ["bget: no buffers"; "bwrite"; "brelse"; "log.committing"; "too big a transaction";
   "log_write outside of trans"; "invalid file system"; "freeing free block"; "iget: no inodes"; "ilock";
   "ilock: no type"; "iunlock"; "bmap: out of range"; "dirlookup not DIR"; "dirlookup read"; "dirlink read";
   "filedup"; "fileclose"; "fileread"; "filewrite"; "loadseg: address should exist"; "isdirempty: readi";
   "unlink: nlink < 1"; "unlink: writei"; "could not find virtio disk"; "virtio disk FEATURES_OK unset";
   "virtio disk should not be ready"; "virtio disk has no queue 0"; "virtio disk max queue too short";
   "virtio disk kalloc"; "free_desc 1"; "free_desc 2"; "virtio_disk_intr status"; "sched locks"].
Definition fs_stop (e : stop) : Prop := ∃ msg, e = StopPanic msg ∧ msg ∈ fs_panics.

Section files.
Context {SY : Symbols} {DS : DiskSymbols} (E : stop → Prop).
Context (HE : ∀ e, soft_stop e → E e) (HF : ∀ e, fs_stop e → E e) (fuel : nat) (junk : list Z).

Lemma files_vm e : vm_stop e → E e.
Proof. intros He. apply HE. by left. Qed.
Lemma files_fault : E StopFault.
Proof. by apply files_vm. Qed.
Lemma files_fuel : E StopFuel.
Proof. by apply files_vm. Qed.
Lemma files_frozen : E StopFrozen.
Proof. apply HE. right. by left. Qed.
Lemma files_panic msg : bool_decide (msg ∈ fs_panics) = true → E (StopPanic msg).
Proof. intros Hm. apply HF. exists msg. by apply bool_decide_eq_true_1 in Hm. Qed.
#[local] Hint Resolve files_vm files_fault files_fuel files_frozen : quiet.
#[local] Hint Resolve quiet_kfree quiet_kalloc quiet_uvmcreate quiet_mappages quiet_uvmfree quiet_uvmunmap
  quiet_uvmcopy quiet_uvmalloc quiet_uvmdealloc quiet_uvmclear quiet_walkaddr quiet_copyout quiet_copyin
  quiet_copyinstr quiet_printf quiet_proc_pagetable quiet_proc_freepagetable : quiet.
#[local] Hint Extern 1 (quiet _ _ fault) => apply quiet_stop : quiet.
#[local] Hint Extern 1 (quiet _ _ (panic _)) => (apply quiet_stop, files_panic; done) : quiet.
#[local] Hint Extern 1 (keeps _ _ _ _ _ _ (panic _)) => (apply keeps_stop, files_panic; done) : keeps.
#[local] Hint Extern 1 (keeps _ _ _ _ _ _ (stop_with StopFuel)) => (apply keeps_stop, files_fuel) : keeps.
#[local] Hint Extern 1 (keeps _ _ _ _ _ _ fault) => (apply keeps_stop, files_fault) : keeps.

(** ** Sleep-locks *)

Section locks.
Context (G : kstate → Prop) (R : kstate → kstate → Prop) (o : option nat).
#[local] Abbreviation kp := (keeps E G R o).
Lemma keeps_releasesleep lk p : o = Some p → kp ∅ ∅ (releasesleep lk).
Proof. intros ->. unfold releasesleep. keeps. Qed.
Lemma keeps_holdingsleep lk p H : o = Some p → sleep_lk lk ∉ H → kp H H (holdingsleep lk).
Proof. intros -> Hl. unfold holdingsleep. keeps. Qed.
Lemma keeps_bpin b H : bcache_lock ∉ H → kp H H (bpin b).
Proof. intros Hl. unfold bpin. keeps. Qed.
Lemma keeps_bunpin b H : bcache_lock ∉ H → kp H H (bunpin b).
Proof. intros Hl. unfold bunpin. keeps. Qed.
End locks.
#[local] Hint Extern 1 (keeps _ _ _ _ _ _ (bpin _)) => (apply keeps_bpin; set_solver) : keeps.
#[local] Hint Extern 1 (keeps _ _ _ _ _ _ (bunpin _)) => (apply keeps_bunpin; set_solver) : keeps.
#[local] Hint Extern 1 (keeps _ _ _ _ _ _ (releasesleep _)) =>
  (eapply keeps_releasesleep; reflexivity) : keeps.
#[local] Hint Extern 1 (keeps _ _ _ _ _ _ (holdingsleep _)) =>
  (eapply keeps_holdingsleep; [reflexivity|set_solver]) : keeps.

(** ** Operations that do not sleep *)

Section quiet.
Context (L : gset lockid).
Lemma quiet_rd_fs {T} (f : fsst → T) : quiet E L (rd_fs f).
Proof. apply quiet_gets. Qed.
Lemma quiet_wr_fs {T} (f : fsst → T) `{!Setter f} v : quiet E L (wr_fs f v).
Proof. by apply quiet_modify. Qed.
Lemma quiet_rd_log {T} (f : logst → T) : quiet E L (rd_log f).
Proof. apply quiet_gets. Qed.
Lemma quiet_upd_log g : quiet E L (upd_log g).
Proof. by apply quiet_modify. Qed.
Lemma quiet_wr_log {T} (f : logst → T) `{!Setter f} v : quiet E L (wr_log f v).
Proof. apply quiet_upd_log. Qed.
Lemma quiet_rd_vd {T} (f : vdisk → T) : quiet E L (rd_vd f).
Proof. apply quiet_gets. Qed.
Lemma quiet_upd_vd g : quiet E L (upd_vd g).
Proof. by apply quiet_modify. Qed.
Lemma quiet_rd_dev {T} (f : devst → T) : quiet E L (rd_dev f).
Proof. apply quiet_gets. Qed.
Lemma quiet_vio_write r v : quiet E L (vio_write r v).
Proof. by apply quiet_modify. Qed.
#[local] Hint Resolve quiet_rd_fs quiet_wr_fs quiet_rd_log quiet_upd_log quiet_wr_log quiet_rd_vd quiet_upd_vd
  quiet_rd_dev quiet_vio_write : quiet.
Lemma quiet_vio_read r : quiet E L (vio_read r).
Proof. unfold vio_read. quiet. Qed.
Lemma quiet_next b : quiet E L (next b).
Proof. unfold next. quiet. Qed.
Lemma quiet_prev b : quiet E L (prev b).
Proof. unfold prev. quiet. Qed.
#[local] Hint Resolve quiet_next quiet_prev : quiet.
Lemma quiet_push_front b : quiet E L (push_front b).
Proof. unfold push_front. quiet. Qed.
Lemma quiet_bget_hit n dev bno : ∀ b, quiet E L (bget_hit n b dev bno).
Proof. induction n as [|n IH]; intros b; cbn [bget_hit]; quiet. Qed.
Lemma quiet_bget_recycle n dev bno : ∀ b, quiet E L (bget_recycle n b dev bno).
Proof. induction n as [|n IH]; intros b; cbn [bget_recycle]; quiet. Qed.
Lemma quiet_data_le n b off : quiet E L (data_le n b off).
Proof. unfold data_le. quiet. Qed.
Lemma quiet_set_data_le n b off v : quiet E L (set_data_le n b off v).
Proof. unfold set_data_le. quiet. Qed.
Lemma quiet_set_data b off l : quiet E L (set_data b off l).
Proof. unfold set_data. quiet. Qed.
Lemma quiet_block_at i : quiet E L (block_at i).
Proof. unfold block_at. quiet. Qed.
Lemma quiet_set_block i v : quiet E L (set_block i v).
Proof. unfold set_block. quiet. Qed.
#[local] Hint Resolve quiet_data_le quiet_set_data_le quiet_block_at quiet_set_block : quiet.
Lemma quiet_log_absorb n bno : ∀ i, quiet E L (log_absorb n i bno).
Proof. induction n as [|n IH]; intros i; cbn [log_absorb]; quiet. Qed.
Lemma quiet_balloc_scan bp b : quiet E L (balloc_scan bp b).
Proof. unfold balloc_scan. quiet. Qed.
Lemma quiet_addr_at ip k : quiet E L (addr_at ip k).
Proof. unfold addr_at. quiet. Qed.
Lemma quiet_set_addr ip k v : quiet E L (set_addr ip k v).
Proof. unfold set_addr. quiet. Qed.
Lemma quiet_iget_scan ips dev inum : ∀ e, quiet E L (iget_scan ips e dev inum).
Proof. induction ips as [|ip ips IH]; intros e; cbn [iget_scan]; quiet. Qed.
Lemma quiet_stati ip pad : quiet E L (stati ip pad).
Proof. unfold stati. quiet. Qed.
Lemma quiet_has_device m : quiet E L (has_device m).
Proof. unfold has_device. quiet. Qed.
Lemma quiet_ld_n n a : quiet E L (ld_n n a).
Proof. apply quiet_mem_rd, files_fault. Qed.
Lemma quiet_st_n n a v : quiet E L (st_n n a v).
Proof. apply quiet_mem_op, files_fault. Qed.
#[local] Hint Resolve quiet_ld_n quiet_st_n : quiet.
Lemma quiet_set_desc i a l f n : quiet E L (set_desc i a l f n).
Proof. unfold set_desc, desc_at. quiet. Qed.
Lemma quiet_alloc_desc : quiet E L alloc_desc.
Proof. unfold alloc_desc. quiet. Qed.
End quiet.
#[local] Hint Resolve quiet_rd_fs quiet_wr_fs quiet_rd_log quiet_upd_log quiet_wr_log quiet_rd_vd quiet_upd_vd
  quiet_rd_dev quiet_vio_write quiet_vio_read quiet_next quiet_prev quiet_push_front quiet_bget_hit
  quiet_bget_recycle quiet_data_le quiet_set_data_le quiet_set_data quiet_block_at quiet_set_block
  quiet_log_absorb quiet_balloc_scan quiet_addr_at quiet_set_addr quiet_iget_scan quiet_stati quiet_has_device
  quiet_ld_n quiet_st_n quiet_set_desc quiet_alloc_desc : quiet.

#[local] Hint Extern 1 (E (StopPanic _)) => (apply files_panic; done) : quiet.
Lemma quiet_iget dev inum : quiet E {[itable_lock]} (iget dev inum).
Proof. apply quiet_qlocks. intros H HL. unfold iget. qlocks. Qed.
Lemma quiet_idup ip : quiet E {[itable_lock]} (idup ip).
Proof. apply quiet_qlocks. intros H HL. unfold idup. qlocks. Qed.
Lemma quiet_filedup f : quiet E {[ftable_lock]} (filedup f).
Proof. apply quiet_qlocks. intros H HL. unfold filedup. qlocks. Qed.
Lemma quiet_filealloc : quiet E {[ftable_lock]} filealloc.
Proof.
  apply quiet_qlocks. intros H HL. unfold filealloc. eapply qlocks_bind; [apply qlocks_acquire; set_solver|]. intros _.
  eapply qlocks_bind; [eapply (qlocks_quiet _ ∅); [quiet|set_solver]|]. intros r. qlocks.
Qed.
#[local] Hint Resolve quiet_iget quiet_idup quiet_filedup quiet_filealloc : quiet.

(** ** The disk driver *)

Section driver.
Context (G : kstate → Prop) (R : kstate → kstate → Prop) (o : option nat).
#[local] Abbreviation kp := (keeps E G R o).
Lemma keeps_free_desc i H : (∀ i, p_lock i ∉ H) → kp H H (free_desc i).
Proof. intros HH. unfold free_desc. keeps. Qed.
Lemma keeps_free_chain_loop n H : (∀ i, p_lock i ∉ H) → ∀ i, kp H H (free_chain_loop n i).
Proof.
  intros HH. pose proof keeps_free_desc.
  induction n as [|n IH]; intros i; cbn [free_chain_loop]; unfold desc_at; keeps.
Qed.
Lemma keeps_alloc_descs n H : (∀ i, p_lock i ∉ H) → ∀ idx, kp H H (alloc_descs n idx).
Proof. intros HH. pose proof keeps_free_desc. induction n as [|n IH]; intros i; cbn [alloc_descs]; keeps. Qed.
Lemma keeps_binit : kp ∅ ∅ binit.
Proof. unfold binit, initsleeplock. keeps. Qed.
Lemma keeps_iinit : kp ∅ ∅ iinit.
Proof. unfold iinit, initsleeplock. keeps. Qed.
Lemma keeps_virtio_disk_init : kp ∅ ∅ virtio_disk_init.
Proof. unfold virtio_disk_init, virtio_negotiate, virtio_queue_init. keeps. Qed.
Lemma keeps_virtio_disk_intr : kp ∅ ∅ virtio_disk_intr.
Proof. unfold virtio_disk_intr, used_idx_addr, used_ring. keeps. Qed.
End driver.

Lemma keeps_virtio_submit G R o H b w sc i0 i1 i2 : keeps E G R o H H (virtio_submit b w sc i0 i1 i2).
Proof. apply (keeps_quiet _ _ _ _ ∅); [|set_solver]. unfold virtio_submit, avail_idx, avail_ring. quiet. Qed.
#[local] Hint Resolve keeps_virtio_submit : keeps.
#[local] Hint Extern 1 (keeps _ _ _ _ _ _ (alloc_descs _ _)) => (apply keeps_alloc_descs; set_solver) : keeps.
#[local] Hint Extern 1 (keeps _ _ _ _ _ _ (free_chain_loop _ _)) => (apply keeps_free_chain_loop; set_solver) : keeps.
Lemma keeps_virtio_disk_rw p b w : pkeeps E p (virtio_disk_rw fuel b w).
Proof.
  unfold virtio_disk_rw, free_chain, alloc3_desc. keeps.
Qed.

(** ** Buffers and the log *)

(** what the file system needs of the disk driver *)
Context {DR : DiskRw} (DRok : ∀ p b w, pkeeps E p (Bio.virtio_disk_rw b w)).
#[local] Hint Resolve DRok : keeps.
Section process.
Context (p : nat).
#[local] Abbreviation pk := (pkeeps E p).

Lemma keeps_acquiresleep lk : pk (acquiresleep fuel lk).
Proof. unfold acquiresleep. keeps. Qed.
#[local] Hint Resolve keeps_acquiresleep : keeps.
Lemma keeps_bget dev bno : pk (bget fuel dev bno).
Proof. unfold bget. keeps. Qed.
#[local] Hint Resolve keeps_bget : keeps.
Lemma keeps_bread dev bno : pk (bread fuel dev bno).
Proof. unfold bread. keeps. Qed.
Lemma keeps_bwrite b : pk (bwrite b).
Proof. unfold bwrite. keeps. Qed.
Lemma keeps_brelse b : pk (brelse b).
Proof. unfold brelse. keeps. Qed.
#[local] Hint Resolve keeps_bread keeps_bwrite keeps_brelse : keeps.
Lemma keeps_for_log n (f : Z → KM unit) : (∀ i, pk (f i)) → ∀ i, pk (for_log n i f).
Proof. intros Hf. induction n as [|n IH]; intros i; cbn [for_log]; keeps. Qed.
#[local] Hint Extern 1 (keeps _ _ _ _ _ _ (for_log _ _ _)) => (apply keeps_for_log; intros ?; keeps) : keeps.
Lemma keeps_install_trans r : pk (install_trans fuel r).
Proof. unfold install_trans, install_block, log_bread. keeps. Qed.
Lemma keeps_read_head : pk (read_head fuel).
Proof. unfold read_head, log_bread. keeps. Qed.
Lemma keeps_write_head : pk (write_head fuel).
Proof. unfold write_head, log_bread. keeps. Qed.
Lemma keeps_write_log : pk (write_log fuel).
Proof. unfold write_log, write_log_block, log_bread. keeps. Qed.
#[local] Hint Resolve keeps_install_trans keeps_read_head keeps_write_head keeps_write_log : keeps.

Lemma keeps_initlog dev x : pk (initlog fuel dev x).
Proof.
  unfold initlog. change (BSIZE <=? logheader_size) with false. cbv iota. unfold recover_from_log. keeps.
Qed.
Lemma keeps_begin_op : pk (begin_op fuel).
Proof.
  unfold begin_op. keeps.
Qed.
Lemma keeps_end_op : pk (end_op fuel).
Proof. unfold end_op, commit. keeps. Qed.
Lemma keeps_log_write b : pk (log_write b).
Proof. unfold log_write. keeps. Qed.
#[local] Hint Resolve keeps_initlog keeps_begin_op keeps_end_op keeps_log_write : keeps.

(** ** The file system *)

Lemma keeps_readsb dev : pk (readsb fuel dev).
Proof. unfold readsb. keeps. Qed.
Lemma keeps_bzero dev bno : pk (bzero fuel dev bno).
Proof. unfold bzero. keeps. Qed.
#[local] Hint Resolve keeps_readsb keeps_bzero : keeps.
Lemma keeps_balloc dev : pk (balloc fuel dev).
Proof. unfold balloc. keeps. Qed.
Lemma keeps_bfree dev b : pk (bfree fuel dev b).
Proof. unfold bfree. keeps. Qed.
Lemma keeps_ialloc dev t : pk (ialloc fuel dev t).
Proof. unfold ialloc. keeps. Qed.
Lemma keeps_iupdate ip : pk (iupdate fuel ip).
Proof. unfold iupdate. keeps. Qed.
Lemma keeps_ilock ip : pk (ilock fuel ip).
Proof. unfold ilock. keeps. Qed.
Lemma keeps_iunlock ip : pk (iunlock ip).
Proof. unfold iunlock. keeps. Qed.
#[local] Hint Resolve keeps_balloc keeps_bfree keeps_ialloc keeps_iupdate keeps_ilock keeps_iunlock : keeps.
Lemma keeps_bmap ip bn : pk (bmap fuel ip bn).
Proof. unfold bmap. keeps. Qed.
Lemma keeps_itrunc ip : pk (itrunc fuel ip).
Proof. unfold itrunc. keeps. Qed.
#[local] Hint Resolve keeps_bmap keeps_itrunc : keeps.
(** the lock is free, or the kernel panics *)
Lemma keeps_acquiresleep_nested lk :
  keeps E (parked p) (λ s s', live_at p s ∧ resumed p s') (Some p) ({[itable_lock]} ∪ ∅) ({[itable_lock]} ∪ ∅)
    (acquiresleep fuel lk).
Proof.
  unfold acquiresleep. keeps. apply keeps_sleep_nested; [by apply files_panic|set_solver..].
Qed.
#[local] Hint Resolve keeps_acquiresleep_nested : keeps.
Lemma keeps_iput ip : pk (iput fuel ip).
Proof. unfold iput. keeps. Qed.
#[local] Hint Resolve keeps_iput : keeps.
Lemma keeps_iunlockput ip : pk (iunlockput fuel ip).
Proof. unfold iunlockput. keeps. Qed.
#[local] Hint Resolve keeps_iunlockput : keeps.
Lemma keeps_ireclaim dev : pk (ireclaim fuel dev).
Proof. unfold ireclaim. keeps. Qed.
#[local] Hint Resolve keeps_ireclaim : keeps.
Lemma keeps_fsinit dev : pk (fsinit fuel dev).
Proof. unfold fsinit. keeps. Qed.
#[local] Hint Resolve keeps_fsinit : keeps.
#[local] Hint Extern 1 (keeps _ _ _ _ _ _ (either_copyout _ _ _)) =>
  (apply (keeps_either_copyout E HE); set_solver) : keeps.
#[local] Hint Extern 1 (keeps _ _ _ _ _ _ (either_copyin _ _ _)) =>
  (apply (keeps_either_copyin E HE); set_solver) : keeps.

Lemma keeps_copy_to dst l : pk (copy_to dst l).
Proof. unfold copy_to. keeps. Qed.
Lemma keeps_copy_from src m : pk (copy_from src m).
Proof. unfold copy_from. keeps. Qed.
#[local] Hint Resolve keeps_copy_to keeps_copy_from : keeps.
Lemma keeps_readi_loop n k ip : ∀ dst off tot acc, pk (readi_loop fuel k ip dst off tot n acc).
Proof. induction k as [|k IH]; intros dst off tot acc; cbn [readi_loop]; keeps. Qed.
Lemma keeps_writei_loop n k ip : ∀ src off tot, pk (writei_loop fuel k ip src off tot n).
Proof. induction k as [|k IH]; intros src off tot; cbn [writei_loop]; keeps. Qed.
#[local] Hint Resolve keeps_readi_loop keeps_writei_loop : keeps.
Lemma keeps_readi ip dst off n : pk (readi fuel ip dst off n).
Proof. unfold readi. keeps. Qed.
Lemma keeps_writei ip src off n : pk (writei fuel ip src off n).
Proof. unfold writei. keeps. Qed.
#[local] Hint Resolve keeps_readi keeps_writei : keeps.
Lemma keeps_read_dirent msg dp off : bool_decide (msg ∈ fs_panics) = true → pk (read_dirent fuel msg dp off).
Proof. intros Hm. unfold read_dirent. keeps. Qed.
#[local] Hint Extern 1 (keeps _ _ _ _ _ _ (read_dirent _ _ _ _)) => (apply keeps_read_dirent; done) : keeps.
Lemma keeps_dirlookup dp name : pk (dirlookup fuel dp name).
Proof. unfold dirlookup. keeps. Qed.
Lemma keeps_dirlink_find dp n : ∀ off, pk (dirlink_find fuel n dp off).
Proof. induction n as [|n IH]; intros off; cbn [dirlink_find]; keeps. Qed.
#[local] Hint Resolve keeps_dirlookup keeps_dirlink_find : keeps.
Lemma keeps_dirlink dp name inum : pk (dirlink fuel dp name inum).
Proof. unfold dirlink. keeps. Qed.
Lemma keeps_namex_loop n np : ∀ ip path name, pk (namex_loop fuel n ip path np name).
Proof. induction n as [|n IH]; intros ip path name; cbn [namex_loop]; keeps. Qed.
#[local] Hint Resolve keeps_dirlink keeps_namex_loop : keeps.
Lemma keeps_namex path np name : pk (namex fuel path np name).
Proof. unfold namex. keeps. Qed.
#[local] Hint Resolve keeps_namex : keeps.
Lemma keeps_namei path : pk (namei fuel junk path).
Proof. unfold namei. keeps. Qed.
Lemma keeps_nameiparent path name : pk (nameiparent fuel path name).
Proof. unfold nameiparent. keeps. Qed.
#[local] Hint Resolve keeps_namei keeps_nameiparent : keeps.

(** ** Pipes and files *)

Lemma keeps_pipeclose pi w : pk (pipeclose pi w).
Proof. unfold pipeclose, st32, ld32. keeps. Qed.
Lemma keeps_pipe_init pi : pk (pipe_init pi).
Proof. unfold pipe_init, st32. keeps. Qed.
Lemma keeps_pipewrite_loop pi addr n k : ∀ i,
  keepsd E (parked p) (λ s s', live_at p s ∧ resumed p s') (Some p) ({[pipe_lock pi]} ∪ ∅)
    (λ r, if r is inl _ then ∅ else {[pipe_lock pi]} ∪ ∅) (pipewrite_loop k p pi addr i n).
Proof. induction k as [|k IH]; intros i; cbn [pipewrite_loop]; unfold ld32, st32, set_pipe_byte; keeps. Qed.
Lemma keeps_pipewrite pi addr n : pk (pipewrite fuel pi addr n).
Proof.
  unfold pipewrite. eapply keeps_curproc; [reflexivity|]. eapply keeps_bind; [keeps|]. intros _.
  eapply keeps_bindd; [apply keeps_pipewrite_loop|]. intros [v|v]; keeps.
Qed.
Lemma keeps_piperead_wait pi k :
  keepsd E (parked p) (λ s s', live_at p s ∧ resumed p s') (Some p) ({[pipe_lock pi]} ∪ ∅)
    (λ r, if r is true then ∅ else {[pipe_lock pi]} ∪ ∅) (piperead_wait k p pi).
Proof. induction k as [|k IH]; cbn [piperead_wait]; unfold ld32; keeps. Qed.
Lemma keeps_piperead_copy G R pi addr k : ∀ i,
  keeps E G R (Some p) ({[pipe_lock pi]} ∪ ∅) ({[pipe_lock pi]} ∪ ∅) (piperead_copy k p pi addr i).
Proof. induction k as [|k IH]; intros i; cbn [piperead_copy]; unfold ld32, st32, pipe_byte; keeps. Qed.
#[local] Hint Resolve keeps_piperead_copy : keeps.
Lemma keeps_piperead pi addr n : pk (piperead fuel pi addr n).
Proof.
  unfold piperead. eapply keeps_curproc; [reflexivity|]. eapply keeps_bind; [keeps|]. intros _.
  eapply keeps_bindd; [apply keeps_piperead_wait|]. intros []; keeps.
Qed.
#[local] Hint Resolve keeps_pipeclose keeps_pipe_init keeps_pipewrite keeps_piperead : keeps.
Lemma keeps_fileclose f : pk (fileclose fuel f).
Proof. unfold fileclose. keeps. Qed.
#[local] Hint Resolve keeps_fileclose : keeps.
Lemma keeps_filestat pad f addr : pk (filestat fuel pad f addr).
Proof. unfold filestat. keeps. Qed.
(** ** The console *)

#[local] Hint Extern 1 (quiet _ _ (cons_at _)) => apply (quiet_cons_at E HE) : quiet.
Lemma keeps_uartwrite_wait n :
  keeps E (parked p) (λ s s', live_at p s ∧ resumed p s') (Some p) ({[tx_lock]} ∪ ∅) ({[tx_lock]} ∪ ∅)
    (uartwrite_wait n).
Proof. induction n as [|n IH]; cbn [uartwrite_wait]; keeps. Qed.
#[local] Hint Resolve keeps_uartwrite_wait : keeps.
Lemma keeps_uartwrite n l : pk (uartwrite n l).
Proof. unfold uartwrite. keeps. Qed.
Lemma keeps_consoleread_loop u n k : ∀ dst m,
  keeps E (parked p) (λ s s', live_at p s ∧ resumed p s') (Some p) ({[cons_lock]} ∪ ∅) ∅
    (consoleread_loop k u dst m n).
Proof. induction k as [|k IH]; intros dst m; cbn [consoleread_loop]; keeps. Qed.
#[local] Hint Resolve keeps_uartwrite keeps_consoleread_loop : keeps.
Lemma keeps_consoleread u dst n : pk (consoleread fuel u dst n).
Proof. unfold consoleread. keeps. Qed.
Lemma keeps_consolewrite_loop u src n k : ∀ i, pk (consolewrite_loop k u src i n).
Proof. induction k as [|k IH]; intros i; cbn [consolewrite_loop]; keeps. Qed.
#[local] Hint Resolve keeps_consolewrite_loop : keeps.
Lemma keeps_consolewrite u src n : pk (consolewrite fuel u src n).
Proof. unfold consolewrite. keeps. Qed.
#[local] Hint Resolve keeps_consoleread keeps_consolewrite : keeps.

Lemma keeps_fileread f addr n : pk (fileread fuel f addr n).
Proof. unfold fileread. keeps. Qed.
Lemma keeps_filewrite_loop f addr n k : ∀ i, pk (filewrite_loop fuel k f addr i n).
Proof. induction k as [|k IH]; intros i; cbn [filewrite_loop]; keeps. Qed.
#[local] Hint Resolve keeps_filewrite_loop : keeps.
Lemma keeps_filewrite f addr n : pk (filewrite fuel f addr n).
Proof. unfold filewrite. keeps. Qed.
Lemma keeps_pipealloc : pk (pipealloc fuel).
Proof. unfold pipealloc, pipealloc_bad. keeps. Qed.
#[local] Hint Resolve keeps_filestat keeps_fileread keeps_filewrite keeps_pipealloc : keeps.

(** ** [exec] *)

Lemma keeps_loadseg_loop pt va ip offset sz k : ∀ i, pk (loadseg_loop fuel k pt va ip offset i sz).
Proof. induction k as [|k IH]; intros i; cbn [loadseg_loop]; keeps. Qed.
#[local] Hint Resolve keeps_loadseg_loop : keeps.
Lemma keeps_loadseg pt va ip offset sz : pk (loadseg fuel pt va ip offset sz).
Proof. unfold loadseg. keeps. Qed.
#[local] Hint Resolve keeps_loadseg : keeps.
Lemma keeps_exec_segments pt ip n : ∀ off sz, pk (exec_segments fuel n pt ip off sz).
Proof. induction n as [|n IH]; intros off sz; cbn [exec_segments]; keeps. Qed.
Lemma keeps_exec_args argv : ∀ argc pt sp base us, pk (exec_args argv argc pt sp base us).
Proof. induction argv as [|a argv IH]; intros argc pt sp base us; cbn [exec_args]; keeps. Qed.
Lemma keeps_exec_bad pt sz ip : pk (exec_bad fuel pt sz ip).
Proof. unfold exec_bad. keeps. Qed.
Lemma keeps_exec_commit path pt sz sp entry oldsz argc : pk (exec_commit p path pt sz sp entry oldsz argc).
Proof. unfold exec_commit, wr_tf. keeps. Qed.
#[local] Hint Resolve keeps_exec_segments keeps_exec_args keeps_exec_bad keeps_exec_commit : keeps.
Lemma keeps_exec_stack path argv pt sz entry : pk (exec_stack fuel path argv pt sz entry).
Proof. unfold exec_stack. keeps. Qed.
#[local] Hint Resolve keeps_exec_stack : keeps.
Lemma keeps_kexec path argv : pk (kexec fuel junk path argv).
Proof. unfold kexec. keeps. Qed.
#[local] Hint Resolve keeps_kexec : keeps.

(** ** System calls *)

#[local] Hint Extern 1 (keeps _ _ _ _ _ _ (argraw _)) => (apply (keeps_argraw E HE); lia) : keeps.
#[local] Hint Extern 1 (keeps _ _ _ _ _ _ (argint _)) => (unfold argint; keeps) : keeps.
#[local] Hint Extern 1 (keeps _ _ _ _ _ _ (argaddr _)) => (apply (keeps_argraw E HE); lia) : keeps.
Lemma keeps_fetchstr addr max : pk (fetchstr addr max).
Proof. unfold fetchstr. keeps. Qed.
Lemma keeps_fetchaddr addr : pk (fetchaddr addr).
Proof. unfold fetchaddr. keeps. Qed.
#[local] Hint Resolve keeps_fetchstr keeps_fetchaddr : keeps.
#[local] Hint Extern 1 (keeps _ _ _ _ _ _ (argstr _ _)) => (unfold argstr; keeps) : keeps.
#[local] Hint Extern 1 (keeps _ _ _ _ _ _ (argfd _)) => (unfold argfd; keeps) : keeps.
Lemma keeps_set_ofile fd f : pk (set_ofile p fd f).
Proof. unfold set_ofile. keeps. Qed.
#[local] Hint Resolve keeps_set_ofile : keeps.
Lemma keeps_fdalloc f : pk (fdalloc f).
Proof. unfold fdalloc. keeps. Qed.
#[local] Hint Resolve keeps_fdalloc : keeps.
Lemma keeps_sys_dup : pk sys_dup.
Proof. unfold sys_dup. keeps. Qed.
Lemma keeps_sys_read : pk (sys_read fuel).
Proof. unfold sys_read. keeps. Qed.
Lemma keeps_sys_write : pk (sys_write fuel).
Proof. unfold sys_write. keeps. Qed.
Lemma keeps_sys_close : pk (sys_close fuel).
Proof. unfold sys_close. keeps. Qed.
Lemma keeps_sys_fstat : pk (sys_fstat fuel junk).
Proof. unfold sys_fstat. keeps. Qed.
Lemma keeps_sys_link_bad ip : pk (sys_link_bad fuel ip).
Proof. unfold sys_link_bad. keeps. Qed.
#[local] Hint Resolve keeps_sys_link_bad : keeps.
Lemma keeps_sys_link : pk (sys_link fuel junk).
Proof. unfold sys_link. keeps. Qed.
Lemma keeps_isdirempty dp : pk (isdirempty fuel dp).
Proof. unfold isdirempty. keeps. Qed.
#[local] Hint Resolve keeps_isdirempty : keeps.
Lemma keeps_unlink_entry dp ip off : pk (unlink_entry fuel dp ip off).
Proof. unfold unlink_entry. keeps. Qed.
#[local] Hint Resolve keeps_unlink_entry : keeps.
Lemma keeps_sys_unlink : pk (sys_unlink fuel junk).
Proof. unfold sys_unlink. cbv zeta. keeps. Qed.
Lemma keeps_create_fail dp ip : pk (create_fail fuel dp ip).
Proof. unfold create_fail. keeps. Qed.
#[local] Hint Resolve keeps_create_fail : keeps.
Lemma keeps_create_new dp ip name t ma mi : pk (create_new fuel dp ip name t ma mi).
Proof. unfold create_new. keeps. Qed.
#[local] Hint Resolve keeps_create_new : keeps.
Lemma keeps_create path t ma mi : pk (create fuel junk path t ma mi).
Proof. unfold create. keeps. Qed.
#[local] Hint Resolve keeps_create : keeps.
Lemma keeps_open_inode ip om : pk (open_inode fuel ip om).
Proof. unfold open_inode. cbv zeta. keeps. Qed.
#[local] Hint Resolve keeps_open_inode : keeps.
Lemma keeps_sys_open : pk (sys_open fuel junk).
Proof. unfold sys_open. keeps. Qed.
Lemma keeps_sys_mkdir : pk (sys_mkdir fuel junk).
Proof. unfold sys_mkdir. keeps. Qed.
Lemma keeps_sys_mknod : pk (sys_mknod fuel junk).
Proof. unfold sys_mknod. keeps. Qed.
Lemma keeps_sys_chdir : pk (sys_chdir fuel junk).
Proof. unfold sys_chdir. keeps. Qed.
Lemma keeps_exec_fetch n : ∀ ua i pages strs, pk (exec_fetch n ua i pages strs).
Proof. induction n as [|n IH]; intros ua i pages strs; cbn [exec_fetch]; keeps. Qed.
#[local] Hint Resolve keeps_exec_fetch : keeps.
Lemma keeps_sys_exec : pk (sys_exec fuel junk).
Proof. unfold sys_exec. keeps. Qed.
Lemma keeps_sys_pipe : pk (sys_pipe fuel).
Proof. unfold sys_pipe. keeps. Qed.
End process.
End files.
