(* ===== verification/Still.v ===== *)
(** * Kernel code does not touch saved kernel stacks

    The field [k_saved] of the kernel state records which kernel stacks hold
    a suspended call of [swtch].  Only the context switch itself changes it:
    between two switches every program of the model leaves it alone.  The
    tactic [still] shows this by going through the text of a program. *)

From S2P Require Import Prelude Kstate Spinlock Runqueue Sched Bytes Layout Kalloc Vm Printf Proc Console.
From S2P Require Import Syscall Trap.
#[local] Open Scope Z_scope.

(** from here to the next switch the saved stacks are [X], and likewise from
    each resumption on *)
Fixpoint still_run {A} (X : gset nat) (m : res kstate A) : Prop :=
  match m with
  | Done _ s => k_saved s = X
  | Stop _ => True
  | Swtch s k => k_saved s = X ∧ ∀ s', still_run (k_saved s') (k s')
  end.
Definition still {A} (m : KM A) : Prop := ∀ s, still_run (k_saved s) (m s).

(** ** Rules *)

Lemma still_run_bind {A B} (m : res kstate A) (k : A → KM B) : ∀ X,
  still_run X m → (∀ a, still (k a)) → still_run X (bindr m k).
Proof.
  induction m as [a s|e|s f IH]; intros X Hm Hk; simpl in *; [subst; apply Hk|done|].
  destruct Hm as [<- Hf]. split; [done|]. intros s'. by apply IH.
Qed.
Lemma still_bind {A B} (m : KM A) (k : A → KM B) : still m → (∀ a, still (k a)) → still (bind m k).
Proof. intros Hm Hk s. by apply still_run_bind. Qed.
Lemma still_ret {A} (a : A) : still (ret a).
Proof. by intros s. Qed.
Lemma still_stop {A} e : still (stop_with (A:=A) e).
Proof. by intros s. Qed.
Lemma still_gets {A} (f : kstate → A) : still (gets f).
Proof. by intros s. Qed.
Lemma still_get : still get.
Proof. by intros s. Qed.
Lemma still_modify f : (∀ s, k_saved (f s) = k_saved s) → still (modify f).
Proof. intros Hf s. apply Hf. Qed.
Lemma still_swtch : still swtch.
Proof. by intros s. Qed.
Lemma still_deref {A} (x : option A) : still (deref x).
Proof. by destruct x. Qed.
Lemma still_for_each {X} (l : list X) (f : X → KM unit) : (∀ x, still (f x)) → still (for_each l f).
Proof. intros Hf. induction l as [|x l IH]; simpl; [apply still_ret|by apply still_bind]. Qed.
Lemma still_for_find {X T} (l : list X) (f : X → KM (option T)) : (∀ x, still (f x)) → still (for_find l f).
Proof.
  intros Hf. induction l as [|x l IH]; simpl; [apply still_ret|].
  apply still_bind; [done|]. intros [v|]; [apply still_ret|done].
Qed.

Create HintDb still.
#[export] Hint Resolve still_ret still_stop still_gets still_get still_swtch still_deref : still.

Ltac head t := lazymatch t with ?f _ => head f | _ => t end.
(** go through the text of a program, unfolding its definitions *)
Ltac still :=
  repeat lazymatch goal with
    | |- still (bind _ _) => apply still_bind; [|intros ?]
    | |- still (for_each _ _) => apply still_for_each; intros ?
    | |- still (for_find _ _) => apply still_for_find; intros ?
    | |- still (modify _) => apply still_modify; intros ?; reflexivity
    | |- still (if ?b then _ else _) => destruct b
    | |- still (match ?x with _ => _ end) => destruct x
    | |- still ?m => first [solve [auto 2 with still] | let h := head m in progress (unfold h)]
    end.

(** ** Recursive functions *)

Lemma still_acquire l : still (acquire l).
Proof. still. Qed.
Lemma still_release l : still (release l).
Proof. still. Qed.
Lemma still_myproc : still myproc.
Proof. still. Qed.
#[export] Hint Resolve still_acquire still_release still_myproc : still.
Lemma still_dequeue_specific_loop n p l : ∀ prev curr, still (dequeue_specific_loop n p l prev curr).
Proof. induction n as [|n IH]; intros prev curr; cbn [dequeue_specific_loop]; still. Qed.
#[export] Hint Resolve still_dequeue_specific_loop : still.
Lemma still_wakeup c : still (wakeup c).
Proof. still. Qed.
Lemma still_sleep c l : still (sleep c l).
Proof. still. Qed.
Lemma still_killed p : still (killed p).
Proof. still. Qed.
#[export] Hint Resolve still_wakeup still_sleep still_killed : still.

Section code.
Context {SY : Symbols}.

Lemma still_kalloc : still kalloc.
Proof. still. Qed.
Lemma still_kfree pa : still (kfree pa).
Proof. still. Qed.
#[local] Hint Resolve still_kalloc still_kfree : still.
Lemma still_walk_levels ls : ∀ pt va alloc, still (walk_levels ls pt va alloc).
Proof. induction ls as [|l ls IH]; intros pt va alloc; cbn [walk_levels]; still. Qed.
#[local] Hint Resolve still_walk_levels : still.
Lemma still_mappages_loop n : ∀ pt a last pa perm, still (mappages_loop n pt a last pa perm).
Proof. induction n as [|n IH]; intros pt a last pa perm; cbn [mappages_loop]; still. Qed.
#[local] Hint Resolve still_mappages_loop : still.
Lemma still_uvmunmap_loop n : ∀ pt a e f, still (uvmunmap_loop n pt a e f).
Proof. induction n as [|n IH]; intros pt a e f; cbn [uvmunmap_loop]; still. Qed.
#[local] Hint Resolve still_uvmunmap_loop : still.
Lemma still_uvmalloc_loop n : ∀ pt a o nw x, still (uvmalloc_loop n pt a o nw x).
Proof. induction n as [|n IH]; intros pt a o nw x; cbn [uvmalloc_loop]; still. Qed.
#[local] Hint Resolve still_uvmalloc_loop : still.
Lemma still_freewalk_rec n : ∀ pt, still (freewalk_rec n pt).
Proof. induction n as [|n IH]; intros pt; cbn [freewalk_rec]; still. Qed.
#[local] Hint Resolve still_freewalk_rec : still.
Lemma still_uvmcopy_loop n : ∀ o nw i sz, still (uvmcopy_loop n o nw i sz).
Proof. induction n as [|n IH]; intros o nw i sz; cbn [uvmcopy_loop]; still. Qed.
#[local] Hint Resolve still_uvmcopy_loop : still.
Lemma still_copyout_loop n : ∀ pt va src len, still (copyout_loop n pt va src len).
Proof. induction n as [|n IH]; intros pt va src len; cbn [copyout_loop]; still. Qed.
#[local] Hint Resolve still_copyout_loop : still.
Lemma still_copyin_loop n : ∀ pt va len, still (copyin_loop n pt va len).
Proof. induction n as [|n IH]; intros pt va len; cbn [copyin_loop]; still. Qed.
#[local] Hint Resolve still_copyin_loop : still.
Lemma still_copyinstr_page n : ∀ q, still (copyinstr_page q n).
Proof. induction n as [|n IH]; intros q; cbn [copyinstr_page]; still. Qed.
#[local] Hint Resolve still_copyinstr_page : still.
Lemma still_copyinstr_loop n : ∀ pt va max, still (copyinstr_loop n pt va max).
Proof. induction n as [|n IH]; intros pt va max; cbn [copyinstr_loop]; still. Qed.
#[local] Hint Resolve still_copyinstr_loop : still.
Lemma still_printint x b sg : still (printint x b sg).
Proof. still. Qed.
#[local] Hint Resolve still_printint : still.
Lemma still_printf_loop n : ∀ fmt ap, still (printf_loop n fmt ap).
Proof. induction n as [|n IH]; intros [|c fmt] ap; cbn [printf_loop]; still. Qed.
#[local] Hint Resolve still_printf_loop : still.
Lemma still_printf fmt ap : still (printf fmt ap).
Proof. still. Qed.
#[local] Hint Resolve still_printf : still.
Lemma still_uvmfree pt sz : still (uvmfree pt sz).
Proof. still. Qed.
Lemma still_mappages pt va sz pa perm : still (mappages pt va sz pa perm).
Proof. still. Qed.
Lemma still_uvmunmap pt va n f : still (uvmunmap pt va n f).
Proof. still. Qed.
Lemma still_copyout pt va src : still (copyout pt va src).
Proof. still. Qed.
#[local] Hint Resolve still_uvmfree still_mappages still_uvmunmap still_copyout : still.

(** ** What the file system and the disk driver promise *)

Class FsStill {FS : FsOps} : Prop := {
  filedup_still f : still (filedup f); fileclose_still f : still (fileclose f);
  idup_still i : still (idup i); iput_still i : still (iput i);
  begin_op_still : still begin_op; end_op_still : still end_op;
  namei_still path : still (namei path); fsinit_still d : still (fsinit d);
  kexec_still path argv : still (kexec path argv)
}.
Class SysFileStill {SF : SysFileOps} : Prop := {
  sys_pipe_still : still sys_pipe; sys_read_still : still sys_read; sys_exec_still : still sys_exec;
  sys_fstat_still : still sys_fstat; sys_chdir_still : still sys_chdir; sys_dup_still : still sys_dup;
  sys_open_still : still sys_open; sys_write_still : still sys_write; sys_mknod_still : still sys_mknod;
  sys_unlink_still : still sys_unlink; sys_link_still : still sys_link; sys_mkdir_still : still sys_mkdir;
  sys_close_still : still sys_close
}.
Class DiskStill {DO : DiskOps} : Prop := { virtio_disk_intr_still : still virtio_disk_intr }.
#[local] Hint Resolve filedup_still fileclose_still idup_still iput_still begin_op_still end_op_still namei_still
  fsinit_still kexec_still sys_pipe_still sys_read_still sys_exec_still sys_fstat_still sys_chdir_still
  sys_dup_still sys_open_still sys_write_still sys_mknod_still sys_unlink_still sys_link_still sys_mkdir_still
  sys_close_still virtio_disk_intr_still : still.

Context {FS : FsOps} {FSs : FsStill} {SF : SysFileOps} {SFs : SysFileStill} {DO : DiskOps} {DOs : DiskStill}.

(** ** Processes, system calls and traps *)

Lemma still_freeproc p : still (freeproc p).
Proof. still. Qed.
#[local] Hint Resolve still_freeproc : still.
Lemma still_kfork : still kfork.
Proof. still. Qed.
Lemma still_kexit {A} n : still (kexit (A:=A) n).
Proof. still. Qed.
Lemma still_kwait_scan p a l : ∀ hk, still (kwait_scan p a l hk).
Proof. induction l as [|i l IH]; intros hk; cbn [kwait_scan]; still. Qed.
#[local] Hint Resolve still_kfork still_kexit still_kwait_scan : still.
Lemma still_kwait_loop n p a : still (kwait_loop n p a).
Proof. induction n as [|n IH]; cbn [kwait_loop]; still. Qed.
#[local] Hint Resolve still_kwait_loop : still.
Lemma still_prepare_return : still prepare_return.
Proof. still. Qed.
#[local] Hint Resolve still_prepare_return : still.
Lemma still_forkret : still forkret.
Proof. still. Qed.
Lemma still_pause_loop n t m : still (pause_loop n t m).
Proof. induction n as [|n IH]; cbn [pause_loop]; still. Qed.
Lemma still_cons_kill_line n : still (cons_kill_line n).
Proof. induction n as [|n IH]; cbn [cons_kill_line]; still. Qed.
#[local] Hint Resolve still_pause_loop still_cons_kill_line : still.
Lemma still_consoleintr c : still (consoleintr c).
Proof. still. Qed.
#[local] Hint Resolve still_consoleintr : still.
Lemma still_uartintr_loop n : still (uartintr_loop n).
Proof. induction n as [|n IH]; cbn [uartintr_loop]; still. Qed.
#[local] Hint Resolve still_uartintr_loop : still.
Lemma still_devintr : still devintr.
Proof. still. Qed.
#[local] Hint Resolve still_devintr : still.
Lemma still_kerneltrap : still kerneltrap.
Proof. still. Qed.
Lemma still_argraw n : still (argraw n).
Proof. still. Qed.
#[local] Hint Resolve still_argraw : still.
Lemma still_syscalls fuel junk n (f : KM Z) : mjoin (syscalls fuel junk !! n) = Some f → still f.
Proof.
  assert (Hall : Forall (λ o : option (KM Z), ∀ f, o = Some f → still f) (syscalls fuel junk)).
  { unfold syscalls. repeat constructor; intros g [= <-]; still. }
  rewrite Forall_lookup in Hall. destruct (syscalls fuel junk !! n) as [o|] eqn:Hn; simpl; [|done].
  intros ->. by eapply Hall.
Qed.
Lemma still_syscall fuel junk : still (syscall fuel junk).
Proof.
  unfold syscall. apply still_bind; [still|]. intros p. apply still_bind; [still|]. intros a7.
  match goal with |- context [if ?b then mjoin ?x else None] =>
    destruct (if b then mjoin x else None) as [f|] eqn:Hf end; [|still].
  apply still_bind; [|intros; still]. case_match; [|done]. by eapply still_syscalls.
Qed.
#[local] Hint Resolve still_syscall : still.
Lemma still_usertrap fuel junk : still (usertrap fuel junk).
Proof. still. Qed.
Lemma still_scheduler_iter : still scheduler_iter.
Proof. still. Qed.
End code.
