(* ===== verification/FsStill.v ===== *)
(** * The file system does not touch saved kernel stacks

    The promise [still] of [Still] for the code of the file system, of pipes,
    of [exec] and of the disk driver. *)

From S2P Require Import Prelude Fsdata Kstate Spinlock Runqueue Sched Bytes Layout Kalloc Vm Printf Proc Console.
From S2P Require Import Syscall Trap Still Sleeplock Bio Log Fs Pipe File Exec Sysfile Virtio.
#[local] Open Scope Z_scope.

Lemma still_loop {X} n (m : KM (option X)) : still m → still (loop n m).
Proof.
  intros Hm. induction n as [|n IH]; simpl; [apply still_stop|].
  apply still_bind; [done|]. intros [v|]; [apply still_ret|done].
Qed.
Lemma still_while n (c : KM bool) (m : KM unit) : still c → still m → still (while_do n c m).
Proof.
  intros Hc Hm. induction n as [|n IH]; simpl; [apply still_stop|].
  apply still_bind; [done|]. intros []; [|apply still_ret]. by apply still_bind.
Qed.
Lemma still_for_below {X} n (b : KM Z) st (f : Z → KM (option X)) : ∀ i,
  still b → (∀ i, still (f i)) → still (for_below n b i st f).
Proof.
  induction n as [|n IH]; intros i Hb Hf; simpl; [apply still_stop|].
  apply still_bind; [done|]. intros k. case_match; [|apply still_ret].
  apply still_bind; [done|]. intros [v|]; [apply still_ret|by apply IH].
Qed.
#[local] Hint Extern 1 (still (loop _ _)) => (apply still_loop; still) : still.
#[local] Hint Extern 1 (still (while_do _ _ _)) => (apply still_while; still) : still.
#[local] Hint Extern 1 (still (for_below _ _ _ _ _)) => (apply still_for_below; [|intros ?]; still) : still.

Section code.
Context {SY : Symbols} (fuel : nat) (junk : list Z).
#[local] Hint Resolve still_kalloc still_kfree still_printf still_uvmfree still_mappages still_uvmunmap
  still_copyout still_argraw still_walk_levels still_copyin_loop still_copyinstr_loop still_uvmalloc_loop : still.

Lemma still_acquiresleep lk : still (acquiresleep fuel lk).
Proof. still. Qed.
Lemma still_releasesleep lk : still (releasesleep lk).
Proof. still. Qed.
Lemma still_holdingsleep lk : still (holdingsleep lk).
Proof. still. Qed.
#[local] Hint Resolve still_acquiresleep still_releasesleep still_holdingsleep : still.
Lemma still_bget_hit n dev bno : ∀ b, still (bget_hit n b dev bno).
Proof. induction n as [|n IH]; intros b; cbn [bget_hit]; still. Qed.
Lemma still_bget_recycle n dev bno : ∀ b, still (bget_recycle n b dev bno).
Proof. induction n as [|n IH]; intros b; cbn [bget_recycle]; still. Qed.
#[local] Hint Resolve still_bget_hit still_bget_recycle : still.

(** ** The disk driver *)

Lemma still_free_chain_loop n : ∀ i, still (free_chain_loop n i).
Proof. induction n as [|n IH]; intros i; cbn [free_chain_loop]; still. Qed.
Lemma still_alloc_descs n : ∀ idx, still (alloc_descs n idx).
Proof. induction n as [|n IH]; intros idx; cbn [alloc_descs]; still. Qed.
#[local] Hint Resolve still_free_chain_loop still_alloc_descs : still.
Lemma still_virtio_disk_rw {DS : DiskSymbols} b w : still (virtio_disk_rw fuel b w).
Proof. still. Qed.
Lemma still_virtio_disk_intr : still virtio_disk_intr.
Proof. still. Qed.

(** ** The file system *)

Context {DR : DiskRw} (DRs : ∀ b w, still (Bio.virtio_disk_rw b w)).
#[local] Hint Resolve DRs : still.
Lemma still_bread dev bno : still (bread fuel dev bno).
Proof. still. Qed.
Lemma still_bwrite b : still (bwrite b).
Proof. still. Qed.
Lemma still_brelse b : still (brelse b).
Proof. still. Qed.
#[local] Hint Resolve still_bread still_bwrite still_brelse : still.
Lemma still_for_log n (f : Z → KM unit) : (∀ i, still (f i)) → ∀ i, still (for_log n i f).
Proof. intros Hf. induction n as [|n IH]; intros i; cbn [for_log]; still. Qed.
#[local] Hint Extern 1 (still (for_log _ _ _)) => (apply still_for_log; intros ?; still) : still.
Lemma still_log_absorb n bno : ∀ i, still (log_absorb n i bno).
Proof. induction n as [|n IH]; intros i; cbn [log_absorb]; still. Qed.
#[local] Hint Resolve still_log_absorb : still.
Lemma still_install_trans r : still (install_trans fuel r).
Proof. still. Qed.
Lemma still_write_head : still (write_head fuel).
Proof. still. Qed.
#[local] Hint Resolve still_install_trans still_write_head : still.
Lemma still_begin_op : still (begin_op fuel).
Proof. still. Qed.
Lemma still_end_op : still (end_op fuel).
Proof. still. Qed.
Lemma still_log_write b : still (log_write b).
Proof. still. Qed.
#[local] Hint Resolve still_begin_op still_end_op still_log_write : still.
Lemma still_iget_scan ips dev inum : ∀ e, still (iget_scan ips e dev inum).
Proof. induction ips as [|ip ips IH]; intros e; cbn [iget_scan]; still. Qed.
#[local] Hint Resolve still_iget_scan : still.
Lemma still_iget dev inum : still (iget dev inum).
Proof. still. Qed.
Lemma still_balloc dev : still (balloc fuel dev).
Proof. still. Qed.
Lemma still_bfree dev b : still (bfree fuel dev b).
Proof. still. Qed.
Lemma still_iupdate ip : still (iupdate fuel ip).
Proof. still. Qed.
#[local] Hint Resolve still_iget still_balloc still_bfree still_iupdate : still.
Lemma still_ilock ip : still (ilock fuel ip).
Proof. still. Qed.
Lemma still_iunlock ip : still (iunlock ip).
Proof. still. Qed.
Lemma still_bmap ip bn : still (bmap fuel ip bn).
Proof. still. Qed.
Lemma still_itrunc ip : still (itrunc fuel ip).
Proof. still. Qed.
#[local] Hint Resolve still_ilock still_iunlock still_bmap still_itrunc : still.
Lemma still_iput ip : still (iput fuel ip).
Proof. still. Qed.
#[local] Hint Resolve still_iput : still.
Lemma still_fsinit dev : still (fsinit fuel dev).
Proof. still. Qed.
Lemma still_readi_loop n k ip : ∀ dst off tot acc, still (readi_loop fuel k ip dst off tot n acc).
Proof. induction k as [|k IH]; intros dst off tot acc; cbn [readi_loop]; still. Qed.
Lemma still_writei_loop n k ip : ∀ src off tot, still (writei_loop fuel k ip src off tot n).
Proof. induction k as [|k IH]; intros src off tot; cbn [writei_loop]; still. Qed.
#[local] Hint Resolve still_readi_loop still_writei_loop : still.
Lemma still_readi ip dst off n : still (readi fuel ip dst off n).
Proof. still. Qed.
Lemma still_writei ip src off n : still (writei fuel ip src off n).
Proof. still. Qed.
#[local] Hint Resolve still_readi still_writei : still.
Lemma still_dirlookup dp name : still (dirlookup fuel dp name).
Proof. still. Qed.
#[local] Hint Resolve still_dirlookup : still.
Lemma still_dirlink_find dp n : ∀ off, still (dirlink_find fuel n dp off).
Proof. induction n as [|n IH]; intros off; cbn [dirlink_find]; still. Qed.
#[local] Hint Resolve still_dirlink_find : still.
Lemma still_dirlink dp name inum : still (dirlink fuel dp name inum).
Proof. still. Qed.
Lemma still_namex_loop n np : ∀ ip path name, still (namex_loop fuel n ip path np name).
Proof. induction n as [|n IH]; intros ip path name; cbn [namex_loop]; still. Qed.
#[local] Hint Resolve still_dirlink still_namex_loop : still.
Lemma still_namex path np name : still (namex fuel path np name).
Proof. still. Qed.
#[local] Hint Resolve still_namex : still.

(** ** Pipes, files and [exec] *)

Lemma still_pipewrite_loop pr pi addr n k : ∀ i, still (pipewrite_loop k pr pi addr i n).
Proof. induction k as [|k IH]; intros i; cbn [pipewrite_loop]; still. Qed.
Lemma still_piperead_wait pr pi k : still (piperead_wait k pr pi).
Proof. induction k as [|k IH]; cbn [piperead_wait]; still. Qed.
Lemma still_piperead_copy pr pi addr k : ∀ i, still (piperead_copy k pr pi addr i).
Proof. induction k as [|k IH]; intros i; cbn [piperead_copy]; still. Qed.
Lemma still_uartwrite_wait n : still (uartwrite_wait n).
Proof. induction n as [|n IH]; cbn [uartwrite_wait]; still. Qed.
#[local] Hint Resolve still_pipewrite_loop still_piperead_wait still_piperead_copy still_uartwrite_wait : still.
Lemma still_consolewrite_loop u src n k : ∀ i, still (consolewrite_loop k u src i n).
Proof. induction k as [|k IH]; intros i; cbn [consolewrite_loop]; still. Qed.
Lemma still_consoleread_loop u n k : ∀ dst m, still (consoleread_loop k u dst m n).
Proof. induction k as [|k IH]; intros dst m; cbn [consoleread_loop]; still. Qed.
#[local] Hint Resolve still_consolewrite_loop still_consoleread_loop : still.
Lemma still_fileclose f : still (fileclose fuel f).
Proof. still. Qed.
#[local] Hint Resolve still_fileclose : still.
Lemma still_fileread f addr n : still (fileread fuel f addr n).
Proof. still. Qed.
Lemma still_filewrite_loop f addr n k : ∀ i, still (filewrite_loop fuel k f addr i n).
Proof. induction k as [|k IH]; intros i; cbn [filewrite_loop]; still. Qed.
#[local] Hint Resolve still_fileread still_filewrite_loop : still.
Lemma still_loadseg_loop pt va ip offset sz k : ∀ i, still (loadseg_loop fuel k pt va ip offset i sz).
Proof. induction k as [|k IH]; intros i; cbn [loadseg_loop]; still. Qed.
#[local] Hint Resolve still_loadseg_loop : still.
Lemma still_exec_segments pt ip n : ∀ off sz, still (exec_segments fuel n pt ip off sz).
Proof. induction n as [|n IH]; intros off sz; cbn [exec_segments]; still. Qed.
Lemma still_exec_args argv : ∀ argc pt sp base us, still (exec_args argv argc pt sp base us).
Proof. induction argv as [|a argv IH]; intros argc pt sp base us; cbn [exec_args]; still. Qed.
#[local] Hint Resolve still_exec_segments still_exec_args : still.
Lemma still_exec_stack path argv pt sz entry : still (exec_stack fuel path argv pt sz entry).
Proof. still. Qed.
#[local] Hint Resolve still_exec_stack : still.
Lemma still_kexec path argv : still (kexec fuel junk path argv).
Proof. still. Qed.
#[local] Hint Resolve still_kexec : still.

(** ** System calls *)

Lemma still_sys_dup : still sys_dup.
Proof. still. Qed.
Lemma still_sys_read : still (sys_read fuel).
Proof. still. Qed.
Lemma still_sys_write : still (sys_write fuel).
Proof. still. Qed.
Lemma still_sys_close : still (sys_close fuel).
Proof. still. Qed.
Lemma still_sys_fstat : still (sys_fstat fuel junk).
Proof. still. Qed.
Lemma still_sys_link : still (sys_link fuel junk).
Proof. still. Qed.
Lemma still_sys_unlink : still (sys_unlink fuel junk).
Proof. still. Qed.
Lemma still_create path t ma mi : still (create fuel junk path t ma mi).
Proof. still. Qed.
Lemma still_open_inode ip om : still (open_inode fuel ip om).
Proof. still. Qed.
Lemma still_exec_fetch n : ∀ ua i pages strs, still (exec_fetch n ua i pages strs).
Proof. induction n as [|n IH]; intros ua i pages strs; cbn [exec_fetch]; still. Qed.
#[local] Hint Resolve still_create still_open_inode still_exec_fetch : still.
Lemma still_sys_open : still (sys_open fuel junk).
Proof. still. Qed.
Lemma still_sys_mkdir : still (sys_mkdir fuel junk).
Proof. still. Qed.
Lemma still_sys_mknod : still (sys_mknod fuel junk).
Proof. still. Qed.
Lemma still_sys_chdir : still (sys_chdir fuel junk).
Proof. still. Qed.
Lemma still_sys_exec : still (sys_exec fuel junk).
Proof. still. Qed.
Lemma still_sys_pipe : still (sys_pipe fuel).
Proof. still. Qed.
End code.
