(* ===== verification/Kernel.v ===== *)
(** * The kernel put together

    The instances of the interfaces [FsOps], [SysFileOps], [DiskOps] and
    [DiskRw] by the code of the file system, [exec] and the disk driver, and
    the proofs that they keep the promises their clients rely on. *)

From S2P Require Import Prelude Fsdata Kstate Spinlock Runqueue Sched SchedInv Bytes Layout Kalloc Vm Printf.
From S2P Require Import Quiet Keeps Proc ProcInv Console Syscall Trap TrapInv Sleeplock Bio Log Fs Pipe File.
From S2P Require Import Exec Sysfile Virtio FsInv Still FsStill.
#[local] Open Scope Z_scope.

Section kernel.
Context {SY : Symbols} {DS : DiskSymbols} (fuel : nat) (junk : list Z).

#[local] Instance kernel_disk_rw : DiskRw := {| Bio.virtio_disk_rw := Virtio.virtio_disk_rw fuel |}.
#[local] Instance kernel_fs : FsOps := {|
  Proc.filedup := File.filedup; Proc.fileclose := File.fileclose fuel; Proc.idup := Fs.idup;
  Proc.iput := Fs.iput fuel; Proc.begin_op := Log.begin_op fuel; Proc.end_op := Log.end_op fuel;
  Proc.namei := Fs.namei fuel junk; Proc.fsinit := Fs.fsinit fuel; Proc.kexec := Exec.kexec fuel junk
|}.
#[local] Instance kernel_sysfile : SysFileOps := {|
  Syscall.sys_pipe := Sysfile.sys_pipe fuel; Syscall.sys_read := Sysfile.sys_read fuel;
  Syscall.sys_exec := Sysfile.sys_exec fuel junk; Syscall.sys_fstat := Sysfile.sys_fstat fuel junk;
  Syscall.sys_chdir := Sysfile.sys_chdir fuel junk; Syscall.sys_dup := Sysfile.sys_dup;
  Syscall.sys_open := Sysfile.sys_open fuel junk; Syscall.sys_write := Sysfile.sys_write fuel;
  Syscall.sys_mknod := Sysfile.sys_mknod fuel junk; Syscall.sys_unlink := Sysfile.sys_unlink fuel junk;
  Syscall.sys_link := Sysfile.sys_link fuel junk; Syscall.sys_mkdir := Sysfile.sys_mkdir fuel junk;
  Syscall.sys_close := Sysfile.sys_close fuel
|}.
#[local] Instance kernel_disk : DiskOps := {| Trap.virtio_disk_intr := Virtio.virtio_disk_intr |}.

(** ** The promises *)

Context (E : stop → Prop) (HE : ∀ e, soft_stop e → E e) (HF : ∀ e, fs_stop e → E e).

Lemma kernel_rw p b w : pkeeps E p (Bio.virtio_disk_rw b w).
Proof. by apply keeps_virtio_disk_rw. Qed.
Lemma quiet_namei_root : quiet E {[itable_lock]} (Fs.namei fuel junk (str "/")).
Proof.
  unfold Fs.namei, namex. change (char0 (str "/") =? chr "/") with true. cbv iota.
  apply quiet_bind; [|intros; apply quiet_ret]. apply quiet_bind; [by apply quiet_iget|]. intros ip. apply quiet_ret.
Qed.
Ltac promise lem := eapply lem; first [exact HE|exact HF|exact kernel_rw].
Lemma kernel_fs_ok : FsOk E.
Proof.
  split; intros; simpl.
  - by apply quiet_filedup.
  - by apply quiet_idup.
  - apply quiet_namei_root.
  - promise keeps_fileclose.
  - promise keeps_iput.
  - promise keeps_begin_op.
  - promise keeps_end_op.
  - promise keeps_fsinit.
  - promise keeps_kexec.
Qed.
Lemma kernel_sysfile_ok : SysFileOk E.
Proof.
  split; intros; simpl.
  - promise keeps_sys_pipe.
  - promise keeps_sys_read.
  - promise keeps_sys_exec.
  - promise keeps_sys_fstat.
  - promise keeps_sys_chdir.
  - promise keeps_sys_dup.
  - promise keeps_sys_open.
  - promise keeps_sys_write.
  - promise keeps_sys_mknod.
  - promise keeps_sys_unlink.
  - promise keeps_sys_link.
  - promise keeps_sys_mkdir.
  - promise keeps_sys_close.
Qed.
Lemma kernel_disk_ok : DiskOk E.
Proof. split. intros. by apply keeps_virtio_disk_intr. Qed.

Lemma kernel_rw_still b w : still (Bio.virtio_disk_rw b w).
Proof. apply still_virtio_disk_rw. Qed.
Lemma kernel_fs_still : FsStill.
Proof.
  split; intros; simpl.
  - still.
  - apply still_fileclose, kernel_rw_still.
  - still.
  - apply still_iput, kernel_rw_still.
  - apply still_begin_op.
  - apply still_end_op, kernel_rw_still.
  - apply still_bind; [apply still_namex, kernel_rw_still|]. intros. apply still_ret.
  - apply still_fsinit, kernel_rw_still.
  - apply still_kexec, kernel_rw_still.
Qed.
Lemma kernel_sysfile_still : SysFileStill.
Proof.
  pose proof kernel_rw_still. split; simpl; auto using still_sys_pipe, still_sys_read, still_sys_exec,
    still_sys_fstat, still_sys_chdir, still_sys_dup, still_sys_open, still_sys_write, still_sys_mknod,
    still_sys_unlink, still_sys_link, still_sys_mkdir, still_sys_close.
Qed.
Lemma kernel_disk_still : DiskStill.
Proof. split. apply still_virtio_disk_intr. Qed.
End kernel.
