(* ===== verification/Machine.v ===== *)
(** * One hart: user programs, traps, kernel threads and the scheduler

    The machine puts the pieces together.  A configuration says who has the
    hart: the scheduler, a process inside the kernel, or a process in user
    mode; it holds the suspended calls of [swtch] on the kernel stacks, and
    the suspended call of the scheduler.  A step runs kernel code up to its
    next context switch, transfers control as [swtch] does, or lets the
    outside world act: user programs and devices change memory, registers and
    device state as they like, and cause traps.

    Interrupts are taken in user mode and between two turns of the scheduler
    loop. *)

From S2P Require Import Prelude Kstate Spinlock Runqueue Sched SchedInv Bytes Layout Kalloc Vm Printf Quiet.
From S2P Require Import Keeps Proc ProcInv Console Syscall Trap TrapInv Still.
#[local] Open Scope Z_scope.

Inductive mode :=
| Idle (s : kstate)                          (* between two turns of the scheduler loop *)
| SchedRun (m : res kstate bool)             (* a turn of the scheduler loop *)
| ProcRun (p : nat) (m : res kstate Z)       (* process [p] in the kernel *)
| UserMode (p : nat) (s : kstate)            (* process [p] in user mode *)
| Dead (e : stop).                           (* the kernel has stopped *)

Record machine := mk_machine {
  m_mode : mode;
  m_kstacks : gmap nat (kstate → res kstate Z);
  m_sched : kstate → res kstate bool
}.

(** what user programs and devices may change *)
Definition outside (s s' : kstate) : Prop :=
  k_pt s' = k_pt s ∧ k_saved s' = k_saved s ∧
  ∃ x, k_lk s' = (k_lk s) <| lk_sstatus ::= <[lk_tp (k_lk s) := x]> |>.

(** [swtch] saves the stack of a live process *)
Definition is_live_at (p : nat) (s : kstate) : bool :=
  match procs (k_pt s) !! p with Some r => is_live (p_state r) | None => false end.
Definition park (p : nat) (s : kstate) : kstate :=
  s <| k_saved ::= λ X, if is_live_at p s then {[p]} ∪ X else X ∖ {[p]} |>.

Section machine.
Context {SY : Symbols} {FS : FsOps} {SF : SysFileOps} {DO : DiskOps}.

(** [swtch] to process [p]: where its saved return address leads *)
Definition switch_to (ks : gmap nat (kstate → res kstate Z)) (p : nat) (s : kstate) : res kstate Z :=
  match procs (k_pt s) !! p with
  | Some r =>
      match ctx_ra (p_context r), ks !! p with
      | ra_forkret, _ => forkret s
      | ra_sched, Some k => k s
      | _, _ => Stop StopFault
      end
  | None => Stop StopFault
  end.

Inductive step : machine → machine → Prop :=
| step_turn s ks sk :
    step (mk_machine (Idle s) ks sk) (mk_machine (SchedRun (scheduler_iter s)) ks sk)
| step_idle_trap s s1 s2 ks sk :
    outside s s1 → from_kernel s1 → is_interrupt s1 → kerneltrap s1 = Done tt s2 →
    step (mk_machine (Idle s) ks sk) (mk_machine (Idle s2) ks sk)
| step_idle_stop s s1 e ks sk :
    outside s s1 → from_kernel s1 → is_interrupt s1 → kerneltrap s1 = Stop e →
    step (mk_machine (Idle s) ks sk) (mk_machine (Dead e) ks sk)
| step_sched_done b s ks sk :
    step (mk_machine (SchedRun (Done b s)) ks sk) (mk_machine (Idle s) ks sk)
| step_sched_stop e ks sk :
    step (mk_machine (SchedRun (Stop e)) ks sk) (mk_machine (Dead e) ks sk)
| step_sched_switch s k p ks sk :
    cur_proc (k_lk s) = Some p →
    step (mk_machine (SchedRun (Swtch s k)) ks sk) (mk_machine (ProcRun p (switch_to ks p s)) ks k)
| step_proc_done p v s ks sk :
    step (mk_machine (ProcRun p (Done v s)) ks sk) (mk_machine (UserMode p s) ks sk)
| step_proc_stop p e ks sk :
    step (mk_machine (ProcRun p (Stop e)) ks sk) (mk_machine (Dead e) ks sk)
| step_proc_switch p s k ks sk :
    step (mk_machine (ProcRun p (Swtch s k)) ks sk) (mk_machine (SchedRun (sk (park p s))) (<[p := k]> ks) sk)
| step_user_trap p s s1 fuel junk ks sk :
    outside s s1 → from_user s1 →
    step (mk_machine (UserMode p s) ks sk) (mk_machine (ProcRun p (usertrap fuel junk s1)) ks sk).

(** ** The invariant *)

Context (E : stop → Prop) (HE : ∀ e, soft_stop e → E e).
Context {FSok : FsOk E} {SFok : SysFileOk E} {DOok : DiskOk E}.
Context {FSs : FsStill} {SFs : SysFileStill} {DOs : DiskStill}.

(** a run of process [p] that started with the stacks [X] saved *)
Definition proc_run_ok (X : gset nat) (p : nat) (m : res kstate Z) : Prop :=
  wp_proc E p m (λ _, kinv (Some p) ∅) ∧ still_run X m.
Definition sched_run_ok (X : gset nat) (m : res kstate bool) : Prop :=
  wp_sched_thread E m (λ _, kinv None ∅) ∧ still_run X m.
(** the saved stacks can be resumed *)
Definition stacks_ok (X : gset nat) (ks : gmap nat (kstate → res kstate Z)) : Prop :=
  ∀ i, i ∈ X → ∃ k, ks !! i = Some k ∧ ∀ s, resumed i s → proc_run_ok (k_saved s) i (k s).
(** the scheduler can go on after [p] *)
Definition sched_ok (p : nat) (sk : kstate → res kstate bool) : Prop :=
  ∀ s, returned p s → sched_run_ok (k_saved s) (sk s).

Definition machine_ok (m : machine) : Prop :=
  match m_mode m with
  | Idle s => kinv None ∅ s ∧ stacks_ok (k_saved s) (m_kstacks m)
  | SchedRun r => ∃ X, sched_run_ok X r ∧ stacks_ok X (m_kstacks m)
  | ProcRun p r => ∃ X, proc_run_ok X p r ∧ stacks_ok X (m_kstacks m) ∧ sched_ok p (m_sched m)
  | UserMode p s => kinv (Some p) ∅ s ∧ stacks_ok (k_saved s) (m_kstacks m) ∧ sched_ok p (m_sched m)
  | Dead e => E e
  end.

Lemma kinv_outside o s s' : outside s s' → kinv o ∅ s → kinv o ∅ s'.
Proof.
  intros (Hp & Hs & x & Hk) [Hlk Hcur Hwf Hsv]. split.
  - rewrite Hk. by apply lockinv_sstatus.
  - by rewrite Hk.
  - by rewrite Hp.
  - by rewrite Hp, Hs.
Qed.

(** the switch from a process to the scheduler *)
Lemma parked_returned p s : parked p s → returned p (park p s).
Proof.
  intros (Hlk & Hcur & Hp & Hsv & Hqs). split_and!; [done|done|done| |done].
  intros i r Hi Hl Hc. left. simpl in Hi |- *. destruct (Hsv i r Hi Hl Hc) as [HX|[= <-]].
  - case_match; [set_solver|]. destruct (decide (i = p)) as [->|]; [|set_solver].
    unfold is_live_at in *. rewrite Hi in *. congruence.
  - unfold is_live_at. rewrite Hi, Hl. set_solver.
Qed.
Lemma stacks_park p s k X ks :
  stacks_ok X ks → k_saved s = X → (live_at p s → ∀ s', resumed p s' → proc_run_ok (k_saved s') p (k s')) →
  stacks_ok (k_saved (park p s)) (<[p := k]> ks).
Proof.
  intros Hks HX Hk i. unfold park. simpl. rewrite HX.
  assert (Hl : is_live_at p s = true → live_at p s).
  { unfold is_live_at, live_at. destruct (procs (k_pt s) !! p) as [r|]; [|done]. eauto. }
  destruct (decide (i = p)) as [->|Hne].
  - destruct (is_live_at p s) eqn:Hlv; [|set_solver]. intros _. exists k. rewrite lookup_insert_eq. eauto.
  - intros Hi. rewrite lookup_insert_ne by done. apply Hks. case_match; set_solver.
Qed.

(** the switch from the scheduler to a process *)
Lemma switch_to_ok X ks p s :
  dispatched p s → k_saved s = X → stacks_ok X ks → proc_run_ok X p (switch_to ks p s).
Proof.
  intros [Hres Hsv] HX Hks. pose proof Hres as [_ _ (qs & Hwf) _]. pose proof (kinv_lt _ _ _ Hres) as Hp.
  unfold switch_to. destruct (wfq_lookup _ _ _ _ Hwf Hp) as [r Hr]. rewrite Hr.
  destruct (wfq_proc _ _ _ Hwf _ _ Hr) as ((_ & _ & Hz) & Hrun & _).
  assert (Hl : is_live (p_state r) = true) by (by rewrite (proj2 Hrun)).
  destruct (ctx_ra (p_context r)) eqn:Hc; [by destruct Hz| |].
  - subst X. split; [by apply wp_forkret|apply still_forkret].
  - destruct (Hsv p r Hr Hl Hc) as [Hin|]; [|done]. rewrite HX in Hin.
    destruct (Hks p Hin) as (k & -> & Hk). rewrite <- HX. by apply Hk.
Qed.

Lemma step_ok m m' : step m m' → machine_ok m → machine_ok m'.
Proof.
  intros Hstep Hok. destruct Hstep; unfold machine_ok in *; simpl in *.
  - destruct Hok as [Hs Hks]. exists (k_saved s). split; [|done].
    split; [by apply wp_scheduler_iter_kinv|apply still_scheduler_iter].
  - destruct Hok as [Hs Hks]. apply (kinv_outside _ _ s1) in Hs; [|done].
    pose proof (wp_kerneltrap_idle E HE (λ _, False) (λ _ _, False) s1 (λ _, kinv None ∅) Hs) as Hw.
    pose proof (still_kerneltrap s1) as Hst. rewrite H2 in Hw, Hst. simpl in Hst.
    split; [by apply Hw|]. rewrite Hst. destruct H as (_ & -> & _). done.
  - destruct Hok as [Hs Hks]. apply (kinv_outside _ _ s1) in Hs; [|done].
    pose proof (wp_kerneltrap_idle E HE (λ _, False) (λ _ _, False) s1 (λ _, kinv None ∅) Hs) as Hw.
    rewrite H2 in Hw. by apply Hw.
  - destruct Hok as (X & [Hw Hst] & Hks). simpl in Hst. subst X. by split.
  - by destruct Hok as (X & [Hw _] & _).
  - destruct Hok as (X & [[(p' & Hd) Hk] [HX Hst]] & Hks). simpl in *.
    assert (p' = p) as -> by (pose proof (kinv_cur _ _ _ (proj1 Hd)); congruence).
    exists X. split; [by apply switch_to_ok|]. split; [done|]. intros s' Hs'. split; [|apply Hst]. by apply Hk; exists p.
  - destruct Hok as (X & [Hw Hst] & Hks & Hsk). simpl in Hst. subst X. by split.
  - by destruct Hok as (X & [Hw _] & _).
  - destruct Hok as (X & [[Hpk Hk] [HX Hst]] & Hks & Hsk). simpl in *.
    exists (k_saved (park p s)). split; [by apply Hsk, parked_returned|]. eapply stacks_park; [done|done|].
    intros Hl s' Hs'. split; [|apply Hst]. by apply Hk.
  - destruct Hok as (Hs & Hks & Hsk). exists (k_saved s). split; [|done].
    pose proof (still_usertrap fuel junk s1) as Hst. destruct H as (Hp & Hsv & Hx). rewrite Hsv in Hst.
    split; [|done]. refine (wp_usertrap E HE p fuel junk s1 _ _ _ _); [by apply (kinv_outside _ s)|done|done].
Qed.
End machine.
