(* ===== verification/Main.v ===== *)
(** * Boot, [kernel/main.c], and the kernel on one hart

    [main] on hart 0 up to its call of [scheduler], and the first lines of
    [scheduler]; from the state the loader leaves it establishes the
    scheduling invariant.  The theorems about the whole kernel are here, with
    the file system and the disk driver in place of their interfaces. *)

From S2P Require Import Prelude Fsdata Kstate Spinlock Runqueue Sched SchedInv Bytes Layout Kalloc Vm Printf.
From S2P Require Import Quiet Keeps Proc ProcInv Console Syscall Trap TrapInv Sleeplock Bio Log Fs Pipe File.
From S2P Require Import Exec Sysfile Virtio FsInv Still FsStill Kernel Machine.
#[local] Open Scope Z_scope.
#[local] Arguments seq : simpl never.

Section code.
Context {SY : Symbols} {FS : FsOps}.

(** hart 0; [scheduler] starts with [c->proc = 0] *)
Definition main : KM unit :=
  consoleinit ;;
  printfinit ;;
  printf [10] [] ;;
  printf (str "xv6 kernel is booting" ++ [10]) [] ;;
  printf [10] [] ;;
  kinit ;;
  kvminit ;;
  kvminithart ;;
  procinit ;;
  trapinit ;;
  trapinithart ;;
  plicinit ;;
  plicinithart ;;
  binit ;;
  iinit ;;
  fileinit ;;
  virtio_disk_init ;;
  userinit ;;
  scheduler_start.
(** the other harts, once hart 0 has set [started] *)
Definition main_hart : KM unit :=
  let* id := cpuid in
  printf (str "hart %d starting" ++ [10]) [Aint (Z.of_nat id)] ;;
  kvminithart ;;
  trapinithart ;;
  plicinithart ;;
  scheduler_start.
End code.

(** the state the loader leaves: hart 0 executes, every variable of the
    scheduler has its initial value; memory, registers and devices are
    arbitrary *)
Definition loaded (s : kstate) : Prop :=
  k_lk s = k_lk kstate0 ∧ k_pt s = ptable0 ∧ k_saved s = ∅.

(** ** The process table at boot *)

Definition fresh (r : proc) : Prop :=
  is_live (p_state r) = false ∧ p_queue_level r = 0 ∧ p_time_in_queue r = 0.
Definition booting (s : kstate) : Prop := kinv None ∅ s ∧ Forall fresh (procs (k_pt s)).
Lemma fresh_ok r : fresh r → proc_ok r.
Proof.
  intros (Hl & Hq & Ht). split; [unfold level_ok; by rewrite Hq|]. rewrite Hq, Ht, Hl. by split.
Qed.

Lemma loaded_booting s : loaded s → booting s.
Proof.
  intros (Hlk & Hpt & Hsv). unfold booting. rewrite Hpt. split; [split|].
  - rewrite Hlk. apply lockinv0.
  - by rewrite Hlk.
  - rewrite Hpt. exists [[]; []; []; []]. apply wfq_check; [done|apply qrep0|done|by vm_compute].
  - rewrite Hpt, Hsv. apply saved_check. by vm_compute.
  - apply Forall_replicate. by split.
Qed.

Section boot.
Context {SY : Symbols} {FS : FsOps} (E : stop → Prop) (HE : ∀ e, soft_stop e → E e) (HF : ∀ e, fs_stop e → E e).
Context {FSok : FsOk E} (G : kstate → Prop) (R : kstate → kstate → Prop).
#[local] Abbreviation wpk := (wp E G R).
Lemma boot_vm e : vm_stop e → E e.
Proof. by apply soft_vm. Qed.
Lemma boot_fault : E StopFault.
Proof. by apply boot_vm. Qed.
Lemma boot_fuel : E StopFuel.
Proof. by apply boot_vm. Qed.
Lemma boot_frozen : E StopFrozen.
Proof. by apply soft_frozen. Qed.
Lemma boot_panic msg : bool_decide (msg ∈ vm_panics) = true → E (StopPanic msg).
Proof. intros Hm. apply boot_vm. by apply bool_decide_eq_true_1 in Hm. Qed.
#[local] Hint Resolve boot_vm boot_fault boot_fuel boot_frozen : quiet.
#[local] Hint Extern 1 (quiet _ _ (panic _)) => (apply quiet_stop, boot_panic; done) : quiet.
#[local] Hint Resolve quiet_kfree quiet_kalloc quiet_mappages quiet_printf : quiet.

#[local] Hint Resolve quiet_initlock : quiet.
Lemma quiet_consoleinit : quiet E {[cons_lock; tx_lock]} consoleinit.
Proof.
  unfold consoleinit, uartinit. apply quiet_bind; [eapply quiet_mono; [|apply quiet_initlock]; set_solver|].
  intros _. quiet. eapply quiet_mono; [|apply quiet_initlock]; set_solver.
Qed.
Lemma quiet_freerange_loop n : ∀ p e, quiet E {[kmem_lock]} (freerange_loop p e n).
Proof. induction n as [|n IH]; intros p e; cbn [freerange_loop]; quiet. Qed.
#[local] Hint Resolve quiet_freerange_loop : quiet.
Lemma quiet_kinit : quiet E {[kmem_lock]} kinit.
Proof. unfold kinit, freerange. quiet. Qed.
Lemma quiet_kvmmap pt va pa sz perm : quiet E {[kmem_lock]} (kvmmap pt va pa sz perm).
Proof. unfold kvmmap. quiet. Qed.
#[local] Hint Resolve quiet_kvmmap : quiet.
Lemma quiet_kvminit : quiet E {[kmem_lock]} kvminit.
Proof. unfold kvminit, kvmmake, proc_mapstacks. quiet. Qed.

(** a write to an entry of a table that is being set up *)
Lemma wp_upd_fresh i g s (Q : unit → kstate → Prop) :
  booting s → (i < NPROC)%nat → (∀ r, fresh r → fresh (g r)) → (∀ s', booting s' → Q tt s') →
  wpk (upd_proc i g s) Q.
Proof.
  intros [Hs Hfr] Hi Hg HQ. pose proof Hs as [_ _ (qs & Hwf) _]. destruct (wfq_lookup _ _ _ _ Hwf Hi) as [r Hr].
  assert (Hf : fresh r) by (by eapply (Forall_lookup_1 fresh)). pose proof (Hg r Hf) as Hf'.
  eapply wp_upd_proc; [done|]. apply HQ. split.
  - eapply kinv_upd_idle; [done|done|apply Hf|apply Hf'|by apply fresh_ok].
  - simpl. by apply Forall_insert.
Qed.
Lemma wp_quiet_booting {A} L (m : KM A) s (Q : A → kstate → Prop) :
  quiet E L m → booting s → (∀ a s', booting s' → Q a s') → wpk (m s) Q.
Proof.
  intros Hm [Hs Hfr] HQ. apply (Hm G R ∅ s); [apply Hs|set_solver|]. intros a s' Hlk Hf Hp. apply HQ.
  split; [by eapply kinv_same_pt|]. by rewrite (proj1 Hp).
Qed.
Lemma wp_procinit s (Q : unit → kstate → Prop) :
  booting s → (∀ s', booting s' → Q tt s') → wpk (procinit s) Q.
Proof.
  intros Hs HQ. unfold procinit.
  do 4 (apply wp_bind; eapply wp_quiet_booting; [apply quiet_initlock|eassumption|];
    clear dependent s; intros _ s Hs).
  eapply wp_mono; [|apply (wp_for_each _ _ _ all_procs _ (λ _, booting))].
  - intros [] s'. apply HQ.
  - done.
  - intros dn p rst t Heq Ht. apply seq_middle in Heq as [_ Hlt].
    apply wp_bind. eapply wp_quiet_booting; [apply quiet_initlock|done|]. clear dependent t. intros _ t Ht.
    do 5 (apply wp_bind; eapply wp_upd_fresh; [done|done|by intros r (? & ? & ?)|]; clear dependent t; intros t Ht).
    by eapply wp_upd_fresh; [done|done|intros r (? & ? & ?)|].
Qed.

(** the first process is runnable, and in no queue *)
Lemma wp_userinit s (Q : unit → kstate → Prop) :
  kinv None ∅ s → (∀ s', kinv None ∅ s' → Q tt s') → wpk (userinit s) Q.
Proof.
  intros Hs HQ. unfold userinit. apply wp_bind. eapply wp_allocproc; [done|done|set_solver|set_solver|].
  intros [p|] s1 H1; [|apply wp_bind, wp_done, boot_fault].
  destruct H1 as [Hp Hh]. rewrite (right_id_L ∅ (∪)) in Hh. apply wp_bind, wp_done.
  assert (H2 : held p new_proc None {[p_lock p]} (s1 <| k_pt ::= λ t, t <| initproc := Some p |> |>)).
  { destruct Hh as [[Hlk Hcur (qs & Hwf) Hsv] Hr]. split; [|done]. split; [done|done| |done].
    exists qs. by eapply wfq_globals. }
  apply wp_bind, wp_done. apply wp_bind. eapply (wp_quiet_held _ _ _ {[itable_lock]});
    [apply namei_root_ok|exact H2|set_solver|]. intros cwd s3 H3.
  upd_held new_proc s4 H4. destruct H4 as [[Hlk Hcur (qs & Hwf) Hsv] (r & Hr & Hid & Hst & Hc & _)].
  destruct (wfq_ready _ _ _ _ _ Hwf Hr Hid) as [Hwf' Hnin]; [by rewrite Hc|].
  apply wp_bind. eapply wp_upd_proc; [done|].
  eapply (wp_release_kinv _ _ _ _ None ∅); [|set_solver|by intros; apply HQ].
  rewrite (right_id_L ∅ (∪)). split; [done|done|by exists qs|].
  eapply saved_ok_upd; [done..|]. simpl. by rewrite Hc.
Qed.

Lemma wp_main s (Q : unit → kstate → Prop) :
  loaded s → (∀ s', kinv None ∅ s' → Q tt s') → wpk (main s) Q.
Proof.
  intros Hs%loaded_booting HQ. unfold main.
  do 8 (apply wp_bind; eapply wp_quiet_booting;
    [first [apply quiet_consoleinit|apply quiet_initlock|apply (quiet_printf E boot_fault boot_fuel boot_frozen)|apply quiet_kinit
           |apply quiet_kvminit|apply (quiet_modify E ∅); done]|eassumption|]; clear dependent s; intros _ s Hs).
  apply wp_bind, wp_procinit; [done|]. clear dependent s. intros s [Hs _].
  match goal with |- wp _ _ _ (?m s) _ => assert (Hk : keeps E G R None ∅ ∅ m) end.
  { assert (Hu : keeps E G R None ∅ ∅ userinit) by (intros t Q' Ht HQ'; apply wp_userinit; [done|eauto]).
    assert (Hsc : keeps E G R None ∅ ∅ scheduler_start).
    { intros t Q' Ht HQ'. eapply wp_set_c_proc; [apply Ht|]. intros k Hk Hcs Hc. apply HQ'.
      destruct Ht as [? Hcur ? ?]. by split. }
    pose proof (keeps_binit E HE). pose proof (keeps_iinit E HE). pose proof (keeps_virtio_disk_init E HE HF). unfold fileinit, trapinit, trapinithart, plicinit, plicinithart. keeps. }
  apply Hk; [done|]. intros [] s'. apply HQ.
Qed.

#[local] Hint Resolve namei_still : still.
Lemma still_freerange_loop n : ∀ p e, still (freerange_loop p e n).
Proof. induction n as [|n IH]; intros p e; cbn [freerange_loop]; still. Qed.
#[local] Hint Resolve still_freerange_loop still_printf still_kalloc still_mappages still_freeproc still_uvmfree
  still_uvmunmap : still.
Lemma still_main {FSs : FsStill} : still main.
Proof. still. Qed.
End boot.

(** ** The kernel on one hart *)

(** the ways in which the kernel may stop *)
Definition kernel_stop (e : stop) : Prop := soft_stop e ∨ fs_stop e.
(** what is promised of a configuration *)
Definition machine_safe (m : machine) : Prop :=
  match m_mode m with
  | Idle s => kinv None ∅ s
  | SchedRun (Swtch s _) => ∃ p, dispatched p s
  | ProcRun p (Swtch s _) => parked p s
  | UserMode p s => kinv (Some p) ∅ s
  | Dead e => kernel_stop e
  | _ => True
  end.

Section system.
Context {SY : Symbols} {DS : DiskSymbols} (fuel : nat) (junk : list Z).
#[local] Instance system_fs : FsOps := kernel_fs fuel junk.
#[local] Instance system_sysfile : SysFileOps := kernel_sysfile fuel junk.
#[local] Existing Instance kernel_disk.
#[local] Instance system_fs_ok : FsOk kernel_stop.
Proof. apply kernel_fs_ok; intros e; [by left|by right]. Qed.
#[local] Instance system_sysfile_ok : SysFileOk kernel_stop.
Proof. apply kernel_sysfile_ok; intros e; [by left|by right]. Qed.
#[local] Instance system_disk_ok : DiskOk kernel_stop.
Proof. apply kernel_disk_ok; intros e; [by left|by right]. Qed.
#[local] Instance system_fs_still : FsStill := kernel_fs_still fuel junk.
#[local] Instance system_sysfile_still : SysFileStill := kernel_sysfile_still fuel junk.
#[local] Existing Instance kernel_disk_still.



(** C17: a process that exits never returns to its caller: [kexit] ends in the
    contract with the scheduler as a zombie, and its last [swtch] is never
    resumed, so the panic "zombie exit" cannot occur. *)
Theorem kexit_never_returns p status s :
  kinv (Some p) ∅ s → wp_proc (kernel_stop) p (kexit (A:=unit) status s) (λ _ _, False).
Proof. intros Hs. refine (wp_kexit kernel_stop _ p status s _ Hs). by left. Qed.
End system.

(** *** Witnesses *)

Module Witness.
#[local] Existing Instance two_pages.
#[local] Instance syms : DiskSymbols := {| sym_op _ := 0; sym_data _ := 0; sym_status _ := 0 |}.
#[local] Instance fs : FsOps := system_fs 1 [].



Definition demo_exiting : kstate :=
  demo_running <| k_pt ::= λ t, t <| procs ::= alter (λ r, r <| p_cwd := Some 0%nat |>) 4%nat |> |>.
Lemma kexit_never_returns_witness :
  ∃ s1 k, kexit (A:=unit) 7 demo_exiting = Swtch s1 k ∧ parked 4 s1.
Proof.
  assert (Hinv : kinv (Some 4%nat) ∅ demo_exiting).
  { split; [apply demo_running_kinv|done| |].
    - exists [[]; [3%nat]; [5%nat]; []]. apply wfq_check; [done|solve_qrep|by compute; lia|by vm_compute].
    - apply saved_check. by vm_compute. }
  assert (Hsw : switches (kexit (A:=unit) 7 demo_exiting) = true) by (by vm_compute).
  destruct (wp_proc_switches _ _ _ _ (kexit_never_returns 1 [] 4 7 demo_exiting Hinv) Hsw) as (s1 & k & He & Hp).
  exists s1, k. exact (conj He Hp).
Defined.
End Witness.
