(* ===== verification/Grep.v ===== *)
(** * The pattern matcher and the line filter of [user/grep.c]

    A string is the list of its characters, and its end stands for the NUL.
    The matcher is compared with the usual meaning of a pattern.  The filter
    reads its input in pieces of any size; it is compared with the selection
    of the lines that match. *)

From S2P Require Import Prelude.
#[local] Open Scope Z_scope.

(** ** The matcher *)

(** [matchhere]; its call of [matchstar] is the inner loop *)
Fixpoint matchhere (re text : list Z) {struct re} : bool :=
  match re with
  | [] => true
  | c :: re1 =>
      match re1 with
      | s :: re2 =>
          if s =? chr "*" then
            (fix matchstar (text : list Z) : bool :=
               if matchhere re2 text then true
               else match text with
                    | [] => false
                    | t :: text => if (t =? c) || (c =? chr ".") then matchstar text else false
                    end) text
          else
            match text with
            | t :: text => if (c =? chr ".") || (c =? t) then matchhere re1 text else false
            | [] => false
            end
      | [] =>
          if c =? chr "$" then (match text with [] => true | _ => false end)
          else
            match text with
            | t :: text => if (c =? chr ".") || (c =? t) then matchhere re1 text else false
            | [] => false
            end
      end
  end.
Fixpoint matchstar (c : Z) (re text : list Z) {struct text} : bool :=
  if matchhere re text then true
  else match text with
       | [] => false
       | t :: text => if (t =? c) || (c =? chr ".") then matchstar c re text else false
       end.
(** the loop of [match], which also looks at the empty string *)
Fixpoint match_loop (re text : list Z) : bool :=
  if matchhere re text then true
  else match text with
       | [] => false
       | _ :: text => match_loop re text
       end.
Definition match_re (re text : list Z) : bool :=
  match re with
  | c :: re' => if c =? chr "^" then matchhere re' text else match_loop re text
  | [] => match_loop re text
  end.

(** the equations of the code *)
Lemma matchhere_star c re text : matchhere (c :: chr "*" :: re) text = matchstar c re text.
Proof.
  induction text as [|t text IH]; [done|]. cbn [matchstar]. rewrite <- IH. reflexivity.
Qed.

(** ** What a pattern means *)

(** the units of a pattern: [c] or [.], [c*] or [.*], and [$] at the end *)
Inductive item := One (c : Z) | Star (c : Z) | End.
Fixpoint items (re : list Z) : list item :=
  match re with
  | [] => []
  | c :: re1 =>
      match re1 with
      | s :: re2 => if s =? chr "*" then Star c :: items re2 else One c :: items re1
      | [] => if c =? chr "$" then [End] else [One c]
      end
  end.
(** the character [c] of a pattern stands for the character [t] *)
Definition stands (c t : Z) : Prop := c = chr "." ∨ c = t.
(** the string [s], followed by [rest], is one the items describe *)
Inductive denotes : list item → list Z → list Z → Prop :=
  | denotes_nil rest : denotes [] [] rest
  | denotes_one c t its s rest : stands c t → denotes its s rest → denotes (One c :: its) (t :: s) rest
  | denotes_star c s1 its s rest :
      Forall (stands c) s1 → denotes its s rest → denotes (Star c :: its) (s1 ++ s) rest
  | denotes_end its : denotes (End :: its) [] [].
(** the pattern occurs at the beginning of the text, or anywhere in it *)
Definition occurs_here (re text : list Z) : Prop := ∃ s rest, text = s ++ rest ∧ denotes (items re) s rest.
Definition occurs (re text : list Z) : Prop :=
  match re with
  | c :: re' => if c =? chr "^" then occurs_here re' text else ∃ pre suf, text = pre ++ suf ∧ occurs_here re suf
  | [] => ∃ pre suf, text = pre ++ suf ∧ occurs_here re suf
  end.

Lemma stands_spec c t : ((c =? chr ".") || (c =? t)) = true ↔ stands c t.
Proof. unfold stands. by rewrite orb_true_iff, !Z.eqb_eq. Qed.

(** ** The matcher finds what the pattern means *)

(** the induction hypothesis of the matcher, for the pattern [re] *)
Definition here_ok (re : list Z) : Prop := ∀ text, matchhere re text = true ↔ occurs_here re text.

Lemma here_one re c re' text :
  here_ok re' → items re = One c :: items re' →
  (match text with t :: text => if (c =? chr ".") || (c =? t) then matchhere re' text else false | [] => false end) = true
  ↔ occurs_here re text.
Proof.
  intros IH Hit. unfold occurs_here. rewrite Hit. split.
  - destruct text as [|t text]; [done|]. destruct ((c =? chr ".") || (c =? t)) eqn:Hc; [|done].
    apply stands_spec in Hc. intros (s & rest & -> & Hd)%IH. exists (t :: s), rest. split; [done|by constructor].
  - intros (s & rest & -> & Hd). inversion Hd as [|? t ? s' ? Hst Hd'| |]; subst. simpl.
    rewrite (proj2 (stands_spec c t) Hst). apply IH. by exists s', rest.
Qed.
Lemma star_ok re c text :
  here_ok re →
  matchstar c re text = true ↔ ∃ s1 s rest, text = s1 ++ s ++ rest ∧ Forall (stands c) s1 ∧ denotes (items re) s rest.
Proof.
  intros IH. induction text as [|t text IHt]; simpl.
  - split.
    + destruct (matchhere re []) eqn:Hm; [|done]. apply IH in Hm as (s & rest & He & Hd).
      exists [], s, rest. split_and!; [done|constructor|done].
    + intros (s1 & s & rest & He & _ & Hd). symmetry in He. apply app_nil in He as [-> He].
      rewrite (proj2 (IH [])); [done|]. by exists s, rest.
  - split.
    + destruct (matchhere re (t :: text)) eqn:Hm.
      { apply IH in Hm as (s & rest & He & Hd). exists [], s, rest. split_and!; [done|constructor|done]. }
      destruct ((t =? c) || (c =? chr ".")) eqn:Hc; [|done].
      intros (s1 & s & rest & -> & Hs & Hd)%IHt. exists (t :: s1), s, rest. split_and!; [done| |done].
      constructor; [|done]. apply stands_spec. by rewrite orb_comm, Z.eqb_sym.
    + intros (s1 & s & rest & He & Hs & Hd). destruct s1 as [|t' s1].
      { rewrite (proj2 (IH (t :: text))); [done|]. by exists s, rest. }
      destruct (matchhere re (t :: text)); [done|]. simplify_eq/=. apply Forall_cons in Hs as [Ht Hs].
      apply stands_spec in Ht. rewrite orb_comm, Z.eqb_sym in Ht. rewrite Ht. apply IHt. by exists s1, s, rest.
Qed.
Lemma matchhere_ok n : ∀ re, (length re ≤ n)%nat → here_ok re.
Proof.
  induction n as [|n IH]; intros re Hn text.
  { destruct re; [|simpl in Hn; lia]. split; [|done]. exists [], text. split; [done|constructor]. }
  destruct re as [|c re1]; [split; [exists [], text; split; [done|constructor]|done]|].
  destruct re1 as [|s re2].
  - simpl. destruct (c =? chr "$") eqn:Hc.
    + unfold occurs_here. simpl. rewrite Hc. split.
      * destruct text; [|done]. exists [], []. split; [done|constructor].
      * intros (s & rest & -> & Hd). by inversion Hd; subst.
    + apply (here_one [c] c []); [apply IH; simpl; lia|]. simpl. by rewrite Hc.
  - destruct (s =? chr "*") eqn:Hs.
    + apply Z.eqb_eq in Hs as ->. rewrite matchhere_star, (star_ok re2) by (apply IH; simpl in *; lia).
      unfold occurs_here. cbn [items]. rewrite Z.eqb_refl. split.
      * intros (s1 & s & rest & -> & Hs1 & Hd). exists (s1 ++ s), rest. rewrite <- app_assoc. split; [done|by constructor].
      * intros (s' & rest & -> & Hd). inversion Hd as [| |? s1 ? s ? Hs1 Hd'|]; subst. exists s1, s, rest.
        by rewrite <- app_assoc.
    + pose proof (here_one (c :: s :: re2) c (s :: re2) text) as Ho. cbn [items] in Ho. rewrite Hs in Ho.
      rewrite <- Ho; [|apply IH; simpl in *; lia|done]. cbn [matchhere]. by rewrite Hs.
Qed.
Lemma match_loop_ok re text : match_loop re text = true ↔ ∃ pre suf, text = pre ++ suf ∧ occurs_here re suf.
Proof.
  pose proof (matchhere_ok (length re) re (le_n _)) as Hok. induction text as [|t text IH]; simpl.
  - split.
    + destruct (matchhere re []) eqn:Hm; [|done]. apply Hok in Hm. by exists [], [].
    + intros (pre & suf & He & Ho). symmetry in He. apply app_nil in He as [-> ->]. by rewrite (proj2 (Hok [])).
  - split.
    + destruct (matchhere re (t :: text)) eqn:Hm; [apply Hok in Hm; by exists [], (t :: text)|].
      intros (pre & suf & -> & Ho)%IH. by exists (t :: pre), suf.
    + intros ([|t' pre] & suf & He & Ho); simplify_eq/=; [by rewrite (proj2 (Hok (t :: text)))|].
      destruct (matchhere _ _); [done|]. apply IH. by exists pre, suf.
Qed.

(** C26: [match] finds a pattern in a text exactly when the text has a part the
    pattern describes: at its beginning when the pattern starts with [^], up
    to its end when it ends in [$], with [.] for any character and [c*] for
    any number of them. *)
Theorem match_finds_pattern re text : match_re re text = true ↔ occurs re text.
Proof.
  unfold match_re, occurs. destruct re as [|c re]; [apply match_loop_ok|].
  destruct (c =? chr "^"); [by apply (matchhere_ok (length re))|apply match_loop_ok].
Qed.

(** ** The filter *)

(** [strchr(p, '\n')]: the line before the newline and what follows it *)
Fixpoint strchr_nl (p : list Z) : option (list Z * list Z) :=
  match p with
  | [] => None
  | c :: p =>
      if c =? 0 then None
      else if c =? 10 then Some ([], p)
      else (λ lr, (c :: lr.1, lr.2)) <$> strchr_nl p
  end.

Section filter.
Context (pattern : list Z).

(** the inner loop of [grep]: what is left of the buffer, and the output; a
    buffer has at most as many lines as characters *)
Fixpoint grep_lines (turns : nat) (p out : list Z) : list Z * list Z :=
  match turns with
  | O => (p, out)
  | S turns =>
      match strchr_nl p with
      | None => (p, out)
      | Some (line, rest) =>
          grep_lines turns rest (if match_re pattern line then out ++ line ++ [10] else out)
      end
  end.

(** [grep] on a file with the contents [inp]: the [i]-th [read] returns at
    most [S (size i)] bytes.  The buffer holds [buf]; each turn takes input,
    so that [length inp] turns and one more are enough. *)
Context (size : nat → nat).
Definition bufsize : nat := 1024.
Fixpoint grep (turns i : nat) (buf inp out : list Z) : option (list Z) :=
  match turns with
  | O => None
  | S turns =>
      let n := Nat.min (S (size i)) (Nat.min (bufsize - length buf - 1) (length inp)) in
      if (n =? 0)%nat then Some out else
      let b := buf ++ take n inp in
      let (p, out) := grep_lines (length b) b out in
      grep turns (S i) p (drop n inp) out
  end.

(** ** The lines of a text *)

(** the complete lines, and what follows the last newline *)
Fixpoint split_nl (l : list Z) : list (list Z) * list Z :=
  match l with
  | [] => ([], [])
  | c :: l =>
      let (ls, t) := split_nl l in
      if c =? 10 then ([] :: ls, t)
      else match ls with
           | [] => ([], c :: t)
           | x :: ls => ((c :: x) :: ls, t)
           end
  end.
Definition selected (ls : list (list Z)) : list Z :=
  ls ≫= λ x, if match_re pattern x then x ++ [10] else [].

Lemma split_nl_line p line rest :
  strchr_nl p = Some (line, rest) → split_nl p = (line :: (split_nl rest).1, (split_nl rest).2).
Proof.
  revert line. induction p as [|c p IH]; intros line; simpl; [done|].
  destruct (c =? 0); [done|]. destruct (c =? 10); [intros [= <- ->]; by destruct (split_nl rest)|].
  destruct (strchr_nl p) as [[l r]|]; [|done]. intros [= <- ->]. by rewrite (IH l).
Qed.
Lemma split_nl_tail p : strchr_nl p = None → Forall (λ c, c ≠ 0) p → split_nl p = ([], p).
Proof.
  induction p as [|c p IH]; [done|]. simpl. intros Hs [Hc Hp]%Forall_cons.
  rewrite (proj2 (Z.eqb_neq c 0)) in Hs by done. destruct (c =? 10); [done|]. apply fmap_None in Hs. by rewrite IH.
Qed.
Lemma strchr_nl_length p line rest : strchr_nl p = Some (line, rest) → p = line ++ 10 :: rest.
Proof.
  revert line. induction p as [|c p IH]; intros line; simpl; [done|].
  destruct (c =? 0); [done|]. destruct (Z.eqb_spec c 10) as [->|]; [by intros [= <- ->]|].
  destruct (strchr_nl p) as [[l r]|]; [|done]. intros [= <- ->]. simpl. by rewrite (IH l).
Qed.
Lemma grep_lines_ok turns : ∀ p out, (length p ≤ turns)%nat → Forall (λ c, c ≠ 0) p →
  grep_lines turns p out = ((split_nl p).2, out ++ selected (split_nl p).1).
Proof.
  induction turns as [|turns IH]; intros p out Hlen Hp; simpl.
  { destruct p; [|simpl in Hlen; lia]. simpl. by rewrite app_nil_r. }
  destruct (strchr_nl p) as [[line rest]|] eqn:Hs.
  - pose proof (strchr_nl_length _ _ _ Hs) as He. rewrite (split_nl_line _ _ _ Hs).
    rewrite He, Forall_app, Forall_cons in Hp. rewrite He, length_app in Hlen. simpl in Hlen.
    rewrite IH by (lia || naive_solver). simpl. unfold selected. simpl.
    destruct (match_re pattern line); simpl; by rewrite <- ?app_assoc.
  - rewrite split_nl_tail by done. simpl. by rewrite app_nil_r.
Qed.
Lemma split_nl_app a b : split_nl (a ++ b) =
  ((split_nl a).1 ++ (split_nl ((split_nl a).2 ++ b)).1, (split_nl ((split_nl a).2 ++ b)).2).
Proof.
  induction a as [|c a IH]; simpl; [by destruct (split_nl b)|]. rewrite IH.
  destruct (split_nl a) as [ls t]. simpl. destruct (c =? 10) eqn:Hc; [done|].
  destruct ls as [|x ls]; simpl; [|done]. rewrite Hc. by destruct (split_nl (t ++ b)) as [[|] ?].
Qed.

(** a text whose lines fit in the buffer *)
Definition short_lines (l : list Z) : Prop := Forall (λ x, length x + 2 ≤ bufsize)%nat ((split_nl l).1 ++ [(split_nl l).2]).
Lemma split_nl_open buf : split_nl buf = ([], buf) → Forall (λ c, c ≠ 10) buf.
Proof.
  induction buf as [|c buf IH]; [done|]. simpl. destruct (split_nl buf) as [ls t].
  destruct (Z.eqb_spec c 10); [done|]. destruct ls; [|done]. intros [= ->]. constructor; [done|by apply IH].
Qed.
Lemma split_nl_closed buf : Forall (λ c, c ≠ 10) buf → split_nl buf = ([], buf).
Proof. induction 1 as [|c buf Hc Hb IH]; simpl; [done|]. by rewrite IH, (proj2 (Z.eqb_neq _ _)). Qed.
Definition first_line (l : list Z) : list Z := default (split_nl l).2 (head (split_nl l).1).
Lemma first_line_open buf inp : Forall (λ c, c ≠ 10) buf → first_line (buf ++ inp) = buf ++ first_line inp.
Proof.
  unfold first_line. induction 1 as [|c buf Hc Hb IH]; [done|]. simpl. rewrite <- IH.
  destruct (split_nl (buf ++ inp)) as [ls t]. rewrite (proj2 (Z.eqb_neq _ _)) by done. by destruct ls.
Qed.
Lemma short_lines_open buf inp : split_nl buf = ([], buf) → short_lines (buf ++ inp) → (length buf + 2 ≤ bufsize)%nat.
Proof.
  intros Hb%split_nl_open Hs. assert (Hf : (length (first_line (buf ++ inp)) + 2 ≤ bufsize)%nat).
  { apply (proj1 (Forall_forall _ _) Hs). unfold first_line. destruct (split_nl (buf ++ inp)) as [[|x ls] t]; set_solver. }
  rewrite first_line_open, length_app in Hf by done. lia.
Qed.
Lemma split_nl_idem l : split_nl (split_nl l).2 = ([], (split_nl l).2).
Proof.
  induction l as [|c l IH]; simpl; [done|]. destruct (split_nl l) as [ls t]. simpl in *.
  destruct (c =? 10) eqn:Hc; [done|]. destruct ls; simpl; [|done]. by rewrite IH, Hc.
Qed.
Lemma short_lines_tail a b : short_lines (a ++ b) → short_lines ((split_nl a).2 ++ b).
Proof. unfold short_lines. rewrite split_nl_app. simpl. rewrite <- app_assoc, Forall_app. by intros [_ Hs]. Qed.

Lemma split_nl_Forall (P : Z → Prop) l : Forall P l → Forall P (split_nl l).2.
Proof.
  induction 1 as [|c l Hc Hl IH]; simpl; [done|]. destruct (split_nl l) as [ls t]. simpl in *.
  destruct (c =? 10); [done|]. destruct ls; [by constructor|done].
Qed.

Lemma grep_stuck turns : ∀ i buf inp out,
  (length inp < turns)%nat → Forall (λ c, c ≠ 0) (buf ++ inp) → Forall (λ c, c ≠ 10) buf → (length buf ≤ bufsize - 1)%nat →
  (bufsize - 1 - length buf ≤ length inp)%nat → Forall (λ c, c ≠ 10) (take (bufsize - 1 - length buf) inp) →
  grep turns i buf inp out = Some out.
Proof.
  induction turns as [|turns IH]; intros i buf inp out Hlen Hnz Hbuf Hm Hi Hnl; [lia|]. cbn [grep].
  set (n := Nat.min (S (size i)) (Nat.min (bufsize - length buf - 1) (length inp))).
  destruct (Nat.eqb_spec n 0) as [Hn|Hn]; [done|].
  assert (Hsplit : split_nl (buf ++ take n inp) = ([], buf ++ take n inp)).
  { apply split_nl_closed, Forall_app. split; [done|]. rewrite <- (Nat.min_l n (bufsize - 1 - length buf)) by lia.
    rewrite <- take_take. by apply Forall_take. }
  rewrite <- (take_drop n inp), app_assoc, Forall_app in Hnz. destruct Hnz as [Hnz1 Hnz2].
  rewrite grep_lines_ok, Hsplit by (done || lia). simpl. rewrite app_nil_r. pose proof (split_nl_open _ Hsplit) as Hopen.
  assert (Hbl : length (buf ++ take n inp) = (length buf + n)%nat) by (rewrite length_app, length_take; lia).
  apply IH; rewrite ?Hbl, ?length_drop; [lia|by apply Forall_app|done|lia|lia|].
  rewrite take_drop_commute. apply Forall_drop.
  by replace (n + (bufsize - 1 - (length buf + n)))%nat with (bufsize - 1 - length buf)%nat by lia.
Qed.

Lemma grep_ok turns : ∀ i buf inp out,
  (length inp < turns)%nat → Forall (λ c, c ≠ 0) (buf ++ inp) → split_nl buf = ([], buf) → short_lines (buf ++ inp) →
  grep turns i buf inp out = Some (out ++ selected (split_nl (buf ++ inp)).1).
Proof.
  induction turns as [|turns IH]; intros i buf inp out Hlen Hnz Hbuf Hs; [lia|]. cbn [grep].
  pose proof (short_lines_open _ _ Hbuf Hs) as Hroom.
  set (n := Nat.min (S (size i)) (Nat.min (bufsize - length buf - 1) (length inp))).
  destruct (Nat.eqb_spec n 0) as [Hn|Hn].
  { assert (inp = []) as -> by (apply nil_length_inv; lia). rewrite app_nil_r, Hbuf. simpl. by rewrite app_nil_r. }
  rewrite <- (take_drop n inp) in Hnz, Hs |- *. rewrite app_assoc in Hnz, Hs |- *.
  rewrite take_drop. set (b := buf ++ take n inp) in *.
  rewrite grep_lines_ok by (done || by apply Forall_app in Hnz as [? _]).
  rewrite IH; [| | |apply split_nl_idem|by apply short_lines_tail].
  - rewrite (split_nl_app b). simpl. unfold selected. by rewrite <- app_assoc, bind_app.
  - rewrite length_drop. lia.
  - apply Forall_app in Hnz as [Hb Hd]. apply Forall_app. split; [|done].
    by apply split_nl_Forall.
Qed.

(** C27: [grep] writes exactly the lines that match the pattern, in order and
    each with its newline, whatever sizes the reads return, when no line
    (with its newline) is longer than the buffer and the file has no NUL; and
    it ends. *)
Theorem grep_selects_lines inp :
  Forall (λ c, c ≠ 0) inp → short_lines inp →
  grep (S (length inp)) 0 [] inp [] = Some (selected (split_nl inp).1).
Proof. intros Hnz Hs. by apply (grep_ok (S (length inp)) 0 [] inp []); [lia|..]. Qed.

End filter.

Lemma grep_selects_lines_witness :
  let inp := str "ab" ++ [10] ++ str "xyz" ++ [10] ++ str "cab" ++ [10] in
  grep (str "a.$") (λ _, 1%nat) (S (length inp)) 0 [] inp [] = Some (str "ab" ++ [10] ++ str "cab" ++ [10]).
Proof.
  refine (eq_trans (grep_selects_lines (str "a.$") (λ _, 1%nat) (str "ab" ++ [10] ++ str "xyz" ++ [10] ++ str "cab" ++ [10]) _ _) _).
  - by repeat constructor.
  - unfold short_lines. cbn [split_nl app str]. repeat (apply Forall_cons_2; [unfold bufsize; simpl; lia|]). apply Forall_nil_2.
  - reflexivity.
Defined.
