(* ===== verification/ShParse.v ===== *)
(** * The parser of the shell, [user/sh.c]

    [parsecmd] turns a line into a tree of commands, whose words are pointers
    into the line; [nulterminate] then ends each word by a NUL.  Pointers are
    offsets into the line, and the panics of the parser are results.  The
    parser is compared with the grammar of commands, on the tokens of the
    line. *)

From S2P Require Import Prelude Fsdata.

(** ** The code *)

(** a string is the list of its characters, and its end stands for the NUL;
    [strchr] of [user/ulib.c], as a condition *)
Fixpoint strchr (s : list Z) (c : Z) : bool :=
  match s with
  | [] => false
  | x :: s => if (x =? c)%Z then true else strchr s c
  end.

Definition MAXARGS : nat := 10.
(** a command; [EXEC] has the pairs of [argv] and [eargv] before the null
    pointer *)
Inductive cmd :=
  | EXEC (argv : list (nat * nat))
  | REDIR (c : cmd) (file efile : nat) (mode fd : Z)
  | PIPE (left right : cmd)
  | LIST (left right : cmd)
  | BACK (c : cmd).

Definition whitespace : list Z := [32; 9; 13; 10; 11]%Z.
Definition symbols : list Z := str "<|>&;()".

(** what parsing gives: a result, a panic, or (never, as is proved below) too
    many turns *)
Inductive pres (A : Type) := POk (a : A) | PPanic (msg : string) | PFuel.
Arguments POk {A}. Arguments PPanic {A}. Arguments PFuel {A}.
Definition pbind {A B} (m : pres A) (f : A → pres B) : pres B :=
  match m with POk a => f a | PPanic e => PPanic e | PFuel => PFuel end.
Notation "'let?' x := m 'in' f" := (pbind m (λ x, f)) (at level 10, x pattern, m at level 100, f at level 200).

Section parser.
(** the line; [es] points to its NUL *)
Context (buf : list Z).
Definition es : nat := length buf.
Definition char_at (s : nat) : Z := default 0%Z (buf !! s).

(** [while(s < es && strchr(whitespace, *s)) s++;] *)
Fixpoint skip_ws (turns : nat) (s : nat) : nat :=
  match turns with
  | O => s
  | S turns => if (s <? es) && strchr whitespace (char_at s) then skip_ws turns (S s) else s
  end.
Fixpoint skip_word (turns : nat) (s : nat) : nat :=
  match turns with
  | O => s
  | S turns =>
      if (s <? es) && negb (strchr whitespace (char_at s)) && negb (strchr symbols (char_at s)) then skip_word turns (S s) else s
  end.
(** the kind of the token, its two ends, and the new position *)
Definition gettoken (s : nat) : Z * nat * nat * nat :=
  let s := skip_ws (es - s) s in
  let q := s in
  let '(ret, s) :=
    if (char_at s =? 0)%Z then (0%Z, s)
    else if strchr (str "|();&<") (char_at s) then (char_at s, S s)
    else if (char_at s =? chr ">")%Z then
      (if (char_at (S s) =? chr ">")%Z then (chr "+", S (S s)) else (chr ">", S s))
    else (chr "a", skip_word (es - s) s) in
  let eq := s in
  (ret, q, eq, skip_ws (es - s) s).
Definition peek (s : nat) (toks : list Z) : bool * nat :=
  let s := skip_ws (es - s) s in
  (negb (char_at s =? 0)%Z && strchr toks (char_at s), s).

Definition redir (tok : Z) (c : cmd) (q eq : nat) : cmd :=
  if (tok =? chr "<")%Z then REDIR c q eq O_RDONLY 0
  else if (tok =? chr ">")%Z then REDIR c q eq (Z.lor (Z.lor O_WRONLY O_CREATE) O_TRUNC) 1
  else if (tok =? chr "+")%Z then REDIR c q eq (Z.lor O_WRONLY O_CREATE) 1
  else c.
Fixpoint parseredirs (turns : nat) (c : cmd) (s : nat) : pres (cmd * nat) :=
  match turns with
  | O => PFuel
  | S turns =>
      let '(b, s) := peek s (str "<>") in
      if b then
        let '(tok, _, _, s) := gettoken s in
        let '(t, q, eq, s) := gettoken s in
        if negb (t =? chr "a")%Z then PPanic "missing file for redirection" else
        parseredirs turns (redir tok c q eq) s
      else POk (c, s)
  end.

(** [cmd->argv[argc] = q; cmd->eargv[argc] = eq]: [cmd] is the node that the
    redirections of [ret] are wrapped around *)
Fixpoint add_arg (c : cmd) (q eq : nat) : cmd :=
  match c with
  | EXEC argv => EXEC (argv ++ [(q, eq)])
  | REDIR c f ef m fd => REDIR (add_arg c q eq) f ef m fd
  | _ => c
  end.
(** the loop of [parseexec] *)
Fixpoint parseargs (turns : nat) (argc : nat) (ret : cmd) (s : nat) : pres (cmd * nat) :=
  match turns with
  | O => PFuel
  | S turns =>
      let '(b, s) := peek s (str "|)&;") in
      if b then POk (ret, s) else
      let '(tok, q, eq, s) := gettoken s in
      if (tok =? 0)%Z then POk (ret, s) else
      if negb (tok =? chr "a")%Z then PPanic "syntax" else
      if MAXARGS <=? S argc then PPanic "too many args" else
      let? (ret, s) := parseredirs (S es) (add_arg ret q eq) s in
      parseargs turns (S argc) ret s
  end.
(** [while(peek(ps, es, "&"))] of [parseline] *)
Fixpoint parseback (turns : nat) (c : cmd) (s : nat) : pres (cmd * nat) :=
  match turns with
  | O => PFuel
  | S turns =>
      let '(b, s) := peek s (str "&") in
      if b then let '(_, _, _, s) := gettoken s in parseback turns (BACK c) s
      else POk (c, s)
  end.

Fixpoint parseline (turns : nat) (s : nat) : pres (cmd * nat) :=
  match turns with
  | O => PFuel
  | S turns =>
      let? (c, s) := parsepipe turns s in
      let? (c, s) := parseback (S es) c s in
      let '(b, s) := peek s (str ";") in
      if b then
        let '(_, _, _, s) := gettoken s in
        let? (r, s) := parseline turns s in
        POk (LIST c r, s)
      else POk (c, s)
  end
with parsepipe (turns : nat) (s : nat) : pres (cmd * nat) :=
  match turns with
  | O => PFuel
  | S turns =>
      let? (c, s) := parseexec turns s in
      let '(b, s) := peek s (str "|") in
      if b then
        let '(_, _, _, s) := gettoken s in
        let? (r, s) := parsepipe turns s in
        POk (PIPE c r, s)
      else POk (c, s)
  end
with parseexec (turns : nat) (s : nat) : pres (cmd * nat) :=
  match turns with
  | O => PFuel
  | S turns =>
      let '(b, s) := peek s (str "(") in
      if b then parseblock turns s else
      let? (ret, s) := parseredirs (S es) (EXEC []) s in
      parseargs (S es) 0 ret s
  end
with parseblock (turns : nat) (s : nat) : pres (cmd * nat) :=
  match turns with
  | O => PFuel
  | S turns =>
      let '(b, s) := peek s (str "(") in
      if negb b then PPanic "parseblock" else
      let '(_, _, _, s) := gettoken s in
      let? (c, s) := parseline turns s in
      let '(b, s) := peek s (str ")") in
      if negb b then PPanic "syntax - missing )" else
      let '(_, _, _, s) := gettoken s in
      parseredirs (S es) c s
  end.

(** the array of the line, with its NUL, after [nulterminate] *)
Fixpoint nulterminate (c : cmd) (m : list Z) : list Z :=
  match c with
  | EXEC argv => foldl (λ m a, <[a.2 := 0%Z]> m) m argv
  | REDIR c _ efile _ _ => <[efile := 0%Z]> (nulterminate c m)
  | PIPE l r => nulterminate r (nulterminate l m)
  | LIST l r => nulterminate r (nulterminate l m)
  | BACK c => nulterminate c m
  end.

(** [parsecmd]: the tree, and the line it points into *)
Definition parsecmd : pres (cmd * list Z) :=
  let? (c, s) := parseline (4 * S es) 0 in
  let '(_, s) := peek s [] in
  if negb (s =? es) then PPanic "syntax" else
  POk (c, nulterminate c (buf ++ [0%Z])).
End parser.

(** ** Tokens *)

Definition delim (c : Z) : bool := strchr whitespace c || strchr symbols c.
Abbreviation tok := (Z * nat * nat)%type.
Lemma strchr_In s c : strchr s c = true ↔ c ∈ s.
Proof.
  induction s as [|x s IH]; simpl; [set_solver|]. rewrite elem_of_cons. destruct (Z.eqb_spec x c) as [-> |]; [tauto|].
  rewrite IH. naive_solver.
Qed.
Lemma strchr_false s c : strchr s c = false ↔ c ∉ s.
Proof. rewrite <- strchr_In. by destruct (strchr s c). Qed.

Lemma strchr_sub l l' c : forallb (strchr l') l = true → c ∈ l → c ∈ l'.
Proof. rewrite forallb_forall. intros H Hc. apply strchr_In, H. by apply list_elem_of_In. Qed.
(** membership of a given character in a given string *)
Ltac char_in := apply strchr_In; reflexivity.
Ltac char_notin H := exfalso; apply strchr_In in H; discriminate H.

Section tokens.
Context (buf : list Z) (Hnz : Forall (λ c, c ≠ 0%Z) buf).
#[local] Abbreviation es := (es buf).
#[local] Abbreviation char_at := (char_at buf).
#[local] Abbreviation gettoken := (gettoken buf).
#[local] Abbreviation skip s := (skip_ws buf (es - s) s).

Lemma char_at_0 s : char_at s = 0%Z ↔ es ≤ s.
Proof using Hnz.
  unfold ShParse.char_at, ShParse.es. destruct (buf !! s) as [c|] eqn:Hc; simpl.
  - pose proof (lookup_lt_Some _ _ _ Hc). rewrite Forall_lookup in Hnz. specialize (Hnz _ _ Hc). split; [done|lia].
  - apply lookup_ge_None in Hc. done.
Qed.
Lemma skip_ws_spec n : ∀ s, n = es - s → s ≤ es → let r := skip_ws buf n s in
  s ≤ r ≤ es ∧ (r < es → strchr whitespace (char_at r) = false).
Proof.
  induction n as [|n IH]; intros s Hn Hs; cbn [skip_ws]; [lia|].
  rewrite (proj2 (Nat.ltb_lt s es)) by lia. cbn [andb]. destruct (strchr whitespace (char_at s)) eqn:Hw; [|split; [lia|done]].
  destruct (IH (S s)) as [? ?]; [lia|lia|]. split; [lia|done].
Qed.
Lemma skip_spec s : s ≤ es → s ≤ skip s ≤ es ∧ (skip s < es → strchr whitespace (char_at (skip s)) = false).
Proof. intros Hs. by apply skip_ws_spec. Qed.
Lemma skip_id s : (s < es → strchr whitespace (char_at s) = false) → skip s = s.
Proof.
  intros Hw. destruct (es - s) as [|n] eqn:Hn; [done|]. cbn [skip_ws]. rewrite (proj2 (Nat.ltb_lt s es)), Hw by lia. done.
Qed.
Lemma skip_skip s : s ≤ es → skip (skip s) = skip s.
Proof. intros Hs. apply skip_id. by apply skip_spec. Qed.
Lemma skip_word_spec n : ∀ s, n = es - s → s ≤ es → let r := skip_word buf n s in
  s ≤ r ≤ es ∧ (∀ i, s ≤ i < r → delim (char_at i) = false) ∧ (r < es → delim (char_at r) = true).
Proof.
  induction n as [|n IH]; intros s Hn Hs; cbn [skip_word]; [split_and!; [lia..|lia]|].
  rewrite (proj2 (Nat.ltb_lt s es)) by lia. cbn [andb]. unfold delim.
  destruct (strchr whitespace (char_at s)) eqn:Hw, (strchr symbols (char_at s)) eqn:Hy; cbn [andb negb orb];
    try (split_and!; [lia..|]; rewrite ?Hw, ?Hy; done).
  destruct (IH (S s)) as (H1 & H2 & H3); [lia|lia|]. split_and!; [lia|lia| |done].
  intros i Hi. destruct (decide (i = s)) as [-> |]; [by rewrite Hw, Hy|]. apply H2. lia.
Qed.

(** the kinds of tokens, and the character they start with *)
Definition kinds : list Z := str "|();&<>+a".
Definition first (k : Z) : Z := if (k =? chr "+")%Z then chr ">" else k.
(** a token in the line *)
Record token_at (k : Z) (q e : nat) : Prop := {
  tk_kind : k ∈ kinds;
  tk_range : q < e ≤ es;
  tk_first : k ≠ chr "a" → char_at q = first k;
  tk_word i : k = chr "a" → q ≤ i < e → delim (char_at i) = false;
  tk_end : k = chr "a" → e < es → delim (char_at e) = true
}.
Lemma gettoken_spec s k q e s' : s ≤ es → gettoken s = (k, q, e, s') →
  q = skip s ∧ s' = skip e ∧ (k = 0%Z ∧ q = es ∧ e = es ∨ k ≠ 0%Z ∧ token_at k q e).
Proof using Hnz.
  intros Hs. unfold ShParse.gettoken. destruct (skip_spec s Hs) as [Hr Hw]. set (p := skip s) in *.
  destruct (Z.eqb_spec (char_at p) 0) as [H0|H0].
  { intros [= <- <- <- <-]. apply char_at_0 in H0. assert (p = es) as -> by lia. split_and!; [done|done|]. left. done. }
  assert (Hp : p < es) by (rewrite char_at_0 in H0; lia). specialize (Hw Hp).
  destruct (strchr (str "|();&<") (char_at p)) eqn:Hsym.
  { intros [= <- <- <- <-]. split_and!; [done|done|]. right. split; [done|]. apply strchr_In in Hsym. split.
    - by eapply strchr_sub, Hsym.
    - lia.
    - intros _. unfold first. destruct (Z.eqb_spec (char_at p) (chr "+")) as [Heq|]; [|done]. rewrite Heq in Hsym. char_notin Hsym.
    - intros i Heq. rewrite Heq in Hsym. char_notin Hsym.
    - intros Heq. rewrite Heq in Hsym. char_notin Hsym. }
  destruct (Z.eqb_spec (char_at p) (chr ">")) as [Hgt|Hgt].
  { destruct (Z.eqb_spec (char_at (S p)) (chr ">")) as [Hgt2|Hgt2]; intros [= <- <- <- <-]; (split_and!; [done|done|]); right; (split; [done|]).
    - assert (S p < es) by (destruct (decide (S p < es)); [done|]; rewrite (proj2 (char_at_0 (S p))) in Hgt2 by lia; done).
      split; [char_in|lia|done|done|done].
    - split; [char_in|lia|done|done|done]. }
  intros [= <- <- <- <-]. split_and!; [done|done|]. right. split; [done|].
  destruct (skip_word_spec (es - p) p) as (H1 & H2 & H3); [done|lia|].
  assert (Hd : delim (char_at p) = false).
  { unfold delim. rewrite Hw. cbn [orb]. apply strchr_false. apply strchr_false in Hsym. intros Hin. assert (Hin' : char_at p ∈ str ">" ++ str "|();&<") by (by eapply strchr_sub, Hin).
    apply elem_of_app in Hin' as [Hin'|Hin']; [|done]. by apply list_elem_of_singleton in Hin'. }
  assert (skip_word buf (es - p) p ≠ p).
  { intros Heq. rewrite Heq in H3. specialize (H3 Hp). congruence. }
  split; [char_in|lia|done|by intros i _ Hi; apply H2|by intros _].
Qed.
End tokens.

Section lexer.
Context (buf : list Z) (Hnz : Forall (λ c, c ≠ 0%Z) buf).
#[local] Abbreviation es := (es buf).
#[local] Abbreviation char_at := (char_at buf).
#[local] Abbreviation gettoken := (gettoken buf).
#[local] Abbreviation peek := (peek buf).
#[local] Abbreviation skip s := (skip_ws buf (es - s) s).

(** the tokens from a position on *)
Fixpoint tokens_from (turns s : nat) : list tok :=
  match turns with
  | O => []
  | S turns =>
      let '(k, q, e, s) := gettoken s in
      if (k =? 0)%Z then [] else (k, q, e) :: tokens_from turns s
  end.
Definition tokens (s : nat) : list tok := tokens_from (S (es - s)) s.

Lemma tokens_from_enough n m s : s ≤ es → es - s < n → es - s < m → tokens_from n s = tokens_from m s.
Proof using Hnz.
  revert m s. induction n as [|n IH]; intros [|m] s Hs Hn Hm; [lia..|]. cbn [tokens_from].
  destruct (gettoken s) as [[[k q] e] s'] eqn:Hg. destruct (gettoken_spec _ Hnz _ _ _ _ _ Hs Hg) as (-> & -> & [(-> & _)|(Hk & Ht)]); [done|].
  rewrite (proj2 (Z.eqb_neq k 0)) by done. f_equal. destruct Ht as [_ Hr _ _ _].
  destruct (skip_spec buf e) as [? _]; [lia|]. destruct (skip_spec buf s) as [? _]; [lia|]. apply IH; lia.
Qed.
(** the next token *)
Inductive next (s : nat) : Z * nat * nat * nat → Prop :=
  | next_end : tokens s = [] → next s (0%Z, es, es, es)
  | next_tok k q e s' : k ≠ 0%Z → token_at buf k q e → q = skip s → s < s' ≤ es → tokens s = (k, q, e) :: tokens s' → next s (k, q, e, s').
Lemma gettoken_next s : s ≤ es → next s (gettoken s).
Proof using Hnz.
  intros Hs. destruct (gettoken s) as [[[k q] e] s'] eqn:Hg.
  assert (Ht : tokens s = if (k =? 0)%Z then [] else (k, q, e) :: tokens_from (es - s) s') by (unfold tokens; cbn [tokens_from]; by rewrite Hg).
  destruct (gettoken_spec _ Hnz _ _ _ _ _ Hs Hg) as (Hq & Hs' & [(-> & -> & ->)|(Hk & Htk)]).
  - rewrite Hs', Nat.sub_diag. by apply next_end.
  - rewrite (proj2 (Z.eqb_neq k 0)) in Ht by done. pose proof (tk_range _ _ _ _ Htk).
    destruct (skip_spec buf e) as [? _]; [lia|]. destruct (skip_spec buf s) as [? _]; [lia|].
    apply next_tok; [done|done|done|lia|]. rewrite Ht. f_equal. apply tokens_from_enough; lia.
Qed.
Lemma gettoken_skip s : s ≤ es → gettoken (skip s) = gettoken s.
Proof using. intros Hs. unfold ShParse.gettoken. by rewrite skip_skip. Qed.
Lemma tokens_skip s : s ≤ es → tokens (skip s) = tokens s.
Proof using Hnz.
  intros Hs. destruct (skip_spec buf s Hs) as [Hr _]. unfold tokens. rewrite (tokens_from_enough _ (S (S es)) (skip s)), (tokens_from_enough _ (S (S es)) s) by lia.
  cbn [tokens_from]. by rewrite gettoken_skip.
Qed.
Lemma tokens_nil s : s ≤ es → tokens s = [] ↔ skip s = es.
Proof using Hnz.
  intros Hs. destruct (gettoken s) as [[[k q] e] s'] eqn:Hg. pose proof (gettoken_next s Hs) as Hn. rewrite Hg in Hn.
  destruct (gettoken_spec _ Hnz _ _ _ _ _ Hs Hg) as (Hq & _ & Hcase). inversion Hn as [Ht Heq|? ? ? ? Hk Htk Hq' Hs' Ht Heq]; simplify_eq.
  - split; [|done]. intros _. congruence.
  - rewrite Ht. split; [done|]. intros Heq. pose proof (tk_range _ _ _ _ Htk). lia.
Qed.

(** what [peek] sees *)
Definition sees (tk : list Z) (ts : list tok) : bool :=
  match ts with [] => false | (k, _, _) :: _ => strchr tk (first k) end.
Lemma peek_sees s tk : s ≤ es → forallb (strchr symbols) tk = true → peek s tk = (sees tk (tokens s), skip s).
Proof using Hnz.
  intros Hs Htk. unfold ShParse.peek. f_equal. pose proof (gettoken_next s Hs) as Hn. inversion Hn as [Ht Heq|k q e s' Hk Hat Hq Hs' Ht Heq]; rewrite Ht; cbn [sees].
  - apply tokens_nil in Ht as ->; [|done]. by rewrite (proj2 (char_at_0 buf Hnz es)).
  - rewrite <- Hq. pose proof (tk_range _ _ _ _ Hat). rewrite (proj2 (Z.eqb_neq (char_at q) 0)) by (rewrite char_at_0 by done; lia). cbn [negb andb].
    destruct (decide (k = chr "a")) as [-> |Hne]; [|by rewrite (tk_first _ _ _ _ Hat)].
    pose proof (tk_word _ _ _ _ Hat q eq_refl ltac:(lia)) as Hd. unfold delim in Hd. apply orb_false_iff in Hd as [_ Hd].
    assert (strchr tk (char_at q) = false) as ->.
    { apply strchr_false. apply strchr_false in Hd. intros Hin. by eapply Hd, strchr_sub. }
    symmetry. apply strchr_false. intros Hin. eapply strchr_sub in Hin; [|exact Htk]. char_notin Hin.
Qed.
End lexer.

(** ** The grammar

    [line  ::= pipe '&'* [';' line]]
    [pipe  ::= exec ['|' pipe]]
    [exec  ::= '(' line ')' redir* | redir* (word redir* )*]
    [redir ::= ('<' | '>' | '>>') word]

    with the tree each phrase stands for, and at most [MAXARGS - 1] words in
    a command *)

Definition kind (t : tok) : Z := t.1.1.
Inductive g_redirs : cmd → list tok → cmd → Prop :=
  | gr_nil c : g_redirs c [] c
  | gr_cons c k q e f ef ts c' : k ∈ str "<>+" → g_redirs (redir k c f ef) ts c' →
      g_redirs c ((k, q, e) :: (chr "a", f, ef) :: ts) c'.
Inductive g_args : nat → cmd → list tok → cmd → Prop :=
  | ga_nil n c : g_args n c [] c
  | ga_cons n c q e ts1 c1 ts2 c2 : S n < MAXARGS → g_redirs (add_arg c q e) ts1 c1 → g_args (S n) c1 ts2 c2 →
      g_args n c ((chr "a", q, e) :: ts1 ++ ts2) c2.
Inductive g_back : cmd → list tok → cmd → Prop :=
  | gb_nil c : g_back c [] c
  | gb_cons c q e ts c' : g_back (BACK c) ts c' → g_back c ((chr "&", q, e) :: ts) c'.
Inductive g_line : list tok → cmd → Prop :=
  | gl_one ts c bs c' : g_pipe ts c → g_back c bs c' → g_line (ts ++ bs) c'
  | gl_list ts c bs c' q e ts2 r : g_pipe ts c → g_back c bs c' → g_line ts2 r →
      g_line (ts ++ bs ++ (chr ";", q, e) :: ts2) (LIST c' r)
with g_pipe : list tok → cmd → Prop :=
  | gp_one ts c : g_exec ts c → g_pipe ts c
  | gp_pipe ts c q e ts2 r : g_exec ts c → g_pipe ts2 r → g_pipe (ts ++ (chr "|", q, e) :: ts2) (PIPE c r)
with g_exec : list tok → cmd → Prop :=
  | ge_block q e ts c q' e' rs c' : g_line ts c → g_redirs c rs c' →
      g_exec ((chr "(", q, e) :: ts ++ (chr ")", q', e') :: rs) c'
  | ge_exec ts1 c1 ts2 c2 : g_redirs (EXEC []) ts1 c1 → g_args 0 c1 ts2 c2 → g_exec (ts1 ++ ts2) c2.
Scheme g_line_ind' := Induction for g_line Sort Prop
with g_pipe_ind' := Induction for g_pipe Sort Prop
with g_exec_ind' := Induction for g_exec Sort Prop.
Combined Scheme grammar_ind from g_line_ind', g_pipe_ind', g_exec_ind'.

Section grammar.
Context (buf : list Z) (Hnz : Forall (λ c, c ≠ 0%Z) buf).
#[local] Abbreviation es := (es buf).
#[local] Abbreviation gettoken := (gettoken buf).
#[local] Abbreviation peek := (peek buf).
#[local] Abbreviation tokens := (tokens buf).
#[local] Abbreviation skip s := (skip_ws buf (es - s) s).

Lemma tokens_length s : s ≤ es → length (tokens s) ≤ es - s.
Proof using Hnz.
  remember (es - s) as n eqn:Hn. revert s Hn. induction n as [n IH] using lt_wf_ind. intros s -> Hs.
  pose proof (gettoken_next buf Hnz s Hs) as Hx. inversion Hx as [Ht Heq|k q e s' Hk Hat Hq Hs' Ht Heq]; rewrite Ht; simpl; [lia|].
  specialize (IH (es - s') ltac:(lia) s' eq_refl ltac:(lia)). lia.
Qed.
(** [gettoken] takes the token that [peek] has seen *)
Lemma gettoken_seen s tk : s ≤ es → sees tk (tokens s) = true →
  ∃ k q e s', gettoken (skip s) = (k, q, e, s') ∧ tokens s = (k, q, e) :: tokens s' ∧ s' ≤ es ∧ k ∈ kinds ∧ strchr tk (first k) = true.
Proof using Hnz.
  intros Hs Hsee. rewrite gettoken_skip by done. pose proof (gettoken_next buf Hnz s Hs) as Hx.
  inversion Hx as [Ht Heq|k q e s' Hk Hat Hq Hs' Ht Heq]; rewrite Ht in Hsee; cbn [sees] in Hsee; [done|].
  exists k, q, e, s'. split_and!; [done|done|lia|apply Hat|done].
Qed.
Lemma take_token s k q e ts : s ≤ es → tokens s = (k, q, e) :: ts →
  ∃ s', gettoken s = (k, q, e, s') ∧ gettoken (skip s) = (k, q, e, s') ∧ tokens s' = ts ∧ s' ≤ es ∧ k ≠ 0%Z.
Proof using Hnz.
  intros Hs Ht. rewrite gettoken_skip by done. pose proof (gettoken_next buf Hnz s Hs) as Hx. destruct (gettoken s) as [[[k1 q1] e1] s1].
  inversion Hx as [Ht1 Heq|? ? ? ? Hk1 Hat Hq1 Hs1 Ht1 Heq]; [by rewrite Ht1 in Ht|]. rewrite Ht1 in Ht.
  injection Ht as -> -> -> Ht'. exists s1. split_and!; [done..|lia|done].
Qed.
(** the kind, from what is seen *)
Lemma first_kind k tk ks : k ∈ kinds → strchr tk (first k) = true →
  forallb (λ k, negb (strchr tk (first k)) || strchr ks k) kinds = true → k ∈ ks.
Proof.
  intros Hk Hf Hall. rewrite forallb_forall in Hall. specialize (Hall k ltac:(by apply list_elem_of_In)).
  rewrite Hf in Hall. by apply strchr_In.
Qed.

(** *** Redirections *)
Lemma parseredirs_sound turns : ∀ c s c' s', s ≤ es → parseredirs buf turns c s = POk (c', s') →
  ∃ ts, tokens s = ts ++ tokens s' ∧ g_redirs c ts c' ∧ s' ≤ es ∧ sees (str "<>") (tokens s') = false.
Proof using Hnz.
  induction turns as [|turns IH]; intros c s c' s' Hs; cbn [parseredirs]; [done|].
  rewrite (peek_sees buf Hnz) by done. destruct (skip_spec buf s Hs) as [Hsk _].
  destruct (sees (str "<>") (tokens s)) eqn:Hsee.
  2: { intros [= <- <-]. exists []. rewrite tokens_skip by done. split_and!; [done|constructor|lia|done]. }
  destruct (gettoken_seen s _ Hs Hsee) as (k & q & e & s1 & -> & Ht & Hs1 & Hk & Hf).
  pose proof (gettoken_next buf Hnz s1 Hs1) as Hx. destruct (gettoken s1) as [[[k2 f] ef] s2].
  destruct (Z.eqb_spec k2 (chr "a")) as [-> |]; [|done]. cbn [negb]. intros Hp.
  inversion Hx as [Ht1 Heq|? ? ? ? Hk2 Hat Hq2 Hs2 Ht1 Heq]; subst.
  apply IH in Hp as (ts & Hts & Hg & Hs' & Hno); [|lia]. exists ((k, q, e) :: (chr "a", skip s1, ef) :: ts).
  split_and!; [by rewrite Ht, Ht1, Hts| |done|done]. constructor; [|done]. by eapply first_kind.
Qed.
Lemma parseredirs_complete c ts c' : g_redirs c ts c' → ∀ turns s rest,
  s ≤ es → tokens s = ts ++ rest → sees (str "<>") rest = false → length (tokens s) < turns →
  ∃ s', parseredirs buf turns c s = POk (c', s') ∧ tokens s' = rest ∧ s' ≤ es.
Proof using Hnz.
  induction 1 as [c|c k q e f ef ts c' Hk Hg IH]; intros turns s rest Hs Ht Hno Hn; (destruct turns as [|turns]; [lia|]); cbn [parseredirs].
  - rewrite (peek_sees buf Hnz) by done. cbn [app] in Ht. rewrite Ht, Hno. destruct (skip_spec buf s Hs) as [Hsk _].
    eexists. split_and!; [done|by rewrite tokens_skip|lia].
  - rewrite (peek_sees buf Hnz) by done. rewrite <- !app_comm_cons in Ht. rewrite Ht. cbn [sees].
    assert (Hsee : strchr (str "<>") (first k) = true).
    { repeat (apply elem_of_cons in Hk as [-> |Hk]; [done|]). by apply not_elem_of_nil in Hk. }
    rewrite Hsee. destruct (take_token _ _ _ _ _ Hs Ht) as (s1 & _ & -> & Ht1 & Hs1 & _).
    destruct (take_token _ _ _ _ _ Hs1 Ht1) as (s2 & -> & _ & Ht2 & Hs2 & _). rewrite Z.eqb_refl. cbn [negb].
    apply IH; [done|done|done|]. rewrite Ht in Hn. rewrite Ht2. cbn [length] in Hn. lia.
Qed.

(** *** Arguments and background marks *)
Lemma parseargs_sound turns : ∀ n c s c' s', s ≤ es → parseargs buf turns n c s = POk (c', s') →
  ∃ ts, tokens s = ts ++ tokens s' ∧ g_args n c ts c' ∧ s' ≤ es.
Proof using Hnz.
  induction turns as [|turns IH]; intros n c s c' s' Hs; cbn [parseargs]; [done|].
  rewrite (peek_sees buf Hnz) by done. destruct (skip_spec buf s Hs) as [Hsk _].
  destruct (sees _ (tokens s)).
  { intros [= <- <-]. exists []. rewrite tokens_skip by done. split_and!; [done|constructor|lia]. }
  rewrite gettoken_skip by done. pose proof (gettoken_next buf Hnz s Hs) as Hx. destruct (gettoken s) as [[[k q] e] s1].
  inversion Hx as [Ht Heq|? ? ? ? Hk Hat Hq Hs1 Ht Heq]; subst.
  { cbn [Z.eqb]. intros [= <- <-]. exists []. split_and!; [|constructor|done]. symmetry. rewrite Ht.
    apply (tokens_nil buf Hnz); [done|]. by rewrite Nat.sub_diag. }
  rewrite (proj2 (Z.eqb_neq k 0)) by done. destruct (Z.eqb_spec k (chr "a")) as [-> |]; [|done]. cbn [negb].
  destruct (Nat.leb_spec MAXARGS (S n)) as [|Hn]; [done|]. unfold pbind.
  destruct (parseredirs _ _ _ _) as [[c1 s2]| |] eqn:Hp; [|done..]. intros Hp2.
  apply parseredirs_sound in Hp as (ts1 & Hts1 & Hg1 & Hs2 & _); [|lia].
  apply IH in Hp2 as (ts2 & Hts2 & Hg2 & Hs'); [|done]. eexists (_ :: ts1 ++ ts2).
  split_and!; [|by econstructor|done]. by rewrite Ht, Hts1, Hts2, <- app_comm_cons, <- app_assoc.
Qed.
(** what may follow the phrases *)
Definition follows (tk : list Z) (ts : list tok) : bool := match ts with [] => true | _ => sees tk ts end.
Lemma follows_not tk tk' ts : follows tk ts = true → Forall (λ t, kind t ∈ kinds) ts →
  forallb (λ k, negb (strchr tk (first k)) || negb (strchr tk' (first k))) kinds = true → sees tk' ts = false.
Proof.
  destruct ts as [|[[k q] e] ts]; [done|]. cbn [follows sees]. intros Hf Hk Hall. apply Forall_cons in Hk as [Hk _].
  rewrite forallb_forall in Hall. specialize (Hall k ltac:(by apply list_elem_of_In)). rewrite Hf in Hall. cbn [negb orb] in Hall.
  by apply negb_true_iff.
Qed.
Lemma tokens_kinds s : s ≤ es → Forall (λ t, kind t ∈ kinds) (tokens s).
Proof using Hnz.
  remember (es - s) as n eqn:Hn. revert s Hn. induction n as [n IH] using lt_wf_ind. intros s -> Hs.
  pose proof (gettoken_next buf Hnz s Hs) as Hx. inversion Hx as [Ht Heq|k q e s' Hk Hat Hq Hs' Ht Heq]; rewrite Ht; [constructor|].
  constructor; [apply Hat|]. apply (IH (es - s')); [lia|done|lia].
Qed.
Lemma g_args_head n c ts c' rest : g_args n c ts c' → sees (str "<>") rest = false → sees (str "<>") (ts ++ rest) = false.
Proof. by intros []. Qed.
Lemma parseargs_complete n c ts c' : g_args n c ts c' → ∀ turns s rest,
  s ≤ es → tokens s = ts ++ rest → follows (str "|)&;") rest = true → length (tokens s) < turns →
  ∃ s', parseargs buf turns n c s = POk (c', s') ∧ tokens s' = rest ∧ s' ≤ es.
Proof using Hnz.
  induction 1 as [n c|n c q e ts1 c1 ts2 c2 Hn Hr Hg IH]; intros turns s rest Hs Ht Hf Hlt; (destruct turns as [|turns]; [lia|]);
    cbn [parseargs]; rewrite (peek_sees buf Hnz) by done; destruct (skip_spec buf s Hs) as [Hsk _]; rewrite Ht; cbn [app] in *.
  - destruct rest as [|t rest]; cbn [follows] in Hf.
    + cbn [sees]. rewrite gettoken_skip by done. pose proof (gettoken_next buf Hnz s Hs) as Hx. destruct (gettoken s) as [[[k q] e] s1].
      inversion Hx as [Ht1 Heq|? ? ? ? ? ? ? ? Ht1]; [|by rewrite Ht1 in Ht]. cbn [Z.eqb]. eexists. split_and!; [done| |done].
      apply (tokens_nil buf Hnz); [done|]. by rewrite Nat.sub_diag.
    + rewrite Hf. eexists. split_and!; [done|by rewrite tokens_skip|lia].
  - cbn [sees]. change (strchr _ (first (chr "a"))) with false. cbv iota.
    destruct (take_token _ _ _ _ _ Hs Ht) as (s1 & _ & -> & Ht1 & Hs1 & _). change (chr "a" =? 0)%Z with false.
    rewrite Z.eqb_refl. cbn [negb]. rewrite (proj2 (Nat.leb_gt _ _)) by done. rewrite <- app_assoc in Ht1.
    pose proof (tokens_kinds s1 Hs1) as Hk. rewrite Ht1 in Hk. apply Forall_app in Hk as [_ Hk]. apply Forall_app in Hk as [_ Hk].
    destruct (parseredirs_complete _ _ _ Hr (S es) s1 (ts2 ++ rest)) as (s2 & -> & Ht2 & Hs2); [done|done| |pose proof (tokens_length s1 Hs1); lia|].
    { eapply g_args_head; [done|]. by eapply follows_not. }
    cbn [pbind]. apply IH; [done|done|done|]. rewrite Ht in Hlt. rewrite Ht2. cbn [length] in Hlt. rewrite !length_app in *. lia.
Qed.
Lemma parseback_sound turns : ∀ c s c' s', s ≤ es → parseback buf turns c s = POk (c', s') →
  ∃ ts, tokens s = ts ++ tokens s' ∧ g_back c ts c' ∧ s' ≤ es.
Proof using Hnz.
  induction turns as [|turns IH]; intros c s c' s' Hs; cbn [parseback]; [done|].
  rewrite (peek_sees buf Hnz) by done. destruct (skip_spec buf s Hs) as [Hsk _].
  destruct (sees (str "&") (tokens s)) eqn:Hsee.
  2: { intros [= <- <-]. exists []. rewrite tokens_skip by done. split_and!; [done|constructor|lia]. }
  destruct (gettoken_seen s _ Hs Hsee) as (k & q & e & s1 & -> & Ht & Hs1 & Hk & Hf). intros Hp.
  assert (k ∈ str "&") as ->%list_elem_of_singleton by (by eapply first_kind).
  apply IH in Hp as (ts & Hts & Hg & Hs'); [|done]. eexists (_ :: ts). split_and!; [by rewrite Ht, Hts|by constructor|done].
Qed.
Lemma parseback_complete c ts c' : g_back c ts c' → ∀ turns s rest,
  s ≤ es → tokens s = ts ++ rest → sees (str "&") rest = false → length (tokens s) < turns →
  ∃ s', parseback buf turns c s = POk (c', s') ∧ tokens s' = rest ∧ s' ≤ es.
Proof using Hnz.
  induction 1 as [c|c q e ts c' Hg IH]; intros turns s rest Hs Ht Hno Hn; (destruct turns as [|turns]; [lia|]);
    cbn [parseback]; rewrite (peek_sees buf Hnz) by done; destruct (skip_spec buf s Hs) as [Hsk _]; rewrite Ht; cbn [app] in *.
  - rewrite Hno. eexists. split_and!; [done|by rewrite tokens_skip|lia].
  - cbn [sees]. change (strchr _ (first (chr "&"))) with true. cbv iota.
    destruct (take_token _ _ _ _ _ Hs Ht) as (s1 & _ & -> & Ht1 & Hs1 & _).
    apply IH; [done|done|done|]. rewrite Ht in Hn. rewrite Ht1. cbn [length] in Hn. lia.
Qed.
End grammar.

Section parse.
Context (buf : list Z) (Hnz : Forall (λ c, c ≠ 0%Z) buf).
#[local] Abbreviation es := (es buf).
#[local] Abbreviation gettoken := (gettoken buf).
#[local] Abbreviation tokens := (tokens buf).
#[local] Abbreviation skip s := (skip_ws buf (es - s) s).

(** *** What is parsed is a phrase of the grammar *)
Definition parses (p : nat → pres (cmd * nat)) (g : list tok → cmd → Prop) : Prop :=
  ∀ s c s', s ≤ es → p s = POk (c, s') → ∃ ts, tokens s = ts ++ tokens s' ∧ g ts c ∧ s' ≤ es.
Lemma parseline_sound turns :
  parses (parsepipe buf turns) g_pipe → parses (parseline buf turns) g_line → parses (parseline buf (S turns)) g_line.
Proof using Hnz.
  intros Hpipe Hline s c s' Hs. cbn [parseline]. unfold pbind. destruct (parsepipe buf turns s) as [[c1 s1]| |] eqn:H1; [|done..].
  apply Hpipe in H1 as (ts1 & Ht1 & G1 & Hs1); [|done]. destruct (parseback _ _ _ _) as [[c2 s2]| |] eqn:H2; [|done..].
  apply (parseback_sound buf Hnz) in H2 as (ts2 & Ht2 & G2 & Hs2); [|done]. rewrite (peek_sees buf Hnz) by done.
  destruct (skip_spec buf s2 Hs2) as [Hsk _]. destruct (sees (str ";") (tokens s2)) eqn:Hsee.
  - destruct (gettoken_seen buf Hnz s2 _ Hs2 Hsee) as (k & q & e & s3 & -> & Ht3 & Hs3 & Hk & Hf).
    assert (k ∈ str ";") as ->%list_elem_of_singleton by (by eapply first_kind).
    destruct (parseline buf turns s3) as [[r s4]| |] eqn:H4; [|done..]. intros [= <- <-].
    apply Hline in H4 as (ts4 & Ht4 & G4 & Hs4); [|done]. exists (ts1 ++ ts2 ++ (chr ";", q, e) :: ts4).
    split_and!; [|by econstructor|done]. by rewrite Ht1, Ht2, Ht3, Ht4, <- !app_assoc, <- app_comm_cons.
  - intros [= <- <-]. exists (ts1 ++ ts2). rewrite tokens_skip by done. split_and!; [by rewrite Ht1, Ht2, app_assoc|by econstructor|lia].
Qed.
Lemma parsepipe_sound turns :
  parses (parseexec buf turns) g_exec → parses (parsepipe buf turns) g_pipe → parses (parsepipe buf (S turns)) g_pipe.
Proof using Hnz.
  intros Hexec Hpipe s c s' Hs. cbn [parsepipe]. unfold pbind. destruct (parseexec buf turns s) as [[c1 s1]| |] eqn:H1; [|done..].
  apply Hexec in H1 as (ts1 & Ht1 & G1 & Hs1); [|done]. rewrite (peek_sees buf Hnz) by done.
  destruct (skip_spec buf s1 Hs1) as [Hsk _]. destruct (sees (str "|") (tokens s1)) eqn:Hsee.
  - destruct (gettoken_seen buf Hnz s1 _ Hs1 Hsee) as (k & q & e & s3 & -> & Ht3 & Hs3 & Hk & Hf).
    assert (k ∈ str "|") as ->%list_elem_of_singleton by (by eapply first_kind).
    destruct (parsepipe buf turns s3) as [[r s4]| |] eqn:H4; [|done..]. intros [= <- <-].
    apply Hpipe in H4 as (ts4 & Ht4 & G4 & Hs4); [|done]. exists (ts1 ++ (chr "|", q, e) :: ts4).
    split_and!; [|by constructor|done]. by rewrite Ht1, Ht3, Ht4, <- app_assoc, <- app_comm_cons.
  - intros [= <- <-]. exists ts1. rewrite tokens_skip by done. split_and!; [done|by constructor|lia].
Qed.
Lemma parseblock_sound turns : parses (parseline buf turns) g_line → parses (parseblock buf (S turns)) g_exec.
Proof using Hnz.
  intros Hline s c s' Hs. cbn [parseblock]. rewrite (peek_sees buf Hnz) by done.
  destruct (sees (str "(") (tokens s)) eqn:Hsee; [|done]. cbn [negb].
  destruct (gettoken_seen buf Hnz s _ Hs Hsee) as (k & q & e & s1 & -> & Ht1 & Hs1 & Hk & Hf).
  assert (k ∈ str "(") as ->%list_elem_of_singleton by (by eapply first_kind). unfold pbind.
  destruct (parseline buf turns s1) as [[c2 s2]| |] eqn:H2; [|done..]. apply Hline in H2 as (ts2 & Ht2 & G2 & Hs2); [|done].
  rewrite (peek_sees buf Hnz) by done. destruct (sees (str ")") (tokens s2)) eqn:Hsee2; [|done]. cbn [negb].
  destruct (gettoken_seen buf Hnz s2 _ Hs2 Hsee2) as (k & q' & e' & s3 & -> & Ht3 & Hs3 & Hk2 & Hf2).
  assert (k ∈ str ")") as ->%list_elem_of_singleton by (by eapply first_kind). intros H4.
  apply (parseredirs_sound buf Hnz) in H4 as (ts4 & Ht4 & G4 & Hs4 & _); [|done].
  exists ((chr "(", q, e) :: ts2 ++ (chr ")", q', e') :: ts4). split_and!; [|by econstructor|done].
  by rewrite Ht1, Ht2, Ht3, Ht4, <- app_comm_cons, <- app_assoc, <- app_comm_cons.
Qed.
Lemma parseexec_sound turns : parses (parseblock buf turns) g_exec → parses (parseexec buf (S turns)) g_exec.
Proof using Hnz.
  intros Hblock s c s' Hs. cbn [parseexec]. rewrite (peek_sees buf Hnz) by done.
  destruct (skip_spec buf s Hs) as [Hsk _]. destruct (sees (str "(") (tokens s)).
  { intros H1. apply Hblock in H1; [|lia]. by rewrite tokens_skip in H1. }
  unfold pbind. destruct (parseredirs _ _ _ _) as [[c1 s1]| |] eqn:H1; [|done..].
  apply (parseredirs_sound buf Hnz) in H1 as (ts1 & Ht1 & G1 & Hs1 & _); [|lia]. intros H2.
  apply (parseargs_sound buf Hnz) in H2 as (ts2 & Ht2 & G2 & Hs2); [|done]. exists (ts1 ++ ts2).
  rewrite tokens_skip in Ht1 by done. split_and!; [by rewrite Ht1, Ht2, app_assoc|by econstructor|done].
Qed.
Lemma parse_sound turns : parses (parseline buf turns) g_line ∧ parses (parsepipe buf turns) g_pipe ∧
  parses (parseexec buf turns) g_exec ∧ parses (parseblock buf turns) g_exec.
Proof using Hnz.
  induction turns as [|turns (H1 & H2 & H3 & H4)]; [done|]. split_and!; [by apply parseline_sound|by apply parsepipe_sound|
    by apply parseexec_sound|by apply parseblock_sound].
Qed.

(** *** Every phrase of the grammar is parsed *)
Definition accepts (p : nat → nat → pres (cmd * nat)) (need : nat) (tk : list Z) (ts : list tok) (c : cmd) : Prop :=
  ∀ turns s rest, s ≤ es → tokens s = ts ++ rest → follows tk rest = true → 4 * length (tokens s) + need ≤ turns →
    ∃ s', p turns s = POk (c, s') ∧ tokens s' = rest ∧ s' ≤ es.
Lemma follows_sub tk tk' ts : follows tk ts = true → forallb (strchr tk') tk = true → follows tk' ts = true.
Proof.
  destruct ts as [|[[k q] e] ts]; [done|]. cbn [follows sees]. intros Hf Hall. apply strchr_In. apply strchr_In in Hf.
  by eapply strchr_sub.
Qed.
Lemma rest_kinds s ts rest : s ≤ es → tokens s = ts ++ rest → Forall (λ t, kind t ∈ kinds) rest.
Proof using Hnz. intros Hs Ht. pose proof (tokens_kinds buf Hnz s Hs) as Hk. rewrite Ht in Hk. by apply Forall_app in Hk as [_ Hk]. Qed.
Lemma g_back_follows c bs c' rest : g_back c bs c' → follows (str ")&;") rest = true → follows (str ")&;") (bs ++ rest) = true.
Proof. by intros []. Qed.

Lemma parse_back_end c bs c' s rest : g_back c bs c' → s ≤ es → tokens s = bs ++ rest → sees (str "&") rest = false →
  ∃ s', parseback buf (S es) c s = POk (c', s') ∧ tokens s' = rest ∧ s' ≤ es.
Proof using Hnz.
  intros Hb Hs Ht Hno. eapply parseback_complete; [done..|]. pose proof (tokens_length buf Hnz s Hs). lia.
Qed.
Lemma accepts_one ts c bs c' : accepts (parsepipe buf) 3 (str ")&;") ts c → g_back c bs c' →
  accepts (parseline buf) 4 (str ")") (ts ++ bs) c'.
Proof using Hnz.
  intros Hpipe Hb turns s rest Hs Ht Hf Hn. destruct turns as [|turns]; [lia|]. cbn [parseline]. rewrite <- app_assoc in Ht.
  destruct (Hpipe turns s (bs ++ rest)) as (s1 & -> & Ht1 & Hs1); [done|done| |lia|].
  { eapply g_back_follows; [done|]. by eapply follows_sub. }
  pose proof (rest_kinds _ _ _ Hs1 Ht1) as Hk. cbn [pbind].
  destruct (parse_back_end _ _ _ s1 rest Hb) as (s2 & -> & Ht2 & Hs2); [done|done|by eapply follows_not|].
  destruct (skip_spec buf s2 Hs2) as [Hsk _]. cbn [pbind]. rewrite (peek_sees buf Hnz), Ht2 by done.
  rewrite (follows_not (str ")") (str ";")) by done. eexists. split_and!; [done|by rewrite tokens_skip|lia].
Qed.
Lemma accepts_list ts c bs c' q e ts2 r : accepts (parsepipe buf) 3 (str ")&;") ts c → g_back c bs c' →
  accepts (parseline buf) 4 (str ")") ts2 r → accepts (parseline buf) 4 (str ")") (ts ++ bs ++ (chr ";", q, e) :: ts2) (LIST c' r).
Proof using Hnz.
  intros Hpipe Hb Hline turns s rest Hs Ht Hf Hn. destruct turns as [|turns]; [lia|]. cbn [parseline].
  rewrite <- !app_assoc, <- app_comm_cons in Ht.
  destruct (Hpipe turns s (bs ++ (chr ";", q, e) :: ts2 ++ rest)) as (s1 & -> & Ht1 & Hs1); [done|done|by eapply g_back_follows|lia|].
  cbn [pbind]. destruct (parse_back_end _ _ _ s1 ((chr ";", q, e) :: ts2 ++ rest) Hb) as (s2 & -> & Ht2 & Hs2); [done..|].
  cbn [pbind]. rewrite (peek_sees buf Hnz), Ht2 by done. change (sees (str ";") _) with true. cbv iota.
  destruct (take_token buf Hnz _ _ _ _ _ Hs2 Ht2) as (s3 & _ & -> & Ht3 & Hs3 & _).
  destruct (Hline turns s3 rest) as (s4 & -> & Ht4 & Hs4); [done|done|done| |].
  { rewrite Ht3. rewrite Ht, !length_app in Hn. cbn [length] in Hn. rewrite length_app in *. lia. }
  cbn [pbind]. eauto.
Qed.
Lemma accepts_pipe ts c q e ts2 r : accepts (parseexec buf) 2 (str "|)&;") ts c → accepts (parsepipe buf) 3 (str ")&;") ts2 r →
  accepts (parsepipe buf) 3 (str ")&;") (ts ++ (chr "|", q, e) :: ts2) (PIPE c r).
Proof using Hnz.
  intros Hexec Hpipe turns s rest Hs Ht Hf Hn. destruct turns as [|turns]; [lia|]. cbn [parsepipe].
  rewrite <- app_assoc, <- app_comm_cons in Ht.
  destruct (Hexec turns s ((chr "|", q, e) :: ts2 ++ rest)) as (s2 & -> & Ht2 & Hs2); [done|done|done|lia|].
  cbn [pbind]. rewrite (peek_sees buf Hnz), Ht2 by done. change (sees (str "|") _) with true. cbv iota.
  destruct (take_token buf Hnz _ _ _ _ _ Hs2 Ht2) as (s3 & _ & -> & Ht3 & Hs3 & _).
  destruct (Hpipe turns s3 rest) as (s4 & -> & Ht4 & Hs4); [done|done|done| |].
  { rewrite Ht3. rewrite Ht, length_app in Hn. cbn [length] in Hn. rewrite length_app in *. lia. }
  cbn [pbind]. eauto.
Qed.
Lemma accepts_exec ts c : accepts (parseexec buf) 2 (str "|)&;") ts c → accepts (parsepipe buf) 3 (str ")&;") ts c.
Proof using Hnz.
  intros Hexec turns s rest Hs Ht Hf Hn. destruct turns as [|turns]; [lia|]. cbn [parsepipe].
  destruct (Hexec turns s rest) as (s2 & -> & Ht2 & Hs2); [done|done|by eapply follows_sub|lia|].
  pose proof (rest_kinds _ _ _ Hs Ht) as Hk. destruct (skip_spec buf s2 Hs2) as [Hsk _].
  cbn [pbind]. rewrite (peek_sees buf Hnz), Ht2 by done. rewrite (follows_not (str ")&;") (str "|")) by done.
  eexists. split_and!; [done|by rewrite tokens_skip|lia].
Qed.
Lemma accepts_block q e ts c q' e' rs c' : accepts (parseline buf) 4 (str ")") ts c → g_redirs c rs c' →
  accepts (parseexec buf) 2 (str "|)&;") ((chr "(", q, e) :: ts ++ (chr ")", q', e') :: rs) c'.
Proof using Hnz.
  intros Hline Hr turns s rest Hs Ht Hf Hn. destruct turns as [|[|turns]]; [lia..|]. cbn [parseexec].
  rewrite <- app_comm_cons, <- app_assoc, <- app_comm_cons in Ht. destruct (skip_spec buf s Hs) as [Hsk _].
  rewrite (peek_sees buf Hnz), Ht by done. change (sees (str "(") _) with true. cbv iota. cbn [parseblock].
  rewrite (peek_sees buf Hnz), tokens_skip, skip_skip, Ht by done || lia. change (sees (str "(") _) with true. cbn [negb].
  destruct (take_token buf Hnz _ _ _ _ _ Hs Ht) as (s1 & _ & -> & Ht1 & Hs1 & _).
  destruct (Hline turns s1 ((chr ")", q', e') :: rs ++ rest)) as (s2 & -> & Ht2 & Hs2); [done|done|done| |].
  { rewrite Ht in Hn. rewrite Ht1. cbn [length] in Hn. lia. }
  cbn [pbind]. rewrite (peek_sees buf Hnz), Ht2 by done. change (sees (str ")") _) with true. cbn [negb].
  destruct (take_token buf Hnz _ _ _ _ _ Hs2 Ht2) as (s3 & _ & -> & Ht3 & Hs3 & _).
  pose proof (rest_kinds _ _ _ Hs3 Ht3) as Hk.
  eapply parseredirs_complete; [done..|by eapply follows_not|]. pose proof (tokens_length buf Hnz s3 Hs3). lia.
Qed.
Lemma g_redirs_head c ts c' rest : g_redirs c ts c' → sees (str "(") rest = false → sees (str "(") (ts ++ rest) = false.
Proof.
  intros [|? k ? ? ? ? ? ? Hk _]; [done|]. intros _. cbn [sees app].
  repeat (apply elem_of_cons in Hk as [-> |Hk]; [done|]). by apply not_elem_of_nil in Hk.
Qed.
Lemma accepts_args ts1 c1 ts2 c2 : g_redirs (EXEC []) ts1 c1 → g_args 0 c1 ts2 c2 →
  accepts (parseexec buf) 2 (str "|)&;") (ts1 ++ ts2) c2.
Proof using Hnz.
  intros Hr Ha turns s rest Hs Ht Hf Hn. destruct turns as [|turns]; [lia|]. cbn [parseexec]. rewrite <- app_assoc in Ht.
  destruct (skip_spec buf s Hs) as [Hsk _]. pose proof (rest_kinds _ _ _ Hs Ht) as Hk. apply Forall_app in Hk as [_ Hk].
  rewrite (peek_sees buf Hnz), Ht by done.
  rewrite (g_redirs_head _ _ _ _ Hr) by (destruct Ha; cbn [app]; [by eapply follows_not|done]).
  destruct (parseredirs_complete buf Hnz _ _ _ Hr (S es) (skip s) (ts2 ++ rest)) as (s1 & -> & Ht1 & Hs1).
  - lia.
  - by rewrite tokens_skip.
  - eapply g_args_head; [done|]. by eapply follows_not.
  - rewrite tokens_skip by done. pose proof (tokens_length buf Hnz s Hs). lia.
  - cbn [pbind]. eapply parseargs_complete; [done..|]. pose proof (tokens_length buf Hnz s1 Hs1). lia.
Qed.
Lemma parse_complete :
  (∀ ts c, g_line ts c → accepts (parseline buf) 4 (str ")") ts c) ∧
  (∀ ts c, g_pipe ts c → accepts (parsepipe buf) 3 (str ")&;") ts c) ∧
  (∀ ts c, g_exec ts c → accepts (parseexec buf) 2 (str "|)&;") ts c).
Proof using Hnz.
  apply (grammar_ind (λ ts c _, accepts (parseline buf) 4 (str ")") ts c)
    (λ ts c _, accepts (parsepipe buf) 3 (str ")&;") ts c) (λ ts c _, accepts (parseexec buf) 2 (str "|)&;") ts c)); intros.
  - by eapply accepts_one.
  - by eapply accepts_list.
  - by apply accepts_exec.
  - by apply accepts_pipe.
  - by eapply accepts_block.
  - by eapply accepts_args.
Qed.
End parse.

(** *** The turns are enough *)
Section ends.
Context (buf : list Z) (Hnz : Forall (λ c, c ≠ 0%Z) buf).
#[local] Abbreviation es := (es buf).
#[local] Abbreviation gettoken := (gettoken buf).
#[local] Abbreviation tokens := (tokens buf).
#[local] Abbreviation skip s := (skip_ws buf (es - s) s).

Lemma parseredirs_ends turns : ∀ c s, s ≤ es → length (tokens s) < turns → parseredirs buf turns c s ≠ PFuel.
Proof using Hnz.
  induction turns as [|turns IH]; intros c s Hs Hn; [lia|]. cbn [parseredirs]. rewrite (peek_sees buf Hnz) by done.
  destruct (sees (str "<>") (tokens s)) eqn:Hsee; [|done].
  destruct (gettoken_seen buf Hnz s _ Hs Hsee) as (k & q & e & s1 & -> & Ht & Hs1 & _).
  pose proof (gettoken_next buf Hnz s1 Hs1) as Hx. destruct (gettoken s1) as [[[k2 f] ef] s2].
  destruct (Z.eqb_spec k2 (chr "a")) as [-> |]; [|done]. cbn [negb].
  inversion Hx as [Ht1 Heq|? ? ? ? Hk2 Hat Hq2 Hs2 Ht1 Heq]; subst. rewrite Ht, Ht1 in Hn. cbn [length] in Hn. apply IH; lia.
Qed.
Lemma parseback_ends turns : ∀ c s, s ≤ es → length (tokens s) < turns → parseback buf turns c s ≠ PFuel.
Proof using Hnz.
  induction turns as [|turns IH]; intros c s Hs Hn; [lia|]. cbn [parseback]. rewrite (peek_sees buf Hnz) by done.
  destruct (sees (str "&") (tokens s)) eqn:Hsee; [|done].
  destruct (gettoken_seen buf Hnz s _ Hs Hsee) as (k & q & e & s1 & -> & Ht & Hs1 & _).
  rewrite Ht in Hn. cbn [length] in Hn. apply IH; lia.
Qed.
Lemma redirs_end c s : s ≤ es → parseredirs buf (S es) c s ≠ PFuel.
Proof using Hnz. intros Hs. apply parseredirs_ends; [done|]. pose proof (tokens_length buf Hnz s Hs). lia. Qed.
Lemma parseargs_ends turns : ∀ n c s, s ≤ es → length (tokens s) < turns → parseargs buf turns n c s ≠ PFuel.
Proof using Hnz.
  induction turns as [|turns IH]; intros n c s Hs Hn; [lia|]. cbn [parseargs]. rewrite (peek_sees buf Hnz) by done.
  destruct (sees _ (tokens s)); [done|]. rewrite gettoken_skip by done.
  pose proof (gettoken_next buf Hnz s Hs) as Hx. destruct (gettoken s) as [[[k q] e] s1].
  inversion Hx as [Ht Heq|? ? ? ? Hk Hat Hq Hs1 Ht Heq]; subst; [done|].
  rewrite (proj2 (Z.eqb_neq k 0)) by done. destruct (negb _); [done|]. destruct (MAXARGS <=? S n); [done|].
  pose proof (redirs_end (add_arg c (skip s) e) s1 ltac:(lia)) as Hr. unfold pbind.
  destruct (parseredirs _ _ _ _) as [[c1 s2]| |] eqn:Hp; [|done..].
  apply (parseredirs_sound buf Hnz) in Hp as (ts1 & Hts1 & _ & Hs2 & _); [|lia].
  rewrite Ht, Hts1 in Hn. cbn [length] in Hn. rewrite length_app in Hn. apply IH; [done|lia].
Qed.
Definition ends (p : nat → nat → pres (cmd * nat)) (need turns : nat) : Prop :=
  ∀ s, s ≤ es → 4 * length (tokens s) + need ≤ turns → p turns s ≠ PFuel.
Lemma shorter s ts s' : tokens s = ts ++ tokens s' → length (tokens s') ≤ length (tokens s).
Proof. intros ->. rewrite length_app. lia. Qed.
Lemma parse_ends turns : ends (parseline buf) 4 turns ∧ ends (parsepipe buf) 3 turns ∧ ends (parseexec buf) 2 turns ∧ ends (parseblock buf) 1 turns.
Proof using Hnz.
  induction turns as [|turns (Hline & Hpipe & Hexec & Hblock)]; [by split_and!; intros s Hs Hn; lia|].
  pose proof (parse_sound buf Hnz turns) as (Sline & Spipe & Sexec & _).
  split_and!; intros s Hs Hn; cbn [parseline parsepipe parseexec parseblock]; unfold pbind.
  - pose proof (Hpipe s Hs ltac:(lia)) as H1. destruct (parsepipe buf turns s) as [[c1 s1]| |] eqn:E1; [|done..].
    apply Spipe in E1 as (ts1 & Ht1%shorter & _ & Hs1); [|done].
    pose proof (parseback_ends (S es) c1 s1 Hs1 ltac:(pose proof (tokens_length buf Hnz s1 Hs1); lia)) as H2.
    destruct (parseback _ _ _ _) as [[c2 s2]| |] eqn:E2; [|done..]. apply (parseback_sound buf Hnz) in E2 as (ts2 & Ht2%shorter & _ & Hs2); [|done].
    rewrite (peek_sees buf Hnz) by done. destruct (sees (str ";") (tokens s2)) eqn:Hsee; [|done].
    destruct (gettoken_seen buf Hnz s2 _ Hs2 Hsee) as (k & q & e & s3 & -> & Ht3 & Hs3 & _).
    rewrite Ht3 in Ht2. cbn [length] in Ht2. pose proof (Hline s3 Hs3 ltac:(lia)). by destruct (parseline buf turns s3) as [[]| |].
  - pose proof (Hexec s Hs ltac:(lia)) as H1. destruct (parseexec buf turns s) as [[c1 s1]| |] eqn:E1; [|done..].
    apply Sexec in E1 as (ts1 & Ht1%shorter & _ & Hs1); [|done].
    rewrite (peek_sees buf Hnz) by done. destruct (sees (str "|") (tokens s1)) eqn:Hsee; [|done].
    destruct (gettoken_seen buf Hnz s1 _ Hs1 Hsee) as (k & q & e & s3 & -> & Ht3 & Hs3 & _).
    rewrite Ht3 in Ht1. cbn [length] in Ht1. pose proof (Hpipe s3 Hs3 ltac:(lia)). by destruct (parsepipe buf turns s3) as [[]| |].
  - destruct (skip_spec buf s Hs) as [Hsk _]. rewrite (peek_sees buf Hnz) by done. destruct (sees (str "(") (tokens s)).
    { apply Hblock; [lia|]. rewrite tokens_skip by done. lia. }
    pose proof (redirs_end (EXEC []) (skip s) ltac:(lia)) as H1. destruct (parseredirs _ _ _ _) as [[c1 s1]| |] eqn:E1; [|done..].
    apply (parseredirs_sound buf Hnz) in E1 as (ts1 & _ & _ & Hs1 & _); [|lia]. apply parseargs_ends; [done|].
    pose proof (tokens_length buf Hnz s1 Hs1). lia.
  - rewrite (peek_sees buf Hnz) by done. destruct (sees (str "(") (tokens s)) eqn:Hsee; [|done]. cbn [negb].
    destruct (gettoken_seen buf Hnz s _ Hs Hsee) as (k & q & e & s1 & -> & Ht1 & Hs1 & _). rewrite Ht1 in Hn. cbn [length] in Hn.
    pose proof (Hline s1 Hs1 ltac:(lia)) as H2. destruct (parseline buf turns s1) as [[c2 s2]| |] eqn:E2; [|done..].
    apply Sline in E2 as (ts2 & _ & _ & Hs2); [|done]. rewrite (peek_sees buf Hnz) by done.
    destruct (sees (str ")") (tokens s2)) eqn:Hsee2; [|done]. cbn [negb].
    destruct (gettoken_seen buf Hnz s2 _ Hs2 Hsee2) as (k2 & q2 & e2 & s3 & -> & _ & Hs3 & _). by apply redirs_end.
Qed.
End ends.

(** ** The words of a command *)

(** the strings a tree points to *)
Inductive shcmd :=
  | Exec (argv : list (list Z))
  | Redir (c : shcmd) (file : list Z) (mode fd : Z)
  | Pipe (left right : shcmd)
  | List (left right : shcmd)
  | Back (c : shcmd).
(** a C string: the characters up to the NUL *)
Fixpoint cstring (m : list Z) : list Z :=
  match m with
  | [] => []
  | c :: m => if (c =? 0)%Z then [] else c :: cstring m
  end.
Fixpoint shape (f : nat → nat → list Z) (c : cmd) : shcmd :=
  match c with
  | EXEC argv => Exec ((λ a, f a.1 a.2) <$> argv)
  | REDIR c q e mode fd => Redir (shape f c) (f q e) mode fd
  | PIPE l r => Pipe (shape f l) (shape f r)
  | LIST l r => List (shape f l) (shape f r)
  | BACK c => Back (shape f c)
  end.
(** as [runcmd] reads it, and as it is in the line *)
Definition strings_of (m : list Z) : cmd → shcmd := shape (λ q _, cstring (drop q m)).
Definition words_of (buf : list Z) : cmd → shcmd := shape (λ q e, take (e - q) (drop q buf)).

Fixpoint pairs (c : cmd) : list (nat * nat) :=
  match c with
  | EXEC argv => argv
  | REDIR c q e _ _ => pairs c ++ [(q, e)]
  | PIPE l r => pairs l ++ pairs r
  | LIST l r => pairs l ++ pairs r
  | BACK c => pairs c
  end.
Lemma shape_ext f g c : (∀ q e, (q, e) ∈ pairs c → f q e = g q e) → shape f c = shape g c.
Proof.
  induction c as [argv|c IH q e mode fd|l IHl r IHr|l IHl r IHr|c IH]; cbn [pairs shape]; intros H.
  - f_equal. apply list_fmap_ext. intros i [q e] Hi. apply H. by eapply list_elem_of_lookup_2.
  - rewrite IH by (intros; apply H; set_solver). f_equal. apply H. set_solver.
  - by rewrite IHl, IHr by (intros; apply H; set_solver).
  - by rewrite IHl, IHr by (intros; apply H; set_solver).
  - by rewrite IH.
Qed.

(** [nulterminate] writes a NUL at the ends of the words *)
Definition nul_at (es : list nat) (m m' : list Z) : Prop :=
  length m' = length m ∧ ∀ i, m' !! i = if decide (i ∈ es) then (λ _, 0%Z) <$> m !! i else m !! i.
Lemma nul_at_insert es m m' e : nul_at es m m' → nul_at (es ++ [e]) m (<[e := 0%Z]> m').
Proof.
  intros [Hl Hm]. split; [by rewrite length_insert|]. intros i. destruct (decide (e = i)) as [-> |Hne].
  - rewrite decide_True by set_solver. destruct (decide (i < length m')) as [Hlt|Hge].
    + rewrite list_lookup_insert_eq by done. destruct (lookup_lt_is_Some_2 m i) as [x ->]; [lia|]. done.
    + rewrite list_insert_ge, Hm by lia. rewrite (lookup_ge_None_2 m) by lia. by destruct (decide _).
  - rewrite list_lookup_insert_ne, Hm by done. destruct (decide (i ∈ es)); [by rewrite decide_True by set_solver|by rewrite decide_False by set_solver].
Qed.
Lemma nul_at_trans es es' m m1 m2 : nul_at es m m1 → nul_at es' m1 m2 → nul_at (es ++ es') m m2.
Proof.
  intros [L1 H1] [L2 H2]. split; [congruence|]. intros i. rewrite H2, H1.
  destruct (decide (i ∈ es')), (decide (i ∈ es)), (m !! i); repeat case_decide; set_solver.
Qed.
Lemma nulterminate_spec c : ∀ m, nul_at (pairs c).*2 m (nulterminate c m).
Proof.
  induction c as [argv|c IH q e mode fd|l IHl r IHr|l IHl r IHr|c IH]; intros m; cbn [pairs nulterminate]; rewrite ?fmap_app.
  - induction argv as [|[q e] argv IH] using rev_ind; [split; [done|]; intros i; by case_decide as Hd; [apply not_elem_of_nil in Hd|]|].
    rewrite foldl_snoc, fmap_app. by apply nul_at_insert.
  - apply nul_at_insert, IH.
  - eapply nul_at_trans; [apply IHl|apply IHr].
  - eapply nul_at_trans; [apply IHl|apply IHr].
  - apply IH.
Qed.
Lemma cstring_take m n : (∀ i x, i < n → m !! i = Some x → x ≠ 0%Z) → m !! n = Some 0%Z → cstring m = take n m.
Proof.
  revert n. induction m as [|x m IH]; intros n Hnz Hn; [done|]. destruct n as [|n]; cbn [cstring take].
  - by injection Hn as ->.
  - rewrite (proj2 (Z.eqb_neq x 0)) by (apply (Hnz 0 x); [lia|done]). f_equal. apply IH; [|done].
    intros i y Hi Hy. apply (Hnz (S i) y); [lia|done].
Qed.

(** the words of a tree are words of the line *)
Definition words_in (ts : list tok) (c : cmd) : Prop := ∀ q e, (q, e) ∈ pairs c → (chr "a", q, e) ∈ ts.
Lemma redir_words k c q e : pairs (redir k c q e) ⊆ pairs c ++ [(q, e)].
Proof. unfold redir. repeat case_match; cbn [pairs]; set_solver. Qed.
Lemma add_arg_words c q e : pairs (add_arg c q e) ⊆ pairs c ++ [(q, e)].
Proof. induction c; cbn [add_arg pairs]; set_solver. Qed.
Lemma g_redirs_words c ts c' ts0 : g_redirs c ts c' → words_in ts0 c → words_in (ts0 ++ ts) c'.
Proof.
  intros Hg. revert ts0. induction Hg as [|c k q e f ef ts c' _ _ IH]; intros ts0 Hw; [by rewrite app_nil_r|].
  change (_ :: _ :: ts) with ([(k, q, e); (chr "a", f, ef)] ++ ts). rewrite app_assoc. apply IH. intros a b Hin%redir_words. set_solver.
Qed.
Lemma g_args_words n c ts c' ts0 : g_args n c ts c' → words_in ts0 c → words_in (ts0 ++ ts) c'.
Proof.
  intros Hg. revert ts0. induction Hg as [|n c q e ts1 c1 ts2 c2 _ Hr _ IH]; intros ts0 Hw; [by rewrite app_nil_r|].
  change (_ :: ts1 ++ ts2) with ([(chr "a", q, e)] ++ ts1 ++ ts2). rewrite !app_assoc. apply IH.
  eapply g_redirs_words; [done|]. intros a b Hin%add_arg_words. set_solver.
Qed.
Lemma g_back_words c ts c' ts0 : g_back c ts c' → words_in ts0 c → words_in (ts0 ++ ts) c'.
Proof.
  intros Hg. revert ts0. induction Hg as [|c q e ts c' _ IH]; intros ts0 Hw; [by rewrite app_nil_r|].
  change (_ :: ts) with ([(chr "&", q, e)] ++ ts). rewrite app_assoc. apply IH. intros a b Hin. cbn [pairs] in Hin. set_solver.
Qed.
Lemma grammar_words : (∀ ts c, g_line ts c → words_in ts c) ∧ (∀ ts c, g_pipe ts c → words_in ts c) ∧ (∀ ts c, g_exec ts c → words_in ts c).
Proof.
  apply (grammar_ind (λ ts c _, words_in ts c) (λ ts c _, words_in ts c) (λ ts c _, words_in ts c)).
  - intros ts c bs c' _ IH Hb. by eapply g_back_words.
  - intros ts c bs c' q e ts2 r _ IH Hb _ IH2 a b Hin. cbn [pairs] in Hin. pose proof (g_back_words _ _ _ _ Hb IH a b). specialize (IH2 a b). set_solver.
  - done.
  - intros ts c q e ts2 r _ IH _ IH2 a b Hin. cbn [pairs] in Hin. specialize (IH a b). specialize (IH2 a b). set_solver.
  - intros q e ts c q' e' rs c' _ IH Hr a b Hin. pose proof (g_redirs_words _ _ _ _ Hr IH a b Hin). set_solver.
  - intros ts1 c1 ts2 c2 Hr Ha a b Hin. assert (H0 : words_in [] (EXEC [])) by (intros x y Hxy; by apply not_elem_of_nil in Hxy).
    exact (g_args_words _ _ _ _ _ Ha (g_redirs_words _ _ _ _ Hr H0) a b Hin).
Qed.
Lemma tokens_token_at buf : Forall (λ c, c ≠ 0%Z) buf → ∀ s, s ≤ es buf → ∀ k q e, (k, q, e) ∈ tokens buf s → token_at buf k q e.
Proof.
  intros Hnz s. remember (es buf - s) as n eqn:Hn. revert s Hn. induction n as [n IH] using lt_wf_ind. intros s -> Hs k q e.
  pose proof (gettoken_next buf Hnz s Hs) as Hx. inversion Hx as [Ht Heq|k' q' e' s' Hk Hat Hq Hs' Ht Heq]; rewrite Ht; [by intros ?%not_elem_of_nil|].
  intros [[= -> -> ->]|Hin]%elem_of_cons; [done|]. eapply (IH (es buf - s')); [lia|done|lia|done].
Qed.

(** ** What the parser does *)

Lemma parsecmd_spec buf : Forall (λ c, c ≠ 0%Z) buf →
  parsecmd buf ≠ PFuel ∧
  ∀ c m, parsecmd buf = POk (c, m) ↔ g_line (tokens buf 0) c ∧ m = nulterminate c (buf ++ [0%Z]).
Proof.
  intros Hnz. pose proof (tokens_length buf Hnz 0 ltac:(lia)) as Hlen. unfold parsecmd.
  pose proof (proj1 (parse_ends buf Hnz (4 * S (es buf))) 0 ltac:(lia) ltac:(lia)) as Hend. split.
  { unfold pbind. destruct (parseline _ _ _) as [[c s]| |]; [|done..]. destruct (peek buf s []) as [? s']. by destruct (negb _). }
  intros c m. split.
  - unfold pbind. destruct (parseline _ _ _) as [[c' s]| |] eqn:Hp; [|done..].
    apply (proj1 (parse_sound buf Hnz _)) in Hp as (ts & Ht & Hg & Hs); [|lia]. rewrite (peek_sees buf Hnz) by done.
    destruct (Nat.eqb_spec (skip_ws buf (es buf - s) s) (es buf)) as [He|]; [|done]. intros [= <- <-].
    apply (tokens_nil buf Hnz) in He; [|done]. rewrite He, app_nil_r in Ht. by rewrite Ht.
  - intros [Hg ->]. destruct (proj1 (parse_complete buf Hnz) _ _ Hg (4 * S (es buf)) 0 []) as (s & -> & Ht & Hs); [lia|by rewrite app_nil_r|done|lia|].
    cbn [pbind]. rewrite (peek_sees buf Hnz) by done. apply (tokens_nil buf Hnz) in Ht; [|done]. rewrite Ht, Nat.eqb_refl. done.
Qed.
Lemma word_string buf c q e : Forall (λ c, c ≠ 0%Z) buf → words_in (tokens buf 0) c → (q, e) ∈ pairs c →
  cstring (drop q (nulterminate c (buf ++ [0%Z]))) = take (e - q) (drop q buf).
Proof.
  intros Hnz Hw Hin. pose proof (λ q e H, tokens_token_at buf Hnz 0 ltac:(lia) _ _ _ (Hw q e H)) as Hat.
  pose proof (Hat q e Hin) as Hqe. pose proof (tk_range _ _ _ _ Hqe) as Hr. unfold es in Hr.
  destruct (nulterminate_spec c (buf ++ [0%Z])) as [Hlen Hm]. set (m := nulterminate c (buf ++ [0%Z])) in *.
  assert (Hsame : ∀ i, q ≤ i < e → m !! i = buf !! i).
  { intros i Hi. rewrite Hm, decide_False; [apply lookup_app_l; lia|]. intros ([q' e'] & Heq & Hin')%list_elem_of_fmap. cbn in Heq. subst e'.
    pose proof (tk_end _ _ _ _ (Hat _ _ Hin') eq_refl ltac:(unfold es; lia)) as Hd.
    rewrite (tk_word _ _ _ _ Hqe i) in Hd by done. done. }
  rewrite (cstring_take _ (e - q)).
  - apply list_eq. intros i. destruct (decide (i < e - q)) as [Hi|Hi].
    + rewrite !lookup_take_lt, !lookup_drop by done. apply Hsame. lia.
    + by rewrite !lookup_take_ge by lia.
  - intros i x Hi. rewrite lookup_drop, Hsame by lia. intros Hx. rewrite Forall_lookup in Hnz. by eapply Hnz.
  - rewrite lookup_drop. replace (q + (e - q)) with e by lia. rewrite Hm, decide_True.
    + destruct (lookup_lt_is_Some_2 (buf ++ [0%Z]) e) as [x ->]; [rewrite length_app; simpl; lia|done].
    + apply list_elem_of_fmap. by exists (q, e).
Qed.

(** C37: the parser ends on every line, and it accepts exactly the sentences of
    the grammar: [parsecmd] returns a tree, instead of a panic, if and only if
    the tokens of the line are a [line] of the grammar, and the tree it returns
    is the one the grammar gives. *)
Theorem parsecmd_grammar buf : Forall (λ c, c ≠ 0%Z) buf →
  parsecmd buf ≠ PFuel ∧
  ∀ c m, parsecmd buf = POk (c, m) ↔ g_line (tokens buf 0) c ∧ m = nulterminate c (buf ++ [0%Z]).
Proof. apply parsecmd_spec. Qed.

(** C38: the strings of a parsed command are the words of the line: in the line
    as [nulterminate] leaves it, each pointer of the tree is a C string that is
    exactly its word, so that no word is cut short or run into the next. *)
Theorem parsecmd_words buf c m : Forall (λ c, c ≠ 0%Z) buf → parsecmd buf = POk (c, m) → strings_of m c = words_of buf c.
Proof.
  intros Hnz (Hg & ->)%(parsecmd_spec buf Hnz). apply shape_ext. intros q e Hin. apply word_string; [done| |done].
  by apply (proj1 grammar_words).
Qed.

(** *** An example *)
Definition example_line : list Z := str "(echo a>x; b) | wc -l >> out &".
Definition example_parse : cmd * list Z := match parsecmd example_line with POk r => r | _ => (EXEC [], []) end.
Lemma example_line_chars : Forall (λ c, c ≠ 0%Z) example_line.
Proof. by repeat constructor. Qed.
Lemma parsecmd_grammar_witness : g_line (tokens example_line 0) example_parse.1.
Proof. exact (proj1 (proj1 (proj2 (parsecmd_grammar example_line example_line_chars) example_parse.1 example_parse.2) eq_refl)). Defined.
Lemma parsecmd_words_witness : strings_of example_parse.2 example_parse.1 =
  Back (Pipe (List (Redir (Exec [str "echo"; str "a"]) (str "x") 1537 1) (Exec [str "b"]))
    (Redir (Exec [str "wc"; str "-l"]) (str "out") 513 1)).
Proof.
  refine (eq_trans (parsecmd_words example_line example_parse.1 example_parse.2 example_line_chars eq_refl) _).
  vm_compute. reflexivity.
Defined.
