(* ===== verification/ShRun.v ===== *)
(** * Running commands, [user/sh.c]

    [runcmd] sets up the descriptors of the programs a command runs, by
    [close], [open], [dup] and [pipe], which take the lowest free descriptor;
    [main] makes sure that descriptors 0, 1 and 2 are open, reads lines, and
    runs [cd] itself.  What a shell does is the tree of the processes it
    makes, with the programs they run and the descriptors these have. *)

From S2P Require Import Prelude Fsdata Kstate ShParse.

(** ** Descriptors *)

(** what a descriptor stands for: an opened file, or an end of a pipe, which
    has a number *)
Inductive ofile := OFile (name : list Z) (mode : Z) | OPipeR (n : nat) | OPipeW (n : nat).
#[export] Instance ofile_eq_dec : EqDecision ofile.
Proof. solve_decision. Defined.
Abbreviation fdtable := (gmap nat ofile).
(** the lowest free descriptor, as [fdalloc] of [kernel/sysfile.c] gives it *)
Definition lowest (w : fdtable) (f : ofile) : option (nat * fdtable) :=
  fd ← find (λ i, bool_decide (w !! i = None)) (seq 0 NOFILE);
  Some (fd, <[fd := f]> w).

(** the processes: what each does until it ends *)
Inductive tree :=
  | TExec (argv : list (list Z)) (w : fdtable)   (** becomes another program, or exits if it cannot *)
  | TExit (status : Z)
  | TFork (child parent : tree)
  | TWait (t : tree)
  | TChdir (dir : list Z) (t : tree)
  | TMore.                                       (** turns used up *)

Section run.
(** which files can be opened, and whether the [n]-th [fork] and [pipe] of a
    run succeed *)
Context (can_open : list Z → Z → bool) (can_fork can_pipe : nat → bool).

Definition u_close (fd : nat) (w : fdtable) : fdtable := delete fd w.
Definition u_open (file : list Z) (mode : Z) (w : fdtable) : option (nat * fdtable) :=
  if can_open file mode then lowest w (OFile file mode) else None.
Definition u_dup (fd : nat) (w : fdtable) : fdtable :=
  match w !! fd with
  | Some f => match lowest w f with Some (_, w) => w | None => w end
  | None => w
  end.
Definition u_pipe (n : nat) (w : fdtable) : option (nat * nat * fdtable) :=
  if can_pipe n then
    '(p0, w) ← lowest w (OPipeR n);
    '(p1, w) ← lowest w (OPipeW n);
    Some (p0, p1, w)
  else None.

(** ** The code *)

(** [runcmd]; [n] numbers the forks and pipes made so far *)
Fixpoint runcmd (c : shcmd) (w : fdtable) (n : nat) : tree * nat :=
  match c with
  | Exec argv =>
      match argv with
      | [] => (TExit 1, n)
      | _ => (TExec argv w, n)
      end
  | Redir c file mode fd =>
      let w := u_close (Z.to_nat fd) w in
      match u_open file mode w with
      | None => (TExit 1, n)
      | Some (_, w) => runcmd c w n
      end
  | List l r =>
      if negb (can_fork n) then (TExit 1, S n) else
      let '(t, n) := runcmd l w (S n) in
      let '(t', n) := runcmd r w n in
      (TFork t (TWait t'), n)
  | Pipe l r =>
      match u_pipe n w with
      | None => (TExit 1, S n)
      | Some (p0, p1, w) =>
          let n := S n in
          if negb (can_fork n) then (TExit 1, S n) else
          let '(t, n) := runcmd l (u_close p1 (u_close p0 (u_dup p1 (u_close 1 w)))) (S n) in
          if negb (can_fork n) then (TFork t (TExit 1), S n) else
          let '(t', n) := runcmd r (u_close p1 (u_close p0 (u_dup p0 (u_close 0 w)))) (S n) in
          (TFork t (TFork t' (TWait (TWait (TExit 0)))), n)
      end
  | Back c =>
      if negb (can_fork n) then (TExit 1, S n) else
      let '(t, n) := runcmd c w (S n) in
      (TFork t (TExit 0), n)
  end.

(** [while((fd = open("console", O_RDWR)) >= 0) ...] of [main] *)
Fixpoint open_console (turns : nat) (w : fdtable) : fdtable :=
  match turns with
  | O => w
  | S turns =>
      match u_open (str "console") O_RDWR w with
      | None => w
      | Some (fd, w) => if 3 <=? fd then u_close fd w else open_console turns w
      end
  end.

(** [gets] of [user/ulib.c]: the line read into the buffer, and what is left
    of the input; [max] counts the characters that still fit *)
Fixpoint gets (max : nat) (inp : list Z) : list Z * list Z :=
  match max, inp with
  | S max, c :: inp =>
      if (c =? 10)%Z || (c =? 13)%Z then ([c], inp)
      else let '(l, inp) := gets max inp in (c :: l, inp)
  | _, _ => ([], inp)
  end.
Definition nbuf : nat := 100.

Fixpoint skip_blanks (s : list Z) : list Z :=
  match s with
  | c :: s' => if (c =? 32)%Z || (c =? 9)%Z then skip_blanks s' else s
  | [] => []
  end.
(** [cmd[0] == 'c' && cmd[1] == 'd' && cmd[2] == ' '] *)
Definition char (i : nat) (s : list Z) : Z := default 0%Z (s !! i).
Definition is_cd (cmd : list Z) : bool :=
  (char 0 cmd =? chr "c")%Z && (char 1 cmd =? chr "d")%Z && (char 2 cmd =? chr " ")%Z.
(** the child that runs a command line *)
Definition run_line (cmd : list Z) (w : fdtable) (n : nat) : tree * nat :=
  match parsecmd cmd with
  | POk (c, m) => runcmd (strings_of m c) w n
  | _ => (TExit 1, n)
  end.
(** the loop of [main]; the input is read one line at a time *)
Fixpoint sh_loop (turns : nat) (inp : list Z) (w : fdtable) (n : nat) : tree * nat :=
  match turns with
  | O => (TMore, n)
  | S turns =>
      let '(buf, inp) := gets (nbuf - 1) inp in
      let buf := cstring buf in
      match buf with
      | [] => (TExit 0, n)
      | _ =>
          let cmd := skip_blanks buf in
          if (char 0 cmd =? 10)%Z then sh_loop turns inp w n else
          if is_cd cmd then
            let '(t, n) := sh_loop turns inp w n in (TChdir (drop 3 (removelast cmd)) t, n)
          else
            if negb (can_fork n) then (TExit 1, S n) else
            let '(t, n) := run_line cmd w (S n) in
            let '(t', n) := sh_loop turns inp w n in
            (TFork t (TWait t'), n)
      end
  end.
Definition sh_main (inp : list Z) (w : fdtable) : tree * nat :=
  sh_loop (S (length inp)) inp (open_console (S NOFILE) w) 0.

(** ** What a command should run *)

(** each program with the descriptors its command gives it *)
Fixpoint wants (c : shcmd) (w : fdtable) (n : nat) : tree * nat :=
  match c with
  | Exec [] => (TExit 1, n)
  | Exec argv => (TExec argv w, n)
  | Redir c file mode fd =>
      if can_open file mode then wants c (<[Z.to_nat fd := OFile file mode]> w) n else (TExit 1, n)
  | Pipe l r =>
      let '(t, n1) := wants l (<[1 := OPipeW n]> w) (S (S n)) in
      let '(t', n2) := wants r (<[0 := OPipeR n]> w) (S n1) in
      (TFork t (TFork t' (TWait (TWait (TExit 0)))), n2)
  | List l r =>
      let '(t, n) := wants l w (S n) in
      let '(t', n) := wants r w n in
      (TFork t (TWait t'), n)
  | Back c => let '(t, n) := wants c w (S n) in (TFork t (TExit 0), n)
  end.
(** redirections are of the standard input or output *)
Fixpoint std_redirs (c : shcmd) : Prop :=
  match c with
  | Exec _ => True
  | Redir c _ _ fd => (fd = 0 ∨ fd = 1)%Z ∧ std_redirs c
  | Pipe l r | List l r => std_redirs l ∧ std_redirs r
  | Back c => std_redirs c
  end.
(** the descriptors 0, 1 and 2 are open, and no other *)
Definition std (w : fdtable) : Prop := ∀ i, is_Some (w !! i) ↔ i < 3.

Lemma find_seq (f : nat → bool) k : ∀ n a, (∀ i, a ≤ i < k → f i = false) → f k = true → a ≤ k < a + n → find f (seq a n) = Some k.
Proof.
  induction n as [|n IH]; intros a Hlt Hk Hr; [lia|]. cbn [seq find]. destruct (decide (a = k)) as [-> |]; [by rewrite Hk|].
  rewrite Hlt by lia. apply IH; [|done|lia]. intros i Hi. apply Hlt. lia.
Qed.
Lemma lowest_spec w f k : (∀ i, i < k → is_Some (w !! i)) → w !! k = None → k < NOFILE → lowest w f = Some (k, <[k := f]> w).
Proof.
  intros Hlt Hk Hn. unfold lowest. rewrite (find_seq _ k); [done| | |lia].
  - intros i Hi. apply bool_decide_eq_false. destruct (Hlt i) as [x ->]; [lia|done].
  - by apply bool_decide_eq_true.
Qed.
Lemma std_insert w i f : std w → i < 3 → std (<[i := f]> w).
Proof. intros Hs Hi j. rewrite lookup_insert_is_Some'. rewrite (Hs j). lia. Qed.
Lemma std_None w i : std w → 3 ≤ i → w !! i = None.
Proof. intros Hs Hi. apply eq_None_not_Some. rewrite (Hs i). lia. Qed.
(** [close(fd)] and then [dup] or [open] replaces what [fd] stands for *)
Lemma close_lowest w fd f : (∀ i, i < fd → is_Some (w !! i)) → fd < NOFILE →
  lowest (u_close fd w) f = Some (fd, <[fd := f]> w).
Proof.
  intros Hlt Hn. unfold u_close. rewrite (lowest_spec _ _ fd); [by rewrite insert_delete_eq| | |done].
  - intros i Hi. rewrite lookup_delete_ne by lia. by apply Hlt.
  - apply lookup_delete_eq.
Qed.
Lemma pipe_std w n : std w → can_pipe n = true →
  u_pipe n w = Some (3, 4, <[4 := OPipeW n]> (<[3 := OPipeR n]> w)).
Proof.
  intros Hs Hp. unfold u_pipe. rewrite Hp. rewrite (lowest_spec w _ 3); [|intros i Hi; by apply Hs|by apply std_None; [|lia]|unfold NOFILE; lia].
  cbn [mbind option_bind]. rewrite (lowest_spec _ _ 4); [done| | |unfold NOFILE; lia].
  - intros i Hi. rewrite lookup_insert_is_Some'. rewrite (Hs i). lia.
  - rewrite lookup_insert_ne by lia. apply std_None; [done|lia].
Qed.
Lemma pipe_child w n fd p f : std w → (fd = 0 ∨ fd = 1) → (p = 3 ∧ f = OPipeR n ∨ p = 4 ∧ f = OPipeW n) →
  u_close 4 (u_close 3 (u_dup p (u_close fd (<[4 := OPipeW n]> (<[3 := OPipeR n]> w))))) = <[fd := f]> w.
Proof.
  intros Hs Hfd Hp. unfold u_dup. set (w1 := <[4 := OPipeW n]> (<[3 := OPipeR n]> w)).
  assert (Hw1 : ∀ i, i < 5 → is_Some (w1 !! i)) by (intros i Hi; unfold w1; rewrite !lookup_insert_is_Some', (Hs i); lia).
  assert (Hf : u_close fd w1 !! p = Some f).
  { unfold u_close, w1. rewrite lookup_delete_ne by lia. destruct Hp as [[-> ->]|[-> ->]]; [|apply lookup_insert_eq].
    rewrite lookup_insert_ne by lia. apply lookup_insert_eq. }
  rewrite Hf, close_lowest; [|intros i Hi; apply Hw1; lia|unfold NOFILE; lia]. unfold u_close, w1.
  apply map_eq. intros i. destruct (decide (i = 4)) as [-> |]; [|destruct (decide (i = 3)) as [-> |]].
  - rewrite lookup_delete_eq, lookup_insert_ne by lia. symmetry. apply std_None; [done|lia].
  - rewrite lookup_delete_ne, lookup_delete_eq, lookup_insert_ne by lia. symmetry. apply std_None; [done|lia].
  - rewrite !lookup_delete_ne by lia. destruct (decide (fd = i)) as [-> |]; [by rewrite !lookup_insert_eq|].
    by rewrite !lookup_insert_ne by lia.
Qed.

Context (Hfork : ∀ n, can_fork n = true) (Hpipe : ∀ n, can_pipe n = true).
Lemma runcmd_wants c : ∀ w n, std w → std_redirs c → runcmd c w n = wants c w n.
Proof using Hfork Hpipe.
  induction c as [argv|c IH file mode fd|l IHl r IHr|l IHl r IHr|c IH]; intros w n Hs Hr; cbn [runcmd wants std_redirs] in *.
  - by destruct argv.
  - destruct Hr as [Hfd Hr]. unfold u_open. destruct (can_open file mode); [|done].
    rewrite close_lowest; [|intros i Hi; apply Hs; lia|unfold NOFILE; lia]. apply IH; [|done]. apply std_insert; [done|lia].
  - rewrite pipe_std by done. rewrite !Hfork. cbn [negb]. destruct Hr as [Hrl Hrr].
    rewrite (pipe_child w n 1 4 (OPipeW n)) by tauto. rewrite IHl by (done || (apply std_insert; [done|lia])).
    destruct (wants l _ _) as [t n1]. rewrite Hfork. cbn [negb].
    rewrite (pipe_child w n 0 3 (OPipeR n)) by tauto. by rewrite IHr by (done || (apply std_insert; [done|lia])).
  - rewrite Hfork. cbn [negb]. destruct Hr as [Hrl Hrr]. rewrite IHl by done. destruct (wants l w (S n)) as [t n1]. by rewrite IHr.
  - rewrite Hfork. cbn [negb]. by rewrite IH.
Qed.

(** the parser makes only such redirections *)
Section parsed.
Context (f : nat → nat → list Z).
#[local] Abbreviation ok c := (std_redirs (shape f c)).
Lemma redir_std k c q e : ok c → ok (redir k c q e).
Proof. intros Hc. unfold redir. repeat case_match; cbn [shape std_redirs]; tauto. Qed.
Lemma add_arg_std c q e : ok c → ok (add_arg c q e).
Proof. induction c; cbn [add_arg shape std_redirs]; tauto. Qed.
Lemma g_redirs_std c ts c' : g_redirs c ts c' → ok c → ok c'.
Proof. induction 1 as [|c k q e f0 ef ts c' _ _ IH]; intros Hc; [done|]. by apply IH, redir_std. Qed.
Lemma g_args_std n c ts c' : g_args n c ts c' → ok c → ok c'.
Proof. induction 1 as [|n c q e ts1 c1 ts2 c2 _ Hr _ IH]; intros Hc; [done|]. by eapply IH, g_redirs_std, add_arg_std. Qed.
Lemma g_back_std c ts c' : g_back c ts c' → ok c → ok c'.
Proof. induction 1 as [|c q e ts c' _ IH]; intros Hc; [done|]. by apply IH. Qed.
Lemma grammar_std : (∀ ts c, g_line ts c → ok c) ∧ (∀ ts c, g_pipe ts c → ok c) ∧ (∀ ts c, g_exec ts c → ok c).
Proof.
  apply (grammar_ind (λ ts c _, ok c) (λ ts c _, ok c) (λ ts c _, ok c)); intros; cbn [shape std_redirs].
  - by eapply g_back_std.
  - split; [by eapply g_back_std|done].
  - done.
  - done.
  - by eapply g_redirs_std.
  - by eapply g_args_std, g_redirs_std.
Qed.
End parsed.
Lemma run_line_wants line c m w n : Forall (λ c, c ≠ 0%Z) line → parsecmd line = POk (c, m) → std w →
  run_line line w n = wants (words_of line c) w n.
Proof using Hfork Hpipe.
  intros Hnz Hp Hs. unfold run_line. rewrite Hp. pose proof Hp as [Hg ->]%(parsecmd_spec line Hnz).
  assert (strings_of (nulterminate c (line ++ [0%Z])) c = words_of line c) as ->.
  { apply shape_ext. intros q e Hin. apply word_string; [done|by apply (proj1 grammar_words)|done]. }
  apply runcmd_wants; [done|]. by eapply (proj1 (grammar_std _)).
Qed.

(** ** What the shell should do *)

(** a script, one line after the other *)
Fixpoint script (lines : list (list Z)) (w : fdtable) (n : nat) : tree * nat :=
  match lines with
  | [] => (TExit 0, n)
  | line :: lines =>
      let cmd := skip_blanks (line ++ [10%Z]) in
      if (char 0 cmd =? 10)%Z then script lines w n else
      if is_cd cmd then let '(t, n) := script lines w n in (TChdir (drop 3 (removelast cmd)) t, n) else
      let '(t, n) := match parsecmd cmd with
                     | POk (c, _) => wants (words_of cmd c) w (S n)
                     | _ => (TExit 1, S n)
                     end in
      let '(t', n) := script lines w n in
      (TFork t (TWait t'), n)
  end.
(** a line that fits the buffer of the shell *)
Definition fits (line : list Z) : Prop := length line + 2 ≤ nbuf ∧ Forall (λ c, c ≠ 0%Z ∧ c ≠ 10%Z ∧ c ≠ 13%Z) line.
Definition input (lines : list (list Z)) : list Z := lines ≫= λ line, line ++ [10%Z].

Lemma gets_line line rest : ∀ max, length line < max → Forall (λ c, c ≠ 0%Z ∧ c ≠ 10%Z ∧ c ≠ 13%Z) line →
  gets max ((line ++ [10%Z]) ++ rest) = (line ++ [10%Z], rest).
Proof.
  induction line as [|c line IH]; intros [|max] Hm Hl; cbn [length] in *; [lia|done|lia|].
  apply Forall_cons in Hl as [(_ & H10 & H13) Hl]. cbn [app gets]. rewrite (proj2 (Z.eqb_neq c 10)), (proj2 (Z.eqb_neq c 13)) by done.
  cbn [orb]. rewrite <- app_assoc in IH. cbn [app] in *. rewrite <- app_assoc. cbn [app]. by rewrite IH by (done || lia).
Qed.
Lemma cstring_id l : Forall (λ c, c ≠ 0%Z) l → cstring l = l.
Proof. induction 1 as [|c l Hc _ IH]; [done|]. cbn [cstring]. by rewrite (proj2 (Z.eqb_neq c 0)), IH by done. Qed.
Lemma skip_blanks_Forall (P : Z → Prop) l : Forall P l → Forall P (skip_blanks l).
Proof. induction 1 as [|c l Hc Hl IH]; [constructor|]. cbn [skip_blanks]. destruct (_ || _); [done|]. by constructor. Qed.
Lemma sh_loop_script lines : ∀ turns w n, length lines < turns → Forall fits lines → std w →
  sh_loop turns (input lines) w n = script lines w n.
Proof using Hfork Hpipe.
  induction lines as [|line lines IH]; intros [|turns] w n Ht Hf Hs; cbn [length] in Ht; [lia| |lia|].
  { done. }
  apply Forall_cons in Hf as [[Hlen Hl] Hf]. cbn [sh_loop]. unfold input. cbn [mbind list_bind]. fold (input lines).
  rewrite gets_line by (done || (unfold nbuf in *; lia)).
  assert (Hnz : Forall (λ c, c ≠ 0%Z) (line ++ [10%Z])).
  { apply Forall_app. split; [|by repeat constructor]. eapply Forall_impl; [done|]. by intros c (? & _). }
  rewrite cstring_id by done. cbn [script]. pose proof (skip_blanks_Forall _ _ Hnz) as Hnz'.
  destruct (line ++ [10%Z]) eqn:Hline; [by destruct line|]. rewrite <- Hline in *. clear Hline.
  set (cmd := skip_blanks (line ++ [10%Z])) in *.
  assert (Hrun : run_line cmd w (S n) = match parsecmd cmd with POk (c, _) => wants (words_of cmd c) w (S n) | _ => (TExit 1, S n) end).
  { destruct (parsecmd cmd) as [[c m]| |] eqn:Hp; [by eapply run_line_wants|by unfold run_line; rewrite Hp..]. }
  assert (HI : ∀ n, sh_loop turns (input lines) w n = script lines w n) by (intros; apply IH; done || lia).
  destruct (char 0 cmd =? 10)%Z; [apply HI|]. destruct (is_cd cmd); [by rewrite HI|]. rewrite Hfork, Hrun. cbn [negb].
  destruct (match parsecmd cmd with POk (c, _) => _ | _ => _ end) as [t n1]. by rewrite HI.
Qed.

(** [main] opens what is missing of the descriptors 0, 1 and 2 *)
Lemma lowest_missing (w : fdtable) : (∀ i, is_Some (w !! i) → i < 3) → ∀ j, j ≤ 3 → (∀ i, i < j → is_Some (w !! i)) →
  ∃ k, j ≤ k ≤ 3 ∧ (∀ i, i < k → is_Some (w !! i)) ∧ w !! k = None.
Proof.
  intros Hw j. remember (3 - j) as d eqn:Hd. revert j Hd. induction d as [|d IH]; intros j Hd Hj Hlt.
  - exists j. split_and!; [lia|lia|done|]. apply eq_None_not_Some. intros Hs%Hw. lia.
  - destruct (w !! j) as [f|] eqn:Hf; [|by exists j; split_and!; [lia|lia|..]].
    destruct (IH (S j)) as (k & Hk & ?); [lia|lia| |exists k; split; [lia|done]].
    intros i Hi. destruct (decide (i = j)) as [-> |]; [eauto|apply Hlt; lia].
Qed.
Lemma open_console_std turns : can_open (str "console") O_RDWR = true → ∀ w j, j ≤ 3 → (∀ i, i < j → is_Some (w !! i)) →
  (∀ i, is_Some (w !! i) → i < 3) → 4 - j ≤ turns →
  std (open_console turns w) ∧ ∀ i f, w !! i = Some f → open_console turns w !! i = Some f.
Proof.
  intros Hc. induction turns as [|turns IH]; intros w j Hj Hlt Hw Ht; [lia|]. cbn [open_console]. unfold u_open. rewrite Hc.
  destruct (lowest_missing w Hw j Hj Hlt) as (k & Hk & Hltk & Hnk). rewrite (lowest_spec w _ k) by (done || (unfold NOFILE; lia)).
  destruct (Nat.leb_spec 3 k) as [Hge|Hlt3].
  - unfold u_close. rewrite delete_insert_id by done. split; [|done]. intros i. split; [apply Hw|]. intros Hi. apply Hltk. lia.
  - destruct (IH (<[k := OFile (str "console") O_RDWR]> w) (S k)) as [Hs Hsame]; [lia| | |lia|].
    + intros i Hi. rewrite lookup_insert_is_Some'. destruct (decide (k = i)); [by left|right; apply Hltk; lia].
    + intros i [<- |Hi]%lookup_insert_is_Some'; [done|by apply Hw].
    + split; [done|]. intros i f Hf. apply Hsame. rewrite lookup_insert_ne by congruence. done.
Qed.

End run.

(** *** An example *)
Definition example_script : list (list Z) := [str " cd /d"; str "a | b > x"; str "c < no"; str "("].
Lemma example_fits : Forall fits example_script.
Proof. repeat constructor; by compute. Qed.
