(* ===== verification/Umalloc.v ===== *)
(** * The memory allocator of user programs, [user/umalloc.c]

    The allocator of Kernighan and Ritchie: free blocks are in a circular list
    ordered by address, through headers that hold a pointer and a size in
    units of 16 bytes; [free] joins a block with its neighbours, and [malloc]
    takes the end of the first block that is large enough.  The headers are in
    the bytes of user memory.  The system call [sbrk] is what [sys_sbrk] of
    [kernel/sysproc.c] and [growproc] of [kernel/proc.c] do for a user program:
    whether the kernel has the memory, and what the new bytes are, are
    parameters.

    The theorem says that a program sees independent blocks of bytes. *)

From S2P Require Import Prelude Bytes.
#[local] Open Scope Z_scope.
#[local] Open Scope kern_scope.

(** ** The program *)

(** user memory, its end, and the variable [freep] *)
Record heap := mk_heap { h_mem : gmap Z Z; h_brk : Z; freep : Z }.
#[export] Instance eta_heap : Eta heap := λ r, mk_heap (h_mem r) (h_brk r) (freep r).
#[export] Instance set_h_mem : Setter h_mem. Proof. solve_setter. Defined.
#[export] Instance set_h_brk : Setter h_brk. Proof. solve_setter. Defined.
#[export] Instance set_freep : Setter freep. Proof. solve_setter. Defined.
#[local] Abbreviation M := (K heap).

(** [p->s.ptr] and [p->s.size] *)
Definition s_ptr (p : Z) : M Z := let* s := get in deref (load64 (h_mem s) p).
Definition s_size (p : Z) : M Z := let* s := get in deref (load_le 4 (h_mem s) (p + 8)).
Definition set_mem (m : gmap Z Z) : M unit := modify (λ s, s <| h_mem := m |>).
Definition set_s_ptr (p v : Z) : M unit :=
  let* s := get in
  let* m := deref (store64 (h_mem s) p v) in
  set_mem m.
Definition set_s_size (p v : Z) : M unit :=
  let* s := get in
  let* m := deref (store_le 4 (h_mem s) (p + 8) v) in
  set_mem m.
(** [p + n] for a pointer to headers *)
Definition header_add (p n : Z) : Z := u64 (p + 16 * n).

Definition SBRK_ERROR : Z := u64 (-1).

Section code.
(** the address of [base]; whether [sbrk] is granted [n] bytes at the end [sz];
    the bytes of new memory *)
Context (base : Z) (grants : Z → Z → bool) (newbyte : Z → Z).

Definition sbrk (n : Z) : M Z :=
  let n := s32 n in
  let* s := get in
  let sz := h_brk s in
  if 0 <? n then
    if grants sz n then
      modify (λ s, s <| h_mem ::= union (map_seqZ sz (newbyte <$> seqZ sz n)) |> <| h_brk := sz + n |>) ;;
      ret sz
    else ret SBRK_ERROR
  else
    let sz' := u64 (sz + n) in
    when (sz' <? sz) (modify (λ s, s <| h_mem ::= filter (λ '(a, _), a < sz') |> <| h_brk := sz' |>)) ;;
    ret sz.

(** the loop of [free]: the block before [bp] in the list; the list has no more
    blocks than memory has room for headers *)
Fixpoint free_find (n : nat) (bp p : Z) : M Z :=
  match n with
  | O => stop_with StopFuel
  | S n =>
      let* q := s_ptr p in
      if (p <? bp) && (bp <? q) then ret p
      else if (q <=? p) && ((p <? bp) || (bp <? q)) then ret p
      else free_find n bp q
  end.
(** the block is joined with the one after it, and with the one before it *)
Definition join_next (bp p : Z) : M unit :=
  let* n := s_size bp in
  let* q := s_ptr p in
  if header_add bp n =? q then
    let* k := s_size q in
    set_s_size bp (n + k) ;;
    let* r := s_ptr q in
    set_s_ptr bp r
  else set_s_ptr bp q.
Definition join_prev (bp p : Z) : M unit :=
  let* k := s_size p in
  if header_add p k =? bp then
    let* n := s_size bp in
    set_s_size p (k + n) ;;
    let* r := s_ptr bp in
    set_s_ptr p r
  else set_s_ptr p bp.
Definition free (ap : Z) : M unit :=
  let bp := header_add ap (-1) in
  let* s := get in
  let* p := free_find (turns (h_brk s) 16) bp (freep s) in
  join_next bp p ;;
  join_prev bp p ;;
  modify (λ s, s <| freep := p |>).

Definition morecore (nu : Z) : M Z :=
  let nu := if nu <? 4096 then 4096 else nu in
  let* p := sbrk (nu * 16) in
  if p =? SBRK_ERROR then ret 0 else
  set_s_size p nu ;;
  free (header_add p 1) ;;
  let* s := get in
  ret (freep s).

(** [p], of size [sz], is large enough *)
Definition take_block (nunits prevp p sz : Z) : M Z :=
  let* p := (if sz =? nunits then
      let* q := s_ptr p in
      set_s_ptr prevp q ;;
      ret p
    else
      set_s_size p (sz - nunits) ;;
      let* sz := s_size p in
      let p := header_add p sz in
      set_s_size p nunits ;;
      ret p) in
  modify (λ s, s <| freep := prevp |>) ;;
  ret (header_add p 1).
Fixpoint malloc_loop (n : nat) (nunits prevp p : Z) : M Z :=
  match n with
  | O => stop_with StopFuel
  | S n =>
      let* sz := s_size p in
      if nunits <=? sz then take_block nunits prevp p sz
      else
        let* s := get in
        if p =? freep s then
          let* p := morecore nunits in
          if p =? 0 then ret 0
          else
            let* q := s_ptr p in
            malloc_loop n nunits p q
        else
          let* q := s_ptr p in
          malloc_loop n nunits p q
  end.
(** the list is gone round once before and once after memory is added *)
Definition units (nbytes : Z) : Z := u32 ((nbytes + 15) / 16 + 1).
Definition malloc (nbytes : Z) : M Z :=
  let nunits := units nbytes in
  let* s := get in
  let* prevp := (if freep s =? 0 then
      modify (λ s, s <| freep := base |>) ;;
      set_s_ptr base base ;;
      set_s_size base 0 ;;
      ret base
    else ret (freep s)) in
  let* p := s_ptr prevp in
  malloc_loop (2 * turns (h_brk s + 16 * Z.max nunits 4096) 16) nunits prevp p.
End code.

(** ** Headers in memory *)

Implicit Types (m : gmap Z Z).
#[local] Abbreviation mwp := (wp (λ _, False) (λ _, False) (λ _ _, False)).
(** from [m] to [m'] only the [n] bytes from [a] on are changed *)
Record only m m' (a n : Z) : Prop := {
  on_same x : ¬ (a ≤ x < a + n) → m' !! x = m !! x;
  on_mapped x k : mapped m x k → mapped m' x k
}.
Lemma only_refl m a n : only m m a n.
Proof. by split. Qed.
Lemma only_trans m m1 m2 a n : only m m1 a n → only m1 m2 a n → only m m2 a n.
Proof. intros [S1 M1] [S2 M2]. split; [intros x Hx; by rewrite S2, S1|]. intros x k Hm. by apply M2, M1. Qed.
Lemma only_mono m m' a n a' n' : only m m' a n → a' ≤ a → a + n ≤ a' + n' → only m m' a' n'.
Proof. intros [S1 M1] H1 H2. split; [intros x Hx; apply S1; lia|done]. Qed.
Lemma only_load m m' a n k x : only m m' a n → x + Z.of_nat k ≤ a ∨ a + n ≤ x → load_le k m' x = load_le k m x.
Proof. intros [Hs _] Hx. unfold load_le. rewrite (load_bytes_ext m m'); [done|]. intros i Hi. apply Hs. lia. Qed.

(** the header at [a] *)
Definition header m (a p n : Z) : Prop := load64 m a = Some p ∧ load_le 4 m (a + 8) = Some n.
Lemma header_other m m' a n x p k : only m m' a n → x + 16 ≤ a ∨ a + n ≤ x → header m x p k → header m' x p k.
Proof.
  intros Ho Hx [Hp Hn]. split; [rewrite <- Hp; apply (only_load _ _ _ _ 8 _ Ho); lia|rewrite <- Hn; apply (only_load _ _ _ _ 4 _ Ho); lia].
Qed.
Lemma mwp_s_ptr p v s Q : load64 (h_mem s) p = Some v → Q v s → mwp (s_ptr p s) Q.
Proof. intros Hv HQ. unfold s_ptr. apply wp_bind, wp_done. rewrite Hv. by apply wp_done. Qed.
Lemma mwp_s_size p v s Q : load_le 4 (h_mem s) (p + 8) = Some v → Q v s → mwp (s_size p s) Q.
Proof. intros Hv HQ. unfold s_size. apply wp_bind, wp_done. rewrite Hv. by apply wp_done. Qed.
Lemma mwp_set_ptr p v s (Q : unit → heap → Prop) : mapped (h_mem s) p 16 → 0 ≤ v < 2 ^ 64 →
  (∀ m, only (h_mem s) m p 16 → load64 m p = Some v → load_le 4 m (p + 8) = load_le 4 (h_mem s) (p + 8) → Q tt (s <| h_mem := m |>)) →
  mwp (set_s_ptr p v s) Q.
Proof.
  intros Hm Hv HQ. unfold set_s_ptr. apply wp_bind, wp_done. destruct (store64_spec (h_mem s) p v) as (m & Hs & Hl & f & Hw & Hf); [by eapply mapped_sub; [done|lia|lia]|].
  rewrite Hs. apply wp_bind, wp_done, wp_done. apply HQ.
  - split; [intros x Hx; pose proof (Hw x) as Hb; by rewrite decide_False in Hb by lia|]. intros x k. by eapply written_mapped.
  - by rewrite Hl, u64_small.
  - apply (load_le_other 4 _ _ _ _ _ _ Hw). lia.
Qed.
Lemma mwp_set_size p v s (Q : unit → heap → Prop) : mapped (h_mem s) p 16 → 0 ≤ v < 2 ^ 32 →
  (∀ m, only (h_mem s) m p 16 → load64 m p = load64 (h_mem s) p → load_le 4 m (p + 8) = Some v → Q tt (s <| h_mem := m |>)) →
  mwp (set_s_size p v s) Q.
Proof.
  intros Hm Hv HQ. unfold set_s_size. apply wp_bind, wp_done. destruct (store_le_spec 4 (h_mem s) (p + 8) v) as (m & Hs & Hl & f & Hw & Hf); [by eapply mapped_sub; [done|lia|lia]|].
  rewrite Hs. apply wp_bind, wp_done, wp_done. apply HQ.
  - split; [intros x Hx; pose proof (Hw x) as Hb; by rewrite decide_False in Hb by lia|]. intros x k. by eapply written_mapped.
  - apply (load_le_other 8 _ _ _ _ _ _ Hw). lia.
  - rewrite Hl. f_equal. by apply Z.mod_small.
Qed.
Lemma header_add_small p n : 0 ≤ p + 16 * n < 2 ^ 64 → header_add p n = p + 16 * n.
Proof. intros H. by apply u64_small. Qed.

Lemma units_small n : 0 ≤ n < 2 ^ 31 - 31 → 1 ≤ units n ∧ 16 * units n < 2 ^ 31 ∧ n ≤ 16 * (units n - 1).
Proof.
  intros Hn. pose proof (Z.div_mod (n + 15) 16 ltac:(done)). pose proof (Z.mod_pos_bound (n + 15) 16 ltac:(done)). unfold units. rewrite u32_small by lia. lia.
Qed.
Lemma turns_mono a b : 0 ≤ a ≤ b → (turns a 16 ≤ turns b 16)%nat.
Proof. intros H. unfold turns. assert (a / 16 ≤ b / 16) by (apply Z.div_le_mono; lia). pose proof (Z.div_pos a 16). lia. Qed.

(** ** The list of free blocks *)

(** blocks are pairs of an address and a size; [seg m l z] says that the
    headers of [l] are linked in this order, the last one to [z] *)
Definition first (l : list (Z * Z)) (z : Z) : Z := match l with [] => z | b :: _ => b.1 end.
Fixpoint seg m (l : list (Z * Z)) (z : Z) : Prop :=
  match l with
  | [] => True
  | b :: l => header m b.1 (first l z) b.2 ∧ seg m l z
  end.
Lemma first_app l1 l2 z : first (l1 ++ l2) z = first l1 (first l2 z).
Proof. by destruct l1. Qed.
Lemma seg_app m l1 l2 z : seg m (l1 ++ l2) z ↔ seg m l1 (first l2 z) ∧ seg m l2 z.
Proof. induction l1 as [|b l1 IH]; cbn [seg app]; [tauto|]. rewrite IH, first_app. tauto. Qed.
Lemma seg_other m m' a n l z : only m m' a n → (∀ b, b ∈ l → b.1 + 16 ≤ a ∨ a + n ≤ b.1) → seg m l z → seg m' l z.
Proof.
  intros Ho Hl. induction l as [|b l IH]; cbn [seg]; [done|]. intros [Hh Hs]. split; [eapply header_other; [done|apply Hl; by left|done]|].
  apply IH; [|done]. intros b' Hb'. apply Hl. by right.
Qed.
Lemma seg_rotate m l1 l2 z : seg m (l1 ++ l2) (first (l1 ++ l2) z) → seg m (l2 ++ l1) (first (l2 ++ l1) z).
Proof.
  destruct l1 as [|b1 l1]; [by rewrite app_nil_r|]. destruct l2 as [|b2 l2]; [by rewrite app_nil_r|]. rewrite !seg_app. by intros [H1 H2].
Qed.
(** the header of a block of the list *)
Lemma seg_lookup m l z l1 b l2 : seg m l z → l = l1 ++ b :: l2 → header m b.1 (first l2 z) b.2.
Proof. intros Hs ->. apply seg_app in Hs as [_ [Hh _]]. done. Qed.
Lemma header_fun m a p n p' n' : header m a p n → header m a p' n' → p = p' ∧ n = n'.
Proof. intros [H1 H2] [H1' H2']. split; congruence. Qed.

(** ** The blocks of the heap *)

(** the heap is a row of blocks, used or free, with their sizes *)
Abbreviation tile := (bool * Z)%type.
Implicit Types (T A B : list tile).
Fixpoint span T : Z := match T with [] => 0 | t :: T => 16 * t.2 + span T end.
Fixpoint blocks (u : bool) (o : Z) T : list (Z * Z) :=
  match T with
  | [] => []
  | t :: T => if eqb t.1 u then (o, t.2) :: blocks u (o + 16 * t.2) T else blocks u (o + 16 * t.2) T
  end.
Definition frees : Z → list tile → list (Z * Z) := blocks false.
Definition useds : Z → list tile → list (Z * Z) := blocks true.
Definition sizes_ok T : Prop := Forall (λ t, 1 ≤ t.2) T.
(** no two free blocks are neighbours; [u] says whether the block before is used *)
Fixpoint joined (u : bool) T : Prop := match T with [] => True | t :: T => (t.1 || u) = true ∧ joined t.1 T end.
Definition last_used (u : bool) T : bool := default u (fst <$> last T).

Lemma span_app A B : span (A ++ B) = span A + span B.
Proof. induction A as [|t A IH]; cbn [span app]; lia. Qed.
Lemma span_pos T : sizes_ok T → 0 ≤ span T.
Proof. induction 1; cbn [span]; lia. Qed.
Lemma blocks_app u o A B : blocks u o (A ++ B) = blocks u o A ++ blocks u (o + span A) B.
Proof.
  revert o. induction A as [|t A IH]; intros o; cbn [span blocks app]; [by rewrite Z.add_0_r|]. rewrite IH.
  replace (o + 16 * t.2 + span A) with (o + (16 * t.2 + span A)) by lia. by destruct (eqb t.1 u).
Qed.
Lemma blocks_in u o T b : sizes_ok T → b ∈ blocks u o T → o ≤ b.1 ∧ b.1 + 16 * b.2 ≤ o + span T ∧ 1 ≤ b.2.
Proof.
  intros HT. revert o. induction HT as [|t T Ht HT IH]; intros o Hb; cbn [blocks span] in *; [by apply not_elem_of_nil in Hb|].
  pose proof (span_pos _ HT). assert (Hgo : b ∈ blocks u (o + 16 * t.2) T → o ≤ b.1 ∧ b.1 + 16 * b.2 ≤ o + (16 * t.2 + span T) ∧ 1 ≤ b.2) by (intros H'; apply IH in H'; lia).
  destruct (eqb t.1 u); [|by apply Hgo]. apply elem_of_cons in Hb as [->|Hb]; [cbn; lia|by apply Hgo].
Qed.
(** where a block of the list is in the row *)
Lemma blocks_split u o T l1 b l2 : blocks u o T = l1 ++ b :: l2 →
  ∃ A B, T = A ++ (u, b.2) :: B ∧ b.1 = o + span A ∧ l1 = blocks u o A ∧ l2 = blocks u (b.1 + 16 * b.2) B.
Proof.
  revert o l1. induction T as [|t T IH]; intros o l1 Hb; cbn [blocks] in Hb; [by destruct l1|].
  assert (Hgo : ∀ l1', blocks u (o + 16 * t.2) T = l1' ++ b :: l2 → l1 = (if eqb t.1 u then [(o, t.2)] else []) ++ l1' →
    ∃ A B, t :: T = A ++ (u, b.2) :: B ∧ b.1 = o + span A ∧ l1 = blocks u o A ∧ l2 = blocks u (b.1 + 16 * b.2) B).
  { intros l1' Hb' ->. apply IH in Hb' as (A & B & -> & Ha & -> & ->). exists (t :: A), B. cbn [span blocks]. split_and!; [done|lia|by destruct (eqb t.1 u)|done]. }
  destruct (eqb t.1 u) eqn:Ht; [|by apply (Hgo l1)]. destruct l1 as [|b1 l1]; [|injection Hb as <- Hb; by apply (Hgo l1)].
  injection Hb as <- <-. apply eqb_prop in Ht as <-. exists [], T. cbn. split_and!; [by destruct t|lia|done|done].
Qed.
Lemma sizes_app A B : sizes_ok (A ++ B) ↔ sizes_ok A ∧ sizes_ok B.
Proof. apply Forall_app. Qed.
Lemma first_in o T z : sizes_ok T → first (frees o T) z = z ∨ o ≤ first (frees o T) z ≤ o + span T.
Proof.
  intros HT. destruct (frees o T) as [|b l] eqn:Hl; [by left|right]. assert (Hb : b ∈ frees o T) by (rewrite Hl; by left). apply blocks_in in Hb; [cbn [first]; lia|done].
Qed.
(** used and free blocks do not overlap *)
Lemma blocks_apart o T b c : sizes_ok T → b ∈ useds o T → c ∈ frees o T → b.1 + 16 * b.2 ≤ c.1 ∨ c.1 + 16 * c.2 ≤ b.1.
Proof.
  intros HT Hb (l1 & l2 & Hc)%list_elem_of_split. apply blocks_split in Hc as (A & B & -> & Hc & _ & _). apply sizes_app in HT as [HA [_ HB]%Forall_cons].
  unfold useds in Hb. rewrite blocks_app in Hb. apply elem_of_app in Hb as [Hb|Hb]; [left|right; cbn [blocks eqb fst snd] in Hb]; (apply blocks_in in Hb; [lia|done]).
Qed.
Lemma joined_app u A B : joined u (A ++ B) ↔ joined u A ∧ joined (last_used u A) B.
Proof.
  revert u. induction A as [|t A IH]; intros u; cbn [joined app]; [tauto|]. rewrite IH.
  assert (last_used u (t :: A) = last_used t.1 A) as -> by (unfold last_used; rewrite last_cons; by destruct (last A)). tauto.
Qed.
Lemma last_used_app u A t : last_used u (A ++ [t]) = t.1.
Proof. unfold last_used. by rewrite last_snoc. Qed.
(** at most so many blocks *)
Lemma blocks_length u o T : sizes_ok T → 16 * Z.of_nat (length (blocks u o T)) ≤ span T.
Proof. intros HT. revert o. induction HT as [|t T Ht HT IH]; intros o; cbn [blocks span]; [done|]. specialize (IH (o + 16 * t.2)). destruct (eqb t.1 u); cbn [length]; lia. Qed.

(** ** The invariant *)

Section heap.
(** [base] is before the heap, which starts at [lo] and ends at most at [lim] *)
Context (base lo lim : Z) (Hbase : 0 < base) (Hlo : base + 16 ≤ lo) (Hlim : lim ≤ 2 ^ 36).
Definition nodes T : list (Z * Z) := (base, 0) :: frees lo T.
Record heap_ok (s : heap) T : Prop := {
  ho_sizes : sizes_ok T;
  ho_joined : joined true T;
  ho_brk : h_brk s = lo + span T ∧ h_brk s ≤ lim;
  ho_mapped : mapped (h_mem s) lo (span T);
  ho_base : mapped (h_mem s) base 16;
  ho_ring : seg (h_mem s) (nodes T) base;
  ho_freep : ∃ n, (freep s, n) ∈ nodes T;
  ho_used b : b ∈ useds lo T → load_le 4 (h_mem s) (b.1 + 8) = Some b.2
}.
(** the bytes of used blocks are the same *)
Definition kept T (m m' : gmap Z Z) : Prop := ∀ b x, b ∈ useds lo T → b.1 ≤ x < b.1 + 16 * b.2 → m' !! x = m !! x.

(** the list is in the order of addresses *)
Lemma nodes_order T l1 b l2 : sizes_ok T → nodes T = l1 ++ b :: l2 → (∀ c, c ∈ l1 → c.1 + 16 ≤ b.1) ∧ (∀ c, c ∈ l2 → b.1 + 16 ≤ c.1) ∧ base ≤ b.1.
Proof using Hbase Hlo.
  intros HT Hn. destruct l1 as [|b1 l1]; unfold nodes in Hn.
  - injection Hn as <- <-. split_and!; [intros c Hc; by apply not_elem_of_nil in Hc|intros c Hc%blocks_in; [cbn [fst]; lia|done]|done].
  - injection Hn as <- Hn. apply blocks_split in Hn as (A & B & -> & Hb & -> & ->). apply sizes_app in HT as [HA [Hs HB]%Forall_cons]. cbn [snd] in Hs. pose proof (span_pos _ HA). split_and!.
    + intros c [->|Hc]%elem_of_cons; [cbn [fst]; lia|]. apply blocks_in in Hc; [lia|done].
    + intros c Hc%blocks_in; [lia|done].
    + lia.
Qed.
Lemma nodes_last T : ∃ X p k, nodes T = X ++ [(p, k)].
Proof. destruct (exists_last (l := nodes T)) as (X & [p k] & ->); [done|]. by exists X, p, k. Qed.

Section find.
Context (A B : list tile) (n : Z) (HT : sizes_ok (A ++ (true, n) :: B)).
Let bp : Z := lo + span A.
Context (X : list (Z * Z)) (p k : Z) (HX : nodes A = X ++ [(p, k)]).
Lemma nodes_around : nodes (A ++ (true, n) :: B) = X ++ (p, k) :: frees (bp + 16 * n) B.
Proof using HX.
  unfold nodes, frees. rewrite blocks_app. change (blocks false (lo + span A) ((true, n) :: B)) with (frees (bp + 16 * n) B).
  rewrite app_comm_cons. change ((base, 0) :: blocks false lo A) with (nodes A). by rewrite HX, <- app_assoc.
Qed.
Lemma before_bp c : c ∈ nodes A → c.1 + 16 ≤ bp.
Proof using Hlo HT.
  apply sizes_app in HT as [HA _]. intros [->|Hc]%elem_of_cons; [cbn [fst]; pose proof (span_pos _ HA); lia|]. apply blocks_in in Hc; [lia|done].
Qed.
Lemma node_cases c : c ∈ nodes (A ++ (true, n) :: B) → c ∈ nodes A ∧ c.1 + 16 ≤ bp ∨ c ∈ frees (bp + 16 * n) B ∧ bp + 16 * n ≤ c.1.
Proof using Hlo HT HX.
  rewrite nodes_around. intros Hc. rewrite (app_assoc X [_] _ : X ++ (p, k) :: _ = _), <- HX in Hc.
  apply elem_of_app in Hc as [Hc|Hc]; [left|right]; (split; [done|]); [by apply before_bp|].
  apply sizes_app in HT as [_ [_ HB]%Forall_cons]. apply blocks_in in Hc; [lia|done].
Qed.
Definition hit (u q : Z) : bool := (u <? bp) && (bp <? q) || (q <=? u) && ((u <? bp) || (bp <? q)).
(** the test of the loop succeeds at the last block before [bp] only *)
Lemma hit_spec m c q : seg m (nodes (A ++ (true, n) :: B)) base → c ∈ nodes (A ++ (true, n) :: B) → load64 m c.1 = Some q → hit c.1 q = (c.1 =? p).
Proof using Hbase Hlo HT HX.
  intros Hseg Hc Hq. pose proof Hc as (l1 & l2 & Hsp)%list_elem_of_split. pose proof (seg_lookup _ _ _ _ _ _ Hseg Hsp) as [Hq' _]. assert (q = first l2 base) as -> by congruence. clear Hq Hq'.
  destruct (nodes_order _ _ _ _ HT Hsp) as (_ & Hafter & Hge). pose proof (node_cases c Hc) as Hcase.
  assert (HA : sizes_ok A) by (by apply sizes_app in HT as [? _]). assert (Hn : 1 ≤ n) by (by apply sizes_app in HT as [_ [? _]%Forall_cons]).
  destruct (nodes_order A X (p, k) [] HA HX) as (Hbefore & _ & _). cbn [fst] in Hbefore.
  assert (Hp : p + 16 ≤ bp) by (apply (before_bp (p, k)); rewrite HX; apply elem_of_app; right; by left).
  assert (Hfirst : first l2 base = base ∧ l2 = [] ∨ ∃ d, d ∈ l2 ∧ first l2 base = d.1 ∧ d ∈ nodes (A ++ (true, n) :: B)).
  { destruct l2 as [|d l2]; [by left|right]. exists d. split; [by left|]. split; [done|]. rewrite Hsp. apply elem_of_app. right. right. by left. }
  unfold hit. destruct (Z.eqb_spec c.1 p) as [Heq|Hne].
  - destruct Hfirst as [[-> _]|(d & Hd & -> & Hdn)].
    + apply orb_true_iff. right. apply andb_true_iff. split; [apply Z.leb_le; lia|]. apply orb_true_iff. left. apply Z.ltb_lt. lia.
    + apply orb_true_iff. left. apply andb_true_iff. split; [apply Z.ltb_lt; lia|apply Z.ltb_lt]. apply Hafter in Hd.
      destruct (node_cases d Hdn) as [[Hda _]|[_ ?]]; [|lia]. rewrite HX in Hda. apply elem_of_app in Hda as [Hda|Hda]; [apply Hbefore in Hda; lia|].
      apply list_elem_of_singleton in Hda as ->. cbn [fst] in *. lia.
  - apply orb_false_iff. destruct Hcase as [[HcA Hlt]|[_ Hgt]].
    + rewrite HX in HcA. apply elem_of_app in HcA as [HcX|Hc1]; [|apply list_elem_of_singleton in Hc1 as ->; done]. pose proof (Hbefore _ HcX) as Hcp.
      assert (Hin : (p, k) ∈ l2).
      { assert (H' : (p, k) ∈ l1 ++ c :: l2) by (rewrite <- Hsp, nodes_around; apply elem_of_app; right; by left). apply elem_of_app in H' as [H'|[<-|H']%elem_of_cons]; [|done|done].
        destruct (nodes_order _ _ _ _ HT Hsp) as (H1 & _ & _). apply H1 in H'. cbn [fst] in H'. lia. }
      destruct l2 as [|d l2]; [by apply not_elem_of_nil in Hin|]. cbn [first]. pose proof (Hafter d ltac:(by left)).
      assert (d.1 ≤ p).
      { apply elem_of_cons in Hin as [<-|Hin]; [done|]. destruct (nodes_order _ (l1 ++ [c]) d l2 HT) as (_ & Hd2 & _); [by rewrite Hsp, <- app_assoc|]. apply Hd2 in Hin. cbn [fst] in Hin. lia. }
      split; [apply andb_false_iff; right; apply Z.ltb_ge; lia|apply andb_false_iff; left; apply Z.leb_gt; lia].
    + split; [apply andb_false_iff; left; apply Z.ltb_ge; lia|]. destruct Hfirst as [[-> _]|(d & Hd & -> & _)].
      * apply andb_false_iff. right. apply orb_false_iff. pose proof (span_pos _ HA). split; apply Z.ltb_ge; lia.
      * apply Hafter in Hd. apply andb_false_iff. left. apply Z.leb_gt. lia.
Qed.
End find.

(** [free_find] from any block of the list *)
Section find_loop.
Context (A B : list tile) (n : Z) (HT : sizes_ok (A ++ (true, n) :: B)) (X : list (Z * Z)) (p k : Z) (HX : nodes A = X ++ [(p, k)]).
Lemma mwp_find_loop s fuel : ∀ R u F D (Q : Z → heap → Prop), seg (h_mem s) (nodes (A ++ (true, n) :: B)) base →
  seg (h_mem s) F (first F 0) → F = D ++ u :: R → (∀ c, c ∈ F → c ∈ nodes (A ++ (true, n) :: B)) → (∃ k', (p, k') ∈ u :: R) → (length (u :: R) ≤ fuel)%nat →
  Q p s → mwp (free_find fuel (lo + span A) u.1 s) Q.
Proof using Hbase Hlo HT HX.
  induction fuel as [|fuel IH]; intros R u F D Q Hseg HF -> Hin [k' Hp] Hf HQ; [cbn in Hf; lia|]. cbn [free_find].
  pose proof (seg_lookup _ _ _ _ _ _ HF eq_refl) as [Hq _]. apply wp_bind. eapply mwp_s_ptr; [exact Hq|]. set (q := first R _) in *.
  pose proof (hit_spec A B n HT X p k HX _ u q Hseg ltac:(apply Hin, elem_of_app; right; by left) Hq) as Hhit. unfold hit in Hhit.
  destruct (Z.eqb_spec u.1 p) as [<-|Hne].
  - apply orb_true_iff in Hhit as [->|Hhit]; [by apply wp_done|]. rewrite Hhit. case_match; by apply wp_done.
  - apply orb_false_iff in Hhit as [-> ->]. apply elem_of_cons in Hp as [<-|Hp]; [done|]. destruct R as [|c R]; [by apply not_elem_of_nil in Hp|].
    apply (IH R c (D ++ u :: c :: R) (D ++ [u])); [done|exact HF|by rewrite <- app_assoc|done|by exists k'|cbn in *; lia|done].
Qed.
End find_loop.
Lemma nodes_turns T sz : sizes_ok T → sz = lo + span T → (length (nodes T) ≤ turns sz 16)%nat.
Proof using Hbase Hlo.
  intros HT ->. unfold nodes. cbn [length]. pose proof (blocks_length false lo T HT) as Hl. unfold turns. apply le_n_S.
  assert (Z.of_nat (length (frees lo T)) ≤ (lo + span T) / 16) by (apply Z.div_le_lower_bound; [done|unfold frees; lia]). lia.
Qed.
Lemma mwp_free_find s A B n X p k (Q : Z → heap → Prop) : heap_ok s (A ++ (true, n) :: B) → nodes A = X ++ [(p, k)] → Q p s →
  mwp (free_find (turns (h_brk s) 16) (lo + span A) (freep s) s) Q.
Proof using Hbase Hlo.
  intros Hs HX HQ. destruct (ho_freep _ _ Hs) as [kf Hf]. pose proof Hf as (N1 & N2 & HN)%list_elem_of_split. pose proof (ho_sizes _ _ Hs) as HT. pose proof (ho_ring _ _ Hs) as Hring.
  assert (Hrot : seg (h_mem s) ((freep s, kf) :: N2 ++ N1) (first ((freep s, kf) :: N2 ++ N1) 0)).
  { rewrite app_comm_cons. apply seg_rotate. by rewrite <- HN. }
  assert (Hperm : ∀ c, c ∈ (freep s, kf) :: N2 ++ N1 ↔ c ∈ nodes (A ++ (true, n) :: B)) by (intros c; rewrite HN, elem_of_cons, !elem_of_app, elem_of_cons; tauto).
  apply (mwp_find_loop A B n HT X p k HX s _ (N2 ++ N1) (freep s, kf) _ [] Q Hring Hrot eq_refl); [intros c; by apply Hperm| | |done].
  - exists k. apply Hperm. rewrite (nodes_around A B n X p k HX). apply elem_of_app. right. by left.
  - transitivity (length (nodes (A ++ (true, n) :: B))); [rewrite HN; cbn [length]; rewrite !length_app; cbn [length]; lia|]. apply nodes_turns; [done|apply Hs].
Qed.

(** [free] joins the block with the one after it *)
Record next_joined m (bp n : Z) B m1 (n1 : Z) B1 : Prop := {
  nj_only : only m m1 bp 16;
  nj_header : header m1 bp (first (frees (bp + 16 * n1) B1) base) n1;
  nj_seg : seg m1 (frees (bp + 16 * n1) B1) base;
  nj_size : n ≤ n1;
  nj_sizes : sizes_ok B1;
  nj_span : 16 * n1 + span B1 = 16 * n + span B;
  nj_used : useds (bp + 16 * n1) B1 = useds (bp + 16 * n) B;
  nj_joined : joined false B1
}.
Lemma used_in_row s A n B : heap_ok s (A ++ (true, n) :: B) → 1 ≤ n ∧ sizes_ok A ∧ sizes_ok B ∧ 0 ≤ span A ∧ 0 ≤ span B ∧ (0 ≤ span (A ++ (true, n) :: B) ∧ lo + span (A ++ (true, n) :: B) ≤ 2 ^ 36) ∧
  span (A ++ (true, n) :: B) = span A + 16 * n + span B.
Proof using Hlo Hlim Hbase.
  intros Hs. pose proof (ho_sizes _ _ Hs) as [HA [Hn HB]%Forall_cons]%sizes_app. pose proof (span_pos _ HA). pose proof (span_pos _ HB). destruct (ho_brk _ _ Hs). rewrite span_app in *. cbn [span snd] in *.
  split_and!; try done; lia.
Qed.
Lemma mwp_join_next s A n B X p k (Q : unit → heap → Prop) : let bp := lo + span A in heap_ok s (A ++ (true, n) :: B) → nodes A = X ++ [(p, k)] →
  (∀ m1 n1 B1, next_joined (h_mem s) bp n B m1 n1 B1 → Q tt (s <| h_mem := m1 |>)) → mwp (join_next bp p s) Q.
Proof using Hlo Hlim Hbase.
  intros bp Hs HX HQ. destruct (used_in_row _ _ _ _ Hs) as (Hn & HA & HB & HsA & HsB & Hlt & Hsp). pose proof (ho_ring _ _ Hs) as Hring. rewrite (nodes_around A B n X p k HX) in Hring. fold bp in Hring.
  pose proof (seg_lookup _ _ _ _ _ _ Hring eq_refl) as [Hq Hk]. cbn [fst snd] in Hq, Hk. apply seg_app in Hring as [_ [_ HY]].
  assert (Hbn : load_le 4 (h_mem s) (bp + 8) = Some n).
  { apply (ho_used _ _ Hs (bp, n)). unfold useds. rewrite blocks_app. apply elem_of_app. right. by left. }
  assert (Hbm : mapped (h_mem s) bp 16) by (eapply mapped_sub; [apply Hs|unfold bp; lia|unfold bp; rewrite Hsp; lia]).
  assert (HYin : ∀ b, b ∈ frees (bp + 16 * n) B → b.1 + 16 ≤ bp ∨ bp + 16 ≤ b.1) by (intros b Hb%blocks_in; [lia|done]).
  assert (HjB : joined true B) by (pose proof (ho_joined _ _ Hs) as Hj; apply joined_app in Hj as [_ [_ Hj]]; done).
  unfold join_next. apply wp_bind. eapply mwp_s_size; [done|]. apply wp_bind. eapply mwp_s_ptr; [done|]. rewrite header_add_small by (unfold bp; lia).
  assert (Hno : bp + 16 * n ≠ first (frees (bp + 16 * n) B) base → joined false B → mwp (set_s_ptr bp (first (frees (bp + 16 * n) B) base) s) Q).
  { intros _ Hj. apply mwp_set_ptr; [done| |].
    - pose proof (first_in (bp + 16 * n) B base HB). unfold bp in *. lia.
    - intros m1 Ho Hp1 Hn1. apply (HQ m1 n B). split; try done; [split; [done|by rewrite Hn1]|]. by eapply seg_other. }
  destruct B as [|[[] k1] B1].
  - change (frees (bp + 16 * n) []) with (@nil (Z * Z)) in *. cbn [first] in *. rewrite (proj2 (Z.eqb_neq _ _)) by (unfold bp; lia). apply Hno; [unfold bp; lia|done].
  - assert (Hne : bp + 16 * n ≠ first (frees (bp + 16 * n) ((true, k1) :: B1)) base).
    { change (frees (bp + 16 * n) ((true, k1) :: B1)) with (frees (bp + 16 * n + 16 * k1) B1). apply Forall_cons in HB as [Hk1 HB1]. cbn [snd] in Hk1.
      pose proof (first_in (bp + 16 * n + 16 * k1) B1 base HB1). unfold bp in *. lia. }
    rewrite (proj2 (Z.eqb_neq _ _)) by done. by apply Hno.
  - change (frees (bp + 16 * n) ((false, k1) :: B1)) with ((bp + 16 * n, k1) :: frees (bp + 16 * n + 16 * k1) B1) in *. cbn [first fst] in *. rewrite Z.eqb_refl.
    destruct HY as [[Hr Hk1] HY]. cbn [fst snd] in Hr, Hk1. apply Forall_cons in HB as [Hk1' HB1]. cbn [snd span] in *. pose proof (span_pos _ HB1).
    apply wp_bind. eapply mwp_s_size; [done|]. apply wp_bind. apply mwp_set_size; [done|lia|]. intros m1 Ho1 Hp1 Hn1.
    apply wp_bind. eapply mwp_s_ptr; [rewrite <- Hr; apply (only_load _ _ _ _ 8 _ Ho1); lia|]. apply mwp_set_ptr; [by apply Ho1| |].
    + pose proof (first_in (bp + 16 * n + 16 * k1) B1 base HB1). unfold bp in *. lia.
    + change (h_mem (s <| h_mem := m1 |>)) with m1. intros m2 Ho2 Hp2 Hn2. rewrite Hn1 in Hn2. assert (Ho : only (h_mem s) m2 bp 16) by (by eapply only_trans).
      apply (HQ m2 (n + k1) B1). assert (bp + 16 * (n + k1) = bp + 16 * n + 16 * k1) as Hadd by lia. split; rewrite ?Hadd; [done|done| |lia|done|cbn; lia|done|apply HjB].
      eapply seg_other; [exact Ho| |exact HY]. intros b Hb. apply HYin. by right.
Qed.

(** the heap after [free] *)
Record freed (s : heap) A n B (s' : heap) T' : Prop := {
  fd_ok : heap_ok s' T';
  fd_span : span T' = span (A ++ (true, n) :: B);
  fd_used : useds lo T' = useds lo A ++ useds (lo + span A + 16 * n) B;
  fd_kept : kept T' (h_mem s) (h_mem s');
  fd_outside x : ¬ (lo ≤ x < lo + span T') → ¬ (base ≤ x < base + 16) → h_mem s' !! x = h_mem s !! x;
  fd_large : ∃ b, b ∈ frees lo T' ∧ n ≤ b.2
}.
(** the block before: the header [base], or a free block *)
Lemma pred_cases A X p k : sizes_ok A → nodes A = X ++ [(p, k)] →
  (∃ A0, A = A0 ++ [(false, k)] ∧ p = lo + span A0 ∧ X = nodes A0) ∨ (p + 16 * k < lo + span A ∧ last_used true A = true).
Proof using Hlo Hbase.
  intros HA HX. destruct (decide (A = [])) as [->|(A0 & [u k0] & ->)%exists_last].
  { right. destruct X as [|? [|]]; [|done|done]. injection HX as <- <-. cbn [span]. split; [lia|done]. }
  rewrite last_used_app. unfold nodes in HX. rewrite (blocks_app false lo A0 [(u, k0)] : frees lo _ = _), app_comm_cons in HX. change ((base, 0) :: blocks false lo A0) with (nodes A0) in HX.
  destruct u; [right|left].
  - rewrite app_nil_r in HX. split; [|done]. apply sizes_app in HA as [HA [Hk _]%Forall_cons]. rewrite span_app. cbn [span snd] in *. pose proof (span_pos _ HA).
    assert (Hin : (p, k) ∈ nodes A0) by (rewrite HX; apply elem_of_app; right; by left). apply elem_of_cons in Hin as [[= -> ->]|Hin]; [lia|]. apply blocks_in in Hin; [cbn [fst snd] in Hin; lia|done].
  - change (blocks false (lo + span A0) [(false, k0)]) with [(lo + span A0, k0)] in HX. apply app_inj_tail in HX as [HX [= <- <-]]. by exists A0.
Qed.
Lemma kept_size T m m' b : sizes_ok T → kept T m m' → b ∈ useds lo T → load_le 4 m' (b.1 + 8) = load_le 4 m (b.1 + 8).
Proof.
  intros HT Hk Hb. pose proof (blocks_in _ _ _ _ HT Hb). unfold load_le. rewrite (load_bytes_ext m m'); [done|]. intros i Hi. apply (Hk b); [done|lia].
Qed.
Lemma freed_ok s A n B X p k m1 n1 B1 m2 A' n2 : let bp := lo + span A in heap_ok s (A ++ (true, n) :: B) → nodes A = X ++ [(p, k)] →
  next_joined (h_mem s) bp n B m1 n1 B1 → only m1 m2 p 16 →
  A = A' ++ [(false, k)] ∧ p = lo + span A' ∧ n2 = k + n1 ∨ A' = A ∧ n2 = n1 ∧ last_used true A = true →
  seg m2 (nodes (A' ++ (false, n2) :: B1)) base → freed s A n B (s <| h_mem := m2 |> <| freep := p |>) (A' ++ (false, n2) :: B1).
Proof using Hlo Hlim Hbase.
  intros bp Hs HX [J1 J2 J3 J4 J5 J6 J7 J8] Ho2 Hcase Hseg. destruct (used_in_row _ _ _ _ Hs) as (Hn & HA & HB & HsA & HsB & [Hlt0 Hlt] & Hsp).
  assert (Hpin : (p, k) ∈ nodes A) by (rewrite HX; apply elem_of_app; right; by left). pose proof (before_bp A B n (ho_sizes _ _ Hs) (p, k) Hpin) as Hpb. fold bp in Hpb. cbn [fst] in Hpb.
  assert (Hpc : p = base ∨ (p, k) ∈ frees lo A) by (apply elem_of_cons in Hpin as [[= -> ->]|?]; [by left|by right]).
  assert (Hk : k = 0 ∧ p = base ∨ 1 ≤ k ∧ lo ≤ p) by (apply elem_of_cons in Hpin as [[= -> ->]|Hin%blocks_in]; [by left|right; cbn [fst snd] in Hin; lia|done]).
  assert (Hj : joined true A ∧ joined true B) by (pose proof (ho_joined _ _ Hs) as Hj; apply joined_app in Hj as [? [_ ?]]; done).
  assert (HA' : sizes_ok A' ∧ joined true A' ∧ last_used true A' = true ∧ useds lo A = useds lo A' ∧ lo + span A' + 16 * n2 = bp + 16 * n1 ∧ n ≤ n2).
  { destruct Hcase as [(-> & -> & ->)|(-> & -> & ?)]; [|split_and!; try done; apply Hj]. apply sizes_app in HA as [HA' [Hk' _]%Forall_cons]. destruct Hj as [[Hj1 [Hj2 _]]%joined_app _]. cbn [fst] in Hj2.
    unfold bp. rewrite span_app. unfold useds. rewrite blocks_app, app_nil_r. cbn [span snd] in *. split_and!; try done; lia. }
  destruct HA' as (HsA' & Hj' & Hlu & Hu & Hpos & Hn2).
  assert (Hused : useds lo (A' ++ (false, n2) :: B1) = useds lo A ++ useds (lo + span A + 16 * n) B).
  { unfold useds in *. rewrite blocks_app, Hu. f_equal. cbn [blocks eqb fst snd]. by rewrite Hpos, J7. }
  assert (Hspan : span (A' ++ (false, n2) :: B1) = span (A ++ (true, n) :: B)) by (rewrite Hsp, span_app; cbn [span snd]; unfold bp in *; lia).
  assert (HT' : sizes_ok (A' ++ (false, n2) :: B1)) by (apply sizes_app; split; [done|apply Forall_cons; split; [cbn; lia|done]]).
  assert (Hkept : kept (A' ++ (false, n2) :: B1) (h_mem s) m2).
  { intros b x Hb Hx. rewrite Hused in Hb. transitivity (m1 !! x); [apply (on_same _ _ _ _ Ho2)|apply (on_same _ _ _ _ J1)]; apply elem_of_app in Hb as [Hb|Hb].
    - pose proof (blocks_in _ _ _ _ HA Hb). destruct Hpc as [->|Hpc]; [lia|]. pose proof (blocks_apart _ _ _ _ HA Hb Hpc) as Hap. cbn [fst snd] in Hap. lia.
    - apply blocks_in in Hb; [unfold bp in *; lia|done].
    - apply blocks_in in Hb; [unfold bp in *; lia|done].
    - apply blocks_in in Hb; [unfold bp in *; lia|done]. }
  assert (Hmap : ∀ x j, mapped (h_mem s) x j → mapped m2 x j) by (intros x j Hm; by apply Ho2, J1).
  split; [split; [done| | | | |done| |]|done|done|done| |].
  - apply joined_app. rewrite Hlu. done.
  - rewrite Hspan. apply Hs.
  - rewrite Hspan. apply Hmap, Hs.
  - apply Hmap, Hs.
  - unfold nodes, frees. rewrite blocks_app. destruct Hcase as [(_ & -> & _)|(-> & _ & _)]; [exists n2; right; apply elem_of_app; right; by left|].
    exists k. rewrite app_comm_cons. apply elem_of_app. by left.
  - intros b Hb. change (h_mem (s <| h_mem := m2 |> <| freep := p |>)) with m2. rewrite (kept_size _ _ _ _ HT' Hkept Hb). apply (ho_used _ _ Hs). unfold useds in *. rewrite Hused in Hb. rewrite blocks_app. apply elem_of_app in Hb as [Hb|Hb]; apply elem_of_app; [by left|right; by right].
  - intros x Hx Hxb. transitivity (m1 !! x); [apply (on_same _ _ _ _ Ho2)|apply (on_same _ _ _ _ J1)]; rewrite Hspan, Hsp in Hx; unfold bp in *; lia.
  - exists (lo + span A', n2). split; [|done]. unfold frees. rewrite blocks_app. apply elem_of_app. right. by left.
Qed.
Lemma mwp_join_prev s A n B X p k m1 n1 B1 (Q : unit → heap → Prop) : let bp := lo + span A in heap_ok s (A ++ (true, n) :: B) → nodes A = X ++ [(p, k)] →
  next_joined (h_mem s) bp n B m1 n1 B1 →
  (∀ m2 T', freed s A n B (s <| h_mem := m2 |> <| freep := p |>) T' → Q tt (s <| h_mem := m2 |>)) → mwp (join_prev bp p (s <| h_mem := m1 |>)) Q.
Proof using Hlo Hlim Hbase.
  intros bp Hs HX HJ HQ. destruct (used_in_row _ _ _ _ Hs) as (Hn & HA & HB & HsA & HsB & [Hlt0 Hlt] & Hsp). pose proof (ho_ring _ _ Hs) as Hring. rewrite (nodes_around A B n X p k HX) in Hring.
  assert (Hpin : (p, k) ∈ nodes A) by (rewrite HX; apply elem_of_app; right; by left). pose proof (before_bp A B n (ho_sizes _ _ Hs) (p, k) Hpin) as Hpb. fold bp in Hpb, Hring. cbn [fst] in Hpb.
  destruct (nodes_order A X (p, k) [] HA HX) as (Hbef & _ & Hge). cbn [fst] in Hbef, Hge. pose proof HJ as [J1 [J2 J2'] J3 J4 J5 J6 J7 J8]. apply seg_app in Hring as [HsX [[_ Hk] _]]. cbn [first fst snd] in HsX, Hk.
  assert (Hk0 : 0 ≤ k) by (apply elem_of_cons in Hpin as [[= -> ->]|Hin%blocks_in]; [done|cbn [fst snd] in Hin; lia|done]).
  assert (Hpm : mapped m1 p 16).
  { apply J1. apply elem_of_cons in Hpin as [[= -> ->]|Hin%blocks_in]; [apply Hs|cbn [fst snd] in Hin; eapply mapped_sub; [apply Hs|lia|rewrite Hsp; lia]|done]. }
  assert (HsX1 : ∀ m2, only m1 m2 p 16 → seg m2 X p).
  { intros m2 Ho. eapply seg_other; [exact Ho|intros b Hb%Hbef; lia|]. eapply seg_other; [exact J1|intros b Hb%Hbef; lia|done]. }
  assert (HY : ∀ m2, only m1 m2 p 16 → seg m2 (frees (bp + 16 * n1) B1) base).
  { intros m2 Ho. eapply seg_other; [exact Ho|intros b Hb%blocks_in; [lia|done]|done]. }
  pose proof (first_in (bp + 16 * n1) B1 base J5) as Hfi. pose proof (span_pos _ J5). assert (Hk1 : load_le 4 m1 (p + 8) = Some k) by (rewrite <- Hk; apply (only_load _ _ _ _ 4 _ J1); lia).
  unfold join_prev. apply wp_bind. eapply mwp_s_size; [exact Hk1|]. destruct (pred_cases A X p k HA HX) as [(A0 & HA0 & Hp & HX0)|[Hlt' Hlu]].
  - assert (Hbp : p + 16 * k = bp) by (unfold bp; rewrite HA0, span_app; cbn [span snd]; lia). assert (1 ≤ k) by (rewrite HA0 in HA; by apply sizes_app in HA as [_ [? _]%Forall_cons]).
    rewrite header_add_small, Hbp, Z.eqb_refl by (unfold bp in *; lia). apply wp_bind. eapply mwp_s_size; [done|]. apply wp_bind. apply mwp_set_size; [done|unfold bp in *; lia|]. intros m2 Ho2 Hp2 Hn2. 
    apply wp_bind. eapply mwp_s_ptr; [rewrite <- J2; apply (only_load _ _ _ _ 8 _ Ho2); lia|]. apply mwp_set_ptr; [by apply Ho2|unfold bp in *; lia|].
    change (h_mem (s <| h_mem := m1 |> <| h_mem := m2 |>)) with m2. intros m3 Ho3 Hp3 Hn3. rewrite Hn2 in Hn3. assert (Ho : only m1 m3 p 16) by (by eapply only_trans).
    apply (HQ m3 (A0 ++ (false, k + n1) :: B1)). eapply (freed_ok s A n B X p k m1 n1 B1); [done|done|done|done|by left|].
    unfold nodes, frees. rewrite blocks_app, app_comm_cons. change ((base, 0) :: blocks false lo A0) with (nodes A0). rewrite <- HX0. cbn [blocks eqb fst snd].
    replace (lo + span A0 + 16 * (k + n1)) with (bp + 16 * n1) by lia. rewrite <- Hp. apply seg_app. split; [by apply HsX1|]. split; [done|by apply HY].
  - rewrite header_add_small, (proj2 (Z.eqb_neq _ _)) by (unfold bp in *; lia). apply mwp_set_ptr; [done|unfold bp; lia|]. change (h_mem (s <| h_mem := m1 |>)) with m1. intros m2 Ho2 Hp2 Hn2. rewrite Hk1 in Hn2.
    apply (HQ m2 (A ++ (false, n1) :: B1)). eapply (freed_ok s A n B X p k m1 n1 B1); [done|done|done|done|by right|].
    unfold nodes, frees. rewrite blocks_app, app_comm_cons. change ((base, 0) :: blocks false lo A) with (nodes A). rewrite HX, <- app_assoc. cbn [app blocks eqb fst snd]. fold bp.
    apply seg_app. split; [by apply HsX1|]. split; [done|]. split; [|by apply HY]. eapply (header_other m1 m2 p 16); [done|cbn [fst]; lia|done].
Qed.
Lemma mwp_free s A n B (Q : unit → heap → Prop) : heap_ok s (A ++ (true, n) :: B) → (∀ s' T', freed s A n B s' T' → Q tt s') →
  mwp (free (lo + span A + 16) s) Q.
Proof using Hlo Hlim Hbase.
  intros Hs HQ. destruct (used_in_row _ _ _ _ Hs) as (Hn & HA & HB & HsA & HsB & [Hlt0 Hlt] & Hsp). unfold free. rewrite header_add_small by lia. replace (lo + span A + 16 + 16 * -1) with (lo + span A) by lia.
  destruct (nodes_last A) as (X & p & k & HX). apply wp_bind, wp_done, wp_bind. eapply (mwp_free_find s A B n X p k); [done|done|]. apply wp_bind. eapply mwp_join_next; [done|done|].
  intros m1 n1 B1 HJ. apply wp_bind. eapply mwp_join_prev; [done|done|done|]. intros m2 T' HF. apply wp_done. exact (HQ _ T' HF).
Qed.

(** ** Taking a block *)

(** the heap after [malloc] has taken the block at [a'] *)
Record taken (s : heap) A n B (nunits : Z) (s' : heap) T' (a' : Z) : Prop := {
  tk_ok : heap_ok s' T';
  tk_span : span T' = span (A ++ (false, n) :: B);
  tk_used : useds lo T' = useds lo A ++ (a', nunits) :: useds (lo + span A + 16 * n) B;
  tk_kept : kept (A ++ (false, n) :: B) (h_mem s) (h_mem s');
  tk_outside x : ¬ (lo ≤ x < lo + span T') → ¬ (base ≤ x < base + 16) → h_mem s' !! x = h_mem s !! x
}.
Lemma free_in_row s A n B : heap_ok s (A ++ (false, n) :: B) → 1 ≤ n ∧ sizes_ok A ∧ sizes_ok B ∧ 0 ≤ span A ∧ 0 ≤ span B ∧ lo + span (A ++ (false, n) :: B) ≤ 2 ^ 36 ∧
  span (A ++ (false, n) :: B) = span A + 16 * n + span B ∧ joined true A ∧ last_used true A = true ∧ joined false B.
Proof using Hlo Hlim Hbase.
  intros Hs. pose proof (ho_sizes _ _ Hs) as [HA [Hn HB]%Forall_cons]%sizes_app. pose proof (span_pos _ HA). pose proof (span_pos _ HB). destruct (ho_brk _ _ Hs).
  pose proof (ho_joined _ _ Hs) as [Hj1 [Hj2 Hj3]]%joined_app. rewrite span_app in *. cbn [span fst snd orb] in *. split_and!; try done; lia.
Qed.
Lemma nodes_free A n B : nodes (A ++ (false, n) :: B) = nodes A ++ (lo + span A, n) :: frees (lo + span A + 16 * n) B.
Proof. unfold nodes, frees. by rewrite blocks_app, app_comm_cons. Qed.
(** the only block that points to a free block is the one before it *)
Lemma pred_unique s A n B X p k prevp kp : heap_ok s (A ++ (false, n) :: B) → nodes A = X ++ [(p, k)] → (prevp, kp) ∈ nodes (A ++ (false, n) :: B) →
  load64 (h_mem s) prevp = Some (lo + span A) → prevp = p.
Proof using Hlo Hlim Hbase.
  intros Hs HX Hin Hptr. destruct (free_in_row _ _ _ _ Hs) as (Hn & HA & HB & HsA & HsB & Hlt & Hsp & _). set (a := lo + span A) in *. pose proof (ho_sizes _ _ Hs) as HT.
  assert (HnT : nodes (A ++ (false, n) :: B) = X ++ (p, k) :: (a, n) :: frees (a + 16 * n) B) by (by rewrite nodes_free, HX, <- app_assoc).
  destruct (nodes_order _ _ _ _ HT HnT) as (Hb1 & Ha1 & _). cbn [fst] in Hb1, Ha1. pose proof (Ha1 (a, n) ltac:(by left)) as Hpa. cbn [fst] in Hpa.
  pose proof Hin as (l1 & l2 & Hsp2)%list_elem_of_split. pose proof (seg_lookup _ _ _ _ _ _ (ho_ring _ _ Hs) Hsp2) as [Hq _]. cbn [fst] in Hq. assert (Hfst : first l2 base = a) by congruence.
  destruct (nodes_order _ _ _ _ HT Hsp2) as (Hb2 & Ha2 & _). cbn [fst] in Hb2, Ha2. destruct l2 as [|c l2]; cbn [first] in Hfst; [unfold a in *; lia|]. pose proof (Ha2 c ltac:(by left)) as Hc.
  destruct (decide (prevp = p)) as [|Hne]; [done|exfalso]. assert (Hpn : (p, k) ∈ nodes (A ++ (false, n) :: B)) by (rewrite HnT; apply elem_of_app; right; by left).
  rewrite HnT in Hin. apply elem_of_app in Hin as [Hin%Hb1|[[= ->]|Hin%Ha1]%elem_of_cons]; [|done|]; cbn [fst] in Hin.
  - rewrite Hsp2 in Hpn. apply elem_of_app in Hpn as [Hpn%Hb2|[[= ->]|[Heq|Hpn]%elem_of_cons]%elem_of_cons]; [cbn [fst] in Hpn; lia|done|rewrite <- Heq in Hfst; cbn [fst] in Hfst; lia|].
    destruct (nodes_order _ (l1 ++ [(prevp, kp)]) c l2 HT) as (_ & H3 & _); [by rewrite Hsp2, <- app_assoc|]. apply H3 in Hpn. cbn [fst] in Hpn. lia.
  - assert (a ≤ prevp); [|lia]. destruct (Z.le_gt_cases a prevp); [done|]. exfalso.
    assert (Hin2 : (prevp, kp) ∈ (a, n) :: frees (a + 16 * n) B).
    { assert (H' : (prevp, kp) ∈ X ++ (p, k) :: (a, n) :: frees (a + 16 * n) B) by (rewrite <- HnT, Hsp2; apply elem_of_app; right; by left).
      apply elem_of_app in H' as [H'%Hb1|[[= ->]|?]%elem_of_cons]; [cbn [fst] in H'; lia|done|done]. }
    apply elem_of_cons in Hin2 as [[= -> ->]|Hin2%blocks_in]; [lia|cbn [fst snd] in Hin2; lia|done].
Qed.
Lemma taken_ok s A n B nunits m' prevp kp T' a' c : let a := lo + span A in heap_ok s (A ++ (false, n) :: B) → 1 ≤ nunits →
  n = nunits ∧ T' = A ++ (true, n) :: B ∧ a' = a ∨ nunits < n ∧ T' = A ++ (false, n - nunits) :: (true, nunits) :: B ∧ a' = a + 16 * (n - nunits) →
  c ∈ nodes A → (∀ x, ¬ (a ≤ x < a + 16 * n) → ¬ (c.1 ≤ x < c.1 + 16) → m' !! x = h_mem s !! x) → (∀ x j, mapped (h_mem s) x j → mapped m' x j) →
  seg m' (nodes T') base → load_le 4 m' (a' + 8) = Some nunits → (prevp, kp) ∈ nodes T' →
  taken s A n B nunits (s <| h_mem := m' |> <| freep := prevp |>) T' a'.
Proof using Hlo Hlim Hbase.
  intros a Hs Hnu Hcase Hc Hsame Hmap Hseg Hsz Hprev. destruct (free_in_row _ _ _ _ Hs) as (Hn & HA & HB & HsA & HsB & Hlt & Hsp & HjA & Hlu & HjB).
  assert (HjB' : joined true B) by (destruct B as [|[[] ?] ?]; cbn in *; intuition).
  assert (HT' : sizes_ok T' ∧ joined true T' ∧ span T' = span (A ++ (false, n) :: B) ∧ useds lo T' = useds lo A ++ (a', nunits) :: useds (a + 16 * n) B).
  { unfold useds. destruct Hcase as [(-> & -> & ->)|(Hlt' & -> & ->)]; rewrite Hsp, span_app, blocks_app, joined_app, Hlu; cbn [span snd fst blocks eqb joined orb]; fold a; (split; [apply sizes_app; split; [done|repeat (constructor; [cbn; lia|]); done]|]).
    - split_and!; try done; lia.
    - split_and!; try done; [lia|]. do 3 f_equal. lia. }
  destruct HT' as (HsT & HjT & HspT & HuT).
  assert (Hkept : kept (A ++ (false, n) :: B) (h_mem s) m').
  { intros b x Hb Hx. unfold useds in Hb. rewrite blocks_app in Hb. cbn [blocks eqb fst snd] in Hb. fold a in Hb. assert (Hc2 : c.1 = base ∨ c ∈ frees lo A) by (apply elem_of_cons in Hc as [->|?]; [by left|by right]).
    apply Hsame; (apply elem_of_app in Hb as [Hb|Hb]; [pose proof (blocks_in _ _ _ _ HA Hb) as Hr|pose proof (blocks_in _ _ _ _ HB Hb) as Hr]); [unfold a; lia|lia| |].
    - destruct Hc2 as [->|Hc2]; [lia|]. pose proof (blocks_apart _ _ _ _ HA Hb Hc2). pose proof (blocks_in _ _ _ _ HA Hc2). lia.
    - destruct Hc2 as [->|Hc2]; [unfold a in *; lia|]. apply blocks_in in Hc2; [unfold a in *; lia|done]. }
  split; [split; [done|done|rewrite HspT; apply Hs|rewrite HspT; apply Hmap, Hs|apply Hmap, Hs|done|by exists kp|]|done|done|done|].
  - intros b Hb. change (h_mem (s <| h_mem := m' |> <| freep := prevp |>)) with m'. rewrite HuT in Hb. apply elem_of_app in Hb as [Hb|[->|Hb]%elem_of_cons]; [|done|].
    all: assert (Hb' : b ∈ useds lo (A ++ (false, n) :: B)) by (unfold useds in *; rewrite blocks_app; apply elem_of_app; (by left) || (by right)).
    all: rewrite (kept_size _ _ _ _ (ho_sizes _ _ Hs) Hkept Hb'); by apply (ho_used _ _ Hs).
  - intros x Hx Hxb. rewrite HspT, Hsp in Hx. apply Hsame; [unfold a; lia|]. apply elem_of_cons in Hc as [->|Hc%blocks_in]; [done|lia|done].
Qed.
Lemma mwp_take_block s A n B nunits prevp kp (Q : Z → heap → Prop) : heap_ok s (A ++ (false, n) :: B) → 1 ≤ nunits ≤ n → (prevp, kp) ∈ nodes (A ++ (false, n) :: B) →
  load64 (h_mem s) prevp = Some (lo + span A) →
  (∀ s' T' a', taken s A n B nunits s' T' a' → 0 < a' < 2 ^ 36 → Q (a' + 16) s') → mwp (take_block nunits prevp (lo + span A) n s) Q.
Proof using Hlo Hlim Hbase.
  intros Hs Hnu Hin Hptr HQ. destruct (free_in_row _ _ _ _ Hs) as (Hn & HA & HB & HsA & HsB & Hlt & Hsp & HjA & Hlu & HjB). set (a := lo + span A) in *. destruct (nodes_last A) as (X & p & k & HX).
  pose proof (pred_unique _ _ _ _ _ _ _ _ _ Hs HX Hin Hptr) as ->. pose proof (ho_ring _ _ Hs) as Hring. rewrite nodes_free, HX, <- app_assoc in Hring. apply seg_app in Hring as [HsX [[Hp Hk] [[Ha Han] HY]]]. cbn [fst snd] in *. fold a in Ha, Han, HY, HsX.
  assert (Hpin : (p, k) ∈ nodes A) by (rewrite HX; apply elem_of_app; right; by left). destruct (nodes_order A X (p, k) [] HA HX) as (Hbef & _ & Hge). cbn [fst] in Hbef, Hge.
  assert (Hpa : p + 16 ≤ a) by (unfold a; apply elem_of_cons in Hpin as [[= -> ->]|Hpin%blocks_in]; [lia|cbn [fst snd] in Hpin; lia|done]).
  assert (HYin : ∀ b, b ∈ frees (a + 16 * n) B → a + 16 * n ≤ b.1) by (intros b Hb%blocks_in; [lia|done]). pose proof (first_in (a + 16 * n) B base HB) as Hfi.
  assert (Ham : mapped (h_mem s) a (16 * n)) by (eapply mapped_sub; [apply Hs|unfold a; lia|unfold a; rewrite Hsp; lia]).
  unfold take_block. destruct (Z.eqb_spec n nunits) as [->|Hne].
  - assert (Hpm : mapped (h_mem s) p 16) by (apply elem_of_cons in Hpin as [[= -> ->]|Hpin%blocks_in]; [apply Hs|cbn [fst snd] in Hpin; eapply mapped_sub; [apply Hs|lia|rewrite Hsp; lia]|done]).
    apply wp_bind, wp_bind. eapply mwp_s_ptr; [exact Ha|]. apply wp_bind. apply mwp_set_ptr; [done|unfold a in *; lia|]. intros m' Ho Hp' Hn'. apply wp_done, wp_bind, wp_done, wp_done. rewrite header_add_small by (unfold a in *; lia).
    apply (HQ _ (A ++ (true, nunits) :: B) a); [|unfold a in *; lia]. assert (HnT : nodes (A ++ (true, nunits) :: B) = X ++ (p, k) :: frees (a + 16 * nunits) B) by (by apply nodes_around).
    apply (taken_ok s A nunits B nunits m' p k _ a (p, k)); [done|lia|by left|done|intros x _ Hx; by apply Ho|apply Ho| | |].
    + rewrite HnT. apply seg_app. cbn [first fst] in *. split; [eapply seg_other; [exact Ho|intros b Hb%Hbef; lia|done]|]. split; [split; cbn [fst snd]; [done|by rewrite Hn']|].
      eapply seg_other; [exact Ho|intros b Hb%HYin; lia|done].
    + rewrite <- Han. apply (only_load _ _ _ _ 4 _ Ho). lia.
    + rewrite HnT. apply elem_of_app. right. by left.
  - apply wp_bind, wp_bind. apply mwp_set_size; [by eapply mapped_sub; [exact Ham|lia|lia]|unfold a in *; lia|]. intros m1 Ho1 Hp1 Hn1. apply wp_bind. eapply mwp_s_size; [exact Hn1|]. rewrite header_add_small by (unfold a in *; lia).
    set (a' := a + 16 * (n - nunits)). apply wp_bind. apply mwp_set_size; [apply Ho1; by eapply mapped_sub; [exact Ham|lia|lia]|unfold a in *; lia|].
    change (h_mem (s <| h_mem := m1 |>)) with m1. intros m2 Ho2 Hp2 Hn2. apply wp_done, wp_bind, wp_done, wp_done. rewrite header_add_small by (unfold a', a in *; lia).
    apply (HQ _ (A ++ (false, n - nunits) :: (true, nunits) :: B) a'); [|unfold a', a in *; lia].
    assert (Ho : only (h_mem s) m2 a (16 * n)) by (eapply only_trans; [eapply only_mono; [exact Ho1|lia|lia]|eapply only_mono; [exact Ho2|lia|lia]]).
    assert (HnT : nodes (A ++ (false, n - nunits) :: (true, nunits) :: B) = X ++ (p, k) :: (a, n - nunits) :: frees (a + 16 * n) B).
    { rewrite nodes_free, HX, <- app_assoc. cbn [app]. do 3 f_equal. fold a. unfold frees. cbn [blocks eqb fst snd]. f_equal. lia. }
    apply (taken_ok s A n B nunits m2 p k _ a' (p, k)); [done|lia|by right; split; [lia|]|done|intros x Hx _; by apply Ho|apply Ho| |done|].
    + rewrite HnT. apply seg_app. cbn [first fst] in *. split; [eapply seg_other; [exact Ho|intros b Hb%Hbef; lia|done]|]. split; [eapply (header_other _ _ _ _ _ _ _ Ho); [cbn [fst]; lia|done]|]. split.
      * split; cbn [fst snd]; [rewrite <- Ha, <- Hp1; apply (only_load _ _ _ _ 8 _ Ho2); lia|rewrite <- Hn1; apply (only_load _ _ _ _ 4 _ Ho2); lia].
      * eapply seg_other; [exact Ho|intros b Hb%HYin; lia|done].
    + rewrite HnT. apply elem_of_app. right. by left.
Qed.

(** ** More memory *)

Context (grants : Z → Z → bool) (newbyte : Z → Z) (Hgr : ∀ b n, grants b n = true → b + n ≤ lim).
Record grown (s : heap) T (nu : Z) (s' : heap) T' : Prop := {
  gr_ok : heap_ok s' T';
  gr_span : span T' = span T + 16 * nu;
  gr_used : useds lo T' = useds lo T;
  gr_kept : kept T (h_mem s) (h_mem s');
  gr_outside x : ¬ (lo ≤ x < lo + span T') → ¬ (base ≤ x < base + 16) → h_mem s' !! x = h_mem s !! x;
  gr_large : ∃ b, b ∈ frees lo T' ∧ nu ≤ b.2
}.
Lemma only_grow m sz n : only m (map_seqZ sz (newbyte <$> seqZ sz n) ∪ m) sz n ∧ mapped (map_seqZ sz (newbyte <$> seqZ sz n) ∪ m) sz n.
Proof.
  assert (Hin : ∀ x, sz ≤ x < sz + n → (map_seqZ sz (newbyte <$> seqZ sz n) : gmap Z Z) !! x = Some (newbyte x)).
  { intros x Hx. apply lookup_map_seqZ_Some. split; [lia|]. rewrite list_lookup_fmap, lookup_seqZ_lt by lia. cbn. do 2 f_equal. lia. }
  assert (Hout : ∀ x, ¬ (sz ≤ x < sz + n) → (map_seqZ sz (newbyte <$> seqZ sz n) : gmap Z Z) !! x = None).
  { intros x Hx. apply lookup_map_seqZ_None. rewrite length_fmap, length_seqZ. lia. }
  split; [split|].
  - intros x Hx. by apply lookup_union_r, Hout.
  - intros x k Hm i Hi. apply lookup_union_is_Some. right. exact (Hm i Hi).
  - intros i Hi. cbn. exists (newbyte (sz + i)). apply lookup_union_Some_l. apply Hin. lia.
Qed.
(** the new memory, made a used block *)
Lemma added_ok s T nu m : heap_ok s T → 1 ≤ nu → only (h_mem s) m (h_brk s) (16 * nu) → mapped m (h_brk s) (16 * nu) → h_brk s + 16 * nu ≤ lim →
  load_le 4 m (h_brk s + 8) = Some nu → heap_ok (s <| h_mem := m |> <| h_brk := h_brk s + 16 * nu |>) (T ++ [(true, nu)]).
Proof using Hlo.
  intros Hs Hnu Ho Hm Hl Hsz. destruct (ho_brk _ _ Hs) as [Hb _]. pose proof (span_pos _ (ho_sizes _ _ Hs)).
  assert (Hsp : span (T ++ [(true, nu)]) = span T + 16 * nu) by (rewrite span_app; cbn; lia).
  assert (Hn : nodes (T ++ [(true, nu)]) = nodes T) by (unfold nodes, frees; by rewrite blocks_app, app_nil_r).
  split; rewrite ?Hn, ?Hsp.
  - apply sizes_app. split; [apply Hs|by constructor].
  - apply joined_app. split; [apply Hs|done].
  - cbn. lia.
  - intros i Hi. destruct (Z.lt_ge_cases i (span T)); [apply (on_mapped _ _ _ _ Ho lo (span T)); [apply Hs|lia]|]. replace (lo + i) with (h_brk s + (i - span T)) by lia. apply Hm. lia.
  - apply Ho, Hs.
  - eapply seg_other; [exact Ho| |apply Hs]. intros b [->|Hb'%blocks_in]%elem_of_cons; [cbn [fst]; lia|lia|apply Hs].
  - apply Hs.
  - intros b Hb'. unfold useds in Hb'. rewrite blocks_app in Hb'. cbn [blocks eqb fst snd] in Hb'. change (h_mem (s <| h_mem := m |> <| h_brk := h_brk s + 16 * nu |>)) with m.
    apply elem_of_app in Hb' as [Hb'|Hb']; [|apply list_elem_of_singleton in Hb' as ->; cbn [fst snd]; by rewrite <- Hb]. rewrite (only_load _ _ _ _ 4 _ Ho); [by apply (ho_used _ _ Hs)|].
    apply blocks_in in Hb'; [lia|apply Hs].
Qed.
Lemma mwp_morecore s T nunits (Q : Z → heap → Prop) : heap_ok s T → 1 ≤ nunits → 16 * nunits < 2 ^ 31 → let nu := Z.max nunits 4096 in
  (grants (h_brk s) (16 * nu) = false → Q 0 s) →
  (∀ s' T', grants (h_brk s) (16 * nu) = true → grown s T nu s' T' → Q (freep s') s') → mwp (morecore grants newbyte nunits s) Q.
Proof using Hlo Hlim Hbase Hgr.
  intros Hs Hn1 Hn2 nu HQ0 HQ. unfold morecore. assert ((if nunits <? 4096 then 4096 else nunits) = nu) as -> by (unfold nu; destruct (Z.ltb_spec nunits 4096); lia).
  assert (Hnu : 4096 ≤ nu ∧ 16 * nu < 2 ^ 31) by (unfold nu; lia). replace (nu * 16) with (16 * nu) by lia. apply wp_bind. unfold sbrk. rewrite s32_small by lia. apply wp_bind, wp_done. rewrite (proj2 (Z.ltb_lt _ _)) by lia.
  destruct (grants (h_brk s) (16 * nu)) eqn:Hg; [|by apply wp_done, wp_done, HQ0]. pose proof (Hgr _ _ Hg) as Hl. destruct (ho_brk _ _ Hs) as [Hb _]. pose proof (span_pos _ (ho_sizes _ _ Hs)).
  apply wp_bind, wp_done, wp_done. rewrite (proj2 (Z.eqb_neq _ _)) by (change SBRK_ERROR with (2 ^ 64 - 1); lia). destruct (only_grow (h_mem s) (h_brk s) (16 * nu)) as [Ho Hm]. set (m0 := _ ∪ h_mem s) in *.
  apply wp_bind. apply mwp_set_size; [by eapply mapped_sub; [exact Hm|lia|lia]|lia|]. change (h_mem (s <| h_mem ::= union (map_seqZ (h_brk s) (newbyte <$> seqZ (h_brk s) (16 * nu))) |> <| h_brk := h_brk s + 16 * nu |>)) with m0.
  intros m1 Ho1 _ Hsz. assert (Ho2 : only (h_mem s) m1 (h_brk s) (16 * nu)) by (eapply only_trans; [done|eapply only_mono; [done|lia|lia]]).
  pose proof (added_ok s T nu m1 Hs ltac:(lia) Ho2 (on_mapped _ _ _ _ Ho1 _ _ Hm) Hl Hsz) as Hs1. rewrite header_add_small by lia. replace (h_brk s + 16 * 1) with (lo + span T + 16) by lia.
  apply wp_bind. eapply (mwp_free _ T nu []); [exact Hs1|]. intros s2 T2 [F1 F2 F3 F4 F5 F6]. apply wp_bind, wp_done, wp_done. apply (HQ s2 T2 eq_refl). rewrite span_app in F2. cbn [span snd] in F2. rewrite app_nil_r in F3.
  change (h_mem (s <| h_mem := m1 |> <| h_brk := h_brk s + 16 * nu |>)) with m1 in F4, F5. split; [done|lia|done| | |done].
  - intros b x Hb' Hx. rewrite (F4 b x) by (rewrite ?F3; done). apply (on_same _ _ _ _ Ho2). apply blocks_in in Hb'; [lia|apply Hs].
  - intros x Hx Hxb. rewrite F5 by done. apply (on_same _ _ _ _ Ho2). lia.
Qed.

(** ** The search for a block *)

Lemma blocks_nodup u o T : sizes_ok T → NoDup (blocks u o T).*1.
Proof.
  intros HT. revert o. induction HT as [|t T Ht HT IH]; intros o; cbn [blocks]; [constructor|]. destruct (eqb t.1 u); [|apply IH]. cbn [fmap list_fmap fst]. constructor; [|apply IH].
  intros (b & -> & Hb)%list_elem_of_fmap. apply blocks_in in Hb; [lia|done].
Qed.
Lemma nodes_nodup T : sizes_ok T → NoDup (nodes T).*1.
Proof using Hlo.
  intros HT. unfold nodes. cbn [fmap list_fmap fst]. constructor; [|by apply blocks_nodup]. intros (b & Heq & Hb)%list_elem_of_fmap. apply blocks_in in Hb; [lia|done].
Qed.
(** the list, from the block after [freep] on *)
Record ring_from (s : heap) T (F : list (Z * Z)) : Prop := {
  rf_nodes : F ≡ₚ nodes T;
  rf_seg : seg (h_mem s) F (first F 0);
  rf_last : ∃ k F', F = F' ++ [(freep s, k)];
  rf_ptr : load64 (h_mem s) (freep s) = Some (first F 0)
}.
Lemma ring_from_ok s T : heap_ok s T → ∃ F, ring_from s T F.
Proof.
  intros Hs. destruct (ho_freep _ _ Hs) as [kf Hf]. pose proof Hf as (N1 & N2 & HN)%list_elem_of_split. exists (N2 ++ N1 ++ [(freep s, kf)]).
  assert (Hseg : seg (h_mem s) (N2 ++ N1 ++ [(freep s, kf)]) (first (N2 ++ N1 ++ [(freep s, kf)]) 0)).
  { apply seg_rotate. rewrite <- app_assoc. cbn [app]. rewrite <- HN. apply Hs. }
  split; [|done|by exists kf, (N2 ++ N1); rewrite <- app_assoc|].
  - rewrite HN, (Permutation_app_comm N2), <- app_assoc. done.
  - apply (seg_lookup _ _ _ (N2 ++ N1) (freep s, kf) [] Hseg). by rewrite <- app_assoc.
Qed.
Definition takes s T nunits (Q : Z → heap → Prop) : Prop := ∀ A n B prevp kp, T = A ++ (false, n) :: B → nunits ≤ n → (prevp, kp) ∈ nodes T →
  load64 (h_mem s) prevp = Some (lo + span A) → mwp (take_block nunits prevp (lo + span A) n s) Q.
Lemma mwp_scan s T nunits fuel (Q : Z → heap → Prop) F : heap_ok s T → 1 ≤ nunits → ring_from s T F → takes s T nunits Q →
  ∀ R p prevp kp D, F = D ++ p :: R → (prevp, kp) ∈ nodes T → load64 (h_mem s) prevp = Some p.1 →
  ((∀ c, c ∈ p :: R → c.2 < nunits) → mwp ((let* p := morecore grants newbyte nunits in if p =? 0 then ret 0 else let* q := s_ptr p in malloc_loop grants newbyte fuel nunits p q) s) Q) →
  mwp (malloc_loop grants newbyte (length (p :: R) + fuel) nunits prevp p.1 s) Q.
Proof using Hlo.
  intros Hs Hnu [F1 F2 (kf & F' & F3) _] Htake. induction R as [|c R IH]; intros p prevp kp D HF Hin Hptr Hmore; cbn [length Nat.add malloc_loop].
  all: pose proof (seg_lookup _ _ _ _ _ _ F2 HF) as [Hnext Hsz]; assert (Hp : p ∈ nodes T) by (rewrite <- F1, HF; apply elem_of_app; right; by left).
  all: apply wp_bind; eapply mwp_s_size; [exact Hsz|]; destruct (Z.leb_spec nunits p.2) as [Hle|Hgt].
  1,3: apply elem_of_cons in Hp as [->|Hp]; [cbn [snd] in Hle; lia|]; apply list_elem_of_split in Hp as (l1 & l2 & Hp); apply blocks_split in Hp as (A & B & HT & Hpa & _ & _);
    rewrite Hpa in *; by eapply Htake.
  - apply wp_bind, wp_done. assert (p = (freep s, kf)) as -> by (rewrite F3 in HF; by apply app_inj_tail in HF as [_ <-]). rewrite Z.eqb_refl. apply Hmore. intros c ->%list_elem_of_singleton. done.
  - apply wp_bind, wp_done. assert (Hne : p.1 ≠ freep s).
    { intros Heq. pose proof (nodes_nodup T (ho_sizes _ _ Hs)) as Hnd. rewrite <- F1, HF, fmap_app in Hnd. apply NoDup_app in Hnd as (_ & _ & Hnd). cbn [fmap list_fmap] in Hnd. apply NoDup_cons in Hnd as [Hni _].
      apply Hni. rewrite Heq. assert (Hl : last (c :: R) = Some (freep s, kf)).
      { rewrite <- (last_snoc (freep s, kf) F'), <- F3, HF, (app_assoc D [p] (c :: R) : D ++ p :: c :: R = _), last_app. destruct (last (c :: R)) eqn:Hl; [done|by apply last_None in Hl]. }
      change (freep s ∈ (c :: R).*1). apply list_elem_of_fmap. exists (freep s, kf). split; [done|]. by apply last_Some_elem_of. }
    rewrite (proj2 (Z.eqb_neq _ _)) by done. apply wp_bind. eapply mwp_s_ptr; [exact Hnext|]. cbn [first]. apply (IH c p.1 p.2 (D ++ [p])); [by rewrite <- app_assoc|by destruct p|exact Hnext|].
    intros Hsmall. apply Hmore. intros c' [->|Hc']%elem_of_cons; [done|by apply Hsmall].
Qed.

(** the heap after [malloc] *)
Record malloced (s : heap) T (nunits : Z) (s' : heap) T' (a' : Z) : Prop := {
  ml_ok : heap_ok s' T';
  ml_brk : h_brk s' = h_brk s ∨ grants (h_brk s) (16 * Z.max nunits 4096) = true ∧ h_brk s' = h_brk s + 16 * Z.max nunits 4096;
  ml_used : ∃ U1 U2, useds lo T = U1 ++ U2 ∧ useds lo T' = U1 ++ (a', nunits) :: U2;
  ml_kept : kept T (h_mem s) (h_mem s');
  ml_outside x : ¬ (lo ≤ x < h_brk s') → ¬ (base ≤ x < base + 16) → h_mem s' !! x = h_mem s !! x
}.
Lemma takes_malloced s T nunits (Q : Z → heap → Prop) : heap_ok s T → 1 ≤ nunits →
  (∀ s' T' a', malloced s T nunits s' T' a' → h_brk s' = h_brk s → 0 < a' < 2 ^ 36 → Q (a' + 16) s') → takes s T nunits Q.
Proof using Hlo Hlim Hbase.
  intros Hs Hnu HQ A n B prevp kp -> Hn Hin Hptr. eapply mwp_take_block; [done|done|done|done|]. intros s' T' a' [K1 K2 K3 K4 K5] Ha'.
  assert (Hbrk : h_brk s' = h_brk s) by (rewrite (proj1 (ho_brk _ _ K1)), (proj1 (ho_brk _ _ Hs)), K2; done).
  apply (HQ s' T'); [|done|done]. split; [done|by left| |done|].
  - eexists _, _. split; [|exact K3]. unfold useds. by rewrite blocks_app.
  - rewrite (proj1 (ho_brk _ _ K1)). exact K5.
Qed.
Lemma grown_malloced s T nu s1 T1 nunits s2 T2 a' : nu = Z.max nunits 4096 → heap_ok s T → grants (h_brk s) (16 * nu) = true → grown s T nu s1 T1 → malloced s1 T1 nunits s2 T2 a' → h_brk s2 = h_brk s1 →
  malloced s T nunits s2 T2 a'.
Proof.
  intros -> Hs Hg [G1 G2 G3 G4 G5 G6] [L1 L2 (U1 & U2 & L3 & L3') L4 L5] Hb.
  assert (Hb1 : h_brk s1 = h_brk s + 16 * Z.max nunits 4096) by (rewrite (proj1 (ho_brk _ _ G1)), (proj1 (ho_brk _ _ Hs)), G2; lia).
  split; [done|right; split; [done|lia]|exists U1, U2; split; [congruence|done]| |].
  - intros b x Hbu Hx. rewrite (L4 b x) by (rewrite ?G3; done). by apply (G4 b).
  - intros x Hx Hxb. rewrite L5 by done. apply G5; [|done]. rewrite <- (proj1 (ho_brk _ _ G1)). lia.
Qed.
Lemma freep_pos s T : heap_ok s T → freep s ≠ 0.
Proof using Hbase Hlo. intros Hs. destruct (ho_freep _ _ Hs) as [k Hf]. apply elem_of_cons in Hf as [[= -> _]|Hf%blocks_in]; [lia|cbn [fst snd] in Hf; lia|apply Hs]. Qed.
Lemma mwp_malloc_loop s T nunits (Q : Z → heap → Prop) : heap_ok s T → 1 ≤ nunits → 16 * nunits < 2 ^ 31 →
  (grants (h_brk s) (16 * Z.max nunits 4096) = false → Q 0 s) →
  (∀ s' T' a', malloced s T nunits s' T' a' → 0 < a' < 2 ^ 36 → Q (a' + 16) s') →
  mwp ((let* p := s_ptr (freep s) in malloc_loop grants newbyte (2 * turns (h_brk s + 16 * Z.max nunits 4096) 16) nunits (freep s) p) s) Q.
Proof using Hlo Hlim Hbase Hgr.
  intros Hs Hn1 Hn2 HQ0 HQ. destruct (ring_from_ok s T Hs) as [F HF]. pose proof (rf_last _ _ _ HF) as (kf & F' & HF'). destruct (ho_brk _ _ Hs) as [Hb _]. pose proof (span_pos _ (ho_sizes _ _ Hs)) as Hpos.
  set (N := turns (h_brk s + 16 * Z.max nunits 4096) 16). assert (HlenF : (length F ≤ N)%nat).
  { rewrite (Permutation_length (rf_nodes _ _ _ HF)). etransitivity; [by apply (nodes_turns T (h_brk s)); [apply Hs|]|]. apply turns_mono. lia. }
  apply wp_bind. eapply mwp_s_ptr; [apply HF|]. assert (Hfin : (freep s, kf) ∈ nodes T) by (rewrite <- (rf_nodes _ _ _ HF), HF'; apply elem_of_app; right; by left).
  destruct F as [|p R] eqn:HFe; [by destruct F'|]. cbn [first]. replace (2 * N)%nat with (length (p :: R) + (2 * N - length (p :: R)))%nat by lia.
  eapply (mwp_scan s T nunits _ Q (p :: R)); [done|done|done| |by instantiate (1 := [])|exact Hfin|apply HF|].
  { apply takes_malloced; [done|done|]. intros s' T' a' Hm _ Ha'. by eapply HQ. }
  intros Hsmall. apply wp_bind. eapply mwp_morecore; [done|done|done|intros Hg; by apply wp_done, HQ0|]. intros s1 T1 Hg Hgrown. pose proof (gr_ok _ _ _ _ _ Hgrown) as Hs1.
  rewrite (proj2 (Z.eqb_neq _ _)) by (by eapply freep_pos). destruct (ring_from_ok s1 T1 Hs1) as [F1 HF1]. pose proof (rf_last _ _ _ HF1) as (kf1 & F1' & HF1').
  assert (HlenF1 : (length F1 ≤ N)%nat).
  { rewrite (Permutation_length (rf_nodes _ _ _ HF1)). apply nodes_turns; [apply Hs1|]. rewrite (gr_span _ _ _ _ _ Hgrown). lia. }
  apply wp_bind. eapply mwp_s_ptr; [apply HF1|]. assert (Hfin1 : (freep s1, kf1) ∈ nodes T1) by (rewrite <- (rf_nodes _ _ _ HF1), HF1'; apply elem_of_app; right; by left).
  destruct F1 as [|p1 R1] eqn:HF1e; [by destruct F1'|]. cbn [first]. replace (2 * N - length (p :: R))%nat with (length (p1 :: R1) + (2 * N - length (p :: R) - length (p1 :: R1)))%nat by lia.
  eapply (mwp_scan s1 T1 nunits _ Q (p1 :: R1)); [done|done|done| |by instantiate (1 := [])|exact Hfin1|apply HF1|].
  { apply takes_malloced; [done|done|]. intros s' T' a' Hm Hbk Ha'. apply (HQ s' T'); [|done]. by eapply grown_malloced. }
  intros Hsmall1. exfalso. destruct (gr_large _ _ _ _ _ Hgrown) as (b & Hb1 & Hb2). assert (Hbin : b ∈ p1 :: R1) by (rewrite (rf_nodes _ _ _ HF1); by right). apply Hsmall1 in Hbin. lia.
Qed.

(** ** [malloc] *)

(** before the first call of [malloc] there is no list *)
Definition heap_inv (s : heap) T : Prop :=
  heap_ok s T ∨ freep s = 0 ∧ T = [] ∧ h_brk s = lo ∧ lo ≤ lim ∧ mapped (h_mem s) base 16.
Lemma mwp_malloc s T nbytes (Q : Z → heap → Prop) : heap_inv s T → 0 ≤ nbytes < 2 ^ 31 - 31 → let nunits := units nbytes in
  (∀ s', heap_inv s' T → h_brk s' = h_brk s → kept T (h_mem s) (h_mem s') → grants (h_brk s) (16 * Z.max nunits 4096) = false → Q 0 s') →
  (∀ s' T' a', malloced s T nunits s' T' a' → 0 < a' < 2 ^ 36 → Q (a' + 16) s') → mwp (malloc base grants newbyte nbytes s) Q.
Proof using Hlo Hlim Hbase Hgr.
  intros Hs Hn nunits HQ0 HQ. destruct (units_small _ Hn) as (Hn1 & Hn2 & _). fold nunits in Hn1, Hn2. unfold malloc. fold nunits. apply wp_bind, wp_done. destruct Hs as [Hs|(Hf & -> & Hb & Hl & Hm)].
  - rewrite (proj2 (Z.eqb_neq _ _)) by (by eapply freep_pos). apply wp_bind, wp_done. eapply (mwp_malloc_loop s T); [done|done|done| |done]. intros Hg. apply HQ0; [by left|done|by intros b x|done].
  - rewrite Hf. apply wp_bind. apply wp_bind, wp_done, wp_bind. apply mwp_set_ptr; [done|lia|]. intros m1 Ho1 Hp1 _. apply wp_bind. apply mwp_set_size; [by apply Ho1|lia|].
    change (h_mem (s <| freep := base |> <| h_mem := m1 |>)) with m1. intros m2 Ho2 Hp2 Hn2'. rewrite Hp1 in Hp2. apply wp_done. set (s2 := s <| freep := base |> <| h_mem := m1 |> <| h_mem := m2 |>).
    assert (Hs2 : heap_ok s2 []).
    { split; [constructor|done|cbn; lia|intros i Hi; cbn in Hi; lia|by apply Ho2, Ho1|split; [done|done]|exists 0; by left|intros b Hb'; by apply not_elem_of_nil in Hb']. }
    assert (Ho : only (h_mem s) m2 base 16) by (by eapply only_trans). change (h_brk s) with (h_brk s2). change base with (freep s2).
    eapply (mwp_malloc_loop s2 []); [done|done|done| |].
    + intros Hg. apply HQ0; [by left|done|intros b x Hb'; by apply not_elem_of_nil in Hb'|done].
    + intros s' T' a' [L1 L2 L3 L4 L5] Ha'. apply (HQ s' T'); [|done]. split; [done|done|done|intros b x Hb'; by apply not_elem_of_nil in Hb'|].
      intros x Hx Hxb. rewrite L5 by done. by apply Ho.
Qed.
End heap.

(** ** Blocks of bytes *)

(** what a program can do with the heap, depending on what it has seen *)
Inductive mop := Malloc (n : Z) | Free (p : Z) | Load (p : Z) (i : nat) | Store (p : Z) (i : nat) (x : Z).
Inductive client := Fin | Do (op : mop) (k : Z → client).
Section client.
Context (base : Z) (grants : Z → Z → bool) (newbyte : Z → Z).
Definition do_mop (op : mop) : M Z :=
  match op with
  | Malloc n => malloc base grants newbyte n
  | Free p => free p ;; ret 0
  | Load p i => let* s := get in deref (h_mem s !! (p + Z.of_nat i))
  | Store p i x =>
      let* s := get in
      let* m := deref (put_byte (h_mem s) (p + Z.of_nat i) x) in
      set_mem m ;;
      ret 0
  end.
(** the calls and their results *)
Fixpoint do_client (c : client) : M (list (mop * Z)) :=
  match c with
  | Fin => ret []
  | Do op k =>
      let* r := do_mop op in
      let* tr := do_client (k r) in
      ret ((op, r) :: tr)
  end.
End client.

(** independent blocks of bytes, and the end of memory *)
Record spec := mk_spec { sp_blocks : gmap Z (list Z); sp_end : Z }.
Section spec.
Context (lo : Z) (grants : Z → Z → bool).
Definition apart (bs : gmap Z (list Z)) (p : Z) (l : list Z) : Prop :=
  ∀ q l', bs !! q = Some l' → p + Z.of_nat (length l) ≤ q ∨ q + Z.of_nat (length l') ≤ p.
Inductive mstep : spec → mop → Z → spec → Prop :=
  | step_malloc bs e n p l e' : bs !! p = None → n ≤ Z.of_nat (length l) → p mod 16 = 0 → apart bs p l → lo ≤ p → p + Z.of_nat (length l) ≤ e' →
      e' = e ∨ grants e (16 * Z.max (units n) 4096) = true ∧ e' = e + 16 * Z.max (units n) 4096 →
      mstep (mk_spec bs e) (Malloc n) p (mk_spec (<[p := l]> bs) e')
  | step_none bs e n : grants e (16 * Z.max (units n) 4096) = false → mstep (mk_spec bs e) (Malloc n) 0 (mk_spec bs e)
  | step_free bs e p l : bs !! p = Some l → mstep (mk_spec bs e) (Free p) 0 (mk_spec (delete p bs) e)
  | step_load bs e p i l x : bs !! p = Some l → l !! i = Some x → mstep (mk_spec bs e) (Load p i) x (mk_spec bs e)
  | step_store bs e p i l x : bs !! p = Some l → (i < length l)%nat → mstep (mk_spec bs e) (Store p i x) 0 (mk_spec (<[p := <[i := x]> l]> bs) e).
Inductive msteps : spec → list (mop * Z) → spec → Prop :=
  | msteps_nil σ : msteps σ [] σ
  | msteps_cons σ op r σ1 tr σ2 : mstep σ op r σ1 → msteps σ1 tr σ2 → msteps σ ((op, r) :: tr) σ2.
(** the program keeps to its blocks *)
Definition mop_ok (σ : spec) (op : mop) : Prop :=
  match op with
  | Malloc n => 0 ≤ n < 2 ^ 31 - 31
  | Free p => is_Some (sp_blocks σ !! p)
  | Load p i | Store p i _ => ∃ l, sp_blocks σ !! p = Some l ∧ (i < length l)%nat
  end.
Fixpoint keeps_to_blocks (c : client) (σ : spec) : Prop :=
  match c with
  | Fin => True
  | Do op k => mop_ok σ op ∧ ∀ r σ', mstep σ op r σ' → keeps_to_blocks (k r) σ'
  end.
End spec.

Section rows.
Context (lo : Z).
(** the used blocks hold the bytes of the specification *)
Definition holds (bs : gmap Z (list Z)) (U : list (Z * Z)) m : Prop :=
  (∀ p l, bs !! p = Some l → ∃ n, (p - 16, n) ∈ U ∧ Z.of_nat (length l) = 16 * (n - 1) ∧ ∀ i x, l !! i = Some x → m !! (p + Z.of_nat i) = Some x) ∧
  (∀ b, b ∈ U → is_Some (bs !! (b.1 + 16))).
Lemma span_mod T : span T mod 16 = 0.
Proof. induction T as [|t T IH]; [done|]. cbn [span]. rewrite Z.add_comm, Z.mul_comm, Z_mod_plus_full. done. Qed.
(** two used blocks *)
Lemma useds_apart T U1 b U2 c : sizes_ok T → useds lo T = U1 ++ b :: U2 → c ∈ U1 ++ U2 → c.1 + 16 * c.2 ≤ b.1 ∨ b.1 + 16 * b.2 ≤ c.1.
Proof.
  intros HT Hu Hc. apply blocks_split in Hu as (A & B & -> & Hb & -> & ->). apply sizes_app in HT as [HA [_ HB]%Forall_cons].
  apply elem_of_app in Hc as [Hc|Hc]; (apply blocks_in in Hc; [lia|done]).
Qed.
Lemma useds_unique T b c : sizes_ok T → b ∈ useds lo T → c ∈ useds lo T → b.1 = c.1 → b = c.
Proof.
  intros HT (U1 & U2 & Hu)%list_elem_of_split Hc Heq. rewrite Hu in Hc. apply elem_of_app in Hc as [Hc|[->|Hc]%elem_of_cons]; [|done|].
  all: pose proof (useds_apart T U1 b U2 c HT Hu ltac:(apply elem_of_app; tauto)).
  all: pose proof (blocks_in true lo T b HT ltac:(fold (useds lo T); rewrite Hu; apply elem_of_app; right; by left)); pose proof (blocks_in true lo T c HT ltac:(fold (useds lo T); rewrite Hu; apply elem_of_app; tauto || (right; by right))); lia.
Qed.
(** the bytes of the blocks are kept *)
Lemma holds_kept bs T U m m' : sizes_ok T → holds bs U m → (∀ b, b ∈ U → b ∈ useds lo T) → kept lo T m m' → holds bs U m'.
Proof.
  intros HT [H1 H2] HU Hk. split; [|done]. intros p l Hp. destruct (H1 p l Hp) as (n & Hin & Hlen & Hb). exists n. split; [done|split; [done|]].
  intros i x Hi. rewrite <- (Hb i x Hi). apply (Hk (p - 16, n)); [by apply HU|]. pose proof (lookup_lt_Some _ _ _ Hi). cbn [fst snd]. lia.
Qed.
Lemma split_used T bs p l m : sizes_ok T → holds bs (useds lo T) m → bs !! p = Some l →
  ∃ A n B, T = A ++ (true, n) :: B ∧ p = lo + span A + 16 ∧ Z.of_nat (length l) = 16 * (n - 1) ∧ useds lo T = useds lo A ++ (p - 16, n) :: useds (lo + span A + 16 * n) B.
Proof.
  intros HT [H1 _] Hp. destruct (H1 p l Hp) as (n & (U1 & U2 & Hu)%list_elem_of_split & Hlen & _). pose proof Hu as (A & B & -> & Ha & -> & ->)%blocks_split. cbn [fst snd] in *.
  exists A, n, B. split_and!; [done|lia|done|]. rewrite Hu. unfold useds. do 2 f_equal. f_equal. lia.
Qed.
End rows.

Section refinement.
Context (base lo lim : Z) (Hbase : 0 < base) (Hlo : base + 16 ≤ lo) (Hlim : lim ≤ 2 ^ 36) (Hal : lo mod 16 = 0).
Context (grants : Z → Z → bool) (newbyte : Z → Z) (Hgr : ∀ b n, grants b n = true → b + n ≤ lim).
#[local] Abbreviation heap_inv := (heap_inv base lo lim).
#[local] Abbreviation heap_ok := (heap_ok base lo lim).
(** the state of the heap, as the program sees it *)
Definition models (s : heap) (σ : spec) : Prop := ∃ T, heap_inv s T ∧ h_brk s = sp_end σ ∧ holds (sp_blocks σ) (useds lo T) (h_mem s).
Lemma inv_sizes s T : heap_inv s T → sizes_ok T.
Proof. intros [Hs|(_ & -> & _)]; [apply Hs|constructor]. Qed.

Lemma sim_malloc s T bs e n s' T' a' : heap_inv s T → h_brk s = e → holds bs (useds lo T) (h_mem s) → 0 ≤ n < 2 ^ 31 - 31 →
  malloced base lo lim grants s T (units n) s' T' a' → ∃ σ', mstep lo grants (mk_spec bs e) (Malloc n) (a' + 16) σ' ∧ models s' σ'.
Proof using Hbase Hlo Hal newbyte.
  intros Hs <- Hh Hn [L1 L2 (U1 & U2 & HU & HU') L4 _]. destruct (units_small _ Hn) as (Hn1 & _ & Hn3). set (nu := units n) in *. pose proof (inv_sizes _ _ Hs) as HT. pose proof (ho_sizes _ _ _ _ _ L1) as HT'.
  assert (Hin : (a', nu) ∈ useds lo T') by (rewrite HU'; apply elem_of_app; right; by left). pose proof (blocks_in _ _ _ _ HT' Hin) as Hr. cbn [fst snd] in Hr.
  pose proof HU' as (A & B & HTe & Ha & _ & _)%blocks_split. cbn [fst] in Ha. pose proof (proj1 (ho_brk _ _ _ _ _ L1)) as Hbrk.
  destruct (load_bytes_mapped (h_mem s') (Z.to_nat (16 * (nu - 1))) (a' + 16)) as (l & _ & Hlen & Hat); [eapply mapped_sub; [apply L1|lia|lia]|].
  assert (Hother : ∀ q l', bs !! q = Some l' → ∃ k, (q - 16, k) ∈ U1 ++ U2 ∧ Z.of_nat (length l') = 16 * (k - 1) ∧ 1 ≤ k ∧ (q - 16 + 16 * k ≤ a' ∨ a' + 16 * nu ≤ q - 16)).
  { intros q l' Hq. destruct (proj1 Hh q l' Hq) as (k & Hk & Hlk & _). pose proof (blocks_in _ _ _ _ HT Hk) as Hk'. cbn [fst snd] in Hk'. rewrite HU in Hk. exists k. split_and!; [done|done|lia|]. by apply (useds_apart lo T' U1 (a', nu) U2 (q - 16, k) HT' HU'). }
  assert (Hnone : bs !! (a' + 16) = None) by (destruct (bs !! (a' + 16)) as [l'|] eqn:Hq; [|done]; destruct (Hother _ _ Hq) as (k & _ & _ & Hk & Hap); lia).
  exists (mk_spec (<[a' + 16 := l]> bs) (h_brk s')). split.
  - apply step_malloc; [done|lia|rewrite (Z_mod_plus_full a' 1 16 : (a' + 16) mod 16 = _), Ha, Z.add_mod, Hal, span_mod by done; done| |lia|lia|done].
    intros q l' Hq. destruct (Hother _ _ Hq) as (k & _ & Hk1 & Hk2 & Hap). lia.
  - exists T'. split; [by left|]. split; [done|]. cbn [sp_blocks]. split.
    + intros q l' Hq. destruct (decide (q = a' + 16)) as [->|Hne].
      * rewrite lookup_insert_eq in Hq. injection Hq as <-. exists nu. replace (a' + 16 - 16) with a' by lia. split; [done|split; [lia|]]. intros i x Hi. by apply (Hat i x).
      * rewrite lookup_insert_ne in Hq by done. assert (Hkept : holds bs (useds lo T) (h_mem s')) by (by apply (holds_kept lo bs T _ (h_mem s))). destruct (proj1 Hkept q l' Hq) as (k & Hk & Hrest). exists k. split; [|done].
        rewrite HU'. rewrite HU in Hk. apply elem_of_app. apply elem_of_app in Hk as [?|?]; [by left|right; by right].
    + intros b Hb. rewrite HU' in Hb. apply elem_of_app in Hb as [Hb|[->|Hb]%elem_of_cons]; [|rewrite lookup_insert_eq; by eexists|]; (destruct (decide (b.1 = a')) as [->|]; [rewrite lookup_insert_eq; by eexists|]);
        (rewrite lookup_insert_ne by lia); apply (proj2 Hh); rewrite HU; apply elem_of_app; tauto.
Qed.
Lemma sim_free s A n B bs e p s' T' : heap_ok s (A ++ (true, n) :: B) → h_brk s = e → holds bs (useds lo (A ++ (true, n) :: B)) (h_mem s) → p = lo + span A + 16 →
  useds lo (A ++ (true, n) :: B) = useds lo A ++ (p - 16, n) :: useds (lo + span A + 16 * n) B → freed base lo lim s A n B s' T' → models s' (mk_spec (delete p bs) e).
Proof.
  intros Hs <- Hh Hp HU [F1 F2 F3 F4 _ _]. pose proof (ho_sizes _ _ _ _ _ Hs) as HT. exists T'. split; [by left|]. split; [cbn; rewrite (proj1 (ho_brk _ _ _ _ _ F1)), F2; symmetry; apply (ho_brk _ _ _ _ _ Hs)|]. cbn [sp_blocks].
  assert (Hin : ∀ b, b ∈ useds lo T' → b ∈ useds lo (A ++ (true, n) :: B) ∧ b.1 + 16 ≠ p).
  { intros b Hb. rewrite F3 in Hb. split; [rewrite HU; apply elem_of_app; apply elem_of_app in Hb as [?|?]; [by left|right; by right]|].
    pose proof (useds_apart lo _ _ _ _ b HT HU Hb) as Hap. cbn [fst snd] in Hap. pose proof (ho_sizes _ _ _ _ _ F1) as HT'. rewrite <- F3 in Hb. apply blocks_in in Hb; [|done]. apply sizes_app in HT as [_ [Hn _]%Forall_cons]. cbn [snd] in Hn. lia. }
  split.
  - intros q l [Hne Hq]%lookup_delete_Some. destruct (proj1 Hh q l Hq) as (k & Hk & Hlen & Hby). exists k. assert (Hk' : (q - 16, k) ∈ useds lo T').
    { rewrite F3. rewrite HU in Hk. apply elem_of_app. apply elem_of_app in Hk as [?|[[= Heq _]|?]%elem_of_cons]; [by left|lia|by right]. }
    split; [done|split; [done|]]. intros i x Hi. rewrite <- (Hby i x Hi). apply (F4 (q - 16, k)); [done|]. pose proof (lookup_lt_Some _ _ _ Hi). cbn [fst snd]. lia.
  - intros b Hb. destruct (Hin b Hb) as [Hb' Hne]. rewrite lookup_delete_ne by done. by apply (proj2 Hh).
Qed.
(** a write to the bytes of a block *)
Lemma sim_store s A n B bs e p l i x : heap_ok s (A ++ (true, n) :: B) → h_brk s = e → holds bs (useds lo (A ++ (true, n) :: B)) (h_mem s) → p = lo + span A + 16 → bs !! p = Some l →
  Z.of_nat (length l) = 16 * (n - 1) → useds lo (A ++ (true, n) :: B) = useds lo A ++ (p - 16, n) :: useds (lo + span A + 16 * n) B → (i < length l)%nat →
  models (s <| h_mem := <[p + Z.of_nat i := x]> (h_mem s) |>) (mk_spec (<[p := <[i := x]> l]> bs) e).
Proof using Hbase Hlo newbyte.
  intros Hs <- Hh Hp Hl Hlen HU Hi. pose proof (ho_sizes _ _ _ _ _ Hs) as HT. set (a := p + Z.of_nat i). set (m' := <[a := x]> (h_mem s)).
  assert (Ho : only (h_mem s) m' a 1).
  { split; [intros y Hy; apply lookup_insert_ne; lia|]. intros y k Hm j Hj. cbn. unfold m'. destruct (decide (y + j = a)) as [->|]; [rewrite lookup_insert_eq; by eexists|]. rewrite lookup_insert_ne by done. by apply Hm. }
  assert (Hout : ∀ b, b ∈ useds lo A ++ useds (lo + span A + 16 * n) B → b.1 + 16 * b.2 ≤ p - 16 ∨ p - 16 + 16 * n ≤ b.1) by (intros b; by apply (useds_apart lo _ _ _ _ b HT HU)).
  assert (Huse : ∀ b, b ∈ useds lo (A ++ (true, n) :: B) → b.1 + 16 ≤ a ∨ a + 1 ≤ b.1).
  { intros b Hb. pose proof (blocks_in _ _ _ _ HT Hb). rewrite HU in Hb. apply elem_of_app in Hb as [Hb|[->|Hb]%elem_of_cons]; [|cbn [fst]; lia|]; pose proof (Hout b ltac:(apply elem_of_app; tauto)); lia. }
  exists (A ++ (true, n) :: B). split; [left|split; [done|]].
  - destruct Hs as [H1 H2 H3 H4 H5 H6 H7 H8]. split; [done|done|done|by apply Ho|by apply Ho| |done|].
    + eapply seg_other; [exact Ho| |exact H6]. assert (Hpin : (p - 16, n) ∈ useds lo (A ++ (true, n) :: B)) by (rewrite HU; apply elem_of_app; right; by left).
      intros b [->|Hb]%elem_of_cons; [cbn [fst]; pose proof (blocks_in _ _ _ _ HT Hpin) as Hr; cbn [fst] in Hr; lia|]. pose proof (blocks_apart _ _ _ _ HT Hpin Hb) as Hap. pose proof (blocks_in _ _ _ _ HT Hb). cbn [fst snd] in Hap. lia.
    + intros b Hb. rewrite <- (H8 b Hb). apply (only_load _ _ _ _ 4 _ Ho). pose proof (Huse b Hb). lia.
  - cbn [sp_blocks]. change (h_mem (s <| h_mem := m' |>)) with m'. split.
    + intros q l' Hq. destruct (decide (q = p)) as [->|Hne].
      * rewrite lookup_insert_eq in Hq. injection Hq as <-. exists n. split; [rewrite HU; apply elem_of_app; right; by left|]. split; [by rewrite length_insert|]. intros j y Hj. destruct (decide (j = i)) as [->|Hji].
        -- rewrite list_lookup_insert_eq in Hj by done. injection Hj as <-. apply lookup_insert_eq.
        -- rewrite list_lookup_insert_ne in Hj by done. unfold m', a. rewrite lookup_insert_ne by lia. destruct (proj1 Hh p l Hl) as (k & _ & _ & Hby). by apply Hby.
      * rewrite lookup_insert_ne in Hq by done. destruct (proj1 Hh q l' Hq) as (k & Hk & Hlk & Hby). exists k. split; [done|split; [done|]]. intros j y Hj. unfold m'. rewrite lookup_insert_ne; [by apply Hby|].
        pose proof (lookup_lt_Some _ _ _ Hj). rewrite HU in Hk. apply elem_of_app in Hk as [Hk|[[= Heq _]|Hk]%elem_of_cons]; [|lia|]; pose proof (Hout (q - 16, k) ltac:(apply elem_of_app; tauto)) as Hap; cbn [fst snd] in Hap; unfold a; lia.
    + intros b Hb. destruct (decide (b.1 + 16 = p)) as [->|]; [rewrite lookup_insert_eq; by eexists|]. rewrite lookup_insert_ne by done. by apply (proj2 Hh).
Qed.
(** each operation does what the specification allows *)
Lemma mwp_mop s σ op : models s σ → mop_ok σ op → mwp (do_mop base grants newbyte op s) (λ r s', ∃ σ', mstep lo grants σ op r σ' ∧ models s' σ').
Proof using Hbase Hlo Hlim Hal Hgr.
  intros (T & Hs & He & Hh) Hop. destruct σ as [bs e]. cbn [sp_blocks sp_end] in *. pose proof (inv_sizes _ _ Hs) as HT.
  assert (Hsplit : ∀ p l, bs !! p = Some l → heap_ok s T).
  { intros p l Hp. destruct Hs as [Hs|(_ & -> & _)]; [done|]. destruct (proj1 Hh p l Hp) as (n & Hn & _). by apply not_elem_of_nil in Hn. }
  destruct op as [n|p|p i|p i x]; cbn [do_mop mop_ok sp_blocks] in *.
  - eapply (mwp_malloc base lo lim); [done|done|done|done|done|done|intros s' Hs' Hb' Hk Hg|intros s' T' a' Hm Ha'; by eapply sim_malloc].
    rewrite He in Hg. exists (mk_spec bs e). split; [by constructor|]. exists T. split; [done|split; [cbn; lia|]]. by eapply holds_kept.
  - destruct Hop as [l Hp]. pose proof (Hsplit p l Hp) as Hok. destruct (split_used lo T bs p l _ HT Hh Hp) as (A & n & B & -> & Hpe & Hlen & HU). apply wp_bind. rewrite Hpe at 1.
    eapply (mwp_free base lo lim); [done|done|done|exact Hok|]. intros s' T' HF. apply wp_done. eexists. split; [by econstructor|]. by eapply sim_free.
  - destruct Hop as (l & Hp & Hi). destruct (lookup_lt_is_Some_2 _ _ Hi) as [x Hx]. destruct (proj1 Hh p l Hp) as (n & _ & _ & Hb). apply wp_bind, wp_done. rewrite (Hb _ _ Hx). apply wp_done.
    exists (mk_spec bs e). split; [by econstructor|]. by exists T.
  - destruct Hop as (l & Hp & Hi). pose proof (Hsplit p l Hp) as Hok. destruct (lookup_lt_is_Some_2 _ _ Hi) as [y Hy]. destruct (proj1 Hh p l Hp) as (k & _ & _ & Hb).
    apply wp_bind, wp_done. cbn [put_byte bytes_mem]. rewrite (Hb _ _ Hy). apply wp_bind, wp_done, wp_bind, wp_done, wp_done.
    destruct (split_used lo T bs p l _ HT Hh Hp) as (A & n & B & -> & Hpe & Hlen & HU). eexists. split; [by econstructor|]. by eapply sim_store.
Qed.
Lemma mwp_client c : ∀ s σ, models s σ → keeps_to_blocks lo grants c σ → mwp (do_client base grants newbyte c s) (λ tr s', ∃ σ', msteps lo grants σ tr σ' ∧ models s' σ').
Proof using Hbase Hlo Hlim Hal Hgr.
  induction c as [|op k IH]; intros s σ Hs Hc; cbn [do_client keeps_to_blocks] in *; [apply wp_done; exists σ; split; [constructor|done]|]. destruct Hc as [Hop Hk].
  apply wp_bind. eapply wp_mono; [|by apply mwp_mop]. cbn beta. intros r s1 (σ1 & Hst & Hs1). apply wp_bind. eapply wp_mono; [|apply (IH r s1 σ1 Hs1); by apply Hk]. cbn beta.
  intros tr s2 (σ2 & Htr & Hs2). apply wp_done. exists σ2. split; [by econstructor|done].
Qed.
(** when all blocks are free again there is one *)
Lemma all_free s σ : models s σ → sp_blocks σ = ∅ → freep s ≠ 0 → sp_end σ ≠ lo → header (h_mem s) lo base ((sp_end σ - lo) / 16).
Proof using Hbase Hlo.
  intros (T & Hs & He & Hh) Hb Hf Hne. rewrite Hb in Hh. destruct Hs as [Hs|(? & _)]; [|done]. assert (Hu : useds lo T = []).
  { destruct (useds lo T) as [|b U] eqn:Hu; [done|]. destruct (proj2 Hh b ltac:(by left)) as [l Hl]. done. }
  destruct (ho_brk _ _ _ _ _ Hs) as [Hbrk _]. destruct T as [|[[] n] T]; [cbn in Hbrk; lia|done|]. destruct T as [|[[] n'] T]; [|done|].
  - destruct (ho_ring _ _ _ _ _ Hs) as [_ [Hh1 _]]. cbn [first fst snd] in Hh1. replace ((sp_end σ - lo) / 16) with n; [done|]. rewrite <- He, Hbrk. cbn [span snd]. replace (lo + (16 * n + 0) - lo) with (n * 16) by lia. by rewrite Z.div_mul.
  - destruct (ho_joined _ _ _ _ _ Hs) as [_ [Hj _]]. done.
Qed.
End refinement.

(** C35: a program that uses [malloc] and [free] sees independent blocks of
    bytes.  The program is any that asks for less than 2 GB at a time, frees
    blocks it has been given and not freed, and reads and writes bytes of such
    blocks only; what it does may depend on all it has seen.  Then every call
    returns and no access faults; [malloc] returns 0 only when [sbrk] refuses
    memory, and otherwise a block of at least the size asked for, aligned to 16
    bytes, that overlaps no other block; a byte read is the byte last written
    there, whatever blocks have been allocated and freed since.  When all
    blocks have been freed, the memory obtained is one free block again. *)
Theorem malloc_refines_blocks base lo lim grants newbyte c s : 0 < base → base + 16 ≤ lo → lim ≤ 2 ^ 36 → lo mod 16 = 0 → (∀ b n, grants b n = true → b + n ≤ lim) →
  freep s = 0 → h_brk s = lo → lo ≤ lim → mapped (h_mem s) base 16 → keeps_to_blocks lo grants c (mk_spec ∅ lo) →
  runs (do_client base grants newbyte c s) (λ tr s', ∃ σ', msteps lo grants (mk_spec ∅ lo) tr σ' ∧ h_brk s' = sp_end σ' ∧
    (sp_blocks σ' = ∅ → freep s' ≠ 0 → sp_end σ' ≠ lo → header (h_mem s') lo base ((sp_end σ' - lo) / 16))).
Proof.
  intros Hbase Hlo Hlim Hal Hgr Hf Hb Hl Hm Hc. apply runs_wp. assert (Hs : models base lo lim s (mk_spec ∅ lo)).
  { exists []. split; [right; done|]. split; [done|]. split; [done|]. intros b Hb'. by apply not_elem_of_nil in Hb'. }
  eapply wp_mono; [|by apply (mwp_client base lo lim)]. cbn beta. intros tr s' (σ' & Htr & Hs'). exists σ'. split; [done|]. split; [by destruct Hs' as (T & _ & He & _)|]. by eapply all_free.
Qed.
(** a program that writes a byte, reads it back and frees its block *)
Definition heap0 : heap := mk_heap (map_seqZ 4096 (replicate 16 0)) 8192 0.
Definition client0 : client :=
  Do (Malloc 5) (λ p, if p =? 0 then Fin else Do (Store p 4 42) (λ _, Do (Load p 4) (λ _, Do (Free p) (λ _, Fin)))).
Lemma malloc_refines_blocks_witness :
  runs (do_client 4096 (λ b n, b + n <=? 2 ^ 20) (λ _, 0) client0 heap0) (λ tr s', ∃ σ', msteps 8192 (λ b n, b + n <=? 2 ^ 20) (mk_spec ∅ 8192) tr σ' ∧ h_brk s' = sp_end σ' ∧
    (sp_blocks σ' = ∅ → freep s' ≠ 0 → sp_end σ' ≠ 8192 → header (h_mem s') 8192 4096 ((sp_end σ' - 8192) / 16))).
Proof.
  apply (malloc_refines_blocks 4096 8192 (2 ^ 20)); [done|done|done|done|intros b n H%Z.leb_le; done|done|done|done| |].
  - intros i Hi. exists 0. apply lookup_map_seqZ_Some. split; [lia|]. apply lookup_replicate_2. lia.
  - cbn [client0 keeps_to_blocks]. split; [done|]. intros r σ Hst. inversion Hst; subst; [|done]. destruct (Z.eqb_spec r 0) as [->|Hr]; [done|].
    assert (Hlen : (4 < length l)%nat) by lia. cbn [keeps_to_blocks mop_ok sp_blocks]. split; [exists l; by rewrite lookup_insert_eq|]. intros r1 σ1 Hst1. inversion Hst1; subst.
    split; [eexists; split; [apply lookup_insert_eq|by rewrite length_insert; simplify_map_eq]|]. intros r2 σ2 Hst2. inversion Hst2; subst. split; [|done].
    eexists. cbn [sp_blocks]. apply lookup_insert_eq.
Defined.
