(* ===== verification/Ulib.v ===== *)
(** * The library of user programs, [user/ulib.c] and [user/printf.c]

    The functions on strings and memory work on a store of bytes, as those of
    the kernel in [Bytes]; [atoi] is given its string as a list, whose end
    stands for the NUL.  [printf] writes one byte at a time; what a program
    writes is the list of the bytes with their descriptors. *)

From S2P Require Import Prelude Bytes Printf.
#[local] Open Scope Z_scope.
#[local] Open Scope kern_scope.

(** ** Strings and memory *)

Section string.
Context {B : Type} `{!Bytes B}.

(** the copy ends with the NUL *)
Fixpoint strcpy_loop (fuel : nat) (b : B) (s t : Z) : option B :=
  match fuel with
  | O => None
  | S fuel =>
      x ← byte_at b t;
      b ← put_byte b s x;
      if x =? 0 then Some b else strcpy_loop fuel b (s + 1) (t + 1)
  end.
Definition strcpy (b : B) (s t : Z) : option B := strcpy_loop (S (extent b)) b s t.

(** up to the end of the first string or the first difference *)
Fixpoint strcmp_loop (fuel : nat) (b : B) (p q : Z) : option Z :=
  match fuel with
  | O => None
  | S fuel =>
      x ← byte_at b p;
      y ← byte_at b q;
      if negb (x =? 0) && (x =? y) then strcmp_loop fuel b (p + 1) (q + 1) else Some (x - y)
  end.
Definition strcmp (b : B) (p q : Z) : option Z := strcmp_loop (S (extent b)) b p q.

(** the same loops as those of [kernel/string.c] *)
Definition ustrlen (b : B) (s : Z) : option Z := strlen_loop b s 0 (S (extent b)).
Definition umemset (b : B) (dst c n : Z) : option B := memset_loop b dst c 0 (Z.to_nat (u32 n)).
Definition umemmove (b : B) (dst src n : Z) : option B :=
  let n := s32 n in
  if dst <? src then memmove_up b dst src (Z.to_nat n)
  else memmove_down b (dst + n) (src + n) (Z.to_nat n).
Definition umemcmp (b : B) (s1 s2 n : Z) : option Z := memcmp_loop b b s1 s2 (Z.to_nat (u32 n)).
Definition memcpy (b : B) (dst src n : Z) : option B := umemmove b dst src n.

Context `{!BytesLaws B}.
Lemma fuel_enough (b : B) s l : cstr b s l → (length l < S (extent b))%nat.
Proof.
  intros Hl. assert (length (l ++ [0%Z]) ≤ extent b)%nat; [|rewrite length_app in *; simpl in *; lia]. apply (extent_bound b s). apply bytes_at_mapped, Hl.
Qed.
(** [strcpy] copies a string to a place that it does not overlap *)
Lemma strcpy_loop_spec l : ∀ fuel (b : B) s t, cstr b t l → mapped b s (Z.of_nat (length l) + 1) →
  s + Z.of_nat (length l) + 1 ≤ t ∨ t + Z.of_nat (length l) + 1 ≤ s → (length l < fuel)%nat →
  ∃ b', strcpy_loop fuel b s t = Some b' ∧ written b b' s (Z.of_nat (length l) + 1) (λ i, (l ++ [0]) !! Z.to_nat i).
Proof.
  induction l as [|x l IH]; intros [|fuel] b s t Hl Hm Hov Hf; try (cbn in Hf; lia); cbn [strcpy_loop].
  - apply cstr_nil in Hl. rewrite Hl. cbn [mbind option_bind]. destruct (put_byte_some b s 0) as [b1 Hb1]; [rewrite <- (Z.add_0_r s); apply Hm; cbn; lia|].
    rewrite Hb1. cbn. exists b1. split; [done|]. intros y. rewrite (byte_at_put _ _ _ _ _ Hb1). cbn. repeat case_decide; try lia; [|done]. by replace (Z.to_nat (y - s)) with 0%nat by lia.
  - apply cstr_cons in Hl as (Hx & Hnz & Hl). rewrite Hx. cbn [mbind option_bind length] in *. destruct (put_byte_some b s x) as [b1 Hb1]; [rewrite <- (Z.add_0_r s); apply Hm; lia|].
    rewrite Hb1. cbn [mbind option_bind]. rewrite (proj2 (Z.eqb_neq _ _)) by done. destruct (IH fuel b1 (s + 1) (t + 1)) as (b' & Hb' & Hw); [|eapply put_byte_mapped, mapped_sub; [done|exact Hm|lia|lia]|lia|lia|].
    { destruct Hl as [Hl Hz]. split; [|done]. intros i y Hi. rewrite (byte_at_put _ _ _ _ _ Hb1). pose proof (lookup_lt_Some _ _ _ Hi) as Hlt. rewrite length_app in Hlt. cbn in Hlt. rewrite decide_False by lia. by apply Hl. }
    exists b'. split; [done|]. intros y. rewrite (Hw y), (byte_at_put _ _ _ _ _ Hb1). destruct (decide (y = s)) as [->|].
    { rewrite decide_False, decide_True by lia. by rewrite Z.sub_diag. }
    repeat case_decide; try lia; [|done]. replace (Z.to_nat (y - s)) with (S (Z.to_nat (y - (s + 1)))) by lia. done.
Qed.
Lemma strcpy_spec (b : B) s t l : cstr b t l → mapped b s (Z.of_nat (length l) + 1) →
  s + Z.of_nat (length l) + 1 ≤ t ∨ t + Z.of_nat (length l) + 1 ≤ s →
  ∃ b', strcpy b s t = Some b' ∧ written b b' s (Z.of_nat (length l) + 1) (λ i, (l ++ [0]) !! Z.to_nat i).
Proof. intros Hl Hm Hov. apply strcpy_loop_spec; [done|done|done|by eapply fuel_enough]. Qed.
(** [strcmp] compares strings as [strncmp] without a limit does *)
Lemma strcmp_loop_spec (b : B) fuel : ∀ p q l l', cstr b p l → cstr b q l' → (length l < fuel)%nat →
  strcmp_loop fuel b p q = Some (str_compare fuel l l').
Proof.
  induction fuel as [|fuel IH]; intros p q l l' Hl Hl' Hf; [lia|]. cbn [strcmp_loop str_compare].
  destruct l as [|x l]; [apply cstr_nil in Hl as Hx|apply cstr_cons in Hl as (Hx & Hnx & Hl)]; rewrite Hx; cbn [mbind option_bind]; (destruct l' as [|y l']; [apply cstr_nil in Hl' as Hy|apply cstr_cons in Hl' as (Hy & Hny & Hl')]); rewrite Hy; cbn [mbind option_bind].
  - done.
  - done.
  - rewrite (proj2 (Z.eqb_neq x 0)) by done. cbn [negb andb]. f_equal. lia.
  - rewrite (proj2 (Z.eqb_neq x 0)) by done. cbn [negb andb]. destruct (Z.eqb_spec x y); [|done]. apply IH; [done|done|cbn in Hf; lia].
Qed.
Lemma strcmp_spec (b : B) p q l l' : cstr b p l → cstr b q l' → ∃ r, strcmp b p q = Some r ∧ (r = 0 ↔ l = l').
Proof.
  intros Hl Hl'. pose proof (fuel_enough _ _ _ Hl). pose proof (fuel_enough _ _ _ Hl'). eexists. split; [by apply strcmp_loop_spec|].
  rewrite str_compare_0; [|apply Hl|apply Hl']. by rewrite !take_ge by lia.
Qed.
Lemma umemmove_spec (b : B) d s n : 0 ≤ n < 2 ^ 31 → mapped b d n → mapped b s n →
  ∃ b', umemmove b d s n = Some b' ∧ written b b' d n (λ i, byte_at b (s + i)).
Proof.
  intros Hn Hd Hs. unfold umemmove. rewrite s32_small by lia. destruct (Z.ltb_spec d s).
  - destruct (memmove_up_spec (Z.to_nat n) b d s) as (b' & Hb' & Hw); rewrite ?Z2Nat.id in * by lia; [lia|done|done|eauto].
  - destruct (memmove_down_spec (Z.to_nat n) b (d + n) (s + n)) as (b' & Hb' & Hw); rewrite ?Z2Nat.id in * by lia; rewrite ?Z.add_simpl_r in *; [lia|done|done|eauto].
Qed.
End string.

(** ** Numbers *)

Fixpoint atoi_loop (n : Z) (s : list Z) : Z :=
  match s with
  | c :: s => if (chr "0" <=? c) && (c <=? chr "9") then atoi_loop (s32 (n * 10 + c - chr "0")) s else n
  | [] => n
  end.
Definition atoi (s : list Z) : Z := atoi_loop 0 s.

(** ** Formatted output *)

(** the bytes written so far, each with its descriptor *)
Abbreviation output := (list (Z * Z)).
#[local] Abbreviation M := (K output).
Definition write_bytes (fd : Z) (l : list Z) : M unit := modify (λ o, o ++ (pair fd <$> l)).
Definition putc (fd c : Z) : M unit := write_bytes fd [u8 c].

Definition udigits : list Z := str "0123456789ABCDEF".
(** the digits that [printint] stores, lowest first; a 64-bit number has at
    most 64 of them *)
Fixpoint uprintint_digits (fuel : nat) (x base : Z) : list Z :=
  match fuel with
  | O => []
  | S fuel =>
      default 0 (udigits !! Z.to_nat (x mod base)) ::
      (if x / base =? 0 then [] else uprintint_digits fuel (x / base) base)
  end.
Definition uprintint_buf (xx base : Z) (sgn : bool) : list Z :=
  let neg := sgn && (xx <? 0) in
  let x := u64 (if neg then - xx else xx) in
  uprintint_digits 64 x base ++ (if neg then [chr "-"] else []).
(** [char buf[20]]: a longer number would overrun it *)
Definition uprintint (fd xx base : Z) (sgn : bool) : M unit :=
  let buf := uprintint_buf xx base sgn in
  if (20 <? length buf)%nat then fault else
  for_each (reverse buf) (putc fd).
Fixpoint uprintptr_digits (n : nat) (x : Z) : list Z :=
  match n with
  | O => []
  | S n => default 0 (udigits !! Z.to_nat (Z.shiftr x 60)) :: uprintptr_digits n (u64 (Z.shiftl x 4))
  end.
Definition uprintptr (fd x : Z) : M unit :=
  putc fd (chr "0") ;;
  putc fd (chr "x") ;;
  for_each (uprintptr_digits 16 x) (putc fd).

(** one conversion, by the same chain of [if]s as in [kernel/printf.c]; the
    result is the arguments that are left *)
Definition vprintf_conv (fd : Z) (cv : fconv) (c0 : Z) (ap : list farg) : M (list farg) :=
  match cv, ap with
  | Fint conv base sgn, Aint v :: ap => uprintint fd (s64 (conv v)) base sgn ;; ret ap
  | Fptr, Aint v :: ap => uprintptr fd (u64 v) ;; ret ap
  | Fchar, Aint v :: ap => putc fd v ;; ret ap
  | Fstr, Astr s :: ap => for_each (default (str "(null)") s) (putc fd) ;; ret ap
  | Fpercent, _ => putc fd (chr "%") ;; ret ap
  | (Fend | Funknown), _ => putc fd (chr "%") ;; putc fd c0 ;; ret ap
  | _, _ => fault
  end.
(** [fmt] is what follows position [i]; [state] says whether a percent sign has
    been read *)
Fixpoint vprintf_loop (fuel : nat) (fd : Z) (fmt : list Z) (state : bool) (ap : list farg) : M unit :=
  match fuel, fmt with
  | _, [] => ret tt
  | O, _ => stop_with StopFuel
  | S fuel, c0 :: fmt =>
      if negb state then
        (if c0 =? chr "%" then vprintf_loop fuel fd fmt true ap
         else putc fd c0 ;; vprintf_loop fuel fd fmt false ap)
      else
        let c1 := if c0 =? 0 then 0 else default 0 (fmt !! 0%nat) in
        let c2 := if c1 =? 0 then 0 else default 0 (fmt !! 1%nat) in
        let '(cv, skip) := conversion c0 c1 c2 in
        let* ap := vprintf_conv fd cv c0 ap in
        vprintf_loop fuel fd (drop skip fmt) false ap
  end.
Definition vprintf (fd : Z) (fmt : list Z) (ap : list farg) : M unit := vprintf_loop (length fmt) fd fmt false ap.
Definition fprintf (fd : Z) (fmt : list Z) (ap : list farg) : M unit := vprintf fd fmt ap.
Definition uprintf (fmt : list Z) (ap : list farg) : M unit := vprintf 1 fmt ap.

(** ** What is written *)

(** [m] writes exactly the bytes [l] to [fd] *)
Definition writes {A} (fd : Z) (m : M A) (l : list Z) (a : A) : Prop := ∀ o, m o = Done a (o ++ (pair fd <$> l)).
Lemma writes_ret {A} fd (a : A) : writes fd (ret a) [] a.
Proof. intros o. unfold ret. by rewrite app_nil_r. Qed.
Lemma writes_bind {A B} fd (m : M A) (k : A → M B) l1 l2 a b : writes fd m l1 a → writes fd (k a) l2 b → writes fd (bind m k) (l1 ++ l2) b.
Proof. intros H1 H2 o. rewrite (bind_Done _ _ _ _ _ (H1 o)), H2. by rewrite fmap_app, <- app_assoc. Qed.
Lemma writes_bytes fd l : writes fd (write_bytes fd l) l tt.
Proof. by intros o. Qed.
Lemma writes_putc fd c : char_ok c → writes fd (putc fd c) [c] tt.
Proof. intros Hc o. unfold putc, u8. rewrite Z.mod_small by done. done. Qed.
Lemma writes_chars fd l : Forall char_ok l → writes fd (for_each l (putc fd)) l tt.
Proof. induction 1 as [|c l Hc Hl IH]; [apply writes_ret|]. apply (writes_bind fd _ _ [c] l tt); [by apply writes_putc|done]. Qed.

(** *** Decimal numerals *)

(** the value of decimal digits, lowest first *)
Fixpoint decimal_val (l : list Z) : Z := match l with [] => 0 | c :: l => c - chr "0" + 10 * decimal_val l end.
Definition is_digit (c : Z) : Prop := chr "0" ≤ c ≤ chr "9".
Lemma udigit_of d : 0 ≤ d < 10 → default 0 (udigits !! Z.to_nat d) = chr "0" + d.
Proof.
  intros Hd. assert (Hall : Forall (λ d, default 0 (udigits !! Z.to_nat d) = chr "0" + d) (seqZ 0 10)) by (apply (bool_decide_unpack _); by vm_compute).
  rewrite Forall_forall in Hall. apply Hall, elem_of_seqZ. lia.
Qed.
Lemma uprintint_digits_spec fuel : ∀ x, 0 ≤ x < 10 ^ Z.of_nat fuel → (0 < fuel)%nat →
  decimal_val (uprintint_digits fuel x 10) = x ∧ Forall is_digit (uprintint_digits fuel x 10) ∧ uprintint_digits fuel x 10 ≠ [] ∧
  ∀ n, (0 < n)%nat → x < 10 ^ Z.of_nat n → (length (uprintint_digits fuel x 10) ≤ n)%nat.
Proof.
  induction fuel as [|fuel IH]; intros x Hx Hf; [lia|]. pose proof (Z.mod_pos_bound x 10 ltac:(lia)) as Hm. pose proof (Z.div_mod x 10 ltac:(lia)) as Hdm.
  cbn [uprintint_digits decimal_val]. rewrite (udigit_of (x mod 10)) by done. assert (Hdig : is_digit (chr "0" + x mod 10)) by (unfold is_digit; change (chr "9") with (chr "0" + 9); lia).
  destruct (Z.eqb_spec (x / 10) 0) as [Hz|Hnz].
  - cbn [decimal_val length]. split_and!; [lia|by constructor; [|constructor]|done|lia].
  - assert (Hdiv : 0 < x / 10) by (pose proof (Z.div_pos x 10); lia).
    assert (Hlt : ∀ n, x < 10 ^ Z.of_nat (S n) → x / 10 < 10 ^ Z.of_nat n) by (intros n Hn; apply Z.div_lt_upper_bound; [lia|]; by rewrite Nat2Z.inj_succ, Z.pow_succ_r in Hn by lia).
    assert (0 < fuel)%nat by (destruct fuel; [specialize (Hlt 0%nat ltac:(lia)); cbn in Hlt; lia|lia]).
    destruct (IH (x / 10)) as (Hv & Hd & _ & Hlen); [split; [lia|apply Hlt, Hx]|done|]. split_and!; [lia|by constructor|done|].
    intros n Hn Hxn. cbn [length]. destruct n as [|n]; [lia|]. specialize (Hlt n Hxn). assert (0 < n)%nat by (destruct n; [cbn in Hlt; lia|lia]). specialize (Hlen n ltac:(done) Hlt). lia.
Qed.
(** [atoi] reads the digits back *)
Lemma atoi_digits ds : Forall is_digit ds → ∀ n rest, 0 ≤ n → n * 10 ^ Z.of_nat (length ds) + decimal_val ds < 2 ^ 31 →
  atoi_loop n (reverse ds ++ rest) = atoi_loop (n * 10 ^ Z.of_nat (length ds) + decimal_val ds) rest.
Proof.
  assert (Hpos : ∀ ds, Forall is_digit ds → 0 ≤ decimal_val ds) by (induction 1 as [|c l [? ?] Hl IHl]; cbn [decimal_val]; lia).
  induction 1 as [|d ds Hd Hds IH]; intros n rest Hn Hlt; cbn [length decimal_val] in *; [by rewrite Z.mul_1_r, Z.add_0_r|].
  rewrite reverse_cons, <- app_assoc. cbn [app]. rewrite Nat2Z.inj_succ, Z.pow_succ_r in * by lia. pose proof (Hpos _ Hds). destruct Hd as [Hd1 Hd2].
  assert (0 < 10 ^ Z.of_nat (length ds)) by (apply Z.pow_pos_nonneg; lia). rewrite IH by (try done; nia). cbn [atoi_loop]. rewrite (proj2 (Z.leb_le _ _)), (proj2 (Z.leb_le _ _)) by done. cbn [andb].
  rewrite s32_small by nia. f_equal. lia.
Qed.
(** the text of a number, and [atoi] of it *)
Definition decimal (n : Z) : list Z := reverse (uprintint_digits 64 n 10).
Lemma decimal_atoi n : 0 ≤ n < 2 ^ 31 → atoi (decimal n) = n ∧ Forall is_digit (decimal n) ∧ decimal n ≠ [].
Proof.
  intros Hn. destruct (uprintint_digits_spec 64 n) as (Hv & Hd & Hne & _); [split; [lia|]; apply (Z.lt_le_trans _ (2 ^ 31)); [lia|by vm_compute]|lia|].
  unfold atoi, decimal. split_and!; [|by apply Forall_reverse|intros H; apply Hne; by rewrite <- (reverse_involutive (uprintint_digits 64 n 10)), H].
  rewrite <- (app_nil_r (reverse _)), atoi_digits; [by cbn [atoi_loop]; rewrite Hv|done|lia|rewrite Hv; lia].
Qed.
Lemma digits_char l : Forall is_digit l → Forall char_ok l.
Proof. intros Hl. eapply Forall_impl; [exact Hl|]. intros c [H1 H2]. change (chr "0") with 48 in H1. change (chr "9") with 57 in H2. unfold char_ok. lia. Qed.
Lemma writes_int fd n : 0 ≤ n < 2 ^ 31 → writes fd (uprintint fd (s64 (s32 n)) 10 true) (decimal n) tt.
Proof.
  intros Hn. destruct (uprintint_digits_spec 64 n) as (_ & Hd & _ & Hlen); [split; [lia|]; apply (Z.lt_le_trans _ (2 ^ 31)); [lia|by vm_compute]|lia|].
  assert (s64 (s32 n) = n) as -> by (rewrite s32_small by lia; unfold s64; rewrite Z.mod_small; lia). unfold uprintint, uprintint_buf. rewrite (proj2 (Z.ltb_ge n 0)) by lia. cbn [andb]. rewrite u64_small by lia. rewrite app_nil_r.
  rewrite (proj2 (Nat.ltb_ge _ _)) by (apply Hlen; [lia|]; apply (Z.lt_le_trans _ (2 ^ 31)); [lia|by vm_compute]). apply writes_chars, Forall_reverse, digits_char, Hd.
Qed.

(** *** Formats, one piece at a time *)

Lemma vprintf_end fuel fd ap : writes fd (vprintf_loop fuel fd [] false ap) [] tt.
Proof. destruct fuel; apply writes_ret. Qed.
Lemma vprintf_char fuel fd c fmt ap l : c ≠ chr "%" → char_ok c → writes fd (vprintf_loop fuel fd fmt false ap) l tt →
  writes fd (vprintf_loop (S fuel) fd (c :: fmt) false ap) (c :: l) tt.
Proof. intros Hc Hok Hl. cbn [vprintf_loop negb]. rewrite (proj2 (Z.eqb_neq _ _)) by done. apply (writes_bind fd _ _ [c] l tt); [by apply writes_putc|done]. Qed.
Lemma vprintf_d fuel fd n fmt ap l : 0 ≤ n < 2 ^ 31 → writes fd (vprintf_loop fuel fd fmt false ap) l tt →
  writes fd (vprintf_loop (S (S fuel)) fd (chr "%" :: chr "d" :: fmt) false (Aint n :: ap)) (decimal n ++ l) tt.
Proof.
  intros Hn Hl. change (vprintf_loop (S (S fuel)) fd (chr "%" :: chr "d" :: fmt) false (Aint n :: ap)) with (let* ap := (uprintint fd (s64 (s32 n)) 10 true ;; ret ap) in vprintf_loop fuel fd fmt false ap).
  rewrite <- (app_nil_r (decimal n)). apply (writes_bind fd _ _ _ _ ap); [apply (writes_bind fd _ _ _ _ tt); [by apply writes_int|apply writes_ret]|done].
Qed.
Lemma vprintf_s fuel fd s fmt ap l : Forall char_ok s → writes fd (vprintf_loop fuel fd fmt false ap) l tt →
  writes fd (vprintf_loop (S (S fuel)) fd (chr "%" :: chr "s" :: fmt) false (Astr (Some s) :: ap)) (s ++ l) tt.
Proof.
  intros Hs Hl. change (vprintf_loop (S (S fuel)) fd (chr "%" :: chr "s" :: fmt) false (Astr (Some s) :: ap)) with (let* ap := (for_each s (putc fd) ;; ret ap) in vprintf_loop fuel fd fmt false ap).
  rewrite <- (app_nil_r s) at 2. apply (writes_bind fd _ _ _ _ ap); [apply (writes_bind fd _ _ _ _ tt); [by apply writes_chars|apply writes_ret]|done].
Qed.
