(* ===== verification/Utils.v ===== *)
(** * Small user programs: [user/wc.c], [user/cat.c] and [user/echo.c]

    What a program reads from an open file is what [read] returns, piece by
    piece, and whether it ends with an error instead of the end of the file.
    [exit] inside a function is its result [false].  Files are found by name
    in [host]. *)

From S2P Require Import ShParse.
From S2P Require Import Prelude Bytes Printf Ulib.
#[local] Open Scope Z_scope.
#[local] Open Scope kern_scope.
#[local] Abbreviation M := (K output).

Record input := mk_input { in_pieces : list (list Z); in_error : bool }.

(** ** [wc] *)

Record counts := mk_counts { n_l : Z; n_w : Z; n_c : Z; inword : bool }.
Definition blanks : list Z := [chr " "; 13; 9; 10; 11].
Definition wc_byte (st : counts) (x : Z) : counts :=
  let c := s32 (n_c st + 1) in
  let l := if x =? 10 then s32 (n_l st + 1) else n_l st in
  if strchr blanks x then mk_counts l (n_w st) c false
  else if negb (inword st) then mk_counts l (s32 (n_w st + 1)) c true
  else mk_counts l (n_w st) c (inword st).
(** [while((n = read(fd, buf, sizeof(buf))) > 0)] *)
Fixpoint wc_loop (st : counts) (pieces : list (list Z)) : counts :=
  match pieces with
  | [] => st
  | buf :: pieces => if 0 <? Z.of_nat (length buf) then wc_loop (foldl wc_byte st buf) pieces else st
  end.
Definition wc (fd : input) (name : list Z) : M bool :=
  let st := wc_loop (mk_counts 0 0 0 false) (in_pieces fd) in
  if in_error fd then uprintf (str "wc: read error" ++ [10]) [] ;; ret false
  else uprintf (str "%d %d %d %s" ++ [10]) [Aint (n_l st); Aint (n_w st); Aint (n_c st); Astr (Some name)] ;; ret true.
Fixpoint wc_files (host : list Z → option input) (args : list (list Z)) : M Z :=
  match args with
  | [] => ret 0
  | arg :: args =>
      match host arg with
      | None => uprintf (str "wc: cannot open %s" ++ [10]) [Astr (Some arg)] ;; ret 1
      | Some fd =>
          let* ok := wc fd arg in
          if ok then wc_files host args else ret 1
      end
  end.
Definition wc_main (stdin : input) (host : list Z → option input) (args : list (list Z)) : M Z :=
  match args with
  | [] => let* ok := wc stdin [] in ret (if ok then 0 else 1)
  | _ => wc_files host args
  end.

(** ** [cat] and [echo] *)

(** [write], which succeeds, returns the number of bytes *)
Definition write (fd : Z) (l : list Z) : M Z := write_bytes fd l ;; ret (Z.of_nat (length l)).
(** the result [false] is a call of [exit] *)
Fixpoint cat_loop (pieces : list (list Z)) : M bool :=
  match pieces with
  | [] => ret true
  | buf :: pieces =>
      let n := Z.of_nat (length buf) in
      if 0 <? n then
        let* r := write 1 buf in
        if negb (r =? n) then fprintf 2 (str "cat: write error" ++ [10]) [] ;; ret false
        else cat_loop pieces
      else ret true
  end.
Definition cat (fd : input) : M bool :=
  let* ok := cat_loop (in_pieces fd) in
  if negb ok then ret false
  else if in_error fd then fprintf 2 (str "cat: read error" ++ [10]) [] ;; ret false else ret true.
Fixpoint cat_files (host : list Z → option input) (args : list (list Z)) : M Z :=
  match args with
  | [] => ret 0
  | arg :: args =>
      match host arg with
      | None => fprintf 2 (str "cat: cannot open %s" ++ [10]) [Astr (Some arg)] ;; ret 1
      | Some fd =>
          let* ok := cat fd in
          if ok then cat_files host args else ret 1
      end
  end.
Definition cat_main (stdin : input) (host : list Z → option input) (args : list (list Z)) : M Z :=
  match args with
  | [] => let* ok := cat stdin in ret (if ok then 0 else 1)
  | _ => cat_files host args
  end.
Fixpoint echo_main (args : list (list Z)) : M Z :=
  match args with
  | [] => ret 0
  | arg :: args =>
      write 1 arg ;;
      write 1 (match args with [] => [10] | _ => [chr " "] end) ;;
      echo_main args
  end.

(** ** What [wc] counts *)

Definition lines (l : list Z) : nat := length (filter (λ x, x = 10) l).
(** the pieces between blanks; the words are those that are not empty *)
Fixpoint pieces (l : list Z) : list (list Z) :=
  match l with
  | [] => [[]]
  | x :: l =>
      if strchr blanks x then [] :: pieces l
      else match pieces l with w :: ws => (x :: w) :: ws | [] => [[x]] end
  end.
Definition words (l : list Z) : list (list Z) := filter (λ w, w ≠ []) (pieces l).

(** the word the text starts with is not counted again *)
Definition more_words (st : bool) (l : list Z) : nat :=
  length (words l) - (if st then match pieces l with (_ :: _) :: _ => 1 | _ => 0 end else 0).
Lemma pieces_cons l : ∃ w ws, pieces l = w :: ws.
Proof. destruct l as [|x l]; cbn [pieces]; [by exists [], []|]. destruct (strchr blanks x); [by eexists _, _|]. destruct (pieces l); by eexists _, _. Qed.
Lemma wc_foldl l : ∀ st, 0 ≤ n_l st → 0 ≤ n_w st ≤ n_c st → n_l st ≤ n_c st → n_c st + Z.of_nat (length l) < 2 ^ 31 →
  let st' := foldl wc_byte st l in n_l st' = n_l st + Z.of_nat (lines l) ∧ n_w st' = n_w st + Z.of_nat (more_words (inword st) l) ∧ n_c st' = n_c st + Z.of_nat (length l).
Proof.
  induction l as [|x l IH]; intros st H1 H2 H3 H4.
  { assert (more_words (inword st) [] = 0%nat) as -> by (by destruct (inword st)). cbn. lia. }
  cbn [foldl length] in *. destruct (pieces_cons l) as (w & ws & Hp).
  destruct (IH (wc_byte st x)) as (I1 & I2 & I3); [unfold wc_byte; repeat case_match; cbn; rewrite ?s32_small by lia; lia..|].
  rewrite I1, I2, I3. clear I1 I2 I3. unfold lines, more_words, words. cbn [pieces]. rewrite filter_cons.
  assert (Hc : n_c (wc_byte st x) = n_c st + 1) by (unfold wc_byte; repeat case_match; cbn; rewrite s32_small by lia; done).
  assert (Hl : n_l (wc_byte st x) = n_l st + (if decide (x = 10) then 1 else 0)).
  { unfold wc_byte. destruct (Z.eqb_spec x 10); [rewrite decide_True by done|rewrite decide_False by done]; repeat case_match; cbn; rewrite ?s32_small by lia; lia. }
  rewrite Hc, Hl. split_and!; [case_decide; cbn [length]; lia| |lia].
  unfold wc_byte. destruct (strchr blanks x) eqn:Hb; cbn [n_w inword].
  - rewrite filter_cons_False by (by intros []). rewrite Hp. destruct (inword st); cbn [length]; lia.
  - rewrite Hp. rewrite (filter_cons_True _ (x :: w)) by done. destruct (inword st) eqn:Hin; cbn [negb n_w inword]; rewrite ?s32_small by lia.
    all: destruct w as [|y w]; [rewrite filter_cons_False by (by intros [])|rewrite (filter_cons_True _ (y :: w)) by done]; cbn [length]; lia.
Qed.
Lemma wc_loop_foldl ps : ∀ st, Forall (λ p, p ≠ []) ps → wc_loop st ps = foldl wc_byte st (concat ps).
Proof.
  induction ps as [|p ps IH]; intros st Hps; [done|]. apply Forall_cons in Hps as [Hp Hps]. cbn [wc_loop concat]. rewrite foldl_app, <- IH by done.
  destruct p; [done|]. rewrite (proj2 (Z.ltb_lt _ _)) by (cbn; lia). done.
Qed.

(** ** What the programs write *)

(** a file that can be read to its end, with its contents *)
Definition reads (host : list Z → option input) (name content : list Z) : Prop :=
  ∃ ps, host name = Some (mk_input ps false) ∧ Forall (λ p, p ≠ []) ps ∧ concat ps = content.
(** a numeral that [atoi] reads as [n] *)
Definition numeral (t : list Z) (n : Z) : Prop := Forall is_digit t ∧ t ≠ [] ∧ atoi t = n.
(** the line about a file *)
Definition report (file : list Z * list Z) (t : list Z) : Prop :=
  ∃ a b c, t = a ++ [chr " "] ++ b ++ [chr " "] ++ c ++ [chr " "] ++ file.1 ++ [10] ∧
    numeral a (Z.of_nat (lines file.2)) ∧ numeral b (Z.of_nat (length (words file.2))) ∧ numeral c (Z.of_nat (length file.2)).

Lemma more_words_false l : more_words false l = length (words l).
Proof. unfold more_words. lia. Qed.
Lemma lines_le l : (lines l ≤ length l)%nat.
Proof. apply length_filter. Qed.
Lemma words_le l : (length (words l) ≤ length l)%nat.
Proof.
  unfold words. induction l as [|x l IH]; [done|]. cbn [pieces length]. destruct (strchr blanks x).
  - rewrite filter_cons_False by (by intros []). lia.
  - destruct (pieces_cons l) as (w & ws & Hp). rewrite Hp in *. rewrite (filter_cons_True _ (x :: w)) by done. destruct w as [|y w]; [rewrite filter_cons_False in IH by (by intros [])|rewrite (filter_cons_True _ (y :: w)) in IH by done]; cbn [length] in *; lia.
Qed.
Lemma decimal_numeral n : 0 ≤ n < 2 ^ 31 → numeral (decimal n) n.
Proof. intros Hn. destruct (decimal_atoi n Hn) as (H1 & H2 & H3). done. Qed.
Lemma writes_wc name ps : Forall (λ p, p ≠ []) ps → Forall char_ok name → Z.of_nat (length (concat ps)) < 2 ^ 31 →
  ∃ t, report (name, concat ps) t ∧ writes 1 (wc (mk_input ps false) name) t true.
Proof.
  intros Hps Hname Hlen. unfold wc. cbn [in_pieces in_error]. rewrite wc_loop_foldl by done. destruct (wc_foldl (concat ps) (mk_counts 0 0 0 false)) as (Hl & Hw & Hc); [done|done|done|done|].
  rewrite Hl, Hw, Hc. cbn [n_l n_w n_c inword]. rewrite more_words_false, !Z.add_0_l. pose proof (lines_le (concat ps)). pose proof (words_le (concat ps)).
  eexists. split; [eexists _, _, _; split; [reflexivity|split_and!; apply decimal_numeral; cbn [snd]; lia]|].
  match goal with |- writes _ _ ?t _ => rewrite <- (app_nil_r t) end. apply (writes_bind 1 _ _ _ _ tt); [|apply writes_ret]. change (uprintf (str "%d %d %d %s" ++ [10])) with (vprintf_loop 12 1 [chr "%"; chr "d"; chr " "; chr "%"; chr "d"; chr " "; chr "%"; chr "d"; chr " "; chr "%"; chr "s"; 10] false).
  cbn [app fst snd]. apply vprintf_d; [lia|]. apply vprintf_char; [done|done|]. apply vprintf_d; [lia|]. apply vprintf_char; [done|done|]. apply vprintf_d; [lia|]. apply vprintf_char; [done|done|].
  apply vprintf_s; [done|]. apply vprintf_char; [done|done|]. apply vprintf_end.
Qed.
Lemma writes_wc_files host files : Forall (λ f, reads host f.1 f.2 ∧ Forall char_ok f.1 ∧ Z.of_nat (length f.2) < 2 ^ 31) files →
  ∃ ts, Forall2 report files ts ∧ writes 1 (wc_files host files.*1) (concat ts) 0.
Proof.
  induction 1 as [|[name content] files ((ps & Hh & Hps & Heq) & Hname & Hlen) _ (ts & Hts & Hw)]; [exists []; split; [constructor|apply writes_ret]|]. cbn [fst snd] in *. subst content.
  destruct (writes_wc name ps Hps Hname Hlen) as (t & Ht & Hwt). exists (t :: ts). split; [constructor; [exact Ht|exact Hts]|]. cbn [fmap list_fmap fst wc_files concat]. rewrite Hh. by apply (writes_bind 1 _ _ _ _ true).
Qed.
Lemma writes_write fd l : writes fd (write fd l) l (Z.of_nat (length l)).
Proof. rewrite <- (app_nil_r l) at 2. apply (writes_bind fd _ _ _ _ tt); [apply writes_bytes|apply writes_ret]. Qed.
(** [cat] copies its files to the output *)
Lemma cat_copies host files : Forall (λ f, reads host f.1 f.2) files → writes 1 (cat_files host files.*1) (concat files.*2) 0.
Proof.
  assert (Hloop : ∀ ps, Forall (λ p, p ≠ []) ps → writes 1 (cat_loop ps) (concat ps) true).
  { induction 1 as [|p ps Hp Hps IH]; [apply writes_ret|]. cbn [cat_loop concat]. destruct p; [done|]. rewrite (proj2 (Z.ltb_lt _ _)) by (cbn; lia).
    eapply (writes_bind 1); [apply writes_write|]. by rewrite Z.eqb_refl. }
  induction 1 as [|[name content] files (ps & Hh & Hps & Heq) _ IH]; [apply writes_ret|]. cbn [fst snd] in Heq. subst content. cbn [fmap list_fmap fst snd cat_files concat]. cbn [fst snd] in Hh. rewrite Hh.
  apply (writes_bind 1 _ _ _ _ true); [|done]. unfold cat. cbn [in_pieces in_error]. rewrite <- (app_nil_r (concat ps)). apply (writes_bind 1 _ _ _ _ true); [by apply Hloop|apply writes_ret].
Qed.
(** [echo] writes its arguments, separated by blanks *)
Lemma echo_writes args : ∀ arg, writes 1 (echo_main (arg :: args)) (arg ++ concat (cons (chr " ") <$> args) ++ [10]) 0.
Proof.
  induction args as [|arg' args IH]; intros arg; cbn [echo_main fmap list_fmap concat].
  - eapply (writes_bind 1); [apply writes_write|]. eapply (writes_bind 1 _ _ [10] []); [apply writes_write|apply writes_ret].
  - eapply (writes_bind 1); [apply writes_write|]. rewrite <- app_assoc. eapply (writes_bind 1 _ _ [chr " "]); [apply writes_write|apply IH].
Qed.

(** C39: [wc] with the names of files that can be read writes one line for each,
    in order, and succeeds: three decimal numerals, which [atoi] reads as the
    number of newlines, of words and of bytes of the file, in whatever pieces
    [read] returns it, and the name; a word is a maximal piece without
    blanks. *)
Theorem wc_counts stdin host files : files ≠ [] →
  Forall (λ f, reads host f.1 f.2 ∧ Forall char_ok f.1 ∧ Z.of_nat (length f.2) < 2 ^ 31) files →
  ∃ ts, Forall2 report files ts ∧ wc_main stdin host files.*1 [] = Done 0 (pair 1 <$> concat ts).
Proof.
  intros Hne Hf. destruct (writes_wc_files host files Hf) as (ts & Hts & Hw). exists ts. split; [done|]. unfold wc_main. destruct files as [|f files]; [done|]. exact (Hw []).
Qed.
(** two files, the first read in two pieces *)
Definition wc_host0 (name : list Z) : option input :=
  if bool_decide (name = str "a") then Some (mk_input [str "one tw"; str "o" ++ [10]] false)
  else if bool_decide (name = str "b") then Some (mk_input [] false) else None.
Lemma wc_counts_witness : let files := [(str "a", str "one two" ++ [10]); (str "b", [])] in
  ∃ ts, Forall2 report files ts ∧ wc_main (mk_input [] false) wc_host0 files.*1 [] = Done 0 (pair 1 <$> concat ts).
Proof.
  apply wc_counts; [done|]. constructor; [|constructor; [|constructor]]; cbn [fst snd]; (split; [eexists; split; [reflexivity|split; [by repeat constructor|reflexivity]]|]); (split; [|done]); apply (bool_decide_unpack _); by vm_compute.
Defined.
