(* ===== verification/Start.v ===== *)
(** * From machine mode to [main], [kernel/start.c]

    Each hart starts in machine mode.  [start] sets up the registers that
    decide what supervisor mode may do, and enters [main] by [mret].  The
    registers are those of [kernel/riscv.h] that it uses. *)

From S2P Require Import Prelude.
#[local] Open Scope Z_scope.
#[local] Open Scope kern_scope.

Definition MSTATUS_MPP_MASK : Z := Z.shiftl 3 11.
Definition MSTATUS_MPP_S : Z := Z.shiftl 1 11.
Definition SIE_SEIE : Z := Z.shiftl 1 9.
Definition SIE_STIE : Z := Z.shiftl 1 5.
Definition MIE_STIE : Z := Z.shiftl 1 5.

(** privilege modes, with their encodings in [MPP] *)
Inductive mode := User | Supervisor | Machine.
Definition mpp (x : Z) : mode :=
  let b := Z.land (Z.shiftr x 11) 3 in
  if b =? 0 then User else if b =? 1 then Supervisor else Machine.
(** the registers of a hart; all have 64 bits *)
Record mregs := mk_mregs {
  mstatus : Z; mepc : Z; satp : Z; medeleg : Z; mideleg : Z; sie : Z; pmpaddr0 : Z; pmpcfg0 : Z;
  mie : Z; menvcfg : Z; mcounteren : Z; stimecmp : Z; time : Z; mhartid : Z; tp : Z; pc : Z; privilege : mode
}.
#[export] Instance eta_mregs : Eta mregs := λ r,
  mk_mregs (mstatus r) (mepc r) (satp r) (medeleg r) (mideleg r) (sie r) (pmpaddr0 r) (pmpcfg0 r)
    (mie r) (menvcfg r) (mcounteren r) (stimecmp r) (time r) (mhartid r) (tp r) (pc r) (privilege r).
#[export] Instance set_mstatus : Setter mstatus. Proof. solve_setter. Defined.
#[export] Instance set_mepc : Setter mepc. Proof. solve_setter. Defined.
#[export] Instance set_satp : Setter satp. Proof. solve_setter. Defined.
#[export] Instance set_medeleg : Setter medeleg. Proof. solve_setter. Defined.
#[export] Instance set_mideleg : Setter mideleg. Proof. solve_setter. Defined.
#[export] Instance set_sie : Setter sie. Proof. solve_setter. Defined.
#[export] Instance set_pmpaddr0 : Setter pmpaddr0. Proof. solve_setter. Defined.
#[export] Instance set_pmpcfg0 : Setter pmpcfg0. Proof. solve_setter. Defined.
#[export] Instance set_mie : Setter mie. Proof. solve_setter. Defined.
#[export] Instance set_menvcfg : Setter menvcfg. Proof. solve_setter. Defined.
#[export] Instance set_mcounteren : Setter mcounteren. Proof. solve_setter. Defined.
#[export] Instance set_stimecmp : Setter stimecmp. Proof. solve_setter. Defined.
#[export] Instance set_tp : Setter tp. Proof. solve_setter. Defined.
#[export] Instance set_pc : Setter pc. Proof. solve_setter. Defined.
#[export] Instance set_privilege : Setter privilege. Proof. solve_setter. Defined.
#[local] Abbreviation M := (K mregs).

Definition r (f : mregs → Z) : M Z := gets f.
Definition w (f : mregs → Z) `{!Setter f} (x : Z) : M unit := modify (λ s, s <| f := u64 x |>).

Definition timerinit : M unit :=
  let* x := r mie in
  w mie (Z.lor x MIE_STIE) ;;
  let* x := r menvcfg in
  w menvcfg (Z.lor x (Z.shiftl 1 63)) ;;
  let* x := r mcounteren in
  w mcounteren (Z.lor x 2) ;;
  let* t := r time in
  w stimecmp (t + 1000000).
(** the instruction [mret] *)
Definition mret : M unit := modify (λ s, s <| pc := mepc s |> <| privilege := mpp (mstatus s) |>).
(** [entry] is the address of [main] *)
Definition start (entry : Z) : M unit :=
  let* x := r mstatus in
  let x := Z.land x (Z.lnot MSTATUS_MPP_MASK) in
  let x := Z.lor x MSTATUS_MPP_S in
  w mstatus x ;;
  w mepc entry ;;
  w satp 0 ;;
  w medeleg 65535 ;;
  w mideleg 65535 ;;
  let* x := r sie in
  w sie (Z.lor (Z.lor x SIE_SEIE) SIE_STIE) ;;
  w pmpaddr0 (Z.ones 54) ;;
  w pmpcfg0 15 ;;
  timerinit ;;
  let* id := r mhartid in
  w tp (s32 id) ;;
  mret.

Lemma testbit_u64 x i : 0 ≤ i < 64 → Z.testbit (u64 x) i = Z.testbit x i.
Proof. intros Hi. unfold u64. apply Z.mod_pow2_bits_low. lia. Qed.
Lemma mpp_supervisor x : mpp (u64 (Z.lor (Z.land x (Z.lnot MSTATUS_MPP_MASK)) MSTATUS_MPP_S)) = Supervisor.
Proof.
  assert (Hb : ∀ i, 0 ≤ i < 2 → Z.testbit (u64 (Z.lor (Z.land x (Z.lnot MSTATUS_MPP_MASK)) MSTATUS_MPP_S)) (i + 11) = (i =? 0)).
  { intros i Hi. rewrite testbit_u64, Z.lor_spec, Z.land_spec, Z.lnot_spec by lia. assert (i = 0 ∨ i = 1) as [-> | ->] by lia; cbn; by rewrite andb_false_r. }
  unfold mpp. assert (Z.land (Z.shiftr (u64 (Z.lor (Z.land x (Z.lnot MSTATUS_MPP_MASK)) MSTATUS_MPP_S)) 11) 3 = 1) as ->; [|done].
  change 3 with (Z.ones 2). apply Z.bits_inj'. intros i Hi. rewrite Z.land_spec, Z.shiftr_spec, Z.testbit_ones_nonneg by lia. destruct (Z.ltb_spec i 2).
  - rewrite Hb, andb_true_r by lia. assert (i = 0 ∨ i = 1) as [-> | ->] by lia; done.
  - rewrite andb_false_r. change 1 with (2 ^ 0). rewrite Z.pow2_bits_false by lia. done.
Qed.
(** [start] enters [main] in supervisor mode, with paging off, all interrupts
    and exceptions delegated, external and timer interrupts enabled and the
    first one asked for, [stimecmp] and [time] usable, all of physical memory
    accessible, and the number of the hart in [tp] *)
Lemma start_enters_main entry s : 0 ≤ entry < 2 ^ 64 → 0 ≤ mhartid s < 2 ^ 31 →
  runs (start entry s) (λ _ s', privilege s' = Supervisor ∧ pc s' = entry ∧ satp s' = 0 ∧
    (∀ i, 0 ≤ i < 16 → Z.testbit (medeleg s') i = true ∧ Z.testbit (mideleg s') i = true) ∧
    Z.testbit (sie s') 9 = true ∧ Z.testbit (sie s') 5 = true ∧ Z.testbit (mie s') 5 = true ∧
    Z.testbit (menvcfg s') 63 = true ∧ Z.testbit (mcounteren s') 1 = true ∧ stimecmp s' = u64 (time s + 1000000) ∧
    pmpaddr0 s' = Z.ones 54 ∧ pmpcfg0 s' = 15 ∧ tp s' = mhartid s).
Proof.
  intros He Hh. apply runs_wp. unfold start, timerinit. repeat (apply wp_bind; try apply wp_done). apply wp_done.
  split_and!; [apply mpp_supervisor|by apply u64_small|done| |..].
  - intros i Hi. change (Z.testbit (Z.ones 16) i = true ∧ Z.testbit (Z.ones 16) i = true). by rewrite Z.ones_spec_low by lia.
  - change (Z.testbit (u64 (Z.lor (Z.lor (sie s) SIE_SEIE) SIE_STIE)) 9 = true). rewrite testbit_u64, !Z.lor_spec by lia. by rewrite orb_true_r.
  - change (Z.testbit (u64 (Z.lor (Z.lor (sie s) SIE_SEIE) SIE_STIE)) 5 = true). rewrite testbit_u64, !Z.lor_spec by lia. by rewrite orb_true_r.
  - change (Z.testbit (u64 (Z.lor (mie s) MIE_STIE)) 5 = true). rewrite testbit_u64, !Z.lor_spec by lia. by rewrite orb_true_r.
  - change (Z.testbit (u64 (Z.lor (menvcfg s) (Z.shiftl 1 63))) 63 = true). rewrite testbit_u64, !Z.lor_spec by lia. by rewrite orb_true_r.
  - change (Z.testbit (u64 (Z.lor (mcounteren s) 2)) 1 = true). rewrite testbit_u64, !Z.lor_spec by lia. by rewrite orb_true_r.
  - done.
  - done.
  - done.
  - change (u64 (s32 (mhartid s)) = mhartid s). rewrite s32_small by lia. by apply u64_small; lia.
Qed.
